(* ===== verification/_CoqProject ===== *)
-Q . S2P
Prelude.v
Goroutines.v
GoStrings.v
GoJson.v
GoTime.v
TaskResult.v
CodingScope.v
TaskTypes.v
TaskRegistry.v
TaskPrune.v
TaskLifecycle.v
TaskSystem.v
TaskProps.v
TaskStore.v
TaskWitness.v
BusInbound.v
BusOutbound.v
OutboxTypes.v
OutboxStore.v
OutboxCoordinator.v
OutboxRecords.v
OutboxSteps.v
OutboxMachine.v
OutboxLedger.v
OutboxValid.v
OutboxClaims.v
OutboxProps.v
OutboxWitness.v
InteractionTypes.v
InteractionRegistry.v
InteractionStore.v
InteractionHealth.v
InteractionInvariant.v
InteractionMachine.v
InteractionOutcome.v
InteractionSteps.v
InteractionProps.v
InteractionApproval.v
InteractionRetention.v
InteractionWitness.v
ObserverHub.v
ObserverWeights.v
ObserverViews.v
ObserverExec.v
ObserverLocal.v
ObserverInvariant.v
ObserverClosing.v
ObserverAdmission.v
ObserverTermination.v
ObserverProps.v
ObserverWitness.v
GoText.v
PatchFormat.v
LoopGuard.v
CronTypes.v
CronService.v
CronValid.v
CronSchedule.v
CronRuns.v
CronProps.v
CronWitness.v
GoRegexp.v
ProviderErrors.v
Cooldown.v
CallBudget.v
Fallback.v
ToolWitness.v
FileUtil.v
InboundSpool.v
SpoolSteps.v
SpoolProps.v
MessageBus.v
BusProps.v
SpoolWitness.v
Network.v
Credentials.v
CredentialProps.v
UpdateManifest.v
NodeUpdate.v
NodeUpdateProps.v
