(* ===== verification/Prelude.v ===== *)
(** * The durable state of the mintclaw agent runtime

    mintclaw runs language-model agents behind chat channels.  This
    development translates the parts of it that decide what is done once, what
    is kept and what is tried again:
    - what survives a crash or a restart: [src/pkg/tasks], the registry of
      background tasks (sub-agents, delegations, cron jobs, coding tasks) and
      of the delivery of their results; [src/pkg/interactions], the registry
      of the questions, approvals and external waits that suspend a turn until
      a person or a condition answers; [src/pkg/outbox], which keeps every
      outbound message from its admission to what the transport answered, so
      that a crash neither loses nor repeats it; the spool and the channels of
      [src/pkg/bus], which bring inbound messages to the agent loop and keep
      each until it is acknowledged; [src/pkg/cron], the schedule of the jobs
      that run agents at a time;
    - what an agent turn may do: [src/pkg/tools/loopguard], which stops a
      model that repeats itself, and [src/pkg/patchformat] with the tool
      [apply_patch], which edits files;
    - who may use a credential: [src/pkg/credentialbroker], the operator's
      policy and the grants a person approved, over the canonical origins of
      [src/pkg/browserpolicy];
    - which program a node runs: [src/pkg/nodes/update] and its coordinator,
      which replaces the companion program by a signed release and takes it
      back when that does not prove its health;
    - what happens when a model provider fails: of [src/pkg/providers] the
      classification of errors, the cooldowns, the budget of a run and the
      fallback chain.
    They come with the packages their records carry: [src/pkg/taskresult]
    (deliverables, reports, receipts), [src/pkg/coding/scope] with the
    identifier rules of [src/pkg/coding/task], the messages of [src/pkg/bus]
    with their normalization, and the trace scopes of [src/pkg/events].

    ** How the code is rendered

    A method of a registry, a store or the coordinator of the outbox holds a
    mutex (and, for interactions, a file lock) from its first to its last
    access, so it is one Rocq function from the old state to the new one and
    its result.  Where goroutines interleave between such sections (the
    subscribers of the interaction registry, the message bus, the cron
    service, the calls of a call budget, the supervisor of node updates) each
    section is a step and the
    schedule is arbitrary (below).
    Registries are records with the code's fields: a Go map is a
    [gmap string], a slice a list, an [int64] a [Z] (the code never computes
    near its bounds: counters grow by one per operation, times are
    milliseconds).  A Go string is a byte
    [string]; UTF-8 decoding, [strings.TrimSpace], rune bounds, [json.Marshal]
    and [json.MarshalIndent] are written out, since sizes in bytes decide what
    is trimmed and refused; so is package [regexp], which the error
    classifier decides by.  A function that returns an error returns
    [result E A]; its early returns are [reject b with e ;; k].  The order in
    which Go visits a map is a parameter ([MapOrder]), as is the permutation
    an unstable sort may pick.

    What comes from outside is an argument: the readings of the clock, fresh
    identifiers, the outcome of taking the locks, of reading the file and of
    the atomic file write ([WriteOutcome]: written, written but not synced,
    failed), SHA-256 ([Sha256]), the Unicode case tables ([UnicodeCase]), the
    BCP-47 parser of golang.org/x/text ([LanguageTags]), the parsers of URLs and
    IP addresses ([NetLibrary]) and the strict JSON decoder ([decodeSnapshot],
    [decode]).  Theorems that need the decoder to
    read back what was written say so in a hypothesis: on that very text, or,
    for runs of the outbox, on every record the disk takes ([readable]).

    ** Files

    - [Prelude]: the error monad, record update, map order, write outcomes,
      facts on sorted and consecutive sequences, tactics and hint databases.
    - [GoStrings], [GoJson]: the parts of the Go standard library the code
      uses; trimming a valid UTF-8 string leaves one that is no longer.
    - [GoTime]: instants of package [time] and their JSON text.  [GoText]:
      searching, splitting and replacing in package [strings].  [GoRegexp]:
      regular expressions and a matcher, with [MatchString_exact].
      [Goroutines]: stacks of goroutines that interleave.
    - [TaskResult] (taskresult/result.go), [CodingScope] (coding/scope/scope.go).
    - [BusInbound], [BusOutbound] (bus/types.go, inbound_context.go,
      outbound_context.go, outbound_metadata.go): message data, JSON layout,
      normalization, validation and merge of the metadata.

    Inbound messages:
    - [FileUtil] (fileutil/file.go): one directory on a disk that crashes, the
      system calls on it, the atomic write of a file stage by stage.
    - [InboundSpool] (inbound_spool.go, inbound_ack.go,
      inbound_document_intake.go): the records and every operation, over that
      directory, with the failure of each system call in [Env].
    - [SpoolSteps]: what each operation does to the record of one identity in
      every state a crash may leave ([moves]); runs.  [SpoolProps]: the
      properties of the spool.
    - [MessageBus] (bus.go): publishers, consumers and [Close] as stacks of
      [Instr] over buffered channels, the wait group and the spool; a crash
      starts a new bus on what is left of the directory.
    - [BusProps]: the accounts [bus_inv], the measure [to_go] of a closing bus,
      what a publisher was told ([told]), and the properties.
      [SpoolWitness]: spool and bus at concrete runs.

    The task registry:
    - [TaskTypes] (registry.go, coding.go, persist.go, prune.go): data, JSON
      layout, status predicates, validation of a stored record, event, snapshot.
    - [TaskRegistry] (events.go, helpers.go, persist.go, prune.go): event
      append, normalisation, save with rollback, retention.
    - [TaskLifecycle] (lifecycle.go, recovery.go, query.go, registry.go):
      loading, every operation, the recovery sweeps, the queries; the closures
      with which the agent loop records deliveries (agent/task_registry.go).
    - [TaskPrune], [TaskSystem], [TaskProps], [TaskStore]: lemmas and
      properties.  [TaskSystem.run] dispatches one operation; [transaction]
      is its specification: change some records, append events, save, or
      restore everything.  [TaskWitness] applies the properties to concrete
      registries.

    The outbox:
    - [OutboxTypes] (outbox.go, retired_payload.go, inspection.go): the record
      of a delivery, its identity, JSON layout and validation.
    - [OutboxStore] (outbox.go, recovery.go, retired_payload.go, retention.go):
      the operations on the directory of records, a map from ids to the bytes
      of the files, with the outcome of each read and write in [Env].
    - [OutboxCoordinator] (coordinator.go): dispatch leases, publication, the
      fence after an attempt, receipts, recovery, closing.
    - [OutboxRecords]: what each store operation does to the records, and
      the coordinator seen from one delivery, the steps it may take ([slot_step]) and the invariant they keep ([slot_ok], [wf]).
      [OutboxSteps]: every method takes such steps.  [OutboxMachine]: one type
      of operations, the dispatcher [step], runs [exec] with restarts; the
      store operation behind each method ([store_effect]) and the table of its
      status changes ([op_edge]).
    - [OutboxLedger]: the contract of a delivery ([ledger]) and the simulation.
      [OutboxValid]: well-formed records, and the retry budget.
      [OutboxClaims]: leases and receipts along runs, and what recovery hands
      out.
    - [OutboxProps]: the properties; [OutboxWitness]: at concrete runs.

    The interaction registry:
    - [InteractionTypes] (types.go, validate.go, helpers.go, presentation.go,
      [buildRecord] of lifecycle.go): data, JSON layout, validation.
    - [InteractionRegistry] (lifecycle.go, external_wait.go, persist.go,
      admission.go, events.go, notification_budget.go, query.go, registry.go):
      the operations.  The closure a method hands to [update] is its
      [..._mutate] function.
    - [InteractionStore]: what a load accepts, declaratively, and [healthy],
      the invariant; loading a healthy registry's snapshot gives it back.
    - [InteractionHealth], [InteractionInvariant]: what
      each closure may change of a record, the exactness of the trimming
      binary search, and what keeps a registry healthy.
    - [InteractionMachine]: one type of operations and the dispatcher [run].
      [InteractionOutcome]: what each operation does on every branch.
      [InteractionSteps]: the status steps of a record.
    - [InteractionProps] (with what an operation means to write, [meant], and the
      runs in order, [orderly]), [InteractionApproval], [InteractionRetention]
      (with the notification budget): the properties.  [InteractionWitness]: concrete
      runs, what they show, and the properties at concrete registries.

    The subscribers of the interaction registry:
    - [ObserverHub] (observer.go, notification_budget.go, subscription.go,
      shutdown.go, admission.go): the state [Hub] (the list of observers, one
      [observerDelivery] each, the queued observations, the budget) and the
      code as steps of goroutines.  A goroutine is a stack of [Instr], a step
      is one critical section, one atomic operation or one pass of a loop
      under the registry's mutex, and a [Choice] is a failure, a deadline or
      the calls a callback makes.  Only the dispatcher [exec], the stacks and
      the schedules ([System], [reachable]) are not code: they are how Go
      interleaves goroutines.
    - [ObserverWeights], [ObserverViews]: what each place in
      the code owes the shared counters, and the rights it holds (draining a
      delivery, draining the registry, the mutex).
    - [ObserverExec], [ObserverLocal], [ObserverInvariant]: every step balances
      the accounts and keeps the state well-formed, so [hub_inv] holds in every
      reachable state.
    - [ObserverClosing], [ObserverAdmission]: what follows of waits, of calls
      and of admission.  [ObserverTermination]: somebody can always run, and a
      measure every step lowers when the callbacks call nothing.
    - [ObserverProps]: the properties; [ObserverWitness]: at concrete
      schedules.

    The cron service:
    - [CronTypes] (service.go): schedules, payloads, jobs, validation, the
      migration of version 1, [computeNextRun].  [CronService]: the methods
      and the critical sections of the scheduler, on one [State] with the file.
      [CronSchedule]: the goroutines (callers, the scheduler loop, the
      dispatcher, the handlers, which may call back) as stacks of [Instr]; a
      step is one critical section.
    - [CronValid], [CronRuns]: the invariants of every reachable state;
      [CronProps]: the properties; [CronWitness]: at concrete runs, with
      concrete bugs.

    Tools:
    - [PatchFormat] (patchformat/patch.go, tools/fs/apply_patch.go): parser,
      preparation of one operation, the tool's loop, and what they accept and
      do.
    - [LoopGuard] (tools/loopguard/controller.go): the controller,
      a reference that counts over the whole history, and when the two agree.

    Providers:
    - [ProviderErrors] (error_classifier.go, types.go, model_ref.go,
      provider_metadata.go, providererrors): errors as trees of wrapped
      errors, the classification by [GoRegexp]'s matcher.
    - [Cooldown] (cooldown.go): the tracker, and a reference over the history
      of reports with which it agrees.
    - [CallBudget] (call_budget.go): the budget, and calls that interleave.
    - [Fallback] (fallback.go): the chain over candidates whose clock, context,
      token bucket and answer are given.
    - [ToolWitness]: tools and providers at concrete inputs.

    Credentials:
    - [Network] (browserpolicy/network.go): public addresses, numeric hosts,
      the canonical form of an origin.
    - [Credentials] (policy.go, login_flow.go, github.go, grants.go, lease.go):
      [NewPolicy] and what a policy permits; the [Authority] with its grants,
      their lifetimes (a store, shared with the leases) and every method.
    - [CredentialProps]: the invariant of an authority ([auth_inv]), runs of
      its methods and timers, what was granted ([granted]), the properties and
      their witnesses.

    Node updates:
    - [UpdateManifest] (manifest.go, executable.go): the order of release
      versions, manifests and their signatures; the order is total.
    - [NodeUpdate] (coordinator/state.go, store_unix.go, transaction.go,
      stage_unix.go, lifecycle.go, supervisor.go): the state with its
      validation, the directory of the two slots with what a crash may bring
      back ([Store]), every method of the coordinator, and the loop of the
      supervisor as steps ([sup_step]) between which the running program asks
      for things ([act]).  What a call meets is in [Env].
    - [NodeUpdateProps]: the protocol [step_of] and that every call keeps to
      it; runs; the properties and their witnesses at a concrete release.

    ** What is shown

    - Nothing is lost: unfinished or undelivered tasks and live interactions
      survive pruning, restarts and failing operations
      ([run_keeps_unfinished], [restart_keeps_unfinished], [Prune_keeps_live],
      [damaged_store_untouched]).
    - Results and answers are final: [final_result_immutable] (of tasks whose
      callers' closures leave final results alone: [Update] enforces nothing),
      [run_moves_records], [run_status_step]; an approval authorises one call
      ([ConsumeApproval_authorises], [approval_consumed_at_most_once]).
    - Memory and file agree: [run_atomic], [file_mirrors_memory],
      [failed_operation_restores], [validateSnapshot_exact]; after any run in
      which the clock is not behind the records, no late answer takes the
      message of another one ([late_answer_breaks_load] shows why) and the
      decoder reads back what is written, the store passes the validation of the
      next load ([run_stays_loadable]).
    - Concurrent writers: [change_is_compare_and_swap],
      [stale_revision_refused]; one live interaction per session, task and
      short id ([Create_admits_one], [FindNonterminalByTaskID_exact]).
    - Bounds: [pruneLocked_enforces_limits], [notifications_within_budget],
      and the two event trims compute what a naive one would
      ([trim_matches_reencoding], [trim_keeps_longest_tail]).
    - What operations do, error branches included: [Complete_awaits_delivery],
      [MarkActiveLost_complete], [Create_fresh_generation],
      [ClaimAnswer_outcome], [ClaimOverdue_complete].
    - Deliveries: the outbox refines the ledger ([outbox_refines_ledger]), so
      nothing is sent twice without a refusal ([no_resend_without_refusal]);
      [attempts_bounded]; what is on disk stays valid
      ([stored_records_stay_valid]); admission is idempotent
      ([admission_idempotent]) and leases are good once
      ([stale_lease_refused]); no waiter waits for ever and answers reach them,
      unless the waiter's own context ends first ([receipts_resolve],
      [answer_reaches_waiter]); recovery ends and hands
      out exactly what is owed ([recovery_completes], [recovery_exact]).
    - Subscribers: whatever the interleaving, a subscriber is called one at a
      time with what it was admitted to, in commit order
      ([observers_in_commit_order]), and is admitted to everything
      ([subscribers_miss_nothing]); all of it arrives when callbacks call
      nothing ([everything_is_delivered]); after a clean close nothing is
      called ([closed_subscription_silent], [closed_registry_silent]); no
      panic, and the budget is exact ([observers_within_budget]).
    - Cron: a handler is run once per claim and alone ([one_run_per_claim]);
      a recurring job always has a next run or a run under way
      ([recurring_jobs_stay_armed]); the schedule stays valid in memory and in
      the file ([stored_schedule_valid]); an edit is made or not
      ([mutations_all_or_nothing]); a file that could not be read is left
      alone ([unreadable_store_untouched]).
    - Patches: the parser accepts exactly the texts laid out as a patch
      ([parse_exact]) and an update is accepted exactly when its hunks fit
      ([update_exact]).
    - The loop guard judges as the reference does ([guard_matches_history])
      in bounded memory ([guard_memory_bounded]).
    - Providers: the classification by text follows the order of the pattern
      groups ([classifyByMessage_exact]); the cooldown is that of the history
      ([cooldown_matches_history]); the chain tries candidates in order, calls
      none that rests, and reports exactly what it called
      ([fallback_answers_in_order], [resting_candidate_not_called],
      [fallback_reports_what_it_called]); the budget counts every call and
      stops for good ([budget_accounts_for_calls],
      [stopped_budget_admits_nothing]).
    - Inbound messages: what was published survives until it is acknowledged
      or given up, whatever fails, closes or crashes
      ([published_survives], [accepted_until_acknowledged]); a receipt means
      that the message is gone for good ([acknowledged_for_good]); the guard
      of a document intake is a fence ([guard_is_never_rebound]); a replay is
      exact ([replay_exact]).  The streams keep their order and never panic
      ([bus_streams_in_order]), and [Close] comes back ([close_returns]).
    - Credentials: a request is authorized exactly while a grant for it is
      alive ([authorized_while_granted]); a lease dies with the generation of
      its grant ([lease_dies_with_its_grant]); grants stay within the policy
      and its limits ([grants_within_policy]); a policy permits exactly what
      the rules say ([permits_exact]), in whatever order they are written
      ([policy_order_independent]).
    - Node updates: every write is a step of the protocol
      ([calls_follow_protocol]), so that there is always a program to run, and
      besides the first only one that a request of the run asked for, by its
      digests and its signing authority ([always_a_program]); an
      update costs six starts at most ([trials_bounded]), the supervisor is
      done with it within fifty steps ([update_settles]), and an activation
      answers what it did ([activation_is_known]); versions are ordered
      totally ([versions_ordered]).
    - Places where the code does not do what it means to:
      [late_answer_breaks_load], [failed_create_leaves_predecessor_resolved],
      [settled_attempt_blocks_recovery], [ambiguous_hunk_accepted],
      [stale_update_loses_the_next_run], [update_survives_failed_save],
      [moved_in_its_own_run_is_deleted], [huge_interval_is_due],
      [attempt_under_another_key], [one_damaged_file_blocks_replay],
      [any_errno_is_network], [starts_what_it_gave_up] and
      [clock_back_hides_the_failure].

    ** Fuel

    Almost every recursion is structural.  The repetition of [GoRegexp] takes
    the length of the text as fuel and consumes a character at every turn
    ([MatchString_exact] needs no bound), the loop guard forgets at most as
    many signatures as it remembers, and the binary search [find_drop_loop],
    whose fuel is the length of the event log: the interval it searches has
    fewer positions than that and shrinks by one at least at every step
    ([find_drop_loop_least] needs no other bound).  The goroutines of
    [ObserverHub] need no fuel: a schedule is a list of steps, and
    [everything_is_delivered] shows that no schedule goes on for ever; the
    same holds of the schedules of [CronSchedule] and [MessageBus], which may
    go on ([close_returns] bounds what a closing bus still has to do), and of
    the supervisor of [NodeUpdate], which [update_settles] bounds.

    ** What is not modelled

    The retry loop and timeout of the file lock, directory scans and key files
    of the interaction package.  In [ObserverHub] the snapshot a gated
    subscriber receives and the durable write behind a commit are not
    repeated (they are the operations of [InteractionRegistry]; here the write
    succeeds or fails), readers of the registry's mutex appear only as a
    failed attempt to take it, and a callback that panics of itself, which the
    code recovers from, counts as one that returns.  Of the outbox, opening
    the directory and its process lock, the loop and report around the offline
    retirement of one payload, and the capacity report.  Of the cron service
    the expression library, the zone database, the JSON decoder and the status
    report; [EnableJob] returns a pointer into the live schedule, here a value;
    the tool that edits the schedule for a model.  Of the providers the
    diagnostics with their redaction, and the token bucket of the rate
    limiter, whose floats are what it answers at each candidate.  A crash
    leaves the directory of [FileUtil] as it was after some change since the
    last sync, in the order of the changes, as journaling file systems do;
    creating the spool's directory, identities with a path separator, and of
    the bus the runtime events, statistics, health report and stream delegate
    are left out.  Of the credential broker the providers of secrets, the fill
    and discovery of logins, the audit and the transport of approvals.  Of the
    node updates the temporary files, the installation of the coordinator, the
    control protocol of the child process, the redirects of downloads, and the
    readers of JSON, archives and executables.  And
    everything outside the packages named: channels, gateway, HTTP clients of
    model providers, the agent loop, other tools, the coding terminal
    interface. *)
From stdpp Require Export base gmap strings list fin_maps sorting.
From Stdlib Require Export ZArith Lia.
#[global] Open Scope Z_scope.

(** ** Results of fallible operations *)

(** A Go function that returns [(A, error)]. *)
Inductive result (E A : Type) : Type :=
| Ok (a : A)
| Err (e : E).
Arguments Ok {E A} a.
Arguments Err {E A} e.

Definition is_ok {E A} (r : result E A) : bool :=
  match r with Ok _ => true | Err _ => false end.

#[export] Instance result_ret {E} : MRet (result E) := fun A => @Ok E A.
#[export] Instance result_bind {E} : MBind (result E) := fun A B f m =>
  match m with Ok a => f a | Err e => Err e end.

Declare Scope go_scope.
Delimit Scope go_scope with go.
#[global] Open Scope go_scope.

(** [reject b with e ;; k] is Go's [if b { return e }; k]. *)
Notation "'reject' b 'with' e ;; k" := (if b then Err e else k)
  (at level 10, b at level 99, e at level 99, k at level 200,
   format "'reject'  b  'with'  e  ;; '//' k") : go_scope.

(** [require b else e ;; k] is Go's [if !b { return e }; k]. *)
Notation "'require' b 'else' e ;; k" := (if b then k else Err e)
  (at level 10, b at level 99, e at level 99, k at level 200,
   format "'require'  b  'else'  e  ;; '//' k") : go_scope.

(** The outcome of [fileutil.WriteFileAtomic]: written and synced, renamed into
    place but the directory sync failed, or failed before the rename. *)
Inductive WriteOutcome := WriteOk | WriteCommitted | WriteFailed.

Lemma result_bind_ok {E A B} (f : A → result E B) (m : result E A) b :
  (m ≫= f) = Ok b ↔ ∃ a, m = Ok a ∧ f a = Ok b.
Proof. destruct m; simpl; naive_solver. Qed.

Lemma reject_ok {E A} (b : bool) (e : E) (k : result E A) x :
  (reject b with e ;; k) = Ok x ↔ b = false ∧ k = Ok x.
Proof. destruct b; naive_solver. Qed.
Lemma bind_unit_ok {E A} (m : result E ()) (k : result E A) x :
  (m ≫= fun _ => k) = Ok x ↔ m = Ok tt ∧ k = Ok x.
Proof. destruct m as [[]|]; simpl; naive_solver. Qed.

(** Every element passes a check, the first failure wins: Go's
    [for _, x := range l { if err := f(x); err != nil { return err } }]. *)
Fixpoint check_all {E A} (f : A → result E ()) (l : list A) : result E () :=
  match l with
  | [] => Ok tt
  | x :: l' => match f x with Ok _ => check_all f l' | Err e => Err e end
  end.

Lemma check_all_ok {E A} (f : A → result E ()) l :
  check_all f l = Ok tt ↔ Forall (fun x => f x = Ok tt) l.
Proof.
  induction l as [|x l IH]; simpl; [by split|].
  rewrite Forall_cons, <- IH. destruct (f x) as [[]|]; naive_solver.
Qed.

(** ** Functional record update

    [r <| f := v |>] is the record [r] with its field [f] set to [v], and
    [r <| f ::= g |>] applies [g] to the field.  A record takes part by an
    [Eta] instance listing its constructor applied to all its projections; the
    update of a field is derived from it by abstracting that projection. *)
Class Eta (R : Type) := eta : R → R.
Class Update {R T : Type} (p : R → T) := update : (T → T) → R → R.
Arguments update {R T} p {_} f r /.

Ltac derive_update :=
  lazymatch goal with
  | |- @Update ?R ?T ?p =>
      let e := constr:(ltac:(typeclasses eauto) : Eta R) in
      let e := eval hnf in e in
      lazymatch eval pattern p in e with
      | ?F _ => let u := eval cbv beta in (fun (g : T → T) (r : R) => F (fun r' : R => g (p r')) r) in
                exact u
      end
  end.
#[export] Hint Extern 1 (Update _) => derive_update : typeclass_instances.

#[warning="-postfix-notation-not-level-1"]
Notation "r <| p := v |>" := (update p (fun _ => v) r)
  (at level 12, left associativity, p at level 9,
   format "r  <| p  :=  v |>") : go_scope.
#[warning="-postfix-notation-not-level-1"]
Notation "r <| p ::= g |>" := (update p g r)
  (at level 12, left associativity, p at level 9,
   format "r  <| p  ::=  g |>") : go_scope.

(** ** Ranging over a Go map

    Go does not specify the order in which [range] visits a map, and
    [slices.SortFunc] is not stable.  A model takes the visiting order from a
    [MapOrder]; a theorem holds for every one of them.  A stable sort of an
    arbitrary order yields every sorted permutation, so the two together cover
    what the unstable sort may return. *)
Class MapOrder := {
  go_range : ∀ V : Type, gmap string V → list (string * V);
  go_range_perm : ∀ V (m : gmap string V), go_range V m ≡ₚ map_to_list m;
}.
Arguments go_range {_ V} m.
Arguments go_range_perm {_ V} m.

#[export] Program Instance canonical_order : MapOrder | 100 := {|
  go_range := fun V m => map_to_list m
|}.
Next Obligation. done. Qed.

Section map_order.
Context `{MapOrder} {V : Type}.
Implicit Types m : gmap string V.

Lemma elem_of_go_range m k v : (k, v) ∈ go_range m ↔ m !! k = Some v.
Proof. by rewrite go_range_perm, elem_of_map_to_list. Qed.

Definition go_values m : list V := (go_range m).*2.
Definition go_keys m : list string := (go_range m).*1.

Lemma elem_of_go_values m v : v ∈ go_values m ↔ ∃ k, m !! k = Some v.
Proof.
  unfold go_values. rewrite list_elem_of_fmap. split.
  - intros ([k v'] & -> & Hin). exists k. by apply elem_of_go_range.
  - intros [k Hk]. exists (k, v). by rewrite elem_of_go_range.
Qed.

Lemma elem_of_go_keys m k : k ∈ go_keys m ↔ is_Some (m !! k).
Proof.
  unfold go_keys. rewrite list_elem_of_fmap. split.
  - intros ([k' v] & -> & Hin). exists v. by apply elem_of_go_range.
  - intros [v Hv]. exists (k, v). by rewrite elem_of_go_range.
Qed.

Lemma go_range_length m : length (go_range m) = size m.
Proof. rewrite go_range_perm. apply length_map_to_list. Qed.

Lemma nodup_keys_size m (l : list string) :
  NoDup l → (∀ k, k ∈ l ↔ is_Some (m !! k)) → length l = size m.
Proof.
  intros Hnd Hl. rewrite <- length_map_to_list, <- (length_fmap fst).
  apply Permutation_length, NoDup_Permutation; [done|apply NoDup_fst_map_to_list|].
  intros k. rewrite Hl, list_elem_of_fmap. split.
  - intros [v Hv]. exists (k, v). by rewrite elem_of_map_to_list.
  - intros ([k' v] & -> & Hin%elem_of_map_to_list). by exists v.
Qed.

Lemma go_keys_nodup m : NoDup (go_keys m).
Proof. unfold go_keys. rewrite go_range_perm. apply NoDup_fst_map_to_list. Qed.
End map_order.

(** Sorting by a comparison key, as [slices.SortFunc] with [cmp.Compare]. *)
Definition sort_by {A} (key : A → Z) (l : list A) : list A :=
  @merge_sort A (fun a b => key a ≤ key b) (fun a b => Z.le_dec (key a) (key b)) l.

Lemma sort_by_perm {A} (key : A → Z) (l : list A) : sort_by key l ≡ₚ l.
Proof. apply merge_sort_Permutation. Qed.

Lemma sort_by_elem_of {A} (key : A → Z) (l : list A) x : x ∈ sort_by key l ↔ x ∈ l.
Proof. by rewrite sort_by_perm. Qed.

(** ** Generic lemmas on lists *)

(** The last [n] elements, as the slice [l[len(l)-n:]] when [n <= len(l)]. *)
Definition last_n {A} (n : nat) (l : list A) : list A := drop (length l - n) l.

Lemma length_last_n {A} n (l : list A) : (n ≤ length l)%nat → length (last_n n l) = n.
Proof. intros. unfold last_n. rewrite length_drop. lia. Qed.

Lemma last_n_suffix {A} n (l : list A) : last_n n l `suffix_of` l.
Proof. apply suffix_drop. Qed.

Lemma fmap_pointwise_id {A} (f : A → A) (l : list A) : (∀ x, f x = x) → f <$> l = l.
Proof. intros Hf. induction l as [|x l IH]; csimpl; [done|]. by rewrite Hf, IH. Qed.

Lemma fmap_idem {A} (f : A → A) (l : list A) : (∀ x, f (f x) = f x) → f <$> (f <$> l) = f <$> l.
Proof. intros Hf. induction l as [|x l IH]; csimpl; [done|]. by rewrite Hf, IH. Qed.

Lemma list_filter_iff' {A} (P Q : A → Prop) `{!∀ x, Decision (P x), !∀ x, Decision (Q x)} (l : list A) :
  (∀ x, x ∈ l → P x ↔ Q x) → filter P l = filter Q l.
Proof.
  induction l as [|x l IH]; intros Hl; [done|]. rewrite !filter_cons.
  rewrite IH by (intros; apply Hl; by right). specialize (Hl x ltac:(by left)).
  repeat case_decide; tauto || done.
Qed.

(** Each number is the successor of the one before it. *)
Fixpoint consecutive (l : list Z) : Prop :=
  match l with
  | x :: l' => match l' with y :: _ => y = x + 1 | [] => True end ∧ consecutive l'
  | [] => True
  end.

Lemma consecutive_app l1 x l2 : consecutive (l1 ++ [x]) → consecutive (x :: l2) → consecutive (l1 ++ x :: l2).
Proof.
  induction l1 as [|y l1 IH]; [done|]. intros [Hy Hl] Hx. specialize (IH Hl Hx). simpl. split; [|done].
  by destruct l1.
Qed.
Lemma consecutive_suffix l1 l2 : consecutive (l1 ++ l2) → consecutive l2.
Proof. induction l1 as [|y l1 IH]; [done|]. intros [_ ?]. auto. Qed.
Lemma consecutive_last l x y : consecutive (l ++ [y]) → x ∈ l ++ [y] → x ≤ y.
Proof.
  intros Hc Hx. revert Hc. induction l as [|z l IH] in x, Hx |- *; simpl; [by apply list_elem_of_singleton in Hx as ->|].
  intros [Hz Hl]. simpl in Hx. apply elem_of_cons in Hx as [->|Hx]; [|by apply IH].
  destruct (l ++ [y]) as [|w l'] eqn:E; [by destruct l|].
  assert (w ≤ y) by (apply IH; [by left|done]). lia.
Qed.

(** A number extends a run that ends at [o] when it is its successor. *)
Lemma consecutive_extend (o : option Z) x l :
  consecutive (option_list o ++ x :: l) ↔
  match o with Some p => x = p + 1 | None => True end ∧ consecutive (x :: l).
Proof. by destruct o; simpl; split; [intros [? ?]| intros [? ?] | intros ? | intros [? ?]]. Qed.

(** The numbers increase strictly and are all above [c]. *)
Fixpoint increasing_from (c : Z) (l : list Z) : Prop :=
  match l with [] => True | x :: l' => c < x ∧ increasing_from x l' end.

Lemma increasing_from_app c l1 x : increasing_from c l1 → c < x → (∀ y, y ∈ l1 → y < x) → increasing_from c (l1 ++ [x]).
Proof.
  revert c. induction l1 as [|y l1 IH]; intros c; simpl; [done|]. intros [Hy Hl] Hc Hx. split; [done|].
  apply IH; [done|apply Hx; by left|]. intros z Hz. apply Hx. by right.
Qed.
Lemma increasing_from_weaken c c' l : c ≤ c' → increasing_from c' l → increasing_from c l.
Proof. destruct l; [done|]. simpl. intros ? [? ?]. split; [lia|done]. Qed.
Lemma increasing_from_sublist c l l' : l' `sublist_of` l → increasing_from c l → increasing_from c l'.
Proof.
  intros Hs. revert c. induction Hs as [|x l1 l2 Hs IH|x l1 l2 Hs IH]; intros c; simpl; [done|..].
  - intros [? ?]. split; [done|by apply IH].
  - intros [? ?]. apply IH. eapply increasing_from_weaken; [|done]. lia.
Qed.
Lemma increasing_from_elem c l x : increasing_from c l → x ∈ l → c < x.
Proof.
  revert c. induction l as [|y l IH]; intros c; [by intros _ ?%elem_of_nil|].
  intros [? Hl] [->|Hin]%elem_of_cons; [done|]. specialize (IH _ Hl Hin). lia.
Qed.

(** ** Automation *)

(** One step of case analysis on a test or a match that blocks the goal or a
    hypothesis; [go_cases] repeats it and closes the impossible cases. *)
Ltac go_case_step :=
  match goal with
  | H : Ok _ = Ok _ |- _ => injection H as H
  | H : Err _ = Err _ |- _ => injection H as H
  | H : Ok _ = Err _ |- _ => discriminate H
  | H : Err _ = Ok _ |- _ => discriminate H
  | H : (_, _) = (_, _) |- _ => injection H as H
  | H : (if ?b then _ else _) = _ |- _ => let E := fresh "E" in destruct b eqn:E
  | H : (match ?x with _ => _ end) = _ |- _ => let E := fresh "E" in destruct x eqn:E
  end.
Ltac go_cases := repeat (go_case_step; simplify_eq/=; try done).

Create HintDb go discriminated.
Create Rewrite HintDb gorw.
Create Rewrite HintDb golen.
#[export] Hint Rewrite @length_app @length_drop @length_take @length_fmap : golen.
