(* ===== verification/Goroutines.v ===== *)
(** Goroutines as stacks of instructions: sums over what the instructions of
    every stack hold, and how one step changes them.  An invariant compares a
    shared counter with such a sum. *)
From S2P Require Import Prelude.

(** ** Sums over lists *)

Definition zsum {A} (f : A → Z) (l : list A) : Z := foldr (fun x => Z.add (f x)) 0 l.
#[global] Arguments zsum : simpl never.

Section zsum.
Context {A : Type}.
Implicit Types (f : A → Z) (l : list A).

Lemma zsum_nil f : zsum f [] = 0. Proof. done. Qed.
Lemma zsum_cons f x l : zsum f (x :: l) = f x + zsum f l. Proof. done. Qed.
Lemma zsum_app f l k : zsum f (l ++ k) = zsum f l + zsum f k.
Proof. induction l as [|x l IH]; [done|]. cbn [app]. rewrite !zsum_cons, IH. lia. Qed.
Lemma zsum_insert f l i x y : l !! i = Some x → zsum f (<[i:=y]> l) = zsum f l - f x + f y.
Proof.
  revert i. induction l as [|z l IH]; intros [|i] Hi; simplify_eq/=; rewrite !zsum_cons; [lia|]. rewrite (IH i Hi). lia.
Qed.
Lemma zsum_nonneg f l : (∀ x, x ∈ l → 0 ≤ f x) → 0 ≤ zsum f l.
Proof.
  induction l as [|x l IH]; intros Hf; [done|].
  rewrite zsum_cons. pose proof (Hf x ltac:(by left)).
  assert (0 ≤ zsum f l) by (apply IH; intros; apply Hf; by right). lia.
Qed.
Lemma zsum_elem f l x : (∀ x, x ∈ l → 0 ≤ f x) → x ∈ l → f x ≤ zsum f l.
Proof.
  intros Hf (l1 & l2 & ->)%list_elem_of_split. rewrite zsum_app, zsum_cons.
  assert (0 ≤ zsum f l1) by (apply zsum_nonneg; set_solver).
  assert (0 ≤ zsum f l2) by (apply zsum_nonneg; set_solver). lia.
Qed.
Lemma zsum_ext f g l : (∀ x, x ∈ l → f x = g x) → zsum f l = zsum g l.
Proof.
  induction l as [|x l IH]; intros Hf; [done|]. rewrite !zsum_cons, IH by (intros; apply Hf; by right).
  by rewrite (Hf x) by (by left).
Qed.
Lemma zsum_const f l k : (∀ x, x ∈ l → f x = k) → zsum f l = k * Z.of_nat (length l).
Proof.
  induction l as [|x l IH]; intros Hf; [rewrite zsum_nil; cbn; lia|]. rewrite zsum_cons, (Hf x) by (by left).
  rewrite IH by (intros; apply Hf; by right). cbn [length]. lia.
Qed.
Lemma zsum_zero f l : (∀ x, x ∈ l → f x = 0) → zsum f l = 0.
Proof. intros Hf. rewrite (zsum_const f l 0 Hf). lia. Qed.
Lemma zsum_zero_elem f l x : (∀ x, x ∈ l → 0 ≤ f x) → zsum f l = 0 → x ∈ l → f x = 0.
Proof. intros Hf Hz Hx. pose proof (zsum_elem f l x Hf Hx). specialize (Hf x Hx). lia. Qed.
End zsum.

#[export] Hint Rewrite @zsum_app @zsum_cons @zsum_nil : zsum.

Definition one_if (b : bool) : Z := if b then 1 else 0.
Lemma one_if_nonneg b : 0 ≤ one_if b ≤ 1. Proof. by destruct b. Qed.

(** ** Sums over the goroutines *)

Definition tsum {I} (w : I → Z) (ts : list (list I)) : Z := zsum (zsum w) ts.

Section goroutines.
Context {I : Type}.
Implicit Types (w : I → Z) (ts us vs : list (list I)) (k rest pushed : list I) (i j : I) (t : nat).

Lemma tsum_step w ts t i rest pushed :
  ts !! t = Some (i :: rest) → tsum w (<[t := pushed ++ rest]> ts) = tsum w ts - w i + zsum w pushed.
Proof. intros Ht. unfold tsum. rewrite (zsum_insert _ _ _ _ _ Ht), zsum_app, zsum_cons. lia. Qed.

Lemma tsum_spawn w ts k : tsum w (ts ++ [k]) = tsum w ts + zsum w k.
Proof. unfold tsum. rewrite zsum_app, zsum_cons, zsum_nil. lia. Qed.

(** An instruction stands in the stack of some goroutine. *)
Definition stands ts i : Prop := ∃ k, k ∈ ts ∧ i ∈ k.

Lemma stands_top ts t i rest : ts !! t = Some (i :: rest) → stands ts i.
Proof. intros Ht. exists (i :: rest). split; [by eapply list_elem_of_lookup_2|by left]. Qed.

Lemma stands_step ts t i rest pushed j :
  ts !! t = Some (i :: rest) → stands (<[t := pushed ++ rest]> ts) j → j ∈ pushed ∨ stands ts j.
Proof.
  intros Ht (k & Hk & Hj). apply list_elem_of_lookup in Hk as [t' Hk].
  apply list_lookup_insert_Some in Hk as [(<- & <- & _)|[_ Hk]].
  - apply elem_of_app in Hj as [Hj|Hj]; [by left|right].
    exists (i :: rest). split; [by eapply list_elem_of_lookup_2|by right].
  - right. exists k. split; [by eapply list_elem_of_lookup_2|done].
Qed.

Lemma stands_spawn ts k j : stands (ts ++ [k]) j → j ∈ k ∨ stands ts j.
Proof.
  intros (k' & [Hk|Hk%list_elem_of_singleton]%elem_of_app & Hj).
  - right. by exists k'.
  - left. by subst.
Qed.

Section weight.
Variable w : I → Z.
Hypothesis w_nonneg : ∀ i, 0 ≤ w i.

Lemma weights_nonneg k : 0 ≤ zsum w k.
Proof. by apply zsum_nonneg. Qed.
Lemma tsum_nonneg ts : 0 ≤ tsum w ts.
Proof. apply zsum_nonneg. intros. apply weights_nonneg. Qed.
Lemma tsum_stands ts i : stands ts i → w i ≤ tsum w ts.
Proof.
  intros (k & Hk & Hi). trans (zsum w k); [by apply zsum_elem|].
  apply (zsum_elem (zsum w)); [|done]. intros. apply weights_nonneg.
Qed.
Lemma tsum_zero_stands ts i : tsum w ts = 0 → stands ts i → w i = 0.
Proof. intros Hz Hi. pose proof (tsum_stands ts i Hi). specialize (w_nonneg i). lia. Qed.
End weight.

(** ** The lists the instructions hold *)

Definition tcat {A} (f : I → list A) ts : list A := mjoin (mjoin ∘ fmap f <$> ts).

Section tcat.
Context {A : Type}.
Variable f : I → list A.

Lemma tcat_app ts us : tcat f (ts ++ us) = tcat f ts ++ tcat f us.
Proof. unfold tcat. by rewrite fmap_app, join_app. Qed.
Lemma tcat_cons k ts : tcat f (k :: ts) = mjoin (f <$> k) ++ tcat f ts.
Proof. done. Qed.

Lemma tcat_step_split ts t i rest pushed : ts !! t = Some (i :: rest) → ∃ us vs,
  tcat f ts = tcat f us ++ f i ++ mjoin (f <$> rest) ++ tcat f vs
  ∧ tcat f (<[t := pushed ++ rest]> ts)
    = tcat f us ++ mjoin (f <$> pushed) ++ mjoin (f <$> rest) ++ tcat f vs
  ∧ (∀ w, tsum w ts = tsum w us + w i + zsum w rest + tsum w vs).
Proof.
  intros Ht. pose proof (lookup_lt_Some _ _ _ Ht) as Hlt. exists (take t ts), (drop (S t) ts).
  rewrite (insert_take_drop ts t (pushed ++ rest) Hlt), <- (take_drop_middle ts t (i :: rest) Ht) at 1.
  repeat split.
  - rewrite tcat_app, tcat_cons. cbn. by rewrite <- !app_assoc.
  - rewrite tcat_app, tcat_cons, fmap_app, join_app. by rewrite <- !app_assoc.
  - intros w. rewrite <- (take_drop_middle ts t (i :: rest) Ht) at 1.
    unfold tsum. rewrite zsum_app, !zsum_cons. lia.
Qed.

Lemma mjoin_empty l : (∀ i, i ∈ l → f i = []) → mjoin (f <$> l) = [].
Proof.
  induction l as [|i l IH]; intros Hl; [done|]. cbn. rewrite (Hl i) by (by left). cbn.
  apply IH. intros. apply Hl. by right.
Qed.
Lemma tcat_empty ts : (∀ i, stands ts i → f i = []) → tcat f ts = [].
Proof.
  induction ts as [|k ts IH]; intros Hl; [done|]. rewrite tcat_cons, mjoin_empty, IH; [done|..].
  - intros i (k' & Hk & Hi). apply Hl. exists k'. split; [by right|done].
  - intros i Hi. apply Hl. exists k. split; [by left|done].
Qed.

(** A step that neither takes nor adds. *)
Lemma tcat_same ts t i rest pushed :
  ts !! t = Some (i :: rest) → f i = mjoin (f <$> pushed) → tcat f (<[t := pushed ++ rest]> ts) = tcat f ts.
Proof. intros Ht Hf. destruct (tcat_step_split ts t i rest pushed Ht) as (us & vs & -> & -> & _). by rewrite Hf. Qed.

(** A step of the only instruction that may hold anything. *)
Variable w : I → Z.
Hypothesis w_nonneg : ∀ i, 0 ≤ w i.
Hypothesis w_zero : ∀ i, w i = 0 → f i = [].

Lemma tcat_token ts t i rest pushed :
  ts !! t = Some (i :: rest) → w i = 1 → tsum w ts ≤ 1 →
  tcat f ts = f i ∧ tcat f (<[t := pushed ++ rest]> ts) = mjoin (f <$> pushed).
Proof.
  intros Ht Hi Hle. destruct (tcat_step_split ts t i rest pushed Ht) as (us & vs & -> & -> & Hsum).
  specialize (Hsum w). pose proof (tsum_nonneg w w_nonneg us). pose proof (tsum_nonneg w w_nonneg vs).
  pose proof (weights_nonneg w w_nonneg rest).
  rewrite (tcat_empty us), (tcat_empty vs), (mjoin_empty rest), !app_nil_r; [done|..].
  - intros j Hj. apply w_zero. eapply zsum_zero_elem; [| |done]; [done|lia].
  - intros j Hj. apply w_zero. apply (tsum_zero_stands w w_nonneg vs); [lia|done].
  - intros j Hj. apply w_zero. apply (tsum_zero_stands w w_nonneg us); [lia|done].
Qed.
End tcat.
End goroutines.
