(* ===== verification/GoStrings.v ===== *)
(** Go strings: byte sequences, their UTF-8 decoding, and the functions of
    packages [strings], [unicode/utf8] and [regexp] that the modelled code
    calls.  A Go string is a [string] (a list of bytes); a rune is a [Z]. *)
From S2P Require Import Prelude.
From Stdlib Require Import Ascii.
From stdpp Require Import pretty.
#[local] Open Scope Z_scope.

(** ** Bytes *)

Definition byte_of (a : ascii) : Z := Z.of_N (N_of_ascii a).
Definition ascii_of (b : Z) : ascii := ascii_of_N (Z.to_N b).
Definition bytes (s : string) : list Z := byte_of <$> String.list_ascii_of_string s.
Definition of_bytes (l : list Z) : string := String.string_of_list_ascii (ascii_of <$> l).

(** [len(s)] *)
Definition len (s : string) : Z := Z.of_nat (String.length s).

Lemma byte_of_range a : 0 ≤ byte_of a < 256.
Proof. unfold byte_of. pose proof (N_ascii_bounded a). lia. Qed.

Lemma byte_of_ascii_of b : 0 ≤ b < 256 → byte_of (ascii_of b) = b.
Proof.
  intros. unfold byte_of, ascii_of. rewrite N_ascii_embedding; lia.
Qed.

Lemma ascii_of_byte_of a : ascii_of (byte_of a) = a.
Proof. unfold byte_of, ascii_of. by rewrite N2Z.id, ascii_N_embedding. Qed.

Lemma bytes_of_bytes l : Forall (fun b => 0 ≤ b < 256) l → bytes (of_bytes l) = l.
Proof.
  intros Hl. unfold bytes, of_bytes.
  rewrite String.list_ascii_of_string_of_list_ascii, <- list_fmap_compose.
  induction Hl as [|b l Hb _ IH]; [done|]. csimpl. by rewrite byte_of_ascii_of, IH.
Qed.

Lemma of_bytes_bytes s : of_bytes (bytes s) = s.
Proof.
  unfold of_bytes, bytes. rewrite <- list_fmap_compose.
  rewrite (list_fmap_ext _ id), list_fmap_id.
  - apply String.string_of_list_ascii_of_string.
  - intros ? a _. apply ascii_of_byte_of.
Qed.

Lemma bytes_range s : Forall (fun b => 0 ≤ b < 256) (bytes s).
Proof.
  unfold bytes. apply Forall_fmap, Forall_forall. intros a _. apply byte_of_range.
Qed.

Lemma len_app s t : len (s +:+ t) = len s + len t.
Proof.
  unfold len. enough (String.length (s +:+ t) = String.length s + String.length t)%nat by lia.
  induction s as [|a s IH]; [done|]. exact (f_equal S IH).
Qed.

Lemma string_app_assoc s t u : (s +:+ t) +:+ u = s +:+ (t +:+ u).
Proof. induction s as [|a s IH]; [done|]. exact (f_equal (String a) IH). Qed.

Lemma len_nonneg s : 0 ≤ len s.
Proof. unfold len. lia. Qed.

(** ** UTF-8 *)

Definition rune_error : Z := 65533.

Definition is_cont (b : Z) : bool := (128 <=? b) && (b <=? 191).

(** [utf8.DecodeRune] on a non-empty input [b :: l]: the rune and its width;
    an invalid encoding gives [(RuneError, 1)].  The ranges are those of the
    package's [first] and [acceptRanges] tables. *)
Definition decode_rune (b : Z) (l : list Z) : Z * nat :=
  if b <? 128 then (b, 1%nat)
  else if (194 <=? b) && (b <=? 223) then
    match l with
    | b1 :: _ => if is_cont b1 then ((b - 192) * 64 + (b1 - 128), 2%nat) else (rune_error, 1%nat)
    | _ => (rune_error, 1%nat)
    end
  else if (224 <=? b) && (b <=? 239) then
    match l with
    | b1 :: b2 :: _ =>
        let lo := if b =? 224 then 160 else 128 in
        let hi := if b =? 237 then 159 else 191 in
        if (lo <=? b1) && (b1 <=? hi) && is_cont b2
        then ((b - 224) * 4096 + (b1 - 128) * 64 + (b2 - 128), 3%nat)
        else (rune_error, 1%nat)
    | _ => (rune_error, 1%nat)
    end
  else if (240 <=? b) && (b <=? 244) then
    match l with
    | b1 :: b2 :: b3 :: _ =>
        let lo := if b =? 240 then 144 else 128 in
        let hi := if b =? 244 then 143 else 191 in
        if (lo <=? b1) && (b1 <=? hi) && is_cont b2 && is_cont b3
        then ((b - 240) * 262144 + (b1 - 128) * 4096 + (b2 - 128) * 64 + (b3 - 128), 4%nat)
        else (rune_error, 1%nat)
    | _ => (rune_error, 1%nat)
    end
  else (rune_error, 1%nat).

(** The sequence of (rune, width) pairs [range s] visits; [skip] counts the
    bytes of the current rune that are still to be passed over. *)
Fixpoint decode_from (skip : nat) (l : list Z) : list (Z * nat) :=
  match l with
  | [] => []
  | b :: l' =>
      match skip with
      | S k => decode_from k l'
      | O => let rn := decode_rune b l' in rn :: decode_from (rn.2 - 1) l'
      end
  end.

(** [[]rune(s)] *)
Definition runes (s : string) : list Z := (decode_from 0 (bytes s)).*1.
(** [utf8.RuneCountInString] *)
Definition rune_count (s : string) : Z := Z.of_nat (length (runes s)).
(** [utf8.ValidString]: no position decodes to an encoding error. *)
Definition valid_string (s : string) : bool :=
  forallb (fun rn => negb ((rn.1 =? rune_error) && (rn.2 =? 1)%nat)) (decode_from 0 (bytes s)).

(** A Unicode scalar value. *)
Definition scalar (r : Z) : Prop := 0 ≤ r < 55296 ∨ 57344 ≤ r < 1114112.

(** [utf8.AppendRune] on a scalar value. *)
Definition encode_rune (r : Z) : list Z :=
  if r <? 128 then [r]
  else if r <? 2048 then [192 + r / 64; 128 + r mod 64]
  else if r <? 65536 then [224 + r / 4096; 128 + (r / 64) mod 64; 128 + r mod 64]
  else [240 + r / 262144; 128 + (r / 4096) mod 64; 128 + (r / 64) mod 64; 128 + r mod 64].

(** [string(rs)] for runes that are scalar values. *)
Definition of_runes (rs : list Z) : string := of_bytes (rs ≫= encode_rune).

Ltac case_bool :=
  repeat match goal with
  | |- context [if ?b then _ else _] => let E := fresh "E" in destruct b eqn:E
  | _ : context [if ?b then _ else _] |- _ => let E := fresh "E" in destruct b eqn:E
  end;
  repeat match goal with
  | H : _ && _ = true |- _ => apply andb_prop in H; destruct H
  | H : _ && _ = false |- _ => apply andb_false_iff in H
  | H : negb _ = true |- _ => apply negb_true_iff in H
  end;
  rewrite ?Z.ltb_lt, ?Z.ltb_ge, ?Z.leb_le, ?Z.leb_gt, ?Z.eqb_eq, ?Z.eqb_neq in *.

Ltac bool_lia := unfold is_cont, scalar, rune_error in *; case_bool; cbn [fst snd]; lia.

Lemma decode_rune_scalar b l : 0 ≤ b → scalar (decode_rune b l).1.
Proof.
  intros. unfold decode_rune.
  destruct l as [|b1 [|b2 [|b3 l]]]; bool_lia.
Qed.

Lemma decode_rune_width b l : (1 ≤ (decode_rune b l).2 ≤ 4)%nat.
Proof. unfold decode_rune. destruct l as [|b1 [|b2 [|b3 l]]]; case_bool; simpl; lia. Qed.

Lemma runes_scalar s : Forall scalar (runes s).
Proof.
  unfold runes. generalize 0%nat. pose proof (bytes_range s) as Hs.
  induction Hs as [|b l Hb _ IH]; intros [|k]; simpl; auto.
  constructor; [apply decode_rune_scalar; lia | apply IH].
Qed.

Lemma encode_rune_range r : scalar r → Forall (fun b => 0 ≤ b < 256) (encode_rune r).
Proof.
  unfold scalar, encode_rune. intros. case_bool; repeat constructor;
    Z.div_mod_to_equations; lia.
Qed.

Lemma encode_rune_nonempty r : ∃ b l, encode_rune r = b :: l.
Proof. unfold encode_rune. case_bool; eauto. Qed.

(** Decoding what [encode_rune] wrote gives the rune back, whatever follows. *)
Lemma decode_encode_rune r rest : scalar r →
  ∃ b l, encode_rune r = b :: l ∧ decode_rune b (l ++ rest) = (r, S (length l)).
Proof.
  unfold encode_rune, decode_rune. intros Hr.
  destruct (r <? 128) eqn:E1; [|destruct (r <? 2048) eqn:E2; [|destruct (r <? 65536) eqn:E3]];
    eexists _, _; (split; [reflexivity|]); cbn [app length];
    unfold is_cont, scalar in *; case_bool;
    first [f_equal; Z.div_mod_to_equations; lia | exfalso; Z.div_mod_to_equations; lia].
Qed.

Lemma decode_from_skip k l rest : k = length l → decode_from k (l ++ rest) = decode_from 0 rest.
Proof. intros ->. induction l as [|b l IH]; simpl; [done|apply IH]. Qed.

Lemma decode_encode rs : Forall scalar rs →
  (decode_from 0 (rs ≫= encode_rune)).*1 = rs.
Proof.
  induction 1 as [|r rs Hr _ IH]; [done|]. csimpl.
  destruct (decode_encode_rune r (rs ≫= encode_rune) Hr) as (b & l & -> & Hd).
  cbn [app decode_from]. rewrite Hd. csimpl. f_equal.
  rewrite Nat.sub_0_r, decode_from_skip by done. exact IH.
Qed.

Lemma runes_of_runes rs : Forall scalar rs → runes (of_runes rs) = rs.
Proof.
  intros Hrs. unfold runes, of_runes. rewrite bytes_of_bytes; [by apply decode_encode|].
  induction Hrs as [|r rs Hr _ IH]; [constructor|]. csimpl.
  apply Forall_app. split; [by apply encode_rune_range|exact IH].
Qed.

(** [string([]rune(s)[:n])] *)
Definition rune_prefix (n : Z) (s : string) : string := of_runes (take (Z.to_nat n) (runes s)).

Lemma rune_prefix_runes n s : runes (rune_prefix n s) = take (Z.to_nat n) (runes s).
Proof. apply runes_of_runes, Forall_take, runes_scalar. Qed.

Lemma rune_prefix_count n s : 0 ≤ n → rune_count (rune_prefix n s) ≤ n.
Proof.
  intros. unfold rune_count. rewrite rune_prefix_runes, length_take. lia.
Qed.

Lemma encoded_valid rs : Forall scalar rs →
  forallb (fun rn => negb ((rn.1 =? rune_error) && (rn.2 =? 1)%nat))
    (decode_from 0 (rs ≫= encode_rune)) = true.
Proof.
  induction 1 as [|r rs Hr _ IH]; [done|]. csimpl.
  pose proof (decode_encode_rune r (rs ≫= encode_rune) Hr) as (b & l & Heq & Hd).
  assert (length l = 0%nat → r ≠ rune_error) as Hw.
  { intros Hl ->. vm_compute in Heq. by simplify_eq. }
  rewrite Heq. cbn [app decode_from]. rewrite Hd. cbn [forallb fst snd].
  rewrite Nat.sub_succ, Nat.sub_0_r, decode_from_skip by done. rewrite IH, andb_true_r.
  apply negb_true_iff, andb_false_iff.
  destruct (length l); [left; apply Z.eqb_neq; auto | by right].
Qed.

Lemma valid_rune_prefix n s : valid_string (rune_prefix n s) = true.
Proof.
  unfold valid_string, rune_prefix, of_runes.
  assert (Forall scalar (take (Z.to_nat n) (runes s))) as Hrs
    by apply Forall_take, runes_scalar.
  rewrite bytes_of_bytes; [by apply encoded_valid|].
  induction Hrs as [|r rs Hr _ IH]; [constructor|]. csimpl.
  apply Forall_app. split; [by apply encode_rune_range|exact IH].
Qed.

(** ** [strings.TrimSpace] *)

(** The encodings of the code points for which [unicode.IsSpace] holds. *)
Definition white_space : list (list Z) :=
  [[9]; [10]; [11]; [12]; [13]; [32]; [194; 133]; [194; 160]; [225; 154; 128];
   [226; 128; 128]; [226; 128; 129]; [226; 128; 130]; [226; 128; 131]; [226; 128; 132];
   [226; 128; 133]; [226; 128; 134]; [226; 128; 135]; [226; 128; 136]; [226; 128; 137];
   [226; 128; 138]; [226; 128; 168]; [226; 128; 169]; [226; 128; 175]; [226; 129; 159];
   [227; 128; 128]].

Fixpoint starts_with (w l : list Z) : bool :=
  match w, l with
  | [], _ => true
  | b :: w', c :: l' => (b =? c) && starts_with w' l'
  | _, [] => false
  end.

(** The width of the first element of [ws] that starts [l]. *)
Fixpoint match_width (ws : list (list Z)) (l : list Z) : option nat :=
  match ws with
  | [] => None
  | w :: ws' => if starts_with w l then Some (length w) else match_width ws' l
  end.

Fixpoint trim_from (ws : list (list Z)) (skip : nat) (l : list Z) : list Z :=
  match l with
  | [] => []
  | b :: l' =>
      match skip with
      | S k => trim_from ws k l'
      | O => match match_width ws l with
             | Some n => trim_from ws (n - 1) l'
             | None => l
             end
      end
  end.

Definition trim_left (l : list Z) : list Z := trim_from white_space 0 l.
Definition trim_right (l : list Z) : list Z :=
  rev (trim_from (@rev Z <$> white_space) 0 (rev l)).
Definition trim_space (s : string) : string := of_bytes (trim_right (trim_left (bytes s))).

(** [strings.TrimSpace(s) == ""] *)
Definition blank (s : string) : bool := String.eqb (trim_space s) "".

Lemma trim_from_suffix ws k l : trim_from ws k l `suffix_of` l.
Proof.
  revert k. induction l as [|b l IH]; intros k; [done|]. cbn [trim_from].
  destruct k; [|by apply suffix_cons_r].
  destruct (match_width ws (b :: l)); [by apply suffix_cons_r | done].
Qed.

Lemma trim_from_stuck ws k l b l' :
  trim_from ws k l = b :: l' → match_width ws (b :: l') = None.
Proof.
  revert k. induction l as [|c l IH]; intros k; [done|]. cbn [trim_from].
  destruct k as [|k]; [|apply IH].
  destruct (match_width ws (c :: l)) eqn:E; [apply IH | by intros [= -> ->]].
Qed.

Lemma trim_from_id ws l : match_width ws l = None → trim_from ws 0 l = l.
Proof. destruct l as [|b l]; [done|]. cbn [trim_from]. by intros ->. Qed.

Lemma starts_with_prefix w l l' :
  l' `prefix_of` l → starts_with w l' = true → starts_with w l = true.
Proof.
  intros [k ->]. revert l'. induction w as [|b w IH]; intros [|c l'] H; try done.
  simpl in *. apply andb_prop in H as [-> H]. by apply IH.
Qed.

Lemma match_width_prefix ws l l' :
  l' `prefix_of` l → match_width ws l = None → match_width ws l' = None.
Proof.
  intros Hp. induction ws as [|w ws IH]; [done|]. simpl.
  destruct (starts_with w l') eqn:E.
  - by rewrite (starts_with_prefix _ _ _ Hp E).
  - destruct (starts_with w l); [done|exact IH].
Qed.

Lemma trim_right_prefix l : trim_right l `prefix_of` l.
Proof.
  unfold trim_right. destruct (trim_from_suffix (@rev Z <$> white_space) 0 (rev l)) as [k Hk].
  exists (rev k). by rewrite <- rev_app_distr, <- Hk, rev_involutive.
Qed.

Lemma trim_from_idem ws l : trim_from ws 0 (trim_from ws 0 l) = trim_from ws 0 l.
Proof.
  destruct (trim_from ws 0 l) as [|b l'] eqn:E; [done|].
  by apply trim_from_id, (trim_from_stuck ws 0 l).
Qed.

Lemma trim_right_idem l : trim_right (trim_right l) = trim_right l.
Proof. unfold trim_right. by rewrite rev_involutive, trim_from_idem. Qed.

Lemma trim_left_right l : trim_left (trim_right (trim_left l)) = trim_right (trim_left l).
Proof.
  apply trim_from_id. apply (match_width_prefix _ (trim_left l)); [apply trim_right_prefix|].
  unfold trim_left. destruct (trim_from white_space 0 l) as [|b l'] eqn:E; [done|].
  by apply (trim_from_stuck _ 0 l).
Qed.

Lemma trim_bytes_range l :
  Forall (fun b => 0 ≤ b < 256) l → Forall (fun b => 0 ≤ b < 256) (trim_right (trim_left l)).
Proof.
  intros Hl. destruct (trim_right_prefix (trim_left l)) as [k Hk].
  destruct (trim_from_suffix white_space 0 l) as [k' Hk'].
  fold (trim_left l) in Hk'. rewrite Hk' in Hl. apply Forall_app in Hl as [_ Hl].
  rewrite Hk in Hl. by apply Forall_app in Hl as [Hl _].
Qed.

(** [strings.TrimSpace] is idempotent. *)
Lemma trim_space_idem s : trim_space (trim_space s) = trim_space s.
Proof.
  unfold trim_space. rewrite bytes_of_bytes by apply trim_bytes_range, bytes_range.
  by rewrite trim_left_right, trim_right_idem.
Qed.

Lemma blank_trim s : blank (trim_space s) = blank s.
Proof. unfold blank. by rewrite trim_space_idem. Qed.

Lemma blank_false s : blank s = false ↔ trim_space s ≠ "".
Proof. unfold blank. apply String.eqb_neq. Qed.

Lemma blank_true s : blank s = true ↔ trim_space s = "".
Proof. unfold blank. apply String.eqb_eq. Qed.

Lemma trimmed_blank s : trim_space s = s → blank s = String.eqb s "".
Proof. unfold blank. by intros ->. Qed.

#[export] Hint Rewrite trim_space_idem blank_trim : gorw.

Example trim_space_ex : trim_space (" a b " +:+ String (ascii_of_nat 9) "") = "a b".
Proof. reflexivity. Qed.
Example trim_space_nbsp : trim_space (of_bytes [194; 160; 120; 227; 128; 128]) = "x".
Proof. reflexivity. Qed.
Example runes_ex : runes (of_bytes [104; 195; 169; 240; 159; 152; 128; 255]) = [104; 233; 128512; 65533].
Proof. reflexivity. Qed.

(** ** Formatting and hashing *)

(** [fmt.Sprintf("%06d", z)] for [z >= 0]. *)
Fixpoint zeros (n : nat) : string := match n with O => "" | S n' => "0" +:+ zeros n' end.
Definition format_06d (z : Z) : string :=
  zeros (6 - String.length (pretty z)) +:+ pretty z.

(** [strings.CutPrefix] *)
Definition cut_prefix (p s : string) : option string :=
  if String.prefix p s then Some (String.substring (String.length p) (String.length s) s) else None.

(** The hexadecimal digest [hex.EncodeToString(sha256.Sum256(data))].  The code
    uses the digest as an opaque name of its argument, so the model takes the
    function from its environment. *)
Class Sha256 := sha256_hex : string → string.

(** [cmp.Compare] on strings is the bytewise lexicographic order. *)
Definition str_le (a b : string) : Prop := String.leb a b = true.
#[export] Instance str_le_dec a b : Decision (str_le a b).
Proof. unfold str_le. apply _. Defined.

(** Unicode case data (the tables of package [unicode]): the lower case of a
    rune, and the representative of its simple-folding orbit. *)
Class UnicodeCase := { rune_lower : Z → Z; rune_fold : Z → Z }.

Section case.
Context `{UnicodeCase}.
(** [strings.ToLower] on a valid string. *)
Definition to_lower (s : string) : string := of_runes (rune_lower <$> runes s).
(** [strings.EqualFold] *)
Definition equal_fold (s t : string) : bool :=
  bool_decide (rune_fold <$> runes s = rune_fold <$> runes t).
End case.

(** * Trimming valid UTF-8

    Trimming valid UTF-8: [strings.TrimSpace] cuts a valid string between
    runes, so that it stays valid and does not get longer. *)

Definition encode (rs : list Z) : list Z := rs ≫= encode_rune.

Lemma encode_range rs : Forall scalar rs → Forall (fun b => 0 ≤ b < 256) (encode rs).
Proof.
  unfold encode. induction 1 as [|r rs Hr _ IH]; [constructor|]. csimpl. apply Forall_app.
  split; [by apply encode_rune_range|exact IH].
Qed.

(** A string is valid exactly when its bytes are the encoding of its runes. *)
Lemma decode_rune_encode b l r w :
  0 ≤ b < 256 → decode_rune b l = (r, w) → (r =? rune_error) && (w =? 1)%nat = false →
  ∃ l1 l2, l = l1 ++ l2 ∧ encode_rune r = b :: l1 ∧ w = S (length l1).
Proof.
  intros Hb Hd Hv. unfold decode_rune in Hd.
  destruct (b <? 128) eqn:E1.
  { injection Hd as <- <-. exists [], l. unfold encode_rune. by rewrite E1. }
    destruct ((194 <=? b) && (b <=? 223)) eqn:E2; [|destruct ((224 <=? b) && (b <=? 239)) eqn:E3;
    [|destruct ((240 <=? b) && (b <=? 244)) eqn:E4; [|by injection Hd as <- <-]]].
  - destruct l as [|b1 l]; [by injection Hd as <- <-|].
    destruct (is_cont b1) eqn:C1; [|by injection Hd as <- <-]. injection Hd as <- <-.
    exists [b1], l. split_and!; [done| |done]. unfold encode_rune, is_cont in *. case_bool; try lia.
    repeat f_equal; Z.div_mod_to_equations; lia.
  - destruct l as [|b1 [|b2 l]]; [by injection Hd as <- <-..|].
    match type of Hd with (if ?c then _ else _) = _ => destruct c eqn:C1 end; [|by injection Hd as <- <-].
    injection Hd as <- <-. exists [b1; b2], l. split_and!; [done| |done].
    unfold encode_rune, is_cont in *. case_bool; try lia; repeat f_equal; Z.div_mod_to_equations; lia.
  - destruct l as [|b1 [|b2 [|b3 l]]]; [by injection Hd as <- <-..|].
    match type of Hd with (if ?c then _ else _) = _ => destruct c eqn:C1 end; [|by injection Hd as <- <-].
    injection Hd as <- <-. exists [b1; b2; b3], l. split_and!; [done| |done].
    unfold encode_rune, is_cont in *. case_bool; try lia; repeat f_equal; Z.div_mod_to_equations; lia.
Qed.

Lemma valid_bytes l :
  Forall (fun b => 0 ≤ b < 256) l →
  forallb (fun rn => negb ((rn.1 =? rune_error) && (rn.2 =? 1)%nat)) (decode_from 0 l) = true →
  l = encode (decode_from 0 l).*1.
Proof.
  revert l. apply (well_founded_ind (well_founded_ltof _ (@length Z)) (fun l => _ → _ → _)).
  intros [|b l] IH Hl Hv; [done|]. apply Forall_cons in Hl as [Hb Hl].
  cbn [decode_from forallb] in Hv |- *. apply andb_true_iff in Hv as [Hv1 Hv].
  destruct (decode_rune b l) as [r w] eqn:Hd. apply negb_true_iff in Hv1.
  destruct (decode_rune_encode _ _ _ _ Hb Hd Hv1) as (l1 & l2 & -> & He & ->).
  cbn [snd] in *. rewrite Nat.sub_succ, Nat.sub_0_r, decode_from_skip in Hv |- * by done.
  unfold encode. csimpl. rewrite He. cbn [app]. f_equal. f_equal.
  apply Forall_app in Hl as [_ Hl]. apply IH; [|done..]. unfold ltof. simpl. rewrite length_app. lia.
Qed.

Lemma valid_string_bytes s : valid_string s = true → bytes s = encode (runes s).
Proof. intros Hv. apply valid_bytes; [apply bytes_range|exact Hv]. Qed.

Lemma encoded_string rs :
  Forall scalar rs → valid_string (of_bytes (encode rs)) = true ∧ runes (of_bytes (encode rs)) = rs.
Proof.
  intros Hrs. split; [|exact (runes_of_runes rs Hrs)].
  unfold valid_string. rewrite bytes_of_bytes by by apply encode_range. by apply encoded_valid.
Qed.

(** ** Trimming on the left *)

Lemma starts_with_split w l : starts_with w l = true → ∃ l', l = w ++ l'.
Proof.
  revert l. induction w as [|b w IH]; intros l; [by exists l|]. destruct l as [|c l]; [done|].
  simpl. intros [->%Z.eqb_eq (l' & ->)%IH]%andb_true_iff. by exists l'.
Qed.

Lemma encode_prefix r r' rest rest' :
  scalar r → scalar r' → encode_rune r ++ rest = encode_rune r' ++ rest' → r = r'.
Proof.
  intros Hr Hr' Heq.
  destruct (decode_encode_rune r rest Hr) as (b & l & Hb & Hd).
  destruct (decode_encode_rune r' rest' Hr') as (b' & l' & Hb' & Hd').
  rewrite Hb, Hb' in Heq. cbn [app] in Heq. injection Heq as -> Heq. rewrite Heq in Hd. congruence.
Qed.

Definition white_runes : list Z :=
  [9; 10; 11; 12; 13; 32; 133; 160; 5760; 8192; 8193; 8194; 8195; 8196; 8197; 8198; 8199; 8200; 8201;
   8202; 8232; 8233; 8239; 8287; 12288].
Lemma white_space_runes : white_space = encode_rune <$> white_runes.
Proof. reflexivity. Qed.
Lemma white_runes_scalar : Forall scalar white_runes.
Proof. repeat constructor; unfold scalar; lia. Qed.

Lemma match_width_some ws l n :
  match_width ws l = Some n → ∃ w, w ∈ ws ∧ starts_with w l = true ∧ n = length w.
Proof.
  induction ws as [|w ws IH]; [done|]. simpl. destruct (starts_with w l) eqn:E.
  - intros [= <-]. exists w. split_and!; [by left|done..].
  - intros (w' & ? & ? & ?)%IH. exists w'. split_and!; [by right|done..].
Qed.

Lemma trim_from_skip ws k l rest : k = length l → trim_from ws k (l ++ rest) = trim_from ws 0 rest.
Proof. intros ->. induction l as [|b l IH]; [done|]. exact IH. Qed.

Lemma trim_left_encode rs :
  Forall scalar rs → ∃ k, trim_left (encode rs) = encode (drop k rs).
Proof.
  induction 1 as [|r rs Hr Hrs IH]; [by exists 0%nat|]. unfold encode, trim_left in *. csimpl.
  destruct (encode_rune_nonempty r) as (b & l & Hb).
  destruct (match_width white_space (encode_rune r ++ encode rs)) as [n|] eqn:Hm.
  - destruct IH as [k IH]. exists (S k). cbn [drop]. rewrite <- IH.
    destruct (match_width_some _ _ _ Hm) as (w & Hw & Hst & ->).
    rewrite white_space_runes, list_elem_of_fmap in Hw. destruct Hw as (wr & -> & Hwr).
    apply starts_with_split in Hst as (rest & Heq).
    assert (r = wr) as ->.
    { eapply encode_prefix; [done| |exact Heq]. by eapply Forall_forall; [apply white_runes_scalar|]. }
    unfold encode in Hm. rewrite Hb in Hm |- *. cbn [app trim_from] in Hm |- *. rewrite Hm.
    apply trim_from_skip. simpl. lia.
  - exists 0%nat. cbn [drop]. csimpl. by apply trim_from_id.
Qed.

(** ** Trimming on the right *)

Lemma encode_rune_shape r :
  scalar r → ∃ b l, encode_rune r = b :: l ∧ is_cont b = false ∧ Forall (fun c => is_cont c = true) l.
Proof.
  unfold scalar, encode_rune, is_cont. intros Hr.
  destruct (r <? 128) eqn:E1; [|destruct (r <? 2048) eqn:E2; [|destruct (r <? 65536) eqn:E3]];
    rewrite ?Z.ltb_lt, ?Z.ltb_ge in *; eexists _, _; (split; [reflexivity|]); split;
    repeat constructor;
    first [apply andb_true_iff; split; apply Z.leb_le; Z.div_mod_to_equations; lia
          | apply andb_false_iff; rewrite !Z.leb_gt; Z.div_mod_to_equations; lia].
Qed.

(** Runs of continuation bytes ended by a lead byte match only each other. *)
Lemma starts_with_runs c1 c2 x y rest :
  Forall (fun c => is_cont c = true) c1 → Forall (fun c => is_cont c = true) c2 →
  is_cont x = false → is_cont y = false →
  starts_with (c1 ++ [x]) (c2 ++ y :: rest) = true → c1 = c2 ∧ x = y.
Proof.
  intros H1. revert c2. induction H1 as [|a c1 Ha _ IH]; intros c2 H2 Hx Hy; destruct H2 as [|b c2 Hb H2]; cbn.
  - rewrite andb_true_r. by intros ->%Z.eqb_eq.
  - rewrite andb_true_r. intros ->%Z.eqb_eq. congruence.
  - intros [->%Z.eqb_eq _]%andb_true_iff. congruence.
  - intros [->%Z.eqb_eq Hs]%andb_true_iff. by destruct (IH c2 H2 Hx Hy Hs) as [-> ->].
Qed.

Lemma encode_suffix r w rest :
  scalar r → scalar w → starts_with (rev (encode_rune w)) (rev (encode_rune r) ++ rest) = true →
  encode_rune w = encode_rune r.
Proof.
  intros Hr Hw. destruct (encode_rune_shape r Hr) as (b & l & -> & Hb & Hl).
  destruct (encode_rune_shape w Hw) as (b' & l' & -> & Hb' & Hl').
  cbn [rev]. rewrite <- app_assoc. cbn [app]. intros Hs.
  apply starts_with_runs in Hs as [Heq ->]; [|by apply Forall_rev..|done|done].
  apply (f_equal (@rev Z)) in Heq. rewrite !rev_involutive in Heq. by subst.
Qed.

Lemma rev_encode rs r : rev (encode (rs ++ [r])) = rev (encode_rune r) ++ rev (encode rs).
Proof.
  unfold encode. rewrite bind_app, bind_singleton. apply rev_app_distr.
Qed.

Lemma trim_right_encode rs :
  Forall scalar rs → ∃ k, trim_right (encode rs) = encode (take k rs).
Proof.
  intros Hrs. induction rs as [|r rs IH] using rev_ind; [by exists 0%nat|].
  apply Forall_app in Hrs as [Hrs Hr]. apply Forall_cons in Hr as [Hr _]. unfold trim_right in *.
  rewrite rev_encode.
  destruct (match_width (@rev Z <$> white_space) (rev (encode_rune r) ++ rev (encode rs))) as [n|] eqn:Hm.
  - destruct (IH Hrs) as [k IH']. exists (min k (length rs)).
    rewrite take_app_le, <- take_take, (take_ge rs) by lia. rewrite <- IH'. f_equal.
    destruct (match_width_some _ _ _ Hm) as (w & Hw & Hst & ->).
    rewrite white_space_runes, <- list_fmap_compose, list_elem_of_fmap in Hw. destruct Hw as (wr & -> & Hwr).
    assert (encode_rune wr = encode_rune r) as Heq.
    { eapply encode_suffix; [exact Hr| |exact Hst]. by eapply Forall_forall; [apply white_runes_scalar|]. }
    unfold compose in Hm. rewrite Heq in Hm.
    destruct (rev (encode_rune r)) as [|c l] eqn:Hrev.
    { destruct (encode_rune_nonempty r) as (b & l & Hb). rewrite Hb in Hrev. simpl in Hrev. by destruct (rev l). }
    cbn [app trim_from] in Hm |- *. rewrite Hm. apply trim_from_skip. simpl. lia.
  - exists (length (rs ++ [r])). rewrite take_ge by done. rewrite trim_from_id by done.
    by rewrite <- rev_encode, rev_involutive.
Qed.

(** Trimming keeps a valid string valid and adds no rune. *)
Lemma trim_space_valid s :
  valid_string s = true →
  valid_string (trim_space s) = true ∧ rune_count (trim_space s) ≤ rune_count s.
Proof.
  intros Hv. unfold trim_space, rune_count. rewrite (valid_string_bytes _ Hv).
  pose proof (runes_scalar s) as Hs. destruct (trim_left_encode _ Hs) as [k ->].
  pose proof (Forall_drop _ k _ Hs) as Hs'. destruct (trim_right_encode _ Hs') as [k' ->].
  pose proof (Forall_take _ k' _ Hs') as Hs''. destruct (encoded_string _ Hs'') as [Hvalid ->].
  split; [done|]. rewrite length_take, length_drop. lia.
Qed.
