(* ===== verification/GoJson.v ===== *)
(** The part of package [encoding/json] the code uses: a JSON value, the
    string quoting of [json.Marshal] (HTML escaping on, as by default), and
    the layouts of [json.Marshal] and [json.MarshalIndent].  A Go value is
    marshalled by first building its [json] (one function per struct, in the
    components) and then rendering it. *)
From S2P Require Import Prelude GoStrings.
From stdpp Require Import pretty.
#[local] Open Scope Z_scope.

#[warnings="-register-all"]
Inductive json :=
| JNull
| JBool (b : bool)
| JInt (z : Z)
| JStr (s : string)
| JArr (l : list json)
| JObj (fields : list (string * json)).

(** Induction on [json] through the lists nested in it. *)
Section json_ind.
Variable P : json → Prop.
Hypotheses (Hnull : P JNull) (Hbool : ∀ b, P (JBool b)) (Hint : ∀ z, P (JInt z))
  (Hstr : ∀ s, P (JStr s)) (Harr : ∀ l, Forall P l → P (JArr l))
  (Hobj : ∀ l, Forall (fun f => P f.2) l → P (JObj l)).
Fixpoint json_nested_ind (v : json) : P v :=
  match v with
  | JNull => Hnull
  | JBool b => Hbool b
  | JInt z => Hint z
  | JStr s => Hstr s
  | JArr l => Harr l ((fix go l : Forall P l :=
      match l with
      | [] => Forall_nil_2 _
      | x :: l' => Forall_cons_2 _ _ _ (json_nested_ind x) (go l')
      end) l)
  | JObj l => Hobj l ((fix go l : Forall (fun f => P f.2) l :=
      match l with
      | [] => Forall_nil_2 _
      | x :: l' => Forall_cons_2 _ _ _ (json_nested_ind x.2) (go l')
      end) l)
  end.
End json_ind.

(** ** String quoting *)

Definition hex_digit (n : Z) : string :=
  match String.get (Z.to_nat n) "0123456789abcdef" with
  | Some c => String c ""
  | None => ""
  end.

(** The escape of one ASCII byte. *)
Definition escape_byte (b : Z) : string :=
  if (b =? 34) || (b =? 92) then "\" +:+ of_bytes [b]
  else if b =? 8 then "\b" else if b =? 12 then "\f" else if b =? 10 then "\n"
  else if b =? 13 then "\r" else if b =? 9 then "\t"
  else if (b <? 32) || (b =? 60) || (b =? 62) || (b =? 38)
  then "\u00" +:+ hex_digit (b / 16) +:+ hex_digit (b mod 16)
  else of_bytes [b].

Definition escape_rune (rn : Z * nat) : string :=
  if rn.1 <? 128 then escape_byte rn.1
  else if (rn.1 =? rune_error) && (rn.2 =? 1)%nat then "\ufffd"
  else if (rn.1 =? 8232) || (rn.1 =? 8233) then "\u202" +:+ hex_digit (rn.1 mod 16)
  else of_bytes (encode_rune rn.1).

Definition dquote : string := of_bytes [34].

Fixpoint concat_strings (l : list string) : string :=
  match l with [] => "" | s :: l' => s +:+ concat_strings l' end.

Definition quote (s : string) : string :=
  dquote +:+ concat_strings (escape_rune <$> decode_from 0 (bytes s)) +:+ dquote.

(** [strings.Join] *)
Fixpoint join (sep : string) (l : list string) : string :=
  match l with
  | [] => ""
  | [s] => s
  | s :: l' => s +:+ sep +:+ join sep l'
  end.

(** ** Layouts *)

(** [json.Marshal] *)
Fixpoint marshal (v : json) : string :=
  match v with
  | JNull => "null"
  | JBool b => if b then "true" else "false"
  | JInt z => pretty z
  | JStr s => quote s
  | JArr l => "[" +:+ join "," (List.map marshal l) +:+ "]"
  | JObj l => "{" +:+ join "," (List.map (fun f => quote f.1 +:+ ":" +:+ marshal f.2) l) +:+ "}"
  end.

(** The layout of [json.Indent]: [nl d] is the line break at depth [d]. *)
Fixpoint render (nl : nat → string) (d : nat) (v : json) : string :=
  match v with
  | JArr ((_ :: _) as l) =>
      "[" +:+ nl (S d) +:+ join ("," +:+ nl (S d)) (List.map (render nl (S d)) l) +:+ nl d +:+ "]"
  | JObj ((_ :: _) as l) =>
      "{" +:+ nl (S d) +:+
      join ("," +:+ nl (S d)) (List.map (fun f => quote f.1 +:+ ": " +:+ render nl (S d) f.2) l) +:+
      nl d +:+ "}"
  | _ => marshal v
  end.

Fixpoint repeat_string (n : nat) (s : string) : string :=
  match n with O => "" | S n' => s +:+ repeat_string n' s end.

Definition newline_at (prefix indent : string) (d : nat) : string :=
  of_bytes [10] +:+ prefix +:+ repeat_string d indent.

(** [json.MarshalIndent(v, prefix, indent)] *)
Definition marshal_indent (prefix indent : string) (v : json) : string :=
  render (newline_at prefix indent) 0 v.

(** A layout depends only on the line breaks at and below its depth. *)
Lemma render_ext nl1 nl2 v : ∀ d1 d2,
  (∀ k, nl1 (d1 + k)%nat = nl2 (d2 + k)%nat) → render nl1 d1 v = render nl2 d2 v.
Proof.
  induction v as [| | | |l IH|l IH] using json_nested_ind; intros d1 d2 Hnl; try done.
  all: assert (nl1 d1 = nl2 d2) as H0 by (rewrite <- (Nat.add_0_r d1), <- (Nat.add_0_r d2); apply Hnl).
  all: assert (∀ k, nl1 (S d1 + k)%nat = nl2 (S d2 + k)%nat) as HS
    by (intros k; specialize (Hnl (S k)); by rewrite <- !Nat.add_succ_comm in Hnl).
  all: assert (nl1 (S d1) = nl2 (S d2)) as H1
    by (specialize (HS 0%nat); by rewrite !Nat.add_0_r in HS).
  all: destruct l as [|x l]; [done|]; cbn [render]; rewrite H0, H1; do 4 f_equal.
  - apply map_ext_Forall. eapply Forall_impl; [exact IH|]. intros y Hy. by apply Hy.
  - apply map_ext_Forall. eapply Forall_impl; [exact IH|]. intros y Hy. simpl.
    by rewrite (Hy _ _ HS).
Qed.

(** Marshalling with a prefix of two indents is rendering two levels deep. *)
Lemma marshal_indent_prefix indent v :
  marshal_indent (indent +:+ indent) indent v = render (newline_at "" indent) 2 v.
Proof.
  apply render_ext. intros k. unfold newline_at. cbn [Nat.add repeat_string].
  by rewrite string_app_assoc.
Qed.

(** ** Struct fields *)

Definition field (name : string) (v : json) : list (string * json) := [(name, v)].
(** An [omitempty] (or [omitzero]) field. *)
Definition field_omit (name : string) (empty : bool) (v : json) : list (string * json) :=
  if empty then [] else [(name, v)].

Definition fstr name s := field name (JStr s).
Definition fstr_omit name s := field_omit name (String.eqb s "") (JStr s).
Definition fint name z := field name (JInt z).
Definition fint_omit name z := field_omit name (z =? 0) (JInt z).
Definition fbool_omit name b := field_omit name (negb b) (JBool b).
Definition fopt_omit {A} name (f : A → json) (o : option A) :=
  match o with Some a => field name (f a) | None => [] end.
Definition flist_omit {A} name (f : A → json) (l : list A) :=
  match l with [] => [] | _ => field name (JArr (List.map f l)) end.

(** [map[string]string]: the keys are written in increasing order. *)
Definition string_le (p q : string * string) : Prop := String.leb p.1 q.1 = true.
#[export] Instance string_le_dec p q : Decision (string_le p q).
Proof. unfold string_le. apply _. Defined.

Definition json_map (m : gmap string string) : json :=
  JObj ((fun p => (p.1, JStr p.2)) <$> merge_sort string_le (map_to_list m)).
Definition fmap_omit name (m : gmap string string) :=
  field_omit name (bool_decide (m = ∅)) (json_map m).

(** ** Sizes *)

Lemma join_cons sep s l : l ≠ [] → join sep (s :: l) = s +:+ sep +:+ join sep l.
Proof. by destruct l. Qed.

Lemma len_join_cons sep s l :
  l ≠ [] → len (join sep (s :: l)) = len s + len sep + len (join sep l).
Proof. intros. rewrite join_cons, !len_app by done. lia. Qed.

Example marshal_ex :
  marshal (JObj [("a", JInt (-3)); ("b", JArr [JBool true; JStr "x<y"])])
  = "{" +:+ dquote +:+ "a" +:+ dquote +:+ ":-3," +:+ dquote +:+ "b" +:+ dquote +:+ ":[true,"
    +:+ dquote +:+ "x\u003cy" +:+ dquote +:+ "]}".
Proof. vm_compute. reflexivity. Qed.
