(* ===== verification/GoTime.v ===== *)
(** The part of package [time] the code uses: instants with a zone, their
    order, and the RFC 3339 text [time.Time.MarshalJSON] writes. *)
From S2P Require Import Prelude GoStrings GoJson.
From stdpp Require Import pretty.
#[local] Open Scope Z_scope.

(** Nanoseconds since the zero time, 1 January of year 1 in UTC, and the zone
    the instant is shown in, in minutes east of UTC. *)
Record Time := mkTime { t_ns : Z; t_zone : Z }.
#[export] Instance Time_eq_dec : EqDecision Time. Proof. solve_decision. Defined.

Definition zero_time : Time := mkTime 0 0.
Definition IsZero (t : Time) : bool := t_ns t =? 0.
Definition UTC (t : Time) : Time := mkTime (t_ns t) 0.
Definition Before (t u : Time) : bool := t_ns t <? t_ns u.
(** [t.Add(-d)] *)
Definition sub_duration (t : Time) (d : Z) : Time := mkTime (t_ns t - d) (t_zone t).

(** Durations are nanoseconds.  [t.Add(d)], and [t.Sub(u)], which saturates at
    the bounds of [int64]. *)
Definition minute : Z := 60000000000.
Definition hour : Z := 60 * minute.
Definition Add (t : Time) (d : Z) : Time := mkTime (t_ns t + d) (t_zone t).
Definition max_duration : Z := 9223372036854775807.
Definition Sub (t u : Time) : Z := Z.max (- max_duration - 1) (Z.min max_duration (t_ns t - t_ns u)).

(** ** The civil date of a day

    Days are counted from 1 January of year 1; the computation shifts the year
    to start in March, so that the leap day is its last. *)
Definition civil (day : Z) : Z * Z * Z :=
  let z := day + 306 in
  let era := z / 146097 in
  let doe := z mod 146097 in
  let yoe := (doe - doe / 1460 + doe / 36524 - doe / 146096) / 365 in
  let doy := doe - (365 * yoe + yoe / 4 - yoe / 100) in
  let mp := (5 * doy + 2) / 153 in
  let d := doy - (153 * mp + 2) / 5 + 1 in
  let m := if mp <? 10 then mp + 3 else mp - 9 in
  let y := yoe + era * 400 + (if m <=? 2 then 1 else 0) in
  (y, m, d).

Example civil_first : civil 0 = (1, 1, 1). Proof. reflexivity. Qed.
Example civil_epoch : civil 719162 = (1970, 1, 1). Proof. reflexivity. Qed.
Example civil_leap : civil 738944 = (2024, 2, 29). Proof. reflexivity. Qed.

(** ** RFC 3339 with nanoseconds *)

(** [z] in decimal, with leading zeros up to [n] digits. *)
Definition pad (n : nat) (z : Z) : string :=
  let s := pretty z in zeros (n - String.length s) +:+ s.

Fixpoint trim_zeros (l : list Z) : list Z :=
  match l with
  | [] => []
  | b :: l' => match trim_zeros l' with [] => if b =? 48 then [] else [b] | t => b :: t end
  end.
(** The fraction of a second: up to nine digits, without trailing zeros. *)
Definition fraction (ns : Z) : string :=
  match trim_zeros (bytes (pad 9 ns)) with [] => "" | l => "." +:+ of_bytes l end.

Definition zone_text (zone : Z) : string :=
  if zone =? 0 then "Z"
  else (if zone <? 0 then "-" else "+") +:+ pad 2 (Z.abs zone / 60) +:+ ":" +:+ pad 2 (Z.abs zone mod 60).

Definition local_seconds (t : Time) : Z := t_ns t / 1000000000 + t_zone t * 60.
Definition year (t : Time) : Z := (civil (local_seconds t / 86400)).1.1.

(** [t.Format(time.RFC3339Nano)] *)
Definition format_time (t : Time) : string :=
  let s := local_seconds t in
  let '(y, m, d) := civil (s / 86400) in
  let r := s mod 86400 in
  pad 4 y +:+ "-" +:+ pad 2 m +:+ "-" +:+ pad 2 d +:+ "T" +:+
  pad 2 (r / 3600) +:+ ":" +:+ pad 2 (r / 60 mod 60) +:+ ":" +:+ pad 2 (r mod 60) +:+
  fraction (t_ns t mod 1000000000) +:+ zone_text (t_zone t).

(** [MarshalJSON] fails on a year or a zone that RFC 3339 cannot express. *)
Definition time_marshals (t : Time) : bool :=
  (0 <=? year t) && (year t <=? 9999) && (Z.abs (t_zone t) <? 24 * 60).

Definition ftime name t := field name (JStr (format_time t)).
(** An [omitzero] time; [omitempty] never omits a [time.Time]. *)
Definition ftime_omitzero name t := field_omit name (IsZero t) (JStr (format_time t)).

Example format_zero : format_time zero_time = "0001-01-01T00:00:00Z". Proof. vm_compute. reflexivity. Qed.
Example format_fraction :
  format_time (mkTime ((738944 * 86400 + 3661) * 1000000000 + 50000000) (-90)) = "2024-02-28T23:31:01.05-01:30".
Proof. vm_compute. reflexivity. Qed.
