(* ===== verification/TaskResult.v ===== *)
(** Package [pkg/taskresult]: the result contract shared by tools, durable
    tasks and interactions.  The structs with their JSON form, the deep copies,
    and the normalisation of a standalone objective output.  A nil slice and an
    empty one are both [[]]: every slice field is [omitempty], so the two are
    never told apart.  Pointers are [option]s. *)
From S2P Require Import Prelude GoStrings GoJson.

Definition ReportSchemaV1 : string := "deliverable_report.v1".
Definition MaxStandaloneResultOutputBytes : Z := 64 * 1024.
Definition ObjectiveKindResult : string := "result".
Definition ObjectiveKindExternalAction : string := "external_action".
Definition ObjectiveKindLiveHandoff : string := "live_handoff".
Definition ObjectiveRequirementRequired : string := "required".
Definition ObjectiveRequirementIfNeeded : string := "if_needed".

Definition NormalizeObjectiveRequirement (requirement kind : string) : string * bool :=
  let requirement := trim_space requirement in
  if String.eqb requirement "" || String.eqb requirement ObjectiveRequirementRequired
  then (requirement, true)
  else if String.eqb requirement ObjectiveRequirementIfNeeded
  then (requirement, String.eqb kind ObjectiveKindLiveHandoff)
  else ("", false).

(** ** Data *)

Record ArtifactRecovery := mkArtifactRecovery {
  ar_Kind : string; ar_ArtifactRef : string; ar_MediaRef : string; ar_WorkspaceID : string;
  ar_AgentID : string; ar_ActorID : string; ar_RouteID : string; ar_SessionID : string;
  ar_ToolCallID : string; ar_AuthorityKind : string; ar_OperationID : string;
  ar_DomainDeliveryID : string; ar_DomainJobID : string; ar_DomainOwnerDigest : string }.

Record Artifact := mkArtifact {
  a_Ref : string; a_LocalPath : string; a_Kind : string; a_Filename : string;
  a_ContentType : string; a_Delivered : bool; a_Recovery : option ArtifactRecovery }.
#[export] Instance eta_Artifact : Eta Artifact := fun a =>
  mkArtifact (a_Ref a) (a_LocalPath a) (a_Kind a) (a_Filename a) (a_ContentType a)
    (a_Delivered a) (a_Recovery a).

Record Receipt := mkReceipt {
  r_ID : string; r_Kind : string; r_Target : string; r_Action : string; r_Tool : string;
  r_Summary : string; r_Metadata : gmap string string }.
#[export] Instance eta_Receipt : Eta Receipt := fun r =>
  mkReceipt (r_ID r) (r_Kind r) (r_Target r) (r_Action r) (r_Tool r) (r_Summary r) (r_Metadata r).

Record ObjectiveOutput := mkObjectiveOutput {
  o_Kind : string; o_Text : string; o_Records : list (gmap string string);
  o_ArtifactRefs : list string; o_Truncated : bool }.
#[export] Instance eta_ObjectiveOutput : Eta ObjectiveOutput := fun o =>
  mkObjectiveOutput (o_Kind o) (o_Text o) (o_Records o) (o_ArtifactRefs o) (o_Truncated o).

Record ObjectiveAcceptance := mkObjectiveAcceptance {
  oa_OutputKind : string; oa_RequiredFields : list string; oa_MinItems : Z; oa_ExactJSON : bool }.

Record Item := mkItem {
  i_Item : string; i_Kind : string; i_Receipts : list Receipt;
  i_Output : option ObjectiveOutput; i_ExactJSON : bool }.

Inductive OutcomeStatus :=
| OutcomeSucceeded | OutcomePartial | OutcomeBlocked | OutcomeStatusOther (raw : string).
Definition OutcomeStatus_string (s : OutcomeStatus) : string :=
  match s with
  | OutcomeSucceeded => "succeeded" | OutcomePartial => "partial" | OutcomeBlocked => "blocked"
  | OutcomeStatusOther raw => raw
  end.

Record Outcome := mkOutcome {
  oc_Status : OutcomeStatus; oc_CompletedItems : list Item; oc_MissingItems : list string;
  oc_NotNeededItems : list string; oc_Explanation : string; oc_UserSummary : string }.

Record Claim := mkClaim {
  c_Kind : string; c_Text : string; c_Confidence : string; c_SourceRefs : list string;
  c_Metadata : gmap string string }.

Record FieldDelta := mkFieldDelta { fd_Field : string; fd_From : string; fd_To : string }.

Record Report := mkReport {
  rp_SchemaVersion : string; rp_ReportID : string; rp_ContentHash : string; rp_GeneratedAt : Z;
  rp_Summary : string; rp_Claims : list Claim; rp_FieldDeltas : list FieldDelta;
  rp_Provenance : gmap string string; rp_Metadata : gmap string string }.
#[export] Instance eta_Report : Eta Report := fun r =>
  mkReport (rp_SchemaVersion r) (rp_ReportID r) (rp_ContentHash r) (rp_GeneratedAt r)
    (rp_Summary r) (rp_Claims r) (rp_FieldDeltas r) (rp_Provenance r) (rp_Metadata r).

Record Deliverable := mkDeliverable {
  d_Text : string; d_Artifacts : list Artifact; d_Metadata : gmap string string;
  d_Report : option Report; d_ObjectiveOutcome : option Outcome;
  d_LifecycleReceipts : list Receipt }.
#[export] Instance eta_Deliverable : Eta Deliverable := fun d =>
  mkDeliverable (d_Text d) (d_Artifacts d) (d_Metadata d) (d_Report d)
    (d_ObjectiveOutcome d) (d_LifecycleReceipts d).

(** ** JSON *)

Definition ArtifactRecovery_json (r : ArtifactRecovery) : json := JObj (
  fstr "kind" (ar_Kind r) ++ fstr "artifact_ref" (ar_ArtifactRef r) ++
  fstr "media_ref" (ar_MediaRef r) ++ fstr "workspace_id" (ar_WorkspaceID r) ++
  fstr "agent_id" (ar_AgentID r) ++ fstr "actor_id" (ar_ActorID r) ++
  fstr "route_id" (ar_RouteID r) ++ fstr "session_id" (ar_SessionID r) ++
  fstr "tool_call_id" (ar_ToolCallID r) ++ fstr_omit "authority_kind" (ar_AuthorityKind r) ++
  fstr_omit "operation_id" (ar_OperationID r) ++
  fstr_omit "domain_delivery_id" (ar_DomainDeliveryID r) ++
  fstr_omit "domain_job_id" (ar_DomainJobID r) ++
  fstr_omit "domain_owner_digest" (ar_DomainOwnerDigest r)).

Definition Artifact_json (a : Artifact) : json := JObj (
  fstr "ref" (a_Ref a) ++ fstr_omit "local_path" (a_LocalPath a) ++ fstr_omit "kind" (a_Kind a) ++
  fstr_omit "filename" (a_Filename a) ++ fstr_omit "content_type" (a_ContentType a) ++
  fbool_omit "delivered" (a_Delivered a) ++
  fopt_omit "recovery" ArtifactRecovery_json (a_Recovery a)).

Definition Receipt_json (r : Receipt) : json := JObj (
  fstr "id" (r_ID r) ++ fstr "kind" (r_Kind r) ++ fstr_omit "target" (r_Target r) ++
  fstr_omit "action" (r_Action r) ++ fstr_omit "tool" (r_Tool r) ++
  fstr_omit "summary" (r_Summary r) ++ fmap_omit "metadata" (r_Metadata r)).

Definition ObjectiveOutput_json (o : ObjectiveOutput) : json := JObj (
  fstr "kind" (o_Kind o) ++ fstr_omit "text" (o_Text o) ++
  flist_omit "records" json_map (o_Records o) ++
  flist_omit "artifact_refs" JStr (o_ArtifactRefs o) ++ fbool_omit "truncated" (o_Truncated o)).

Definition Item_json (i : Item) : json := JObj (
  fstr "item" (i_Item i) ++ fstr_omit "kind" (i_Kind i) ++
  flist_omit "receipts" Receipt_json (i_Receipts i) ++
  fopt_omit "output" ObjectiveOutput_json (i_Output i) ++ fbool_omit "exact_json" (i_ExactJSON i)).

Definition Outcome_json (o : Outcome) : json := JObj (
  fstr "status" (OutcomeStatus_string (oc_Status o)) ++
  flist_omit "completed_items" Item_json (oc_CompletedItems o) ++
  flist_omit "missing_items" JStr (oc_MissingItems o) ++
  flist_omit "not_needed_items" JStr (oc_NotNeededItems o) ++
  fstr_omit "explanation" (oc_Explanation o) ++ fstr_omit "user_summary" (oc_UserSummary o)).

Definition Claim_json (c : Claim) : json := JObj (
  fstr "kind" (c_Kind c) ++ fstr "text" (c_Text c) ++ fstr_omit "confidence" (c_Confidence c) ++
  flist_omit "source_refs" JStr (c_SourceRefs c) ++ fmap_omit "metadata" (c_Metadata c)).

Definition FieldDelta_json (f : FieldDelta) : json := JObj (
  fstr "field" (fd_Field f) ++ fstr_omit "from" (fd_From f) ++ fstr_omit "to" (fd_To f)).

Definition Report_json (r : Report) : json := JObj (
  fstr "schema_version" (rp_SchemaVersion r) ++ fstr "report_id" (rp_ReportID r) ++
  fstr "content_hash" (rp_ContentHash r) ++ fint "generated_at" (rp_GeneratedAt r) ++
  fstr_omit "summary" (rp_Summary r) ++ flist_omit "claims" Claim_json (rp_Claims r) ++
  flist_omit "field_deltas" FieldDelta_json (rp_FieldDeltas r) ++
  fmap_omit "provenance" (rp_Provenance r) ++ fmap_omit "metadata" (rp_Metadata r)).

Definition Deliverable_json (d : Deliverable) : json := JObj (
  fstr_omit "text" (d_Text d) ++ flist_omit "artifacts" Artifact_json (d_Artifacts d) ++
  fmap_omit "metadata" (d_Metadata d) ++ fopt_omit "report" Report_json (d_Report d) ++
  fopt_omit "objective_outcome" Outcome_json (d_ObjectiveOutcome d) ++
  flist_omit "lifecycle_receipts" Receipt_json (d_LifecycleReceipts d)).

(** ** Deep copies *)

Definition CloneArtifactRecovery (input : option ArtifactRecovery) : option ArtifactRecovery := input.

(** A recoverable artifact does not keep its local path. *)
Definition CloneArtifacts (input : list Artifact) : list Artifact :=
  (fun a => let a := a <| a_Recovery ::= CloneArtifactRecovery |> in
            match a_Recovery a with Some _ => a <| a_LocalPath := "" |> | None => a end) <$> input.

Definition cloneStringMap (input : gmap string string) : gmap string string :=
  if bool_decide (size input = 0%nat) then ∅ else input.

Definition cloneReceipt (r : Receipt) : Receipt := r <| r_Metadata ::= cloneStringMap |>.
Definition CloneReceipts (input : list Receipt) : list Receipt := cloneReceipt <$> input.

Definition CloneObjectiveOutput (input : option ObjectiveOutput) : option ObjectiveOutput :=
  (fun o => mkObjectiveOutput (o_Kind o) (o_Text o) (o_Records o) (o_ArtifactRefs o) (o_Truncated o))
    <$> input.

Definition CloneOutcome (input : option Outcome) : option Outcome :=
  (fun o => mkOutcome (oc_Status o)
    ((fun i => mkItem (i_Item i) (i_Kind i) (cloneReceipt <$> i_Receipts i)
                 (CloneObjectiveOutput (i_Output i)) (i_ExactJSON i)) <$> oc_CompletedItems o)
    (oc_MissingItems o) (oc_NotNeededItems o) (oc_Explanation o) (oc_UserSummary o)) <$> input.

Definition CloneObjectiveAcceptance (input : option ObjectiveAcceptance) : option ObjectiveAcceptance :=
  (fun a => mkObjectiveAcceptance (oa_OutputKind a) (oa_RequiredFields a) (oa_MinItems a)
              (oa_ExactJSON a)) <$> input.

Definition CloneReport (input : option Report) : option Report :=
  (fun r => mkReport (rp_SchemaVersion r) (rp_ReportID r) (rp_ContentHash r) (rp_GeneratedAt r)
    (rp_Summary r)
    ((fun c => mkClaim (c_Kind c) (c_Text c) (c_Confidence c) (c_SourceRefs c)
                 (cloneStringMap (c_Metadata c))) <$> rp_Claims r)
    (rp_FieldDeltas r) (cloneStringMap (rp_Provenance r)) (cloneStringMap (rp_Metadata r))) <$> input.

Definition CloneDeliverable (input : option Deliverable) : option Deliverable :=
  (fun d => mkDeliverable (d_Text d) (CloneArtifacts (d_Artifacts d)) (cloneStringMap (d_Metadata d))
    (CloneReport (d_Report d)) (CloneOutcome (d_ObjectiveOutcome d))
    (CloneReceipts (d_LifecycleReceipts d))) <$> input.

Lemma cloneStringMap_id m : cloneStringMap m = m.
Proof.
  unfold cloneStringMap. case_bool_decide as E; [|done]. by apply map_size_empty_iff in E as ->.
Qed.
Lemma cloneReceipt_id r : cloneReceipt r = r.
Proof. destruct r. unfold cloneReceipt. simpl. by rewrite cloneStringMap_id. Qed.
Lemma CloneReceipts_id l : CloneReceipts l = l.
Proof. apply fmap_pointwise_id, cloneReceipt_id. Qed.
Lemma CloneObjectiveOutput_id o : CloneObjectiveOutput o = o.
Proof. by destruct o as [[]|]. Qed.
Lemma CloneOutcome_id o : CloneOutcome o = o.
Proof.
  destruct o as [[s items m n e u]|]; [|done]. csimpl. do 2 f_equal. apply fmap_pointwise_id.
  intros [i k rs out x]. simpl. rewrite CloneObjectiveOutput_id.
  f_equal. apply fmap_pointwise_id, cloneReceipt_id.
Qed.
Lemma CloneReport_id r : CloneReport r = r.
Proof.
  destruct r as [[sv id h g s cl fd p m]|]; [|done]. csimpl. rewrite !cloneStringMap_id.
  do 2 f_equal. apply fmap_pointwise_id. intros [k t c sr md]. simpl. by rewrite cloneStringMap_id.
Qed.
Lemma CloneArtifacts_idem l : CloneArtifacts (CloneArtifacts l) = CloneArtifacts l.
Proof. apply fmap_idem. by intros [r lp k f c d [rc|]]. Qed.

(** A copy differs from its original in the local paths of recoverable
    artifacts only, and copying a copy changes nothing more. *)
Lemma CloneDeliverable_fields d :
  CloneDeliverable d = (fun d => d <| d_Artifacts ::= CloneArtifacts |>) <$> d.
Proof.
  destruct d as [[t a m r o l]|]; [|done]. csimpl.
  by rewrite CloneReport_id, CloneOutcome_id, CloneReceipts_id, cloneStringMap_id.
Qed.
Lemma CloneDeliverable_idem d : CloneDeliverable (CloneDeliverable d) = CloneDeliverable d.
Proof.
  rewrite !CloneDeliverable_fields. destruct d as [d|]; [|done]. csimpl.
  by rewrite CloneArtifacts_idem.
Qed.

(** ** Standalone objective outputs *)

Section objective_output.
Context `{MapOrder}.
(** [json.Valid] *)
Variable json_valid : string → bool.

Local Abbreviation rejected msg := (Err (E := string) msg%string).

(** One record of a ["records"] output, keys and values trimmed. *)
Fixpoint normalize_fields (fields : list (string * string)) (acc : gmap string string)
    : result string (gmap string string) :=
  match fields with
  | [] => Ok acc
  | (key, value) :: rest =>
      let trimmedKey := trim_space key in
      let trimmedValue := trim_space value in
      reject String.eqb trimmedKey "" || String.eqb trimmedValue ""
             || (64 <? rune_count trimmedKey) || (4096 <? rune_count trimmedValue)
        with "record fields require bounded non-empty names and values"%string ;;
      reject bool_decide (is_Some (acc !! trimmedKey))
        with "record output contained duplicate normalized field names"%string ;;
      normalize_fields rest (<[trimmedKey := trimmedValue]> acc)
  end.

Definition normalize_record (acceptance : option ObjectiveAcceptance)
    (record : gmap string string) : result string (gmap string string) :=
  reject (size record =? 0)%nat || (64 <? size record)%nat
    with "each record must contain between 1 and 64 fields"%string ;;
  normalized ← normalize_fields (go_range record) ∅;
  reject match acceptance with
         | Some a => existsb (fun f => blank (default ""%string (normalized !! f))) (oa_RequiredFields a)
         | None => false
         end
    with "record output omitted a declared required field"%string ;;
  Ok normalized.

Fixpoint normalize_all {A B} (f : A → result string B) (l : list A) : result string (list B) :=
  match l with
  | [] => Ok []
  | x :: l' => y ← f x; ys ← normalize_all f l'; Ok (y :: ys)
  end.

Definition normalize_ref (ref : string) : result string string :=
  let ref := trim_space ref in
  reject String.eqb ref "" || (2048 <? rune_count ref)
    with "artifact references must be bounded and non-empty"%string ;;
  Ok ref.

Definition NormalizeObjectiveOutput (input : option ObjectiveOutput)
    (acceptance : option ObjectiveAcceptance) : result string ObjectiveOutput :=
  match CloneObjectiveOutput input with
  | None => rejected "standalone objective output was required"
  | Some output =>
      let output := output <| o_Kind ::= trim_space |> <| o_Text ::= trim_space |> in
      reject o_Truncated output with "standalone objective output was truncated"%string ;;
      reject match acceptance with
             | Some a => negb (String.eqb (o_Kind output) (oa_OutputKind a))
             | None => false
             end
        with "output kind did not match the declared acceptance contract"%string ;;
      if String.eqb (o_Kind output) "text" then
        reject String.eqb (o_Text output) "" with "standalone text output was required"%string ;;
        reject (0 <? length (o_Records output))%nat || (0 <? length (o_ArtifactRefs output))%nat
          with "text output contained fields for a different output kind"%string ;;
        reject match acceptance with
               | Some a => oa_ExactJSON a && negb (json_valid (o_Text output))
               | None => false
               end
          with "text output was not valid exact JSON"%string ;;
        Ok output
      else if String.eqb (o_Kind output) "records" then
        reject negb (String.eqb (o_Text output) "") || (0 <? length (o_ArtifactRefs output))%nat
          with "record output contained fields for a different output kind"%string ;;
        reject (length (o_Records output) =? 0)%nat && bool_decide (acceptance = None)
          with "at least one standalone record was required"%string ;;
        reject (1024 <? length (o_Records output))%nat
          with "record output exceeded the runtime item limit"%string ;;
        reject match acceptance with
               | Some a => Z.of_nat (length (o_Records output)) <? oa_MinItems a
               | None => false
               end
          with "record output did not meet the declared minimum item count"%string ;;
        records ← normalize_all (normalize_record acceptance) (o_Records output);
        Ok (output <| o_Records := records |>)
      else if String.eqb (o_Kind output) "artifact" then
        reject negb (String.eqb (o_Text output) "") || (0 <? length (o_Records output))%nat
          with "artifact output contained fields for a different output kind"%string ;;
        reject (length (o_ArtifactRefs output) =? 0)%nat || (64 <? length (o_ArtifactRefs output))%nat
          with "at least one bounded artifact reference was required"%string ;;
        refs ← normalize_all normalize_ref (o_ArtifactRefs output);
        Ok (output <| o_ArtifactRefs := refs |>)
      else rejected "output kind must be text, records, or artifact"
  end.

(** The loop of [StandaloneResultOutput]: the one result item, provided every
    other item carries its verified receipts; [None] is an early [return nil]. *)
Fixpoint standalone_items (items : list Item) (result : option ObjectiveOutput)
    : option (option ObjectiveOutput) :=
  match items with
  | [] => Some result
  | item :: items' =>
      if String.eqb (i_Kind item) ObjectiveKindResult then
        match result, i_Output item with
        | None, Some o => standalone_items items' (Some o)
        | _, _ => None
        end
      else if String.eqb (i_Kind item) ObjectiveKindExternalAction
              || String.eqb (i_Kind item) ObjectiveKindLiveHandoff then
        match i_Output item, i_Receipts item with
        | None, _ :: _ =>
            if forallb (fun r => negb (blank (r_ID r)) && String.eqb (r_Kind r) (i_Kind item))
                 (i_Receipts item)
            then standalone_items items' result else None
        | _, _ => None
        end
      else None
  end.

Definition StandaloneResultOutput (input : option Deliverable) : option ObjectiveOutput :=
  match input with
  | None => None
  | Some d =>
      match d_ObjectiveOutcome d with
      | Some oc =>
          match oc_Status oc, oc_MissingItems oc with
          | OutcomeSucceeded, [] =>
              match standalone_items (oc_CompletedItems oc) None with
              | Some (Some result) =>
                  match NormalizeObjectiveOutput (Some result) None with
                  | Ok output =>
                      if MaxStandaloneResultOutputBytes <? len (marshal (ObjectiveOutput_json output))
                      then None else Some output
                  | Err _ => None
                  end
              | _ => None
              end
          | _, _ => None
          end
      | None => None
      end
  end.
End objective_output.
