(* ===== verification/CodingScope.v ===== *)
(** Packages [pkg/coding/scope] and the identifier rules of
    [pkg/coding/task]: the authority profiles a coding task may carry, the
    filesystem scopes they are allowed for, and the bounded names stored with
    a task. *)
From S2P Require Import Prelude GoStrings.

(** ** Character-class patterns

    The regular expressions of the code are all of the shape [^[first][rest]*$]
    or [^[class]{n}$] over ASCII classes. *)
Definition in_range (lo hi b : Z) : bool := (lo <=? b) && (b <=? hi).
Definition lower (b : Z) : bool := in_range 97 122 b.
Definition upper (b : Z) : bool := in_range 65 90 b.
Definition digit (b : Z) : bool := in_range 48 57 b.
Definition hex_lower (b : Z) : bool := digit b || in_range 97 102 b.
Definition one_of (cs : string) (b : Z) : bool := existsb (Z.eqb b) (bytes cs).

Definition matches (first rest : Z → bool) (s : string) : bool :=
  match bytes s with [] => false | b :: l => first b && forallb rest l end.
Definition matches_n (n : nat) (class : Z → bool) (s : string) : bool :=
  (length (bytes s) =? n)%nat && forallb class (bytes s).

(** [^[A-Za-z0-9][A-Za-z0-9._:-]*$] *)
Definition identifierPattern : string → bool :=
  matches (fun b => upper b || lower b || digit b)
    (fun b => upper b || lower b || digit b || one_of "._:-" b).
(** [^[a-z][a-z0-9_-]*$] *)
Definition aliasPattern : string → bool :=
  matches lower (fun b => lower b || digit b || one_of "_-" b).

Definition MaxAliasBytes : Z := 64.
Definition MaxRevisionBytes : Z := 128.
Definition MaxIDBytes : Z := 128.
Definition MaxFailureCodeBytes : Z := 64.
Definition MaxBranchBytes : Z := 512.
Definition MaxQuestionOptions : Z := 32.
Definition MaxQuestionTextBytes : Z := 8192.
Definition MaxQuestionLabelBytes : Z := 255.

Definition ValidAlias (value : string) : bool :=
  (len value <=? MaxAliasBytes) && aliasPattern value.
Definition ValidIdentifier (value : string) : bool :=
  (len value <=? MaxIDBytes) && identifierPattern value.
Definition ValidRevision (value : string) : bool :=
  (len value <=? MaxRevisionBytes) && identifierPattern value.

(** ** Scopes and profiles *)

Inductive Kind := KindGitProject | KindMachine | KindOther (raw : string).

Inductive Profile :=
| ProfileInvestigate | ProfileMutate | ProfileProjectYolo | ProfileMachineYolo
| ProfileMachineYoloRoot | ProfileOther (raw : string).

#[export] Instance Kind_eq_dec : EqDecision Kind.
Proof. solve_decision. Defined.
#[export] Instance Profile_eq_dec : EqDecision Profile.
Proof. solve_decision. Defined.

Definition Profile_string (p : Profile) : string :=
  match p with
  | ProfileInvestigate => "investigate" | ProfileMutate => "mutate"
  | ProfileProjectYolo => "project-yolo" | ProfileMachineYolo => "machine-yolo"
  | ProfileMachineYoloRoot => "machine-yolo-root" | ProfileOther raw => raw
  end.

Definition Kind_Valid (k : Kind) : bool :=
  bool_decide (k = KindGitProject) || bool_decide (k = KindMachine).

Definition Profile_Valid (p : Profile) : bool :=
  match p with
  | ProfileInvestigate | ProfileMutate | ProfileProjectYolo | ProfileMachineYolo
  | ProfileMachineYoloRoot => true
  | ProfileOther _ => false
  end.

Definition AdmittedInV2 (p : Profile) : bool :=
  bool_decide (p = ProfileInvestigate) || bool_decide (p = ProfileMutate).
Definition AdmittedInV4 (p : Profile) : bool :=
  AdmittedInV2 p || bool_decide (p = ProfileProjectYolo) || bool_decide (p = ProfileMachineYolo).
Definition AdmittedInV5 (p : Profile) : bool :=
  AdmittedInV4 p || bool_decide (p = ProfileMachineYoloRoot).
Definition ReadOnly (p : Profile) : bool := bool_decide (p = ProfileInvestigate).
Definition UsesIsolatedWorktree (p : Profile) : bool :=
  bool_decide (p = ProfileMutate) || bool_decide (p = ProfileProjectYolo).
Definition DirectWritable (p : Profile) : bool :=
  bool_decide (p = ProfileMachineYolo) || bool_decide (p = ProfileMachineYoloRoot).
Definition Privileged (p : Profile) : bool := bool_decide (p = ProfileMachineYoloRoot).

Definition AllowedFor (p : Profile) (k : Kind) : bool :=
  if negb (Kind_Valid k) || negb (Profile_Valid p) then false
  else match k with
       | KindGitProject => ReadOnly p || UsesIsolatedWorktree p
       | KindMachine => DirectWritable p
       | KindOther _ => false
       end.
