(* ===== verification/TaskTypes.v ===== *)
(** Package [pkg/tasks], data: the task record, the task event, the coding
    projection, their JSON form, their status predicates and the validation
    of a stored record, event or snapshot ([registry.go], [coding.go],
    [persist.go], and the predicates of [prune.go]).

    A Go string type with named constants is an inductive with one constructor
    per constant and an [...Other] constructor for any other string, the zero
    value [""] included. *)
From S2P Require Import Prelude GoStrings GoJson TaskResult CodingScope.

Inductive Runtime :=
| RuntimeSubagent | RuntimeDelegate | RuntimeTool | RuntimeCron | RuntimeCoding
| RuntimeOther (raw : string).
Inductive Status :=
| StatusQueued | StatusRunning | StatusSucceeded | StatusFailed | StatusTimedOut
| StatusCancelled | StatusLost | StatusOther (raw : string).
Inductive DeliveryStatus :=
| DeliveryPending | DeliveryDelivered | DeliverySessionQueued | DeliveryFailed
| DeliveryParentMissing | DeliveryNotApplicable | DeliveryOther (raw : string).
Inductive NotifyPolicy :=
| NotifyDoneOnly | NotifyStateChanges | NotifySilent | NotifyOther (raw : string).
Inductive EventType :=
| EventTaskUpserted | EventTaskStatusChanged | EventTaskDeliveryChanged
| EventTaskDeliveryDecision | EventTaskProgress | EventTaskUpdated | EventTaskReconciled
| EventTypeOther (raw : string).

#[export] Instance Runtime_eq_dec : EqDecision Runtime. Proof. solve_decision. Defined.
#[export] Instance Status_eq_dec : EqDecision Status. Proof. solve_decision. Defined.
#[export] Instance DeliveryStatus_eq_dec : EqDecision DeliveryStatus. Proof. solve_decision. Defined.
#[export] Instance NotifyPolicy_eq_dec : EqDecision NotifyPolicy. Proof. solve_decision. Defined.
#[export] Instance EventType_eq_dec : EqDecision EventType. Proof. solve_decision. Defined.

Definition Runtime_string (r : Runtime) : string :=
  match r with
  | RuntimeSubagent => "subagent" | RuntimeDelegate => "delegate" | RuntimeTool => "tool"
  | RuntimeCron => "cron" | RuntimeCoding => "coding" | RuntimeOther raw => raw
  end.
Definition Status_string (s : Status) : string :=
  match s with
  | StatusQueued => "queued" | StatusRunning => "running" | StatusSucceeded => "succeeded"
  | StatusFailed => "failed" | StatusTimedOut => "timed_out" | StatusCancelled => "cancelled"
  | StatusLost => "lost" | StatusOther raw => raw
  end.
Definition DeliveryStatus_string (s : DeliveryStatus) : string :=
  match s with
  | DeliveryPending => "pending" | DeliveryDelivered => "delivered"
  | DeliverySessionQueued => "session_queued" | DeliveryFailed => "failed"
  | DeliveryParentMissing => "parent_missing" | DeliveryNotApplicable => "not_applicable"
  | DeliveryOther raw => raw
  end.
Definition NotifyPolicy_string (p : NotifyPolicy) : string :=
  match p with
  | NotifyDoneOnly => "done_only" | NotifyStateChanges => "state_changes"
  | NotifySilent => "silent" | NotifyOther raw => raw
  end.
Definition EventType_string (t : EventType) : string :=
  match t with
  | EventTaskUpserted => "task.upserted" | EventTaskStatusChanged => "task.status_changed"
  | EventTaskDeliveryChanged => "task.delivery_changed"
  | EventTaskDeliveryDecision => "task.delivery_decision" | EventTaskProgress => "task.progress"
  | EventTaskUpdated => "task.updated" | EventTaskReconciled => "task.reconciled"
  | EventTypeOther raw => raw
  end.

(** ** Coding projection *)

Definition CodingProjectionSchemaV5 : string := "coding_task.v5".
Definition CodingOwnerLocal : string := "local_coding".
Definition MaxCodingObjectiveBytes : Z := 131072.
Definition MaxCodingDoneCriteriaBytes : Z := 131072.

(** [^[a-z0-9][a-z0-9_-]{0,63}$] *)
Definition codingTargetPattern (s : string) : bool :=
  matches (fun b => lower b || digit b) (fun b => lower b || digit b || one_of "_-" b) s
  && (len s <=? 64).
(** [^(directory|git_worktree):[a-f0-9]{64}$] *)
Definition codingProjectKeyPattern (s : string) : bool :=
  match cut_prefix "directory:" s with
  | Some rest => matches_n 64 hex_lower rest
  | None => match cut_prefix "git_worktree:" s with
            | Some rest => matches_n 64 hex_lower rest
            | None => false
            end
  end.

Record CodingQuestionOption := mkCodingQuestionOption {
  qo_ID : string; qo_Label : string; qo_Description : string }.
Record CodingQuestionProjection := mkCodingQuestionProjection {
  cq_ID : string; cq_Revision : Z; cq_InteractionID : string; cq_Prompt : string;
  cq_Options : list CodingQuestionOption }.
Record CodingProjection := mkCodingProjection {
  cp_SchemaVersion : string; cp_Alias : string; cp_Target : string; cp_Scope : string;
  cp_Revision : string; cp_Profile : Profile; cp_RequestDigest : string;
  cp_DoneCriteria : string; cp_OwnerKind : string;
  cp_LocalGrant : string; cp_LocalGrantRevision : string; cp_LocalDiscoveryRevision : string;
  cp_LocalProjectKey : string; cp_LocalProfile : Profile;
  cp_RouteSessionKey : string; cp_SessionKey : string; cp_ActorID : string; cp_SenderID : string;
  cp_AccountID : string; cp_ChatType : string; cp_SpaceID : string; cp_SpaceType : string;
  cp_OriginMessageID : string;
  cp_ThreadID : string; cp_WorkerGenerationID : string; cp_NodeState : string;
  cp_NodeRevision : Z; cp_NodeResultDigest : string; cp_Activity : string; cp_WorktreeID : string;
  cp_Branch : string; cp_HandoffID : string; cp_FailureCode : string; cp_UpdatedAt : Z;
  cp_RetainUntil : Z; cp_Question : option CodingQuestionProjection }.

Definition CodingQuestionOption_json (o : CodingQuestionOption) : json := JObj (
  fstr "id" (qo_ID o) ++ fstr "label" (qo_Label o) ++ fstr_omit "description" (qo_Description o)).
Definition CodingQuestionProjection_json (q : CodingQuestionProjection) : json := JObj (
  fstr "id" (cq_ID q) ++ fint "revision" (cq_Revision q) ++
  fstr_omit "interaction_id" (cq_InteractionID q) ++ fstr_omit "prompt" (cq_Prompt q) ++
  flist_omit "options" CodingQuestionOption_json (cq_Options q)).
Definition CodingProjection_json (p : CodingProjection) : json := JObj (
  fstr "schema_version" (cp_SchemaVersion p) ++ fstr "alias" (cp_Alias p) ++
  fstr "target" (cp_Target p) ++ fstr "scope" (cp_Scope p) ++ fstr "revision" (cp_Revision p) ++
  fstr "profile" (Profile_string (cp_Profile p)) ++ fstr "request_digest" (cp_RequestDigest p) ++
  fstr_omit "done_criteria" (cp_DoneCriteria p) ++ fstr_omit "owner_kind" (cp_OwnerKind p) ++
  fstr_omit "local_grant" (cp_LocalGrant p) ++
  fstr_omit "local_grant_revision" (cp_LocalGrantRevision p) ++
  fstr_omit "local_discovery_revision" (cp_LocalDiscoveryRevision p) ++
  fstr_omit "local_project_key" (cp_LocalProjectKey p) ++
  fstr_omit "local_profile" (Profile_string (cp_LocalProfile p)) ++
  fstr "route_session_key" (cp_RouteSessionKey p) ++ fstr "session_key" (cp_SessionKey p) ++
  fstr "actor_id" (cp_ActorID p) ++ fstr "sender_id" (cp_SenderID p) ++
  fstr_omit "account_id" (cp_AccountID p) ++ fstr_omit "chat_type" (cp_ChatType p) ++
  fstr_omit "space_id" (cp_SpaceID p) ++ fstr_omit "space_type" (cp_SpaceType p) ++
  fstr_omit "origin_message_id" (cp_OriginMessageID p) ++
  fstr_omit "thread_id" (cp_ThreadID p) ++
  fstr_omit "worker_generation_id" (cp_WorkerGenerationID p) ++
  fstr_omit "node_state" (cp_NodeState p) ++ fint_omit "node_revision" (cp_NodeRevision p) ++
  fstr_omit "node_result_digest" (cp_NodeResultDigest p) ++ fstr_omit "activity" (cp_Activity p) ++
  fstr_omit "worktree_id" (cp_WorktreeID p) ++ fstr_omit "branch" (cp_Branch p) ++
  fstr_omit "handoff_id" (cp_HandoffID p) ++ fstr_omit "failure_code" (cp_FailureCode p) ++
  fint_omit "updated_at" (cp_UpdatedAt p) ++ fint_omit "retain_until" (cp_RetainUntil p) ++
  fopt_omit "question" CodingQuestionProjection_json (cp_Question p)).

Definition cloneCodingProjection (p : option CodingProjection) : option CodingProjection := p.

Definition validCodingDigest (value : string) : bool :=
  if negb (len value =? 64) then false else forallb hex_lower (bytes value).
Definition validCodingOwnedIdentity (value : string) (maximum : Z) : bool :=
  String.eqb value (trim_space value) && negb (String.eqb value "") && (len value <=? maximum).

(** Validation errors are the format strings of the code's [fmt.Errorf]. *)
Abbreviation verror := string (only parsing).

Definition validateCodingOwner (p : CodingProjection) : result verror () :=
  let localFieldsPresent :=
    negb (String.eqb (cp_LocalGrant p) "") || negb (String.eqb (cp_LocalGrantRevision p) "")
    || negb (String.eqb (cp_LocalDiscoveryRevision p) "")
    || negb (String.eqb (cp_LocalProjectKey p) "")
    || negb (String.eqb (Profile_string (cp_LocalProfile p)) "") in
  if String.eqb (cp_OwnerKind p) "" then
    reject localFieldsPresent with "coding task %q has local authority without a local owner"%string ;;
    Ok tt
  else
    reject negb (String.eqb (cp_OwnerKind p) CodingOwnerLocal) || negb (ValidAlias (cp_LocalGrant p))
           || negb (ValidRevision (cp_LocalGrantRevision p))
           || negb (ValidIdentifier (cp_LocalDiscoveryRevision p))
           || negb (codingProjectKeyPattern (cp_LocalProjectKey p))
           || (negb (bool_decide (cp_LocalProfile p = ProfileInvestigate))
               && negb (bool_decide (cp_LocalProfile p = ProfileMutate)))
      with "coding task %q has invalid local coding authority"%string ;;
    Ok tt.

(** The loop over the question options; [seen] holds the ids met so far. *)
Fixpoint validateQuestionOptions (options : list CodingQuestionOption) (seen : gset string)
    : result verror () :=
  match options with
  | [] => Ok tt
  | option :: rest =>
      reject negb (ValidIdentifier (qo_ID option)) || blank (qo_Label option)
             || (MaxQuestionLabelBytes <? len (qo_Label option))
             || (MaxQuestionTextBytes <? len (qo_Description option))
        with "coding task %q has invalid question option"%string ;;
      reject bool_decide (qo_ID option ∈ seen)
        with "coding task %q has duplicate question option"%string ;;
      validateQuestionOptions rest ({[qo_ID option]} ∪ seen)
  end.

Definition validateCodingProjection (generationID : string) (projection : option CodingProjection)
    : result verror () :=
  match projection with
  | None => Err "coding task %q is missing coding projection"%string
  | Some p =>
      reject negb (String.eqb (cp_SchemaVersion p) CodingProjectionSchemaV5)
        with "coding task %q has invalid coding projection schema"%string ;;
      reject negb (ValidAlias (cp_Alias p)) || negb (codingTargetPattern (cp_Target p))
             || negb (ValidAlias (cp_Scope p)) || negb (ValidRevision (cp_Revision p))
             || negb (AdmittedInV5 (cp_Profile p)) || negb (validCodingDigest (cp_RequestDigest p))
             || (MaxCodingDoneCriteriaBytes <? len (cp_DoneCriteria p))
             || negb (ValidIdentifier generationID)
        with "coding task %q has invalid immutable coding authority"%string ;;
      reject negb (validCodingOwnedIdentity (cp_RouteSessionKey p) 1024)
             || negb (validCodingOwnedIdentity (cp_SessionKey p) 1024)
             || negb (validCodingOwnedIdentity (cp_ActorID p) 1024)
             || negb (validCodingOwnedIdentity (cp_SenderID p) 1024)
        with "coding task %q has invalid requester identity"%string ;;
      _ ← validateCodingOwner p;
      reject existsb (fun v => (1024 <? len v) || negb (String.eqb v (trim_space v)))
               [cp_AccountID p; cp_ChatType p; cp_SpaceID p; cp_SpaceType p; cp_OriginMessageID p]
        with "coding task %q has invalid route projection"%string ;;
      reject existsb (fun v => negb (String.eqb v "") && negb (ValidIdentifier v))
               [cp_ThreadID p; cp_WorkerGenerationID p; cp_WorktreeID p; cp_HandoffID p]
        with "coding task %q has invalid projected identity"%string ;;
      reject (MaxBranchBytes <? len (cp_Branch p)) || (MaxFailureCodeBytes <? len (cp_FailureCode p))
             || (64 <? len (cp_Activity p)) || (64 <? len (cp_NodeState p))
        with "coding task %q has oversized lifecycle projection"%string ;;
      reject ((cp_NodeRevision p =? 0) && negb (String.eqb (cp_NodeResultDigest p) ""))
             || ((0 <? cp_NodeRevision p) && negb (validCodingDigest (cp_NodeResultDigest p)))
        with "coding task %q has invalid node result digest"%string ;;
      match cp_Question p with
      | None => Ok tt
      | Some question =>
          reject negb (ValidIdentifier (cq_ID question)) || (cq_Revision question =? 0)
                 || (negb (String.eqb (cq_InteractionID question) "")
                     && negb (ValidIdentifier (cq_InteractionID question)))
                 || (MaxQuestionTextBytes <? len (cq_Prompt question))
                 || (MaxQuestionOptions <? Z.of_nat (length (cq_Options question)))
            with "coding task %q has invalid question projection"%string ;;
          validateQuestionOptions (cq_Options question) ∅
      end
  end.

(** ** Events and records *)

Definition TaskEventSchemaVersion : string := "task_event.v2".
Definition DefaultTerminalRetention : Z := 7 * 24 * 3600 * 1000000000.
Definition DefaultMaxRecords : Z := 1000.
Definition DefaultMaxEvents : Z := 5000.
Definition DefaultMaxSnapshotBytes : Z := 2 * 1024 * 1024.

Record TaskEvent := mkTaskEvent {
  ev_SchemaVersion : string; ev_EventID : string; ev_TaskID : string; ev_GenerationID : string;
  ev_Runtime : Runtime; ev_ParentTaskID : string; ev_Type : EventType; ev_Status : Status;
  ev_DeliveryStatus : DeliveryStatus; ev_Seq : Z; ev_EmittedAt : Z; ev_Source : string;
  ev_Producer : string; ev_Fingerprint : string; ev_Payload : gmap string string }.
#[export] Instance eta_TaskEvent : Eta TaskEvent := fun e =>
  mkTaskEvent (ev_SchemaVersion e) (ev_EventID e) (ev_TaskID e) (ev_GenerationID e)
    (ev_Runtime e) (ev_ParentTaskID e) (ev_Type e) (ev_Status e) (ev_DeliveryStatus e)
    (ev_Seq e) (ev_EmittedAt e) (ev_Source e) (ev_Producer e) (ev_Fingerprint e) (ev_Payload e).

Record Record := mkRecord {
  t_TaskID : string; t_GenerationID : string; t_LastEventSeq : Z; t_Runtime : Runtime;
  t_TaskKind : string; t_ParentTaskID : string; t_RequesterSessionKey : string;
  t_OwnerKey : string; t_HistoryPolicyKnown : bool; t_HistoryDisabled : bool;
  t_ScopeKind : string; t_Channel : string; t_ChatID : string; t_TopicID : string;
  t_AgentID : string; t_Label : string; t_Task : string; t_Status : Status;
  t_DeliveryStatus : DeliveryStatus; t_NotifyPolicy : NotifyPolicy; t_DeliveryMode : string;
  t_TimeoutSeconds : Z; t_LastCompletionID : string; t_DeliveredAt : Z; t_DeliveryError : string;
  t_CreatedAt : Z; t_StartedAt : Z; t_EndedAt : Z; t_LastEventAt : Z; t_CleanupAfter : Z;
  t_Error : string; t_ProgressSummary : string; t_TerminalSummary : string;
  t_Deliverable : option Deliverable; t_Coding : option CodingProjection }.
#[export] Instance eta_Record : Eta Record := fun r =>
  mkRecord (t_TaskID r) (t_GenerationID r) (t_LastEventSeq r) (t_Runtime r) (t_TaskKind r)
    (t_ParentTaskID r) (t_RequesterSessionKey r) (t_OwnerKey r) (t_HistoryPolicyKnown r)
    (t_HistoryDisabled r) (t_ScopeKind r) (t_Channel r) (t_ChatID r) (t_TopicID r) (t_AgentID r)
    (t_Label r) (t_Task r) (t_Status r) (t_DeliveryStatus r) (t_NotifyPolicy r) (t_DeliveryMode r)
    (t_TimeoutSeconds r) (t_LastCompletionID r) (t_DeliveredAt r) (t_DeliveryError r)
    (t_CreatedAt r) (t_StartedAt r) (t_EndedAt r) (t_LastEventAt r) (t_CleanupAfter r) (t_Error r)
    (t_ProgressSummary r) (t_TerminalSummary r) (t_Deliverable r) (t_Coding r).

(** [Tasks] is [None] for a nil slice, which is written as [null] and refused
    by the validation. *)
Record Snapshot := mkSnapshot { Tasks : option (list Record); Events : list TaskEvent }.

Definition TaskEvent_json (e : TaskEvent) : json := JObj (
  fstr "schema_version" (ev_SchemaVersion e) ++ fstr "event_id" (ev_EventID e) ++
  fstr "task_id" (ev_TaskID e) ++ fstr "generation_id" (ev_GenerationID e) ++
  fstr_omit "runtime" (Runtime_string (ev_Runtime e)) ++
  fstr_omit "parent_task_id" (ev_ParentTaskID e) ++ fstr "type" (EventType_string (ev_Type e)) ++
  fstr_omit "status" (Status_string (ev_Status e)) ++
  fstr_omit "delivery_status" (DeliveryStatus_string (ev_DeliveryStatus e)) ++
  fint "seq" (ev_Seq e) ++ fint "emitted_at" (ev_EmittedAt e) ++ fstr_omit "source" (ev_Source e) ++
  fstr_omit "producer" (ev_Producer e) ++ fstr_omit "fingerprint" (ev_Fingerprint e) ++
  fmap_omit "payload" (ev_Payload e)).

Definition Record_json (r : Record) : json := JObj (
  fstr "task_id" (t_TaskID r) ++ fstr "generation_id" (t_GenerationID r) ++
  fint "last_event_sequence" (t_LastEventSeq r) ++ fstr "runtime" (Runtime_string (t_Runtime r)) ++
  fstr_omit "task_kind" (t_TaskKind r) ++ fstr_omit "parent_task_id" (t_ParentTaskID r) ++
  fstr_omit "requester_session_key" (t_RequesterSessionKey r) ++
  fstr_omit "owner_key" (t_OwnerKey r) ++
  fbool_omit "history_policy_known" (t_HistoryPolicyKnown r) ++
  fbool_omit "history_disabled" (t_HistoryDisabled r) ++
  fstr_omit "scope_kind" (t_ScopeKind r) ++ fstr_omit "channel" (t_Channel r) ++
  fstr_omit "chat_id" (t_ChatID r) ++ fstr_omit "topic_id" (t_TopicID r) ++
  fstr_omit "agent_id" (t_AgentID r) ++ fstr_omit "label" (t_Label r) ++
  fstr "task" (t_Task r) ++ fstr "status" (Status_string (t_Status r)) ++
  fstr "delivery_status" (DeliveryStatus_string (t_DeliveryStatus r)) ++
  fstr "notify_policy" (NotifyPolicy_string (t_NotifyPolicy r)) ++
  fstr_omit "delivery_mode" (t_DeliveryMode r) ++
  fint_omit "timeout_seconds" (t_TimeoutSeconds r) ++
  fstr_omit "last_completion_id" (t_LastCompletionID r) ++
  fint_omit "delivered_at" (t_DeliveredAt r) ++ fstr_omit "delivery_error" (t_DeliveryError r) ++
  fint "created_at" (t_CreatedAt r) ++ fint_omit "started_at" (t_StartedAt r) ++
  fint_omit "ended_at" (t_EndedAt r) ++ fint_omit "last_event_at" (t_LastEventAt r) ++
  fint_omit "cleanup_after" (t_CleanupAfter r) ++ fstr_omit "error" (t_Error r) ++
  fstr_omit "progress_summary" (t_ProgressSummary r) ++
  fstr_omit "terminal_summary" (t_TerminalSummary r) ++
  fopt_omit "deliverable" Deliverable_json (t_Deliverable r) ++
  fopt_omit "coding" CodingProjection_json (t_Coding r)).

Definition Snapshot_json (s : Snapshot) : json := JObj (
  field "tasks" (match Tasks s with
                 | Some tasks => JArr (List.map Record_json tasks)
                 | None => JNull
                 end) ++
  flist_omit "events" TaskEvent_json (Events s)).

Definition cloneTaskRecord (record : Record) : Record :=
  record <| t_Deliverable ::= CloneDeliverable |> <| t_Coding ::= cloneCodingProjection |>.

Definition copyStringMap (m : gmap string string) : gmap string string :=
  if bool_decide (size m = 0%nat) then ∅ else m.
Definition cloneTaskEvent (event : TaskEvent) : TaskEvent := event <| ev_Payload ::= copyStringMap |>.

Lemma cloneTaskEvent_id e : cloneTaskEvent e = e.
Proof.
  destruct e. unfold cloneTaskEvent, copyStringMap. simpl. f_equal.
  case_bool_decide as E; [|done]. by apply map_size_empty_iff in E as ->.
Qed.
Lemma cloneTaskRecord_idem r : cloneTaskRecord (cloneTaskRecord r) = cloneTaskRecord r.
Proof. destruct r. unfold cloneTaskRecord. simpl. by rewrite CloneDeliverable_idem. Qed.

(** ** Predicates *)

Definition validRuntime (r : Runtime) : bool :=
  match r with
  | RuntimeSubagent | RuntimeDelegate | RuntimeTool | RuntimeCron | RuntimeCoding => true
  | RuntimeOther _ => false
  end.
Definition validNotifyPolicy (p : NotifyPolicy) : bool :=
  match p with
  | NotifyDoneOnly | NotifyStateChanges | NotifySilent => true
  | NotifyOther _ => false
  end.
Definition validEventType (t : EventType) : bool :=
  match t with
  | EventTaskUpserted | EventTaskStatusChanged | EventTaskDeliveryChanged
  | EventTaskDeliveryDecision | EventTaskProgress | EventTaskUpdated | EventTaskReconciled => true
  | EventTypeOther _ => false
  end.
Definition isTerminalStatus (s : Status) : bool :=
  match s with
  | StatusSucceeded | StatusFailed | StatusTimedOut | StatusCancelled | StatusLost => true
  | _ => false
  end.
Definition validTaskStatus (s : Status) : bool :=
  match s with
  | StatusQueued | StatusRunning | StatusSucceeded | StatusFailed | StatusTimedOut
  | StatusCancelled | StatusLost => true
  | StatusOther _ => false
  end.
Definition isFinalDeliveryStatus (s : DeliveryStatus) : bool :=
  match s with
  | DeliveryDelivered | DeliverySessionQueued | DeliveryFailed | DeliveryParentMissing
  | DeliveryNotApplicable => true
  | _ => false
  end.
Definition validDeliveryStatus (s : DeliveryStatus) : bool :=
  bool_decide (s = DeliveryPending) || isFinalDeliveryStatus s.

Definition isActiveStatus (s : Status) : bool :=
  bool_decide (s = StatusQueued) || bool_decide (s = StatusRunning).

Definition taskRecordIsRetentionTerminal (rec : Record) : bool :=
  isTerminalStatus (t_Status rec) && isFinalDeliveryStatus (t_DeliveryStatus rec).
Definition canPruneRecord (rec : Record) : bool := taskRecordIsRetentionTerminal rec.
Definition shouldPruneExpired (rec : Record) (now : Z) : bool :=
  canPruneRecord rec && (0 <? t_CleanupAfter rec) && (t_CleanupAfter rec <=? now).

Definition recordReferenceAt (rec : Record) : Z :=
  default 0 (list_find (fun v => 0 < v)
    [t_EndedAt rec; t_LastEventAt rec; t_StartedAt rec; t_CreatedAt rec] ≫= fun p => Some p.2).

(** ** Validation of stored data *)

Definition validateStoredRecord (rec : Record) : result verror () :=
  reject blank (t_TaskID rec) with "task is missing task_id"%string ;;
  reject blank (t_GenerationID rec) with "task %q is missing generation_id"%string ;;
  reject t_LastEventSeq rec <=? 0 with "task %q has invalid last_event_sequence"%string ;;
  reject negb (validRuntime (t_Runtime rec)) with "task %q has invalid runtime %q"%string ;;
  reject negb (validTaskStatus (t_Status rec)) with "task %q has invalid status %q"%string ;;
  reject negb (validDeliveryStatus (t_DeliveryStatus rec))
    with "task %q has invalid delivery_status %q"%string ;;
  reject negb (validNotifyPolicy (t_NotifyPolicy rec))
    with "task %q has invalid notify_policy %q"%string ;;
  _ ← (if bool_decide (t_Runtime rec = RuntimeCoding) then
         reject (len (t_Task rec) =? 0) || (MaxCodingObjectiveBytes <? len (t_Task rec))
           with "coding task %q has invalid objective"%string ;;
         validateCodingProjection (t_GenerationID rec) (t_Coding rec)
       else
         reject bool_decide (is_Some (t_Coding rec))
           with "task %q has coding projection for runtime %q"%string ;;
         Ok tt);
  reject isTerminalStatus (t_Status rec) && (t_EndedAt rec <=? 0)
    with "terminal task %q is missing ended_at"%string ;;
  reject isTerminalStatus (t_Status rec) && (t_CleanupAfter rec <=? 0)
    with "terminal task %q is missing cleanup_after"%string ;;
  match t_Deliverable rec with
  | None => Ok tt
  | Some d =>
      match d_Report d with
      | None =>
          reject negb (blank (d_Text d)) || (0 <? length (d_Artifacts d))%nat
                 || (0 <? size (d_Metadata d))%nat
            with "task %q deliverable is missing report"%string ;;
          Ok tt
      | Some report =>
          reject negb (String.eqb (rp_SchemaVersion report) ReportSchemaV1)
            with "task %q deliverable report has schema %q, want %q"%string ;;
          reject blank (rp_ReportID report)
            with "task %q deliverable report is missing report_id"%string ;;
          reject blank (rp_ContentHash report)
            with "task %q deliverable report is missing content_hash"%string ;;
          reject rp_GeneratedAt report <=? 0
            with "task %q deliverable report is missing generated_at"%string ;;
          Ok tt
      end
  end.

Definition validateStoredEvent (event : TaskEvent) : result verror () :=
  reject blank (ev_EventID event) with "task event is missing event_id"%string ;;
  reject blank (ev_TaskID event) with "task event %q is missing task_id"%string ;;
  reject blank (ev_GenerationID event) with "task event %q is missing generation_id"%string ;;
  reject negb (String.eqb (ev_SchemaVersion event) TaskEventSchemaVersion)
    with "task event %q has schema %q, want %q"%string ;;
  reject negb (validEventType (ev_Type event)) with "task event %q has invalid type %q"%string ;;
  reject ev_Seq event <=? 0 with "task event %q has invalid generation sequence"%string ;;
  reject ev_EmittedAt event <=? 0 with "task event %q is missing emitted_at"%string ;;
  reject negb (validRuntime (ev_Runtime event)) with "task event %q has invalid runtime %q"%string ;;
  reject negb (validTaskStatus (ev_Status event)) with "task event %q has invalid status %q"%string ;;
  reject negb (validDeliveryStatus (ev_DeliveryStatus event))
    with "task event %q has invalid delivery_status %q"%string ;;
  Ok tt.

(** [generationKey] and [streamKey]: the event stream of one task generation. *)
Definition stream_key : Type := string * string.
Definition event_stream (e : TaskEvent) : stream_key := (ev_TaskID e, ev_GenerationID e).

Fixpoint validateTasks (tasks : list Record) (records : gmap string Record)
    : result verror (gmap string Record) :=
  match tasks with
  | [] => Ok records
  | rec :: rest =>
      _ ← validateStoredRecord rec;
      reject bool_decide (is_Some (records !! t_TaskID rec)) with "duplicate task %q"%string ;;
      validateTasks rest (<[t_TaskID rec := rec]> records)
  end.

Fixpoint validateEvents (events : list TaskEvent) (records : gmap string Record)
    (eventIDs : gset string) (lastSequence : gmap stream_key Z)
    : result verror (gmap stream_key Z) :=
  match events with
  | [] => Ok lastSequence
  | event :: rest =>
      _ ← validateStoredEvent event;
      reject bool_decide (ev_EventID event ∈ eventIDs) with "duplicate task event %q"%string ;;
      reject match lastSequence !! event_stream event with
             | Some previous => negb (ev_Seq event =? previous + 1)
             | None => false
             end
        with "task event %q has invalid generation sequence"%string ;;
      match records !! ev_TaskID event with
      | None => Err "task event %q references missing task %q"%string
      | Some rec =>
          reject String.eqb (t_GenerationID rec) (ev_GenerationID event)
                 && (t_LastEventSeq rec <? ev_Seq event)
            with "task event %q has invalid generation sequence"%string ;;
          validateEvents rest records ({[ev_EventID event]} ∪ eventIDs)
            (<[event_stream event := ev_Seq event]> lastSequence)
      end
  end.

(** The last loop of [validateSnapshot]: the retained tail of the current
    generation is the record's last event.  The order of the loop over
    [lastSequence] decides only which task an error names. *)
Definition stream_tail_ok (records : gmap string Record) (p : stream_key * Z) : bool :=
  match records !! p.1.1 with
  | Some rec => negb (String.eqb (t_GenerationID rec) p.1.2 && negb (p.2 =? t_LastEventSeq rec))
  | None => true
  end.

Definition validateSnapshot (snapshot : Snapshot) : result verror () :=
  match Tasks snapshot with
  | None => Err "task registry is missing tasks array"%string
  | Some tasks =>
      records ← validateTasks tasks ∅;
      lastSequence ← validateEvents (Events snapshot) records ∅ ∅;
      reject negb (forallb (stream_tail_ok records) (map_to_list lastSequence))
        with "task %q event tail does not match last_event_sequence"%string ;;
      Ok tt
  end.
