(* ===== verification/TaskRegistry.v ===== *)
(** Package [pkg/tasks], operations of the durable task registry: event
    append ([events.go]), normalisation ([helpers.go]), retention ([prune.go]),
    persistence ([persist.go]), the lifecycle operations ([lifecycle.go]),
    recovery ([recovery.go]) and the queries ([query.go]).

    A registry method runs under its mutex, so it is one function from the old
    registry to the new one and its result.  The environment is passed in: the
    readings of [time.Now().UnixMilli()], the fresh [uuid.NewString()], and the
    outcome of the atomic file write.  [file] is the content of the file at
    [store]; a nil registry is not modelled. *)
From S2P Require Import Prelude GoStrings GoJson TaskResult CodingScope TaskTypes.

Inductive Error :=
| ErrReadOnly (cause : string)
| ErrTaskAlreadyExists (id : string)
| ErrTaskNotFound (id : string)
| ErrInvalidTerminalStatus (status : Status)
| ErrValidateSnapshot (err : verror)
| ErrWrite (committed : bool).

(** [fileutil.IsCommittedWriteError]: the rename took place, the directory
    sync after it failed. *)
Definition IsCommittedWriteError (err : Error) : bool :=
  match err with ErrWrite committed => committed | _ => false end.

Record Options := mkOptions {
  TerminalRetention : Z; (* nanoseconds *)
  MaxRecords : Z;
  MaxEvents : Z;
  MaxSnapshotBytes : Z }.

Record Registry := mkRegistry {
  store : string;
  options : Options;
  records : gmap string Record;
  events : list TaskEvent;
  lastLoad : option string;
  unsyncedWrite : bool;
  file : option string }.
#[export] Instance eta_Registry : Eta Registry := fun r =>
  mkRegistry (store r) (options r) (records r) (events r) (lastLoad r) (unsyncedWrite r) (file r).

Record registryState := mkRegistryState {
  rs_records : gmap string Record; rs_events : list TaskEvent }.

Record Stats := mkStats {
  TaskCount : Z; EventCount : Z; ProtectedTaskCount : Z; SnapshotBytes : Z;
  OverSnapshotBudget : bool }.

Definition default_options (opts : Options) : Options :=
  mkOptions
    (if TerminalRetention opts <=? 0 then DefaultTerminalRetention else TerminalRetention opts)
    (if MaxRecords opts <=? 0 then DefaultMaxRecords else MaxRecords opts)
    (if MaxEvents opts <=? 0 then DefaultMaxEvents else MaxEvents opts)
    (if MaxSnapshotBytes opts <=? 0 then DefaultMaxSnapshotBytes else MaxSnapshotBytes opts).

Section registry.
Context `{MapOrder} `{Sha256}.
Implicit Types (r : Registry) (rec : Record) (evt : TaskEvent).

(** ** helpers.go *)

Definition firstNonEmpty (values : list string) : string :=
  default "" (head (filter (fun v => v ≠ "") (trim_space <$> values))).

(** Entries are visited in the map's order: of two keys equal once trimmed,
    the later one stays. *)
Definition cleanPayload (payload : gmap string string) : gmap string string :=
  foldl (fun out p =>
    let key := trim_space p.1 in
    let value := trim_space p.2 in
    if negb (String.eqb key "") && negb (String.eqb value "") then <[key := value]> out else out)
    ∅ (go_range payload).

Definition recordChanged (before after : Record) : bool :=
  negb (String.eqb (marshal (Record_json before)) (marshal (Record_json after))).

Definition deliverableContentHash (payload : option Deliverable) : string :=
  match payload with
  | None => ""
  | Some d =>
      sha256_hex (marshal (JObj (
        fstr_omit "text" (trim_space (d_Text d)) ++
        flist_omit "artifacts" Artifact_json (d_Artifacts d) ++
        fmap_omit "metadata" (copyStringMap (d_Metadata d)) ++
        fopt_omit "objective_outcome" Outcome_json (CloneOutcome (d_ObjectiveOutcome d)) ++
        flist_omit "lifecycle_receipts" Receipt_json (CloneReceipts (d_LifecycleReceipts d)))))
  end.

Definition normalizeDeliverable (payload : option Deliverable) (generatedAt : Z)
    : option Deliverable :=
  match payload, CloneDeliverable payload with
  | Some d, Some out =>
      match CloneReport (d_Report d) with
      | Some report =>
          let report := if String.eqb (rp_SchemaVersion report) ""
                        then report <| rp_SchemaVersion := ReportSchemaV1 |> else report in
          let report := if rp_GeneratedAt report =? 0
                        then report <| rp_GeneratedAt := generatedAt |> else report in
          let report := if blank (rp_ContentHash report)
                        then report <| rp_ContentHash := deliverableContentHash (Some out) |>
                        else report in
          let report := if blank (rp_ReportID report)
                        then report <| rp_ReportID := "deliverable:" +:+ rp_ContentHash report |>
                        else report in
          Some (out <| d_Report := Some report |>)
      | None =>
          if blank (d_Text out) && (length (d_Artifacts out) =? 0)%nat
             && (size (d_Metadata out) =? 0)%nat && (length (d_LifecycleReceipts out) =? 0)%nat
          then Some out
          else
            let contentHash := deliverableContentHash (Some out) in
            let summary := trim_space (d_Text out) in
            let claims := if String.eqb summary "" then []
                          else [mkClaim "fact" summary "producer_reported" [] ∅] in
            Some (out <| d_Report := Some (mkReport ReportSchemaV1
              ("deliverable:" +:+ contentHash) contentHash generatedAt summary claims []
              (<["source" := "task_registry_projection"]>
                (<["projection" := "deliverable_payload"]> ∅))
              (copyStringMap (d_Metadata out))) |>)
      end
  | _, _ => None
  end.

(** [clock] is the reading [normalizeRecord] takes itself when [now] is 0. *)
Definition normalizeRecord r rec (now clock : Z) : Record :=
  let now := if now =? 0 then clock else now in
  let rec := if isTerminalStatus (t_Status rec) && (t_EndedAt rec =? 0)
             then let rec := rec <| t_EndedAt := t_LastEventAt rec |> in
                  if t_EndedAt rec =? 0 then rec <| t_EndedAt := now |> else rec
             else rec in
  let rec := if isTerminalStatus (t_Status rec) && (t_CleanupAfter rec =? 0)
             then let base := recordReferenceAt rec in
                  let base := if base =? 0 then now else base in
                  rec <| t_CleanupAfter := base + Z.quot (TerminalRetention (options r)) 1000000 |>
             else rec in
  match t_Deliverable rec with
  | Some _ => rec <| t_Deliverable ::= fun d => normalizeDeliverable d now |>
  | None => rec
  end.

(** ** events.go *)

Definition sortedRecordIDsLocked r : list string := merge_sort str_le (go_keys (records r)).

Definition taskEventFingerprint evt : string :=
  sha256_hex (marshal (JObj (
    fstr "schema_version" (ev_SchemaVersion evt) ++ fstr "event_id" (ev_EventID evt) ++
    fstr "task_id" (ev_TaskID evt) ++ fstr "generation_id" (ev_GenerationID evt) ++
    fstr "runtime" (Runtime_string (ev_Runtime evt)) ++
    fstr "parent_task_id" (ev_ParentTaskID evt) ++ fstr "type" (EventType_string (ev_Type evt)) ++
    fstr "status" (Status_string (ev_Status evt)) ++
    fstr "delivery_status" (DeliveryStatus_string (ev_DeliveryStatus evt)) ++
    fint "seq" (ev_Seq evt) ++ fint "emitted_at" (ev_EmittedAt evt) ++
    fstr "source" (ev_Source evt) ++ fstr "producer" (ev_Producer evt) ++
    field "payload" (if bool_decide (ev_Payload evt = ∅) then JNull
                     else json_map (ev_Payload evt))))).

Definition event_id (taskID generationID : string) (seq : Z) (eventType : EventType) : string :=
  taskID +:+ ":" +:+ generationID +:+ ":" +:+ format_06d seq +:+ ":" +:+ EventType_string eventType.

Definition make_event rec (eventType : EventType) (seq emittedAt : Z)
    (payload : gmap string string) : TaskEvent :=
  let evt := mkTaskEvent TaskEventSchemaVersion "" (t_TaskID rec) (t_GenerationID rec)
    (t_Runtime rec) (t_ParentTaskID rec) eventType (t_Status rec) (t_DeliveryStatus rec)
    seq emittedAt "task_registry" (firstNonEmpty [t_AgentID rec; Runtime_string (t_Runtime rec)])
    "" (cleanPayload payload) in
  let evt := evt <| ev_EventID := event_id (t_TaskID rec) (t_GenerationID rec) seq eventType |> in
  evt <| ev_Fingerprint := taskEventFingerprint evt |>.

Definition appendEventLocked r rec (eventType : EventType) (emittedAt clock : Z)
    (payload : gmap string string) : Registry :=
  if blank (t_TaskID rec) || bool_decide (eventType = EventTypeOther "") then r else
  let emittedAt := if emittedAt =? 0 then clock else emittedAt in
  match records r !! t_TaskID rec with
  | None => r
  | Some stored =>
      if negb (String.eqb (t_GenerationID stored) (t_GenerationID rec)) then r else
      let stored := stored <| t_LastEventSeq ::= Z.succ |> in
      r <| records ::= <[t_TaskID rec := stored]> |>
        <| events ::= fun evs =>
             evs ++ [make_event rec eventType (t_LastEventSeq stored) emittedAt payload] |>
  end.

Definition appendUpdateEventsLocked r (before after : Record) (emittedAt clock : Z) : Registry :=
  let statusChanged := negb (bool_decide (t_Status before = t_Status after)) in
  let deliveryChanged := negb (bool_decide (t_DeliveryStatus before = t_DeliveryStatus after)) in
  let progressChanged := negb (String.eqb (t_ProgressSummary before) (t_ProgressSummary after)) in
  let r := if statusChanged
    then appendEventLocked r after EventTaskStatusChanged emittedAt clock
           (<["from" := Status_string (t_Status before)]>
             (<["to" := Status_string (t_Status after)]> ∅))
    else r in
  let r := if deliveryChanged
    then
      let payload := <["from" := DeliveryStatus_string (t_DeliveryStatus before)]>
                       (<["to" := DeliveryStatus_string (t_DeliveryStatus after)]> ∅) in
      let completionID := trim_space (t_LastCompletionID after) in
      let payload := if String.eqb completionID "" then payload
                     else <["completion_id" := completionID]> payload in
      appendEventLocked r after EventTaskDeliveryChanged emittedAt clock payload
    else r in
  let r := if progressChanged && negb (blank (t_ProgressSummary after))
    then appendEventLocked r after EventTaskProgress emittedAt clock
           (<["summary" := t_ProgressSummary after]> ∅)
    else r in
  if negb statusChanged && negb deliveryChanged && negb progressChanged && recordChanged before after
  then appendEventLocked r after EventTaskUpdated emittedAt clock ∅
  else r.

(** [clone.go] *)
Definition eventsSinceLocked r (start : nat) : list TaskEvent :=
  if (length (events r) <=? start)%nat then [] else drop start (events r).

(** ** persist.go *)

Definition record_le (a b : Record) : Prop :=
  t_CreatedAt a < t_CreatedAt b ∨
  t_CreatedAt a = t_CreatedAt b ∧ str_le (t_TaskID a) (t_TaskID b).
#[global] Instance record_le_dec a b : Decision (record_le a b).
Proof. unfold record_le. apply _. Defined.

Definition snapshot_records (m : gmap string Record) : list Record :=
  merge_sort record_le (go_values m).

Definition snapshotLocked r : Snapshot :=
  mkSnapshot (Some (snapshot_records (records r))) (events r).

Definition snapshot_text (s : Snapshot) : string := marshal_indent "" "  " (Snapshot_json s).
Definition snapshotSizeLocked r : Z := len (snapshot_text (snapshotLocked r)).

Definition captureStateLocked r : registryState :=
  mkRegistryState (cloneTaskRecord <$> records r) (cloneTaskEvent <$> events r).
Definition restoreStateLocked r (state : registryState) : Registry :=
  r <| records := rs_records state |> <| events := rs_events state |>.

Definition writableErrorLocked r : result Error () :=
  match lastLoad r with None => Ok tt | Some cause => Err (ErrReadOnly cause) end.

Definition saveLocked r (w : WriteOutcome) : Registry * result Error () :=
  match writableErrorLocked r with
  | Err e => (r, Err e)
  | Ok _ =>
      if String.eqb (store r) "" then (r, Ok tt) else
      let snapshot := snapshotLocked r in
      match validateSnapshot snapshot with
      | Err e => (r, Err (ErrValidateSnapshot e))
      | Ok _ =>
          let data := snapshot_text snapshot in
          match w with
          | WriteOk => (r <| file := Some data |> <| unsyncedWrite := false |>, Ok tt)
          | WriteCommitted =>
              (r <| file := Some data |> <| unsyncedWrite := true |>, Err (ErrWrite true))
          | WriteFailed => (r, Err (ErrWrite false))
          end
      end
  end.

Definition save_committed (saveErr : result Error ()) : bool :=
  match saveErr with Ok _ => true | Err e => IsCommittedWriteError e end.

Definition completeMutationLocked r (saveErr : result Error ()) (rollback : registryState)
    : Registry * bool :=
  if save_committed saveErr then (r, true) else (restoreStateLocked r rollback, false).

(** ** prune.go *)

(** The subtraction loop of [trimEventsForSnapshotBudgetLocked]; the result
    is the new [r.events], [None] when the loop ends without one. *)
Definition event_separator : string := "," +:+ of_bytes [10] +:+ "    ".
Definition encoded_event evt : string := marshal_indent "    " "  " (TaskEvent_json evt).
Fixpoint trim_loop (original : list TaskEvent) (size budget : Z) : option (list TaskEvent) :=
  match original with
  | [] => None
  | [_] => Some []
  | event :: rest =>
      let size := size - (len (encoded_event event) + len event_separator) in
      if size <=? budget then Some rest else trim_loop rest size budget
  end.

Definition trimEventsForSnapshotBudgetLocked r : Registry * bool :=
  if (length (events r) =? 0)%nat then (r, false) else
  let size := snapshotSizeLocked r in
  if size <=? MaxSnapshotBytes (options r) then (r, false) else
  match trim_loop (events r) size (MaxSnapshotBytes (options r)) with
  | Some evs => (r <| events := evs |>, true)
  | None => (r, false)
  end.

Definition pruneEventsLocked r : Registry * bool :=
  if (length (events r) =? 0)%nat then (r, false) else
  let kept := filter (fun evt => is_Some (records r !! ev_TaskID evt)) (events r) in
  let changed := negb (length kept =? length (events r))%nat in
  if (0 <? MaxEvents (options r)) && (MaxEvents (options r) <? Z.of_nat (length kept))
  then (r <| events := last_n (Z.to_nat (MaxEvents (options r))) kept |>, true)
  else (r <| events := kept |>, changed).

(** Remove the oldest prunable records while the snapshot is over budget. *)
Fixpoint prune_for_bytes r (candidates : list Record) (changed : bool) : Registry * bool :=
  match candidates with
  | [] => (r, changed)
  | rec :: rest =>
      if snapshotSizeLocked r <=? MaxSnapshotBytes (options r) then (r, changed) else
      prune_for_bytes (pruneEventsLocked (r <| records ::= delete (t_TaskID rec) |>)).1 rest true
  end.

Definition prunable_by_age r : list Record :=
  sort_by recordReferenceAt (filter (fun rec => canPruneRecord rec = true) (go_values (records r))).

Definition pruneSnapshotBytesLocked r : Registry * bool :=
  if (MaxSnapshotBytes (options r) <=? 0)
     || (snapshotSizeLocked r <=? MaxSnapshotBytes (options r)) then (r, false) else
  let '(r, changed) := trimEventsForSnapshotBudgetLocked r in
  if snapshotSizeLocked r <=? MaxSnapshotBytes (options r) then (r, changed) else
  prune_for_bytes r (prunable_by_age r) changed.

(** Remove the oldest prunable records while there are too many. *)
Fixpoint prune_for_count r (terminal : list Record) (changed : bool) : Registry * bool :=
  match terminal with
  | [] => (r, changed)
  | victim :: rest =>
      if MaxRecords (options r) <? Z.of_nat (size (records r))
      then prune_for_count (r <| records ::= delete (t_TaskID victim) |>) rest true
      else (r, changed)
  end.

Definition pruneExpired r (now : Z) : Registry * bool :=
  let kept := filter (fun p => shouldPruneExpired p.2 now = false) (records r) in
  (r <| records := kept |>, negb (size kept =? size (records r))%nat).

Definition pruneLocked r (now : Z) : Registry * bool :=
  let '(r, changed) := pruneExpired r now in
  let '(r, changed) :=
    if (0 <? MaxRecords (options r)) && (MaxRecords (options r) <? Z.of_nat (size (records r)))
    then prune_for_count r (prunable_by_age r) changed else (r, changed) in
  let '(r, eventsChanged) := pruneEventsLocked r in
  let '(r, bytesChanged) := pruneSnapshotBytesLocked r in
  (r, changed || eventsChanged || bytesChanged).

Definition pruneMutationLocked r (now : Z) (candidates : list TaskEvent) : Registry :=
  let r := (pruneLocked r now).1 in
  if (length candidates =? 0)%nat then r else
  let candidateIDs : gset string := list_to_set (ev_EventID <$> candidates) in
  let isCandidate evt := ev_EventID evt ∈ candidateIDs in
  let retained := filter isCandidate (events r) in
  let nonCandidates := filter (fun evt => ¬ isCandidate evt) (events r) in
  let retainedCandidates : gset string := list_to_set (ev_EventID <$> retained) in
  let retainedStreams : gset stream_key := list_to_set (event_stream <$> retained) in
  let floorByStream : gmap stream_key TaskEvent :=
    foldl (fun floors event =>
      let key := event_stream event in
      if bool_decide (key ∈ retainedStreams) then floors else
      match records r !! ev_TaskID event with
      | Some record => if String.eqb (t_GenerationID record) (ev_GenerationID event)
                       then <[key := event]> floors else floors
      | None => floors
      end) ∅ candidates in
  let mutationEvents := filter (fun event =>
      ev_EventID event ∈ retainedCandidates ∨
      ev_EventID <$> (floorByStream !! event_stream event) = Some (ev_EventID event)) candidates in
  r <| events := nonCandidates ++ mutationEvents |>.

Definition pruneLoadedState r (now : Z) (w : WriteOutcome) : Registry :=
  let rollback := captureStateLocked r in
  let '(r, changed) := pruneLocked r now in
  if negb changed then r else
  let '(r, err) := saveLocked r w in
  if save_committed err then r
  else restoreStateLocked r rollback <| lastLoad := Some "persist pruned task registry: %w" |>.
End registry.
