(* ===== verification/TaskPrune.v ===== *)
(** Retention of the task registry: what pruning keeps, what it bounds, and
    that the incremental size arithmetic of the event trim is exact. *)
From S2P Require Import Prelude GoStrings GoJson TaskResult CodingScope TaskTypes TaskRegistry.

(** Every record is stored under its own task id. *)
Definition keyed (m : gmap string Record) : Prop := map_Forall (fun id rec => t_TaskID rec = id) m.

(** [r'] differs from [r] in its records and events only. *)
Definition frame (r r' : Registry) : Prop :=
  store r' = store r ∧ options r' = options r ∧ lastLoad r' = lastLoad r
  ∧ unsyncedWrite r' = unsyncedWrite r ∧ file r' = file r.

#[export] Instance frame_preorder : PreOrder frame.
Proof. split; unfold frame; [done|]. intros r1 r2 r3. intuition congruence. Qed.

Lemma frame_options r r' : frame r r' → options r' = options r.
Proof. by intros (? & ? & _). Qed.

Lemma frame_records r f : frame r (r <| records ::= f |>).
Proof. done. Qed.
Lemma frame_events r f : frame r (r <| events ::= f |>).
Proof. done. Qed.
#[export] Hint Resolve frame_records frame_events : go.

Section prune.
Context `{MapOrder} `{Sha256}.
Implicit Types (r : Registry) (rec : Record) (evt : TaskEvent).

(** ** Frames and untouched fields *)

Lemma trimEvents_frame r : frame r (trimEventsForSnapshotBudgetLocked r).1.
Proof.
  unfold frame, trimEventsForSnapshotBudgetLocked. by repeat case_match.
Qed.
Lemma trimEvents_records r : records (trimEventsForSnapshotBudgetLocked r).1 = records r.
Proof. unfold trimEventsForSnapshotBudgetLocked. by repeat case_match. Qed.

Lemma pruneEvents_frame r : frame r (pruneEventsLocked r).1.
Proof. unfold frame, pruneEventsLocked. by repeat case_match. Qed.
Lemma pruneEvents_records r : records (pruneEventsLocked r).1 = records r.
Proof. unfold pruneEventsLocked. by repeat case_match. Qed.

Lemma prune_for_bytes_frame l : ∀ r b, frame r (prune_for_bytes r l b).1.
Proof.
  induction l as [|v l IH]; intros r b; simpl; [reflexivity|]. case_match; [reflexivity|].
  etrans; [|apply IH]. etrans; [apply frame_records | apply pruneEvents_frame].
Qed.

Lemma pruneSnapshotBytes_frame r : frame r (pruneSnapshotBytesLocked r).1.
Proof.
  unfold pruneSnapshotBytesLocked. case_match; [reflexivity|].
  pose proof (trimEvents_frame r) as Hf.
  destruct (trimEventsForSnapshotBudgetLocked r) as [r1 b]. simpl in *.
  case_match; simpl; [done|]. etrans; [exact Hf | apply prune_for_bytes_frame].
Qed.

Lemma prune_for_count_frame l : ∀ r b, frame r (prune_for_count r l b).1.
Proof.
  induction l as [|v l IH]; intros r b; simpl; [reflexivity|]. case_match; [|reflexivity].
  etrans; [apply frame_records | apply IH].
Qed.

(** ** What pruning keeps *)

Lemma prune_for_count_lookup l id : ∀ r b,
  id ∉ t_TaskID <$> l → records (prune_for_count r l b).1 !! id = records r !! id.
Proof.
  induction l as [|v l IH]; intros r b Hid; csimpl in *; [done|].
  apply not_elem_of_cons in Hid as [Hne Hid]. case_match; [|done].
  rewrite IH by done. simpl. by rewrite lookup_delete_ne.
Qed.

Lemma prune_for_bytes_lookup l id : ∀ r b,
  id ∉ t_TaskID <$> l → records (prune_for_bytes r l b).1 !! id = records r !! id.
Proof.
  induction l as [|v l IH]; intros r b Hid; csimpl in *; [done|].
  apply not_elem_of_cons in Hid as [Hne Hid]. case_match; [done|].
  rewrite IH, pruneEvents_records by done. simpl. by rewrite lookup_delete_ne.
Qed.

(** The records that remain are records that were there. *)
Lemma prune_for_count_subseteq l : ∀ r b, records (prune_for_count r l b).1 ⊆ records r.
Proof.
  induction l as [|v l IH]; intros r b; simpl; [done|]. case_match; [|done].
  etrans; [apply IH|]. apply delete_subseteq.
Qed.
Lemma prune_for_bytes_subseteq l : ∀ r b, records (prune_for_bytes r l b).1 ⊆ records r.
Proof.
  induction l as [|v l IH]; intros r b; simpl; [done|]. case_match; [done|].
  etrans; [apply IH|]. rewrite pruneEvents_records. apply delete_subseteq.
Qed.

Lemma elem_of_prunable r rec :
  rec ∈ prunable_by_age r ↔ canPruneRecord rec = true ∧ ∃ id, records r !! id = Some rec.
Proof.
  unfold prunable_by_age. by rewrite sort_by_elem_of, list_elem_of_filter, elem_of_go_values.
Qed.

Lemma protected_not_prunable r id rec :
  keyed (records r) → records r !! id = Some rec → canPruneRecord rec = false →
  id ∉ t_TaskID <$> prunable_by_age r.
Proof.
  intros Hk Hid Hp. rewrite list_elem_of_fmap. intros (v & -> & Hv).
  apply elem_of_prunable in Hv as (Hc & id' & Hv).
  rewrite (Hk _ _ Hv), Hv in Hid. congruence.
Qed.

Lemma keyed_subseteq m m' : keyed m → m' ⊆ m → keyed m'.
Proof. intros Hk Hs id rec Hid. apply Hk. by eapply lookup_weaken. Qed.

Lemma pruneExpired_protected r now id rec :
  records r !! id = Some rec → canPruneRecord rec = false →
  records (pruneExpired r now).1 !! id = Some rec.
Proof.
  intros Hid Hp. simpl. apply map_lookup_filter_Some. split; [done|].
  unfold shouldPruneExpired. cbn [snd]. by rewrite Hp.
Qed.

Lemma pruneSnapshotBytes_protected r id rec :
  keyed (records r) → records r !! id = Some rec → canPruneRecord rec = false →
  records (pruneSnapshotBytesLocked r).1 !! id = Some rec.
Proof.
  intros Hk Hid Hp. unfold pruneSnapshotBytesLocked. case_match; [done|].
  pose proof (trimEvents_records r) as Hr.
  destruct (trimEventsForSnapshotBudgetLocked r) as [r1 b]. simpl in Hr.
  case_match; simpl; [by rewrite Hr|].
  rewrite prune_for_bytes_lookup; [by rewrite Hr|].
  apply (protected_not_prunable r1 id rec); by rewrite ?Hr.
Qed.

Lemma pruneSnapshotBytes_subseteq r : records (pruneSnapshotBytesLocked r).1 ⊆ records r.
Proof.
  unfold pruneSnapshotBytesLocked. case_match; [done|].
  pose proof (trimEvents_records r) as Hr.
  destruct (trimEventsForSnapshotBudgetLocked r) as [r2 b]. simpl in Hr.
  case_match; simpl; [by rewrite Hr|]. etrans; [apply prune_for_bytes_subseteq|]. by rewrite Hr.
Qed.

Lemma prune_for_count_flag l : ∀ r b1 b2, (prune_for_count r l b1).1 = (prune_for_count r l b2).1.
Proof. induction l as [|v l IH]; intros; simpl; [done|]. by case_match. Qed.

(** The composition of the phases of [pruneLocked], in one place. *)
Lemma pruneLocked_phases (P : Registry → Registry → Prop) r now b :
  P r (pruneExpired r now).1 →
  (∀ r1, P r r1 → P r (prune_for_count r1 (prunable_by_age r1) b).1) →
  (∀ r1, P r r1 → P r (pruneEventsLocked r1).1) →
  (∀ r1, P r r1 → P r (pruneSnapshotBytesLocked r1).1) →
  P r (pruneLocked r now).1.
Proof.
  intros He Hc Hv Hb. unfold pruneLocked.
  destruct (pruneExpired r now) as [r0 b0]. simpl in He.
  assert (∀ (c b : bool), P r (if c then prune_for_count r0 (prunable_by_age r0) b else (r0, b)).1) as Hp.
  { intros [] b'; simpl; [|done].
    rewrite (prune_for_count_flag _ _ _ b). by apply Hc. }
  specialize (Hp ((0 <? MaxRecords (options r0)) && (MaxRecords (options r0) <? Z.of_nat (size (records r0)))) b0).
  match type of Hp with P r ?x.1 => destruct x as [r1 b1] end. simpl in Hp.
  specialize (Hv r1 Hp). destruct (pruneEventsLocked r1) as [r2 b2].
  specialize (Hb r2 Hv). by destruct (pruneSnapshotBytesLocked r2) as [r3 b3].
Qed.

Lemma pruneLocked_frame r now : frame r (pruneLocked r now).1.
Proof.
  apply (pruneLocked_phases frame r now false); intros; [apply frame_records|..]; (etrans; [eassumption|]).
  - apply prune_for_count_frame.
  - apply pruneEvents_frame.
  - apply pruneSnapshotBytes_frame.
Qed.

Lemma pruneLocked_subseteq r now : records (pruneLocked r now).1 ⊆ records r.
Proof.
  apply (pruneLocked_phases (fun r r' : Registry => records r' ⊆ records r) r now false).
  - simpl. apply map_filter_subseteq.
  - intros r1 Hr1. etrans; [apply prune_for_count_subseteq | done].
  - intros r1 Hr1. by rewrite pruneEvents_records.
  - intros r1 Hr1. etrans; [apply pruneSnapshotBytes_subseteq | done].
Qed.

Lemma pruneLocked_protected r now id rec :
  keyed (records r) → records r !! id = Some rec → canPruneRecord rec = false →
  records (pruneLocked r now).1 !! id = Some rec.
Proof.
  intros Hk Hid Hp.
  enough (records (pruneLocked r now).1 ⊆ records r
          ∧ records (pruneLocked r now).1 !! id = Some rec) by tauto.
  apply (pruneLocked_phases
    (fun r r' : Registry => records r' ⊆ records r ∧ records r' !! id = Some rec) r now false).
  - split; [simpl; apply map_filter_subseteq | by apply pruneExpired_protected].
  - intros r1 [Hs Hr1]. split; [etrans; [apply prune_for_count_subseteq | done]|].
    rewrite prune_for_count_lookup; [done|].
    eapply protected_not_prunable; [by eapply keyed_subseteq | done..].
  - intros r1 [Hs Hr1]. by rewrite pruneEvents_records.
  - intros r1 [Hs Hr1]. split; [|eapply pruneSnapshotBytes_protected; [by eapply keyed_subseteq|done..]].
    etrans; [apply pruneSnapshotBytes_subseteq | done].
Qed.

Lemma pruneMutation_records r now l :
  records (pruneMutationLocked r now l) = records (pruneLocked r now).1.
Proof. unfold pruneMutationLocked. by case_match. Qed.
Lemma pruneMutation_frame r now l : frame r (pruneMutationLocked r now l).
Proof.
  unfold pruneMutationLocked. case_match; [apply pruneLocked_frame|].
  etrans; [apply pruneLocked_frame | apply frame_events].
Qed.

(** ** The incremental size of the event trim *)

Definition with_events r (evs : list TaskEvent) : Registry := r <| events := evs |>.

Lemma with_events_id r : with_events r (events r) = r.
Proof. by destruct r. Qed.

(** The size of a snapshot is that of its layout without the event list, plus
    the encoded events and one separator between two of them. *)
Lemma snapshotSize_cons r e e' l :
  snapshotSizeLocked (with_events r (e :: e' :: l))
  = snapshotSizeLocked (with_events r (e' :: l)) + (len (encoded_event e) + len event_separator).
Proof.
  assert (encoded_event e = render (newline_at "" "  ") 2 (TaskEvent_json e)) as ->
    by apply (marshal_indent_prefix "  ").
  unfold snapshotSizeLocked, snapshot_text, marshal_indent, Snapshot_json, with_events.
  cbn [snapshotLocked Tasks Events records events update eta_Registry flist_omit field app render List.map fst snd].
  rewrite !len_app, !len_join_cons, !len_app by done. cbn [join]. rewrite !len_app.
  assert (len event_separator = len "," + len (newline_at "" "  " 2)) as -> by reflexivity. lia.
Qed.

(** The specification of the trim: re-encode the snapshot at every step and
    drop events from the head until it fits. *)
Fixpoint trim_reference r (evs : list TaskEvent) (budget : Z) : list TaskEvent :=
  if snapshotSizeLocked (with_events r evs) <=? budget then evs else
  match evs with [] => [] | _ :: rest => trim_reference r rest budget end.

Lemma trim_loop_reference r budget l : ∀ size,
  l ≠ [] → size = snapshotSizeLocked (with_events r l) → budget < size →
  trim_loop l size budget = Some (trim_reference r l budget).
Proof.
  induction l as [|e l IH]; intros size Hl Hs Hb; [done|]. cbn [trim_loop trim_reference].
  assert ((snapshotSizeLocked (with_events r (e :: l)) <=? budget) = false) as ->
    by (apply Z.leb_gt; lia).
  destruct l as [|e' l].
  - cbn. by case_match.
  - rewrite Hs, snapshotSize_cons.
    match goal with |- context [?a + ?b - ?b] => replace (a + b - b) with a by lia end.
    case_match eqn:E; [cbn [trim_reference]; by rewrite E|].
    apply IH; [done..|]. by apply Z.leb_gt.
Qed.

Lemma trim_reference_done r l budget :
  (snapshotSizeLocked (with_events r l) <=? budget) = true → trim_reference r l budget = l.
Proof. intros E. destruct l; cbn [trim_reference]; by rewrite E. Qed.

Lemma trimEvents_reference r :
  (trimEventsForSnapshotBudgetLocked r).1
  = with_events r (trim_reference r (events r) (MaxSnapshotBytes (options r))).
Proof.
  unfold trimEventsForSnapshotBudgetLocked. destruct (decide (events r = [])) as [He|He].
  - assert (with_events r [] = r) as Hr by (rewrite <- He; apply with_events_id).
    rewrite He. cbn [length Nat.eqb fst trim_reference]. by case_match; rewrite Hr.
  - assert ((length (events r) =? 0)%nat = false) as -> by (by destruct (events r)).
    case_match eqn:E; cbn [fst].
    + rewrite trim_reference_done, with_events_id; [done|]. by rewrite with_events_id.
    + rewrite (trim_loop_reference r); [done..|by rewrite with_events_id|by apply Z.leb_gt].
Qed.

Lemma trim_reference_suffix r budget l : trim_reference r l budget `suffix_of` l.
Proof.
  induction l as [|e l IH]; cbn [trim_reference]; case_match; [done..|]. by apply suffix_cons_r.
Qed.

(** The trim ends within the budget, or with no event left. *)
Lemma trim_reference_fits r budget l :
  snapshotSizeLocked (with_events r (trim_reference r l budget)) ≤ budget
  ∨ trim_reference r l budget = [].
Proof.
  induction l as [|e l IH]; cbn [trim_reference]; case_match eqn:E;
    rewrite ?Z.leb_le in *; auto.
Qed.

(** ** Bounds *)

Definition no_prunable (m : gmap string Record) : Prop :=
  map_Forall (fun _ rec => canPruneRecord rec = false) m.

Lemma no_prunable_subseteq m m' : no_prunable m → m' ⊆ m → no_prunable m'.
Proof. intros Hm Hs id rec Hid. eapply Hm, lookup_weaken; eauto. Qed.

Lemma subseteq_size (m m' : gmap string Record) : m' ⊆ m → (size m' ≤ size m)%nat.
Proof. intros Hs. rewrite <- !size_dom. by apply subseteq_size, subseteq_dom. Qed.

(** Deleting every prunable record leaves none. *)
Lemma deleted_no_prunable m m' (l : list Record) :
  keyed m → m' ⊆ m →
  (∀ id rec, m' !! id = Some rec → canPruneRecord rec = true → id ∈ t_TaskID <$> l) →
  (∀ id, id ∈ t_TaskID <$> l → m' !! id = None) → no_prunable m'.
Proof.
  intros Hk Hs Hin Hdel id rec Hid. destruct (canPruneRecord rec) eqn:E; [|done].
  specialize (Hdel id (Hin _ _ Hid E)). congruence.
Qed.

Lemma prune_for_count_outcome l : ∀ r b,
  let r' := (prune_for_count r l b).1 in
  Z.of_nat (size (records r')) ≤ MaxRecords (options r)
  ∨ ∀ id, id ∈ t_TaskID <$> l → records r' !! id = None.
Proof.
  induction l as [|v l IH]; intros r b; simpl; [right; intros id; by rewrite elem_of_nil|].
  case_match eqn:E; [|left; by apply Z.ltb_ge in E].
  destruct (IH (r <| records ::= delete (t_TaskID v) |>) true) as [Hl|Hr]; [by left|right].
  intros id Hid. apply elem_of_cons in Hid as [->|Hid]; [|by apply Hr].
  apply (lookup_weaken_None _ (records (r <| records ::= delete (t_TaskID v) |>)));
    [apply lookup_delete_eq | apply prune_for_count_subseteq].
Qed.

Lemma prune_for_bytes_outcome l : ∀ r b,
  let r' := (prune_for_bytes r l b).1 in
  snapshotSizeLocked r' ≤ MaxSnapshotBytes (options r)
  ∨ ∀ id, id ∈ t_TaskID <$> l → records r' !! id = None.
Proof.
  induction l as [|v l IH]; intros r b; simpl; [right; intros id; by rewrite elem_of_nil|].
  case_match eqn:E; [left; by apply Z.leb_le in E|].
  set (r1 := r <| records ::= delete (t_TaskID v) |>).
  pose proof (frame_options _ _ (pruneEvents_frame r1)) as Ho.
  destruct (IH (pruneEventsLocked r1).1 true) as [Hl|Hr].
  - left. rewrite Ho in Hl. exact Hl.
  - right. intros id Hid. apply elem_of_cons in Hid as [->|Hid]; [|by apply Hr].
    apply (lookup_weaken_None _ (records r1)); [apply lookup_delete_eq|].
    etrans; [apply prune_for_bytes_subseteq|]. by rewrite pruneEvents_records.
Qed.

Lemma prunable_covers r m' :
  keyed (records r) → m' ⊆ records r →
  ∀ id rec, m' !! id = Some rec → canPruneRecord rec = true →
  id ∈ t_TaskID <$> prunable_by_age r.
Proof.
  intros Hk Hs id rec Hid Hc. pose proof (lookup_weaken _ _ _ _ Hid Hs) as Hr.
  apply list_elem_of_fmap. exists rec. split; [symmetry; by apply Hk|].
  apply elem_of_prunable. eauto.
Qed.

Lemma prune_for_count_bound r b :
  keyed (records r) →
  let r' := (prune_for_count r (prunable_by_age r) b).1 in
  Z.of_nat (size (records r')) ≤ MaxRecords (options r) ∨ no_prunable (records r').
Proof.
  intros Hk. destruct (prune_for_count_outcome (prunable_by_age r) r b) as [|Hd]; [by left|right].
  eapply deleted_no_prunable; [done | apply prune_for_count_subseteq | | exact Hd].
  apply prunable_covers; [done | apply prune_for_count_subseteq].
Qed.

Lemma prune_for_bytes_bound r b :
  keyed (records r) →
  let r' := (prune_for_bytes r (prunable_by_age r) b).1 in
  snapshotSizeLocked r' ≤ MaxSnapshotBytes (options r) ∨ no_prunable (records r').
Proof.
  intros Hk. destruct (prune_for_bytes_outcome (prunable_by_age r) r b) as [|Hd]; [by left|right].
  eapply deleted_no_prunable; [done | apply prune_for_bytes_subseteq | | exact Hd].
  apply prunable_covers; [done | apply prune_for_bytes_subseteq].
Qed.

(** Events only get fewer. *)
Lemma pruneEvents_length r : (length (events (pruneEventsLocked r).1) ≤ length (events r))%nat.
Proof.
  unfold pruneEventsLocked. case_match; [done|].
  pose proof (length_filter (fun evt => is_Some (records r !! ev_TaskID evt)) (events r)).
  case_match; simpl; [|done]. unfold last_n. rewrite length_drop. lia.
Qed.
Lemma pruneEvents_bound r :
  0 < MaxEvents (options r) → Z.of_nat (length (events (pruneEventsLocked r).1)) ≤ MaxEvents (options r).
Proof.
  intros Hm. unfold pruneEventsLocked. case_match eqn:E; [apply Nat.eqb_eq in E; simpl; lia|].
  case_match eqn:E2; simpl.
  - apply andb_prop in E2 as [_ E2]. apply Z.ltb_lt in E2. rewrite length_last_n; lia.
  - apply andb_false_iff in E2 as [E2|E2]; apply Z.ltb_ge in E2; lia.
Qed.
Lemma prune_for_bytes_length l : ∀ r b,
  (length (events (prune_for_bytes r l b).1) ≤ length (events r))%nat.
Proof.
  induction l as [|v l IH]; intros r b; simpl; [done|]. case_match; [done|].
  etrans; [apply IH|]. etrans; [apply pruneEvents_length|]. done.
Qed.
Lemma trimEvents_length r :
  (length (events (trimEventsForSnapshotBudgetLocked r).1) ≤ length (events r))%nat.
Proof. rewrite trimEvents_reference. simpl. by apply suffix_length, trim_reference_suffix. Qed.
Lemma pruneSnapshotBytes_length r :
  (length (events (pruneSnapshotBytesLocked r).1) ≤ length (events r))%nat.
Proof.
  unfold pruneSnapshotBytesLocked. case_match; [done|].
  pose proof (trimEvents_length r). destruct (trimEventsForSnapshotBudgetLocked r) as [r1 b].
  case_match; simpl in *; [done|]. pose proof (prune_for_bytes_length (prunable_by_age r1) r1 b). lia.
Qed.

Lemma pruneSnapshotBytes_bound r :
  keyed (records r) → 0 < MaxSnapshotBytes (options r) →
  let r' := (pruneSnapshotBytesLocked r).1 in
  snapshotSizeLocked r' ≤ MaxSnapshotBytes (options r)
  ∨ events r' = [] ∧ no_prunable (records r').
Proof.
  intros Hk Hm. unfold pruneSnapshotBytesLocked. case_match eqn:E.
  { left. apply orb_prop in E as [E|E]; apply Z.leb_le in E; simpl; lia. }
  apply orb_false_iff in E as [_ E].
  pose proof (trimEvents_reference r) as Ht. pose proof (trimEvents_records r) as Hr.
  pose proof (frame_options _ _ (trimEvents_frame r)) as Ho.
  destruct (trimEventsForSnapshotBudgetLocked r) as [r1 b]. simpl in Ht, Hr, Ho.
  case_match eqn:E1; simpl; [left; apply Z.leb_le in E1; by rewrite Ho in E1|].
  destruct (prune_for_bytes_bound r1 b) as [Hl|Hn]; [by rewrite Hr | left; by rewrite Ho in Hl | right].
  split; [|done].
  destruct (trim_reference_fits r (MaxSnapshotBytes (options r)) (events r)) as [Hf|Hf].
  - rewrite <- Ht in Hf. rewrite Ho in E1. apply Z.leb_gt in E1. lia.
  - assert (events r1 = []) as He by (rewrite Ht; exact Hf).
    pose proof (prune_for_bytes_length (prunable_by_age r1) r1 b) as Hlen.
    rewrite He in Hlen. by apply length_zero_iff_nil, Nat.le_0_r.
Qed.

(** What [pruneLocked] guarantees of the records it leaves behind. *)
Lemma pruneLocked_bounds r now :
  keyed (records r) →
  0 < MaxRecords (options r) → 0 < MaxEvents (options r) → 0 < MaxSnapshotBytes (options r) →
  let r' := (pruneLocked r now).1 in
  (Z.of_nat (size (records r')) ≤ MaxRecords (options r) ∨ no_prunable (records r'))
  ∧ Z.of_nat (length (events r')) ≤ MaxEvents (options r)
  ∧ (snapshotSizeLocked r' ≤ MaxSnapshotBytes (options r)
     ∨ events r' = [] ∧ no_prunable (records r')).
Proof.
  intros Hk Hr He Hb. unfold pruneLocked.
  assert (keyed (records (pruneExpired r now).1)) as Hk0
    by (eapply keyed_subseteq; [done|simpl; apply map_filter_subseteq]).
  assert (options (pruneExpired r now).1 = options r) as Ho0 by done.
  destruct (pruneExpired r now) as [r0 b0]. simpl in Hk0, Ho0.
  assert (∃ r1 b1, (if (0 <? MaxRecords (options r0)) && (MaxRecords (options r0) <? Z.of_nat (size (records r0)))
     then prune_for_count r0 (prunable_by_age r0) b0 else (r0, b0)) = (r1, b1)
     ∧ options r1 = options r ∧ keyed (records r1)
     ∧ (Z.of_nat (size (records r1)) ≤ MaxRecords (options r) ∨ no_prunable (records r1)))
    as (r1 & b1 & -> & Ho1 & Hk1 & Hc1).
  { case_match eqn:E; eexists _, _; (split; [apply surjective_pairing|]); simpl.
    - rewrite (frame_options _ _ (prune_for_count_frame _ _ _)), <- Ho0. split_and!; [done| |].
      + eapply keyed_subseteq; [exact Hk0 | apply prune_for_count_subseteq].
      + by apply prune_for_count_bound.
    - split_and!; [done..|left]. rewrite Ho0 in E.
      apply andb_false_iff in E as [E|E]; apply Z.ltb_ge in E; lia. }
  pose proof (pruneEvents_records r1) as Hr2. pose proof (pruneEvents_bound r1) as He2.
  pose proof (frame_options _ _ (pruneEvents_frame r1)) as Ho2.
  destruct (pruneEventsLocked r1) as [r2 b2]. simpl in Hr2, He2, Ho2.
  pose proof (pruneSnapshotBytes_bound r2) as Hb3. pose proof (pruneSnapshotBytes_length r2) as Hl3.
  pose proof (pruneSnapshotBytes_subseteq r2) as Hs3.
  destruct (pruneSnapshotBytesLocked r2) as [r3 b3]. simpl in *.
  rewrite Ho2, Ho1 in Hb3. rewrite Ho1 in He2. rewrite Hr2 in Hb3, Hs3. split_and!.
  - destruct Hc1 as [Hc1|Hc1]; [left | right; by eapply no_prunable_subseteq].
    pose proof (subseteq_size _ _ Hs3). lia.
  - specialize (He2 He). lia.
  - by apply Hb3.
Qed.
End prune.
