(* ===== verification/TaskLifecycle.v ===== *)
(** Package [pkg/tasks], the operations on a registry: construction and load
    ([registry.go], [persist.go]), the lifecycle operations ([lifecycle.go]),
    recovery of tasks whose owner is gone ([recovery.go]), and the queries
    ([query.go]). *)
From S2P Require Import Prelude GoStrings GoJson TaskResult CodingScope TaskTypes TaskRegistry.

(** [truncateTaskSummary] *)
Definition truncateTaskSummary (value : string) : string :=
  let value := trim_space value in
  if 1000 <? rune_count value then rune_prefix 1000 value else value.

(** A partial or blocked objective is a completed execution, not a success. *)
Definition TerminalStatusForObjectiveOutcome (outcome : option Outcome) : Status :=
  match outcome with
  | None => StatusSucceeded
  | Some oc =>
      if blank (OutcomeStatus_string (oc_Status oc)) then StatusSucceeded
      else match oc_Status oc with OutcomeSucceeded => StatusSucceeded | _ => StatusFailed end
  end.

(** What reading the store file gives: [os.ReadFile] and the JSON decoder. *)
Inductive ReadResult :=
| ReadMissing
| ReadFailed (err : string)
| ReadData (data : string).

Section lifecycle.
Context `{MapOrder} `{Sha256}.
(** The strict JSON decoder of [decodeSnapshot] (unknown fields and trailing
    values refused). *)
Variable decode_json : string → result string Snapshot.
Implicit Types (r : Registry) (rec : Record).

(** ** Construction and load *)

Definition decodeSnapshot (data : string) : result string Snapshot :=
  snap ← decode_json data;
  _ ← validateSnapshot snap;
  Ok snap.

Definition load r (read : ReadResult) : result string Registry :=
  match read with
  | ReadMissing => Ok r
  | ReadFailed err => Err err
  | ReadData data =>
      snap ← decodeSnapshot data;
      Ok (r <| records := foldl (fun m rec => <[t_TaskID rec := rec]> m) ∅ (default [] (Tasks snap)) |>
            <| events := Events snap |>)
  end.

Definition NewRegistryWithOptions (storePath : string) (opts : Options) (read : ReadResult)
    (now : Z) (w : WriteOutcome) : Registry :=
  let data := match read with ReadData d => Some d | _ => None end in
  let r := mkRegistry (trim_space storePath) (default_options opts) ∅ [] None false data in
  if String.eqb (store r) "" then r else
  match load r read with
  | Ok r => pruneLoadedState r now w
  | Err err => r <| lastLoad := Some err |>
  end.

Definition InspectSnapshot (data : string) : result string Snapshot :=
  reject (len data =? 0) || (DefaultMaxSnapshotBytes <? len data)
    with "task registry: invalid bounded snapshot observation"%string ;;
  match decodeSnapshot data with
  | Ok snapshot => Ok snapshot
  | Err _ => Err "task registry: invalid bounded snapshot observation"%string
  end.

Definition registry_stats r : Stats :=
  let size := snapshotSizeLocked r in
  mkStats (Z.of_nat (base.size (records r))) (Z.of_nat (length (events r)))
    (Z.of_nat (length (filter (fun rec => canPruneRecord rec = false) (go_values (records r)))))
    size ((0 <? MaxSnapshotBytes (options r)) && (MaxSnapshotBytes (options r) <? size)).

(** ** Mutations *)

(** The common end of every mutation: prune, save, roll back on failure. *)
Definition commitMutation r (eventStart : nat) (rollback : registryState) (now : Z)
    (w : WriteOutcome) : Registry * result Error () * bool :=
  let newEvents := eventsSinceLocked r eventStart in
  let r := pruneMutationLocked r now newEvents in
  let '(r, err) := saveLocked r w in
  let '(r, committed) := completeMutationLocked r err rollback in
  (r, err, committed).

Definition fill_defaults rec (now : Z) : Record :=
  let rec := if t_CreatedAt rec =? 0 then rec <| t_CreatedAt := now |> else rec in
  let rec := if t_LastEventAt rec =? 0 then rec <| t_LastEventAt := now |> else rec in
  let rec := if bool_decide (t_Status rec = StatusOther "")
             then rec <| t_Status := StatusQueued |> else rec in
  let rec := if bool_decide (t_DeliveryStatus rec = DeliveryOther "")
             then rec <| t_DeliveryStatus := DeliveryPending |> else rec in
  let rec := if bool_decide (t_NotifyPolicy rec = NotifyOther "")
             then rec <| t_NotifyPolicy := NotifyDoneOnly |> else rec in
  if bool_decide (t_Runtime rec = RuntimeOther "")
  then rec <| t_Runtime := RuntimeTool |> else rec.

(** The record of a new generation: defaults filled in, normalised, with a
    fresh identity and no event yet. *)
Definition generation_record r (rec : Record) (now clock : Z) (uuid : string) : Record :=
  normalizeRecord r (fill_defaults (cloneTaskRecord rec) now) now clock
    <| t_GenerationID := uuid |> <| t_LastEventSeq := 0 |>.

Definition storeNewGeneration r rec (rejectExisting : bool) (now clock : Z) (uuid : string)
    (w : WriteOutcome) : Registry * result Error () :=
  if blank (t_TaskID rec) then (r, Ok tt) else
  let rec := generation_record r rec now clock uuid in
  match writableErrorLocked r with
  | Err e => (r, Err e)
  | Ok _ =>
      if bool_decide (is_Some (records r !! t_TaskID rec)) && rejectExisting
      then (r, Err (ErrTaskAlreadyExists (t_TaskID rec))) else
      let rollback := captureStateLocked r in
      let eventStart := length (events r) in
      let r := r <| records ::= <[t_TaskID rec := rec]> |> in
      let r := appendEventLocked r rec EventTaskUpserted now clock
                 (<["task_kind" := t_TaskKind rec]> (<["label" := t_Label rec]> ∅)) in
      let '(r, err, _) := commitMutation r eventStart rollback now w in
      (r, err)
  end.

Definition Create r rec (now clock : Z) (uuid : string) (w : WriteOutcome)
    : Registry * result Error () :=
  let '(r, err) := storeNewGeneration r rec true now clock uuid w in
  (r, match err with
      | Err e => if IsCommittedWriteError e then Ok tt else Err e
      | Ok _ => Ok tt
      end).

Definition Upsert r rec (now clock : Z) (uuid : string) (w : WriteOutcome)
    : Registry * result Error () :=
  storeNewGeneration r rec false now clock uuid w.

(** What [Update] stores: the closure's record with its identity restored,
    dated when it changed, and normalised. *)
Definition keep_identity (before rec : Record) : Record :=
  rec <| t_GenerationID := t_GenerationID before |>
      <| t_LastEventSeq := t_LastEventSeq before |>.
Definition mutated_record r (before rec : Record) (now clock : Z) : Record :=
  let rec := keep_identity before rec in
  let rec := if (t_LastEventAt rec =? 0) || recordChanged before rec
             then rec <| t_LastEventAt := now |> else rec in
  normalizeRecord r rec (t_LastEventAt rec) clock.

(** [Update(taskID, mutate)]; [mutate] is the caller's closure, applied to a
    second copy of the stored record. *)
Definition Update r (taskID : string) (mutate : Record → Record) (now clock : Z) (w : WriteOutcome)
    : Registry * result Error () :=
  if blank taskID then (r, Ok tt) else
  match writableErrorLocked r with
  | Err e => (r, Err e)
  | Ok _ =>
      let rollback := captureStateLocked r in
      let eventStart := length (events r) in
      match records r !! taskID with
      | None => (r, Err (ErrTaskNotFound taskID))
      | Some rec =>
          let before := cloneTaskRecord rec in
          let rec := mutated_record r before (mutate before) now clock in
          let r := r <| records ::= <[taskID := rec]> |> in
          let r := appendUpdateEventsLocked r before rec (t_LastEventAt rec) clock in
          let '(r, err, _) := commitMutation r eventStart rollback (t_LastEventAt rec) w in
          (r, err)
      end
  end.

Definition AppendEvent r (taskID : string) (eventType : EventType) (payload : gmap string string)
    (now clock : Z) (w : WriteOutcome) : Registry * result Error () :=
  if blank taskID || bool_decide (eventType = EventTypeOther "") then (r, Ok tt) else
  match writableErrorLocked r with
  | Err e => (r, Err e)
  | Ok _ =>
      let rollback := captureStateLocked r in
      let eventStart := length (events r) in
      match records r !! taskID with
      | None => (r, Err (ErrTaskNotFound taskID))
      | Some rec =>
          let r := appendEventLocked r rec eventType now clock payload in
          let '(r, err, _) := commitMutation r eventStart rollback now w in
          (r, err)
      end
  end.

Definition heartbeat_mutate (progress : string) (now : Z) rec : Record :=
  if negb (isActiveStatus (t_Status rec)) then rec else
  let rec := rec <| t_LastEventAt := now |> in
  let progress := trim_space progress in
  if String.eqb progress "" then rec else rec <| t_ProgressSummary := progress |>.

Definition Heartbeat r (taskID progress : string) (now clock : Z) (w : WriteOutcome)
    : Registry * result Error () :=
  Update r taskID (heartbeat_mutate progress now) now clock w.

(** What [updateTask] stores of a changed record. *)
Definition touched_record r (before rec : Record) (now clock : Z) : Record :=
  normalizeRecord r (keep_identity before rec <| t_LastEventAt := now |>) now clock.

(** [updateTask]; a closure that returns [(false, nil)] is [None]. *)
Definition updateTask r (taskID : string) (mutate : Record → option Record) (now clock : Z)
    (w : WriteOutcome) : Registry * result Error () :=
  if blank taskID then (r, Ok tt) else
  match writableErrorLocked r with
  | Err e => (r, Err e)
  | Ok _ =>
      let rollback := captureStateLocked r in
      let eventStart := length (events r) in
      match records r !! taskID with
      | None => (r, Err (ErrTaskNotFound taskID))
      | Some before =>
          match mutate before with
          | None => (r, Ok tt)
          | Some rec =>
              let rec := touched_record r before rec now clock in
              let r := r <| records ::= <[taskID := rec]> |> in
              let r := appendUpdateEventsLocked r before rec now clock in
              let '(r, err, _) := commitMutation r eventStart rollback now w in
              (r, err)
          end
      end
  end.

(** A lost task is settled anew: its loss no longer dates its end. *)
Definition reopen_lost rec : Record :=
  if bool_decide (t_Status rec = StatusLost)
  then rec <| t_EndedAt := 0 |> <| t_CleanupAfter := 0 |> else rec.

Definition settled rec : bool :=
  isTerminalStatus (t_Status rec) && negb (bool_decide (t_Status rec = StatusLost)).

(** [mut_now] is the clock reading inside the closure. *)
Definition fail_mutate (status : Status) (summary : string) (mut_now : Z) rec : option Record :=
  let undelivered := bool_decide (t_Status rec = StatusSucceeded)
    && negb (bool_decide (t_DeliveryStatus rec = DeliveryDelivered))
    && negb (bool_decide (t_DeliveryStatus rec = DeliverySessionQueued))
    && negb (bool_decide (t_DeliveryStatus rec = DeliveryNotApplicable)) in
  let canFail := bool_decide (status = StatusFailed) && undelivered in
  let canCancel := bool_decide (status = StatusCancelled) && undelivered in
  if settled rec && negb canFail && negb canCancel then None else
  let rec := reopen_lost rec in
  let rec := rec <| t_Status := status |> in
  let rec := if canFail
    then rec <| t_DeliveryStatus := DeliveryFailed |> <| t_DeliveredAt := 0 |>
    else rec <| t_DeliveryStatus := DeliveryNotApplicable |> <| t_DeliveredAt := mut_now |> in
  let rec := if canCancel
    then rec <| t_LastCompletionID := "" |> <| t_DeliveryError := "" |>
             <| t_TerminalSummary := "" |> <| t_Deliverable := None |>
    else rec in
  Some (rec <| t_ProgressSummary := "" |> <| t_Error := truncateTaskSummary summary |>).

Definition Fail r (taskID : string) (status : Status) (summary : string)
    (mut_now now clock : Z) (w : WriteOutcome) : Registry * result Error () :=
  match status with
  | StatusFailed | StatusTimedOut | StatusCancelled =>
      updateTask r taskID (fail_mutate status summary mut_now) now clock w
  | _ => (r, Err (ErrInvalidTerminalStatus status))
  end.

Definition default_delivery (delivery : DeliveryStatus) : DeliveryStatus :=
  if bool_decide (delivery = DeliveryOther "") then DeliveryNotApplicable else delivery.

Definition mark_delivered (delivery : DeliveryStatus) (mut_now : Z) rec : Record :=
  if bool_decide (delivery = DeliveryDelivered) || bool_decide (delivery = DeliveryNotApplicable)
  then rec <| t_DeliveredAt := mut_now |> else rec.

Definition complete_mutate (summary : string) (deliverable : option Deliverable)
    (delivery : DeliveryStatus) (mut_now : Z) rec : option Record :=
  if settled rec then None else
  let rec := reopen_lost rec in
  let terminalSummary := truncateTaskSummary summary in
  let rec := rec <| t_Status := TerminalStatusForObjectiveOutcome (deliverable ≫= d_ObjectiveOutcome) |>
                 <| t_DeliveryStatus := delivery |> <| t_ProgressSummary := "" |>
                 <| t_TerminalSummary := terminalSummary |> <| t_Error := "" |> in
  let rec := if bool_decide (t_Status rec = StatusFailed)
             then rec <| t_Error := terminalSummary |> else rec in
  let rec := rec <| t_Deliverable := CloneDeliverable deliverable |> in
  Some (mark_delivered delivery mut_now rec).

Definition Complete r (taskID summary : string) (deliverable : option Deliverable)
    (delivery : DeliveryStatus) (mut_now now clock : Z) (w : WriteOutcome)
    : Registry * result Error () :=
  updateTask r taskID
    (complete_mutate summary deliverable (default_delivery delivery) mut_now) now clock w.

Definition settle_mutate (status : Status) (summary : string) (deliverable : option Deliverable)
    (delivery : DeliveryStatus) (mut_now : Z) rec : option Record :=
  if settled rec then None else
  let rec := reopen_lost rec in
  let rec := rec <| t_Status := status |> <| t_DeliveryStatus := delivery |>
                 <| t_ProgressSummary := "" |>
                 <| t_TerminalSummary := truncateTaskSummary summary |> <| t_Error := "" |> in
  let rec := if bool_decide (status = StatusFailed) || bool_decide (status = StatusTimedOut)
             then rec <| t_Error := t_TerminalSummary rec |> else rec in
  let rec := rec <| t_Deliverable := CloneDeliverable deliverable |> in
  Some (mark_delivered delivery mut_now rec).

Definition Settle r (taskID : string) (status : Status) (summary : string)
    (deliverable : option Deliverable) (delivery : DeliveryStatus) (mut_now now clock : Z)
    (w : WriteOutcome) : Registry * result Error () :=
  match status with
  | StatusSucceeded | StatusFailed | StatusTimedOut | StatusCancelled =>
      updateTask r taskID
        (settle_mutate status summary deliverable (default_delivery delivery) mut_now) now clock w
  | _ => (r, Err (ErrInvalidTerminalStatus status))
  end.

(** ** recovery.go *)

Definition lose_record r rec (reason : string) (now clock : Z) : Record :=
  let rec := rec <| t_Status := StatusLost |> in
  let rec := if isFinalDeliveryStatus (t_DeliveryStatus rec) then rec
             else rec <| t_DeliveryStatus := DeliveryNotApplicable |> in
  let rec := rec <| t_LastEventAt := now |> <| t_EndedAt := now |> in
  let rec := if blank (t_Error rec) then rec <| t_Error := reason |> else rec in
  normalizeRecord r rec now clock.

(** The loop over the sorted ids; [spared] are the loop's [continue]s that
    follow the status test. *)
Fixpoint markLostLoop r (ids : list string) (spared : Record → bool) (reason : string)
    (now clock : Z) (changed : Z) : Registry * Z :=
  match ids with
  | [] => (r, changed)
  | id :: rest =>
      match records r !! id with
      | None => markLostLoop r rest spared reason now clock changed
      | Some before =>
          if negb (isActiveStatus (t_Status before)) || spared before
          then markLostLoop r rest spared reason now clock changed
          else
            let rec := lose_record r before reason now clock in
            let r := r <| records ::= <[id := rec]> |> in
            let r := appendUpdateEventsLocked r before rec now clock in
            let r := appendEventLocked r rec EventTaskReconciled now clock
                       (<["reason" := reason]> ∅) in
            markLostLoop r rest spared reason now clock (changed + 1)
      end
  end.

Definition markLost r (spared : Record → bool) (reason : string) (now clock : Z) (w : WriteOutcome)
    : Registry * Z * result Error () :=
  match writableErrorLocked r with
  | Err e => (r, 0, Err e)
  | Ok _ =>
      let rollback := captureStateLocked r in
      let eventStart := length (events r) in
      let '(r, changed) := markLostLoop r (sortedRecordIDsLocked r) spared reason now clock 0 in
      if changed <=? 0 then (r, changed, Ok tt) else
      let '(r, err, committed) := commitMutation r eventStart rollback now w in
      (r, (if committed : bool then changed else 0), err)
  end.

Definition default_reason (reason fallback : string) : string :=
  let reason := trim_space reason in if String.eqb reason "" then fallback else reason.

(** The last sign of life of a task. *)
Definition last_seen rec : Z :=
  let ref := t_LastEventAt rec in
  let ref := if ref =? 0 then t_StartedAt rec else ref in
  if ref =? 0 then t_CreatedAt rec else ref.

Definition MarkStaleActiveLost r (maxAge : Z) (reason : string) (protected : gset string)
    (now clock : Z) (w : WriteOutcome) : Registry * Z * result Error () :=
  if maxAge <=? 0 then (r, 0, Ok tt) else
  let reason := default_reason reason "active task did not report progress before stale timeout" in
  let staleBefore := now - Z.quot maxAge 1000000 in
  let spared rec := bool_decide (t_TaskID rec ∈ protected)
                    || ((0 <? last_seen rec) && (staleBefore <? last_seen rec)) in
  markLost r spared reason now clock w.

Definition MarkActiveLost r (reason : string) (protected : gset string) (now clock : Z)
    (w : WriteOutcome) : Registry * Z * result Error () :=
  let reason := default_reason reason "active task owner is no longer alive" in
  markLost r (fun rec => bool_decide (t_TaskID rec ∈ protected)) reason now clock w.

(** ** What the coordinator of the agent loop passes to [Update]
    ([pkg/agent/task_registry.go]) *)

(** The closure of [updateDeliveryStatus]. *)
Definition delivery_mutate (status : DeliveryStatus) (completionID errorSummary : string) (now : Z) rec : Record :=
  if bool_decide (t_Status rec = StatusCancelled) && negb (bool_decide (t_Runtime rec = RuntimeCoding)) then rec else
  let rec := rec <| t_DeliveryStatus := status |> in
  let rec := if blank completionID then rec else rec <| t_LastCompletionID := trim_space completionID |> in
  let rec := if bool_decide (status = DeliveryDelivered) || bool_decide (status = DeliverySessionQueued)
                || bool_decide (status = DeliveryNotApplicable)
             then rec <| t_DeliveredAt := now |> <| t_DeliveryError := "" |> else rec in
  if blank errorSummary then rec else
  let rec := rec <| t_DeliveryError := trim_space errorSummary |> in
  if blank (t_Error rec) then rec <| t_Error := trim_space errorSummary |> else rec.
(** The closure of [reconcilePendingTerminalTaskDelivery]. *)
Definition parent_missing_mutate (now : Z) rec : Record :=
  let rec := rec <| t_DeliveryStatus := DeliveryParentMissing |> <| t_LastEventAt := now |> in
  if blank (t_Error rec)
  then rec <| t_Error := "pending delivery was not completed before runtime restart/reload" |> else rec.

(** ** query.go *)

Definition Get r (taskID : string) : option Record := cloneTaskRecord <$> records r !! taskID.

Definition List_ r : list Record :=
  merge_sort record_le (cloneTaskRecord <$> go_values (records r)).

Definition ListActive r : list Record :=
  filter (fun rec => isActiveStatus (t_Status rec) = true) (List_ r).

Definition event_le (a b : TaskEvent) : Prop :=
  ev_EmittedAt a < ev_EmittedAt b ∨
  ev_EmittedAt a = ev_EmittedAt b ∧
    (ev_Seq a < ev_Seq b ∨ ev_Seq a = ev_Seq b ∧ str_le (ev_EventID a) (ev_EventID b)).
#[local] Instance event_le_dec a b : Decision (event_le a b).
Proof. unfold event_le. apply _. Defined.

Definition ListEvents r (taskID : string) : list TaskEvent :=
  let taskID := trim_space taskID in
  merge_sort event_le (cloneTaskEvent <$>
    filter (fun evt => taskID = "" ∨ ev_TaskID evt = taskID) (events r)).

Definition ListPendingTerminalDelivery r : list Record :=
  filter (fun rec => t_DeliveryStatus rec = DeliveryPending ∧ isTerminalStatus (t_Status rec) = true)
    (List_ r).
End lifecycle.
