(* ===== verification/TaskSystem.v ===== *)
(** The task registry as a system of operations: one type of operations, the
    environment each takes, the operation dispatcher, and the lemmas on how an
    operation touches the records, shared by the properties. *)
From S2P Require Import Prelude GoStrings GoJson TaskResult CodingScope TaskTypes TaskRegistry.
From S2P Require Import TaskPrune TaskLifecycle.

(** What one call takes from its environment. *)
Record Env := mkEnv {
  env_now : Z;          (* time.Now().UnixMilli() of the operation *)
  env_mut_now : Z;      (* its reading inside the mutation closure *)
  env_clock : Z;        (* its reading where a zero time is replaced *)
  env_uuid : string;    (* uuid.NewString() *)
  env_write : WriteOutcome }.

Inductive Op :=
| OpCreate (rec : Record)
| OpUpsert (rec : Record)
| OpUpdate (taskID : string) (mutate : Record → Record)
| OpAppendEvent (taskID : string) (eventType : EventType) (payload : gmap string string)
| OpHeartbeat (taskID progress : string)
| OpFail (taskID : string) (status : Status) (summary : string)
| OpComplete (taskID summary : string) (deliverable : option Deliverable) (delivery : DeliveryStatus)
| OpSettle (taskID : string) (status : Status) (summary : string)
    (deliverable : option Deliverable) (delivery : DeliveryStatus)
| OpMarkStaleActiveLost (maxAge : Z) (reason : string) (protected : gset string)
| OpMarkActiveLost (reason : string) (protected : gset string).

(** [b] is [a] with some events counted. *)
Definition counted (a b : Record) : Prop :=
  b = a <| t_LastEventSeq := t_LastEventSeq b |> ∧ t_LastEventSeq a ≤ t_LastEventSeq b.

#[export] Instance counted_preorder : PreOrder counted.
Proof.
  split.
  - intros a. split; [by destruct a|lia].
  - intros a b c [Hb ?] [Hc ?]. split; [|lia]. rewrite Hc, Hb. by destruct a.
Qed.

(** Two maps hold the same records up to their event counters, which only
    grow. *)
Definition seq_ext (m m' : gmap string Record) : Prop := map_relation (fun _ => counted)
  (fun _ _ => False) (fun _ _ => False) m m'.

#[export] Instance seq_ext_preorder : PreOrder seq_ext.
Proof.
  split.
  - intros m id. by destruct (m !! id) as [a|]; simpl.
  - intros m1 m2 m3 H12 H23 id. specialize (H12 id). specialize (H23 id).
    destruct (m1 !! id) as [a|], (m2 !! id) as [b|], (m3 !! id) as [c|]; simpl in *; try done.
    by etrans.
Qed.

Lemma seq_ext_lookup m m' id a :
  seq_ext m m' → m !! id = Some a → ∃ b, m' !! id = Some b ∧ counted a b.
Proof.
  intros Hs Ha. specialize (Hs id). rewrite Ha in Hs.
  destruct (m' !! id) as [b|]; simpl in Hs; [eauto|done].
Qed.

Section system.
Context `{MapOrder} `{Sha256}.
Implicit Types (r : Registry) (rec : Record).

Definition run (env : Env) r (op : Op) : Registry * result Error () :=
  let now := env_now env in
  let clock := env_clock env in
  let mut_now := env_mut_now env in
  let w := env_write env in
  let drop_count (p : Registry * Z * result Error ()) := (p.1.1, p.2) in
  match op with
  | OpCreate rec => Create r rec now clock (env_uuid env) w
  | OpUpsert rec => Upsert r rec now clock (env_uuid env) w
  | OpUpdate id mutate => Update r id mutate now clock w
  | OpAppendEvent id t payload => AppendEvent r id t payload now clock w
  | OpHeartbeat id progress => Heartbeat r id progress now clock w
  | OpFail id status summary => Fail r id status summary mut_now now clock w
  | OpComplete id summary d delivery => Complete r id summary d delivery mut_now now clock w
  | OpSettle id status summary d delivery =>
      Settle r id status summary d delivery mut_now now clock w
  | OpMarkStaleActiveLost maxAge reason protected =>
      drop_count (MarkStaleActiveLost r maxAge reason protected now clock w)
  | OpMarkActiveLost reason protected => drop_count (MarkActiveLost r reason protected now clock w)
  end.

(** ** Appending events *)

Lemma appendEvent_frame r rec t e c p : frame r (appendEventLocked r rec t e c p).
Proof. unfold frame, appendEventLocked. by repeat case_match. Qed.
Lemma appendEvent_seq_ext r rec t e c p :
  seq_ext (records r) (records (appendEventLocked r rec t e c p)).
Proof.
  unfold appendEventLocked. case_match; [reflexivity|]. cbv zeta.
  destruct (records r !! t_TaskID rec) as [stored|] eqn:Hst; [|reflexivity].
  case_match; [reflexivity|]. simpl. intros id.
  destruct (decide (t_TaskID rec = id)) as [<-|Hne];
    [rewrite Hst, lookup_insert_eq | rewrite lookup_insert_ne by done].
  - simpl. split; [done|simpl; lia].
  - by destruct (records r !! id) as [a|]; simpl.
Qed.

Lemma appendUpdateEvents_rel (R : Registry → Registry → Prop) `{!PreOrder R} r a b e c :
  (∀ r t p, R r (appendEventLocked r b t e c p)) → R r (appendUpdateEventsLocked r a b e c).
Proof.
  intros Ha. unfold appendUpdateEventsLocked.
  repeat case_match; repeat (etrans; [|apply Ha]); reflexivity.
Qed.
Lemma appendUpdateEvents_frame r a b e c : frame r (appendUpdateEventsLocked r a b e c).
Proof. apply (appendUpdateEvents_rel frame). intros. apply appendEvent_frame. Qed.
#[local] Instance seq_ext_records_preorder :
  PreOrder (fun r r' : Registry => seq_ext (records r) (records r')).
Proof. split; [intros r; reflexivity|]. intros r1 r2 r3. apply transitivity. Qed.
Lemma appendUpdateEvents_seq_ext r a b e c :
  seq_ext (records r) (records (appendUpdateEventsLocked r a b e c)).
Proof.
  apply (appendUpdateEvents_rel (fun r r' => seq_ext (records r) (records r'))).
  intros. apply appendEvent_seq_ext.
Qed.

(** ** Committing a mutation *)

(** The saved state of a file-backed registry. *)
Definition persisted r : Prop :=
  file r = Some (snapshot_text (snapshotLocked r)) ∧ validateSnapshot (snapshotLocked r) = Ok tt.

(** How a mutation that reached [r] (registry [r0] at its start) ends. *)
Inductive commit_spec (r0 r : Registry) (now : Z) : Registry → result Error () → bool → Prop :=
| commit_memory l :
    store r = "" → commit_spec r0 r now (pruneMutationLocked r now l) (Ok tt) true
| commit_saved l r' err :
    store r ≠ "" → records r' = records (pruneMutationLocked r now l) →
    events r' = events (pruneMutationLocked r now l) → persisted r' →
    (err = Ok tt ∧ unsyncedWrite r' = false ∨ err = Err (ErrWrite true) ∧ unsyncedWrite r' = true) →
    options r' = options r → store r' = store r → lastLoad r' = lastLoad r →
    commit_spec r0 r now r' err true
| commit_rolled_back r' e :
    records r' = cloneTaskRecord <$> records r0 → events r' = events r0 →
    file r' = file r → unsyncedWrite r' = unsyncedWrite r →
    options r' = options r → store r' = store r → lastLoad r' = lastLoad r →
    IsCommittedWriteError e = false → commit_spec r0 r now r' (Err e) false.

Lemma cloneTaskEvent_list (l : list TaskEvent) : cloneTaskEvent <$> l = l.
Proof. apply fmap_pointwise_id, cloneTaskEvent_id. Qed.

Lemma commitMutation_spec r0 r n now w r' err b :
  lastLoad r = None →
  commitMutation r n (captureStateLocked r0) now w = (r', err, b) →
  commit_spec r0 r now r' err b.
Proof.
  unfold commitMutation. intros Hl Hc.
  set (l := eventsSinceLocked r n) in *.
  destruct (pruneMutation_frame r now l) as (Hs & Ho & Hll & Hu & Hf).
  set (rp := pruneMutationLocked r now l) in *.
  unfold saveLocked, writableErrorLocked in Hc. rewrite Hll, Hl in Hc.
  destruct (String.eqb (store rp) "") eqn:Hst.
  - apply String.eqb_eq in Hst. simpl in Hc. simplify_eq. apply commit_memory. by rewrite <- Hs.
  - apply String.eqb_neq in Hst. rewrite Hs in Hst.
    destruct (validateSnapshot (snapshotLocked rp)) as [[]|e] eqn:Hv; [destruct w|];
      cbv beta iota zeta delta [completeMutationLocked save_committed IsCommittedWriteError] in Hc;
      simplify_eq; rewrite <- ?(cloneTaskEvent_list (events r0)).
    1,2: eapply (commit_saved _ _ _ l); try done; eauto.
    all: eapply commit_rolled_back; try done; simpl; by rewrite ?cloneTaskEvent_list.
Qed.

(** ** Operations as transactions *)

(** Records outside [id] are the same. *)
Definition only_at (id : string) r r' : Prop :=
  ∀ id', id' ≠ id → records r' !! id' = records r !! id'.
#[local] Instance only_at_preorder id : PreOrder (only_at id).
Proof. split; [done|]. intros r1 r2 r3 H12 H23 id' Hne. by rewrite H23, H12. Qed.

Lemma appendEvent_only_at r rec t e c p :
  only_at (t_TaskID rec) r (appendEventLocked r rec t e c p).
Proof.
  unfold appendEventLocked. repeat case_match; try reflexivity.
  all: intros id' Hne; simpl; by rewrite lookup_insert_ne.
Qed.
Lemma appendUpdateEvents_only_at r a b e c :
  only_at (t_TaskID b) r (appendUpdateEventsLocked r a b e c).
Proof. apply (appendUpdateEvents_rel (only_at (t_TaskID b))). intros. apply appendEvent_only_at. Qed.

(** An operation either leaves the registry alone, or mutates it (reaching a
    registry with property [Q]) and commits.  [Create] reports a committed
    write as success. *)
Inductive transaction (Q : Registry → Prop) r : Registry → result Error () → Prop :=
| tx_none res : (∀ e, res = Err e → IsCommittedWriteError e = false) → transaction Q r r res
| tx_commit rmid now r' err b res :
    lastLoad r = None → frame r rmid → Q rmid → commit_spec r rmid now r' err b →
    (res = err ∨ err = Err (ErrWrite true) ∧ res = Ok tt) → transaction Q r r' res.

Lemma transaction_weaken (Q Q' : Registry → Prop) r r' res :
  (∀ rmid, Q rmid → Q' rmid) → transaction Q r r' res → transaction Q' r r' res.
Proof. intros HQ []; [by apply tx_none | eapply tx_commit; eauto]. Qed.

Lemma noop_ok Q r : transaction Q r r (Ok tt).
Proof. by apply tx_none. Qed.
Lemma noop_err Q r e : IsCommittedWriteError e = false → transaction Q r r (Err e).
Proof. intros. apply tx_none. congruence. Qed.
#[local] Hint Resolve noop_ok : core.
#[local] Hint Extern 1 (transaction _ _ _ (Err _)) => by apply noop_err : core.

Lemma writable_ok r : writableErrorLocked r = Ok tt → lastLoad r = None.
Proof. unfold writableErrorLocked. by case_match. Qed.

(** The record an operation on one task stores, before its event is counted. *)
Definition stores_at (id : string) r (stored : Record → Prop) rmid : Prop :=
  ∃ rec, stored rec ∧ seq_ext (<[id := rec]> (records r)) (records rmid)
         ∧ (t_TaskID rec = id → only_at id r rmid).

Ltac commit_tx :=
  match goal with
  | E : commitMutation _ _ _ _ _ = (?r', ?err, ?b) |- transaction _ _ _ _ =>
      eapply tx_commit; [by apply writable_ok | | | eapply commitMutation_spec; [|exact E] | by auto]
  end.

Lemma normalizeRecord_TaskID r rec now clock : t_TaskID (normalizeRecord r rec now clock) = t_TaskID rec.
Proof. unfold normalizeRecord. by repeat case_match. Qed.
Lemma fill_defaults_TaskID rec now : t_TaskID (fill_defaults rec now) = t_TaskID rec.
Proof. unfold fill_defaults. by repeat case_match. Qed.
Lemma generation_record_TaskID r rec now clock uuid :
  t_TaskID (generation_record r rec now clock uuid) = t_TaskID rec.
Proof.
  trans (t_TaskID (fill_defaults (cloneTaskRecord rec) now)); [|rewrite fill_defaults_TaskID; by destruct rec].
  rewrite <- (normalizeRecord_TaskID r (fill_defaults (cloneTaskRecord rec) now) now clock).
  unfold generation_record.
  generalize (normalizeRecord r (fill_defaults (cloneTaskRecord rec) now) now clock). by intros [].
Qed.

Lemma storeNewGeneration_tx r rec refuse now clock uuid w r' res :
  storeNewGeneration r rec refuse now clock uuid w = (r', res) →
  transaction (fun rmid => stores_at (t_TaskID rec) r
    (eq (generation_record r rec now clock uuid)) rmid
    ∧ (refuse = true → records r !! t_TaskID rec = None)) r r' res.
Proof.
  unfold storeNewGeneration. intros Hc. case_match; [by simplify_eq|].
  pose proof (generation_record_TaskID r rec now clock uuid) as Hid.
  remember (generation_record r rec now clock uuid) as b eqn:Hb. clear Hb.
  destruct (writableErrorLocked r) as [[]|e] eqn:Hw; [|simplify_eq; unfold writableErrorLocked in Hw].
  - case_match eqn:Hex; [simplify_eq; auto|].
    destruct (commitMutation _ _ _ _ _) as [[r1 err] c] eqn:E. simplify_eq. commit_tx.
    + etrans; [apply (frame_records r) | apply appendEvent_frame].
    + split; [|intros ->; rewrite andb_true_r, Hid in Hex; apply bool_decide_eq_false in Hex;
               by apply eq_None_not_Some].
      exists b. rewrite Hid. split_and!; [done|exact (appendEvent_seq_ext _ _ _ _ _ _)|].
      intros _. etrans; [|rewrite <- Hid; apply appendEvent_only_at].
      intros id' Hne. simpl. rewrite Hid. by rewrite lookup_insert_ne.
    + pose proof (appendEvent_frame (r <| records ::= <[t_TaskID b := b]> |>) b EventTaskUpserted
        now clock (<["task_kind" := t_TaskKind b]> (<["label" := t_Label b]> ∅))) as (_ & _ & Hl & _).
      rewrite Hl. by apply writable_ok.
  - case_match; simplify_eq. auto.
Qed.

Lemma AppendEvent_tx r id t payload now clock w r' res :
  AppendEvent r id t payload now clock w = (r', res) →
  transaction (fun rmid => seq_ext (records r) (records rmid)
    ∧ ∃ rec, records r !! id = Some rec ∧ only_at (t_TaskID rec) r rmid) r r' res.
Proof.
  unfold AppendEvent. intros Hc. case_match; [by simplify_eq|].
  destruct (writableErrorLocked r) as [[]|e] eqn:Hw;
    [|simplify_eq; unfold writableErrorLocked in Hw; case_match; simplify_eq; auto].
  destruct (records r !! id) as [rec|] eqn:Hid; [|simplify_eq; auto].
  destruct (commitMutation _ _ _ _ _) as [[r1 err] c] eqn:E. simplify_eq. commit_tx.
  - apply appendEvent_frame.
  - split; [apply appendEvent_seq_ext|]. exists rec. split; [done|apply appendEvent_only_at].
  - destruct (appendEvent_frame r rec t now clock payload) as (_ & _ & -> & _). by apply writable_ok.
Qed.

(** Storing [rec] under [id] and appending the events of the change. *)
Definition store_changed r id (before rec : Record) (emittedAt clock : Z) : Registry :=
  appendUpdateEventsLocked (r <| records ::= <[id := rec]> |>) before rec emittedAt clock.

Lemma store_changed_frame r id before rec e c : frame r (store_changed r id before rec e c).
Proof. etrans; [apply (frame_records r) | apply appendUpdateEvents_frame]. Qed.
Lemma store_changed_seq_ext r id before rec e c :
  seq_ext (<[id := rec]> (records r)) (records (store_changed r id before rec e c)).
Proof. exact (appendUpdateEvents_seq_ext (r <| records ::= <[id := rec]> |>) before rec e c). Qed.
Lemma store_changed_only_at r before rec e c :
  only_at (t_TaskID rec) r (store_changed r (t_TaskID rec) before rec e c).
Proof.
  etrans; [|apply appendUpdateEvents_only_at]. intros id' Hne. simpl. by rewrite lookup_insert_ne.
Qed.
Lemma store_changed_stores r id before rec e c (P : Record → Prop) :
  P rec → stores_at id r P (store_changed r id before rec e c).
Proof.
  intros HP. exists rec. split_and!; [done | apply store_changed_seq_ext |].
  intros <-. apply store_changed_only_at.
Qed.

Lemma Update_tx r id mutate now clock w r' res :
  Update r id mutate now clock w = (r', res) →
  transaction (fun rmid => ∃ a, records r !! id = Some a ∧
    let before := cloneTaskRecord a in
    stores_at id r (eq (mutated_record r before (mutate before) now clock)) rmid) r r' res.
Proof.
  unfold Update. intros Hc. case_match; [by simplify_eq|].
  destruct (writableErrorLocked r) as [[]|e] eqn:Hw;
    [|simplify_eq; unfold writableErrorLocked in Hw; case_match; simplify_eq; auto].
  destruct (records r !! id) as [a|] eqn:Hid; [|simplify_eq; auto].
  remember (mutated_record r (cloneTaskRecord a) (mutate (cloneTaskRecord a)) now clock) as rec eqn:Hr.
  cbv zeta in Hc. fold (store_changed r id (cloneTaskRecord a) rec (t_LastEventAt rec) clock) in Hc.
  destruct (commitMutation _ _ _ _ _) as [[r1 err] c] eqn:E. injection Hc as <- <-. commit_tx.
  - apply store_changed_frame.
  - exists a. split; [done|]. by apply store_changed_stores.
  - destruct (store_changed_frame r id (cloneTaskRecord a) rec (t_LastEventAt rec) clock)
      as (_ & _ & -> & _). by apply writable_ok.
Qed.

Lemma updateTask_tx r id mutate now clock w r' res :
  updateTask r id mutate now clock w = (r', res) →
  transaction (fun rmid => ∃ a b, records r !! id = Some a ∧ mutate a = Some b ∧
    stores_at id r (eq (touched_record r a b now clock)) rmid) r r' res.
Proof.
  unfold updateTask. intros Hc. case_match; [by simplify_eq|].
  destruct (writableErrorLocked r) as [[]|e] eqn:Hw;
    [|simplify_eq; unfold writableErrorLocked in Hw; case_match; simplify_eq; auto].
  destruct (records r !! id) as [a|] eqn:Hid; [|simplify_eq; auto].
  destruct (mutate a) as [b|] eqn:Hm; [|simplify_eq; auto].
  remember (touched_record r a b now clock) as rec eqn:Hr.
  cbv zeta in Hc. fold (store_changed r id a rec now clock) in Hc.
  destruct (commitMutation _ _ _ _ _) as [[r1 err] c] eqn:E. injection Hc as <- <-. commit_tx.
  - apply store_changed_frame.
  - exists a, b. split_and!; [done..|]. by apply store_changed_stores.
  - destruct (store_changed_frame r id a rec now clock) as (_ & _ & -> & _). by apply writable_ok.
Qed.

(** ** Losing active tasks *)

Definition loses (spared : Record → bool) (rec : Record) : bool :=
  isActiveStatus (t_Status rec) && negb (spared rec).

Definition lost_at (spared : Record → bool) (m : gmap string Record) (id : string) : Prop :=
  match m !! id with Some rec => loses spared rec = true | None => False end.
#[local] Instance lost_at_dec spared m id : Decision (lost_at spared m id).
Proof. unfold lost_at. destruct (m !! id); apply _. Defined.

Lemma normalizeRecord_options r r' rec now clock :
  options r' = options r → normalizeRecord r' rec now clock = normalizeRecord r rec now clock.
Proof. unfold normalizeRecord. by intros ->. Qed.
Lemma lose_record_options r r' rec reason now clock :
  options r' = options r → lose_record r' rec reason now clock = lose_record r rec reason now clock.
Proof. intros Ho. unfold lose_record. by apply normalizeRecord_options. Qed.
Lemma lose_record_TaskID r rec reason now clock : t_TaskID (lose_record r rec reason now clock) = t_TaskID rec.
Proof. unfold lose_record. rewrite normalizeRecord_TaskID. destruct rec. by repeat case_match. Qed.

(** One round of the loop on a task that is lost. *)
Definition lose_step r id (before : Record) (reason : string) (now clock : Z) : Registry :=
  let rec := lose_record r before reason now clock in
  appendEventLocked (store_changed r id before rec now clock) rec EventTaskReconciled now clock
    (<["reason" := reason]> ∅).

Lemma lose_step_frame r id before reason now clock :
  frame r (lose_step r id before reason now clock).
Proof. etrans; [apply store_changed_frame | apply appendEvent_frame]. Qed.
Lemma lose_step_only_at r before reason now clock :
  only_at (t_TaskID before) r (lose_step r (t_TaskID before) before reason now clock).
Proof.
  unfold lose_step. rewrite <- (lose_record_TaskID r before reason now clock).
  etrans; [apply store_changed_only_at | apply appendEvent_only_at].
Qed.
Lemma lose_step_lookup r id before reason now clock :
  ∃ b, records (lose_step r id before reason now clock) !! id = Some b
       ∧ counted (lose_record r before reason now clock) b.
Proof.
  assert (seq_ext (<[id := lose_record r before reason now clock]> (records r))
    (records (lose_step r id before reason now clock))) as Hs
    by (etrans; [apply store_changed_seq_ext | apply appendEvent_seq_ext]).
  apply (seq_ext_lookup _ _ _ _ Hs). apply lookup_insert_eq.
Qed.

Lemma markLostLoop_cons r id rest spared reason now clock n :
  markLostLoop r (id :: rest) spared reason now clock n =
  match records r !! id with
  | Some before =>
      if loses spared before
      then markLostLoop (lose_step r id before reason now clock) rest spared reason now clock (n + 1)
      else markLostLoop r rest spared reason now clock n
  | None => markLostLoop r rest spared reason now clock n
  end.
Proof.
  cbn [markLostLoop]. destruct (records r !! id) as [before|]; [|exact eq_refl].
  unfold loses, lose_step, store_changed.
  destruct (isActiveStatus (t_Status before)), (spared before); cbn [negb andb orb]; exact eq_refl.
Qed.

Lemma only_at_keyed id r r' b :
  keyed (records r) → only_at id r r' → records r' !! id = Some b → t_TaskID b = id →
  keyed (records r').
Proof.
  intros Hk Ho Hb Hid id' c Hc. destruct (decide (id' = id)) as [->|Hne]; [congruence|].
  apply Hk. by rewrite <- (Ho _ Hne).
Qed.

Lemma lose_step_keyed r id before reason now clock :
  keyed (records r) → records r !! id = Some before →
  keyed (records (lose_step r id before reason now clock)).
Proof.
  intros Hk Hid. pose proof (Hk _ _ Hid) as Ht. simpl in Ht. subst id.
  destruct (lose_step_lookup r (t_TaskID before) before reason now clock) as (b & Hb & Heq & _).
  eapply only_at_keyed; [done | apply lose_step_only_at | exact Hb |].
  pose proof (lose_record_TaskID r before reason now clock) as Hl.
  rewrite Heq. revert Hl. generalize (lose_record r before reason now clock). by intros [].
Qed.

Lemma elem_cons_ne (id id' : string) ids :
  id' ≠ id → bool_decide (id' ∈ id :: ids) = bool_decide (id' ∈ ids).
Proof. intros Hne. apply bool_decide_ext. rewrite elem_of_cons. naive_solver. Qed.

Lemma markLostLoop_spec ids : ∀ r spared reason now clock n r' n',
  NoDup ids → keyed (records r) →
  markLostLoop r ids spared reason now clock n = (r', n') →
  frame r r' ∧
  n' = n + Z.of_nat (length (filter (lost_at spared (records r)) ids)) ∧
  ∀ id, match records r !! id with
        | Some a =>
            if bool_decide (id ∈ ids) && loses spared a
            then ∃ b, records r' !! id = Some b
                      ∧ counted (lose_record r a reason now clock) b
            else records r' !! id = Some a
        | None => records r' !! id = None
        end.
Proof.
  induction ids as [|id ids IH]; intros r spared reason now clock n r' n' Hnd Hk Hc.
  { simpl in Hc. simplify_eq. split; [done|]. split; [simpl; lia|]. intros id. by destruct (records r' !! id). }
  apply NoDup_cons in Hnd as [Hni Hnd]. rewrite markLostLoop_cons in Hc.
  assert (records r !! id = None ∨ (∃ a, records r !! id = Some a ∧ loses spared a = false)
    ∨ ∃ a, records r !! id = Some a ∧ loses spared a = true) as [Hid|[(a & Hid & Hl)|(a & Hid & Hl)]].
  { destruct (records r !! id) as [a|]; [|by left]. right. destruct (loses spared a) eqn:?; eauto. }
  - rewrite Hid in Hc. destruct (IH _ _ _ _ _ _ _ _ Hnd Hk Hc) as (Hf & Hn & Hr). split; [done|split].
    + rewrite filter_cons_False; [done|]. unfold lost_at. rewrite Hid. by intros [].
    + intros id'. specialize (Hr id'). destruct (records r !! id') as [a'|] eqn:Ha'; [|done].
      assert (id' ≠ id) by congruence. by rewrite elem_cons_ne.
  - rewrite Hid, Hl in Hc. destruct (IH _ _ _ _ _ _ _ _ Hnd Hk Hc) as (Hf & Hn & Hr). split; [done|split].
    + rewrite filter_cons_False; [done|]. unfold lost_at. by rewrite Hid, Hl.
    + intros id'. specialize (Hr id'). destruct (records r !! id') as [a'|] eqn:Ha'; [|done].
      destruct (decide (id' = id)) as [->|Hne].
      * simplify_eq. rewrite Hl, andb_false_r in Hr |- *. done.
      * by rewrite elem_cons_ne.
  - rewrite Hid, Hl in Hc. pose proof (Hk _ _ Hid) as Ht. simpl in Ht.
    pose proof (lose_step_only_at r a reason now clock) as Ho. rewrite Ht in Ho.
    pose proof (lose_step_frame r id a reason now clock) as Hf0.
    destruct (lose_step_lookup r id a reason now clock) as (b & Hb & Hbeq).
    pose proof (lose_step_keyed r id a reason now clock Hk Hid) as Hk'.
    set (r1 := lose_step r id a reason now clock) in *. clearbody r1.
    destruct (IH _ _ _ _ _ _ _ _ Hnd Hk' Hc) as (Hf & Hn & Hr). split; [by etrans|split].
    + rewrite filter_cons_True by (unfold lost_at; by rewrite Hid, Hl). cbn [length].
      rewrite Hn. rewrite (list_filter_iff' (lost_at spared (records r1)) (lost_at spared (records r))); [lia|].
      intros id' Hin. unfold lost_at. rewrite Ho; [done|]. by intros ->.
    + intros id'. specialize (Hr id'). destruct (decide (id' = id)) as [->|Hne].
      * rewrite Hid. rewrite Hb in Hr. rewrite bool_decide_eq_false_2 in Hr by done. simpl in Hr.
        rewrite bool_decide_eq_true_2, Hl by (by left). cbn [andb]. eauto.
      * rewrite (Ho _ Hne) in Hr. destruct (records r !! id') as [a'|]; [|done].
        rewrite elem_cons_ne by done. case_match; [|done].
        destruct Hr as (b' & Hb' & Heq). exists b'. split; [done|].
        by rewrite <- (lose_record_options r r1) by by apply frame_options.
Qed.

(** ** The specification of an operation *)

Definition stale_spared (maxAge now : Z) (protected : gset string) rec : bool :=
  bool_decide (t_TaskID rec ∈ protected)
  || ((0 <? last_seen rec) && (now - Z.quot maxAge 1000000 <? last_seen rec)).

(** The record an operation stores for a task, before its new events are
    counted; [None] for a task it does not change. *)
Definition target_record (env : Env) r (op : Op) (id : string) : option Record :=
  let now := env_now env in
  let clock := env_clock env in
  let mut_now := env_mut_now env in
  let created rec := if decide (t_TaskID rec = id)
    then Some (generation_record r rec now clock (env_uuid env)) else None in
  let updated i (mutate : Record → Record) := if decide (i = id)
    then (fun a => let before := cloneTaskRecord a in
            mutated_record r before (mutate before) now clock) <$> records r !! id
    else None in
  let touched i (mutate : Record → option Record) := if decide (i = id)
    then a ← records r !! id; b ← mutate a; Some (touched_record r a b now clock)
    else None in
  let lost spared reason :=
    a ← records r !! id;
    if loses spared a then Some (lose_record r a reason now clock) else None in
  match op with
  | OpCreate rec | OpUpsert rec => created rec
  | OpUpdate i mutate => updated i mutate
  | OpAppendEvent i _ _ => if decide (i = id) then records r !! id else None
  | OpHeartbeat i progress => updated i (heartbeat_mutate progress now)
  | OpFail i status summary => touched i (fail_mutate status summary mut_now)
  | OpComplete i summary d delivery =>
      touched i (complete_mutate summary d (default_delivery delivery) mut_now)
  | OpSettle i status summary d delivery =>
      touched i (settle_mutate status summary d (default_delivery delivery) mut_now)
  | OpMarkStaleActiveLost maxAge reason protected =>
      lost (stale_spared maxAge now protected)
        (default_reason reason "active task did not report progress before stale timeout")
  | OpMarkActiveLost reason protected =>
      lost (fun rec => bool_decide (t_TaskID rec ∈ protected))
        (default_reason reason "active task owner is no longer alive")
  end.

(** The records after the operation and before pruning. *)
Definition meets (env : Env) r (op : Op) rmid : Prop :=
  ∀ id, match target_record env r op id with
        | Some b => ∃ b', records rmid !! id = Some b' ∧ counted b b'
        | None => records rmid !! id = records r !! id
        end.

Definition op_ok (op : Op) : Prop :=
  match op with
  | OpUpdate _ mutate => ∀ rec, t_TaskID (mutate rec) = t_TaskID rec
  | _ => True
  end.

Lemma touched_record_TaskID r a b now clock : t_TaskID (touched_record r a b now clock) = t_TaskID b.
Proof. unfold touched_record. rewrite normalizeRecord_TaskID. by destruct b. Qed.
Lemma mutated_record_TaskID r a b now clock : t_TaskID (mutated_record r a b now clock) = t_TaskID b.
Proof.
  unfold mutated_record. cbv zeta. rewrite normalizeRecord_TaskID.
  generalize (recordChanged a (keep_identity a b)). intros c. destruct b. by case_match.
Qed.
Lemma heartbeat_TaskID progress now rec : t_TaskID (heartbeat_mutate progress now rec) = t_TaskID rec.
Proof. unfold heartbeat_mutate. destruct rec. by repeat case_match. Qed.
Lemma reopen_TaskID rec : t_TaskID (reopen_lost rec) = t_TaskID rec.
Proof. unfold reopen_lost. destruct rec. by repeat case_match. Qed.

(** A store at the key of the record it stores changes nothing else. *)
Lemma stores_meets env r op id stored rmid :
  t_TaskID stored = id → stores_at id r (eq stored) rmid →
  (∀ id', target_record env r op id' = if decide (id = id') then Some stored else None) →
  meets env r op rmid.
Proof.
  intros Hid (rec & <- & Hs & Ho) Ht id'. rewrite Ht. destruct (decide (id = id')) as [<-|Hne].
  - apply (seq_ext_lookup _ _ _ _ Hs). apply lookup_insert_eq.
  - by apply Ho.
Qed.

Ltac keeps_id :=
  intros Hm; cbv zeta in Hm;
  repeat match type of Hm with context [if ?b then _ else _] => destruct b end;
  [.. | injection Hm as <-]; try discriminate Hm; first [exact eq_refl | injection Hm as <-; exact eq_refl].

Lemma fail_TaskID status summary now a b :
  fail_mutate status summary now a = Some b → t_TaskID b = t_TaskID a.
Proof. unfold fail_mutate, reopen_lost. keeps_id. Qed.
Lemma complete_TaskID summary d delivery now a b :
  complete_mutate summary d delivery now a = Some b → t_TaskID b = t_TaskID a.
Proof. unfold complete_mutate, reopen_lost, mark_delivered. keeps_id. Qed.
Lemma settle_TaskID status summary d delivery now a b :
  settle_mutate status summary d delivery now a = Some b → t_TaskID b = t_TaskID a.
Proof. unfold settle_mutate, reopen_lost, mark_delivered. keeps_id. Qed.

Lemma updated_tx env r op i mutate r' res :
  keyed (records r) → (∀ rec, t_TaskID (mutate rec) = t_TaskID rec) →
  Update r i mutate (env_now env) (env_clock env) (env_write env) = (r', res) →
  (∀ id, target_record env r op id = if decide (i = id)
     then (fun a => let before := cloneTaskRecord a in
            mutated_record r before (mutate before) (env_now env) (env_clock env)) <$> records r !! id
     else None) →
  transaction (meets env r op) r r' res.
Proof.
  intros Hk Hm Hc Ht. eapply transaction_weaken; [|by eapply Update_tx].
  cbv zeta. intros rmid (a & Ha & Hs). eapply stores_meets; [|exact Hs|].
  - rewrite mutated_record_TaskID, Hm. pose proof (Hk _ _ Ha) as Hid. simpl in Hid.
    trans (t_TaskID a); [by destruct a | done].
  - intros id. rewrite Ht. destruct (decide (i = id)) as [<-|]; [|done]. by rewrite Ha.
Qed.

Lemma touched_tx env r op i mutate r' res :
  keyed (records r) → (∀ a b, mutate a = Some b → t_TaskID b = t_TaskID a) →
  updateTask r i mutate (env_now env) (env_clock env) (env_write env) = (r', res) →
  (∀ id, target_record env r op id = if decide (i = id)
     then a ← records r !! id; b ← mutate a;
          Some (touched_record r a b (env_now env) (env_clock env))
     else None) →
  transaction (meets env r op) r r' res.
Proof.
  intros Hk Hm Hc Ht. eapply transaction_weaken; [|by eapply updateTask_tx].
  intros rmid (a & b & Ha & Hb & Hs). eapply stores_meets; [|exact Hs|].
  - rewrite touched_record_TaskID, (Hm _ _ Hb). exact (Hk _ _ Ha).
  - intros id. rewrite Ht. destruct (decide (i = id)) as [<-|]; [|done]. rewrite Ha. simpl. by rewrite Hb.
Qed.

Lemma sortedRecordIDs_spec r :
  NoDup (sortedRecordIDsLocked r) ∧ ∀ id, id ∈ sortedRecordIDsLocked r ↔ is_Some (records r !! id).
Proof.
  unfold sortedRecordIDsLocked. split.
  - rewrite merge_sort_Permutation. apply go_keys_nodup.
  - intros id. by rewrite merge_sort_Permutation, elem_of_go_keys.
Qed.

Lemma markLostLoop_none ids : ∀ r spared reason now clock n r' n',
  markLostLoop r ids spared reason now clock n = (r', n') → n ≤ n' ∧ (n' = n → r' = r).
Proof.
  induction ids as [|id ids IH]; intros r spared reason now clock n r' n' Hc.
  { simpl in Hc. simplify_eq. split; [lia|done]. }
  rewrite markLostLoop_cons in Hc. destruct (records r !! id) as [a|]; [|by apply IH in Hc].
  destruct (loses spared a); [|by apply IH in Hc]. apply IH in Hc as [? _]. split; lia.
Qed.

Lemma markLost_tx env r op spared reason r' n res :
  keyed (records r) →
  markLost r spared reason (env_now env) (env_clock env) (env_write env) = (r', n, res) →
  (∀ id, target_record env r op id =
     a ← records r !! id; if loses spared a
                          then Some (lose_record r a reason (env_now env) (env_clock env)) else None) →
  transaction (meets env r op) r r' res.
Proof.
  unfold markLost. intros Hk Hc Ht. destruct (writableErrorLocked r) as [[]|e] eqn:Hw;
    [|simplify_eq; unfold writableErrorLocked in Hw; case_match; simplify_eq; auto].
  destruct (markLostLoop _ _ _ _ _ _ _) as [rmid k] eqn:Hloop.
  destruct (sortedRecordIDs_spec r) as [Hnd Hin].
  destruct (markLostLoop_spec _ _ _ _ _ _ _ _ _ Hnd Hk Hloop) as (Hf & Hn & Hr).
  assert (meets env r op rmid) as Hmeets.
  { intros id. rewrite Ht. specialize (Hr id). destruct (records r !! id) as [a|] eqn:Ha; [|done].
    simpl. rewrite bool_decide_eq_true_2 in Hr by (apply Hin; eauto). cbn [andb] in Hr.
    by destruct (loses spared a). }
  destruct (k <=? 0) eqn:Hk0.
  - injection Hc as <- <- <-. apply Z.leb_le in Hk0. apply markLostLoop_none in Hloop as [? Hnone].
    rewrite Hnone by lia. apply noop_ok.
  - destruct (commitMutation _ _ _ _ _) as [[r1 err] c] eqn:E. injection Hc as <- <- <-.
    eapply tx_commit; [by apply writable_ok | exact Hf | exact Hmeets | eapply commitMutation_spec; [|exact E] | by auto].
    destruct Hf as (_ & _ & -> & _). by apply writable_ok.
Qed.

(** Every operation is a transaction that stores what the specification
    says. *)
Lemma run_tx env r op r' res :
  keyed (records r) → op_ok op → run env r op = (r', res) → transaction (meets env r op) r r' res.
Proof.
  intros Hk Hop Hc.
  destruct op as [rec|rec|i m|i t p|i p|i st s|i s d dl|i st s d dl|age reason prot|reason prot]; simpl in Hc.
  - unfold Create in Hc. destruct (storeNewGeneration _ _ _ _ _ _ _) as [r1 err] eqn:E.
    injection Hc as <- <-. apply storeNewGeneration_tx in E.
    destruct E as [err He|rmid now' r1 err b res Hl Hf [Hs _] Hc Hr].
    + apply tx_none. intros e. destruct err as [|e']; [done|]. specialize (He e' eq_refl).
      rewrite He. intros [= <-]. done.
    + eapply (tx_commit _ _ _ now' r1 err b); [done|exact Hf| |exact Hc|].
      * eapply stores_meets; [|exact Hs|]; [apply generation_record_TaskID | done].
      * destruct Hr as [->|[-> ->]]; [|by right].
        destruct err as [|[| | | | |[]]]; try (by left); [by left; destruct a | by right].
  - apply storeNewGeneration_tx in Hc. eapply transaction_weaken; [|exact Hc].
    intros rmid [Hs _]. eapply stores_meets; [|exact Hs|]; [apply generation_record_TaskID | done].
  - by eapply updated_tx.
  - eapply transaction_weaken; [|by eapply AppendEvent_tx].
    intros rmid (Hs & rec & Ha & Ho) id. simpl.
    destruct (decide (i = id)) as [<-|Hne].
    + rewrite Ha. by apply (seq_ext_lookup _ _ _ _ Hs).
    + apply Ho. rewrite (Hk _ _ Ha). done.
  - eapply updated_tx; [done | apply heartbeat_TaskID | exact Hc | done].
  - unfold Fail in Hc.
    assert (transaction (meets env r (OpFail i st s)) r r (Err (ErrInvalidTerminalStatus st))) as Hn
      by by apply noop_err.
    destruct st; try (injection Hc as <- <-; exact Hn);
      (eapply touched_tx; [done | apply fail_TaskID | exact Hc | done]).
  - eapply touched_tx; [done | apply complete_TaskID | exact Hc | done].
  - unfold Settle in Hc.
    assert (transaction (meets env r (OpSettle i st s d dl)) r r (Err (ErrInvalidTerminalStatus st))) as Hn
      by by apply noop_err.
    destruct st; try (injection Hc as <- <-; exact Hn);
      (eapply touched_tx; [done | apply settle_TaskID | exact Hc | done]).
  - unfold MarkStaleActiveLost in Hc. case_match; [injection Hc as <- <-; apply noop_ok|].
    destruct (markLost _ _ _ _ _ _) as [[r1 n] err] eqn:E. injection Hc as <- <-.
    eapply markLost_tx; [done | exact E | done].
  - unfold MarkActiveLost in Hc.
    destruct (markLost _ _ _ _ _ _) as [[r1 n] err] eqn:E. injection Hc as <- <-.
    eapply markLost_tx; [done | exact E | done].
Qed.

(** ** Well-formed registries *)

(** Every record is stored under its own id and is its own copy. *)
Definition wf_record (id : string) rec : Prop :=
  t_TaskID rec = id ∧ CloneDeliverable (t_Deliverable rec) = t_Deliverable rec.
Definition wf r : Prop := map_Forall wf_record (records r).

Lemma wf_keyed r : wf r → keyed (records r).
Proof. intros Hwf id rec Hid. apply (Hwf _ _ Hid). Qed.

Lemma clone_own rec : CloneDeliverable (t_Deliverable rec) = t_Deliverable rec → cloneTaskRecord rec = rec.
Proof. destruct rec. simpl. intros Hd. unfold cloneTaskRecord. simpl. by rewrite Hd. Qed.
Lemma clone_wf r : wf r → cloneTaskRecord <$> records r = records r.
Proof.
  intros Hwf. apply map_eq. intros id. rewrite lookup_fmap.
  destruct (records r !! id) as [rec|] eqn:Hid; [|done]. csimpl. f_equal.
  apply clone_own, (Hwf _ _ Hid).
Qed.

Lemma copied_own t a m rp oc lr :
  CloneDeliverable (Some (mkDeliverable t (CloneArtifacts a) m rp oc lr))
  = Some (mkDeliverable t (CloneArtifacts a) m rp oc lr).
Proof. rewrite CloneDeliverable_fields. csimpl. by rewrite CloneArtifacts_idem. Qed.

Lemma normalizeDeliverable_own d now :
  CloneDeliverable (normalizeDeliverable d now) = normalizeDeliverable d now.
Proof.
  unfold normalizeDeliverable. destruct d as [[t a m rp oc lr]|]; [|done].
  rewrite (CloneDeliverable_fields (Some _)). cbn [fmap option_fmap option_map]. rewrite CloneReport_id.
  cbn [d_Report update]. destruct rp as [rp|]; [exact (copied_own _ _ _ _ _ _)|].
  cbn [d_Report]. cbv zeta.
  match goal with |- context [if ?c then _ else _] => destruct c end; exact (copied_own _ _ _ _ _ _).
Qed.
Lemma normalizeRecord_own r rec now clock :
  CloneDeliverable (t_Deliverable (normalizeRecord r rec now clock))
  = t_Deliverable (normalizeRecord r rec now clock).
Proof.
  unfold normalizeRecord. cbv zeta.
  match goal with |- context [match t_Deliverable ?x with _ => _ end] => generalize x end.
  intros x. destruct (t_Deliverable x) as [d|] eqn:Hd; [|by rewrite Hd].
  apply normalizeDeliverable_own.
Qed.

Lemma generation_record_own r rec now clock uuid :
  CloneDeliverable (t_Deliverable (generation_record r rec now clock uuid))
  = t_Deliverable (generation_record r rec now clock uuid).
Proof.
  pose proof (normalizeRecord_own r (fill_defaults (cloneTaskRecord rec) now) now clock) as Hn.
  unfold generation_record. revert Hn.
  generalize (normalizeRecord r (fill_defaults (cloneTaskRecord rec) now) now clock). by intros [].
Qed.

Lemma counted_wf id a b : counted a b → wf_record id a → wf_record id b.
Proof. intros [-> _]. by destruct a. Qed.

Lemma target_wf env r op id b :
  op_ok op → wf r → target_record env r op id = Some b → wf_record id b.
Proof.
  intros Hop Hwf.
  assert (∀ i mutate, (∀ rec, t_TaskID (mutate rec) = t_TaskID rec) →
    (if decide (i = id)
     then (fun a => let before := cloneTaskRecord a in
            mutated_record r before (mutate before) (env_now env) (env_clock env)) <$> records r !! id
     else None) = Some b → wf_record id b) as Hu.
  { intros i m Hm. destruct (decide (i = id)) as [<-|]; [|done].
    destruct (records r !! i) as [a|] eqn:Ha; [|done]. cbv zeta. intros [= <-].
    split; [|exact (normalizeRecord_own _ _ _ _)]. rewrite mutated_record_TaskID, Hm.
    trans (t_TaskID a); [by destruct a | apply (Hwf _ _ Ha)]. }
  assert (∀ i mutate, (∀ a b, mutate a = Some b → t_TaskID b = t_TaskID a) →
    (if decide (i = id)
     then a ← records r !! id; b ← mutate a;
          Some (touched_record r a b (env_now env) (env_clock env))
     else None) = Some b → wf_record id b) as Ht.
  { intros i m Hm. destruct (decide (i = id)) as [<-|]; [|done].
    destruct (records r !! i) as [a|] eqn:Ha; [|done]. simpl.
    destruct (m a) as [b'|] eqn:Hb; [|done]. simpl. intros [= <-].
    split; [|exact (normalizeRecord_own _ _ _ _)]. rewrite touched_record_TaskID, (Hm _ _ Hb). apply (Hwf _ _ Ha). }
  assert (∀ spared reason, (a ← records r !! id; if loses spared a
      then Some (lose_record r a reason (env_now env) (env_clock env)) else None) = Some b →
    wf_record id b) as Hl.
  { intros spared reason. destruct (records r !! id) as [a|] eqn:Ha; [|done]. simpl.
    destruct (loses spared a); [|done]. intros [= <-].
    split; [rewrite lose_record_TaskID; apply (Hwf _ _ Ha) | exact (normalizeRecord_own _ _ _ _)]. }
  assert (∀ rec, (if decide (t_TaskID rec = id)
     then Some (generation_record r rec (env_now env) (env_clock env) (env_uuid env)) else None) = Some b →
    wf_record id b) as Hg.
  { intros rec. destruct (decide (t_TaskID rec = id)) as [<-|]; [|done]. intros [= <-].
    split; [apply generation_record_TaskID | apply generation_record_own]. }
  destruct op; cbn [target_record]; intros Hb;
    first [by eapply Hg | by eapply Hl | idtac].
  - by eapply Hu.
  - destruct (decide (taskID = id)) as [<-|]; [|done]. by apply Hwf.
  - eapply Hu; [apply heartbeat_TaskID | exact Hb].
  - eapply Ht; [apply fail_TaskID | exact Hb].
  - eapply Ht; [apply complete_TaskID | exact Hb].
  - eapply Ht; [apply settle_TaskID | exact Hb].
Qed.

Lemma meets_wf env r op rmid : op_ok op → wf r → meets env r op rmid → wf rmid.
Proof.
  intros Hop Hwf Hm id c Hc. specialize (Hm id). destruct (target_record env r op id) as [b|] eqn:Hb.
  - destruct Hm as (b' & Hb' & Hcnt). simplify_eq. eapply counted_wf; [done|]. by eapply target_wf.
  - apply Hwf. by rewrite <- Hm.
Qed.

Lemma commit_pruned r0 r now r' err b :
  commit_spec r0 r now r' err b → b = true → records r' = records (pruneLocked r now).1.
Proof. intros [] ?; try done; simpl in *; by rewrite ?pruneMutation_records in *. Qed.

Lemma commit_rollback r0 r now r' err :
  wf r0 → frame r0 r → commit_spec r0 r now r' err false → r' = r0.
Proof.
  intros Hwf (Hs & Ho & Hl & Hu & Hf) Hc. inversion Hc. subst.
  pose proof (clone_wf r0 Hwf) as Hcl. destruct r', r0. simpl in *. congruence.
Qed.

Lemma prune_wf r now : wf r → wf (pruneLocked r now).1.
Proof. intros Hwf id rec Hid. apply Hwf. eapply lookup_weaken; [exact Hid|apply pruneLocked_subseteq]. Qed.
End system.
