(* ===== verification/TaskProps.v ===== *)
(** What the task registry guarantees: the properties of package [pkg/tasks]
    and, for those with hypotheses, their instances on concrete registries. *)
From S2P Require Import Prelude GoStrings GoJson TaskResult CodingScope TaskTypes TaskRegistry.
From S2P Require Import TaskPrune TaskLifecycle TaskSystem.

Section props.
Context `{MapOrder} `{Sha256}.
Implicit Types (r : Registry) (rec : Record).

(** A sequence of operations, each in its own environment. *)
Fixpoint run_all r (l : list (Env * Op)) : Registry :=
  match l with
  | [] => r
  | (env, op) :: l => run_all (run env r op).1 l
  end.

Lemma run_all_ind (P : Registry → Prop) r l :
  P r → (∀ r env op, P r → op ∈ l.*2 → P (run env r op).1) → P (run_all r l).
Proof.
  revert r. induction l as [|[env op] l IH]; intros r Hr Hs; [done|]. cbn [run_all]. apply IH.
  - apply Hs; [done|by left].
  - intros r1 env1 op1 Hr1 Hin. apply Hs; [done|by right].
Qed.

(** ** What one operation leaves behind *)

Lemma tx_outcome env r op r' res :
  wf r → op_ok op → run env r op = (r', res) →
  r' = r ∨ ∃ rmid now, meets env r op rmid ∧ wf rmid ∧ frame r rmid ∧
    records r' = records (pruneLocked rmid now).1 ∧ (store r ≠ "" → persisted r') ∧
    store r' = store r ∧ lastLoad r' = lastLoad r ∧ options r' = options r.
Proof.
  intros Hwf Hop Hc. apply run_tx in Hc; [|by apply wf_keyed|done].
  destruct Hc as [|rmid now r' err b res Hl Hf Hm Hc Hr]; [by left|].
  destruct b; [right|left; by eapply commit_rollback].
  exists rmid, now. split_and!; try done; [by eapply meets_wf|by eapply commit_pruned|..];
    destruct Hf as (Hs & Ho & Hll & Hf).
  - intros Hne. inversion Hc; subst; [congruence|done].
  - inversion Hc; subst; [|congruence].
    destruct (pruneMutation_frame rmid now l) as (-> & _). done.
  - inversion Hc; subst; [|congruence].
    destruct (pruneMutation_frame rmid now l) as (_ & _ & -> & _). done.
  - inversion Hc; subst; [|congruence].
    destruct (pruneMutation_frame rmid now l) as (_ & -> & _). done.
Qed.

Lemma run_wf_step env r op : wf r → op_ok op → wf (run env r op).1.
Proof.
  intros Hwf Hop. destruct (run env r op) as [r' res] eqn:Hc. simpl.
  destruct (tx_outcome _ _ _ _ _ Hwf Hop Hc) as [->|(rmid & now & _ & Hm & _ & Hr & _)]; [done|].
  unfold wf. rewrite Hr. by apply prune_wf.
Qed.

Lemma pruned_record r now id a :
  wf r → records r !! id = Some a →
  records (pruneLocked r now).1 !! id = Some a
  ∨ records (pruneLocked r now).1 !! id = None ∧ canPruneRecord a = true.
Proof.
  intros Hwf Ha. destruct (canPruneRecord a) eqn:Hcan.
  - destruct (records (pruneLocked r now).1 !! id) as [c|] eqn:Hpc; [left|by right].
    pose proof (lookup_weaken _ _ _ _ Hpc (pruneLocked_subseteq r now)). congruence.
  - left. apply pruneLocked_protected; [by apply wf_keyed|done..].
Qed.

(** What becomes of the record of one task. *)
Lemma run_record env r op r' res id :
  wf r → op_ok op → run env r op = (r', res) →
  r' = r ∨
  match target_record env r op id with
  | Some b => (records r' !! id = None ∧ canPruneRecord b = true)
              ∨ ∃ b', records r' !! id = Some b' ∧ counted b b'
  | None => records r' !! id = records r !! id
            ∨ records r' !! id = None ∧ ∃ a, records r !! id = Some a ∧ canPruneRecord a = true
  end.
Proof.
  intros Hwf Hop Hc.
  destruct (tx_outcome _ _ _ _ _ Hwf Hop Hc) as [->|(rmid & now & Hm & Hwm & _ & Hr & _)]; [by left|right].
  specialize (Hm id). rewrite Hr.
  pose proof (pruned_record rmid now id) as Hp.
  destruct (target_record env r op id) as [b|]; simpl.
  - destruct Hm as (b' & Hb' & Hcnt). destruct (Hp _ Hwm Hb') as [->|[-> Hcan]]; [eauto|left].
    split; [done|]. destruct Hcnt as [Heq _]. rewrite Heq in Hcan. by destruct b.
  - destruct (records r !! id) as [a|] eqn:Ha.
    + destruct (Hp _ Hwm Hm) as [?|[? ?]]; [by left|right; eauto].
    + left. destruct (records (pruneLocked rmid now).1 !! id) as [c|] eqn:Hpc; [|done].
      pose proof (lookup_weaken _ _ _ _ Hpc (pruneLocked_subseteq rmid now)). congruence.
Qed.

(** ** Settled results *)

(** The result of a task as its owner sees it. *)
Definition outcome_of rec :=
  (t_GenerationID rec, t_Status rec, t_DeliveryStatus rec, t_Error rec, t_TerminalSummary rec,
   (fun d => (d_Text d, d_ObjectiveOutcome d)) <$> t_Deliverable rec).

(** A result that nothing may replace: settled, and a success only once its
    delivery is no longer open. *)
Definition result_final rec : bool :=
  settled rec && negb (bool_decide (t_Status rec = StatusSucceeded)
    && negb (bool_decide (t_DeliveryStatus rec = DeliveryDelivered))
    && negb (bool_decide (t_DeliveryStatus rec = DeliverySessionQueued))
    && negb (bool_decide (t_DeliveryStatus rec = DeliveryNotApplicable))).

(** The operations the runtime reports progress and results with. *)
Definition reporting_op (op : Op) : Prop :=
  match op with OpCreate _ | OpUpsert _ | OpUpdate _ _ => False | _ => True end.

#[export] Instance reporting_op_dec op : Decision (reporting_op op).
Proof. destruct op; apply _. Defined.
Lemma reporting_op_ok op : reporting_op op → op_ok op.
Proof. by destruct op. Qed.

Lemma settled_inactive rec : settled rec = true → isActiveStatus (t_Status rec) = false.
Proof. unfold settled. destruct rec as [? ? ? ? ? ? ? ? ? ? ? ? ? ? ? ? ? st]; simpl. by destruct st. Qed.

Lemma counted_outcome a b : counted a b → outcome_of b = outcome_of a.
Proof. intros [-> _]. by destruct a. Qed.
Lemma outcome_status rec g st dl e ts d :
  outcome_of rec = (g, st, dl, e, ts, d) → t_Status rec = st ∧ t_DeliveryStatus rec = dl.
Proof. unfold outcome_of. by intros [=]. Qed.
Lemma outcome_same_status a b : outcome_of a = outcome_of b → t_Status a = t_Status b.
Proof. unfold outcome_of. by intros [=]. Qed.
Lemma result_final_outcome a b : outcome_of a = outcome_of b → result_final a = result_final b.
Proof.
  intros Ho. unfold outcome_of in Ho. injection Ho as _ Hs Hd _ _ _.
  unfold result_final, settled. by rewrite Hs, Hd.
Qed.

Lemma fail_final status summary now a : result_final a = true → fail_mutate status summary now a = None.
Proof.
  unfold result_final, fail_mutate. intros [Hs Hu%negb_true_iff]%andb_true_iff.
  by rewrite Hs, Hu, !andb_false_r.
Qed.

Lemma normalizeDeliverable_outcome d now :
  (fun d => (d_Text d, d_ObjectiveOutcome d)) <$> normalizeDeliverable d now
  = (fun d => (d_Text d, d_ObjectiveOutcome d)) <$> d.
Proof.
  unfold normalizeDeliverable. destruct d as [[t a m rp oc lr]|]; [|done].
  rewrite CloneDeliverable_fields. cbn [fmap option_fmap option_map]. rewrite CloneReport_id.
  cbn [d_Report update]. destruct rp as [rp|]; [reflexivity|]. cbv zeta.
  match goal with |- context [if ?c then _ else _] => destruct c end; reflexivity.
Qed.

Lemma outcome_deliverable rec rec' :
  t_GenerationID rec' = t_GenerationID rec → t_Status rec' = t_Status rec →
  t_DeliveryStatus rec' = t_DeliveryStatus rec → t_Error rec' = t_Error rec →
  t_TerminalSummary rec' = t_TerminalSummary rec →
  (fun d => (d_Text d, d_ObjectiveOutcome d)) <$> t_Deliverable rec'
    = (fun d => (d_Text d, d_ObjectiveOutcome d)) <$> t_Deliverable rec →
  outcome_of rec' = outcome_of rec.
Proof. unfold outcome_of. congruence. Qed.

Lemma normalizeRecord_outcome r rec now clock :
  outcome_of (normalizeRecord r rec now clock) = outcome_of rec.
Proof.
  unfold normalizeRecord. cbv zeta.
  trans (outcome_of (if isTerminalStatus (t_Status rec) && (t_EndedAt rec =? 0)
    then let rec := rec <| t_EndedAt := t_LastEventAt rec |> in
         if t_EndedAt rec =? 0 then rec <| t_EndedAt := if now =? 0 then clock else now |> else rec
    else rec)).
  2: { cbv zeta. repeat match goal with |- context [if ?b then _ else _] => destruct b end; by destruct rec. }
  cbv zeta. match goal with |- _ = outcome_of ?x => generalize x end. intros x.
  match goal with |- outcome_of (match t_Deliverable ?y with _ => _ end) = _ =>
    trans (outcome_of y); [generalize y; intros z |] end.
  2: { cbv zeta. repeat match goal with |- context [if ?b then _ else _] => destruct b end; by destruct x. }
  destruct (t_Deliverable z) eqn:Hd; [|done]. clear Hd.
  apply outcome_deliverable; try (by destruct z). destruct z. apply normalizeDeliverable_outcome.
Qed.

(** The verdict on a task: its outcome less what becomes of the delivery. *)
Definition verdict_of rec :=
  (t_GenerationID rec, t_Status rec, t_TerminalSummary rec, (fun d => (d_Text d, d_ObjectiveOutcome d)) <$> t_Deliverable rec).
(** A task that ended, and not with success. *)
Definition unsuccessful rec : bool := settled rec && negb (bool_decide (t_Status rec = StatusSucceeded)).
Lemma outcome_verdict a b : outcome_of a = outcome_of b → verdict_of a = verdict_of b.
Proof. unfold outcome_of, verdict_of. congruence. Qed.
Lemma unsuccessful_final rec : unsuccessful rec = true → result_final rec = true.
Proof. unfold unsuccessful, result_final. intros [-> ->%negb_true_iff]%andb_true_iff. done. Qed.
(** What an operation may do to the task [id], whose results [final] are to keep
    what [out] shows of them: no new generation is begun under its id, and a
    closure that [Update] is given leaves that part of such a result alone. *)
Definition keeps {A} (out : Record → A) (final : Record → bool) (id : string) (op : Op) : Prop :=
  match op with
  | OpCreate rec | OpUpsert rec => t_TaskID rec ≠ id
  | OpUpdate i mutate => ∀ rec, t_TaskID (mutate rec) = t_TaskID rec ∧ (i = id → final rec = true → out (mutate rec) = out rec)
  | _ => True
  end.
Lemma keeps_ok {A} (out : Record → A) final id op : keeps out final id op → op_ok op.
Proof. destruct op; try done. intros Hk rec. apply Hk. Qed.
(** The closures with which the agent loop records deliveries keep verdicts. *)
Lemma delivery_keeps i id status completionID errorSummary now :
  keeps verdict_of unsuccessful id (OpUpdate i (delivery_mutate status completionID errorSummary now)).
Proof. intros rec. unfold delivery_mutate. destruct rec. split; [|intros _ _]; by repeat case_match. Qed.
Lemma parent_missing_keeps i id now : keeps verdict_of unsuccessful id (OpUpdate i (parent_missing_mutate now)).
Proof. intros rec. unfold parent_missing_mutate. destruct rec. split; [|intros _ _]; by repeat case_match. Qed.

Lemma mutated_outcome r a b now clock :
  t_GenerationID b = t_GenerationID a → outcome_of (mutated_record r a b now clock) = outcome_of b.
Proof.
  intros Hg. unfold mutated_record. cbv zeta. rewrite normalizeRecord_outcome.
  generalize (recordChanged a (keep_identity a b)). intros c.
  unfold keep_identity. rewrite <- Hg. destruct b. by case_match.
Qed.

Lemma heartbeat_inactive progress now rec :
  isActiveStatus (t_Status rec) = false → heartbeat_mutate progress now rec = rec.
Proof. unfold heartbeat_mutate. by intros ->. Qed.

Lemma reporting_target_final env r op id a b :
  wf r → reporting_op op → records r !! id = Some a → result_final a = true →
  target_record env r op id = Some b → outcome_of b = outcome_of a.
Proof.
  intros Hwf Hop Ha Hf Ht. pose proof Hf as Hf'. unfold result_final in Hf'.
  apply andb_true_iff in Hf' as [Hs _]. pose proof (settled_inactive _ Hs) as Hact.
  destruct op; try done; cbn [target_record] in Ht; rewrite Ha in Ht;
    try (destruct (decide _); [|done]).
  - by simplify_eq.
  - cbn [fmap option_fmap option_map] in Ht. rewrite (clone_own a) in Ht by apply (Hwf _ _ Ha).
    rewrite heartbeat_inactive in Ht by done. injection Ht as <-. by apply mutated_outcome.
  - simpl in Ht. by rewrite fail_final in Ht.
  - simpl in Ht. unfold complete_mutate in Ht. by rewrite Hs in Ht.
  - simpl in Ht. unfold settle_mutate in Ht. by rewrite Hs in Ht.
  - simpl in Ht. unfold loses in Ht. by rewrite Hact in Ht.
  - simpl in Ht. unfold loses in Ht. by rewrite Hact in Ht.
Qed.

Lemma reporting_target_missing env r op id :
  reporting_op op → records r !! id = None → target_record env r op id = None.
Proof.
  intros Hop Hn. destruct op; try done; cbn [target_record]; rewrite Hn; try done;
    by destruct (decide _).
Qed.

Section kept.
Context {A} (out : Record → A) (final : Record → bool).
Hypothesis out_outcome : ∀ a b, outcome_of a = outcome_of b → out a = out b.
Hypothesis out_final : ∀ a b, out a = out b → final a = final b ∧ t_GenerationID a = t_GenerationID b.
Hypothesis final_result : ∀ a, final a = true → result_final a = true.

Lemma kept_target env r op id a b : wf r → keeps out final id op → records r !! id = Some a → final a = true →
  target_record env r op id = Some b → out b = out a.
Proof.
  intros Hwf Hop Ha Hf Ht. destruct (decide (reporting_op op)) as [Hrep|Hrep].
  { apply out_outcome. eapply reporting_target_final; try done. by apply final_result. }
  destruct op; try (by destruct Hrep); cbn [target_record keeps] in *; try (by rewrite decide_False in Ht by done).
  destruct (decide _) as [->|]; [|done]. rewrite Ha in Ht. cbn [fmap option_fmap option_map] in Ht.
  rewrite (clone_own a) in Ht by apply (Hwf _ _ Ha). injection Ht as <-. destruct (Hop a) as [_ Hk]. specialize (Hk eq_refl Hf).
  rewrite <- Hk. apply out_outcome, mutated_outcome. by apply out_final.
Qed.
Lemma kept_missing env r op id : keeps out final id op → records r !! id = None → target_record env r op id = None.
Proof.
  intros Hop Hn. destruct op; try (by apply reporting_target_missing); cbn [target_record keeps] in *.
  - by rewrite decide_False.
  - by rewrite decide_False.
  - rewrite Hn. by destruct (decide _).
Qed.
Lemma result_kept r id a l : wf r → records r !! id = Some a → final a = true → Forall (keeps out final id) l.*2 →
  match records (run_all r l) !! id with Some b => out b = out a | None => True end.
Proof.
  intros Hwf Ha Hf Hl. rewrite Forall_forall in Hl.
  enough (wf (run_all r l) ∧ match records (run_all r l) !! id with Some b => out b = out a | None => True end) as [_ ?] by done.
  apply run_all_ind; [by rewrite Ha|]. clear Hwf Ha r.
  intros r env op [Hwf Hid] Hop%Hl. pose proof (keeps_ok _ _ _ _ Hop) as Hok.
  split; [by apply run_wf_step|]. destruct (run env r op) as [r' res] eqn:Hc. cbn [fst].
  destruct (run_record _ _ _ _ _ id Hwf Hok Hc) as [->|Hr]; [done|].
  destruct (records r !! id) as [b|] eqn:Hb.
  - destruct (target_record env r op id) as [c|] eqn:Ht.
    + destruct Hr as [[-> _]|(c' & -> & Hcnt)]; [done|]. rewrite (out_outcome _ _ (counted_outcome _ _ Hcnt)), <- Hid.
      eapply kept_target; [done..| |done]. by rewrite (proj1 (out_final b a Hid)).
    + by destruct Hr as [->|[-> _]].
  - rewrite (kept_missing _ _ _ _ Hop Hb) in Hr. by destruct Hr as [->|[-> _]].
Qed.
End kept.


(** C37: an operation that fails leaves no trace.  If an operation reports an
    error other than a write whose rename already took place, the registry
    is exactly what it was: records, events, file and flags. *)
Theorem run_atomic env r op r' e :
  wf r → op_ok op → run env r op = (r', Err e) → IsCommittedWriteError e = false → r' = r.
Proof.
  intros Hwf Hop Hc He. apply run_tx in Hc; [|by apply wf_keyed|done].
  inversion Hc as [|rmid now r'' err b res' Hl Hf Hm Hcs Hr]; subst; [done|].
  destruct Hr as [<-|[_ ?]]; [|done]. destruct b; [|by eapply commit_rollback].
  exfalso. inversion Hcs as [|l r'' err Hs _ _ _ Herr|]; subst.
  destruct Herr as [[? _]|[Herr _]]; [done|]. by injection Herr as ->.
Qed.

(** C39: the file mirrors the memory.  Whatever the operations, their errors
    and the outcomes of the writes, the file of a file-backed registry holds
    the encoding of exactly the records and events in memory, and that
    snapshot passes the validation the next start applies to it. *)
Theorem file_mirrors_memory r l :
  wf r → store r ≠ "" → persisted r → Forall op_ok l.*2 → persisted (run_all r l).
Proof.
  intros Hwf Hst Hp Hl. rewrite Forall_forall in Hl.
  enough (wf (run_all r l) ∧ store (run_all r l) ≠ "" ∧ persisted (run_all r l)) by tauto.
  apply run_all_ind; [done|]. clear Hwf Hst Hp r.
  intros r env op (Hwf & Hst & Hp) Hok%Hl. split; [by apply run_wf_step|].
  destruct (run env r op) as [r' res] eqn:Hc. cbn [fst].
  destruct (tx_outcome _ _ _ _ _ Hwf Hok Hc) as [->|(rmid & now & _ & _ & _ & _ & Hp' & Hs & _)]; [done|].
  rewrite Hs. auto.
Qed.

(** a damaged store is never overwritten.  A registry built on a file
    that does not decode or validate refuses every mutation, so after any
    sequence of operations the file still has the bytes found at start. *)
Theorem damaged_store_untouched decode_json path opts data e now w l :
  blank path = false → decodeSnapshot decode_json data = Err e → Forall op_ok l.*2 →
  let r := NewRegistryWithOptions decode_json path opts (ReadData data) now w in
  run_all r l = r ∧ file (run_all r l) = Some data.
Proof.
  intros Hpath He Hl r. rewrite Forall_forall in Hl.
  assert (r = mkRegistry (trim_space path) (default_options opts) ∅ [] (Some e) false (Some data)) as Hr.
  { unfold r, NewRegistryWithOptions. cbn [store]. unfold blank in Hpath. rewrite Hpath.
    simpl. by rewrite He. }
  clearbody r. subst r.
  assert (run_all (mkRegistry (trim_space path) (default_options opts) ∅ [] (Some e) false (Some data)) l
    = mkRegistry (trim_space path) (default_options opts) ∅ [] (Some e) false (Some data)) as Hrun.
  { apply run_all_ind; [done|]. intros r env op -> Hok%Hl.
    destruct (run env _ op) as [r' res] eqn:Hc. apply run_tx in Hc; [|by apply map_Forall_empty|done].
    by inversion Hc. }
  by rewrite Hrun.
Qed.

(** unfinished tasks are never dropped, and an operation touches no task
    but its own.  A record that is not terminal, or whose delivery is still
    open, survives every operation that does not address its task unchanged,
    through expiry, record, event and byte limits. *)
Theorem run_keeps_unfinished env r op r' res id a :
  wf r → op_ok op → run env r op = (r', res) → records r !! id = Some a →
  target_record env r op id = None → canPruneRecord a = false → records r' !! id = Some a.
Proof.
  intros Hwf Hop Hc Ha Ht Hp. destruct (run_record _ _ _ _ _ id Hwf Hop Hc) as [->|Hr]; [done|].
  rewrite Ht, Ha in Hr. destruct Hr as [?|(_ & a' & [= <-] & ?)]; [done|congruence].
Qed.

(** ** Completion *)

Lemma touched_outcome r a b now clock :
  t_GenerationID b = t_GenerationID a → outcome_of (touched_record r a b now clock) = outcome_of b.
Proof.
  intros Hg. unfold touched_record. rewrite normalizeRecord_outcome.
  unfold keep_identity. rewrite <- Hg. by destruct b.
Qed.

(** A successful [updateTask] whose closure changes the record stores it. *)
Lemma updateTask_stores r id mutate now clock w a b r' :
  wf r → blank id = false → records r !! id = Some a → mutate a = Some b → t_TaskID b = id →
  updateTask r id mutate now clock w = (r', Ok tt) →
  records r' !! id = None ∧ canPruneRecord (touched_record r a b now clock) = true
  ∨ ∃ c, records r' !! id = Some c ∧ counted (touched_record r a b now clock) c.
Proof.
  intros Hwf Hbl Ha Hm Hid Hc. unfold updateTask in Hc. rewrite Hbl, Ha, Hm in Hc.
  destruct (writableErrorLocked r) as [[]|] eqn:Hw; [|done]. cbv zeta in Hc.
  remember (touched_record r a b now clock) as rec eqn:Hrec.
  assert (wf_record id rec) as Hrw.
  { subst rec. split; [by rewrite touched_record_TaskID | exact (normalizeRecord_own _ _ _ _)]. }
  clear Hrec. fold (store_changed r id a rec now clock) in Hc.
  destruct (commitMutation _ _ _ _ _) as [[r1 err] c] eqn:E. injection Hc as -> ->.
  destruct (store_changed_stores r id a rec now clock (eq rec) eq_refl) as (? & <- & Hs & Ho).
  specialize (Ho (proj1 Hrw)).
  destruct (seq_ext_lookup _ _ id rec Hs (lookup_insert_eq _ _ _)) as (rec' & Hrec' & Hcnt).
  assert (lastLoad (store_changed r id a rec now clock) = None) as Hl.
  { destruct (store_changed_frame r id a rec now clock) as (_ & _ & -> & _). by apply writable_ok. }
  pose proof (commitMutation_spec _ _ _ _ _ _ _ _ Hl E) as Hcs.
  assert (c = true) as -> by by inversion Hcs.
  rewrite (commit_pruned _ _ _ _ _ _ Hcs eq_refl).
  assert (wf (store_changed r id a rec now clock)) as Hwm.
  { intros id' x Hx. destruct (decide (id' = id)) as [->|Hne].
    - rewrite Hrec' in Hx. injection Hx as <-. by eapply counted_wf.
    - apply Hwf. by rewrite <- (Ho _ Hne). }
  destruct (pruned_record _ now _ _ Hwm Hrec') as [->|[-> Hcan]]; [eauto|left].
  split; [done|]. destruct Hcnt as [Heq _]. rewrite Heq in Hcan. by destruct rec.
Qed.

Lemma elem_of_List r x : x ∈ List_ r ↔ ∃ id rec, records r !! id = Some rec ∧ x = cloneTaskRecord rec.
Proof.
  unfold List_. rewrite merge_sort_Permutation, list_elem_of_fmap. setoid_rewrite elem_of_go_values.
  naive_solver.
Qed.

Lemma terminal_of_outcome oc : isTerminalStatus (TerminalStatusForObjectiveOutcome oc) = true.
Proof. unfold TerminalStatusForObjectiveOutcome. by repeat case_match. Qed.

Lemma outcome_clone rec : outcome_of (cloneTaskRecord rec) = outcome_of rec.
Proof.
  unfold cloneTaskRecord. apply outcome_deliverable; try (by destruct rec). destruct rec as [].
  simpl. rewrite CloneDeliverable_fields. by destruct t_Deliverable as [[]|].
Qed.

Definition result_text (d : option Deliverable) := (fun d => (d_Text d, d_ObjectiveOutcome d)) <$> d.

Lemma result_text_clone d : result_text (CloneDeliverable d) = result_text d.
Proof. rewrite CloneDeliverable_fields. by destruct d as [[]|]. Qed.

Lemma complete_outcome summary d delivery now a :
  settled a = false →
  ∃ b, complete_mutate summary d delivery now a = Some b ∧
    let status := TerminalStatusForObjectiveOutcome (d ≫= d_ObjectiveOutcome) in
    outcome_of b = (t_GenerationID a, status, delivery,
      (if bool_decide (status = StatusFailed) then truncateTaskSummary summary else ""),
      truncateTaskSummary summary, result_text d).
Proof.
  intros Hs. unfold complete_mutate. rewrite Hs. eexists. split; [reflexivity|]. cbv zeta.
  unfold outcome_of. rewrite <- (result_text_clone d).
  generalize (TerminalStatusForObjectiveOutcome (d ≫= d_ObjectiveOutcome)). intros st.
  unfold mark_delivered, reopen_lost.
  match goal with |- context [bool_decide (t_Status (?x <| t_Error := ?e |>) = StatusFailed)] =>
    change (t_Status (x <| t_Error := e |>)) with st end.
  repeat match goal with |- context [if ?b then _ else _] => destruct b end; reflexivity.
Qed.

(** A completed task waits for its delivery.  Completing a task that has
    no settled result, with its delivery pending, makes it terminal with the
    status its objective outcome calls for, the summary cut to its limit and
    the deliverable as given; the record is kept whatever the limits, and it
    is listed among the pending terminal deliveries. *)
Theorem Complete_awaits_delivery r id summary d mut_now now clock w a r' :
  wf r → blank id = false → records r !! id = Some a → settled a = false →
  Complete r id summary d DeliveryPending mut_now now clock w = (r', Ok tt) →
  ∃ b, b ∈ ListPendingTerminalDelivery r' ∧ t_TaskID b = id ∧
    let status := TerminalStatusForObjectiveOutcome (d ≫= d_ObjectiveOutcome) in
    outcome_of b = (t_GenerationID a, status, DeliveryPending,
      (if bool_decide (status = StatusFailed) then truncateTaskSummary summary else ""),
      truncateTaskSummary summary, result_text d).
Proof.
  intros Hwf Hbl Ha Hs Hc. unfold Complete in Hc.
  destruct (complete_outcome summary d DeliveryPending mut_now a Hs) as (b & Hb & Ho).
  cbv zeta in *. pose proof (complete_TaskID _ _ _ _ _ _ Hb) as Hid.
  rewrite (proj1 (Hwf _ _ Ha)) in Hid.
  assert (t_GenerationID b = t_GenerationID a) as Hg by (unfold outcome_of in Ho; congruence).
  pose proof (touched_outcome r a b now clock Hg) as Hto. rewrite Ho in Hto.
  destruct (updateTask_stores _ _ _ _ _ _ _ _ _ Hwf Hbl Ha Hb Hid Hc) as [[_ Hp]|(c & Hrc & Hcnt)].
  - exfalso. unfold canPruneRecord, taskRecordIsRetentionTerminal in Hp.
    apply outcome_status in Hto as [_ Hd]. by rewrite Hd, andb_false_r in Hp.
  - pose proof (outcome_clone c) as Hoc. rewrite (counted_outcome _ _ Hcnt), Hto in Hoc.
    exists (cloneTaskRecord c). split_and!; [|destruct Hcnt as [-> _]|done].
    + unfold ListPendingTerminalDelivery. rewrite list_elem_of_filter, elem_of_List.
      apply outcome_status in Hoc as [-> ->]. split; [|eauto]. split; [done|apply terminal_of_outcome].
    + trans (t_TaskID (touched_record r a b now clock)); [by destruct (touched_record r a b now clock)|].
      by rewrite touched_record_TaskID.
Qed.

(** ** Recovery *)

Lemma lose_record_status r a reason now clock : t_Status (lose_record r a reason now clock) = StatusLost.
Proof.
  unfold lose_record. cbv zeta.
  match goal with |- context [normalizeRecord r ?x now clock] =>
    pose proof (normalizeRecord_outcome r x now clock) as Ho; assert (t_Status x = StatusLost) as Hx end.
  { repeat match goal with |- context [if ?b then _ else _] => destruct b end; reflexivity. }
  exact (eq_trans (outcome_same_status _ _ Ho) Hx).
Qed.

Lemma markLost_sweeps r spared reason now clock w r' n :
  wf r → markLost r spared reason now clock w = (r', n, Ok tt) →
  n = Z.of_nat (size (filter (fun p => loses spared p.2 = true) (records r))) ∧
  ∀ id, match records r !! id with
        | Some a =>
            records r' !! id = None ∨ ∃ b, records r' !! id = Some b ∧
              if loses spared a then counted (lose_record r a reason now clock) b else b = a
        | None => records r' !! id = None
        end.
Proof.
  intros Hwf Hc. unfold markLost in Hc.
  destruct (writableErrorLocked r) as [[]|] eqn:Hw; [|done].
  destruct (markLostLoop _ _ _ _ _ _ _) as [rmid k] eqn:Hloop.
  destruct (sortedRecordIDs_spec r) as [Hnd Hin].
  destruct (markLostLoop_spec _ _ _ _ _ _ _ _ _ Hnd (wf_keyed _ Hwf) Hloop) as (Hf & Hk & Hr).
  assert (k = Z.of_nat (size (filter (fun p => loses spared p.2 = true) (records r)))) as Hcount.
  { rewrite Hk, Z.add_0_l. f_equal. apply nodup_keys_size; [by apply NoDup_filter|].
    intros id. rewrite list_elem_of_filter, Hin. unfold lost_at, is_Some.
    setoid_rewrite map_lookup_filter_Some.
    destruct (records r !! id) as [a|]; naive_solver. }
  assert (∀ id, match records r !! id with
    | Some a => ∃ b, records rmid !! id = Some b ∧
                  if loses spared a then counted (lose_record r a reason now clock) b else b = a
    | None => records rmid !! id = None end) as Hmid.
  { intros id. specialize (Hr id). destruct (records r !! id) as [a|] eqn:Ha; [|done].
    rewrite bool_decide_eq_true_2 in Hr by (apply Hin; eauto). cbn [andb] in Hr.
    destruct (loses spared a); [done|eauto]. }
  clear Hr. destruct (k <=? 0).
  { injection Hc as <- <-. split; [done|]. intros id. specialize (Hmid id).
    destruct (records r !! id); [by right|done]. }
  destruct (commitMutation _ _ _ _ _) as [[r1 err] c] eqn:E. injection Hc as <- <- ->.
  assert (lastLoad rmid = None) as Hl.
  { destruct Hf as (_ & _ & -> & _). by apply writable_ok. }
  pose proof (commitMutation_spec _ _ _ _ _ _ _ _ Hl E) as Hcs.
  assert (c = true) as -> by by inversion Hcs.
  split; [done|]. rewrite (commit_pruned _ _ _ _ _ _ Hcs eq_refl). intros id. specialize (Hmid id).
  pose proof (pruneLocked_subseteq rmid now) as Hsub.
  destruct (records (pruneLocked rmid now).1 !! id) as [b|] eqn:Hb.
  - rewrite (lookup_weaken _ _ _ _ Hb Hsub) in Hmid.
    destruct (records r !! id); [right; naive_solver|done].
  - destruct (records r !! id); [by left|done].
Qed.

(** Recovery after a restart is complete.  When [MarkActiveLost] succeeds,
    every task still queued or running is one of the protected ids, the
    count it returns is the number of active unprotected tasks there were,
    and every other record is as it was or has been pruned. *)
Theorem MarkActiveLost_complete r reason protected now clock w r' n :
  wf r → MarkActiveLost r reason protected now clock w = (r', n, Ok tt) →
  n = Z.of_nat (size (filter (fun p => isActiveStatus (t_Status p.2) = true ∧ p.1 ∉ protected)
                             (records r)))
  ∧ (∀ id b, records r' !! id = Some b → isActiveStatus (t_Status b) = true →
       id ∈ protected ∧ records r !! id = Some b)
  ∧ (∀ id b, records r' !! id = Some b → records r !! id ≠ Some b → t_Status b = StatusLost).
Proof.
  intros Hwf Hc. apply markLost_sweeps in Hc as [Hn Hr]; [|done].
  set (spared := fun rec => bool_decide (t_TaskID rec ∈ protected)) in *.
  assert (∀ id b, records r' !! id = Some b → ∃ a, records r !! id = Some a ∧ t_TaskID a = id ∧
    if loses spared a then t_Status b = StatusLost else b = a) as Hb.
  { intros id b Hb. specialize (Hr id). destruct (records r !! id) as [a|] eqn:Ha; [|congruence].
    destruct Hr as [?|(b' & Hb' & Hl)]; [congruence|]. simplify_eq.
    exists a. split_and!; [done|apply (Hwf _ _ Ha)|]. destruct (loses spared a); [|done].
    rewrite <- (lose_record_status r a (default_reason reason "active task owner is no longer alive") now clock).
    destruct Hl as [-> _]. by destruct (lose_record _ _ _ _ _). }
  split_and!.
  - rewrite Hn. do 2 f_equal. apply map_filter_ext. intros id a Ha. unfold loses, spared.
    cbn [snd fst]. rewrite (proj1 (Hwf _ _ Ha)), andb_true_iff, negb_true_iff, bool_decide_eq_false. done.
  - intros id b Hid Hact. destruct (Hb _ _ Hid) as (a & Ha & Hta & Hl). unfold loses in Hl.
    destruct (isActiveStatus (t_Status a)) eqn:Haa; simpl in Hl; [|congruence].
    unfold spared in Hl. case_bool_decide; simpl in Hl; [|by rewrite Hl in Hact].
    simplify_eq. split; [congruence|done].
  - intros id b Hid Hne. destruct (Hb _ _ Hid) as (a & Ha & _ & Hl).
    destruct (loses spared a); [done|congruence].
Qed.

(** ** The status machine *)

(** How a reporting operation may move the status of a task. *)
Inductive status_step : Status → Status → Prop :=
| step_same s : status_step s s
| step_finish s t : isTerminalStatus s = false → isTerminalStatus t = true → status_step s t
| step_recover t : isTerminalStatus t = true → status_step StatusLost t
| step_fail_delivery : status_step StatusSucceeded StatusFailed
| step_cancel_delivery : status_step StatusSucceeded StatusCancelled.

Lemma unsettled_step rec t :
  settled rec = false → isTerminalStatus t = true → status_step (t_Status rec) t.
Proof.
  unfold settled. intros Hs Ht. apply andb_false_iff in Hs as [Hs|Hs]; [by apply step_finish|].
  apply negb_false_iff, bool_decide_eq_true in Hs. rewrite Hs. by apply step_recover.
Qed.

Lemma fail_status status summary now a b :
  fail_mutate status summary now a = Some b →
  t_Status b = status ∧ t_GenerationID b = t_GenerationID a ∧
  (settled a = false ∨ t_Status a = StatusSucceeded ∧ (status = StatusFailed ∨ status = StatusCancelled)).
Proof.
  unfold fail_mutate. intros Hb.
  set (u := bool_decide (t_Status a = StatusSucceeded)
    && negb (bool_decide (t_DeliveryStatus a = DeliveryDelivered))
    && negb (bool_decide (t_DeliveryStatus a = DeliverySessionQueued))
    && negb (bool_decide (t_DeliveryStatus a = DeliveryNotApplicable))) in *. cbv zeta in Hb.
  assert (settled a = false ∨ t_Status a = StatusSucceeded ∧ (status = StatusFailed ∨ status = StatusCancelled)) as Hcase.
  { destruct (settled a) eqn:Hs; [right|by left]. destruct u eqn:Hu.
    - unfold u in Hu. rewrite !andb_true_iff, bool_decide_eq_true in Hu. split; [tauto|].
      rewrite !andb_true_r in Hb. destruct (decide (status = StatusFailed)) as [|Hf]; [by left|right].
      destruct (decide (status = StatusCancelled)) as [|Hcn]; [done|].
      by rewrite !bool_decide_eq_false_2 in Hb.
    - by rewrite !andb_false_r in Hb. }
  clearbody u. split_and!; [..|done]; revert Hb; clear; unfold reopen_lost;
    repeat match goal with |- context [if ?b then _ else _] => destruct b end;
    intros Hb; first [discriminate Hb | injection Hb as <-; reflexivity].
Qed.

Lemma settle_status status summary d delivery now a b :
  settle_mutate status summary d delivery now a = Some b →
  t_Status b = status ∧ t_GenerationID b = t_GenerationID a ∧ settled a = false.
Proof.
  unfold settle_mutate. destruct (settled a); [done|]. unfold reopen_lost, mark_delivered. cbv zeta.
  repeat match goal with |- context [if ?b then _ else _] => destruct b end;
    intros Hb; injection Hb as <-; by split_and!.
Qed.

Lemma touched_status r a b now clock :
  t_GenerationID b = t_GenerationID a → t_Status (touched_record r a b now clock) = t_Status b.
Proof. intros Hg. by apply outcome_same_status, touched_outcome. Qed.

Lemma heartbeat_status progress now rec :
  t_Status (heartbeat_mutate progress now rec) = t_Status rec
  ∧ t_GenerationID (heartbeat_mutate progress now rec) = t_GenerationID rec.
Proof. unfold heartbeat_mutate. destruct rec. by repeat case_match. Qed.

Lemma target_step env r op id a b r' res :
  wf r → reporting_op op → records r !! id = Some a → target_record env r op id = Some b →
  run env r op = (r', res) → r' = r ∨ status_step (t_Status a) (t_Status b).
Proof.
  intros Hwf Hop Ha Ht Hc.
  destruct op; try done; cbn [target_record] in Ht; rewrite Ha in Ht;
    try (destruct (decide _); [|done]).
  - right. simplify_eq. apply step_same.
  - right. cbn [fmap option_fmap option_map] in Ht. injection Ht as <-.
    rewrite (clone_own a) by apply (Hwf _ _ Ha). destruct (heartbeat_status progress (env_now env) a) as [Hs Hg].
    rewrite (outcome_same_status _ _ (mutated_outcome r _ _ _ _ Hg)), Hs. apply step_same.
  - simpl in Ht. destruct (fail_mutate _ _ _ a) as [c|] eqn:Hm; [|done]. injection Ht as <-.
    destruct (fail_status _ _ _ _ _ Hm) as (Hs & Hg & Hcase). rewrite touched_status, Hs by done.
    simpl in Hc. unfold Fail in Hc.
    destruct status; try (injection Hc as <- _; by left); right;
      (destruct Hcase as [?|[-> [?|?]]]; [by apply unsettled_step|try done..]).
    + apply step_fail_delivery.
    + apply step_cancel_delivery.
  - right. simpl in Ht. destruct (complete_mutate _ _ _ _ a) as [c|] eqn:Hm; [|done]. injection Ht as <-.
    assert (settled a = false) as Hs by (unfold complete_mutate in Hm; by destruct (settled a)).
    destruct (complete_outcome summary deliverable (default_delivery delivery) (env_mut_now env) a Hs)
      as (c' & Hc' & Ho). rewrite Hm in Hc'. injection Hc' as <-. cbv zeta in Ho.
    assert (t_GenerationID c = t_GenerationID a) by (unfold outcome_of in Ho; congruence).
    apply outcome_status in Ho as [Hst _]. rewrite touched_status, Hst by done.
    apply unsettled_step; [done|apply terminal_of_outcome].
  - simpl in Ht. destruct (settle_mutate _ _ _ _ _ a) as [c|] eqn:Hm; [|done]. injection Ht as <-.
    destruct (settle_status _ _ _ _ _ _ _ Hm) as (Hs & Hg & Hu). rewrite touched_status, Hs by done.
    simpl in Hc. unfold Settle in Hc.
    destruct status; try (injection Hc as <- _; by left); right; by apply unsettled_step.
  - right. simpl in Ht. destruct (loses _ a) eqn:Hl; [|done]. injection Ht as <-.
    rewrite lose_record_status. apply step_finish; [|done]. unfold loses in Hl.
    apply andb_true_iff in Hl as [Hl _]. revert Hl. by destruct (t_Status a).
  - right. simpl in Ht. destruct (loses _ a) eqn:Hl; [|done]. injection Ht as <-.
    rewrite lose_record_status. apply step_finish; [|done]. unfold loses in Hl.
    apply andb_true_iff in Hl as [Hl _]. revert Hl. by destruct (t_Status a).
Qed.

(** The status of a task moves only along the edges of its state machine:
    an unfinished task may become terminal, a lost one may still be settled,
    a success whose delivery is open may turn into a failure or a
    cancellation, and nothing else moves, whatever the operation. *)
Theorem run_status_step env r op r' res id a b :
  wf r → reporting_op op → run env r op = (r', res) →
  records r !! id = Some a → records r' !! id = Some b → status_step (t_Status a) (t_Status b).
Proof.
  intros Hwf Hop Hc Ha Hb.
  destruct (run_record _ _ _ _ _ id Hwf (reporting_op_ok _ Hop) Hc) as [->|Hr].
  { simplify_eq. apply step_same. }
  destruct (target_record env r op id) as [c|] eqn:Ht.
  - destruct Hr as [[? _]|(c' & Hc' & Hcnt)]; [congruence|]. rewrite Hb in Hc'. injection Hc' as <-.
    destruct (target_step _ _ _ _ _ _ _ _ Hwf Hop Ha Ht Hc) as [->|Hs].
    + simplify_eq. apply step_same.
    + by rewrite (outcome_same_status _ _ (counted_outcome _ _ Hcnt)).
  - rewrite Ha in Hr. destruct Hr as [?|[? _]]; [|congruence]. simplify_eq. apply step_same.
Qed.
End props.
