(* ===== verification/TaskStore.v ===== *)
(** The stored form of the task registry: what [validateSnapshot] accepts,
    stated declaratively, and what a restart on a saved file recovers. *)
From S2P Require Import Prelude GoStrings GoJson TaskResult CodingScope TaskTypes TaskRegistry.
From S2P Require Import TaskPrune TaskLifecycle TaskSystem TaskProps.

(** ** Valid snapshots *)

Definition stream_events (k : stream_key) (evs : list TaskEvent) : list TaskEvent :=
  filter (fun e => event_stream e = k) evs.
Definition stream_seqs (k : stream_key) (evs : list TaskEvent) : list Z := ev_Seq <$> stream_events k evs.

Lemma stream_seqs_cons k e evs :
  stream_seqs k (e :: evs) =
    if decide (event_stream e = k) then ev_Seq e :: stream_seqs k evs else stream_seqs k evs.
Proof. unfold stream_seqs, stream_events. rewrite filter_cons. by case_decide. Qed.
Lemma stream_seqs_app k evs evs' : stream_seqs k (evs ++ evs') = stream_seqs k evs ++ stream_seqs k evs'.
Proof. unfold stream_seqs, stream_events. by rewrite filter_app, fmap_app. Qed.

(** What a stored snapshot must satisfy: valid records with distinct ids, valid
    events with distinct ids about stored tasks, and for each generation of a
    task a gap-free run of events that ends at the record's own counter. *)
Record valid_snapshot (tasks : list Record) (evs : list TaskEvent) : Prop := {
  vs_tasks : Forall (fun rec => validateStoredRecord rec = Ok tt) tasks;
  vs_task_ids : NoDup (t_TaskID <$> tasks);
  vs_events : Forall (fun e => validateStoredEvent e = Ok tt) evs;
  vs_event_ids : NoDup (ev_EventID <$> evs);
  vs_streams : ∀ k, consecutive (stream_seqs k evs);
  vs_referenced : ∀ e, e ∈ evs → ev_TaskID e ∈ t_TaskID <$> tasks;
  vs_tails : ∀ rec, rec ∈ tasks →
    match last (stream_seqs (t_TaskID rec, t_GenerationID rec) evs) with
    | Some n => n = t_LastEventSeq rec
    | None => True
    end }.

Definition index_tasks (m : gmap string Record) (tasks : list Record) : gmap string Record :=
  foldl (fun m rec => <[t_TaskID rec := rec]> m) m tasks.

Lemma index_tasks_cons m rec tasks :
  index_tasks m (rec :: tasks) = index_tasks (<[t_TaskID rec := rec]> m) tasks.
Proof. done. Qed.

Lemma index_tasks_lookup tasks : ∀ m id rec,
  NoDup (t_TaskID <$> tasks) → (∀ rec, rec ∈ tasks → m !! t_TaskID rec = None) →
  index_tasks m tasks !! id = Some rec ↔ m !! id = Some rec ∨ rec ∈ tasks ∧ t_TaskID rec = id.
Proof.
  induction tasks as [|t tasks IH]; intros m id rec Hnd Hm.
  { cbn [index_tasks foldl]. set_solver. }
  csimpl in Hnd. apply NoDup_cons in Hnd as [Hni Hnd]. rewrite index_tasks_cons, IH; [|done|].
  - destruct (decide (t_TaskID t = id)) as [<-|Hne].
    + rewrite lookup_insert_eq, (Hm t) by (by left). split.
      * intros [[= <-]|[Hin ?]]; right; (split; [|done]); [by left|by right].
      * intros [?|[[->|?]%elem_of_cons ?]]; [done|by left|]. exfalso. apply Hni.
        apply list_elem_of_fmap. eauto.
    + rewrite lookup_insert_ne by done. rewrite elem_of_cons. naive_solver.
  - intros rec' Hin. rewrite lookup_insert_ne; [apply Hm; by right|].
    intros Heq. apply Hni. apply list_elem_of_fmap. eauto.
Qed.

Lemma validateTasks_ok tasks : ∀ m m',
  validateTasks tasks m = Ok m' ↔
  Forall (fun rec => validateStoredRecord rec = Ok tt) tasks ∧ NoDup (t_TaskID <$> tasks)
  ∧ (∀ rec, rec ∈ tasks → m !! t_TaskID rec = None) ∧ m' = index_tasks m tasks.
Proof.
  induction tasks as [|t tasks IH]; intros m m'.
  { simpl. split; [intros [= <-]; split_and!; [constructor..|set_solver|done] | by intros (_ & _ & _ & ->)]. }
  cbn [validateTasks]. rewrite fmap_cons, Forall_cons, NoDup_cons, index_tasks_cons.
  destruct (validateStoredRecord t) as [[]|]; simpl; [|naive_solver].
  case_bool_decide as Hex.
  { split; [done|]. intros (_ & _ & Hn & _). rewrite (Hn t) in Hex by (by left). by destruct Hex. }
  rewrite IH, <- eq_None_not_Some in *. split.
  - intros (Hf & Hnd & Hn & ->). split_and!; try done.
    + rewrite list_elem_of_fmap. intros (t' & Heq & Hin). specialize (Hn t' Hin).
      by rewrite <- Heq, lookup_insert_eq in Hn.
    + intros rec [->|Hin]%elem_of_cons; [done|]. specialize (Hn _ Hin).
      by apply lookup_insert_None in Hn as [? _].
  - intros ((_ & Hf) & (Hni & Hnd) & Hn & ->). split_and!; try done.
    intros rec Hin. rewrite lookup_insert_ne; [apply Hn; by right|].
    intros Heq. apply Hni, list_elem_of_fmap. eauto.
Qed.

Definition index_seqs (m : gmap stream_key Z) (evs : list TaskEvent) : gmap stream_key Z :=
  foldl (fun m e => <[event_stream e := ev_Seq e]> m) m evs.

Lemma index_seqs_cons m e evs : index_seqs m (e :: evs) = index_seqs (<[event_stream e := ev_Seq e]> m) evs.
Proof. done. Qed.

Lemma index_seqs_lookup evs : ∀ m k,
  index_seqs m evs !! k = last (option_list (m !! k) ++ stream_seqs k evs).
Proof.
  induction evs as [|e evs IH]; intros m k.
  { cbn [index_seqs foldl]. by destruct (m !! k). }
  rewrite index_seqs_cons, IH, stream_seqs_cons. case_decide as Hk.
  - subst k. rewrite lookup_insert_eq. simpl. by destruct (m !! event_stream e).
  - by rewrite lookup_insert_ne.
Qed.

Definition event_references (recs : gmap string Record) (e : TaskEvent) : Prop :=
  ∃ rec, recs !! ev_TaskID e = Some rec ∧
         (t_GenerationID rec = ev_GenerationID e → ev_Seq e ≤ t_LastEventSeq rec).

Lemma validateEvents_ok evs : ∀ recs ids seqs seqs',
  validateEvents evs recs ids seqs = Ok seqs' ↔
  Forall (fun e => validateStoredEvent e = Ok tt) evs ∧ NoDup (ev_EventID <$> evs)
  ∧ Forall (fun e => ev_EventID e ∉ ids) evs
  ∧ (∀ k, consecutive (option_list (seqs !! k) ++ stream_seqs k evs))
  ∧ Forall (event_references recs) evs ∧ seqs' = index_seqs seqs evs.
Proof.
  induction evs as [|e evs IH]; intros recs ids seqs seqs'.
  { simpl. split; [|by intros (_ & _ & _ & _ & _ & ->)]. intros [= <-]. split_and!; try constructor.
    intros k. by destruct (seqs !! k). }
  cbn [validateEvents]. rewrite fmap_cons, !Forall_cons, NoDup_cons, index_seqs_cons.
  destruct (validateStoredEvent e) as [[]|] eqn:Hv; simpl; [|naive_solver].
  case_bool_decide as Hid; [naive_solver|].
  assert ((∀ k, consecutive (option_list (seqs !! k) ++ stream_seqs k (e :: evs))) ↔
    match seqs !! event_stream e with Some p => ev_Seq e = p + 1 | None => True end
    ∧ ∀ k, consecutive (option_list (<[event_stream e := ev_Seq e]> seqs !! k) ++ stream_seqs k evs)) as Hk.
  { split.
    - intros Hall. split.
      + specialize (Hall (event_stream e)). rewrite stream_seqs_cons, decide_True in Hall by done.
        by apply consecutive_extend in Hall as [? _].
      + intros k. specialize (Hall k). rewrite stream_seqs_cons in Hall. case_decide as Hk.
        * subst k. rewrite lookup_insert_eq. by apply consecutive_extend in Hall as [_ ?].
        * by rewrite lookup_insert_ne.
    - intros [Hp Hall] k. specialize (Hall k). rewrite stream_seqs_cons. case_decide as Hk.
      + subst k. rewrite lookup_insert_eq in Hall. by apply consecutive_extend.
      + by rewrite lookup_insert_ne in Hall. }
  rewrite Hk. clear Hk.
  assert (match seqs !! event_stream e with Some p => negb (ev_Seq e =? p + 1) | None => false end = false
    ↔ match seqs !! event_stream e with Some p => ev_Seq e = p + 1 | None => True end) as Hp.
  { destruct (seqs !! event_stream e); [|done]. by rewrite negb_false_iff, Z.eqb_eq. }
  match goal with |- (if ?c then _ else _) = _ ↔ _ => destruct c eqn:Hg end.
  { split; [done|]. intros (_ & _ & _ & [Hseq _] & _). apply Hp in Hseq. congruence. }
  destruct (recs !! ev_TaskID e) as [rec|] eqn:Hrec.
  2: { split; [done|]. intros (_ & _ & _ & _ & [(? & Hr & _) _] & _). congruence. }
  assert (event_references recs e ↔
    String.eqb (t_GenerationID rec) (ev_GenerationID e) && (t_LastEventSeq rec <? ev_Seq e) = false) as Hr.
  { unfold event_references. rewrite Hrec. split.
    - intros (? & [= <-] & Hle). destruct (String.eqb_spec (t_GenerationID rec) (ev_GenerationID e)); [|done].
      simpl. apply Z.ltb_ge. auto.
    - intros Hf. exists rec. split; [done|]. intros Heq. rewrite Heq, String.eqb_refl in Hf. simpl in Hf.
      by apply Z.ltb_ge. }
  match goal with |- (if ?c then _ else _) = _ ↔ _ => destruct c eqn:Hc end.
  { split; [done|]. intros (_ & _ & _ & _ & [He _] & _). apply Hr in He. congruence. }
  rewrite IH, !Forall_forall, list_elem_of_fmap.
  assert ((∀ x, x ∈ evs → ev_EventID x ∉ ({[ev_EventID e]} ∪ ids : gset string)) ↔
    ¬ (∃ y, ev_EventID e = ev_EventID y ∧ y ∈ evs) ∧ ∀ x, x ∈ evs → ev_EventID x ∉ ids) as ->.
  { setoid_rewrite not_elem_of_union. setoid_rewrite not_elem_of_singleton. split.
    - intros Hx. split; [|by intros x ?; apply Hx]. intros (y & Hy & Hin). by destruct (Hx y Hin).
    - intros [Hne Hx] x Hin. split; [|auto]. intros Heq. apply Hne. eauto. }
  tauto.
Qed.

Lemma index_tasks_empty tasks id rec :
  NoDup (t_TaskID <$> tasks) →
  index_tasks ∅ tasks !! id = Some rec ↔ rec ∈ tasks ∧ t_TaskID rec = id.
Proof.
  intros Hnd. rewrite index_tasks_lookup by done. rewrite lookup_empty. naive_solver.
Qed.

Lemma tails_ok recs evs :
  forallb (stream_tail_ok recs) (map_to_list (index_seqs ∅ evs)) = true ↔
  ∀ k rec, recs !! k.1 = Some rec → t_GenerationID rec = k.2 →
    match last (stream_seqs k evs) with Some n => n = t_LastEventSeq rec | None => True end.
Proof.
  rewrite forallb_forall. setoid_rewrite <- list_elem_of_In. split.
  - intros Hall k rec Hrec Hg. destruct (last (stream_seqs k evs)) as [n|] eqn:Hl; [|done].
    specialize (Hall (k, n)). rewrite elem_of_map_to_list, index_seqs_lookup, lookup_empty in Hall.
    specialize (Hall Hl). unfold stream_tail_ok in Hall. cbn [fst snd] in Hall.
    rewrite Hrec, Hg, String.eqb_refl in Hall. simpl in Hall. rewrite negb_involutive in Hall. by apply Z.eqb_eq.
  - intros Hall [k n] Hin%elem_of_map_to_list. rewrite index_seqs_lookup, lookup_empty in Hin. simpl in Hin.
    unfold stream_tail_ok. cbn [fst snd]. destruct (recs !! k.1) as [rec|] eqn:Hrec; [|done].
    destruct (String.eqb_spec (t_GenerationID rec) k.2) as [Hg|]; [|done].
    specialize (Hall k rec Hrec Hg). rewrite Hin in Hall. subst. by rewrite Z.eqb_refl.
Qed.

Lemma stream_seqs_member e evs : e ∈ evs → ev_Seq e ∈ stream_seqs (event_stream e) evs.
Proof.
  intros Hin. unfold stream_seqs, stream_events. apply list_elem_of_fmap. exists e. split; [done|].
  by apply list_elem_of_filter.
Qed.

Lemma validateSnapshot_ok s :
  validateSnapshot s = Ok tt ↔ ∃ tasks, Tasks s = Some tasks ∧ valid_snapshot tasks (Events s).
Proof.
  unfold validateSnapshot. destruct (Tasks s) as [tasks|]; [|naive_solver].
  rewrite result_bind_ok. setoid_rewrite validateTasks_ok. setoid_rewrite result_bind_ok.
  setoid_rewrite validateEvents_ok. split.
  - intros (recs & (Hv & Hnd & _ & ->) & seqs & (Hev & Hei & _ & Hc & Hr & ->) & Ht).
    destruct (forallb _ _) eqn:Htl; [|done]. rewrite tails_ok in Htl. exists tasks. split; [done|].
    rewrite Forall_forall in Hr. split; try done.
    + intros e Hin. destruct (Hr _ Hin) as (rec & Hrec & _). apply index_tasks_empty in Hrec as [Hrt <-]; [|done].
      apply list_elem_of_fmap. eauto.
    + intros rec Hrt. apply (Htl (t_TaskID rec, t_GenerationID rec)); [|done]. by apply index_tasks_empty.
  - intros (? & [= <-] & [Hv Hnd Hev Hei Hc Hr Ht]).
    exists (index_tasks ∅ tasks). split; [split_and!; done|].
    exists (index_seqs ∅ (Events s)). split; [|].
    + split_and!; try done.
      * apply Forall_forall. intros e _. apply not_elem_of_empty.
      * apply Forall_forall. intros e Hin. pose proof (Hr _ Hin) as Href.
        apply list_elem_of_fmap in Href as (rec & Hid & Hrt). exists rec. split; [by apply index_tasks_empty|].
        intros Hg. specialize (Ht _ Hrt). pose proof (stream_seqs_member _ _ Hin) as Hm.
        unfold event_stream in Hm. rewrite Hid, <- Hg in Hm.
        specialize (Hc (t_TaskID rec, t_GenerationID rec)).
        destruct (stream_seqs (t_TaskID rec, t_GenerationID rec) (Events s)) as [|x l _] using rev_ind.
        { by apply elem_of_nil in Hm. }
        rewrite last_snoc in Ht. subst x. by eapply consecutive_last.
    + destruct (forallb _ _) eqn:Htl; [done|]. exfalso. apply not_true_iff_false in Htl. apply Htl, tails_ok.
      intros [id g] rec Hrec Hg. cbn [fst snd] in *. apply index_tasks_empty in Hrec as [Hrt <-]; [|done].
      subst g. by apply Ht.
Qed.

(** ** Restart *)

Section store.
Context `{MapOrder} `{Sha256}.
Implicit Types (r : Registry) (rec : Record).

Lemma snapshot_records_ids m : keyed m → t_TaskID <$> snapshot_records m ≡ₚ (map_to_list m).*1.
Proof.
  intros Hk. unfold snapshot_records. rewrite merge_sort_Permutation. unfold go_values.
  rewrite go_range_perm, <- list_fmap_compose. apply Permutation_refl', list_fmap_ext.
  intros i [id rec] Hi%list_elem_of_lookup_2%elem_of_map_to_list. exact (Hk _ _ Hi).
Qed.
Lemma snapshot_records_nodup m : keyed m → NoDup (t_TaskID <$> snapshot_records m).
Proof. intros Hk. rewrite snapshot_records_ids by done. apply NoDup_fst_map_to_list. Qed.

Lemma elem_of_snapshot_records m rec : rec ∈ snapshot_records m ↔ ∃ id, m !! id = Some rec.
Proof. unfold snapshot_records. by rewrite merge_sort_Permutation, elem_of_go_values. Qed.

Lemma index_snapshot_records m : keyed m → index_tasks ∅ (snapshot_records m) = m.
Proof.
  intros Hk. apply map_eq. intros id. apply option_eq. intros rec.
  rewrite index_tasks_empty by by apply snapshot_records_nodup.
  rewrite elem_of_snapshot_records. split.
  - intros [(id' & Hid') <-]. by rewrite (Hk _ _ Hid').
  - intros Hid. split; [eauto|exact (Hk _ _ Hid)].
Qed.

(** Reading back the file of [r] gives its records and events. *)
Lemma load_persisted decode_json r r0 text :
  wf r → persisted r → file r = Some text → decode_json text = Ok (snapshotLocked r) →
  load decode_json r0 (ReadData text)
  = Ok (r0 <| records := records r |> <| events := events r |>).
Proof.
  intros Hwf [Hf Hv] Htext Hd. simpl. unfold decodeSnapshot. rewrite Hd. simpl. rewrite Hv. simpl.
  do 2 f_equal. by rewrite <- (index_snapshot_records (records r)) at 2 by by apply wf_keyed.
Qed.

Lemma pruneLoaded_records r now w id :
  wf r → records (pruneLoadedState r now w) !! id = records r !! id
         ∨ records (pruneLoadedState r now w) !! id = records (pruneLocked r now).1 !! id.
Proof.
  intros Hwf. unfold pruneLoadedState. destruct (pruneLocked r now) as [r1 b]. cbn [fst].
  destruct b; [|by right]. destruct (saveLocked r1 w) as [r2 err] eqn:Hs. simpl.
  destruct (save_committed err).
  - right. unfold saveLocked in Hs. by repeat case_match; simplify_eq.
  - left. simpl. by rewrite clone_wf.
Qed.

(** C40: nothing unfinished is lost across a restart.  A registry started on
    the file another registry left behind (the decoder reading back what the
    encoder wrote) holds every task of it that is not terminal and delivered,
    unchanged, and no task it did not have; this also when the file has to be
    pruned first and when writing the pruned file fails. *)
Theorem restart_keeps_unfinished decode_json r path opts text now w :
  wf r → persisted r → file r = Some text → decode_json text = Ok (snapshotLocked r) →
  blank path = false →
  let r' := NewRegistryWithOptions decode_json path opts (ReadData text) now w in
  (∀ id a, records r !! id = Some a → canPruneRecord a = false → records r' !! id = Some a)
  ∧ records r' ⊆ records r.
Proof.
  intros Hwf Hp Htext Hd Hpath r'. unfold r', NewRegistryWithOptions. cbn [store].
  unfold blank in Hpath. rewrite Hpath, (load_persisted _ r) by done.
  set (r1 := (mkRegistry _ _ _ _ _ _ _) <| records := _ |> <| events := _ |>).
  assert (records r1 = records r) as Hr by done. clearbody r1.
  assert (wf r1) as Hwf1 by (unfold wf; by rewrite Hr). rewrite <- Hr. split.
  - intros id a Ha Hc. destruct (pruneLoaded_records r1 now w id Hwf1) as [->| ->]; [done|].
    apply pruneLocked_protected; [by apply wf_keyed|done..].
  - apply map_subseteq_spec. intros id a.
    destruct (pruneLoaded_records r1 now w id Hwf1) as [->| ->]; [done|].
    intros Ha. eapply lookup_weaken; [exact Ha|apply pruneLocked_subseteq].
Qed.

(** ** New generations *)

Lemma appendEvent_counts r rec t e c p stored :
  blank (t_TaskID rec) = false → t ≠ EventTypeOther "" → records r !! t_TaskID rec = Some stored →
  t_GenerationID stored = t_GenerationID rec →
  records (appendEventLocked r rec t e c p) =
    <[t_TaskID rec := stored <| t_LastEventSeq ::= Z.succ |>]> (records r).
Proof.
  intros Hb Ht Hst Hg. unfold appendEventLocked.
  by rewrite Hb, bool_decide_eq_false_2, Hst, Hg, String.eqb_refl.
Qed.

Lemma generation_record_fresh r rec now clock uuid :
  t_GenerationID (generation_record r rec now clock uuid) = uuid
  ∧ t_LastEventSeq (generation_record r rec now clock uuid) = 0.
Proof. done. Qed.

(** What a successful or committed [storeNewGeneration] leaves under the id. *)
Lemma storeNewGeneration_stores r rec refuse now clock uuid w r' err :
  wf r → blank (t_TaskID rec) = false →
  storeNewGeneration r rec refuse now clock uuid w = (r', err) → save_committed err = true →
  let g := generation_record r rec now clock uuid in
  (refuse = true → records r !! t_TaskID rec = None) ∧
  (canPruneRecord g = false → records r' !! t_TaskID rec = Some (g <| t_LastEventSeq := 1 |>)).
Proof.
  intros Hwf Hbl Hc Hok. unfold storeNewGeneration in Hc. rewrite Hbl in Hc. cbv zeta in *.
  pose proof (generation_record_TaskID r rec now clock uuid) as Hid.
  destruct (generation_record_fresh r rec now clock uuid) as [Hg Hseq].
  pose proof (generation_record_own r rec now clock uuid) as Hown.
  remember (generation_record r rec now clock uuid) as g eqn:Heq. clear Heq.
  destruct (writableErrorLocked r) as [[]|e] eqn:Hw.
  2: { injection Hc as <- <-. unfold writableErrorLocked in Hw. case_match; by simplify_eq. }
  rewrite Hid in Hc. destruct (bool_decide (is_Some (records r !! t_TaskID rec)) && refuse) eqn:Hex.
  { by injection Hc as <- <-. }
  split.
  { intros ->. rewrite andb_true_r in Hex. apply bool_decide_eq_false in Hex. by apply eq_None_not_Some. }
  intros Hp. match type of Hc with context [appendEventLocked ?r ?a ?b ?c ?d ?e] =>
    remember (appendEventLocked r a b c d e) as rm eqn:Hrm end.
  assert (records rm = <[t_TaskID rec := g <| t_LastEventSeq := 1 |>]> (records r)) as Hrec.
  { subst rm. rewrite (appendEvent_counts _ _ _ _ _ _ g).
    - cbn [records update]. rewrite Hid, insert_insert_eq. f_equal.
      revert Hseq. clear. destruct g. cbn. by intros ->.
    - by rewrite Hid.
    - done.
    - rewrite Hid. cbn [records update]. apply lookup_insert_eq.
    - done. }
  assert (lastLoad rm = None) as Hl.
  { subst rm. match goal with |- context [appendEventLocked ?r ?a ?b ?c ?d ?e] =>
      destruct (appendEvent_frame r a b c d e) as (_ & _ & -> & _) end. by apply writable_ok. }
  clear Hrm. destruct (commitMutation _ _ _ _ _) as [[r1 err1] c] eqn:E. injection Hc as <- <-.
  pose proof (commitMutation_spec _ _ _ _ _ _ _ _ Hl E) as Hcs.
  assert (c = true) as -> by (inversion Hcs; subst; simpl in Hok; congruence).
  rewrite (commit_pruned _ _ _ _ _ _ Hcs eq_refl). apply pruneLocked_protected.
  - intros id x Hx. rewrite Hrec in Hx. apply lookup_insert_Some in Hx as [[<- <-]|[_ Hx]]; [by destruct g|].
    apply (Hwf _ _ Hx).
  - rewrite Hrec. apply lookup_insert_eq.
  - by destruct g.
Qed.

(** [Create] never overwrites a task and starts a fresh generation.  When
    it reports success there was no task under the id, and unless the new
    record is itself already prunable it is stored normalised, with the
    fresh generation id and exactly one event counted; on an id in use it
    changes nothing and says so. *)
Theorem Create_fresh_generation r rec now clock uuid w r' res :
  wf r → blank (t_TaskID rec) = false → lastLoad r = None →
  Create r rec now clock uuid w = (r', res) →
  let g := generation_record r rec now clock uuid in
  (is_Some (records r !! t_TaskID rec) → r' = r ∧ res = Err (ErrTaskAlreadyExists (t_TaskID rec)))
  ∧ (res = Ok tt → records r !! t_TaskID rec = None ∧ t_GenerationID g = uuid ∧
       (canPruneRecord g = false → records r' !! t_TaskID rec = Some (g <| t_LastEventSeq := 1 |>))).
Proof.
  intros Hwf Hbl Hl Hc. cbv zeta. unfold Create in Hc.
  destruct (storeNewGeneration r rec true now clock uuid w) as [r1 err] eqn:Hs.
  injection Hc as <- <-. split.
  - intros Hex. unfold storeNewGeneration in Hs. unfold writableErrorLocked in Hs.
    rewrite Hbl, Hl, generation_record_TaskID, bool_decide_eq_true_2 in Hs by done.
    simpl in Hs. by injection Hs as <- <-.
  - intros Hok. assert (save_committed err = true) as Hcm.
    { destruct err as [[]|e]; [done|]. simpl. by destruct (IsCommittedWriteError e). }
    destruct (storeNewGeneration_stores _ _ _ _ _ _ _ _ _ Hwf Hbl Hs Hcm) as [Hn Hr].
    split_and!; [by apply Hn|apply generation_record_fresh|exact Hr].
Qed.

(** the validation of a stored snapshot is exact: it accepts a snapshot
    if and only if every record and event is valid, the ids are distinct,
    every event is about a stored task, and for each generation of a task
    the retained events are a gap-free run that ends at the record's event
    counter. *)
Theorem validateSnapshot_exact s :
  validateSnapshot s = Ok tt ↔ ∃ tasks, Tasks s = Some tasks ∧ valid_snapshot tasks (Events s).
Proof. apply validateSnapshot_ok. Qed.

(** retention enforces its limits.  After [pruneLocked] there are at most
    [MaxRecords] records or none left that may be pruned, at most
    [MaxEvents] events, and the encoded snapshot fits [MaxSnapshotBytes]
    unless all events and all prunable records are already gone. *)
Theorem pruneLocked_enforces_limits r now :
  wf r → 0 < MaxRecords (options r) → 0 < MaxEvents (options r) → 0 < MaxSnapshotBytes (options r) →
  let r' := (pruneLocked r now).1 in
  (Z.of_nat (size (records r')) ≤ MaxRecords (options r)
   ∨ ∀ id rec, records r' !! id = Some rec → canPruneRecord rec = false)
  ∧ Z.of_nat (length (events r')) ≤ MaxEvents (options r)
  ∧ (len (snapshot_text (snapshotLocked r')) ≤ MaxSnapshotBytes (options r)
     ∨ events r' = [] ∧ ∀ id rec, records r' !! id = Some rec → canPruneRecord rec = false).
Proof. intros Hwf. apply pruneLocked_bounds. by apply wf_keyed. Qed.

(** the incremental event trim is exact.  Subtracting the encoded size of
    one event and one separator at a time gives the same events as encoding
    the whole snapshot again after each removal. *)
Theorem trim_matches_reencoding r :
  (trimEventsForSnapshotBudgetLocked r).1
  = r <| events := trim_reference r (events r) (MaxSnapshotBytes (options r)) |>.
Proof. apply trimEvents_reference. Qed.
End store.
