(* ===== verification/TaskWitness.v ===== *)
(** The properties of the task registry at concrete registries: each lemma
    applies a property where its hypotheses hold by computation. *)
From S2P Require Import Prelude GoStrings GoJson TaskResult CodingScope TaskTypes TaskRegistry.
From S2P Require Import TaskPrune TaskLifecycle TaskSystem TaskProps TaskStore.

(** A stand-in digest: the properties hold for every digest function. *)
#[local] Instance demo_sha : Sha256 := fun s => "digest-of-" +:+ s.

Definition demo_record (id : string) (status : Status) (delivery : DeliveryStatus) : Record :=
  mkRecord id "gen-1" 1 RuntimeSubagent "kind" "" "session" "" false false "" "telegram" "42" ""
    "agent" "label" "do it" status delivery NotifyDoneOnly "" 0 "" 0 "" 1000 1000
    (if isTerminalStatus status then 1500 else 0) 1500 (if isTerminalStatus status then 900000000 else 0)
    "" "" "" None None.

Definition demo_event (id : string) (status : Status) (delivery : DeliveryStatus) : TaskEvent :=
  make_event (demo_record id status delivery) EventTaskUpserted 1 1000 ∅.

Definition demo_options : Options := mkOptions 1000000000 10 10 100000.

Definition demo_registry (path : string) (l : list (string * Status * DeliveryStatus)) : Registry :=
  let r := mkRegistry path demo_options
    (list_to_map ((fun '(id, s, d) => (id, demo_record id s d)) <$> l))
    ((fun '(id, s, d) => demo_event id s d) <$> l) None false None in
  if String.eqb path "" then r else r <| file := Some (snapshot_text (snapshotLocked r)) |>.

Definition demo_env : Env := mkEnv 2000 2000 2000 "uuid-2" WriteOk.

Lemma demo_wf path l : wf (demo_registry path l).
Proof.
  unfold wf, demo_registry.
  assert (map_Forall wf_record (list_to_map ((fun '(id, s, d) => (id, demo_record id s d)) <$> l)
    : gmap string Record)) as Hwf.
  { induction l as [|[[id s] d] l IH]; [apply map_Forall_empty|]. csimpl.
    by apply map_Forall_insert_2. }
  by case_match.
Qed.

(** A task failed; a completion and a sweep come late, another task is created,
    and the agent loop records what became of the delivery. *)
Definition late_reports : list (Env * Op) :=
  [(demo_env, OpComplete "t1" "late" None DeliveryPending); (demo_env, OpMarkActiveLost "gone" ∅);
   (demo_env, OpUpsert (demo_record "t2" StatusRunning DeliveryPending));
   (demo_env, OpUpdate "t1" (delivery_mutate DeliveryDelivered "c1" "" 2000));
   (demo_env, OpUpdate "t1" (parent_missing_mutate 2000));
   (demo_env, OpUpdate "t1" (delivery_mutate DeliveryFailed "" "no route" 2000))].

Lemma run_atomic_witness :
  (run demo_env (demo_registry "" [("t1", StatusRunning, DeliveryPending)])
     (OpHeartbeat "missing" "step")).1 = demo_registry "" [("t1", StatusRunning, DeliveryPending)].
Proof.
  apply (run_atomic demo_env _ (OpHeartbeat "missing" "step") _ (ErrTaskNotFound "missing")).
  - apply demo_wf.
  - done.
  - by vm_compute.
  - done.
Defined.

Lemma file_mirrors_memory_witness :
  persisted (run_all (demo_registry "/state" [("t1", StatusRunning, DeliveryPending)])
    [(demo_env, OpComplete "t1" "done" None DeliveryPending); (demo_env, OpHeartbeat "t1" "late")]).
Proof.
  apply file_mirrors_memory.
  - apply demo_wf.
  - done.
  - split; by vm_compute.
  - repeat constructor.
Defined.

Lemma damaged_store_untouched_witness :
  let r := NewRegistryWithOptions (fun _ => Err "unexpected end of JSON input") "/state" demo_options
    (ReadData "{") 2000 WriteOk in
  run_all r [(demo_env, OpCreate (demo_record "t1" StatusQueued DeliveryPending))] = r
  ∧ file (run_all r [(demo_env, OpCreate (demo_record "t1" StatusQueued DeliveryPending))]) = Some "{"%string.
Proof.
  apply (damaged_store_untouched (fun _ => Err "unexpected end of JSON input") "/state" demo_options "{"
    "unexpected end of JSON input").
  - by vm_compute.
  - done.
  - repeat constructor.
Defined.

Lemma run_keeps_unfinished_witness :
  records (run demo_env (demo_registry "" [("t1", StatusRunning, DeliveryPending);
                                           ("t2", StatusSucceeded, DeliveryPending)])
             (OpFail "t1" StatusTimedOut "too slow")).1 !! "t2"
  = Some (demo_record "t2" StatusSucceeded DeliveryPending).
Proof.
  apply (run_keeps_unfinished demo_env
    (demo_registry "" [("t1", StatusRunning, DeliveryPending); ("t2", StatusSucceeded, DeliveryPending)])
    (OpFail "t1" StatusTimedOut "too slow") _ (Ok tt)).
  - apply demo_wf.
  - done.
  - by vm_compute.
  - by vm_compute.
  - by vm_compute.
  - by vm_compute.
Defined.

Lemma Complete_awaits_delivery_witness :
  ∃ b, b ∈ ListPendingTerminalDelivery
         (Complete (demo_registry "" [("t1", StatusRunning, DeliveryPending)]) "t1" "all done" None
            DeliveryPending 2000 2000 2000 WriteOk).1
       ∧ t_TaskID b = "t1"%string
       ∧ outcome_of b = ("gen-1", StatusSucceeded, DeliveryPending, "", "all done", None)%string.
Proof.
  apply (Complete_awaits_delivery (demo_registry "" [("t1", StatusRunning, DeliveryPending)]) "t1" "all done"
    None 2000 2000 2000 WriteOk (demo_record "t1" StatusRunning DeliveryPending)).
  - apply demo_wf.
  - by vm_compute.
  - by vm_compute.
  - by vm_compute.
  - by vm_compute.
Defined.

Lemma MarkActiveLost_complete_witness :
  let r := demo_registry "" [("t1", StatusRunning, DeliveryPending); ("t2", StatusQueued, DeliveryPending)] in
  1 = Z.of_nat (size (filter (fun p : string * Record => isActiveStatus (t_Status p.2) = true ∧ p.1 ∉ ({["t2"]} : gset string))
                        (records r))).
Proof.
  eapply (MarkActiveLost_complete (demo_registry "" [("t1", StatusRunning, DeliveryPending);
    ("t2", StatusQueued, DeliveryPending)]) "owner gone" {["t2"]} 2000 2000 WriteOk).
  - apply demo_wf.
  - by vm_compute.
Defined.

Definition demo_cancelled : Record :=
  default (demo_record "" StatusLost DeliveryPending) (records (run demo_env
    (demo_registry "" [("t1", StatusSucceeded, DeliveryPending)])
    (OpFail "t1" StatusCancelled "stop")).1 !! "t1").

Lemma run_status_step_witness :
  t_Status demo_cancelled = StatusCancelled ∧ status_step StatusSucceeded (t_Status demo_cancelled).
Proof.
  split; [by vm_compute|].
  eapply (run_status_step demo_env (demo_registry "" [("t1", StatusSucceeded, DeliveryPending)])
    (OpFail "t1" StatusCancelled "stop") _ (Ok tt) "t1" (demo_record "t1" StatusSucceeded DeliveryPending)
    demo_cancelled).
  - apply demo_wf.
  - done.
  - vm_compute. reflexivity.
  - by vm_compute.
  - by vm_compute.
Defined.

Lemma restart_keeps_unfinished_witness :
  let r := demo_registry "/state" [("t1", StatusRunning, DeliveryPending)] in
  records (NewRegistryWithOptions (fun _ => Ok (snapshotLocked r)) "/state" demo_options
    (ReadData (snapshot_text (snapshotLocked r))) 2000 WriteOk) !! "t1"
  = Some (demo_record "t1" StatusRunning DeliveryPending).
Proof.
  eapply (restart_keeps_unfinished
    (fun _ => Ok (snapshotLocked (demo_registry "/state" [("t1", StatusRunning, DeliveryPending)])))
    (demo_registry "/state" [("t1", StatusRunning, DeliveryPending)])).
  - apply demo_wf.
  - split; by vm_compute.
  - by vm_compute.
  - done.
  - by vm_compute.
  - by vm_compute.
  - by vm_compute.
Defined.

Lemma Create_fresh_generation_witness :
  let r := demo_registry "" [("t1", StatusRunning, DeliveryPending)] in
  (Create r (demo_record "t1" StatusQueued DeliveryPending) 2000 2000 "uuid-2" WriteOk).1 = r.
Proof.
  eapply (Create_fresh_generation (demo_registry "" [("t1", StatusRunning, DeliveryPending)])
    (demo_record "t1" StatusQueued DeliveryPending) 2000 2000 "uuid-2" WriteOk).
  - apply demo_wf.
  - by vm_compute.
  - done.
  - apply surjective_pairing.
  - eexists. by vm_compute.
Defined.

Definition demo_crowded : Registry :=
  demo_registry "" [("t1", StatusFailed, DeliveryDelivered); ("t2", StatusFailed, DeliveryDelivered)]
    <| options := mkOptions 1000000000 1 1 100000 |>.

Lemma pruneLocked_enforces_limits_witness :
  Z.of_nat (length (events (pruneLocked demo_crowded 2000).1)) ≤ 1.
Proof.
  refine (proj1 (proj2 (pruneLocked_enforces_limits demo_crowded 2000 _ _ _ _))).
  - exact (demo_wf "" [("t1", StatusFailed, DeliveryDelivered); ("t2", StatusFailed, DeliveryDelivered)]).
  - done.
  - done.
  - done.
Defined.
