(* ===== verification/BusInbound.v ===== *)
(** Package [pkg/bus], inbound side: the normalized context of an inbound
    message ([types.go]) that interactions and outbound messages carry, its
    JSON form and its normalization ([inbound_context.go]).

    A nil slice or map and an empty one are not distinguished: the code tests
    their length only. *)
From S2P Require Import Prelude GoStrings GoJson GoTime.
#[local] Open Scope Z_scope.

(** [bus.InboundInteractionChoice] *)
Inductive InboundInteractionChoice :=
| ChoiceAllowOnce | ChoiceDeny | ChoiceCancel | ChoiceClarify | ChoiceBack | ChoiceSkip
| ChoiceNotApplicable | ChoiceOther (raw : string).

#[export] Instance Choice_eq_dec : EqDecision InboundInteractionChoice. Proof. solve_decision. Defined.

Definition Choice_string (c : InboundInteractionChoice) : string :=
  match c with
  | ChoiceAllowOnce => "allow_once" | ChoiceDeny => "deny" | ChoiceCancel => "cancel"
  | ChoiceClarify => "clarify" | ChoiceBack => "back" | ChoiceSkip => "skip"
  | ChoiceNotApplicable => "not_applicable" | ChoiceOther raw => raw
  end.

Abbreviation no_choice := (ChoiceOther "").

Record InboundMessageRelation := mkRelation { rel_Kind : string; rel_MediaOnly : bool }.
Record InboundMediaGroup := mkMediaGroup { mg_ID : string; mg_MessageIDs : list string }.
Record InboundInteractionProjection := mkProjection {
  ip_Choice : InboundInteractionChoice; ip_Response : string; ip_ResponseCandidate : string;
  ip_ShortID : string; ip_Unresolved : bool; ip_OptionIndex : option Z;
  ip_ResponseMessageID : string }.
Record InboundDocumentIntakeGuard := mkIntakeGuard {
  dg_JobID : string; dg_ModeID : string; dg_Reference : string; dg_ConversationHistory : bool;
  dg_Unavailable : bool }.
Record InboundContext := mkInboundContext {
  ic_Channel : string; ic_Account : string; ic_ChatID : string; ic_ChatType : string;
  ic_TopicID : string; ic_SpaceID : string; ic_SpaceType : string; ic_SenderID : string;
  ic_ActorID : string; ic_MessageID : string; ic_OriginID : string; ic_OriginType : string;
  ic_SourceRef : string; ic_ClientSessionID : string; ic_Mentioned : bool;
  ic_ReplyToMessageID : string; ic_ReplyToSenderID : string; ic_ReceivedAt : Time;
  ic_Relation : InboundMessageRelation; ic_MediaGroup : InboundMediaGroup;
  ic_Interaction : InboundInteractionProjection; ic_DocumentIntake : InboundDocumentIntakeGuard;
  ic_ReplyHandles : gmap string string; ic_Raw : gmap string string }.
#[export] Instance eta_MediaGroup : Eta InboundMediaGroup := fun g =>
  mkMediaGroup (mg_ID g) (mg_MessageIDs g).
#[export] Instance eta_Relation : Eta InboundMessageRelation := fun r =>
  mkRelation (rel_Kind r) (rel_MediaOnly r).
#[export] Instance eta_Projection : Eta InboundInteractionProjection := fun p =>
  mkProjection (ip_Choice p) (ip_Response p) (ip_ResponseCandidate p) (ip_ShortID p) (ip_Unresolved p)
    (ip_OptionIndex p) (ip_ResponseMessageID p).
#[export] Instance eta_InboundContext : Eta InboundContext := fun c =>
  mkInboundContext (ic_Channel c) (ic_Account c) (ic_ChatID c) (ic_ChatType c) (ic_TopicID c)
    (ic_SpaceID c) (ic_SpaceType c) (ic_SenderID c) (ic_ActorID c) (ic_MessageID c) (ic_OriginID c)
    (ic_OriginType c) (ic_SourceRef c) (ic_ClientSessionID c) (ic_Mentioned c)
    (ic_ReplyToMessageID c) (ic_ReplyToSenderID c) (ic_ReceivedAt c) (ic_Relation c)
    (ic_MediaGroup c) (ic_Interaction c) (ic_DocumentIntake c) (ic_ReplyHandles c) (ic_Raw c).

Definition InboundInteractionCancelLabel : string := of_bytes [226; 155; 148] +:+ " Cancel turn".

Definition Relation_json (r : InboundMessageRelation) : json := JObj (
  fstr_omit "kind" (rel_Kind r) ++ fbool_omit "media_only" (rel_MediaOnly r)).
Definition Relation_IsZero (r : InboundMessageRelation) : bool := String.eqb (rel_Kind r) "".
Definition MediaGroup_json (g : InboundMediaGroup) : json := JObj (
  fstr_omit "id" (mg_ID g) ++ flist_omit "message_ids" JStr (mg_MessageIDs g)).
Definition Projection_json (p : InboundInteractionProjection) : json := JObj (
  fstr_omit "choice" (Choice_string (ip_Choice p)) ++ fstr_omit "response" (ip_Response p) ++
  fstr_omit "response_candidate" (ip_ResponseCandidate p) ++ fstr_omit "short_id" (ip_ShortID p) ++
  fbool_omit "unresolved" (ip_Unresolved p) ++ fopt_omit "option_index" JInt (ip_OptionIndex p) ++
  fstr_omit "response_message_id" (ip_ResponseMessageID p)).
Definition Projection_IsZero (p : InboundInteractionProjection) : bool :=
  bool_decide (ip_Choice p = no_choice) && String.eqb (ip_Response p) ""
  && String.eqb (ip_ResponseCandidate p) "" && String.eqb (ip_ShortID p) ""
  && negb (ip_Unresolved p) && bool_decide (ip_OptionIndex p = None)
  && String.eqb (ip_ResponseMessageID p) "".
Definition IntakeGuard_json (g : InboundDocumentIntakeGuard) : json := JObj (
  fstr "job_id" (dg_JobID g) ++ fstr "mode_id" (dg_ModeID g) ++ fstr_omit "reference" (dg_Reference g) ++
  fbool_omit "conversation_history" (dg_ConversationHistory g) ++
  fbool_omit "unavailable" (dg_Unavailable g)).
Definition IntakeGuard_IsZero (g : InboundDocumentIntakeGuard) : bool :=
  String.eqb (dg_JobID g) "" && String.eqb (dg_ModeID g) "" && String.eqb (dg_Reference g) ""
  && negb (dg_Unavailable g) && negb (dg_ConversationHistory g).
Definition InboundContext_json (c : InboundContext) : json := JObj (
  fstr "channel" (ic_Channel c) ++ fstr_omit "account" (ic_Account c) ++ fstr "chat_id" (ic_ChatID c) ++
  fstr_omit "chat_type" (ic_ChatType c) ++ fstr_omit "topic_id" (ic_TopicID c) ++
  fstr_omit "space_id" (ic_SpaceID c) ++ fstr_omit "space_type" (ic_SpaceType c) ++
  fstr "sender_id" (ic_SenderID c) ++ fstr_omit "actor_id" (ic_ActorID c) ++
  fstr_omit "message_id" (ic_MessageID c) ++ fstr_omit "origin_id" (ic_OriginID c) ++
  fstr_omit "origin_type" (ic_OriginType c) ++ fstr_omit "source_ref" (ic_SourceRef c) ++
  fstr_omit "client_session_id" (ic_ClientSessionID c) ++ fbool_omit "mentioned" (ic_Mentioned c) ++
  fstr_omit "reply_to_message_id" (ic_ReplyToMessageID c) ++
  fstr_omit "reply_to_sender_id" (ic_ReplyToSenderID c) ++ ftime_omitzero "received_at" (ic_ReceivedAt c) ++
  field_omit "relation" (Relation_IsZero (ic_Relation c)) (Relation_json (ic_Relation c)) ++
  field_omit "media_group"
    (String.eqb (mg_ID (ic_MediaGroup c)) "" && bool_decide (mg_MessageIDs (ic_MediaGroup c) = []))
    (MediaGroup_json (ic_MediaGroup c)) ++
  field_omit "interaction" (Projection_IsZero (ic_Interaction c)) (Projection_json (ic_Interaction c)) ++
  field_omit "document_intake" (IntakeGuard_IsZero (ic_DocumentIntake c))
    (IntakeGuard_json (ic_DocumentIntake c)) ++
  fmap_omit "reply_handles" (ic_ReplyHandles c) ++ fmap_omit "raw" (ic_Raw c)).

(** The string conversion [InboundInteractionChoice(s)]. *)
Definition Choice_of (s : string) : InboundInteractionChoice :=
  if String.eqb s "allow_once" then ChoiceAllowOnce else if String.eqb s "deny" then ChoiceDeny
  else if String.eqb s "cancel" then ChoiceCancel else if String.eqb s "clarify" then ChoiceClarify
  else if String.eqb s "back" then ChoiceBack else if String.eqb s "skip" then ChoiceSkip
  else if String.eqb s "not_applicable" then ChoiceNotApplicable else ChoiceOther s.

(** ** Normalization *)

Section normalization.
Context `{UnicodeCase}.

Definition normalizeKind (kind : string) : string := to_lower (trim_space kind).

Definition defaultSourceRef (c : InboundContext) : string :=
  let channel := trim_space (ic_Channel c) in
  let chatID := trim_space (ic_ChatID c) in
  let messageID := trim_space (ic_MessageID c) in
  if String.eqb channel "" || String.eqb chatID "" || String.eqb messageID "" then ""
  else channel +:+ ":" +:+ chatID +:+ ":" +:+ messageID.

(** [cloneStringMap] of package [bus]. *)
Definition clone_string_map (src : gmap string string) : gmap string string :=
  if bool_decide (size src = 0%nat) then ∅ else src.

Definition normalizeInboundInteractionProjection (p : InboundInteractionProjection)
    : InboundInteractionProjection :=
  p <| ip_Choice ::= fun c => Choice_of (normalizeKind (Choice_string c)) |>
    <| ip_Response ::= trim_space |> <| ip_ResponseCandidate ::= trim_space |>
    <| ip_ShortID ::= trim_space |> <| ip_ResponseMessageID ::= trim_space |>.

Definition normalizeInboundContext (c : InboundContext) : InboundContext :=
  let c := c <| ic_Channel ::= trim_space |> <| ic_Account ::= trim_space |>
             <| ic_ChatID ::= trim_space |> <| ic_ChatType ::= normalizeKind |>
             <| ic_TopicID ::= trim_space |> <| ic_SpaceID ::= trim_space |>
             <| ic_SpaceType ::= normalizeKind |> <| ic_SenderID ::= trim_space |>
             <| ic_ActorID ::= trim_space |> in
  let c := if String.eqb (ic_ActorID c) "" then c <| ic_ActorID := ic_SenderID c |> else c in
  let c := c <| ic_MessageID ::= trim_space |> <| ic_OriginID ::= trim_space |>
             <| ic_OriginType ::= normalizeKind |> <| ic_SourceRef ::= trim_space |> in
  let c := if String.eqb (ic_SourceRef c) "" then c <| ic_SourceRef := defaultSourceRef c |> else c in
  let c := c <| ic_ClientSessionID ::= trim_space |> <| ic_ReplyToMessageID ::= trim_space |>
             <| ic_ReplyToSenderID ::= trim_space |> in
  let c := if IsZero (ic_ReceivedAt c) then c else c <| ic_ReceivedAt ::= UTC |> in
  c <| ic_Relation ::= fun r => r <| rel_Kind ::= normalizeKind |> |>
    <| ic_MediaGroup ::= fun g => g <| mg_ID ::= trim_space |>
                                    <| mg_MessageIDs ::= fmap trim_space |> |>
    <| ic_ReplyHandles ::= clone_string_map |> <| ic_Raw ::= clone_string_map |>
    <| ic_Interaction ::= normalizeInboundInteractionProjection |>.

Lemma normalizeInboundContext_route c :
  ic_Channel (normalizeInboundContext c) = trim_space (ic_Channel c)
  ∧ ic_ChatID (normalizeInboundContext c) = trim_space (ic_ChatID c).
Proof. unfold normalizeInboundContext. by repeat case_match. Qed.
End normalization.
