(* ===== verification/BusOutbound.v ===== *)
(** Package [pkg/bus], outbound side: the messages the agent hands to the
    channels ([types.go]), their delivery metadata ([outbound_metadata.go]) and
    their normalization ([outbound_context.go]), with [TraceScope] of
    [pkg/events].  An error is its message.

    A nil slice and an empty one are not distinguished; an empty [Parts] is
    marshalled as nil.  The copies the code makes of scopes, recoveries and
    tool calls are values here. *)
From S2P Require Import Prelude GoStrings GoJson GoTime TaskResult BusInbound.
#[local] Open Scope Z_scope.

Abbreviation failed msg := (Err (E := string) msg%string).

(** ** Data *)

Record OutboundEpoch := mkEpoch { oe_Strategy : string; oe_ID : string; oe_Start : Time }.
Record OutboundScope := mkScope {
  os_Version : Z; os_AgentID : string; os_Channel : string; os_Account : string;
  os_Dimensions : list string; os_Values : gmap string string; os_RouteScopeKey : string;
  os_Epoch : option OutboundEpoch }.
#[export] Instance eta_Scope : Eta OutboundScope := fun s =>
  mkScope (os_Version s) (os_AgentID s) (os_Channel s) (os_Account s) (os_Dimensions s) (os_Values s)
    (os_RouteScopeKey s) (os_Epoch s).
Record OutboundTranscriptProjection := mkTranscript {
  tr_DeliveryID : string; tr_AgentID : string; tr_SessionKey : string; tr_Scope : option OutboundScope;
  tr_Content : string; tr_Media : list string }.
#[export] Instance eta_Transcript : Eta OutboundTranscriptProjection := fun t =>
  mkTranscript (tr_DeliveryID t) (tr_AgentID t) (tr_SessionKey t) (tr_Scope t) (tr_Content t) (tr_Media t).
Record TraceScope := mkTraceScope { ts_Workspace : string; ts_TurnID : string }.
#[export] Instance TraceScope_eq_dec : EqDecision TraceScope. Proof. solve_decision. Defined.
Record ContextUsage := mkContextUsage {
  cu_UsedTokens : Z; cu_TotalTokens : Z; cu_HistoryTokens : Z; cu_CompressAtTokens : Z;
  cu_SummarizeAtTokens : Z; cu_UsedPercent : Z }.

Record OutboundToolCallFunction := mkToolFunction { tf_Name : string; tf_Arguments : string }.
Record OutboundToolCall := mkToolCall {
  tc_ID : string; tc_Type : string; tc_Function : option OutboundToolCallFunction;
  tc_ExtraContent : option string (* ToolFeedbackExplanation *) }.
#[export] Instance ToolFunction_eq_dec : EqDecision OutboundToolCallFunction. Proof. solve_decision. Defined.
#[export] Instance ToolCall_eq_dec : EqDecision OutboundToolCall. Proof. solve_decision. Defined.
Record OutboundMetadata := mkMetadata {
  md_MessageKind : string; md_ToolCalls : list OutboundToolCall; md_OutboundKind : string;
  md_ModelName : string; md_DefaultModelName : string; md_UsageInputTokens : Z;
  md_UsageOutputTokens : Z; md_UsageTotalTokens : Z; md_InteractionKind : string;
  md_InteractionControls : string; md_InteractionLanguage : string; md_Choices : list string;
  md_Actions : list InboundInteractionChoice; md_InteractionID : string;
  md_InteractionShortID : string; md_RequestID : string }.
#[export] Instance Metadata_eq_dec : EqDecision OutboundMetadata. Proof. solve_decision. Defined.
#[export] Instance eta_Metadata : Eta OutboundMetadata := fun m =>
  mkMetadata (md_MessageKind m) (md_ToolCalls m) (md_OutboundKind m) (md_ModelName m)
    (md_DefaultModelName m) (md_UsageInputTokens m) (md_UsageOutputTokens m) (md_UsageTotalTokens m)
    (md_InteractionKind m) (md_InteractionControls m) (md_InteractionLanguage m) (md_Choices m)
    (md_Actions m) (md_InteractionID m) (md_InteractionShortID m) (md_RequestID m).

Record OutboundMessage := mkMessage {
  om_DeliveryID : string; om_Channel : string; om_ChatID : string; om_Context : InboundContext;
  om_Metadata : OutboundMetadata; om_AgentID : string; om_SessionKey : string;
  om_TraceScopes : list TraceScope; om_TraceSettlement : bool; om_Scope : option OutboundScope;
  om_Transcript : option OutboundTranscriptProjection; om_ResultOutput : option ObjectiveOutput;
  om_Content : string; om_ReplyToMessageID : string; om_ContextUsage : option ContextUsage }.
#[export] Instance eta_Message : Eta OutboundMessage := fun m =>
  mkMessage (om_DeliveryID m) (om_Channel m) (om_ChatID m) (om_Context m) (om_Metadata m) (om_AgentID m)
    (om_SessionKey m) (om_TraceScopes m) (om_TraceSettlement m) (om_Scope m) (om_Transcript m)
    (om_ResultOutput m) (om_Content m) (om_ReplyToMessageID m) (om_ContextUsage m).
Record MediaPart := mkMediaPart {
  mp_Type : string; mp_Ref : string; mp_Caption : string; mp_Filename : string; mp_ContentType : string }.
(** [OutboundRecovery] is [taskresult.ArtifactRecovery]. *)
Record OutboundMediaMessage := mkMedia {
  mm_DeliveryID : string; mm_Channel : string; mm_ChatID : string; mm_Context : InboundContext;
  mm_Metadata : OutboundMetadata; mm_AgentID : string; mm_SessionKey : string;
  mm_TraceScopes : list TraceScope; mm_TraceSettlement : bool; mm_Scope : option OutboundScope;
  mm_Transcript : option OutboundTranscriptProjection; mm_Parts : list MediaPart;
  mm_Recovery : option ArtifactRecovery; mm_AdditionalRecovery : list ArtifactRecovery }.
#[export] Instance eta_Media : Eta OutboundMediaMessage := fun m =>
  mkMedia (mm_DeliveryID m) (mm_Channel m) (mm_ChatID m) (mm_Context m) (mm_Metadata m) (mm_AgentID m)
    (mm_SessionKey m) (mm_TraceScopes m) (mm_TraceSettlement m) (mm_Scope m) (mm_Transcript m)
    (mm_Parts m) (mm_Recovery m) (mm_AdditionalRecovery m).

Definition OutboundMessageKindThought : string := "thought".
Definition OutboundMessageKindToolFeedback : string := "tool_feedback".
Definition OutboundMessageKindToolCalls : string := "tool_calls".
Definition OutboundMessageKindFinalReply : string := "final_reply".
Definition OutboundMessageKindInteraction : string := "human_interaction".
Definition OutboundKindFinal : string := "final".
Definition OutboundKindInterim : string := "interim".
Definition OutboundInteractionApproval : string := "approval".
Definition OutboundInteractionQuestion : string := "question".
Definition OutboundInteractionControlsPrompt : string := "prompt".
Definition OutboundInteractionControlsRemove : string := "remove".
Definition OutboundRecoveryBrowserScreenshot : string := "browser_screenshot_claim".
Definition OutboundRecoveryBrowserDownload : string := "browser_download_claim".
Definition OutboundRecoveryDocumentFill : string := "document_fill_delivery".

(** ** JSON *)

Definition Epoch_json (e : OutboundEpoch) : json := JObj (
  fstr "strategy" (oe_Strategy e) ++ fstr "id" (oe_ID e) ++ ftime "start" (oe_Start e)).
Definition Scope_json (s : OutboundScope) : json := JObj (
  fint_omit "version" (os_Version s) ++ fstr_omit "agent_id" (os_AgentID s) ++
  fstr_omit "channel" (os_Channel s) ++ fstr_omit "account" (os_Account s) ++
  flist_omit "dimensions" JStr (os_Dimensions s) ++ fmap_omit "values" (os_Values s) ++
  fstr_omit "route_scope_key" (os_RouteScopeKey s) ++ fopt_omit "epoch" Epoch_json (os_Epoch s)).
Definition fopt {A} (name : string) (f : A → json) (o : option A) :=
  field name (match o with Some a => f a | None => JNull end).
Definition Transcript_json (t : OutboundTranscriptProjection) : json := JObj (
  fstr_omit "delivery_id" (tr_DeliveryID t) ++ fstr "agent_id" (tr_AgentID t) ++
  fstr "session_key" (tr_SessionKey t) ++ fopt "scope" Scope_json (tr_Scope t) ++
  fstr_omit "content" (tr_Content t) ++ flist_omit "media" JStr (tr_Media t)).
Definition TraceScope_json (t : TraceScope) : json := JObj (
  fstr_omit "workspace" (ts_Workspace t) ++ fstr_omit "turn_id" (ts_TurnID t)).
Definition ContextUsage_json (u : ContextUsage) : json := JObj (
  fint "used_tokens" (cu_UsedTokens u) ++ fint "total_tokens" (cu_TotalTokens u) ++
  fint "history_tokens" (cu_HistoryTokens u) ++ fint "compress_at_tokens" (cu_CompressAtTokens u) ++
  fint "summarize_at_tokens" (cu_SummarizeAtTokens u) ++ fint "used_percent" (cu_UsedPercent u)).
Definition ToolFunction_json (f : OutboundToolCallFunction) : json := JObj (
  fstr_omit "name" (tf_Name f) ++ fstr_omit "arguments" (tf_Arguments f)).
Definition ToolCall_json (c : OutboundToolCall) : json := JObj (
  fstr_omit "id" (tc_ID c) ++ fstr_omit "type" (tc_Type c) ++
  fopt_omit "function" ToolFunction_json (tc_Function c) ++
  fopt_omit "extra_content" (fun e => JObj (fstr_omit "tool_feedback_explanation" e)) (tc_ExtraContent c)).
Definition Metadata_json (m : OutboundMetadata) : json := JObj (
  fstr_omit "message_kind" (md_MessageKind m) ++ flist_omit "tool_calls" ToolCall_json (md_ToolCalls m) ++
  fstr_omit "outbound_kind" (md_OutboundKind m) ++ fstr_omit "model_name" (md_ModelName m) ++
  fstr_omit "default_model_name" (md_DefaultModelName m) ++
  fint_omit "usage_input_tokens" (md_UsageInputTokens m) ++
  fint_omit "usage_output_tokens" (md_UsageOutputTokens m) ++
  fint_omit "usage_total_tokens" (md_UsageTotalTokens m) ++
  fstr_omit "interaction_kind" (md_InteractionKind m) ++
  fstr_omit "interaction_controls" (md_InteractionControls m) ++
  fstr_omit "interaction_language" (md_InteractionLanguage m) ++
  flist_omit "interaction_choices" JStr (md_Choices m) ++
  flist_omit "interaction_actions" (fun a => JStr (Choice_string a)) (md_Actions m) ++
  fstr_omit "interaction_id" (md_InteractionID m) ++
  fstr_omit "interaction_short_id" (md_InteractionShortID m) ++ fstr_omit "request_id" (md_RequestID m)).
Definition Metadata_IsZero (m : OutboundMetadata) : bool :=
  String.eqb (md_MessageKind m) "" && bool_decide (md_ToolCalls m = []) && String.eqb (md_OutboundKind m) ""
  && String.eqb (md_ModelName m) "" && String.eqb (md_DefaultModelName m) ""
  && (md_UsageInputTokens m =? 0) && (md_UsageOutputTokens m =? 0) && (md_UsageTotalTokens m =? 0)
  && String.eqb (md_InteractionKind m) "" && String.eqb (md_InteractionControls m) ""
  && bool_decide (md_Choices m = []) && bool_decide (md_Actions m = [])
  && String.eqb (md_InteractionID m) "" && String.eqb (md_InteractionShortID m) ""
  && String.eqb (md_RequestID m) "" && String.eqb (md_InteractionLanguage m) "".
Definition Message_json (m : OutboundMessage) : json := JObj (
  fstr_omit "delivery_id" (om_DeliveryID m) ++ fstr "channel" (om_Channel m) ++
  fstr "chat_id" (om_ChatID m) ++ field "context" (InboundContext_json (om_Context m)) ++
  field_omit "metadata" (Metadata_IsZero (om_Metadata m)) (Metadata_json (om_Metadata m)) ++
  fstr_omit "agent_id" (om_AgentID m) ++ fstr_omit "session_key" (om_SessionKey m) ++
  flist_omit "trace_scopes" TraceScope_json (om_TraceScopes m) ++
  fbool_omit "trace_settlement" (om_TraceSettlement m) ++ fopt_omit "scope" Scope_json (om_Scope m) ++
  fopt_omit "transcript" Transcript_json (om_Transcript m) ++
  fopt_omit "result_output" ObjectiveOutput_json (om_ResultOutput m) ++ fstr "content" (om_Content m) ++
  fstr_omit "reply_to_message_id" (om_ReplyToMessageID m) ++
  fopt_omit "context_usage" ContextUsage_json (om_ContextUsage m)).
Definition MediaPart_json (p : MediaPart) : json := JObj (
  fstr "type" (mp_Type p) ++ fstr "ref" (mp_Ref p) ++ fstr_omit "caption" (mp_Caption p) ++
  fstr_omit "filename" (mp_Filename p) ++ fstr_omit "content_type" (mp_ContentType p)).
Definition Media_json (m : OutboundMediaMessage) : json := JObj (
  fstr_omit "delivery_id" (mm_DeliveryID m) ++ fstr "channel" (mm_Channel m) ++
  fstr "chat_id" (mm_ChatID m) ++ field "context" (InboundContext_json (mm_Context m)) ++
  field_omit "metadata" (Metadata_IsZero (mm_Metadata m)) (Metadata_json (mm_Metadata m)) ++
  fstr_omit "agent_id" (mm_AgentID m) ++ fstr_omit "session_key" (mm_SessionKey m) ++
  flist_omit "trace_scopes" TraceScope_json (mm_TraceScopes m) ++
  fbool_omit "trace_settlement" (mm_TraceSettlement m) ++ fopt_omit "scope" Scope_json (mm_Scope m) ++
  fopt_omit "transcript" Transcript_json (mm_Transcript m) ++
  field "parts" (match mm_Parts m with [] => JNull | l => JArr (MediaPart_json <$> l) end) ++
  fopt_omit "recovery" ArtifactRecovery_json (mm_Recovery m) ++
  flist_omit "additional_recovery" ArtifactRecovery_json (mm_AdditionalRecovery m)).

(** The times in a message that [json.Marshal] may refuse. *)
Definition Scope_marshals (o : option OutboundScope) : bool :=
  match o with
  | Some s => match os_Epoch s with Some e => time_marshals (oe_Start e) | None => true end
  | None => true
  end.
Definition Transcript_marshals (o : option OutboundTranscriptProjection) : bool :=
  match o with Some t => Scope_marshals (tr_Scope t) | None => true end.
Definition Message_marshals (m : OutboundMessage) : bool :=
  time_marshals (ic_ReceivedAt (om_Context m)) && Scope_marshals (om_Scope m)
  && Transcript_marshals (om_Transcript m).
Definition Media_marshals (m : OutboundMediaMessage) : bool :=
  time_marshals (ic_ReceivedAt (mm_Context m)) && Scope_marshals (mm_Scope m)
  && Transcript_marshals (mm_Transcript m).

(** ** Metadata *)

Section metadata.
Context `{UnicodeCase}.
Implicit Types m : OutboundMetadata.

Definition normalizeOutboundToolCalls (calls : list OutboundToolCall) : list OutboundToolCall :=
  (fun c => mkToolCall (trim_space (tc_ID c)) (trim_space (tc_Type c))
              ((fun f => mkToolFunction (trim_space (tf_Name f)) (trim_space (tf_Arguments f))) <$> tc_Function c)
              (trim_space <$> tc_ExtraContent c)) <$> calls.

(** Either every choice is admissible, or none is kept. *)
Fixpoint choices_loop (choices : list string) : option (list string) :=
  match choices with
  | [] => Some []
  | choice :: l =>
      let choice := trim_space choice in
      if String.eqb choice "" || (64 <? rune_count choice) then None
      else cons choice <$> choices_loop l
  end.
Definition normalizeOutboundInteractionChoices (choices : list string) : list string :=
  if bool_decide (3 < length choices)%nat then [] else default [] (choices_loop choices).

Definition outbound_action (a : InboundInteractionChoice) : bool :=
  match a with ChoiceClarify | ChoiceBack | ChoiceSkip | ChoiceNotApplicable => true | _ => false end.
Fixpoint actions_loop (seen actions : list InboundInteractionChoice) : option (list InboundInteractionChoice) :=
  match actions with
  | [] => Some []
  | action :: l =>
      if negb (outbound_action action) || bool_decide (action ∈ seen) then None
      else cons action <$> actions_loop (action :: seen) l
  end.
Definition normalizeOutboundInteractionActions (actions : list InboundInteractionChoice)
    : list InboundInteractionChoice :=
  if bool_decide (4 < length actions)%nat then [] else default [] (actions_loop [] actions).

Definition NormalizeOutboundMetadata m : OutboundMetadata :=
  m <| md_MessageKind ::= trim_space |> <| md_ToolCalls ::= normalizeOutboundToolCalls |>
    <| md_OutboundKind ::= trim_space |> <| md_ModelName ::= trim_space |>
    <| md_DefaultModelName ::= trim_space |> <| md_InteractionKind ::= trim_space |>
    <| md_InteractionControls ::= trim_space |>
    <| md_InteractionLanguage ::= fun s => to_lower (trim_space s) |>
    <| md_InteractionID ::= trim_space |> <| md_InteractionShortID ::= trim_space |>
    <| md_RequestID ::= trim_space |>
    <| md_UsageInputTokens ::= Z.max 0 |> <| md_UsageOutputTokens ::= Z.max 0 |>
    <| md_UsageTotalTokens ::= Z.max 0 |>
    <| md_Choices ::= normalizeOutboundInteractionChoices |>
    <| md_Actions ::= normalizeOutboundInteractionActions |>.

Definition validOutboundMessageKind (kind : string) : bool :=
  bool_decide (kind ∈ [""; OutboundMessageKindThought; OutboundMessageKindToolFeedback;
    OutboundMessageKindToolCalls; OutboundMessageKindFinalReply; OutboundMessageKindInteraction]).
Definition validOutboundKind (kind : string) : bool :=
  bool_decide (kind ∈ [""; OutboundKindFinal; OutboundKindInterim]).
Definition validOutboundInteractionKind (kind : string) : bool :=
  bool_decide (kind ∈ [""; OutboundInteractionApproval; OutboundInteractionQuestion]).
Definition validOutboundInteractionControls (controls : string) : bool :=
  bool_decide (controls ∈ [""; OutboundInteractionControlsPrompt; OutboundInteractionControlsRemove]).

Definition tool_call_filled (c : OutboundToolCall) : bool :=
  match tc_Function c with
  | Some f => negb (blank (tf_Name f)) || negb (blank (tf_Arguments f))
  | None => false
  end || match tc_ExtraContent c with Some e => negb (blank e) | None => false end.
Definition validateOutboundToolCalls m : result string () :=
  if String.eqb (md_MessageKind m) OutboundMessageKindToolCalls then
    reject bool_decide (md_ToolCalls m = []) with "outbound tool_calls message requires a non-empty tool call array"%string ;;
    check_all (fun c => reject negb (tool_call_filled c)
      with "outbound tool_calls message contains an empty tool call"%string ;; Ok tt) (md_ToolCalls m)
  else
    reject negb (bool_decide (md_ToolCalls m = []))
      with "outbound tool calls require the tool_calls message kind"%string ;; Ok tt.

Definition IsQuestionPrompt m : bool :=
  equal_fold (md_InteractionKind m) OutboundInteractionQuestion
  && equal_fold (md_InteractionControls m) OutboundInteractionControlsPrompt.

(** The language, the kinds and all other fields are compared: the metadata
    must equal its normal form. *)
Definition ValidateOutboundMetadata m : result string () :=
  reject negb (bool_decide (m = NormalizeOutboundMetadata m)) with "outbound metadata is not canonical"%string ;;
  reject negb (validOutboundMessageKind (md_MessageKind m)) with "unsupported outbound message kind"%string ;;
  reject negb (validOutboundKind (md_OutboundKind m)) with "unsupported outbound kind"%string ;;
  reject negb (validOutboundInteractionKind (md_InteractionKind m)) with "unsupported outbound interaction kind"%string ;;
  reject negb (validOutboundInteractionControls (md_InteractionControls m))
    with "unsupported outbound interaction controls"%string ;;
  validateOutboundToolCalls m ≫= fun _ =>
  reject negb (String.eqb (md_InteractionControls m) "") && String.eqb (md_InteractionKind m) ""
    with "outbound interaction controls require an interaction kind"%string ;;
  reject String.eqb (md_InteractionControls m) OutboundInteractionControlsPrompt
         && (String.eqb (md_InteractionID m) "" || String.eqb (md_InteractionShortID m) "")
    with "outbound interaction prompt requires interaction ID and short ID"%string ;;
  reject negb (bool_decide (md_Choices m = []))
         && (negb (String.eqb (md_InteractionKind m) OutboundInteractionQuestion)
             || negb (String.eqb (md_InteractionControls m) OutboundInteractionControlsPrompt))
    with "outbound interaction choices require a question prompt"%string ;;
  reject negb (bool_decide (md_Actions m = [])) && negb (IsQuestionPrompt m)
    with "outbound interaction actions require a question prompt"%string ;;
  Ok tt.

(** [Merge] *)
Definition merge_string (old new : string) : string := if String.eqb new "" then old else new.
Definition merge_count (old new : Z) : Z := if 0 <? new then new else old.
Definition merge_list {A} (old new : list A) : list A := match new with [] => old | _ => new end.
Definition Merge m (u : OutboundMetadata) : OutboundMetadata :=
  let u := NormalizeOutboundMetadata u in
  let m := m <| md_MessageKind ::= fun x => merge_string x (md_MessageKind u) |>
    <| md_ToolCalls ::= fun x => merge_list x (normalizeOutboundToolCalls (md_ToolCalls u)) |>
    <| md_OutboundKind ::= fun x => merge_string x (md_OutboundKind u) |>
    <| md_ModelName ::= fun x => merge_string x (md_ModelName u) |>
    <| md_DefaultModelName ::= fun x => merge_string x (md_DefaultModelName u) |>
    <| md_UsageInputTokens ::= fun x => merge_count x (md_UsageInputTokens u) |>
    <| md_UsageOutputTokens ::= fun x => merge_count x (md_UsageOutputTokens u) |>
    <| md_UsageTotalTokens ::= fun x => merge_count x (md_UsageTotalTokens u) |>
    <| md_InteractionKind ::= fun x => merge_string x (md_InteractionKind u) |>
    <| md_InteractionControls ::= fun x => merge_string x (md_InteractionControls u) |>
    <| md_InteractionLanguage ::= fun x => merge_string x (md_InteractionLanguage u) |>
    <| md_Choices ::= fun x => merge_list x (md_Choices u) |>
    <| md_Actions ::= fun x => merge_list x (md_Actions u) |>
    <| md_InteractionID ::= fun x => merge_string x (md_InteractionID u) |>
    <| md_InteractionShortID ::= fun x => merge_string x (md_InteractionShortID u) |>
    <| md_RequestID ::= fun x => merge_string x (md_RequestID u) |> in
  NormalizeOutboundMetadata m.
End metadata.

(** ** Messages *)

Definition normalizeOutboundTranscriptProjection (p : option OutboundTranscriptProjection)
    : result string (option OutboundTranscriptProjection) :=
  match p with
  | None => Ok None
  | Some t =>
      let t := t <| tr_DeliveryID ::= trim_space |> <| tr_AgentID ::= trim_space |>
                 <| tr_SessionKey ::= trim_space |>
                 <| tr_Media ::= fun l => filter (fun ref => ref ≠ "") (trim_space <$> l) |> in
      match tr_Scope t with
      | None => failed "invalid outbound transcript projection"
      | Some scope =>
          reject String.eqb (tr_AgentID t) "" || String.eqb (tr_SessionKey t) ""
                 || blank (tr_Content t) && bool_decide (tr_Media t = [])
            with "invalid outbound transcript projection"%string ;;
          let scopeAgentID := trim_space (os_AgentID scope) in
          reject String.eqb scopeAgentID "" || negb (String.eqb scopeAgentID (tr_AgentID t))
            with "outbound transcript projection scope does not match agent"%string ;;
          Ok (Some (t <| tr_Scope := Some (scope <| os_AgentID := scopeAgentID |>) |>))
      end
  end.

Definition bindOutboundTranscriptDeliveryID (deliveryID : string) (p : option OutboundTranscriptProjection)
    : result string (option OutboundTranscriptProjection) :=
  match p with
  | None => Ok None
  | Some t =>
      let deliveryID := trim_space deliveryID in
      if String.eqb deliveryID "" then Ok (Some t) else
      reject negb (String.eqb (tr_DeliveryID t) "") && negb (String.eqb (tr_DeliveryID t) deliveryID)
        with "outbound transcript projection delivery identity does not match message"%string ;;
      Ok (Some (t <| tr_DeliveryID := deliveryID |>))
  end.

Definition NewTraceScope (workspace turnID : string) : TraceScope :=
  mkTraceScope (trim_space workspace) (trim_space turnID).
Definition TraceScope_Complete (t : TraceScope) : bool :=
  negb (blank (ts_Workspace t)) && negb (blank (ts_TurnID t)).

Fixpoint trace_loop (workspace : string) (normalized scopes : list TraceScope)
    : result string (list TraceScope) :=
  match scopes with
  | [] => Ok normalized
  | scope :: l =>
      let scope := NewTraceScope (ts_Workspace scope) (ts_TurnID scope) in
      if negb (TraceScope_Complete scope) then trace_loop workspace normalized l
      else if negb (String.eqb workspace "") && negb (String.eqb (ts_Workspace scope) workspace)
      then failed "outbound trace scopes span multiple workspaces"
      else trace_loop (if String.eqb workspace "" then ts_Workspace scope else workspace)
             (if bool_decide (scope ∈ normalized) then normalized else normalized ++ [scope]) l
  end.
Definition NormalizeTraceScopes (scopes : list TraceScope) : result string (list TraceScope) :=
  trace_loop "" [] scopes.

(** *** Recovery prerequisites of media *)

Definition recovery_value_ok (value : string) : bool :=
  negb (blank value) && String.eqb (trim_space value) value && (len value <=? 512).

Abbreviation invalid_recovery := "invalid outbound recovery prerequisite"%string.

Definition validateOutboundRecovery (r : ArtifactRecovery) (parts : list MediaPart) : result string () :=
  reject negb (String.prefix "media://" (ar_MediaRef r)) with invalid_recovery ;;
  (if String.eqb (ar_Kind r) OutboundRecoveryBrowserScreenshot
      || String.eqb (ar_Kind r) OutboundRecoveryBrowserDownload then
     reject negb (String.prefix "transfer-artifact://" (ar_ArtifactRef r))
            || negb (String.eqb (ar_AuthorityKind r) "") || negb (String.eqb (ar_OperationID r) "")
            || negb (String.eqb (ar_DomainDeliveryID r) "") || negb (String.eqb (ar_DomainJobID r) "")
            || negb (String.eqb (ar_DomainOwnerDigest r) "")
       with invalid_recovery ;;
     reject negb (forallb recovery_value_ok
       [ar_ArtifactRef r; ar_MediaRef r; ar_WorkspaceID r; ar_AgentID r; ar_ActorID r; ar_RouteID r;
        ar_SessionID r; ar_ToolCallID r]) with invalid_recovery ;;
     Ok tt
   else if String.eqb (ar_Kind r) OutboundRecoveryDocumentFill then
     reject negb (String.eqb (ar_ArtifactRef r) "") || negb (String.eqb (ar_ToolCallID r) "")
            || blank (ar_AuthorityKind r) || blank (ar_OperationID r) || blank (ar_DomainDeliveryID r)
            || negb (Bool.eqb (String.eqb (ar_DomainJobID r) "") (String.eqb (ar_DomainOwnerDigest r) ""))
       with invalid_recovery ;;
     reject negb (forallb recovery_value_ok
       ([ar_MediaRef r; ar_WorkspaceID r; ar_AgentID r; ar_ActorID r; ar_RouteID r; ar_SessionID r;
         ar_AuthorityKind r; ar_OperationID r; ar_DomainDeliveryID r]
        ++ if String.eqb (ar_DomainJobID r) "" then [] else [ar_DomainJobID r; ar_DomainOwnerDigest r]))
       with invalid_recovery ;;
     Ok tt
   else Err invalid_recovery) ≫= fun _ =>
  reject negb (existsb (fun part => String.eqb (mp_Ref part) (ar_MediaRef r)) parts)
    with "outbound recovery media is not attached"%string ;;
  Ok tt.

Definition browser_claim (kind : string) : bool :=
  String.eqb kind OutboundRecoveryBrowserScreenshot || String.eqb kind OutboundRecoveryBrowserDownload.

Fixpoint recoveries_loop (primary : ArtifactRecovery) (parts : list MediaPart) (seen artifacts : list string)
    (l : list ArtifactRecovery) : result string () :=
  match l with
  | [] => Ok tt
  | r :: l' =>
      reject bool_decide (ar_MediaRef r ∈ seen) || bool_decide (ar_ArtifactRef r ∈ artifacts)
             || negb (String.eqb (ar_WorkspaceID r) (ar_WorkspaceID primary))
             || negb (String.eqb (ar_ActorID r) (ar_ActorID primary))
             || negb (String.eqb (ar_RouteID r) (ar_RouteID primary))
             || negb (browser_claim (ar_Kind primary)) || negb (browser_claim (ar_Kind r))
        with "invalid outbound recovery batch"%string ;;
      validateOutboundRecovery r parts ≫= fun _ =>
      recoveries_loop primary parts (ar_MediaRef r :: seen) (ar_ArtifactRef r :: artifacts) l'
  end.

Definition validateOutboundRecoveries (primary : option ArtifactRecovery)
    (additional : list ArtifactRecovery) (parts : list MediaPart) : result string () :=
  match primary with
  | None =>
      reject negb (bool_decide (additional = [])) with "outbound recovery batch has no primary prerequisite"%string ;;
      Ok tt
  | Some r =>
      validateOutboundRecovery r parts ≫= fun _ =>
      reject bool_decide (15 < length additional)%nat with "too many outbound recovery prerequisites"%string ;;
      recoveries_loop r parts [ar_MediaRef r] [ar_ArtifactRef r] additional
  end.

Section messages.
Context `{UnicodeCase}.

Definition default_string (fallback s : string) : string := if String.eqb s "" then fallback else s.

(** Mirrors between the message and its context. *)
Definition route_message (m : OutboundMessage) : OutboundMessage :=
  let m := m <| om_Channel ::= trim_space |> <| om_ChatID ::= trim_space |>
             <| om_ReplyToMessageID ::= trim_space |> in
  let m := m <| om_Context ::= fun c =>
    normalizeInboundContext (c <| ic_Channel ::= default_string (om_Channel m) |>
      <| ic_ChatID ::= default_string (om_ChatID m) |>
      <| ic_ReplyToMessageID ::= default_string (om_ReplyToMessageID m) |>) |> in
  let m := m <| om_Channel ::= default_string (ic_Channel (om_Context m)) |>
             <| om_ChatID ::= default_string (ic_ChatID (om_Context m)) |>
             <| om_ReplyToMessageID ::= default_string (ic_ReplyToMessageID (om_Context m)) |> in
  m <| om_Context ::= fun c => c <| ic_ReplyToMessageID ::= default_string (om_ReplyToMessageID m) |> |>.

Definition NormalizeOutboundMessage (m : OutboundMessage) : result string OutboundMessage :=
  let m := route_message m in
  transcript ← normalizeOutboundTranscriptProjection (om_Transcript m);
  transcript ← bindOutboundTranscriptDeliveryID (om_DeliveryID m) transcript;
  let m := m <| om_Transcript := transcript |> <| om_ResultOutput ::= CloneObjectiveOutput |>
             <| om_Metadata ::= NormalizeOutboundMetadata |> in
  scopes ← NormalizeTraceScopes (om_TraceScopes m);
  Ok (m <| om_TraceScopes := scopes |>
        <| om_TraceSettlement ::= fun b => b && negb (bool_decide (scopes = [])) |>).

Definition route_media (m : OutboundMediaMessage) : OutboundMediaMessage :=
  let m := m <| mm_Channel ::= trim_space |> <| mm_ChatID ::= trim_space |> in
  let m := m <| mm_Context ::= fun c =>
    normalizeInboundContext (c <| ic_Channel ::= default_string (mm_Channel m) |>
      <| ic_ChatID ::= default_string (mm_ChatID m) |>) |> in
  m <| mm_Channel ::= default_string (ic_Channel (mm_Context m)) |>
    <| mm_ChatID ::= default_string (ic_ChatID (mm_Context m)) |>.

Definition NormalizeOutboundMediaMessage (m : OutboundMediaMessage) : result string OutboundMediaMessage :=
  let m := route_media m in
  transcript ← normalizeOutboundTranscriptProjection (mm_Transcript m);
  transcript ← bindOutboundTranscriptDeliveryID (mm_DeliveryID m) transcript;
  let m := m <| mm_Transcript := transcript |> <| mm_Metadata ::= NormalizeOutboundMetadata |> in
  validateOutboundRecoveries (mm_Recovery m) (mm_AdditionalRecovery m) (mm_Parts m) ≫= fun _ =>
  let m := m <| mm_Recovery ::= CloneArtifactRecovery |> in
  scopes ← NormalizeTraceScopes (mm_TraceScopes m);
  Ok (m <| mm_TraceScopes := scopes |>
        <| mm_TraceSettlement ::= fun b => b && negb (bool_decide (scopes = [])) |>).

Lemma bind_transcript_id id t t' :
  trim_space id = id → id ≠ "" → bindOutboundTranscriptDeliveryID id t = Ok t' →
  match t' with Some t => tr_DeliveryID t = id | None => True end.
Proof.
  intros Hid Hne. destruct t as [t|]; cbn; [|by intros [= <-]]. rewrite Hid.
  destruct (String.eqb id "") eqn:E; [by apply String.eqb_eq in E|].
  destruct (_ && _); [done|]. by intros [= <-].
Qed.
End messages.
