(* ===== verification/OutboxTypes.v ===== *)
(** Package [pkg/outbox], data and validation: the durable record of one
    outbound delivery, its JSON form, the identity of a delivery and the checks
    on new and stored records ([outbox.go], [retired_payload.go],
    [inspection.go]).

    The code distinguishes a nil payload from none; a payload is an option. *)
From S2P Require Import Prelude GoStrings GoJson GoTime TaskResult BusInbound BusOutbound.
#[local] Open Scope Z_scope.

Definition recordVersion : Z := 3.
Definition retentionRecordVersion : Z := 4.
Definition deliveryIdentityVersion : Z := 3.
Definition MaxDeliveryAttempts : Z := 3.
Definition interruptedAttemptError : string := "process stopped before the delivery outcome was persisted".
Definition retentionPlainMessage : string := "plain_message".
Definition retentionSourcePending : string := "native_final_source_pending".
Definition MaxInspectionBytes : Z := 2 * 1024 * 1024.
Definition MaxRetirementBatch : nat := 64.
Definition maxRetiredReceiptBytes : Z := 16 * 1024.

Inductive Status :=
| StatusPending | StatusAttempting | StatusDelivered | StatusDefinitelyFailed | StatusAbandoned
| StatusAmbiguous | StatusOther (raw : string).
Inductive Kind := KindMessage | KindMedia | KindOther (raw : string).
#[export] Instance Status_eq_dec : EqDecision Status. Proof. solve_decision. Defined.
#[export] Instance Kind_eq_dec : EqDecision Kind. Proof. solve_decision. Defined.
Definition Status_string (s : Status) : string :=
  match s with
  | StatusPending => "pending" | StatusAttempting => "attempting" | StatusDelivered => "delivered"
  | StatusDefinitelyFailed => "definitely_failed" | StatusAbandoned => "abandoned"
  | StatusAmbiguous => "ambiguous" | StatusOther raw => raw
  end.
Definition Kind_string (k : Kind) : string :=
  match k with KindMessage => "message" | KindMedia => "media" | KindOther raw => raw end.

Record Identity := mkIdentity {
  di_SourceID : string; di_Ordinal : Z; di_Kind : Kind; di_Channel : string; di_ChatID : string;
  di_SessionKey : string }.
#[export] Instance eta_Identity : Eta Identity := fun i =>
  mkIdentity (di_SourceID i) (di_Ordinal i) (di_Kind i) (di_Channel i) (di_ChatID i) (di_SessionKey i).

Record Intent := mkIntent {
  it_Version : Z; it_ID : string; it_OwnerWorkspace : string; it_Identity : Identity;
  it_Status : Status; it_Message : option OutboundMessage; it_Media : option OutboundMediaMessage;
  it_Attempts : Z; it_PlatformMessageIDs : list string; it_RetryAfter : Time; it_LastError : string;
  it_RecoverySettled : bool; it_TranscriptProjected : bool; it_CreatedAt : Time; it_UpdatedAt : Time;
  it_RetentionClass : string; it_PayloadRetired : bool; it_PayloadRetiredAt : Time }.
#[export] Instance eta_Intent : Eta Intent := fun i =>
  mkIntent (it_Version i) (it_ID i) (it_OwnerWorkspace i) (it_Identity i) (it_Status i) (it_Message i)
    (it_Media i) (it_Attempts i) (it_PlatformMessageIDs i) (it_RetryAfter i) (it_LastError i)
    (it_RecoverySettled i) (it_TranscriptProjected i) (it_CreatedAt i) (it_UpdatedAt i)
    (it_RetentionClass i) (it_PayloadRetired i) (it_PayloadRetiredAt i).

Record Outcome := mkOutcome { oc_PlatformMessageIDs : list string; oc_RetryAfter : Time; oc_Error : string }.
Definition no_outcome : Outcome := mkOutcome [] zero_time "".

(** [errors.As] with a [json.SyntaxError] tells the two decoding errors apart. *)
Inductive DecodeError := SyntaxError | TypeError.

Inductive Error :=
| ErrNotExist | ErrPermission | ErrRead
| ErrDecode (e : DecodeError) | ErrInvalid (detail : string) | ErrFilename
| ErrIdentityConflict | ErrTransition (from next : Status)
| ErrNoSettlement | ErrNoProjection | ErrEncode | ErrWrite (committed : bool) | ErrDirectory
| ErrNotRetirable | ErrRetiredPayload (receipt : Intent) | ErrInspection
| ErrClosed | ErrLeaseRequired | ErrStaleLease | ErrStalePublication | ErrNotPrepared
| ErrNotPublished | ErrAttemptActive | ErrNoAttempt | ErrReleased | ErrNotDispatchable (status : Status)
| ErrPublicationReached | ErrReceiptInvalid | ErrNoTerminalReceipt | ErrContext.

Abbreviation invalid msg := (ErrInvalid msg%string).

(** ** JSON *)

Definition Identity_json (i : Identity) : json := JObj (
  fstr "source_id" (di_SourceID i) ++ fint "ordinal" (di_Ordinal i) ++
  fstr "kind" (Kind_string (di_Kind i)) ++ fstr "channel" (di_Channel i) ++
  fstr "chat_id" (di_ChatID i) ++ fstr_omit "session_key" (di_SessionKey i)).
Definition Intent_json (i : Intent) : json := JObj (
  fint "version" (it_Version i) ++ fstr "id" (it_ID i) ++ fstr "owner_workspace" (it_OwnerWorkspace i) ++
  field "identity" (Identity_json (it_Identity i)) ++ fstr "status" (Status_string (it_Status i)) ++
  fopt_omit "message" Message_json (it_Message i) ++ fopt_omit "media" Media_json (it_Media i) ++
  fint_omit "attempts" (it_Attempts i) ++
  flist_omit "platform_message_ids" JStr (it_PlatformMessageIDs i) ++
  ftime "retry_after" (it_RetryAfter i) ++ fstr_omit "last_error" (it_LastError i) ++
  fbool_omit "recovery_settled" (it_RecoverySettled i) ++
  fbool_omit "transcript_projected" (it_TranscriptProjected i) ++
  ftime "created_at" (it_CreatedAt i) ++ ftime "updated_at" (it_UpdatedAt i) ++
  fstr_omit "retention_class" (it_RetentionClass i) ++ fbool_omit "payload_retired" (it_PayloadRetired i) ++
  ftime_omitzero "payload_retired_at" (it_PayloadRetiredAt i)).
Definition Intent_marshals (i : Intent) : bool :=
  time_marshals (it_RetryAfter i) && time_marshals (it_CreatedAt i) && time_marshals (it_UpdatedAt i)
  && time_marshals (it_PayloadRetiredAt i)
  && match it_Message i with Some m => Message_marshals m | None => true end
  && match it_Media i with Some m => Media_marshals m | None => true end.
(** The text of a record file, before the final line break. *)
Definition Intent_text (i : Intent) : string := marshal_indent "" "  " (Intent_json i).
Definition Intent_file (i : Intent) : string := Intent_text i +:+ of_bytes [10].

(** ** What an intent still owes *)

Definition isTerminalStatus (s : Status) : bool :=
  match s with
  | StatusDelivered | StatusDefinitelyFailed | StatusAbandoned | StatusAmbiguous => true
  | _ => false
  end.
Definition validStatus (s : Status) : bool := match s with StatusOther _ => false | _ => true end.

Definition RetryExhausted (i : Intent) : bool :=
  bool_decide (it_Status i = StatusDefinitelyFailed) && (MaxDeliveryAttempts <=? it_Attempts i).
Definition RequiresRecoverySettlement (i : Intent) : bool :=
  match it_Media i ≫= mm_Recovery with
  | Some r => String.eqb (ar_Kind r) OutboundRecoveryDocumentFill
              && negb (String.eqb (ar_DomainJobID r) "") && negb (String.eqb (ar_DomainOwnerDigest r) "")
  | None => false
  end.
Definition RecoverySettlementPending (i : Intent) : bool :=
  RequiresRecoverySettlement i && isTerminalStatus (it_Status i) && negb (it_RecoverySettled i).
Definition transcriptProjection (i : Intent) : option OutboundTranscriptProjection :=
  match it_Message i with
  | Some m => om_Transcript m
  | None => match it_Media i with Some m => mm_Transcript m | None => None end
  end.
Definition RequiresTranscriptProjection (i : Intent) : bool := bool_decide (is_Some (transcriptProjection i)).
Definition TranscriptProjectionPending (i : Intent) : bool :=
  bool_decide (it_Status i = StatusDelivered) && RequiresTranscriptProjection i
  && negb (it_TranscriptProjected i).

(** ** Identity *)

Definition normalizeIdentity (i : Identity) : Identity :=
  i <| di_SourceID ::= trim_space |> <| di_Channel ::= trim_space |> <| di_ChatID ::= trim_space |>
    <| di_SessionKey ::= trim_space |>.

Definition validateIdentity (i : Identity) : result Error () :=
  reject String.eqb (di_SourceID i) "" with invalid "outbox source identity is required" ;;
  reject di_Ordinal i <? 0 with invalid "outbox message ordinal cannot be negative" ;;
  reject negb (bool_decide (di_Kind i = KindMessage)) && negb (bool_decide (di_Kind i = KindMedia))
    with invalid "unsupported outbox kind %q" ;;
  reject String.eqb (di_Channel i) "" || String.eqb (di_ChatID i) ""
    with invalid "outbox channel and chat identity are required" ;;
  Ok tt.

Definition PlainMessageRetirementAllowed (m : OutboundMessage) : bool :=
  let md := om_Metadata m in
  match om_ResultOutput m with None => true | Some _ => false end
  && (String.eqb (md_MessageKind md) "" || String.eqb (md_MessageKind md) OutboundMessageKindFinalReply)
  && (String.eqb (md_OutboundKind md) "" || String.eqb (md_OutboundKind md) OutboundKindFinal)
  && bool_decide (md_ToolCalls md = []) && String.eqb (md_InteractionKind md) ""
  && String.eqb (md_InteractionControls md) "" && String.eqb (md_InteractionLanguage md) ""
  && String.eqb (md_InteractionID md) "" && String.eqb (md_InteractionShortID md) ""
  && String.eqb (md_RequestID md) "" && bool_decide (md_Choices md = []) && bool_decide (md_Actions md = []).

Section validation.
Context `{Sha256} `{UnicodeCase}.

(** [hex.DecodeString] succeeds. *)
Definition hex_byte (b : Z) : bool :=
  ((48 <=? b) && (b <=? 57)) || ((65 <=? b) && (b <=? 70)) || ((97 <=? b) && (b <=? 102)).
Definition hex_decodes (s : string) : bool := Z.even (len s) && forallb hex_byte (bytes s).

Definition validateID (id : string) : bool :=
  (len id =? len "out_" + 32) && String.prefix "out_" id && String.eqb id (to_lower id)
  && hex_decodes (default id (cut_prefix "out_" id)).

(** The key that names one delivery for ever. *)
Definition identity_text (i : Identity) : string :=
  marshal (JObj (fint "version" deliveryIdentityVersion ++ fstr "source_id" (di_SourceID i) ++
    fint "ordinal" (di_Ordinal i) ++ fstr "kind" (Kind_string (di_Kind i)))).
Definition DeliveryID (i : Identity) : result Error string :=
  let i := normalizeIdentity i in
  validateIdentity i ≫= fun _ =>
  Ok ("out_" +:+ String.substring 0 32 (sha256_hex (identity_text i))).

Definition route_matches (i : Identity) (channel chatID sessionKey : string) (c : InboundContext)
    (scope : option OutboundScope) : bool :=
  String.eqb (trim_space channel) (di_Channel i) && String.eqb (trim_space (ic_Channel c)) (di_Channel i)
  && String.eqb (trim_space chatID) (di_ChatID i) && String.eqb (trim_space (ic_ChatID c)) (di_ChatID i)
  && String.eqb (trim_space sessionKey) (di_SessionKey i)
  && match scope with Some s => String.eqb (trim_space (os_Channel s)) (di_Channel i) | None => true end.
Definition validateMessageRoute (i : Identity) (m : OutboundMessage) : result Error () :=
  require route_matches i (om_Channel m) (om_ChatID m) (om_SessionKey m) (om_Context m) (om_Scope m)
    else invalid "outbox message route does not match its identity" ;; Ok tt.
Definition validateMediaRoute (i : Identity) (m : OutboundMediaMessage) : result Error () :=
  require route_matches i (mm_Channel m) (mm_ChatID m) (mm_SessionKey m) (mm_Context m) (mm_Scope m)
    else invalid "outbox media route does not match its identity" ;; Ok tt.

Definition validateRetiredIntent (i : Intent) : result Error () :=
  require it_PayloadRetired i && negb (IsZero (it_PayloadRetiredAt i))
    && negb (Before (it_PayloadRetiredAt i) (it_UpdatedAt i))
    && String.eqb (it_RetentionClass i) retentionPlainMessage
    && bool_decide (di_Kind (it_Identity i) = KindMessage)
    && bool_decide (it_Status i = StatusDelivered) && (1 <=? it_Attempts i)
    && match it_Message i, it_Media i with None, None => true | _, _ => false end
    && negb (it_RecoverySettled i) && String.eqb (it_LastError i) "" && IsZero (it_RetryAfter i)
    else invalid "invalid outbox retired delivered receipt" ;;
  Ok tt.

Definition bus_error {A} (m : result string A) : result Error A :=
  match m with Ok a => Ok a | Err e => Err (ErrInvalid e) end.

Definition validatePayload (i : Intent) : result Error () :=
  match di_Kind (it_Identity i) with
  | KindMessage =>
      match it_Message i, it_Media i with
      | Some m, None =>
          reject negb (String.eqb (om_DeliveryID m) (it_ID i))
            with invalid "outbox message payload does not match its identity" ;;
          validateMessageRoute (it_Identity i) m ≫= fun _ =>
          bus_error (ValidateOutboundMetadata (om_Metadata m)) ≫= fun _ =>
          reject match om_Transcript m with Some t => negb (String.eqb (tr_DeliveryID t) (it_ID i)) | None => false end
            with invalid "outbox message transcript does not match its delivery identity" ;;
          Ok tt
      | _, _ => Err (invalid "outbox message payload does not match its identity")
      end
  | KindMedia =>
      match it_Media i, it_Message i with
      | Some m, None =>
          reject negb (String.eqb (mm_DeliveryID m) (it_ID i))
            with invalid "outbox media payload does not match its identity" ;;
          validateMediaRoute (it_Identity i) m ≫= fun _ =>
          bus_error (ValidateOutboundMetadata (mm_Metadata m)) ≫= fun _ =>
          reject match mm_Transcript m with Some t => negb (String.eqb (tr_DeliveryID t) (it_ID i)) | None => false end
            with invalid "outbox media transcript does not match its delivery identity" ;;
          Ok tt
      | _, _ => Err (invalid "outbox media payload does not match its identity")
      end
  | KindOther _ => Ok tt
  end.

(** The class of a full record allows its retirement. *)
Definition retention_class_ok (i : Intent) : bool :=
  String.eqb (it_RetentionClass i) ""
  || (String.eqb (it_RetentionClass i) retentionPlainMessage
      || String.eqb (it_RetentionClass i) retentionSourcePending)
     && match it_Message i with Some m => PlainMessageRetirementAllowed m | None => false end.

Definition validateIntent (i : Intent) : result Error () :=
  reject negb (it_Version i =? recordVersion) && negb (it_Version i =? retentionRecordVersion)
    with invalid "unsupported outbox record version %d" ;;
  reject negb (validateID (it_ID i)) with invalid "invalid outbox delivery ID %q" ;;
  reject blank (it_OwnerWorkspace i) with invalid "outbox owner workspace is required" ;;
  validateIdentity (normalizeIdentity (it_Identity i)) ≫= fun _ =>
  wantID ← DeliveryID (it_Identity i);
  reject negb (String.eqb (it_ID i) wantID) with invalid "outbox intent ID %q does not match identity" ;;
  reject negb (validStatus (it_Status i)) with invalid "unsupported outbox status %q" ;;
  reject IsZero (it_CreatedAt i) || IsZero (it_UpdatedAt i) with invalid "outbox timestamps are required" ;;
  reject (it_Version i =? retentionRecordVersion) && negb (bool_decide (di_Kind (it_Identity i) = KindMessage))
    with invalid "outbox retention format only admits message payloads" ;;
  if it_PayloadRetired i then
    reject negb (it_Version i =? retentionRecordVersion)
      with invalid "retired payload requires retention record version" ;;
    validateRetiredIntent i
  else
  reject (it_Version i =? recordVersion) && negb (String.eqb (it_RetentionClass i) "")
    with invalid "outbox retirement classification requires retention record version" ;;
  reject negb (IsZero (it_PayloadRetiredAt i))
    with invalid "outbox full record cannot contain retired-payload state" ;;
  reject negb (retention_class_ok i)
    with invalid "outbox retention class does not match a plain message" ;;
  reject it_RecoverySettled i && (negb (RequiresRecoverySettlement i) || negb (isTerminalStatus (it_Status i)))
    with invalid "outbox recovery settlement does not match a terminal domain intent" ;;
  reject it_TranscriptProjected i
         && (negb (bool_decide (it_Status i = StatusDelivered)) || negb (RequiresTranscriptProjection i))
    with invalid "outbox transcript projection does not match a delivered transcript intent" ;;
  validatePayload i.

Definition validateNewIntent (i : Intent) : result Error () :=
  validateIntent i ≫= fun _ =>
  reject negb (bool_decide (it_Status i = StatusPending)) with invalid "new outbox intent must be %q, got %q" ;;
  reject negb (it_Attempts i =? 0) || negb (bool_decide (it_PlatformMessageIDs i = []))
         || negb (IsZero (it_RetryAfter i)) || negb (blank (it_LastError i)) || it_RecoverySettled i
         || it_TranscriptProjected i
    with invalid "new outbox intent cannot contain delivery outcome state" ;;
  Ok tt.

Definition statusAllowed (s : Status) (allowed : list Status) : bool := bool_decide (s ∈ allowed).

Definition sameLogicalIdentity (l r : Intent) : bool :=
  String.eqb (it_ID l) (it_ID r) && String.eqb (di_SourceID (it_Identity l)) (di_SourceID (it_Identity r))
  && (di_Ordinal (it_Identity l) =? di_Ordinal (it_Identity r))
  && bool_decide (di_Kind (it_Identity l) = di_Kind (it_Identity r)).

(** *** New intents *)

(** The route of an identity, stamped on a message. *)
Definition bind_message (i : Identity) (id : string) (m : OutboundMessage) : OutboundMessage :=
  m <| om_Channel := di_Channel i |> <| om_ChatID := di_ChatID i |>
    <| om_Context ::= fun c => c <| ic_Channel := di_Channel i |> <| ic_ChatID := di_ChatID i |> |>
    <| om_SessionKey := di_SessionKey i |>
    <| om_Scope ::= fmap (fun s => s <| os_Channel := di_Channel i |>) |> <| om_DeliveryID := id |>.
Definition bind_media (i : Identity) (id : string) (m : OutboundMediaMessage) : OutboundMediaMessage :=
  m <| mm_Channel := di_Channel i |> <| mm_ChatID := di_ChatID i |>
    <| mm_Context ::= fun c => c <| ic_Channel := di_Channel i |> <| ic_ChatID := di_ChatID i |> |>
    <| mm_SessionKey := di_SessionKey i |>
    <| mm_Scope ::= fmap (fun s => s <| os_Channel := di_Channel i |>) |> <| mm_DeliveryID := id |>.

Definition new_intent (id ownerWorkspace : string) (i : Identity) (message : option OutboundMessage)
    (media : option OutboundMediaMessage) (now : Time) : Intent :=
  mkIntent recordVersion id ownerWorkspace (normalizeIdentity i) StatusPending message media 0 [] zero_time ""
    false false (UTC now) (UTC now) "" false zero_time.

Definition NewMessageIntent (ownerWorkspace : string) (i : Identity) (m : OutboundMessage) (now : Time)
    : result Error Intent :=
  let ownerWorkspace := trim_space ownerWorkspace in
  reject String.eqb ownerWorkspace "" with invalid "outbox owner workspace is required" ;;
  let i := normalizeIdentity (i <| di_Kind := KindMessage |>) in
  id ← DeliveryID i;
  m ← bus_error (NormalizeOutboundMessage (bind_message i id m));
  Ok (new_intent id ownerWorkspace i (Some m) None now).

Definition NewMediaIntent (ownerWorkspace : string) (i : Identity) (m : OutboundMediaMessage) (now : Time)
    : result Error Intent :=
  let ownerWorkspace := trim_space ownerWorkspace in
  reject String.eqb ownerWorkspace "" with invalid "outbox owner workspace is required" ;;
  let i := normalizeIdentity (i <| di_Kind := KindMedia |>) in
  id ← DeliveryID i;
  m ← bus_error (NormalizeOutboundMediaMessage (bind_media i id m));
  Ok (new_intent id ownerWorkspace i None (Some m) now).

(** *** Bounded inspection *)

Definition InspectIntent (decode : string → result DecodeError Intent) (data expectedID : string)
    : result Error Intent :=
  reject (len data =? 0) || (MaxInspectionBytes <? len data) || negb (validateID expectedID)
    with ErrInspection ;;
  match decode data with
  | Err _ => Err ErrInspection
  | Ok i =>
      reject negb (is_ok (validateIntent i)) || negb (String.eqb (it_ID i) expectedID) with ErrInspection ;;
      Ok i
  end.

(** *** Validation fails with [ErrInvalid] only *)

Definition invalid_only {A} (r : result Error A) : Prop := ∀ e, r = Err e → ∃ d, e = ErrInvalid d.
Lemma invalid_ok {A} (a : A) : invalid_only (Ok a).
Proof. by intros e [=]. Qed.
Lemma invalid_err {A} d : invalid_only (Err (A := A) (ErrInvalid d)).
Proof. intros e [= <-]. by exists d. Qed.
Lemma invalid_bind {A B} (m : result Error A) (k : A → result Error B) :
  invalid_only m → (∀ a, invalid_only (k a)) → invalid_only (m ≫= k).
Proof. intros Hm Hk. destruct m as [a|e]; [apply Hk|]. intros e' [= <-]. by apply Hm. Qed.
Lemma invalid_bus {A} (m : result string A) : invalid_only (bus_error m).
Proof. destruct m; [apply invalid_ok|apply invalid_err]. Qed.
Create HintDb invalid.
#[local] Hint Resolve invalid_ok invalid_err invalid_bus : invalid.
Ltac solve_invalid :=
  repeat first [ solve [eauto with invalid] | apply invalid_bind; [|intros ?] | case_match ].

Lemma validateIdentity_invalid i : invalid_only (validateIdentity i).
Proof. unfold validateIdentity. solve_invalid. Qed.
#[local] Hint Resolve validateIdentity_invalid : invalid.
Lemma DeliveryID_invalid i : invalid_only (DeliveryID i).
Proof. unfold DeliveryID. solve_invalid. Qed.
Lemma validateRetiredIntent_invalid i : invalid_only (validateRetiredIntent i).
Proof. unfold validateRetiredIntent. solve_invalid. Qed.
Lemma validatePayload_invalid i : invalid_only (validatePayload i).
Proof. unfold validatePayload, validateMessageRoute, validateMediaRoute. solve_invalid. Qed.
#[local] Hint Resolve DeliveryID_invalid validateRetiredIntent_invalid validatePayload_invalid : invalid.
Lemma validateIntent_invalid i : invalid_only (validateIntent i).
Proof. unfold validateIntent. solve_invalid. Qed.
End validation.
