(* ===== verification/OutboxStore.v ===== *)
(** Package [pkg/outbox], the store ([outbox.go], [recovery.go],
    [retired_payload.go], [retention.go]): one file per intent in one directory,
    replaced atomically, and the operations that read, create and advance them.

    Every operation holds the store's mutex from its first to its last access.
    The directory is a map from the stem of a [.json] file to its content;
    other entries are skipped by the code.  An operation reads, stamps and
    writes one record at most once, so a failure to read and the clock are
    functions of its id, and the outcome of the write one of the intent. *)
From S2P Require Import Prelude GoStrings GoJson GoTime TaskResult BusInbound BusOutbound OutboxTypes.
#[local] Open Scope Z_scope.

Inductive ReadFault := ReadDenied | ReadBroken.
Record Env := mkEnv {
  env_now : string → Time;
  env_write : Intent → WriteOutcome;
  env_read : string → option ReadFault;
  env_dir : bool; (* the directory can be listed *) }.

Abbreviation Store := (gmap string string).

(** [RecoveryIssue] *)
Inductive RecoveryIssueCode := RecoveryIssueInvalidJSON | RecoveryIssuePermissionDenied.
Record RecoveryIssue := mkIssue { ri_DeliveryID : string; ri_Code : RecoveryIssueCode }.
Record RecoveryReport := mkReport { rr_Intents : list Intent; rr_Issues : list RecoveryIssue }.

Definition isolatedRecordIssue (id : string) (e : Error) : option RecoveryIssue :=
  match e with
  | ErrDecode SyntaxError => Some (mkIssue id RecoveryIssueInvalidJSON)
  | ErrPermission => Some (mkIssue id RecoveryIssuePermissionDenied)
  | _ => None
  end.

(** [a.CreatedAt.Compare(b.CreatedAt)], then [cmp.Compare(a.ID, b.ID)] *)
Definition intent_le (a b : Intent) : Prop :=
  t_ns (it_CreatedAt a) < t_ns (it_CreatedAt b)
  ∨ t_ns (it_CreatedAt a) = t_ns (it_CreatedAt b) ∧ str_le (it_ID a) (it_ID b).
#[export] Instance intent_le_dec a b : Decision (intent_le a b).
Proof. unfold intent_le. apply _. Defined.

(** [os.ReadDir] sorts the entries by file name. *)
Definition file_le (a b : string) : Prop := str_le (a +:+ ".json") (b +:+ ".json").
#[export] Instance file_le_dec a b : Decision (file_le a b).
Proof. unfold file_le. apply _. Defined.
Definition record_ids (s : Store) : list string := merge_sort file_le (map_to_list s).*1.

Section store.
Context `{Sha256} `{UnicodeCase}.
(** [json.Unmarshal] into an [Intent]. *)
Variable decode : string → result DecodeError Intent.
Implicit Types (s : Store) (env : Env) (i : Intent) (id : string).

Definition read env s id : result Error Intent :=
  reject negb (validateID id) with invalid "invalid outbox delivery ID %q" ;;
  match env_read env id, s !! id with
  | Some ReadDenied, _ => Err ErrPermission
  | Some ReadBroken, _ => Err ErrRead
  | None, None => Err ErrNotExist
  | None, Some data =>
      match decode data with
      | Err e => Err (ErrDecode e)
      | Ok i =>
          validateIntent i ≫= fun _ =>
          reject negb (String.eqb (it_ID i) id) with ErrFilename ;;
          Ok i
      end
  end.

Definition write env s i : Store * result Error () :=
  if negb (Intent_marshals i) then (s, Err ErrEncode) else
  match env_write env i with
  | WriteOk => (<[it_ID i := Intent_file i]> s, Ok tt)
  | WriteCommitted => (<[it_ID i := Intent_file i]> s, Err (ErrWrite true))
  | WriteFailed => (s, Err (ErrWrite false))
  end.

(** [if err := s.write(intent); err != nil { return Intent{}, err }; return intent, nil] *)
Definition save env s i : Store * result Error Intent :=
  match write env s i with
  | (s, Ok _) => (s, Ok i)
  | (s, Err e) => (s, Err e)
  end.

Definition Get env s id : result Error Intent := read env s id.

Definition stamp env i : Intent := i <| it_UpdatedAt := UTC (env_now env (it_ID i)) |>.

Definition Create env s i : Store * result Error Intent :=
  match validateNewIntent i with
  | Err e => (s, Err e)
  | Ok _ =>
      match read env s (it_ID i) with
      | Ok existing =>
          if negb (sameLogicalIdentity existing i) then (s, Err ErrIdentityConflict) else
          let protect := negb (it_PayloadRetired existing)
            && negb (String.eqb (it_RetentionClass existing) "") && String.eqb (it_RetentionClass i) "" in
          let existing := if protect then stamp env (existing <| it_RetentionClass := "" |>) else existing in
          if negb (bool_decide (it_Status existing = StatusPending)) && negb protect then (s, Ok existing)
          else save env s existing
      | Err ErrNotExist => save env s i
      | Err e => (s, Err e)
      end
  end.

(** The intent [transition] writes. *)
Definition moved env (next : Status) (outcome : Outcome) (countAttempt : bool) i : Intent :=
  stamp env (i <| it_Status := next |>
    <| it_Attempts ::= fun n => if countAttempt then n + 1 else n |>
    <| it_PlatformMessageIDs := oc_PlatformMessageIDs outcome |>
    <| it_RetryAfter := UTC (oc_RetryAfter outcome) |>
    <| it_LastError := trim_space (oc_Error outcome) |>).

Definition transition env s id (next : Status) (outcome : Outcome) (refreshSame countAttempt : bool)
    (allowed : list Status) : Store * result Error Intent :=
  match read env s id with
  | Err e => (s, Err e)
  | Ok i =>
      if bool_decide (it_Status i = next) && negb (bool_decide (next = StatusAttempting)) && negb refreshSame
      then save env s i
      else if negb (statusAllowed (it_Status i) allowed) then (s, Err (ErrTransition (it_Status i) next))
      else save env s (moved env next outcome countAttempt i)
  end.

Definition BeginAttempt env s id : Store * result Error Intent :=
  transition env s id StatusAttempting no_outcome false true
    [StatusPending; StatusAttempting; StatusDefinitelyFailed].
Definition MarkDispatchRejected env s id (outcome : Outcome) : Store * result Error Intent :=
  transition env s id StatusDefinitelyFailed outcome true true [StatusPending; StatusDefinitelyFailed].
Definition MarkUnrecoverable env s id (outcome : Outcome) : Store * result Error Intent :=
  transition env s id StatusAmbiguous outcome false false [StatusPending; StatusDefinitelyFailed].
Definition MarkAbandoned env s id (outcome : Outcome) : Store * result Error Intent :=
  transition env s id StatusAbandoned outcome false false [StatusPending; StatusDefinitelyFailed].
Definition MarkDelivered env s id (outcome : Outcome) : Store * result Error Intent :=
  transition env s id StatusDelivered outcome false false [StatusAttempting].
Definition MarkDefinitelyFailed env s id (outcome : Outcome) : Store * result Error Intent :=
  transition env s id StatusDefinitelyFailed outcome false false [StatusAttempting].
Definition MarkAmbiguous env s id (outcome : Outcome) : Store * result Error Intent :=
  transition env s id StatusAmbiguous outcome false false [StatusAttempting].

Definition MarkRecoverySettled env s id : Store * result Error Intent :=
  match read env s id with
  | Err e => (s, Err e)
  | Ok i =>
      if negb (RequiresRecoverySettlement i) || negb (isTerminalStatus (it_Status i)) then (s, Err ErrNoSettlement)
      else if it_RecoverySettled i then save env s i
      else save env s (stamp env (i <| it_RecoverySettled := true |>))
  end.

Definition MarkTranscriptProjected env s id : Store * result Error Intent :=
  match read env s id with
  | Err e => (s, Err e)
  | Ok i =>
      if negb (bool_decide (it_Status i = StatusDelivered)) || negb (RequiresTranscriptProjection i)
      then (s, Err ErrNoProjection)
      else if it_TranscriptProjected i then save env s i
      else save env s (stamp env (i <| it_TranscriptProjected := true |>))
  end.

(** ** Recovery *)

Fixpoint list_loop env s (ids : list string) (records : list Intent) (issues : list RecoveryIssue)
    : result Error (list Intent * list RecoveryIssue) :=
  match ids with
  | [] => Ok (merge_sort intent_le records, issues)
  | id :: l =>
      match read env s id with
      | Ok i => list_loop env s l (records ++ [i]) issues
      | Err e =>
          match isolatedRecordIssue id e with
          | Some issue => list_loop env s l records (issues ++ [issue])
          | None => Err e
          end
      end
  end.
Definition list_ env s : result Error (list Intent * list RecoveryIssue) :=
  reject negb (env_dir env) with ErrDirectory ;;
  list_loop env s (record_ids s) [] [].

(** What a crash during an attempt becomes. *)
Definition interrupted env i : Intent :=
  stamp env (i <| it_Status := StatusAmbiguous |> <| it_LastError := interruptedAttemptError |>).

Fixpoint recover_loop env s (l dispatchable : list Intent) : Store * result Error (list Intent) :=
  match l with
  | [] => (s, Ok dispatchable)
  | i :: l' =>
      if RecoverySettlementPending i || TranscriptProjectionPending i
      then recover_loop env s l' (dispatchable ++ [i])
      else if RequiresRecoverySettlement i && it_RecoverySettled i then recover_loop env s l' dispatchable
      else
      match it_Status i with
      | StatusPending => recover_loop env s l' (dispatchable ++ [i])
      | StatusDefinitelyFailed =>
          recover_loop env s l' (if RetryExhausted i then dispatchable else dispatchable ++ [i])
      | StatusAttempting =>
          let i := interrupted env i in
          match write env s i with
          | (s, Err e) => (s, Err e)
          | (s, Ok _) =>
              recover_loop env s l' (if RecoverySettlementPending i then dispatchable ++ [i] else dispatchable)
          end
      | StatusAmbiguous =>
          if String.eqb (it_LastError i) interruptedAttemptError then
            match write env s i with
            | (s, Err e) => (s, Err e)
            | (s, Ok _) => recover_loop env s l' dispatchable
            end
          else recover_loop env s l' dispatchable
      | _ => recover_loop env s l' dispatchable
      end
  end.

Definition Recover env s : Store * result Error RecoveryReport :=
  match list_ env s with
  | Err e => (s, Err e)
  | Ok (records, issues) =>
      match recover_loop env s records [] with
      | (s, Err e) => (s, Err e)
      | (s, Ok dispatchable) => (s, Ok (mkReport dispatchable issues))
      end
  end.

(** ** Retirement of delivered payloads *)

Definition payloadRetirementBlocker i (before now : Time) : string :=
  if String.eqb (it_RetentionClass i) retentionSourcePending then "source_completion_pending"
  else if negb (String.eqb (it_RetentionClass i) retentionPlainMessage) then "protected_class"
  else if negb (bool_decide (it_Status i = StatusDelivered)) || (it_Attempts i <? 1) then "protected_outcome"
  else if match it_Message i with Some m => negb (PlainMessageRetirementAllowed m) | None => true end
  then "protected_domain"
  else if TranscriptProjectionPending i || RecoverySettlementPending i then "pending_settlement"
  else if negb (Before (it_UpdatedAt i) before) || Before now (it_UpdatedAt i) then "retention_age"
  else "".

Definition compactDeliveredIntent i (now : Time) : Intent :=
  if it_PayloadRetired i then i else
  i <| it_Version := retentionRecordVersion |> <| it_PayloadRetired := true |>
    <| it_PayloadRetiredAt := UTC now |> <| it_Message := None |> <| it_Media := None |>
    <| it_LastError := "" |> <| it_RetryAfter := zero_time |>.

Definition retirePlainPayload env s id (before now : Time) : Store * result Error Intent :=
  match read env s id with
  | Err e => (s, Err e)
  | Ok i =>
      if negb (it_PayloadRetired i) && negb (String.eqb (payloadRetirementBlocker i before now) "")
      then (s, Err ErrNotRetirable) else
      let retired := compactDeliveredIntent i now in
      match validateIntent retired with
      | Err e => (s, Err e)
      | Ok _ =>
          if negb (Intent_marshals retired) then (s, Err ErrEncode)
          else if maxRetiredReceiptBytes <? len (Intent_text retired) + 1 then (s, Err ErrNotRetirable)
          else save env s retired
      end
  end.

Definition protectPayload env s id : Store * result Error () :=
  match read env s id with
  | Err e => (s, Err e)
  | Ok i =>
      if it_PayloadRetired i then (s, Err (ErrRetiredPayload i))
      else if String.eqb (it_RetentionClass i) "" then (s, Ok tt)
      else write env s (stamp env (i <| it_RetentionClass := "" |>))
  end.
End store.
