(* ===== verification/OutboxCoordinator.v ===== *)
(** Package [pkg/outbox], the coordinator ([coordinator.go], and
    [SealNativeFinalMessage] of [retired_payload.go]): the in-process owner of
    one store, which hands out dispatch leases, follows each publication to its
    transport outcome and resolves the receipts its callers wait on.

    Every method holds the coordinator's mutex from its first to its last
    access.  An [admissionReceipt] is a heap object shared by the coordinator
    and any number of waiters: it is named by its generation, [receipts] holds
    the coordinator's pointers and [results] the receipts whose [ready] channel
    is closed, with the result they were finished with.  A bool map of the code
    that only ever holds [true] is the set of its keys; a generation, a 64-bit
    counter, does not come near its bound. *)
From S2P Require Import Prelude GoStrings GoJson GoTime TaskResult BusInbound BusOutbound OutboxTypes.
From S2P Require Import OutboxStore.
From stdpp Require Import gmap.
#[local] Open Scope Z_scope.

Record DispatchLease := mkLease { dl_deliveryID : string; dl_generation : Z }.
#[export] Instance Lease_eq_dec : EqDecision DispatchLease. Proof. solve_decision. Defined.
Definition no_lease : DispatchLease := mkLease "" 0.

(** [terminalResult]: an intent or an error. *)
Definition terminalResult : Type := result Error Intent.

Record Coordinator := mkCoordinator {
  store : Store;
  root : string;
  leases : gmap string Z;
  publishing : gmap string Z;
  published : gset string;
  attempting : gset string;
  receipts : gmap string Z;
  results : gmap Z terminalResult;
  dispatchLeaseSequence : Z;
  closed : bool }.
#[export] Instance eta_Coordinator : Eta Coordinator := fun c =>
  mkCoordinator (store c) (root c) (leases c) (publishing c) (published c) (attempting c) (receipts c)
    (results c) (dispatchLeaseSequence c) (closed c).

(** [receipt] is the generation of the receipt the admission points to. *)
Record Admission := mkAdmission {
  ad_Intent : Intent; ad_Dispatch : bool; ad_Settle : bool; ad_InFlight : bool; ad_Lease : DispatchLease;
  ad_receipt : option DispatchLease }.
Record AdmissionRecoveryReport := mkRecovery { rp_Admissions : list Admission; rp_Issues : list RecoveryIssue }.
Record DeliveryInspection := mkInspection { dn_Intent : Intent; dn_Active : bool }.

Definition newCoordinator (root : string) (s : Store) : Coordinator :=
  mkCoordinator s root ∅ ∅ ∅ ∅ ∅ ∅ 0 false.

(** [c.leases[id]], zero for a missing key. *)
Definition generation_of (m : gmap string Z) (id : string) : Z := default 0 (m !! id).

Section coordinator.
Context `{Sha256} `{UnicodeCase}.
Variable decode : string → result DecodeError Intent.
Implicit Types (c : Coordinator) (env : Env) (id : string) (lease : DispatchLease).

Definition validateOpenLocked c : result Error () := reject closed c with ErrClosed ;; Ok tt.

(** [receipt.finish]: the first result stays. *)
Definition finish (g : Z) (res : terminalResult) (m : gmap Z terminalResult) : gmap Z terminalResult :=
  match m !! g with Some _ => m | None => <[g := res]> m end.

Definition finishReceiptLocked c id (res : terminalResult) : Coordinator :=
  match receipts c !! id with
  | Some g => c <| receipts ::= delete id |> <| results ::= finish g res |>
  | None => c
  end.

(** The checks every method that takes a lease begins with. *)
Definition lease_guard c lease : result Error () :=
  reject String.eqb (dl_deliveryID lease) "" || (dl_generation lease =? 0) with ErrLeaseRequired ;;
  validateOpenLocked c.
(** The checks every method that takes a delivery id begins with. *)
Definition id_guard c id : result Error () :=
  reject negb (validateID id) with invalid "invalid outbox delivery ID %q" ;;
  validateOpenLocked c.

Definition PrepareAdmission c lease : Coordinator * result Error () :=
  match lease_guard c lease with
  | Err e => (c, Err e)
  | Ok _ =>
      if negb (generation_of (leases c) (dl_deliveryID lease) =? dl_generation lease) then (c, Err ErrStaleLease)
      else
      let g := generation_of (publishing c) (dl_deliveryID lease) in
      if negb (g =? 0) && negb (g =? dl_generation lease) then (c, Err ErrStalePublication)
      else (c <| publishing ::= <[dl_deliveryID lease := dl_generation lease]> |>
              <| published ::= union {[dl_deliveryID lease]} |>, Ok tt)
  end.

Definition CommitAdmission c lease : Coordinator * result Error () :=
  match lease_guard c lease with
  | Err e => (c, Err e)
  | Ok _ =>
      if negb (generation_of (leases c) (dl_deliveryID lease) =? dl_generation lease) then (c, Err ErrStaleLease)
      else if negb (generation_of (publishing c) (dl_deliveryID lease) =? dl_generation lease)
      then (c, Err ErrNotPrepared)
      else (c <| publishing ::= delete (dl_deliveryID lease) |> <| leases ::= delete (dl_deliveryID lease) |>, Ok tt)
  end.

(** After a failed store operation the process keeps a no-retry fence. *)
Definition fence c id (e : Error) : Coordinator :=
  finishReceiptLocked (c <| attempting ::= union {[id]} |>) id (Err e).

(** The transport is called only after [BeginAttempt] succeeded. *)
Definition BeginAttempt_ env c id : Coordinator * result Error () :=
  match id_guard c id with
  | Err e => (c, Err e)
  | Ok _ =>
      if negb (bool_decide (id ∈ published c)) then (c, Err ErrNotPublished)
      else if bool_decide (id ∈ attempting c) then (c, Err ErrAttemptActive)
      else
      match BeginAttempt decode env (store c) id with
      | (s, Err e) => (fence (c <| store := s |>) id e, Err e)
      | (s, Ok _) => (c <| store := s |> <| attempting ::= union {[id]} |>, Ok tt)
      end
  end.

Definition transitionPublished c id (requireAttempt : bool) (transition : Store → Store * result Error Intent)
    : Coordinator * result Error () :=
  match id_guard c id with
  | Err e => (c, Err e)
  | Ok _ =>
      if negb (bool_decide (id ∈ published c)) then (c, Err ErrNotPublished)
      else if requireAttempt && negb (bool_decide (id ∈ attempting c)) then (c, Err ErrNoAttempt)
      else if negb requireAttempt && bool_decide (id ∈ attempting c) then (c, Err ErrAttemptActive)
      else
      match transition (store c) with
      | (s, Err e) => (fence (c <| store := s |>) id e, Err e)
      | (s, Ok i) =>
          (finishReceiptLocked (c <| store := s |> <| attempting ::= fun m => m ∖ {[id]} |>
             <| published ::= fun m => m ∖ {[id]} |>) id (Ok i), Ok tt)
      end
  end.

Definition MarkDispatchRejected_ env c id (outcome : Outcome) : Coordinator * result Error () :=
  transitionPublished c id false (fun s => MarkDispatchRejected decode env s id outcome).
Definition MarkDelivered_ env c id (outcome : Outcome) : Coordinator * result Error () :=
  transitionPublished c id true (fun s => MarkDelivered decode env s id outcome).
Definition MarkDefinitelyFailed_ env c id (outcome : Outcome) : Coordinator * result Error () :=
  transitionPublished c id true (fun s => MarkDefinitelyFailed decode env s id outcome).
Definition MarkAmbiguous_ env c id (outcome : Outcome) : Coordinator * result Error () :=
  transitionPublished c id true (fun s => MarkAmbiguous decode env s id outcome).

Definition Inspect env c id : result Error DeliveryInspection :=
  id_guard c id ≫= fun _ =>
  i ← Get decode env (store c) id;
  Ok (mkInspection i (negb (generation_of (leases c) id =? 0) || negb (generation_of (publishing c) id =? 0)
                      || bool_decide (id ∈ published c) || bool_decide (id ∈ attempting c))).
Definition Get_ env c id : result Error Intent :=
  n ← Inspect env c id; Ok (dn_Intent n).

(** [None]: the caller still waits.  [cancelled] is the state of its context;
    when the receipt and the end of the context are both ready [select] takes
    either: [receiptFirst] is its choice. *)
Definition AwaitTerminal env c (a : Admission) (cancelled receiptFirst : bool) : option (result Error Intent) :=
  let id := it_ID (ad_Intent a) in
  if negb (validateID id) then Some (Err (invalid "invalid outbox delivery ID %q")) else
  match ad_receipt a with
  | Some r =>
      if negb (String.eqb (dl_deliveryID r) id) || (dl_generation r =? 0)
         || ad_Dispatch a && negb (dl_generation r =? dl_generation (ad_Lease a))
      then Some (Err ErrReceiptInvalid)
      else
      match results c !! dl_generation r with
      | Some res => Some (if cancelled && negb receiptFirst then Err ErrContext else res)
      | None => if cancelled then Some (Err ErrContext) else None
      end
  | None =>
      Some (validateOpenLocked c ≫= fun _ =>
            i ← Get decode env (store c) id;
            reject negb (isTerminalStatus (it_Status i)) with ErrNoTerminalReceipt ;; Ok i)
  end.

(** ** Admission *)

Definition dispatchable (i : Intent) : bool :=
  bool_decide (it_Status i = StatusPending)
  || bool_decide (it_Status i = StatusDefinitelyFailed) && negb (RetryExhausted i).

Definition claimDispatchLocked c (i : Intent) : Coordinator * Admission :=
  let id := it_ID i in
  let leased := bool_decide (is_Some (leases c !! id)) in
  let dispatch := dispatchable i && negb leased && negb (bool_decide (id ∈ published c)) in
  let g := dispatchLeaseSequence c + 1 in
  let c := if dispatch
    then c <| dispatchLeaseSequence := g |> <| leases ::= <[id := g]> |> <| receipts ::= <[id := g]> |>
    else c in
  (c, mkAdmission i dispatch false (dispatchable i && leased) (if dispatch then mkLease id g else no_lease)
        (mkLease id <$> receipts c !! id)).

Definition admit_ env c (candidate : Intent) : Coordinator * result Error Admission :=
  match validateOpenLocked c with
  | Err e => (c, Err e)
  | Ok _ =>
      match Create decode env (store c) candidate with
      | (s, Err e) => (c <| store := s |>, Err e)
      | (s, Ok i) => let '(c, a) := claimDispatchLocked (c <| store := s |>) i in (c, Ok a)
      end
  end.

(** [now] is the reading of the coordinator's own clock. *)
Definition admitMessage env (now : Time) c (ownerWorkspace : string) (i : Identity) (m : OutboundMessage)
    (retentionClass : string) : Coordinator * result Error Admission :=
  match NewMessageIntent ownerWorkspace i m now with
  | Err e => (c, Err e)
  | Ok intent =>
      let intent := intent <| it_RetentionClass := retentionClass |> in
      admit_ env c (if String.eqb retentionClass "" then intent
                   else intent <| it_Version := retentionRecordVersion |>)
  end.
Definition AdmitMessage env now c ownerWorkspace i m := admitMessage env now c ownerWorkspace i m "".
Definition AdmitNativeFinalMessage env now c ownerWorkspace i m :=
  admitMessage env now c ownerWorkspace i m retentionSourcePending.
Definition AdmitMedia env (now : Time) c (ownerWorkspace : string) (i : Identity) (m : OutboundMediaMessage)
    : Coordinator * result Error Admission :=
  match NewMediaIntent ownerWorkspace i m now with
  | Err e => (c, Err e)
  | Ok intent => admit_ env c intent
  end.

(** ** Recovery *)

Fixpoint claim_recovered c (l : list Intent) (admissions : list Admission) : Coordinator * list Admission :=
  match l with
  | [] => (c, admissions)
  | i :: l' =>
      if RecoverySettlementPending i || TranscriptProjectionPending i
      then claim_recovered c l' (admissions ++ [mkAdmission i false true false no_lease None])
      else let '(c, a) := claimDispatchLocked c i in
           claim_recovered c l' (if ad_Dispatch a then admissions ++ [a] else admissions)
  end.

Definition Recover_ env c : Coordinator * result Error AdmissionRecoveryReport :=
  match validateOpenLocked c with
  | Err e => (c, Err e)
  | Ok _ =>
      match Recover decode env (store c) with
      | (s, Err e) => (c <| store := s |>, Err e)
      | (s, Ok report) =>
          let '(c, l) := claim_recovered (c <| store := s |>) (rr_Intents report) [] in
          (c, Ok (mkRecovery l (rr_Issues report)))
      end
  end.

(** A store operation on one record that leaves the in-process state alone. *)
Definition on_store c id (f : Store → Store * result Error Intent) : Coordinator * result Error () :=
  match id_guard c id with
  | Err e => (c, Err e)
  | Ok _ => let '(s, res) := f (store c) in (c <| store := s |>, res ≫= fun _ => Ok tt)
  end.
Definition MarkRecoverySettled_ env c id : Coordinator * result Error () :=
  on_store c id (fun s => MarkRecoverySettled decode env s id).
Definition MarkTranscriptProjected_ env c id : Coordinator * result Error () :=
  on_store c id (fun s => MarkTranscriptProjected decode env s id).

(** ** Giving a lease up *)

Definition ReleaseAdmission env c lease : Coordinator * result Error () :=
  let id := dl_deliveryID lease in
  match lease_guard c lease with
  | Err e => (c, Err e)
  | Ok _ =>
      if negb (generation_of (leases c) id =? dl_generation lease) then
        match Get decode env (store c) id with
        | Ok i => if bool_decide (it_Status i = StatusAbandoned) then (c, Ok tt) else (c, Err ErrStaleLease)
        | Err _ => (c, Err ErrStaleLease)
        end
      else
      let c := finishReceiptLocked (c <| leases ::= delete id |> <| publishing ::= delete id |>
                 <| published ::= fun m => m ∖ {[id]} |>) id (Err ErrReleased) in
      match Get decode env (store c) id with
      | Err e => (c, Err e)
      | Ok i =>
          if negb (bool_decide (it_Status i = StatusPending)) && negb (bool_decide (it_Status i = StatusDefinitelyFailed))
          then (c, Err (ErrNotDispatchable (it_Status i))) else (c, Ok tt)
      end
  end.

Definition in_publication c id : bool :=
  negb (generation_of (publishing c) id =? 0) || bool_decide (id ∈ published c) || bool_decide (id ∈ attempting c).

Definition MarkAdmissionUnrecoverable env c lease (outcome : Outcome) : Coordinator * result Error () :=
  let id := dl_deliveryID lease in
  match lease_guard c lease with
  | Err e => (c, Err e)
  | Ok _ =>
      if negb (generation_of (leases c) id =? dl_generation lease) then (c, Err ErrStaleLease)
      else if in_publication c id then (c, Err ErrPublicationReached)
      else
      match MarkUnrecoverable decode env (store c) id outcome with
      | (s, Err e) => (finishReceiptLocked (c <| store := s |>) id (Err e), Err e)
      | (s, Ok i) => (finishReceiptLocked (c <| store := s |> <| leases ::= delete id |>) id (Ok i), Ok tt)
      end
  end.

Definition Abandon env c id (outcome : Outcome) : Coordinator * result Error bool :=
  match id_guard c id with
  | Err e => (c, Err e)
  | Ok _ =>
      if in_publication c id then (c, Ok false) else
      match Get decode env (store c) id with
      | Err ErrNotExist => (c, Ok false)
      | Err e => (finishReceiptLocked c id (Err e), Err e)
      | Ok current =>
          if negb (bool_decide (it_Status current = StatusPending))
             && negb (bool_decide (it_Status current = StatusDefinitelyFailed)) then (c, Ok false) else
          match MarkAbandoned decode env (store c) id outcome with
          | (s, Err e) => (finishReceiptLocked (c <| store := s |>) id (Err e), Err e)
          | (s, Ok i) => (finishReceiptLocked (c <| store := s |> <| leases ::= delete id |>) id (Ok i), Ok true)
          end
      end
  end.

(** ** Retention *)

Definition ProtectPayload env c id : Coordinator * result Error () :=
  match validateOpenLocked c with
  | Err e => (c, Err e)
  | Ok _ => let '(s, res) := protectPayload decode env (store c) id in (c <| store := s |>, res)
  end.

(** [acknowledges] is what [receipt.Acknowledges(c.root, _)] answers for a
    receipt that is not the zero value. *)
Definition SealNativeFinalMessage env c id (receipt : option (string → bool)) : Coordinator * result Error bool :=
  if negb (validateID id) then (c, Err (invalid "invalid outbox delivery ID %q")) else
  match receipt with
  | None => (c, Ok false)
  | Some acknowledges =>
      match validateOpenLocked c with
      | Err e => (c, Err e)
      | Ok _ =>
          match read decode env (store c) id with
          | Err e => (c, Err e)
          | Ok i =>
              if negb (acknowledges (di_SourceID (it_Identity i))) then (c, Ok false)
              else if String.eqb (it_RetentionClass i) retentionPlainMessage then
                let '(s, res) := write env (store c) i in (c <| store := s |>, res ≫= fun _ => Ok true)
              else if negb (String.eqb (it_RetentionClass i) retentionSourcePending) || it_PayloadRetired i
              then (c, Ok false)
              else let '(s, res) := write env (store c) (stamp env (i <| it_RetentionClass := retentionPlainMessage |>)) in
                   (c <| store := s |>, res ≫= fun _ => Ok true)
          end
      end
  end.

(** Every receipt the coordinator still holds is finished; the order in which
    the code visits them does not matter, as each generation is finished once. *)
Definition Close c : Coordinator :=
  if closed c then c else
  c <| closed := true |>
    <| results ::= fun m => foldr (fun p => finish p.2 (Err ErrClosed)) m (map_to_list (receipts c)) |>
    <| receipts := ∅ |>.
End coordinator.
