(* ===== verification/OutboxRecords.v ===== *)
(** What the store operations do to the records on disk.

    [peek] is the record a file decodes to, valid or not.  Every operation on
    one record leaves the store as it was or replaces that record by one
    intent, related to the old one by a small relation ([touch]). *)
From stdpp Require Import gmap relations.
From S2P Require Import Prelude GoStrings GoJson GoTime TaskResult BusInbound BusOutbound.
From S2P Require Import OutboxTypes OutboxStore OutboxCoordinator.

#[local] Open Scope Z_scope.

Section records.
Context `{Sha256} `{UnicodeCase}.
Variable decode : string → result DecodeError Intent.
Implicit Types (s : Store) (env : Env) (i j : Intent) (id : string).

Definition peek s id : option Intent :=
  match s !! id with
  | Some data => match decode data with Ok i => Some i | Err _ => None end
  | None => None
  end.

(** In this environment the writes that reach the disk are of intents that the
    decoder reads back. *)
Definition readable env : Prop := ∀ i, env_write env i ≠ WriteFailed → decode (Intent_file i) = Ok i.

(** The store [s'] is [s], or [s] with the record [id] replaced. *)
Definition touch (R : option Intent → Intent → Prop) id s s' : Prop :=
  s' = s ∨ ∃ j, it_ID j = id ∧ s' = <[id := Intent_file j]> s ∧ peek s' id = Some j ∧ R (peek s id) j.

Lemma peek_insert_ne s id id' data : id ≠ id' → peek (<[id := data]> s) id' = peek s id'.
Proof. intros. unfold peek. by rewrite lookup_insert_ne. Qed.

Lemma touch_other R id s s' id' : touch R id s s' → id' ≠ id → peek s' id' = peek s id'.
Proof. intros [->|(j & _ & -> & _)] Hne; [done|]. by apply peek_insert_ne. Qed.
Lemma touch_refl R id s : touch R id s s.
Proof. by left. Qed.
Lemma touch_mono (R R' : option Intent → Intent → Prop) id s s' :
  (∀ o j, R o j → R' o j) → touch R id s s' → touch R' id s s'.
Proof. intros HR [->|(j & ? & ? & ? & ?)]; [by left|]. right. exists j. by auto. Qed.
Lemma touch_lookup R id s s' j :
  touch R id s s' → peek s' id = Some j → peek s id = Some j ∨ R (peek s id) j.
Proof. intros [->|(j' & _ & _ & Hp & HR)] Hj; [by left|]. right. congruence. Qed.

Lemma read_peek env s id i : read decode env s id = Ok i → peek s id = Some i ∧ it_ID i = id ∧ validateIntent i = Ok tt.
Proof.
  unfold read, peek. destruct (negb _); [done|]. destruct (env_read env id) as [[]|]; [done..|].
  destruct (s !! id); [|done]. destruct (decode _) as [i'|]; [|done].
  rewrite bind_unit_ok, reject_ok. intros (Hv & Hid & [= <-]). apply negb_false_iff, String.eqb_eq in Hid. done.
Qed.

(** *** Writing one record *)

(** What a write reports: [Some j] when it is known to have gone through. *)
Definition saved (res : result Error Intent) s s' j : Prop :=
  match res with
  | Ok i => i = j ∧ s' = <[it_ID j := Intent_file j]> s
  | Err e => s' = s ∧ e ≠ ErrWrite true ∨ s' = <[it_ID j := Intent_file j]> s ∧ e = ErrWrite true
  end.

Lemma save_saved env s i : readable env → 
  saved (save env s i).2 s (save env s i).1 i
  ∧ ((save env s i).1 = s ∨ (save env s i).1 = <[it_ID i := Intent_file i]> s ∧ decode (Intent_file i) = Ok i).
Proof.
  intros Hr. unfold save, write. destruct (negb _); [split; [by left|by left]|].
  destruct (env_write env i) eqn:E; cbn.
  - split; [done|]. right. split; [done|]. apply Hr. by rewrite E.
  - split; [by right|]. right. split; [done|]. apply Hr. by rewrite E.
  - split; by left.
Qed.

Lemma save_touch env (R : option Intent → Intent → Prop) s i :
  readable env → R (peek s (it_ID i)) i → touch R (it_ID i) s (save env s i).1.
Proof.
  intros Hr HR. destruct (save_saved env s i Hr) as [_ [->|[-> Hd]]]; [by left|]. right. exists i.
  split_and!; try done. unfold peek. by rewrite lookup_insert_eq, Hd.
Qed.
Lemma save_ok env s i j :
  readable env → (save env s i).2 = Ok j → j = i ∧ peek (save env s i).1 (it_ID i) = Some i.
Proof.
  intros Hr Hj. destruct (save_saved env s i Hr) as [Hs Hd]. unfold saved in Hs. rewrite Hj in Hs.
  destruct Hs as [-> Hs]. split; [done|]. destruct Hd as [Hd|[Hd Hdec]].
  - rewrite Hd in *. unfold save, write in Hd, Hj. destruct (negb _); [done|].
    destruct (env_write env i) eqn:E; [|done..]. cbn in Hd. unfold peek. rewrite <- Hd, lookup_insert_eq.
    by rewrite Hr; [|rewrite E].
  - rewrite Hd. unfold peek. by rewrite lookup_insert_eq, Hdec.
Qed.
Lemma save_write env s i :
  (write env s i).1 = (save env s i).1 ∧ is_ok (write env s i).2 = is_ok (save env s i).2.
Proof. unfold save. by destruct (write env s i) as [? []]. Qed.

(** *** Moves of a record *)

Inductive Move :=
| MvNew     (* a record is created *)
| MvKeep    (* settlements, retention, a rewrite *)
| MvBegin   (* the transport is about to be called *)
| MvReject  (* refused before the transport *)
| MvDrop    (* given up before the transport *)
| MvOutcome (* the transport answered, or a restart found it unanswered *).

Definition same_delivery i j : Prop :=
  it_ID j = it_ID i ∧ it_OwnerWorkspace j = it_OwnerWorkspace i ∧ it_Identity j = it_Identity i
  ∧ it_CreatedAt j = it_CreatedAt i.

Definition unsent : list Status := [StatusPending; StatusDefinitelyFailed].

Definition moves (m : Move) i j : Prop :=
  same_delivery i j ∧
  match m with
  | MvNew => False
  | MvKeep => it_Status j = it_Status i ∧ it_Attempts j = it_Attempts i
  | MvBegin => it_Status i ∈ StatusAttempting :: unsent ∧ it_Status j = StatusAttempting
               ∧ it_Attempts j = it_Attempts i + 1
  | MvReject => it_Status i ∈ unsent ∧ it_Status j = StatusDefinitelyFailed ∧ it_Attempts j = it_Attempts i + 1
  | MvDrop => it_Status i ∈ unsent ∧ it_Status j ∈ [StatusAmbiguous; StatusAbandoned]
              ∧ it_Attempts j = it_Attempts i
  | MvOutcome => it_Status i = StatusAttempting
                 ∧ it_Status j ∈ [StatusDelivered; StatusDefinitelyFailed; StatusAmbiguous]
                 ∧ it_Attempts j = it_Attempts i
  end.

Definition moves_to (ms : list Move) (o : option Intent) j : Prop :=
  match o with
  | Some i => ∃ m, m ∈ ms ∧ moves m i j
  | None => MvNew ∈ ms ∧ it_Status j = StatusPending ∧ it_Attempts j = 0
  end.
Abbreviation touched ms := (touch (moves_to ms)).

Lemma keep_refl i : moves MvKeep i i.
Proof. done. Qed.

Lemma touched_mono ms ms' id s s' : ms ⊆ ms' → touched ms id s s' → touched ms' id s s'.
Proof.
  intros Hms. apply touch_mono. intros [i|] j; cbn; [intros (m & Hm & ?); exists m; auto|].
  intros (? & ?). auto.
Qed.

(** A record kept or moved by [m] and then written. *)
Lemma save_touched env s ms m i j :
  readable env → peek s (it_ID i) = Some i → m ∈ ms → moves m i j → touched ms (it_ID i) s (save env s j).1.
Proof.
  intros Hr Hi Hm Hmv. assert (it_ID j = it_ID i) as Hid by apply Hmv. rewrite <- Hid in *.
  apply save_touch; [done|]. rewrite Hi. exists m. done.
Qed.

Lemma transition_touched env s id next outcome refresh count allowed m :
  readable env →
  (∀ i, it_Status i ∈ allowed → moves m i (moved env next outcome count i)) →
  touched [MvKeep; m] id s (transition decode env s id next outcome refresh count allowed).1.
Proof.
  intros Hr Hm. unfold transition. destruct (read decode env s id) as [i|] eqn:E; [|apply touch_refl].
  apply read_peek in E as (Hi & <- & _).
  destruct (_ && negb refresh); [eapply save_touched; [done..| |apply keep_refl]; set_solver|].
  unfold statusAllowed. case_bool_decide; [|apply touch_refl].
  eapply save_touched; [done..| |by apply Hm]. set_solver.
Qed.

Lemma transition_ok env s id next outcome refresh count allowed j :
  readable env → (transition decode env s id next outcome refresh count allowed).2 = Ok j →
  peek (transition decode env s id next outcome refresh count allowed).1 id = Some j
  ∧ it_Status j = next ∧ it_ID j = id ∧ is_Some (peek s id).
Proof.
  intros Hr. unfold transition. destruct (read decode env s id) as [i|] eqn:E; [|done].
  apply read_peek in E as (Hi & <- & _).
  destruct (_ && negb refresh) eqn:Hs.
  - intros [-> Hp]%save_ok; [|done]. split_and!; [done| |done..].
    apply andb_prop in Hs as [[Hs _]%andb_prop _]. by apply bool_decide_eq_true in Hs.
  - destruct (negb (statusAllowed _ _)); [by intros [=]|]. intros [-> Hp]%save_ok; [|done]. by split_and!.
Qed.

Lemma BeginAttempt_touched env s id : readable env → touched [MvKeep; MvBegin] id s (BeginAttempt decode env s id).1.
Proof.
  intros Hr. apply transition_touched; [done|]. intros i Hi. split; [done|]. split; [|done].
  unfold unsent. set_solver.
Qed.
Lemma MarkDispatchRejected_touched env s id o :
  readable env → touched [MvKeep; MvReject] id s (MarkDispatchRejected decode env s id o).1.
Proof. intros Hr. apply transition_touched; [done|]. intros i Hi. by split_and!. Qed.
Lemma MarkUnrecoverable_touched env s id o :
  readable env → touched [MvKeep; MvDrop] id s (MarkUnrecoverable decode env s id o).1.
Proof. intros Hr. apply transition_touched; [done|]. intros i Hi. split_and!; [done..| |done]. cbn. set_solver. Qed.
Lemma MarkAbandoned_touched env s id o :
  readable env → touched [MvKeep; MvDrop] id s (MarkAbandoned decode env s id o).1.
Proof. intros Hr. apply transition_touched; [done|]. intros i Hi. split_and!; [done..| |done]. cbn. set_solver. Qed.

Lemma outcome_touched env s id next o :
  readable env → next ∈ [StatusDelivered; StatusDefinitelyFailed; StatusAmbiguous] →
  touched [MvKeep; MvOutcome] id s (transition decode env s id next o false false [StatusAttempting]).1.
Proof.
  intros Hr Hn. apply transition_touched; [done|]. intros i Hi%list_elem_of_singleton.
  by split_and!.
Qed.

Lemma MarkRecoverySettled_touched env s id : readable env → touched [MvKeep] id s (MarkRecoverySettled decode env s id).1.
Proof.
  intros Hr. unfold MarkRecoverySettled. destruct (read decode env s id) as [i|] eqn:E; [|apply touch_refl].
  apply read_peek in E as (Hi & <- & _). destruct (_ || _); [apply touch_refl|].
  destruct (it_RecoverySettled i); (apply (save_touched env s _ MvKeep i); [done|done|set_solver|done]).
Qed.
Lemma MarkTranscriptProjected_touched env s id :
  readable env → touched [MvKeep] id s (MarkTranscriptProjected decode env s id).1.
Proof.
  intros Hr. unfold MarkTranscriptProjected. destruct (read decode env s id) as [i|] eqn:E; [|apply touch_refl].
  apply read_peek in E as (Hi & <- & _). destruct (_ || _); [apply touch_refl|].
  destruct (it_TranscriptProjected i); (apply (save_touched env s _ MvKeep i); [done|done|set_solver|done]).
Qed.
Lemma protectPayload_touched env s id : readable env → touched [MvKeep] id s (protectPayload decode env s id).1.
Proof.
  intros Hr. unfold protectPayload. destruct (read decode env s id) as [i|] eqn:E; [|apply touch_refl].
  apply read_peek in E as (Hi & <- & _). destruct (it_PayloadRetired i); [apply touch_refl|].
  destruct (String.eqb _ _); [apply touch_refl|]. rewrite (proj1 (save_write _ _ _)).
  apply (save_touched env s _ MvKeep i); [done|done|set_solver|done].
Qed.
Lemma compact_keeps i now : moves MvKeep i (compactDeliveredIntent i now).
Proof. unfold compactDeliveredIntent. by destruct (it_PayloadRetired i). Qed.
Lemma retirePlainPayload_touched env s id before now :
  readable env → touched [MvKeep] id s (retirePlainPayload decode env s id before now).1.
Proof.
  intros Hr. unfold retirePlainPayload. destruct (read decode env s id) as [i|] eqn:E; [|apply touch_refl].
  apply read_peek in E as (Hi & <- & _). destruct (_ && _); [apply touch_refl|].
  destruct (validateIntent _); [|apply touch_refl]. destruct (negb _); [apply touch_refl|].
  destruct (_ <? _); [apply touch_refl|].
  apply (save_touched env s _ MvKeep i); [done|done|set_solver|apply compact_keeps].
Qed.

(** *** Creation *)

Lemma read_not_exist env s id : read decode env s id = Err ErrNotExist → peek s id = None.
Proof.
  unfold read, peek. destruct (negb _); [by intros [=]|]. destruct (env_read env id) as [[]|]; [by intros [=]..|].
  destruct (s !! id); [|done]. destruct (decode _) as [i|]; [|done].
  destruct (validateIntent i) eqn:E; cbn; [by destruct (negb _)|].
  apply validateIntent_invalid in E as [d ->]. by intros [=].
Qed.

Lemma new_intent_fresh i : validateNewIntent i = Ok tt →
  validateIntent i = Ok tt ∧ it_Status i = StatusPending ∧ it_Attempts i = 0.
Proof.
  unfold validateNewIntent. rewrite bind_unit_ok, !reject_ok. intros (Hv & Hs & Ha & _). split; [done|].
  apply negb_false_iff, bool_decide_eq_true in Hs. split; [done|].
  repeat (apply orb_false_elim in Ha as [Ha _]). apply negb_false_iff, Z.eqb_eq in Ha. done.
Qed.

Lemma Create_touched env s i : readable env → touched [MvKeep; MvNew] (it_ID i) s (Create decode env s i).1.
Proof.
  intros Hr. unfold Create. destruct (validateNewIntent i) as [[]|] eqn:Hn; [|apply touch_refl].
  apply new_intent_fresh in Hn as (_ & Hst & Hat).
  destruct (read decode env s (it_ID i)) as [e|[]] eqn:E; try apply touch_refl.
  - apply read_peek in E as (He & Hid & _). destruct (negb _); [apply touch_refl|].
    destruct (_ && String.eqb (it_RetentionClass i) ""); (destruct (_ && negb _); [apply touch_refl|]);
      rewrite <- Hid in *; apply (save_touched env s _ MvKeep e); try done; set_solver.
  - apply read_not_exist in E. apply save_touch; [done|]. rewrite E. cbn. split; [set_solver|done].
Qed.

Lemma Create_ok env s i j :
  readable env → (Create decode env s i).2 = Ok j →
  peek (Create decode env s i).1 (it_ID i) = Some j ∧ it_ID j = it_ID i.
Proof.
  intros Hr. unfold Create. destruct (validateNewIntent i) as [[]|] eqn:Hn; [|done].
  destruct (read decode env s (it_ID i)) as [e|[]] eqn:E; try done.
  - apply read_peek in E as (He & Hid & _). destruct (negb _); [done|].
    destruct (_ && String.eqb (it_RetentionClass i) "").
    + cbn [negb]. rewrite andb_false_r. intros [-> Hp]%save_ok; [|done]. rewrite <- Hid at 1. by split.
    + destruct (_ && negb _); [by intros [= <-]|].
      intros [-> Hp]%save_ok; [|done]. rewrite <- Hid at 1. by split.
  - by intros [-> Hp]%save_ok.
Qed.

(** *** Recovery *)

(** What recovery makes of one record, and what it reports of it. *)
Definition owes_settlement i : bool := RecoverySettlementPending i || TranscriptProjectionPending i.
Definition recover_record env i : Intent :=
  if owes_settlement i || RequiresRecoverySettlement i && it_RecoverySettled i then i
  else match it_Status i with StatusAttempting => interrupted env i | _ => i end.
Definition recover_work env i : list Intent :=
  if owes_settlement i then [i]
  else if RequiresRecoverySettlement i && it_RecoverySettled i then []
  else match it_Status i with
  | StatusPending => [i]
  | StatusDefinitelyFailed => if RetryExhausted i then [] else [i]
  | StatusAttempting => if RecoverySettlementPending (interrupted env i) then [interrupted env i] else []
  | _ => []
  end.

Lemma recover_record_moves env i :
  ∃ m, m ∈ [MvKeep; MvOutcome] ∧ moves m i (recover_record env i)
       ∧ (it_Status (recover_record env i) = it_Status i ∨ it_Status (recover_record env i) = StatusAmbiguous).
Proof.
  unfold recover_record. destruct (owes_settlement i || _).
  { exists MvKeep. split; [set_solver|]. split; [done|by left]. }
  destruct (it_Status i) eqn:E; try (exists MvKeep; split; [set_solver|split; [done|by left]]).
  exists MvOutcome. split; [set_solver|]. split; [|by right]. split; [done|]. split; [done|]. split; [|done].
  cbn. set_solver.
Qed.
Lemma recover_record_id env i : it_ID (recover_record env i) = it_ID i.
Proof. destruct (recover_record_moves env i) as (m & _ & [[? _] _] & _). done. Qed.

(** One record is written: the others keep theirs. *)
Lemma write_peek env s i s' res :
  readable env → write env s i = (s', res) →
  (∀ id, id ≠ it_ID i → peek s' id = peek s id)
  ∧ (peek s' (it_ID i) = peek s (it_ID i) ∨ peek s' (it_ID i) = Some i)
  ∧ (res = Ok tt → peek s' (it_ID i) = Some i).
Proof.
  intros Hr Hw. pose proof (save_write env s i) as [Hf Hok]. rewrite Hw in Hf, Hok. cbn in Hf, Hok.
  destruct (save_saved env s i Hr) as [_ Hs]. rewrite <- Hf in Hs. split_and!.
  - destruct Hs as [->|[-> _]]; [done|]. intros. by apply peek_insert_ne.
  - destruct Hs as [->|[-> Hd]]; [by left|]. right. unfold peek. by rewrite lookup_insert_eq, Hd.
  - intros ->. destruct (save env s i) as [s2 [j|e]] eqn:Es; [|done]. cbn in Hf. subst s2.
    pose proof (save_ok env s i j Hr) as Hj. rewrite Es in Hj. by apply Hj.
Qed.

(** [recover_loop] over [l]: the other records stay, each record of [l] stays or
    is what recovery makes of it, and success means that all of them were. *)
Definition recovered env s s' (l d : list Intent) (res : result Error (list Intent)) : Prop :=
  (∀ id, id ∉ it_ID <$> l → peek s' id = peek s id)
  ∧ (∀ i, i ∈ l → peek s' (it_ID i) = Some i ∨ peek s' (it_ID i) = Some (recover_record env i))
  ∧ (∀ out, res = Ok out → out = d ++ (l ≫= recover_work env)
       ∧ ∀ i, i ∈ l → peek s' (it_ID i) = Some (recover_record env i)).

Lemma other_id i (l : list Intent) : it_ID i ∉ it_ID <$> l → ∀ j, j ∈ l → it_ID j ≠ it_ID i.
Proof. intros Hni j Hj Heq. apply Hni. rewrite <- Heq. by apply list_elem_of_fmap_2. Qed.

(** One record is done, the loop goes on. *)
Lemma recovered_cons env s s1 s' i l d res :
  it_ID i ∉ it_ID <$> l → (∀ id, id ≠ it_ID i → peek s1 id = peek s id) →
  peek s1 (it_ID i) = Some (recover_record env i) →
  recovered env s1 s' l (d ++ recover_work env i) res → recovered env s s' (i :: l) d res.
Proof.
  intros Hni Hne Hi (H1 & H2 & H3). split_and!.
  - intros id Hid. csimpl in Hid. apply not_elem_of_cons in Hid as [? ?]. rewrite H1, Hne; done.
  - intros j [->|Hj]%elem_of_cons; [right; by rewrite H1|by apply H2].
  - intros out Hout. destruct (H3 out Hout) as [-> H4]. split; [csimpl; by rewrite app_assoc|].
    intros j [->|Hj]%elem_of_cons; [by rewrite H1|by apply H4].
Qed.

(** The write of the next record failed. *)
Lemma recovered_fail env s s' i l d e w res :
  readable env → it_ID i ∉ it_ID <$> l → (∀ j, j ∈ i :: l → peek s (it_ID j) = Some j) →
  w = recover_record env i → write env s w = (s', res) → recovered env s s' (i :: l) d (Err e).
Proof.
  intros Hr Hni Hl -> Hw. apply write_peek in Hw as (H1 & H2 & _); [|done]. rewrite recover_record_id in *.
  split_and!; [| |done].
  - intros id Hx. csimpl in Hx. apply not_elem_of_cons in Hx as [? _]. by apply H1.
  - intros j [->|Hj]%elem_of_cons; [destruct H2 as [->|]; [left; by apply Hl, list_elem_of_here|by right]|].
    left. rewrite H1 by (by eapply other_id). apply Hl. by right.
Qed.

Lemma recover_loop_spec env l : ∀ s d s' res,
  readable env → NoDup (it_ID <$> l) → (∀ i, i ∈ l → peek s (it_ID i) = Some i) →
  recover_loop env s l d = (s', res) → recovered env s s' l d res.
Proof.
  induction l as [|i l IH]; intros s d s' res Hr Hnd Hl Hrec.
  { injection Hrec as <- <-. split; [done|]. split; [by intros ? ?%elem_of_nil|].
    intros out [= <-]. split; [by rewrite app_nil_r|by intros ? ?%elem_of_nil]. }
  apply NoDup_cons in Hnd as [Hni Hnd]. pose proof (Hl i (list_elem_of_here _ _)) as Hi.
  assert (∀ s1 d1, (∀ id, id ≠ it_ID i → peek s1 id = peek s id) →
    peek s1 (it_ID i) = Some (recover_record env i) → recover_loop env s1 l d1 = (s', res) →
    d1 = d ++ recover_work env i → recovered env s s' (i :: l) d res) as Hstep.
  { intros s1 d1 Hne Hi1 Hrec1 ->. eapply recovered_cons; [done..|]. apply IH; [done..| |done].
    intros j Hj. rewrite Hne by (by eapply other_id). apply Hl. by right. }
  assert (∀ d1, recover_record env i = i → recover_loop env s l d1 = (s', res) →
    d1 = d ++ recover_work env i → recovered env s s' (i :: l) d res) as Hkeep.
  { intros d1 Hrr. apply Hstep; [done|]. by rewrite Hrr. }
  cbn [recover_loop] in Hrec. fold (owes_settlement i) in Hrec.
  unfold recover_record, recover_work in Hkeep.
  destruct (owes_settlement i) eqn:Ho; [by eapply Hkeep|].
  destruct (RequiresRecoverySettlement i && it_RecoverySettled i) eqn:Hs; [eapply Hkeep; rewrite ?app_nil_r; done|].
  destruct (it_Status i) eqn:Hst; try (eapply Hkeep; [done..|by rewrite app_nil_r]).
  - by eapply Hkeep.
  - assert (recover_record env i = interrupted env i) as Hrr by (unfold recover_record; by rewrite Ho, Hs, Hst).
    destruct (write env s (interrupted env i)) as [s1 [[]|e]] eqn:Hw;
      [|injection Hrec as -> <-; by eapply recovered_fail].
    pose proof (write_peek _ _ _ _ _ Hr Hw) as (H1 & _ & H3).
    eapply Hstep; [exact H1|rewrite Hrr; by apply H3|exact Hrec|].
    unfold recover_work. rewrite Ho, Hs, Hst. by destruct (RecoverySettlementPending _); rewrite ?app_nil_r.
  - eapply Hkeep; [done|exact Hrec|]. by destruct (RetryExhausted i); rewrite ?app_nil_r.
  - destruct (String.eqb _ _); [|eapply Hkeep; [done|exact Hrec|by rewrite app_nil_r]].
    assert (i = recover_record env i) as Hrr by (unfold recover_record; by rewrite Ho, Hs, Hst).
    destruct (write env s i) as [s1 [[]|e]] eqn:Hw; [|injection Hrec as -> <-; by eapply recovered_fail].
    pose proof (write_peek _ _ _ _ _ Hr Hw) as (H1 & _ & H3).
    eapply Hstep; [exact H1|rewrite <- Hrr; by apply H3|exact Hrec|].
    unfold recover_work. by rewrite Ho, Hs, Hst, app_nil_r.
Qed.

(** *** Listing *)

Definition read_ok (r : result Error Intent) : option Intent := match r with Ok i => Some i | Err _ => None end.
Definition read_issue env s id : option RecoveryIssue :=
  match read decode env s id with Ok _ => None | Err e => isolatedRecordIssue id e end.
Definition read_all env s (ids : list string) : list Intent := omap (fun id => read_ok (read decode env s id)) ids.

Lemma list_loop_spec env s ids : ∀ records issues out iss,
  list_loop decode env s ids records issues = Ok (out, iss) →
  out = merge_sort intent_le (records ++ read_all env s ids)
  ∧ iss = issues ++ omap (read_issue env s) ids
  ∧ Forall (fun id => is_ok (read decode env s id) = true ∨ is_Some (read_issue env s id)) ids.
Proof.
  induction ids as [|id ids IH]; intros records issues out iss; cbn [list_loop].
  { intros [= <- <-]. by rewrite !app_nil_r. }
  unfold read_all. csimpl. unfold read_issue at 1 2. destruct (read decode env s id) as [i|e] eqn:E.
  - intros (-> & -> & Hf)%IH. rewrite <- app_assoc. split; [done|]. split; [done|]. constructor; [left; by rewrite ?E|done].
  - destruct (isolatedRecordIssue id e) as [issue|] eqn:Hi; [|done].
    intros (-> & -> & Hf)%IH. rewrite <- app_assoc. split; [done|]. split; [done|].
    constructor; [right; unfold read_issue; by rewrite E, Hi|done].
Qed.

Lemma elem_of_record_ids s id : id ∈ record_ids s ↔ is_Some (s !! id).
Proof.
  unfold record_ids. rewrite merge_sort_Permutation, list_elem_of_fmap. split.
  - intros ([k v] & -> & Hin%elem_of_map_to_list). by exists v.
  - intros [v Hv]. exists (id, v). by rewrite elem_of_map_to_list.
Qed.
Lemma record_ids_nodup s : NoDup (record_ids s).
Proof. unfold record_ids. rewrite merge_sort_Permutation. apply NoDup_fst_map_to_list. Qed.

Lemma elem_of_read_all env s ids i :
  i ∈ read_all env s ids ↔ it_ID i ∈ ids ∧ read decode env s (it_ID i) = Ok i.
Proof.
  unfold read_all. rewrite list_elem_of_omap. split.
  - intros (id & Hid & Hok). destruct (read decode env s id) as [i'|] eqn:E; [|done]. injection Hok as ->.
    pose proof E as (_ & <- & _)%read_peek. done.
  - intros [Hid Hok]. exists (it_ID i). by rewrite Hok.
Qed.
Lemma read_all_nodup env s ids : NoDup ids → NoDup (it_ID <$> read_all env s ids).
Proof.
  unfold read_all. induction 1 as [|id ids Hni _ IH]; [constructor|]. csimpl.
  destruct (read decode env s id) as [i|] eqn:E; [|done]. cbn [read_ok]. csimpl. constructor; [|done].
  apply read_peek in E as (_ & -> & _). intros Hin. apply list_elem_of_fmap in Hin as (j & Hj & Hin).
  apply elem_of_read_all in Hin as [Hin _]. by rewrite <- Hj in Hin.
Qed.

(** The records recovery works on: all that can be read, oldest first. *)
Definition recovery_records env s : list Intent := merge_sort intent_le (read_all env s (record_ids s)).

Lemma recovery_records_facts env s :
  NoDup (it_ID <$> recovery_records env s)
  ∧ ∀ i, i ∈ recovery_records env s ↔ read decode env s (it_ID i) = Ok i.
Proof.
  unfold recovery_records. split.
  - rewrite merge_sort_Permutation. apply read_all_nodup, record_ids_nodup.
  - intros i. rewrite merge_sort_Permutation, elem_of_read_all, elem_of_record_ids. split; [by intros [_ ?]|].
    intros Hr. split; [|done]. apply read_peek in Hr as (Hp & _). unfold peek in Hp. by destruct (s !! it_ID i).
Qed.

Lemma Recover_spec env s s' res : readable env → Recover decode env s = (s', res) →
  s' = s ∧ (∃ e, res = Err e)
  ∨ ∃ out, recovered env s s' (recovery_records env s) [] out
    ∧ match res with
      | Ok report => out = Ok (rr_Intents report) ∧ rr_Issues report = omap (read_issue env s) (record_ids s)
      | Err _ => is_ok out = false
      end.
Proof.
  intros Hr. unfold Recover, list_. destruct (negb (env_dir env)); [intros [= <- <-]; left; eauto|].
  destruct (list_loop _ _ _ _ _ _) as [[records issues]|] eqn:Hl; [|intros [= <- <-]; left; eauto].
  apply list_loop_spec in Hl as (-> & -> & _). cbn [app]. fold (recovery_records env s).
  destruct (recovery_records_facts env s) as [Hnd Hin].
  destruct (recover_loop env s _ []) as [s1 [out|e]] eqn:Hl; intros [= <- <-]; right;
    eexists; (split; [eapply recover_loop_spec; [done..| |exact Hl]|done]);
    intros i Hi; by apply Hin, read_peek in Hi as [? _].
Qed.
End records.

(** The coordinator seen from one delivery.

    [slot c id] is all the coordinator and the disk know of the delivery [id].
    [slot_step] lists what an operation may do to it, as an inductive relation;
    [slot_ok] is the invariant those steps keep.  [wf] is the invariant of the
    whole coordinator and [evolve] what every operation guarantees: each slot
    takes steps, and no receipt is lost. *)

Record Slot := mkSlot {
  sl_rec : option Intent; sl_lease : option Z; sl_publishing : option Z; sl_published : bool;
  sl_attempting : bool; sl_receipt : option Z }.
#[export] Instance eta_Slot : Eta Slot := fun s =>
  mkSlot (sl_rec s) (sl_lease s) (sl_publishing s) (sl_published s) (sl_attempting s) (sl_receipt s).

(** The record of the slot becomes [o], moved by one of [ms] or not at all. *)
Definition rec_to (ms : list Move) (sl : Slot) (o : option Intent) : Prop :=
  o = sl_rec sl ∨ ∃ j, o = Some j ∧ moves_to ms (sl_rec sl) j.

(** The transport's answers. *)
Definition outcomes : list Status := [StatusDelivered; StatusDefinitelyFailed; StatusAmbiguous].

(** The moves a published delivery may make without and with an attempt. *)
Definition published_moves (attempting : bool) : list (list Move) :=
  if attempting then [[MvKeep; MvOutcome]] else [[MvKeep; MvBegin]; [MvKeep; MvReject]].

(** [lo] and [hi] bound the generation of a lease issued now; [p] is the
    generation of the lease being prepared for publication, if any. *)
Inductive slot_step (lo hi : Z) (p : option Z) (sl : Slot) : Slot → Prop :=
| st_keep j : moves_to [MvKeep; MvNew] (sl_rec sl) j → slot_step lo hi p sl (sl <| sl_rec := Some j |>)
| st_interrupt i j :
    sl_rec sl = Some i → moves MvOutcome i j → it_Status j = StatusAmbiguous →
    slot_step lo hi p sl (sl <| sl_rec := Some j |>)
| st_claim i g :
    sl_rec sl = Some i → dispatchable i = true → sl_lease sl = None → sl_published sl = false → lo < g ≤ hi →
    slot_step lo hi p sl (sl <| sl_lease := Some g |> <| sl_receipt := Some g |>)
| st_prepare g :
    p = Some g → sl_lease sl = Some g →
    slot_step lo hi p sl (sl <| sl_publishing := Some g |> <| sl_published := true |>)
| st_commit g :
    sl_lease sl = Some g → sl_publishing sl = Some g →
    slot_step lo hi p sl (sl <| sl_lease := None |> <| sl_publishing := None |>)
| st_begin i j :
    sl_published sl = true → sl_attempting sl = false → sl_rec sl = Some i →
    moves_to [MvKeep; MvBegin] (Some i) j → it_Status j = StatusAttempting →
    slot_step lo hi p sl (sl <| sl_rec := Some j |> <| sl_attempting := true |>)
| st_fence ms o :
    sl_published sl = true → ms ∈ published_moves (sl_attempting sl) → rec_to ms sl o →
    slot_step lo hi p sl (sl <| sl_rec := o |> <| sl_attempting := true |> <| sl_receipt := None |>)
| st_reject j :
    sl_published sl = true → sl_attempting sl = false → is_Some (sl_rec sl) →
    moves_to [MvKeep; MvReject] (sl_rec sl) j → it_Status j = StatusDefinitelyFailed →
    slot_step lo hi p sl (sl <| sl_rec := Some j |> <| sl_published := false |> <| sl_receipt := None |>)
| st_outcome j :
    sl_published sl = true → sl_attempting sl = true → is_Some (sl_rec sl) →
    moves_to [MvKeep; MvOutcome] (sl_rec sl) j → it_Status j ∈ outcomes →
    slot_step lo hi p sl (sl <| sl_rec := Some j |> <| sl_attempting := false |> <| sl_published := false |>
                           <| sl_receipt := None |>)
| st_release g :
    sl_lease sl = Some g →
    slot_step lo hi p sl (sl <| sl_lease := None |> <| sl_publishing := None |> <| sl_published := false |>
                           <| sl_receipt := None |>)
| st_drop_fail o :
    sl_published sl = false → sl_attempting sl = false → rec_to [MvKeep; MvDrop] sl o →
    slot_step lo hi p sl (sl <| sl_rec := o |> <| sl_receipt := None |>)
| st_drop j :
    sl_publishing sl = None → sl_published sl = false → sl_attempting sl = false → is_Some (sl_rec sl) →
    moves_to [MvKeep; MvDrop] (sl_rec sl) j → it_Status j ∈ [StatusAmbiguous; StatusAbandoned] →
    slot_step lo hi p sl (sl <| sl_rec := Some j |> <| sl_lease := None |> <| sl_receipt := None |>)
| st_close : slot_step lo hi p sl (sl <| sl_receipt := None |>).

(** A record being attempted is fenced off from a second attempt; a lease that
    is being published is held; a receipt has an owner who will finish it. *)
Record slot_ok (sl : Slot) : Prop := {
  so_fence : ∀ i, sl_rec sl = Some i → it_Status i = StatusAttempting →
    sl_attempting sl = true ∨ sl_lease sl = None ∧ sl_published sl = false;
  so_publishing : ∀ g, sl_publishing sl = Some g → sl_lease sl = Some g;
  so_published : is_Some (sl_receipt sl) → is_Some (sl_publishing sl) → sl_published sl = true;
  so_owner : is_Some (sl_receipt sl) → is_Some (sl_lease sl) ∨ sl_published sl = true }.

(** [H : x ∈ [a; b; ...]] with constants none of which is [x]. *)
Ltac absent H := repeat (apply elem_of_cons in H as [H|H]; [discriminate H|]); by apply elem_of_nil in H.

Lemma moves_status m i j : moves m i j → it_Status j = StatusAttempting →
  m = MvBegin ∨ m = MvKeep ∧ it_Status i = StatusAttempting.
Proof.
  intros [_ Hm] Hj. destruct m; [done|right; destruct Hm as [<- _]; done|by left|..];
    destruct Hm as (_ & Hs & _); rewrite Hj in Hs; try done; absent Hs.
Qed.
(** Only a move with [MvBegin] makes a record one that is being attempted. *)
Lemma moves_to_status ms o j : MvBegin ∉ ms → moves_to ms o j → it_Status j = StatusAttempting →
  ∃ i, o = Some i ∧ it_Status i = StatusAttempting.
Proof.
  destruct o as [i|]; cbn; [|by intros _ (_ & -> & _)]. intros Hms (m & Hm & Hmv) Hj. exists i. split; [done|].
  by destruct (moves_status _ _ _ Hmv Hj) as [->|[_ ?]].
Qed.
Lemma rec_to_status ms sl i : MvBegin ∉ ms → rec_to ms sl (Some i) → it_Status i = StatusAttempting →
  ∃ i', sl_rec sl = Some i' ∧ it_Status i' = StatusAttempting.
Proof.
  intros Hms [Hi|(j & [= <-] & Hmv)] Hst; [by exists i|]. by eapply moves_to_status.
Qed.

(** The leases, the publication and the receipt of a slot after a step. *)
Lemma slot_step_owners lo hi p sl sl' : slot_step lo hi p sl sl' → slot_ok sl →
  (∀ g, sl_publishing sl' = Some g → sl_lease sl' = Some g)
  ∧ (is_Some (sl_receipt sl') → is_Some (sl_publishing sl') → sl_published sl' = true)
  ∧ (is_Some (sl_receipt sl') → is_Some (sl_lease sl') ∨ sl_published sl' = true).
Proof.
  intros Hs [_ Hp Hr Ho]. destruct Hs;
    repeat match goal with
    | H : moves_to _ _ _ |- _ => clear H | H : rec_to _ _ _ |- _ => clear H
    | H : moves _ _ _ |- _ => clear H | H : _ ∈ _ |- _ => clear H | H : is_Some (sl_rec _) |- _ => clear H
    end; cbn; split_and!; try done; unfold is_Some in *; naive_solver.
Qed.

Lemma slot_step_ok lo hi p sl sl' : slot_step lo hi p sl sl' → slot_ok sl → slot_ok sl'.
Proof.
  intros Hs Hok. destruct (slot_step_owners _ _ _ _ _ Hs Hok) as (H1 & H2 & H3). split; try done.
  clear H1 H2 H3. destruct Hok as [Hf _ _ _].
  destruct Hs as [j Hm|i j Hi Hm Hst|i g Hi Hd Hl Hp Hg|g Hpr Hl|g Hl Hp|i j Hp Ha Hi Hm Hst|ms o Hp Hms Hr
    |j Hp Ha Hi Hm Hst|j Hp Ha Hi Hm Hst|g Hl|o Hp Ha Hr|j Hpb Hp Ha Hi Hm Hst|]; cbn; intros i' Hi' Hst'.
  - injection Hi' as <-. eapply moves_to_status in Hm as (i & Hi & Hs); [by eapply Hf|set_solver|done].
  - injection Hi' as <-. congruence.
  - rewrite Hi in Hi'. injection Hi' as <-. unfold dispatchable in Hd. by rewrite Hst' in Hd.
  - destruct (Hf _ Hi' Hst') as [|[? _]]; [by left|congruence].
  - destruct (Hf _ Hi' Hst') as [|[_ ?]]; [by left|by right].
  - by left.
  - by left.
  - injection Hi' as <-. congruence.
  - injection Hi' as <-. rewrite Hst' in Hst. absent Hst.
  - destruct (Hf _ Hi' Hst') as [|[_ ?]]; [by left|by right].
  - subst o. eapply rec_to_status in Hr as (i & Hi & Hs); [by eapply Hf|set_solver|done].
  - injection Hi' as <-. rewrite Hst' in Hst. absent Hst.
  - by eapply Hf.
Qed.

Lemma slot_step_lease lo hi p sl sl' : slot_step lo hi p sl sl' →
  ∀ g, sl_lease sl' = Some g → sl_lease sl = Some g ∨ lo < g ≤ hi.
Proof. intros Hs g. destruct Hs; cbn; try (by left); try done. intros [= <-]. by right. Qed.
Lemma rtc_lease lo hi p sl sl' : rtc (slot_step lo hi p) sl sl' →
  ∀ g, sl_lease sl' = Some g → sl_lease sl = Some g ∨ lo < g ≤ hi.
Proof.
  induction 1 as [|x y z Hxy _ IH]; [by left|]. intros g Hg. destruct (IH g Hg) as [Hy|]; [|by right].
  by eapply slot_step_lease.
Qed.
(** A receipt stays, goes, or is a fresh one where none was owed. *)
Lemma slot_step_receipt lo hi p sl sl' : slot_step lo hi p sl sl' → slot_ok sl →
  sl_receipt sl' = sl_receipt sl ∨ sl_receipt sl' = None
  ∨ sl_receipt sl = None ∧ ∃ g, sl_receipt sl' = Some g ∧ lo < g ≤ hi.
Proof.
  intros Hs Hok. destruct Hs as [| |i g Hi Hd Hl Hp Hg| | | | | | | | | |]; cbn; auto.
  right; right. split; [|by exists g]. destruct (sl_receipt sl) as [g'|] eqn:E; [|done].
  destruct (so_owner _ Hok) as [[? Ho]|Ho]; rewrite ?E in *; [done|congruence..].
Qed.
Lemma slot_step_mono lo hi lo' hi' p sl sl' :
  lo' ≤ lo → hi ≤ hi' → slot_step lo hi p sl sl' → slot_step lo' hi' p sl sl'.
Proof.
  intros ? ? Hs. destruct Hs;
    [eapply st_keep|eapply st_interrupt|eapply st_claim|eapply st_prepare|eapply st_commit|eapply st_begin
    |eapply st_fence|eapply st_reject|eapply st_outcome|eapply st_release|eapply st_drop_fail|eapply st_drop
    |eapply st_close]; eauto. lia.
Qed.

Section coordinator.
Context `{Sha256} `{UnicodeCase}.
Variable decode : string → result DecodeError Intent.
Implicit Types (c : Coordinator) (env : Env) (id : string).

Definition slot c id : Slot :=
  mkSlot (peek decode (store c) id) (leases c !! id) (publishing c !! id) (bool_decide (id ∈ published c))
    (bool_decide (id ∈ attempting c)) (receipts c !! id).

Record wf c : Prop := {
  wf_slot : ∀ id, slot_ok (slot c id);
  wf_seq : 0 ≤ dispatchLeaseSequence c;
  wf_lease : ∀ id g, leases c !! id = Some g → 0 < g ≤ dispatchLeaseSequence c;
  wf_receipt : ∀ id g, receipts c !! id = Some g → 0 < g ≤ dispatchLeaseSequence c ∧ results c !! g = None;
  wf_inj : ∀ id id' g, receipts c !! id = Some g → receipts c !! id' = Some g → id = id';
  wf_results : ∀ g, is_Some (results c !! g) → g ≤ dispatchLeaseSequence c;
  wf_closed : closed c = true → receipts c = ∅ }.

Record evolve p c c' : Prop := {
  ev_slots : ∀ id, rtc (slot_step (dispatchLeaseSequence c) (dispatchLeaseSequence c') p) (slot c id) (slot c' id);
  ev_seq : dispatchLeaseSequence c ≤ dispatchLeaseSequence c';
  ev_stable : ∀ g r, results c !! g = Some r → results c' !! g = Some r;
  ev_receipts : ∀ id g, receipts c !! id = Some g → receipts c' !! id = Some g ∨ is_Some (results c' !! g);
  ev_closed : closed c = true → closed c' = true }.

(** An operation keeps the invariant and evolves the coordinator. *)
Definition good p c c' : Prop := wf c → wf c' ∧ evolve p c c'.

Lemma evolve_refl p c : evolve p c c.
Proof. split; try done; auto. Qed.
Lemma evolve_trans p c1 c2 c3 : evolve p c1 c2 → evolve p c2 c3 → evolve p c1 c3.
Proof.
  intros [S1 Q1 T1 R1 C1] [S2 Q2 T2 R2 C2]. split; [|lia|auto| |auto].
  - intros id. etrans.
    + eapply (rtc_congruence (fun sl => sl)); [|apply S1]. intros ??. apply slot_step_mono; lia.
    + eapply (rtc_congruence (fun sl => sl)); [|apply S2]. intros ??. apply slot_step_mono; lia.
  - intros id g Hg. destruct (R1 _ _ Hg) as [Hg'|[r Hr]]; [by apply R2|]. right. exists r. by apply T2.
Qed.
#[export] Instance good_preorder p : PreOrder (good p).
Proof.
  split; [intros c Hc; split; [done|apply evolve_refl]|].
  intros c1 c2 c3 H12 H23 Hc. destruct (H12 Hc) as [Hc2 He]. destruct (H23 Hc2) as [Hc3 He'].
  split; [done|]. by eapply evolve_trans.
Qed.

(** The receipt of [id] is finished and the others are left. *)
Definition finishes c c' id : Prop :=
  receipts c' !! id = None ∧
  ∃ res, results c' = match receipts c !! id with Some g => finish g res (results c) | None => results c end.

(** What is asked of an operation that changes one slot. *)
Record one_slot p c c' id : Prop := {
  os_other : ∀ id', id' ≠ id → slot c' id' = slot c id';
  os_step : slot_step (dispatchLeaseSequence c) (dispatchLeaseSequence c') p (slot c id) (slot c' id);
  os_results : finishes c c' id
    ∨ results c' = results c ∧ (is_Some (receipts c !! id) → is_Some (receipts c' !! id));
  os_seq : dispatchLeaseSequence c ≤ dispatchLeaseSequence c';
  os_closed : closed c' = false }.

Section one_slot.
Context (p : option Z) (c c' : Coordinator) (id : string) (Hwf : wf c) (Hos : one_slot p c c' id).

Lemma one_slot_receipt id' : id' ≠ id → receipts c' !! id' = receipts c !! id'.
Proof. intros Hne. apply (os_other _ _ _ _ Hos) in Hne. by apply (f_equal sl_receipt) in Hne. Qed.
Lemma one_slot_lease id' : id' ≠ id → leases c' !! id' = leases c !! id'.
Proof. intros Hne. apply (os_other _ _ _ _ Hos) in Hne. by apply (f_equal sl_lease) in Hne. Qed.

Lemma one_slot_cases :
  receipts c' !! id = receipts c !! id ∨ receipts c' !! id = None
  ∨ receipts c !! id = None ∧ ∃ g, receipts c' !! id = Some g ∧ dispatchLeaseSequence c < g ≤ dispatchLeaseSequence c'.
Proof. exact (slot_step_receipt _ _ _ _ _ (os_step _ _ _ _ Hos) (wf_slot _ Hwf id)). Qed.

Lemma one_slot_stable g r : results c !! g = Some r → results c' !! g = Some r.
Proof.
  intros Hg. destruct (os_results _ _ _ _ Hos) as [(_ & res & ->)|[-> _]]; [|done].
  destruct (receipts c !! id) as [g'|]; [|done]. unfold finish. destruct (results c !! g') eqn:E; [done|].
  rewrite lookup_insert_ne; [done|congruence].
Qed.

Lemma one_slot_results g :
  is_Some (results c' !! g) → is_Some (results c !! g) ∨ receipts c !! id = Some g ∧ receipts c' !! id = None.
Proof.
  destruct (os_results _ _ _ _ Hos) as [(Hn & res & ->)|[-> _]]; [|by left].
  destruct (receipts c !! id) as [g'|] eqn:E; [|by left]. unfold finish.
  destruct (results c !! g') eqn:E'; [by left|].
  destruct (decide (g' = g)) as [->|Hne]; [by right|]. rewrite lookup_insert_ne by done. by left.
Qed.

Lemma one_slot_keeps id' g :
  receipts c !! id' = Some g → receipts c' !! id' = Some g ∨ is_Some (results c' !! g).
Proof.
  intros Hg. destruct (decide (id' = id)) as [->|Hne]; [|left; by rewrite one_slot_receipt].
  destruct (os_results _ _ _ _ Hos) as [(_ & res & ->)|[_ Hsome]].
  - right. rewrite Hg. unfold finish. destruct (results c !! g) eqn:E; [by rewrite E|].
    rewrite lookup_insert_eq. by eexists.
  - left. destruct one_slot_cases as [->|[Hn|[Hn _]]]; [done| |congruence].
    destruct (Hsome (mk_is_Some _ _ Hg)) as [? ?]. congruence.
Qed.

(** A receipt of the new state is an old one, or fresh. *)
Lemma one_slot_new id' g :
  receipts c' !! id' = Some g →
  receipts c !! id' = Some g ∨ id' = id ∧ dispatchLeaseSequence c < g ≤ dispatchLeaseSequence c'.
Proof.
  intros Hg. destruct (decide (id' = id)) as [->|Hne]; [|left; by rewrite <- one_slot_receipt].
  destruct one_slot_cases as [Heq|[Hn|(_ & g' & Hg' & ?)]]; [left; congruence|congruence|].
  right. rewrite Hg in Hg'. by injection Hg' as <-.
Qed.

Lemma one_slot_wf : wf c'.
Proof.
  pose proof (wf_seq _ Hwf). pose proof (os_seq _ _ _ _ Hos).
  split; [|lia| | | | |by rewrite (os_closed _ _ _ _ Hos)].
  - intros id'. destruct (decide (id' = id)) as [->|Hne].
    + eapply slot_step_ok; [apply Hos|apply (wf_slot _ Hwf)].
    + rewrite (os_other _ _ _ _ Hos) by done. apply (wf_slot _ Hwf).
  - intros id' g Hg. destruct (decide (id' = id)) as [->|Hne].
    + destruct (slot_step_lease _ _ _ _ _ (os_step _ _ _ _ Hos) g Hg) as [Hg'|?]; [|lia].
      apply (wf_lease _ Hwf) in Hg'. lia.
    + rewrite one_slot_lease in Hg by done. apply (wf_lease _ Hwf) in Hg. lia.
  - intros id' g Hg. destruct (one_slot_new _ _ Hg) as [Hg'|[-> ?]].
    + pose proof (wf_receipt _ Hwf _ _ Hg') as [? Hn]. split; [lia|].
      apply eq_None_not_Some. intros [Hr|[Hr Hr']]%one_slot_results; [rewrite Hn in Hr; by destruct Hr|].
      pose proof (wf_inj _ Hwf _ _ _ Hg' Hr) as ->. congruence.
    + split; [lia|]. apply eq_None_not_Some.
      intros [Hr%(wf_results _ Hwf)|[Hr%(wf_receipt _ Hwf) _]]%one_slot_results; lia.
  - intros id1 id2 g Ha Hb.
    destruct (one_slot_new _ _ Ha) as [Ha'|[-> ?]], (one_slot_new _ _ Hb) as [Hb'|[-> ?]];
      [by eapply (wf_inj _ Hwf)|apply (wf_receipt _ Hwf) in Ha'; lia|apply (wf_receipt _ Hwf) in Hb'; lia|done].
  - intros g [Hr%(wf_results _ Hwf)|[Hr%(wf_receipt _ Hwf) _]]%one_slot_results; lia.
Qed.

Lemma one_slot_evolve : closed c = false → evolve p c c'.
Proof.
  intros Hop. split.
  - intros id'. destruct (decide (id' = id)) as [->|]; [apply rtc_once, Hos|]. by rewrite (os_other _ _ _ _ Hos).
  - apply Hos.
  - apply one_slot_stable.
  - apply one_slot_keeps.
  - congruence.
Qed.
End one_slot.

Lemma one_slot_good p c c' id : closed c = false → (wf c → one_slot p c c' id) → good p c c'.
Proof. intros Hop Hos Hwf. split; [by eapply one_slot_wf; [|apply Hos]|by eapply one_slot_evolve; [|apply Hos|]]. Qed.
End coordinator.
