(* ===== verification/OutboxSteps.v ===== *)
(** Every operation of the coordinator keeps its invariant and takes steps of
    [slot_step] only ([good]). *)
From S2P Require Import Prelude GoStrings GoJson GoTime TaskResult BusInbound BusOutbound OutboxTypes.
From S2P Require Import OutboxStore OutboxCoordinator OutboxRecords.
From stdpp Require Import gmap relations.
#[local] Open Scope Z_scope.

Section steps.
Context `{Sha256} `{UnicodeCase}.
Variable decode : string → result DecodeError Intent.
Implicit Types (c : Coordinator) (env : Env) (id : string) (lease : DispatchLease).

Local Abbreviation peek := (peek decode).
Local Abbreviation slot := (slot decode).
Local Abbreviation good := (good decode None).
Local Abbreviation readable := (readable decode).
Local Abbreviation touched ms := (touch decode (moves_to ms)).

Lemma finishReceiptLocked_eq c id res :
  finishReceiptLocked c id res =
  c <| receipts ::= delete id |>
    <| results ::= fun m => match receipts c !! id with Some g => finish g res m | None => m end |>.
Proof.
  unfold finishReceiptLocked. destruct (receipts c !! id) eqn:E; [done|].
  destruct c; cbn in *. by rewrite delete_id.
Qed.

(** [finish] empties the slot's receipt. *)
Lemma finished c0 c id res :
  receipts c = receipts c0 → results c = results c0 → finishes c0 (finishReceiptLocked c id res) id.
Proof.
  intros E1 E2. rewrite finishReceiptLocked_eq. split; cbn; [by rewrite lookup_delete_eq|].
  exists res. by rewrite E1, E2.
Qed.

Lemma decide_in id (X : gset string) : bool_decide (id ∈ {[id]} ∪ X) = true.
Proof. apply bool_decide_eq_true. set_solver. Qed.
Lemma decide_out id (X : gset string) : bool_decide (id ∈ X ∖ {[id]}) = false.
Proof. apply bool_decide_eq_false. set_solver. Qed.
Lemma decide_in_ne id id' (X : gset string) : id' ≠ id → bool_decide (id' ∈ {[id]} ∪ X) = bool_decide (id' ∈ X).
Proof. intros. apply bool_decide_ext. set_solver. Qed.
Lemma decide_out_ne id id' (X : gset string) : id' ≠ id → bool_decide (id' ∈ X ∖ {[id]}) = bool_decide (id' ∈ X).
Proof. intros. apply bool_decide_ext. set_solver. Qed.

(** The slot of [id] after updates at [id], and the slots of the others. *)
Ltac slot_here :=
  unfold OutboxRecords.slot; cbn;
  rewrite ?lookup_insert_eq, ?lookup_delete_eq, ?decide_in, ?decide_out; try done.
Ltac becomes sl' :=
  match goal with |- slot_step _ _ _ _ ?t => let E := fresh in assert (t = sl') as E; [slot_here|rewrite E; clear E] end.
Ltac slot_other Ht :=
  intros ?id' ?Hne; unfold OutboxRecords.slot; cbn;
  rewrite ?lookup_insert_ne, ?lookup_delete_ne, ?decide_in_ne, ?decide_out_ne by done;
  rewrite ?(touch_other _ _ _ _ _ _ Ht) by done; try done.

Lemma touched_rec_to ms id s s' sl : touched ms id s s' → sl_rec sl = peek s id → rec_to ms sl (peek s' id).
Proof. intros [->|(j & _ & _ & -> & Hm)] Hsl; [by left|]. right. exists j. by rewrite Hsl. Qed.
Lemma touched_moves_to ms id s s' i j :
  MvKeep ∈ ms → touched ms id s s' → peek s id = Some i → peek s' id = Some j → moves_to ms (Some i) j.
Proof.
  intros Hk [->|(j' & _ & _ & Hp & Hm)] Hi Hj; [|congruence]. exists MvKeep. split; [done|].
  rewrite Hi in Hj. by injection Hj as ->.
Qed.

Lemma guard_open (P : Prop) c (g : result Error ()) :
  (g = Ok tt → closed c = false) → (closed c = false → P) → (∀ e, g = Err e → P) → P.
Proof. intros Ho Hk He. destruct g as [[]|e] eqn:E; [by apply Hk, Ho|by eapply He]. Qed.
Lemma lease_guard_ok c lease : lease_guard c lease = Ok tt → closed c = false ∧ dl_generation lease ≠ 0.
Proof.
  unfold lease_guard, validateOpenLocked. rewrite !reject_ok. intros (Hl & Hc & _). split; [done|].
  apply orb_false_elim in Hl as [_ Hl]. by apply Z.eqb_neq in Hl.
Qed.
Lemma id_guard_ok c id : id_guard c id = Ok tt → closed c = false.
Proof. unfold id_guard, validateOpenLocked. rewrite !reject_ok. by intros (_ & Hc & _). Qed.
Lemma open_ok c : validateOpenLocked c = Ok tt → closed c = false.
Proof. unfold validateOpenLocked. rewrite reject_ok. by intros [? _]. Qed.

Lemma generation_held (m : gmap string Z) id g :
  negb (generation_of m id =? g) = false → g ≠ 0 → m !! id = Some g.
Proof.
  intros Hg%negb_false_iff%Z.eqb_eq Hn. unfold generation_of in Hg. destruct (m !! id); cbn in *; congruence.
Qed.

(** ** Operations on the in-process state *)

Lemma PrepareAdmission_good c lease :
  OutboxRecords.good decode (Some (dl_generation lease)) c (PrepareAdmission c lease).1.
Proof.
  unfold PrepareAdmission. destruct (lease_guard c lease) as [[]|] eqn:Hg; [|done].
  apply lease_guard_ok in Hg as [Hop Hn].
  destruct (negb (generation_of (leases c) _ =? _)) eqn:Hl; [done|]. apply generation_held in Hl; [|done].
  destruct (_ && _); [done|].
  apply (one_slot_good _ _ _ _ (dl_deliveryID lease)); [done|]. intros Hwf.
  split; cbn; [slot_other tt| |by right|done..].
  becomes (slot c (dl_deliveryID lease) <| sl_publishing := Some (dl_generation lease) |> <| sl_published := true |>).
  by apply st_prepare.
Qed.

Lemma CommitAdmission_good c lease : good c (CommitAdmission c lease).1.
Proof.
  unfold CommitAdmission. destruct (lease_guard c lease) as [[]|] eqn:Hg; [|done].
  apply lease_guard_ok in Hg as [Hop Hn].
  destruct (negb (generation_of (leases c) _ =? _)) eqn:Hl; [done|]. apply generation_held in Hl; [|done].
  destruct (negb (generation_of (publishing c) _ =? _)) eqn:Hp; [done|]. apply generation_held in Hp; [|done].
  apply (one_slot_good _ _ _ _ (dl_deliveryID lease)); [done|]. intros Hwf.
  split; cbn; [slot_other tt| |by right|done..].
  becomes (slot c (dl_deliveryID lease) <| sl_lease := None |> <| sl_publishing := None |>).
  by eapply st_commit.
Qed.

Lemma ReleaseAdmission_good env c lease : good c (ReleaseAdmission decode env c lease).1.
Proof.
  unfold ReleaseAdmission. destruct (lease_guard c lease) as [[]|] eqn:Hg; [|done].
  apply lease_guard_ok in Hg as [Hop Hn].
  destruct (negb (generation_of (leases c) _ =? _)) eqn:Hl.
  { destruct (Get _ _ _ _); [by destruct (bool_decide _)|done]. }
  apply generation_held in Hl; [|done]. rewrite !finishReceiptLocked_eq.
  match goal with |- good c (match Get _ _ (store ?x) _ with _ => _ end).1 => set (c' := x) end.
  assert (good c c') as Hc'.
  { apply (one_slot_good _ _ _ _ (dl_deliveryID lease)); [done|]. intros Hwf.
    split; cbn; [slot_other tt| | |done..].
    - becomes (slot c (dl_deliveryID lease) <| sl_lease := None |> <| sl_publishing := None |>
        <| sl_published := false |> <| sl_receipt := None |>).
      by eapply st_release.
    - left. subst c'. split; cbn; [by rewrite lookup_delete_eq|]. by eexists. }
  destruct (Get _ _ _ _); [by destruct (_ && _)|done].
Qed.
(** ** Operations on one record *)

(** The fence after a failed operation on a published delivery. *)
Lemma fence_good c id ms s' e :
  closed c = false → id ∈ published c → ms ∈ published_moves (bool_decide (id ∈ attempting c)) →
  touched ms id (store c) s' → good c (fence (c <| store := s' |>) id e).
Proof.
  intros Hop Hp Hms Ht. apply (one_slot_good _ _ _ _ id); [done|]. intros Hwf.
  split; [| |left; by apply finished|unfold fence; rewrite finishReceiptLocked_eq; done..];
    unfold fence; rewrite finishReceiptLocked_eq.
  - slot_other Ht.
  - becomes (slot c id <| sl_rec := peek s' id |> <| sl_attempting := true |> <| sl_receipt := None |>).
    apply (st_fence _ _ _ _ ms); [by apply bool_decide_eq_true|done|by eapply touched_rec_to].
Qed.

Lemma BeginAttempt_good env c id : readable env → good c (BeginAttempt_ decode env c id).1.
Proof.
  intros Hr. unfold BeginAttempt_. destruct (id_guard c id) as [[]|] eqn:Hg; [|done]. apply id_guard_ok in Hg as Hop.
  case_bool_decide as Hp; [|done]. case_bool_decide as Ha; [done|]. cbn [negb].
  pose proof (BeginAttempt_touched decode env (store c) id Hr) as Ht.
  pose proof (λ j, transition_ok decode env (store c) id StatusAttempting no_outcome false true
    [StatusPending; StatusAttempting; StatusDefinitelyFailed] j Hr) as Hok.
  fold (BeginAttempt decode env (store c) id) in Hok.
  destruct (BeginAttempt decode env (store c) id) as [s' [j|e]]; cbn [fst snd] in *.
  - destruct (Hok _ eq_refl) as (Hj & Hst & _ & [i Hi]).
    apply (one_slot_good _ _ _ _ id); [done|]. intros Hwf. split; cbn; [slot_other Ht| |by right|done..].
    becomes (slot c id <| sl_rec := Some j |> <| sl_attempting := true |>); [by rewrite Hj|].
    apply (st_begin _ _ _ _ i); [by apply bool_decide_eq_true|by apply bool_decide_eq_false|done| |done].
    eapply touched_moves_to; [|done..]. set_solver.
  - eapply fence_good; [done..| |exact Ht]. rewrite bool_decide_eq_false_2 by done. cbn. set_solver.
Qed.

(** The three answers of the transport, and the refusal before it. *)
Lemma transitionPublished_good c id req ms next f :
  ms ∈ published_moves req → MvKeep ∈ ms →
  next ∈ (if req then outcomes else [StatusDefinitelyFailed]) → (req = false → ms = [MvKeep; MvReject]) →
  touched ms id (store c) (f (store c)).1 →
  (∀ j, (f (store c)).2 = Ok j →
     peek (f (store c)).1 id = Some j ∧ it_Status j = next ∧ it_ID j = id ∧ is_Some (peek (store c) id)) →
  good c (transitionPublished c id req f).1.
Proof.
  intros Hms Hk Hn Hreq Ht Hok. unfold transitionPublished.
  destruct (id_guard c id) as [[]|] eqn:Hg; [|done]. apply id_guard_ok in Hg as Hop.
  case_bool_decide as Hp; [|done]. cbn [negb].
  destruct (req && negb (bool_decide (id ∈ attempting c))) eqn:E1; [done|].
  destruct (negb req && bool_decide (id ∈ attempting c)) eqn:E2; [done|].
  assert (bool_decide (id ∈ attempting c) = req) as Ha by (destruct req; [by apply negb_false_iff in E1|done]).
  destruct (f (store c)) as [s' [j|e]]; cbn [fst snd] in *.
  - destruct (Hok _ eq_refl) as (Hj & Hst & _ & [i Hi]).
    apply (one_slot_good _ _ _ _ id); [done|]. intros Hwf.
    split; [| |left; by apply finished|rewrite finishReceiptLocked_eq; done..]; rewrite finishReceiptLocked_eq.
    + slot_other Ht.
    + assert (moves_to ms (sl_rec (slot c id)) j) as Hmv
        by (cbn; rewrite Hi; by eapply touched_moves_to).
      destruct req.
      * becomes (slot c id <| sl_rec := Some j |> <| sl_attempting := false |> <| sl_published := false |>
          <| sl_receipt := None |>); [by rewrite Hj|].
        apply st_outcome; [by apply bool_decide_eq_true|done|cbn; by rewrite Hi| |by rewrite Hst].
        cbn in Hms. apply list_elem_of_singleton in Hms as ->. done.
      * becomes (slot c id <| sl_rec := Some j |> <| sl_published := false |> <| sl_receipt := None |>);
          [by rewrite Hj, Ha|].
        rewrite Hreq in Hmv by done. apply list_elem_of_singleton in Hn as ->.
        apply st_reject; [by apply bool_decide_eq_true|done|cbn; by rewrite Hi|done|done].
  - eapply fence_good; [done..| |exact Ht]. by rewrite Ha.
Qed.

Lemma MarkDispatchRejected_good env c id o : readable env → good c (MarkDispatchRejected_ decode env c id o).1.
Proof.
  intros Hr. apply (transitionPublished_good _ _ _ [MvKeep; MvReject] StatusDefinitelyFailed);
    [cbn; set_solver|set_solver|cbn; set_solver|done| |].
  - by apply MarkDispatchRejected_touched.
  - intros j. exact (transition_ok decode env (store c) id _ _ _ _ _ j Hr).
Qed.
Lemma transport_outcome_good env c id next o :
  readable env → next ∈ outcomes →
  good c (transitionPublished c id true
    (fun s => transition decode env s id next o false false [StatusAttempting])).1.
Proof.
  intros Hr Hn. apply (transitionPublished_good _ _ _ [MvKeep; MvOutcome] next);
    [cbn; set_solver|set_solver|done|done| |].
  - by apply outcome_touched.
  - intros j. exact (transition_ok decode env (store c) id _ _ _ _ _ j Hr).
Qed.

Lemma in_publication_none c id : wf decode c → in_publication c id = false →
  publishing c !! id = None ∧ bool_decide (id ∈ published c) = false ∧ bool_decide (id ∈ attempting c) = false.
Proof.
  intros Hwf. unfold in_publication. intros [[Hp Hpub]%orb_false_elim Ha]%orb_false_elim. split; [|done].
  apply negb_false_iff, Z.eqb_eq in Hp. unfold generation_of in Hp.
  destruct (publishing c !! id) as [g|] eqn:E; [|done]. cbn in Hp. subst g.
  pose proof (so_publishing _ (wf_slot _ _ Hwf id) 0 E) as Hl%(wf_lease _ _ Hwf). lia.
Qed.

(** Giving up an unpublished delivery. *)
Lemma drop_good c id next f r :
  closed c = false → in_publication c id = false → next ∈ [StatusAmbiguous; StatusAbandoned] →
  touched [MvKeep; MvDrop] id (store c) (f (store c)).1 →
  (∀ j, (f (store c)).2 = Ok j →
     peek (f (store c)).1 id = Some j ∧ it_Status j = next ∧ it_ID j = id ∧ is_Some (peek (store c) id)) →
  good c (match (f (store c)).2 with
          | Err e => finishReceiptLocked (c <| store := (f (store c)).1 |>) id (Err e)
          | Ok i => finishReceiptLocked (c <| store := (f (store c)).1 |> <| leases ::= delete id |>) id (r i)
          end).
Proof.
  intros Hop Hpub Hn Ht Hok. destruct (f (store c)) as [s' [j|e]]; cbn [fst snd] in *.
  - destruct (Hok _ eq_refl) as (Hj & Hst & _ & [i Hi]).
    apply (one_slot_good _ _ _ _ id); [done|]. intros Hwf. destruct (in_publication_none _ _ Hwf Hpub) as (Hp1 & Hp2 & Hp3).
    split; [| |left; by apply finished|rewrite finishReceiptLocked_eq; done..]; rewrite finishReceiptLocked_eq.
    + slot_other Ht.
    + becomes (slot c id <| sl_rec := Some j |> <| sl_lease := None |> <| sl_receipt := None |>); [by rewrite Hj|].
      apply st_drop; [done..|cbn; by rewrite Hi| |by rewrite Hst]. cbn. rewrite Hi. eapply touched_moves_to; [|done..].
      set_solver.
  - apply (one_slot_good _ _ _ _ id); [done|]. intros Hwf. destruct (in_publication_none _ _ Hwf Hpub) as (Hp1 & Hp2 & Hp3).
    split; [| |left; by apply finished|rewrite finishReceiptLocked_eq; done..]; rewrite finishReceiptLocked_eq.
    + slot_other Ht.
    + becomes (slot c id <| sl_rec := peek s' id |> <| sl_receipt := None |>).
      apply st_drop_fail; [done..|]. by eapply touched_rec_to.
Qed.
Lemma MarkAdmissionUnrecoverable_good env c lease o :
  readable env → good c (MarkAdmissionUnrecoverable decode env c lease o).1.
Proof.
  intros Hr. unfold MarkAdmissionUnrecoverable. destruct (lease_guard c lease) as [[]|] eqn:Hg; [|done].
  apply lease_guard_ok in Hg as [Hop Hn]. destruct (negb (generation_of _ _ =? _)); [done|].
  destruct (in_publication c _) eqn:Hp; [done|].
  pose proof (drop_good c (dl_deliveryID lease) StatusAmbiguous
    (fun s => MarkUnrecoverable decode env s (dl_deliveryID lease) o) Ok Hop Hp) as Hd. cbn beta in Hd.
  pose proof (transition_ok decode env (store c) (dl_deliveryID lease) StatusAmbiguous o false false
    [StatusPending; StatusDefinitelyFailed]) as Hok.
  fold (MarkUnrecoverable decode env (store c) (dl_deliveryID lease) o) in Hok.
  pose proof (MarkUnrecoverable_touched decode env (store c) (dl_deliveryID lease) o Hr) as Ht.
  destruct (MarkUnrecoverable decode env (store c) (dl_deliveryID lease) o) as [s' [j|e]]; cbn [fst snd] in *;
    (apply Hd; [set_solver|exact Ht|intros j' Hj; by apply Hok]).
Qed.

Lemma finish_only_good c id res : closed c = false → good c (finishReceiptLocked c id res).
Proof.
  intros Hop. apply (one_slot_good _ _ _ _ id); [done|]. intros Hwf.
  split; [| |left; by apply finished|rewrite finishReceiptLocked_eq; done..]; rewrite finishReceiptLocked_eq.
  - slot_other tt.
  - becomes (slot c id <| sl_receipt := None |>). apply st_close.
Qed.

Lemma Abandon_good env c id o : readable env → good c (Abandon decode env c id o).1.
Proof.
  intros Hr. unfold Abandon. destruct (id_guard c id) as [[]|] eqn:Hg; [|done]. apply id_guard_ok in Hg as Hop.
  destruct (in_publication c _) eqn:Hp; [done|].
  destruct (Get _ _ _ _) as [i|[]]; try done; try (by apply finish_only_good).
  destruct (_ && _); [done|].
  pose proof (drop_good c id StatusAbandoned (fun s => MarkAbandoned decode env s id o) Ok Hop Hp) as Hd.
  cbn beta in Hd.
  pose proof (transition_ok decode env (store c) id StatusAbandoned o false false
    [StatusPending; StatusDefinitelyFailed]) as Hok.
  fold (MarkAbandoned decode env (store c) id o) in Hok.
  pose proof (MarkAbandoned_touched decode env (store c) id o Hr) as Ht.
  destruct (MarkAbandoned decode env (store c) id o) as [s' [j|e]]; cbn [fst snd] in *;
    (apply Hd; [set_solver|exact Ht|intros j' Hj; by apply Hok]).
Qed.

(** A record is settled, protected, created or written again. *)
Lemma keep_good c id s' :
  closed c = false → touched [MvKeep; MvNew] id (store c) s' → good c (c <| store := s' |>).
Proof.
  intros Hop [->|(j & Hid & -> & Hp & Hm)]; [by destruct c|].
  apply (one_slot_good _ _ _ _ id); [done|]. intros Hwf. split; cbn; [| |by right|done..].
  - intros id' Hne. unfold OutboxRecords.slot. cbn. by rewrite peek_insert_ne.
  - becomes (slot c id <| sl_rec := Some j |>); [by rewrite Hp|]. by apply st_keep.
Qed.
Lemma on_store_good c id f : touched [MvKeep] id (store c) (f (store c)).1 → good c (on_store c id f).1.
Proof.
  intros Ht. unfold on_store. destruct (id_guard c id) as [[]|] eqn:Hg; [|done]. apply id_guard_ok in Hg as Hop.
  destruct (f (store c)) as [s' res]. apply (keep_good _ id); [done|]. eapply touched_mono; [|exact Ht]. set_solver.
Qed.
Lemma MarkRecoverySettled_good env c id : readable env → good c (MarkRecoverySettled_ decode env c id).1.
Proof. intros Hr. by apply on_store_good, MarkRecoverySettled_touched. Qed.
Lemma MarkTranscriptProjected_good env c id : readable env → good c (MarkTranscriptProjected_ decode env c id).1.
Proof. intros Hr. by apply on_store_good, MarkTranscriptProjected_touched. Qed.
Lemma ProtectPayload_good env c id : readable env → good c (ProtectPayload decode env c id).1.
Proof.
  intros Hr. unfold ProtectPayload. destruct (validateOpenLocked c) as [[]|] eqn:Hg; [|done]. apply open_ok in Hg.
  pose proof (protectPayload_touched decode env (store c) id Hr) as Ht.
  destruct (protectPayload decode env (store c) id) as [s' res]. apply (keep_good _ id); [done|].
  eapply touched_mono; [|exact Ht]. set_solver.
Qed.
Lemma SealNativeFinalMessage_good env c id receipt :
  readable env → good c (SealNativeFinalMessage decode env c id receipt).1.
Proof.
  intros Hr. unfold SealNativeFinalMessage. destruct (negb (validateID id)); [done|].
  destruct receipt as [ack|]; [|done]. destruct (validateOpenLocked c) as [[]|] eqn:Hg; [|done]. apply open_ok in Hg.
  destruct (read decode env (store c) id) as [i|] eqn:E; [|done]. apply read_peek in E as (Hi & Hid & _).
  assert (∀ j, moves MvKeep i j → good c (let '(s', res) := write env (store c) j in
    (c <| store := s' |>, res ≫= fun _ => Ok (E := Error) true)).1) as Hw.
  { intros j Hm. pose proof (proj1 (save_write env (store c) j)) as Hs.
    destruct (write env (store c) j) as [s' res]. cbn in *. apply (keep_good _ id); [done|]. rewrite Hs, <- Hid.
    apply (save_touched decode env (store c) _ MvKeep i); [exact Hr|by rewrite Hid|apply list_elem_of_here|exact Hm]. }
  destruct (negb (ack _)); [done|].
  destruct (String.eqb _ _); [by apply Hw|]. destruct (_ || _); [done|]. by apply Hw.
Qed.

(** ** Admission *)

Lemma claimDispatchLocked_good c i :
  closed c = false → peek (store c) (it_ID i) = Some i → good c (claimDispatchLocked c i).1.
Proof.
  intros Hop Hi. unfold claimDispatchLocked. cbn [fst].
  destruct (dispatchable i) eqn:Hd; [|done]. case_bool_decide as Hl; [done|]. case_bool_decide as Hp; [done|].
  cbn [andb negb]. apply (one_slot_good _ _ _ _ (it_ID i)); [done|]. intros Hwf.
  apply eq_None_not_Some in Hl. split; cbn; [slot_other tt| |right|lia|done].
  - becomes (slot c (it_ID i) <| sl_lease := Some (dispatchLeaseSequence c + 1) |>
      <| sl_receipt := Some (dispatchLeaseSequence c + 1) |>).
    apply (st_claim _ _ _ _ i); [done..|by apply bool_decide_eq_false|lia].
  - split; [done|]. rewrite lookup_insert_eq. by eexists.
Qed.

Lemma admit_good env c i : readable env → good c (admit_ decode env c i).1.
Proof.
  intros Hr. unfold admit_. destruct (validateOpenLocked c) as [[]|] eqn:Hg; [|done]. apply open_ok in Hg.
  pose proof (Create_touched decode env (store c) i Hr) as Ht.
  pose proof (λ j, Create_ok decode env (store c) i j Hr) as Hok.
  destruct (Create decode env (store c) i) as [s' [j|e]]; cbn [fst snd] in *; [|by apply (keep_good _ (it_ID i))].
  destruct (Hok j eq_refl) as [Hj Hid].
  etrans; [by apply (keep_good c (it_ID i) s')|].
  set (c1 := c <| store := s' |>). rewrite <- Hid in Hj. pose proof (claimDispatchLocked_good c1 j Hg Hj) as Hc.
  by destruct (claimDispatchLocked c1 j).
Qed.

Lemma admitMessage_good env now c ws i m class : readable env → good c (admitMessage decode env now c ws i m class).1.
Proof. intros Hr. unfold admitMessage. destruct (NewMessageIntent _ _ _ _); [by apply admit_good|done]. Qed.
Lemma AdmitMedia_good env now c ws i m : readable env → good c (AdmitMedia decode env now c ws i m).1.
Proof. intros Hr. unfold AdmitMedia. destruct (NewMediaIntent _ _ _ _); [by apply admit_good|done]. Qed.

(** ** Recovery *)

Lemma claimDispatchLocked_store c i : store (claimDispatchLocked c i).1 = store c ∧ closed (claimDispatchLocked c i).1 = closed c.
Proof. unfold claimDispatchLocked. cbn [fst]. by destruct (_ && _). Qed.

Lemma claim_recovered_good l : ∀ c adm,
  closed c = false → (∀ i, i ∈ l → peek (store c) (it_ID i) = Some i) → good c (claim_recovered c l adm).1.
Proof.
  induction l as [|i l IH]; intros c adm Hop Hl; cbn [claim_recovered]; [done|].
  destruct (_ || _); [apply IH; [done|]; intros; apply Hl; by right|].
  pose proof (claimDispatchLocked_good c i Hop (Hl i (list_elem_of_here _ _))) as Hc.
  pose proof (claimDispatchLocked_store c i) as [Hs Hcl].
  destruct (claimDispatchLocked c i) as [c' a]. cbn [fst] in *. etrans; [exact Hc|].
  apply IH; [by rewrite Hcl|]. rewrite Hs. intros; apply Hl; by right.
Qed.

(** Only the records change, each by one step. *)
Lemma store_good c s' :
  closed c = false →
  (∀ id, peek s' id = peek (store c) id ∨ ∃ i j, peek (store c) id = Some i ∧ peek s' id = Some j
     ∧ moves MvOutcome i j ∧ it_Status j = StatusAmbiguous) →
  good c (c <| store := s' |>).
Proof.
  intros Hop Hs Hwf.
  assert (∀ id, rtc (slot_step (dispatchLeaseSequence c) (dispatchLeaseSequence c) None) (slot c id)
    (slot (c <| store := s' |>) id)) as Hstep.
  { intros id. unfold OutboxRecords.slot. cbn. destruct (Hs id) as [->|(i & j & Hi & Hj & Hm & Hst)]; [done|].
    apply rtc_once.
    becomes (slot c id <| sl_rec := Some j |>); [by rewrite Hj|]. by eapply st_interrupt. }
  split; [|split; cbn; try done; auto].
  split; try apply Hwf. intros id. specialize (Hstep id). pose proof (wf_slot _ _ Hwf id) as Hok. revert Hok Hstep.
  generalize (slot c id), (slot (c <| store := s' |>) id). intros x y Hok Hr.
  induction Hr; [done|]. eauto using slot_step_ok.
Qed.

Lemma recovered_peek env s s' l d res :
  recovered decode env s s' l d res → (∀ i, i ∈ l → peek s (it_ID i) = Some i) →
  ∀ id, peek s' id = peek s id ∨ ∃ i j, peek s id = Some i ∧ peek s' id = Some j
     ∧ moves MvOutcome i j ∧ it_Status j = StatusAmbiguous.
Proof.
  intros (Hne & Hin & _) Hl id. destruct (decide (id ∈ it_ID <$> l)) as [Hid|Hid]; [|left; by apply Hne].
  apply list_elem_of_fmap in Hid as (i & -> & Hi). rewrite (Hl i Hi). destruct (Hin i Hi) as [->|Hj]; [by left|].
  rewrite Hj. unfold recover_record. destruct (owes_settlement i || _); [by left|].
  destruct (it_Status i) eqn:E; try by left. right. exists i, (interrupted env i).
  split; [done|]. split; [done|]. split; [|done]. split; [done|]. split; [done|]. split; [|done]. cbn. set_solver.
Qed.

Lemma Recover_good env c : readable env → good c (Recover_ decode env c).1.
Proof.
  intros Hr. unfold Recover_. destruct (validateOpenLocked c) as [[]|] eqn:Hg; [|done]. apply open_ok in Hg.
  destruct (recovery_records_facts decode env (store c)) as [_ Hrec].
  assert (∀ i, i ∈ recovery_records decode env (store c) → peek (store c) (it_ID i) = Some i) as Hl
    by (intros i Hi; by apply Hrec, read_peek in Hi as [? _]).
  destruct (Recover decode env (store c)) as [s' res] eqn:E.
  apply Recover_spec in E as [[-> [e ->]]|(out & Hout & Hres)]; [by destruct c|..|done].
  pose proof (recovered_peek _ _ _ _ _ _ Hout Hl) as Hp.
  pose proof (store_good c s' Hg Hp) as Hstore.
  destruct res as [report|e]; [|done]. destruct Hres as [-> _].
  destruct Hout as (_ & _ & Hok). destruct (Hok _ eq_refl) as [Hw Hfin]. cbn in Hw.
  set (c1 := c <| store := s' |>) in *. pose proof (claim_recovered_good (rr_Intents report) c1 [] Hg) as Hcl.
  destruct (claim_recovered _ _ _) as [c' adm]. cbn [fst] in *. etrans; [exact Hstore|]. apply Hcl.
  rewrite Hw. intros j Hj. apply list_elem_of_bind in Hj as (i & Hj & Hi). cbn. 
  pose proof (Hfin i Hi) as Hi'. unfold recover_work in Hj. unfold recover_record in Hi'.
  destruct (owes_settlement i); [apply list_elem_of_singleton in Hj as ->; exact Hi'|].
  destruct (_ && _); [by apply elem_of_nil in Hj|].
  destruct (it_Status i); try (by apply elem_of_nil in Hj).
  - apply list_elem_of_singleton in Hj as ->. exact Hi'.
  - destruct (RecoverySettlementPending _); [|by apply elem_of_nil in Hj].
    apply list_elem_of_singleton in Hj as ->. exact Hi'.
  - destruct (RetryExhausted i); [by apply elem_of_nil in Hj|]. apply list_elem_of_singleton in Hj as ->. exact Hi'.
Qed.
End steps.
