(* ===== verification/OutboxMachine.v ===== *)
(** The outbox as a machine: one constructor of [Op] per method of the
    coordinator, [step] dispatches it, [exec] runs a sequence.  [OpRestart] is
    the end of the process at any point and the start of another one over the
    same directory; [OpRetire] is the offline retirement of one payload, which
    runs in a process of its own. *)
From stdpp Require Import gmap relations.
From S2P Require Import Prelude GoStrings GoJson GoTime TaskResult BusInbound BusOutbound.
From S2P Require Import OutboxTypes OutboxStore OutboxCoordinator OutboxRecords.
From S2P Require Import OutboxSteps.

#[local] Open Scope Z_scope.

Inductive Op :=
| OpAdmitMessage (native : bool) (now : Time) (workspace : string) (i : Identity) (m : OutboundMessage)
| OpAdmitMedia (now : Time) (workspace : string) (i : Identity) (m : OutboundMediaMessage)
| OpPrepare (lease : DispatchLease)
| OpCommit (lease : DispatchLease)
| OpRelease (lease : DispatchLease)
| OpUnrecoverable (lease : DispatchLease) (o : Outcome)
| OpBegin (id : string)
| OpReject (id : string) (o : Outcome)
| OpDelivered (id : string) (o : Outcome)
| OpDefinitelyFailed (id : string) (o : Outcome)
| OpAmbiguous (id : string) (o : Outcome)
| OpAbandon (id : string) (o : Outcome)
| OpRecover
| OpSettled (id : string)
| OpProjected (id : string)
| OpProtect (id : string)
| OpSeal (id : string) (receipt : option (string → bool))
| OpClose
| OpRetire (id : string) (before now : Time)
| OpRestart.

Inductive Reply :=
| RDone | RFlag (b : bool) | RAdmission (a : Admission) | RRecovery (r : AdmissionRecoveryReport)
| RError (e : Error).

Definition done_reply (r : result Error ()) : Reply := match r with Ok _ => RDone | Err e => RError e end.
Definition flag_reply (r : result Error bool) : Reply := match r with Ok b => RFlag b | Err e => RError e end.
Definition admission_reply (r : result Error Admission) : Reply :=
  match r with Ok a => RAdmission a | Err e => RError e end.
Definition recovery_reply (r : result Error AdmissionRecoveryReport) : Reply :=
  match r with Ok a => RRecovery a | Err e => RError e end.
Definition map_reply {A} (f : A → Reply) (p : Coordinator * A) : Coordinator * Reply := (p.1, f p.2).

Section machine.
Context `{Sha256} `{UnicodeCase}.
Variable decode : string → result DecodeError Intent.
Implicit Types (c : Coordinator) (env : Env) (id : string) (op : Op).

Definition step env c op : Coordinator * Reply :=
  match op with
  | OpAdmitMessage native now ws i m => map_reply admission_reply
      (if native then AdmitNativeFinalMessage decode env now c ws i m else AdmitMessage decode env now c ws i m)
  | OpAdmitMedia now ws i m => map_reply admission_reply (AdmitMedia decode env now c ws i m)
  | OpPrepare lease => map_reply done_reply (PrepareAdmission c lease)
  | OpCommit lease => map_reply done_reply (CommitAdmission c lease)
  | OpRelease lease => map_reply done_reply (ReleaseAdmission decode env c lease)
  | OpUnrecoverable lease o => map_reply done_reply (MarkAdmissionUnrecoverable decode env c lease o)
  | OpBegin id => map_reply done_reply (BeginAttempt_ decode env c id)
  | OpReject id o => map_reply done_reply (MarkDispatchRejected_ decode env c id o)
  | OpDelivered id o => map_reply done_reply (MarkDelivered_ decode env c id o)
  | OpDefinitelyFailed id o => map_reply done_reply (MarkDefinitelyFailed_ decode env c id o)
  | OpAmbiguous id o => map_reply done_reply (MarkAmbiguous_ decode env c id o)
  | OpAbandon id o => map_reply flag_reply (Abandon decode env c id o)
  | OpRecover => map_reply recovery_reply (Recover_ decode env c)
  | OpSettled id => map_reply done_reply (MarkRecoverySettled_ decode env c id)
  | OpProjected id => map_reply done_reply (MarkTranscriptProjected_ decode env c id)
  | OpProtect id => map_reply done_reply (ProtectPayload decode env c id)
  | OpSeal id receipt => map_reply flag_reply (SealNativeFinalMessage decode env c id receipt)
  | OpClose => (Close c, RDone)
  | OpRetire id before now =>
      let '(s, res) := retirePlainPayload decode env (store c) id before now in
      (newCoordinator (root c) s, done_reply (res ≫= fun _ => Ok tt))
  | OpRestart => (newCoordinator (root c) (store c), RDone)
  end.

Fixpoint exec c (tr : list (Env * Op)) : Coordinator :=
  match tr with [] => c | (env, op) :: tr' => exec (step env c op).1 tr' end.

Lemma exec_app c tr1 tr2 : exec c (tr1 ++ tr2) = exec (exec c tr1) tr2.
Proof. revert c. induction tr1 as [|[env op] tr1 IH]; intros c; [done|]. cbn. apply IH. Qed.

(** The process ends with these operations. *)
Definition ends_process op : bool := match op with OpRestart | OpRetire _ _ _ => true | _ => false end.
Definition prepared_by op : option Z := match op with OpPrepare lease => Some (dl_generation lease) | _ => None end.

(** ** Closing *)

Lemma close_results (res : terminalResult) (l : list (string * Z)) m : ∀ g,
  foldr (fun p => finish p.2 res) m l !! g =
  match m !! g with Some r => Some r | None => if decide (g ∈ l.*2) then Some res else None end.
Proof.
  induction l as [|[id g'] l IH]; intros g; cbn [foldr fst snd].
  { destruct (m !! g); [done|]. by rewrite decide_False by apply not_elem_of_nil. }
  csimpl. set (M := foldr _ m l) in *. unfold finish. destruct (decide (g = g')) as [->|Hne].
  - rewrite (decide_True (P := g' ∈ g' :: _)) by apply list_elem_of_here.
    destruct (M !! g') eqn:E; [|rewrite lookup_insert_eq].
    + rewrite E. rewrite IH in E. destruct (m !! g'); [by rewrite E|]. by destruct (decide _).
    + rewrite IH in E. by destruct (m !! g').
  - assert (match M !! g' with Some _ => M | None => <[g':=res]> M end !! g = M !! g) as ->
      by (destruct (M !! g'); [done|]; by rewrite lookup_insert_ne).
    rewrite IH. destruct (m !! g); [done|]. apply decide_ext. rewrite elem_of_cons. naive_solver.
Qed.

Lemma elem_of_receipts (m : gmap string Z) g : g ∈ (map_to_list m).*2 ↔ ∃ id, m !! id = Some g.
Proof.
  rewrite list_elem_of_fmap. split.
  - intros ([id g'] & -> & Hin%elem_of_map_to_list). by exists id.
  - intros [id Hid]. exists (id, g). by rewrite elem_of_map_to_list.
Qed.

Lemma close_step lo hi c f id :
  slot_step lo hi None (slot decode c id) (slot decode (c <| closed := true |> <| results ::= f |> <| receipts := ∅ |>) id).
Proof.
  assert (slot decode (c <| closed := true |> <| results ::= f |> <| receipts := ∅ |>) id
    = slot decode c id <| sl_receipt := None |>) as -> by (unfold slot; cbn; by rewrite ?lookup_empty).
  apply st_close.
Qed.

Lemma Close_good c : good decode None c (Close c).
Proof.
  unfold Close. destruct (closed c) eqn:Hop; [done|]. intros Hwf. split.
  - split; try apply Hwf; try done.
    + intros id. eapply (slot_step_ok 0 0 None); [apply close_step|apply (wf_slot _ _ Hwf id)].
    + intros g Hg. cbn in Hg. rewrite close_results in Hg.
      destruct (results c !! g) eqn:E; [by apply (wf_results _ _ Hwf); eauto|].
      destruct (decide _) as [Hin|]; [|by destruct Hg]. apply elem_of_receipts in Hin as [id Hid].
      apply (wf_receipt _ _ Hwf) in Hid. cbn. lia.
  - split; [|cbn; lia| | |done].
    + intros id. apply rtc_once, close_step.
    + intros g r Hg. cbn. by rewrite close_results, Hg.
    + intros id g Hg. right. cbn. rewrite close_results. destruct (results c !! g); [done|].
      rewrite decide_True; [done|]. apply elem_of_receipts. by exists id.
Qed.

(** ** Every step *)

Lemma wf_new root s : wf decode (newCoordinator root s).
Proof. split; cbn; try done; try (by intros ? [? ?]); by split; cbn; auto; intros []. Qed.

Lemma step_good env c op : readable decode env → ends_process op = false → good decode (prepared_by op) c (step env c op).1.
Proof.
  intros Hr Hop. destruct op; try discriminate Hop; cbn [step map_reply fst prepared_by].
  - destruct native; by apply admitMessage_good.
  - by apply AdmitMedia_good.
  - apply PrepareAdmission_good.
  - apply CommitAdmission_good.
  - apply ReleaseAdmission_good.
  - by apply MarkAdmissionUnrecoverable_good.
  - by apply BeginAttempt_good.
  - by apply MarkDispatchRejected_good.
  - apply transport_outcome_good; [done|]. unfold outcomes. set_solver.
  - apply transport_outcome_good; [done|]. unfold outcomes. set_solver.
  - apply transport_outcome_good; [done|]. unfold outcomes. set_solver.
  - by apply Abandon_good.
  - by apply Recover_good.
  - by apply MarkRecoverySettled_good.
  - by apply MarkTranscriptProjected_good.
  - by apply ProtectPayload_good.
  - by apply SealNativeFinalMessage_good.
  - apply Close_good.
Qed.

Lemma step_wf env c op : readable decode env → wf decode c → wf decode (step env c op).1.
Proof.
  intros Hr Hwf. destruct (ends_process op) eqn:E.
  - destruct op; try discriminate E; cbn [step]; [|apply wf_new].
    destruct (retirePlainPayload _ _ _ _ _ _). apply wf_new.
  - by apply (step_good _ _ _ Hr E).
Qed.
Definition all_readable (tr : list (Env * Op)) : Prop := Forall (fun p => readable decode p.1) tr.
Lemma exec_wf tr : ∀ c, all_readable tr → wf decode c → wf decode (exec c tr).
Proof.
  induction tr as [|[env op] tr IH]; intros c Hr Hwf; [done|]. apply Forall_cons in Hr as [Hr1 Hr].
  cbn. apply IH; [done|]. by apply step_wf.
Qed.
End machine.

(** ** The status of one record

    Under each operation of the machine: [op_edge] is
    the table of the status changes an operation may make, [step_status] proves
    that no operation makes another one. *)

(** From one of these statuses to that one. *)
Definition Edge : Type := list Status * Status.
Definition no_edge : Edge := ([], StatusPending).
Definition op_edge (id : string) (op : Op) : Edge :=
  let at_ id' e := if String.eqb id' id then e else no_edge in
  match op with
  | OpBegin id' => at_ id' (StatusAttempting :: unsent, StatusAttempting)
  | OpReject id' _ => at_ id' (unsent, StatusDefinitelyFailed)
  | OpDelivered id' _ => at_ id' ([StatusAttempting], StatusDelivered)
  | OpDefinitelyFailed id' _ => at_ id' ([StatusAttempting], StatusDefinitelyFailed)
  | OpAmbiguous id' _ => at_ id' ([StatusAttempting], StatusAmbiguous)
  | OpUnrecoverable lease _ => at_ (dl_deliveryID lease) (unsent, StatusAmbiguous)
  | OpAbandon id' _ => at_ id' (unsent, StatusAbandoned)
  | OpRecover => ([StatusAttempting], StatusAmbiguous)
  | _ => no_edge
  end.

(** A status stays, takes the edge, or a record is created. *)
Inductive moved_by (e : Edge) : option Status → option Status → Prop :=
| mb_same o : moved_by e o o
| mb_edge st : st ∈ e.1 → moved_by e (Some st) (Some e.2)
| mb_new : moved_by e None (Some StatusPending).
#[export] Hint Constructors moved_by : core.
Lemma moved_some e a b : moved_by e (Some a) (Some b) → a = b ∨ a ∈ e.1 ∧ b = e.2.
Proof. intros Hm. inversion Hm; subst; auto. Qed.

Section edges.
Context `{Sha256} `{UnicodeCase}.
Variable decode : string → result DecodeError Intent.
Implicit Types (c : Coordinator) (env : Env) (id : string).
Local Abbreviation peek := (peek decode).
Local Abbreviation readable := (readable decode).
Local Abbreviation touched ms := (touch decode (moves_to ms)).

Definition status s id : option Status := it_Status <$> peek s id.

(** The status of every record after an operation on the record [id]. *)
Definition edge_at (e : Edge) id (s s' : Store) : Prop :=
  moved_by e (status s id) (status s' id) ∧ ∀ id', id' ≠ id → status s' id' = status s id'.
Lemma edge_at_refl e id s : edge_at e id s s.
Proof. by split. Qed.
Lemma edge_here e id s s' (f : string → Edge) :
  edge_at e id s s' → f id = e → ∀ id', moved_by (f id') (status s id') (status s' id').
Proof. intros [Hm Ho] <- id'. destruct (decide (id' = id)) as [->|Hne]; [done|]. by rewrite Ho. Qed.

Lemma touch_edge R e id s s' :
  touch decode R id s s' → (∀ o j, R o j → moved_by e (it_Status <$> o) (Some (it_Status j))) → edge_at e id s s'.
Proof.
  intros Ht HR. split; unfold status; [|intros id' Hne; by rewrite (touch_other _ _ _ _ _ _ Ht)].
  destruct Ht as [->|(j & _ & _ & -> & Hj)]; [done|]. by apply HR.
Qed.
Lemma keep_edge e id s s' : touched [MvKeep; MvNew] id s s' → edge_at e id s s'.
Proof.
  intros Ht. eapply touch_edge; [exact Ht|]. intros [i|] j; cbn; [|intros (_ & -> & _); done].
  intros (m & Hm & Hmv). apply elem_of_cons in Hm as [->|Hm]; [destruct Hmv as (_ & -> & _); done|].
  apply list_elem_of_singleton in Hm as ->. by destruct Hmv as [_ []].
Qed.
Lemma keep_only_edge e id s s' : touched [MvKeep] id s s' → edge_at e id s s'.
Proof. intros Ht. apply keep_edge. eapply touched_mono; [|exact Ht]. set_solver. Qed.

Lemma transition_edge env s id next o refresh count allowed :
  readable env → edge_at (allowed, next) id s (transition decode env s id next o refresh count allowed).1.
Proof.
  intros Hr. unfold transition. destruct (read decode env s id) as [i|] eqn:E; [|apply edge_at_refl].
  apply read_peek in E as (Hi & <- & _).
  assert (∀ j, it_ID j = it_ID i → moved_by (allowed, next) (Some (it_Status i)) (Some (it_Status j)) →
    edge_at (allowed, next) (it_ID i) s (save env s j).1) as Hsave.
  { intros j Hid Hm. rewrite <- Hid. eapply touch_edge;
      [apply (save_touch decode env (fun o j' => o = Some i ∧ j' = j)); [done|by rewrite Hid]|].
    by intros o' j' [-> ->]. }
  destruct (_ && negb refresh); [by apply Hsave|]. unfold statusAllowed. case_bool_decide; [|apply edge_at_refl].
  cbn [negb]. apply Hsave; [done|]. by apply (mb_edge (allowed, next)).
Qed.

(** What an operation on the coordinator does to the files: nothing, or one
    operation of the store. *)
Inductive store_effect env s : Op → Store → Prop :=
| se_none op : store_effect env s op s
| se_admit_message native now ws i m j :
    store_effect env s (OpAdmitMessage native now ws i m) (Create decode env s j).1
| se_admit_media now ws i m j : store_effect env s (OpAdmitMedia now ws i m) (Create decode env s j).1
| se_begin id : store_effect env s (OpBegin id) (BeginAttempt decode env s id).1
| se_reject id o : store_effect env s (OpReject id o) (MarkDispatchRejected decode env s id o).1
| se_delivered id o : store_effect env s (OpDelivered id o) (MarkDelivered decode env s id o).1
| se_failed id o : store_effect env s (OpDefinitelyFailed id o) (MarkDefinitelyFailed decode env s id o).1
| se_ambiguous id o : store_effect env s (OpAmbiguous id o) (MarkAmbiguous decode env s id o).1
| se_unrecoverable lease o :
    store_effect env s (OpUnrecoverable lease o) (MarkUnrecoverable decode env s (dl_deliveryID lease) o).1
| se_abandon id o : store_effect env s (OpAbandon id o) (MarkAbandoned decode env s id o).1
| se_recover : store_effect env s OpRecover (Recover decode env s).1
| se_settled id : store_effect env s (OpSettled id) (MarkRecoverySettled decode env s id).1
| se_projected id : store_effect env s (OpProjected id) (MarkTranscriptProjected decode env s id).1
| se_protect id : store_effect env s (OpProtect id) (protectPayload decode env s id).1
| se_seal id receipt i j :
    read decode env s id = Ok i →
    j = i ∨ it_PayloadRetired i = false ∧ it_RetentionClass i = retentionSourcePending
            ∧ j = stamp env (i <| it_RetentionClass := retentionPlainMessage |>) →
    store_effect env s (OpSeal id receipt) (save env s j).1
| se_retire id before now : store_effect env s (OpRetire id before now) (retirePlainPayload decode env s id before now).1.

Lemma finishReceiptLocked_store c id res : store (finishReceiptLocked c id res) = store c.
Proof. unfold finishReceiptLocked. by destruct (receipts c !! id). Qed.
Lemma claim_recovered_store l : ∀ c adm, store (claim_recovered c l adm).1 = store c.
Proof.
  induction l as [|i l IH]; intros c adm; cbn [claim_recovered]; [done|]. destruct (_ || _); [apply IH|].
  pose proof (proj1 (claimDispatchLocked_store c i)) as Hs. destruct (claimDispatchLocked c i) as [c' a].
  rewrite IH. exact Hs.
Qed.

(** [H] is the effect of the store operation that was named before. *)
Ltac effect H := repeat case_match; cbn; rewrite ?finishReceiptLocked_store; cbn;
  first [apply se_none | simplify_eq; exact H].
Ltac effect_of x k :=
  pose proof k as He; destruct x as [?s' ?res] eqn:?E; cbn [fst] in He; effect He.

Lemma transitionPublished_effect env c id req f op :
  store_effect env (store c) op (f (store c)).1 →
  store_effect env (store c) op (store (transitionPublished c id req f).1).
Proof.
  intros He. unfold transitionPublished, fence. destruct (f (store c)) as [s' res]; cbn in He. effect He.
Qed.
Lemma on_store_effect env c id f op :
  store_effect env (store c) op (f (store c)).1 → store_effect env (store c) op (store (on_store c id f).1).
Proof. intros He. unfold on_store. destruct (f (store c)) as [s' res]; cbn in He. effect He. Qed.
Lemma admit_effect env c i op :
  store_effect env (store c) op (Create decode env (store c) i).1 →
  store_effect env (store c) op (store (admit_ decode env c i).1).
Proof.
  intros He. unfold admit_. destruct (validateOpenLocked c) as [[]|]; [|apply se_none].
  destruct (Create decode env (store c) i) as [s' [j|e]]; cbn [fst] in *; [|exact He].
  set (c1 := c <| store := s' |>). pose proof (proj1 (claimDispatchLocked_store c1 j)) as Hs.
  destruct (claimDispatchLocked c1 j) as [c2 a]. cbn in *. by rewrite Hs.
Qed.
Lemma Recover_effect env c : store_effect env (store c) OpRecover (store (Recover_ decode env c).1).
Proof.
  unfold Recover_. destruct (validateOpenLocked c) as [[]|]; [|apply se_none]. pose proof (se_recover env (store c)) as He.
  destruct (Recover decode env (store c)) as [s' [report|e]]; cbn [fst] in *; [|exact He].
  set (c1 := c <| store := s' |>). pose proof (claim_recovered_store (rr_Intents report) c1 []) as Hs.
  destruct (claim_recovered _ _ _) as [c2 l]. cbn in *. by rewrite Hs.
Qed.
Lemma SealNativeFinalMessage_effect env c id receipt :
  store_effect env (store c) (OpSeal id receipt) (store (SealNativeFinalMessage decode env c id receipt).1).
Proof.
  unfold SealNativeFinalMessage.
  destruct (negb (validateID id)); [apply se_none|]. destruct receipt as [ack|]; [|apply se_none].
  destruct (validateOpenLocked c) as [[]|]; [|apply se_none].
  destruct (read decode env (store c) id) as [i|] eqn:E; [|apply se_none].
  assert (∀ j (b : bool), store_effect env (store c) (OpSeal id (Some ack)) (save env (store c) j).1 →
    store_effect env (store c) (OpSeal id (Some ack)) (store (let '(s', res) := write env (store c) j in
    (c <| store := s' |>, res ≫= (fun _ : () => Ok (E := Error) b))).1)) as Hw.
  { intros j b. rewrite <- (proj1 (save_write env (store c) j)). by destruct (write env (store c) j). }
  destruct (negb (ack _)); [apply se_none|].
  destruct (String.eqb _ _); [by apply Hw, (se_seal _ _ _ _ i); [|left]|].
  destruct (_ || _) eqn:Hc; [apply se_none|]. apply orb_false_elim in Hc as [Hc Hret].
  apply Hw, (se_seal _ _ _ _ i); [done|right]. by apply negb_false_iff, String.eqb_eq in Hc.
Qed.

Lemma step_effect env c op : store_effect env (store c) op (store (step decode env c op).1).
Proof.
  destruct op; cbn [step map_reply fst]; unfold AdmitNativeFinalMessage, AdmitMessage, admitMessage, AdmitMedia.
  - destruct native; (destruct (NewMessageIntent _ _ _ _); [apply admit_effect, se_admit_message|apply se_none]).
  - destruct (NewMediaIntent _ _ _ _); [apply admit_effect, se_admit_media|apply se_none].
  - unfold PrepareAdmission. effect I.
  - unfold CommitAdmission. effect I.
  - unfold ReleaseAdmission. effect I.
  - unfold MarkAdmissionUnrecoverable.
    effect_of (MarkUnrecoverable decode env (store c) (dl_deliveryID lease) o) (se_unrecoverable env (store c) lease o).
  - unfold BeginAttempt_, fence. effect_of (BeginAttempt decode env (store c) id) (se_begin env (store c) id).
  - apply transitionPublished_effect, se_reject.
  - apply transitionPublished_effect, se_delivered.
  - apply transitionPublished_effect, se_failed.
  - apply transitionPublished_effect, se_ambiguous.
  - unfold Abandon. effect_of (MarkAbandoned decode env (store c) id o) (se_abandon env (store c) id o).
  - apply Recover_effect.
  - apply on_store_effect, se_settled.
  - apply on_store_effect, se_projected.
  - unfold ProtectPayload. effect_of (protectPayload decode env (store c) id) (se_protect env (store c) id).
  - apply SealNativeFinalMessage_effect.
  - unfold Close. effect I.
  - pose proof (se_retire env (store c) id before now) as He. by destruct (retirePlainPayload _ _ _ _ _ _).
  - apply se_none.
Qed.

(** ** Edges *)

Lemma Recover_edge env s id : readable env →
  moved_by ([StatusAttempting], StatusAmbiguous) (status s id) (status (Recover decode env s).1 id).
Proof.
  intros Hr. destruct (recovery_records_facts decode env s) as [_ Hrec].
  destruct (Recover decode env s) as [s' res] eqn:E.
  apply Recover_spec in E as [[-> _]|(out & Hout & _)]; [done..| |done].
  assert (∀ i, i ∈ recovery_records decode env s → peek s (it_ID i) = Some i) as Hl
    by (intros i Hi; by apply Hrec, read_peek in Hi as [? _]).
  unfold status. cbn [fst].
  destruct (recovered_peek _ _ _ _ _ _ _ Hout Hl id) as [->|(i & j & -> & -> & Hmv & Hst)]; [done|].
  cbn. rewrite Hst. apply (mb_edge ([StatusAttempting], StatusAmbiguous)). destruct Hmv as (_ & -> & _). set_solver.
Qed.
Lemma BeginAttempt_edge env s id : readable env →
  edge_at (StatusAttempting :: unsent, StatusAttempting) id s (BeginAttempt decode env s id).1.
Proof.
  intros Hr. destruct (transition_edge env s id StatusAttempting no_outcome false true
    [StatusPending; StatusAttempting; StatusDefinitelyFailed] Hr) as [Hm Ho]. split; [|done].
  fold (BeginAttempt decode env s id) in Hm. inversion Hm as [|st Hst|]; [done| |done].
  apply (mb_edge (StatusAttempting :: unsent, StatusAttempting)). unfold unsent. set_solver.
Qed.

(** No operation changes a status but along its edge. *)
Lemma step_status env c op id : readable env →
  moved_by (op_edge id op) (status (store c) id) (status (store (step decode env c op).1) id).
Proof.
  intros Hr. generalize (step_effect env c op). generalize (store c), (store (step decode env c op).1). intros s s' He.
  assert (∀ id' e s', edge_at e id' s s' →
    moved_by (if String.eqb id' id then e else no_edge) (status s id) (status s' id)) as Hat.
  { intros id' e s1 He1. apply (edge_here e id' _ _ (fun x => if String.eqb id' x then e else no_edge)); [done|].
    by rewrite String.eqb_refl. }
  assert (∀ e id' s', edge_at no_edge id' s s' → moved_by e (status s id) (status s' id)) as Hno.
  { intros e id' s1 He1. pose proof (edge_here no_edge id' _ _ (fun _ => no_edge) He1 eq_refl id) as Hm.
    inversion Hm as [|st Hin|]; [done|by apply elem_of_nil in Hin|done]. }
  destruct He; cbn [op_edge]; try done; try (apply Hat; by apply transition_edge).
  - eapply Hno, keep_edge. by apply Create_touched.
  - eapply Hno, keep_edge. by apply Create_touched.
  - by apply Hat, BeginAttempt_edge.
  - by apply Recover_edge.
  - by eapply Hno, keep_only_edge, MarkRecoverySettled_touched.
  - by eapply Hno, keep_only_edge, MarkTranscriptProjected_touched.
  - by eapply Hno, keep_only_edge, protectPayload_touched.
  - apply read_peek in H1 as (Hi & Hid & _). eapply Hno, keep_only_edge, (save_touched decode env s _ MvKeep i);
      [done|by rewrite Hid|apply list_elem_of_here|]. by destruct H2 as [->|(_ & _ & ->)].
  - by eapply Hno, keep_only_edge, retirePlainPayload_touched.
Qed.
End edges.
