(* ===== verification/OutboxLedger.v ===== *)
(** The outbox against its contract.

    [ledger] is the contract of one delivery, without files, leases, fences or
    restarts: a delivery waits, is handed to the transport, is taken or refused
    or its fate is unknown, or it is dropped.  Every run of the coordinator,
    seen through the status of one record, is a run of the ledger with the same
    events ([step_simulates]), and what the ledger rules out never happens. *)
From S2P Require Import Prelude GoStrings GoJson GoTime TaskResult BusInbound BusOutbound OutboxTypes.
From S2P Require Import OutboxStore OutboxCoordinator OutboxRecords OutboxSteps OutboxMachine.
From stdpp Require Import gmap relations.
#[local] Open Scope Z_scope.

Inductive Phase := Absent | Waiting | Sending | Accepted | Unknown | Dropped | Foreign.
(** What the outside sees: the transport may be called, it took the delivery,
    it refused it. *)
Inductive Event := Sent | Took | Refused.
#[export] Instance Event_eq_dec : EqDecision Event. Proof. solve_decision. Defined.

Inductive ledger : Phase → option Event → Phase → Prop :=
| ld_admit : ledger Absent None Waiting
| ld_send : ledger Waiting (Some Sent) Sending
| ld_arm : ledger Waiting None Sending (* written down, and the caller told not to send *)
| ld_took p : p = Sending ∨ p = Accepted → ledger p (Some Took) Accepted
| ld_accept : ledger Sending None Accepted
| ld_refuse : ledger Sending (Some Refused) Waiting
| ld_unheard p : ledger p (Some Refused) p (* the refusal could not be recorded *)
| ld_unknown : ledger Sending None Unknown
| ld_give_up : ledger Waiting None Unknown
| ld_drop : ledger Waiting None Dropped.

Inductive ledger_run : Phase → list Event → Phase → Prop :=
| lr_nil p : ledger_run p [] p
| lr_quiet p q r es : ledger p None q → ledger_run q es r → ledger_run p es r
| lr_event p q r e es : ledger p (Some e) q → ledger_run q es r → ledger_run p (e :: es) r.
#[local] Hint Constructors ledger ledger_run : core.

Lemma lr_quiet1 p q : ledger p None q → ledger_run p [] q.
Proof. eauto. Qed.
Lemma lr_event1 p q e : ledger p (Some e) q → ledger_run p [e] q.
Proof. eauto. Qed.
Lemma ledger_run_app p q r es1 es2 : ledger_run p es1 q → ledger_run q es2 r → ledger_run p (es1 ++ es2) r.
Proof. induction 1; cbn; eauto. Qed.
Lemma ledger_run_split p r es1 : ∀ es2, ledger_run p (es1 ++ es2) r → ∃ q, ledger_run p es1 q ∧ ledger_run q es2 r.
Proof.
  intros es2 Hr. remember (es1 ++ es2) as es eqn:E. revert es1 E.
  induction Hr as [p|p q r es Hl Hr IH|p q r e es Hl Hr IH]; intros es1 E.
  - symmetry in E. apply app_nil in E as [-> ->]. eauto.
  - destruct (IH _ E) as (q' & ? & ?). eauto.
  - destruct es1 as [|e' es1]; cbn in E; [subst es2; eauto|]. injection E as <- ->.
    destruct (IH _ eq_refl) as (q' & ? & ?). eauto.
Qed.

(** In the ledger a second hand-over needs a refusal of the first, and what the
    transport took is never handed over again. *)
Definition spent (p : Phase) : Prop := p ≠ Absent ∧ p ≠ Waiting.
Lemma spent_run p es q : ledger_run p es q → Refused ∉ es → spent p → spent q ∧ Sent ∉ es.
Proof.
  unfold spent. induction 1 as [p|p q r es Hl Hr IH|p q r e es Hl Hr IH]; intros Hn Hp.
  - split; [done|apply not_elem_of_nil].
  - apply IH; [done|]. inversion Hl; subst; naive_solver.
  - apply not_elem_of_cons in Hn as [He Hn]. rewrite not_elem_of_cons.
    inversion Hl; subst; try done; naive_solver.
Qed.
Lemma accepted_run p es q : ledger_run p es q → p = Accepted → q = Accepted ∧ Sent ∉ es.
Proof.
  induction 1 as [p|p q r es Hl Hr IH|p q r e es Hl Hr IH]; intros ->.
  - split; [done|apply not_elem_of_nil].
  - inversion Hl.
  - rewrite not_elem_of_cons. inversion Hl; subst; naive_solver.
Qed.

Lemma sent_run p es q : ledger_run p (Sent :: es) q → ¬ spent p ∧ ∃ p', spent p' ∧ ledger_run p' es q.
Proof.
  intros Hr. remember (Sent :: es) as es' eqn:E. induction Hr as [p|p q r es1 Hl Hr IH|p q r e es1 Hl Hr IH]; [done|..].
  - destruct (IH E) as (Hq & Hex). split; [|done]. unfold spent in *. inversion Hl; subst; naive_solver.
  - injection E as -> ->. inversion Hl; subst. unfold spent. naive_solver.
Qed.
Lemma ledger_resend p es1 es2 es3 q :
  ledger_run p (es1 ++ Sent :: es2 ++ Sent :: es3) q → Refused ∈ es2.
Proof.
  intros (q1 & _ & (_ & q2 & Hs & (q3 & H2 & (Hs3 & _)%sent_run)%ledger_run_split)%sent_run)%ledger_run_split.
  destruct (decide (Refused ∈ es2)) as [|Hn]; [done|]. by apply (spent_run _ _ _ H2) in Hn as [? _].
Qed.
Lemma ledger_took p es1 es2 q : ledger_run p (es1 ++ Took :: es2) q → Sent ∉ es2 ∧ q = Accepted.
Proof.
  intros (q1 & _ & H1)%ledger_run_split. remember (Took :: es2) as es eqn:E.
  induction H1 as [|p' q' r' es' Hl Hr IH|p' q' r' e' es' Hl Hr IH]; [done|by apply IH|].
  injection E as -> ->. inversion Hl; subst. by apply accepted_run in Hr as [-> ?].
Qed.

(** ** The coordinator seen as a ledger *)

Definition phase (o : option Status) : Phase :=
  match o with
  | None => Absent
  | Some StatusPending | Some StatusDefinitelyFailed => Waiting
  | Some StatusAttempting => Sending
  | Some StatusDelivered => Accepted
  | Some StatusAmbiguous => Unknown
  | Some StatusAbandoned => Dropped
  | Some (StatusOther _) => Foreign
  end.

(** The channel calls the transport when [BeginAttempt] returned without an
    error, and reports what it answered. *)
Definition event_of (id : string) (op : Op) (r : Reply) : list Event :=
  match op, r with
  | OpBegin id', RDone => if String.eqb id' id then [Sent] else []
  | OpDelivered id' _, RDone => if String.eqb id' id then [Took] else []
  | OpDefinitelyFailed id' _, _ => if String.eqb id' id then [Refused] else []
  | _, _ => []
  end.

Section simulation.
Context `{Sha256} `{UnicodeCase}.
Variable decode : string → result DecodeError Intent.
Implicit Types (c : Coordinator) (env : Env) (id : string).
Local Abbreviation peek := (peek decode).
Local Abbreviation readable := (readable decode).
Local Abbreviation step := (step decode).
Local Abbreviation status := (status decode).

Definition phase_of c id : Phase := phase (status (store c) id).

Fixpoint events id c (tr : list (Env * Op)) : list Event :=
  match tr with
  | [] => []
  | (env, op) :: tr' => event_of id op (step env c op).2 ++ events id (step env c op).1 tr'
  end.

Lemma begin_sent env c id : readable env → wf decode c → (step env c (OpBegin id)).2 = RDone →
  phase_of c id = Waiting ∧ phase_of (step env c (OpBegin id)).1 id = Sending.
Proof.
  intros Hr Hwf. cbn. pose proof (proj1 (BeginAttempt_edge decode env (store c) id Hr)) as Hm. revert Hm.
  unfold phase_of, BeginAttempt_. destruct (id_guard c id); [|done].
  case_bool_decide as Hp; [|done]. case_bool_decide as Ha; [done|]. cbn [negb].
  pose proof (λ j, transition_ok decode env (store c) id StatusAttempting no_outcome false true
    [StatusPending; StatusAttempting; StatusDefinitelyFailed] j Hr) as Hok.
  fold (BeginAttempt decode env (store c) id) in Hok.
  destruct (BeginAttempt decode env (store c) id) as [s' [j|e]]; cbn [fst snd map_reply done_reply] in *; [|done].
  intros Hm _. destruct (Hok _ eq_refl) as (Hj & Hst & _ & [i Hi]). cbn in Hm. revert Hm. unfold OutboxMachine.status. cbn.
  rewrite Hj, Hi. cbn. rewrite Hst. intros Hm. split; [|done].
  assert (it_Status i ≠ StatusAttempting) as Hna.
  { intros Hs. destruct (so_fence _ (wf_slot _ _ Hwf id) i Hi Hs) as [Hf|[_ Hf]]; cbn in Hf.
    - by apply bool_decide_eq_true in Hf.
    - by apply bool_decide_eq_false in Hf. }
  apply moved_some in Hm as [?|[Hin _]]; [by destruct Hna|]. cbn in Hin. unfold unsent in Hin.
  apply elem_of_cons in Hin as [Hs|Hin]; [by destruct Hna|].
  apply elem_of_cons in Hin as [->|Hin]; [done|]. by apply list_elem_of_singleton in Hin as ->.
Qed.

Lemma delivered_took env c id o : readable env → (step env c (OpDelivered id o)).2 = RDone →
  (phase_of c id = Sending ∨ phase_of c id = Accepted) ∧ phase_of (step env c (OpDelivered id o)).1 id = Accepted.
Proof.
  intros Hr. cbn. pose proof (transition_edge decode env (store c) id StatusDelivered o false false [StatusAttempting] Hr) as [Hm _].
  fold (MarkDelivered decode env (store c) id o) in Hm.
  pose proof (λ j, transition_ok decode env (store c) id StatusDelivered o false false [StatusAttempting] j Hr) as Hok.
  fold (MarkDelivered decode env (store c) id o) in Hok. unfold phase_of, MarkDelivered_, transitionPublished.
  destruct (id_guard c id); [|done]. case_bool_decide; [|done]. cbn [negb].
  destruct (true && _); [done|]. cbn [negb andb].
  destruct (MarkDelivered decode env (store c) id o) as [s' [j|e]]; cbn [fst snd map_reply done_reply] in *; [|done].
  intros _. destruct (Hok _ eq_refl) as (Hj & Hst & _ & [i Hi]). rewrite finishReceiptLocked_store. cbn. revert Hm.
  unfold OutboxMachine.status. rewrite Hj, Hi. cbn. rewrite Hst. intros Hm. split; [|done].
  apply moved_some in Hm as [->|[->%list_elem_of_singleton _]]; [by right|by left].
Qed.

(** Whatever an edge of the table does to a status, the ledger does silently,
    or on a refusal. *)
Lemma edge_run id op o o' : moved_by (op_edge id op) o o' → event_of id op RDone = [] →
  ledger_run (phase o) [] (phase o').
Proof.
  destruct op; cbn; try destruct (String.eqb _ _); try discriminate;
    intros Hm _; inversion Hm as [?|st Hin|]; subst; try solve [constructor]; try solve [by apply lr_quiet1];
    cbn in Hin; unfold unsent in Hin; repeat (apply elem_of_cons in Hin as [->|Hin]; [cbn; eauto|]); by apply elem_of_nil in Hin.
Qed.

(** Of another delivery nothing is seen. *)
Local Ltac elsewhere id' id Hquiet :=
  destruct (String.eqb_spec id' id) as [->|Hne];
  [|apply Hquiet; cbn; apply String.eqb_neq in Hne; rewrite Hne; by repeat case_match].

(** One operation is a run of the ledger. *)
Lemma step_simulates env c op id : readable env → wf decode c →
  ledger_run (phase_of c id) (event_of id op (step env c op).2) (phase_of (step env c op).1 id).
Proof.
  intros Hr Hwf. pose proof (step_status decode env c op id Hr) as Hm.
  assert (event_of id op RDone = [] → event_of id op (step env c op).2 = [] →
    ledger_run (phase_of c id) (event_of id op (step env c op).2) (phase_of (step env c op).1 id)) as Hquiet
    by (intros He ->; by apply (edge_run id op)).
  destruct op; try (apply Hquiet; by destruct (step _ _ _).2).
  - elsewhere id0 id Hquiet.
    pose proof (begin_sent env c id Hr Hwf) as Hb. unfold phase_of in *.
    destruct (step env c (OpBegin id)) as [c' []]; cbn in *; rewrite ?String.eqb_refl in *;
      [by destruct (Hb eq_refl) as [-> ->]; apply lr_event1, ld_send|..];
      (inversion Hm as [o E1 E2|st Hin E1 E2|E1 E2]; [constructor| |by apply lr_quiet1, ld_admit]);
      cbn in *; unfold unsent in Hin; repeat (apply elem_of_cons in Hin as [->|Hin]; [cbn; eauto|]); by apply elem_of_nil in Hin.
  - elsewhere id0 id Hquiet.
    pose proof (delivered_took env c id o Hr) as Hb. unfold phase_of in *.
    destruct (step env c (OpDelivered id o)) as [c' []]; cbn in *; rewrite ?String.eqb_refl in *;
      [destruct (Hb eq_refl) as [Hp ->]; by apply lr_event1, ld_took|..];
      (inversion Hm as [o' E1 E2|st Hin E1 E2|E1 E2]; [constructor| |by apply lr_quiet1, ld_admit]);
      cbn in *; apply list_elem_of_singleton in Hin as ->; by apply lr_quiet1, ld_accept.
  - elsewhere id0 id Hquiet.
    unfold phase_of in *. cbn [event_of op_edge] in *. rewrite String.eqb_refl in *. clear Hquiet. revert Hm.
    generalize (status (store c) id), (status (store (step env c (OpDefinitelyFailed id o)).1) id).
    intros o1 o2 Hm. inversion Hm as [o' E1 E2|st Hin E1 E2|E1 E2].
    + apply lr_event1, ld_unheard.
    + cbn in Hin. apply list_elem_of_singleton in Hin as ->. apply lr_event1, ld_refuse.
    + eapply lr_event; [apply ld_unheard|apply lr_quiet1, ld_admit].
Qed.

Lemma exec_simulates id tr : ∀ c, all_readable decode tr → wf decode c →
  ledger_run (phase_of c id) (events id c tr) (phase_of (exec decode c tr) id).
Proof.
  induction tr as [|[env op] tr IH]; intros c Hr Hwf; [constructor|]. apply Forall_cons in Hr as [Hr1 Hr].
  cbn [events exec]. eapply ledger_run_app; [by apply step_simulates|]. apply IH; [done|]. by apply step_wf.
Qed.
End simulation.
