(* ===== verification/OutboxValid.v ===== *)
(** The well-formedness of what is on disk: every record that decodes passes
    [validateIntent] under its own name, and every operation keeps it so
    ([step_valid]) but one: a new attempt at a delivery whose recovery was
    already settled. *)
From stdpp Require Import gmap relations.
From S2P Require Import Prelude GoStrings GoJson GoTime TaskResult BusInbound BusOutbound.
From S2P Require Import OutboxTypes OutboxStore OutboxCoordinator OutboxRecords.
From S2P Require Import OutboxSteps OutboxMachine.

#[local] Open Scope Z_scope.

(** ** Records *)

(** The parts of a record no status change touches. *)
Record intact (i j : Intent) : Prop := {
  in_version : it_Version j = it_Version i;
  in_id : it_ID j = it_ID i;
  in_owner : it_OwnerWorkspace j = it_OwnerWorkspace i;
  in_identity : it_Identity j = it_Identity i;
  in_message : it_Message j = it_Message i;
  in_media : it_Media j = it_Media i;
  in_created : it_CreatedAt j = it_CreatedAt i;
  in_retired : it_PayloadRetired j = false;
  in_retired_at : it_PayloadRetiredAt j = it_PayloadRetiredAt i }.

(** The parts that go with the status and the retention class. *)
Record progress_ok (j : Intent) : Prop := {
  po_status : validStatus (it_Status j) = true;
  po_updated : IsZero (it_UpdatedAt j) = false;
  po_class : it_Version j = recordVersion → it_RetentionClass j = "";
  po_retention : retention_class_ok j = true;
  po_settled : it_RecoverySettled j = true → RequiresRecoverySettlement j = true ∧ isTerminalStatus (it_Status j) = true;
  po_projected : it_TranscriptProjected j = true →
    it_Status j = StatusDelivered ∧ RequiresTranscriptProjection j = true }.

Section validity.
Context `{Sha256} `{UnicodeCase}.
Implicit Types i j : Intent.

Lemma valid_progress i : validateIntent i = Ok tt → it_PayloadRetired i = false → progress_ok i.
Proof.
  unfold validateIntent. intros Hv Hret. rewrite Hret in Hv. rewrite !reject_ok, bind_unit_ok in Hv.
  destruct Hv as (_ & _ & _ & _ & Hv). destruct (DeliveryID (it_Identity i)) as [want|]; [|done]. cbn in Hv.
  rewrite !reject_ok in Hv. destruct Hv as (_ & Hs & Ht & _ & Hc & _ & Hr & Hset & Hpr & _).
  apply orb_false_elim in Ht as [_ Ht]. split; try done.
  - by apply negb_false_iff in Hs.
  - intros Hver. rewrite Hver in Hc. by apply negb_false_iff, String.eqb_eq in Hc.
  - by apply negb_false_iff in Hr.
  - intros E. rewrite E in Hset. cbn in Hset. by apply orb_false_elim in Hset as [?%negb_false_iff ?%negb_false_iff].
  - intros E. rewrite E in Hpr. cbn in Hpr.
    by apply orb_false_elim in Hpr as [?%negb_false_iff%bool_decide_eq_true ?%negb_false_iff].
Qed.

(** An intact record with a sound progress is valid. *)
Lemma valid_intact i j :
  validateIntent i = Ok tt → it_PayloadRetired i = false → intact i j → progress_ok j → validateIntent j = Ok tt.
Proof.
  intros Hv Hret [] []. destruct i, j. cbn in *. subst. unfold validateIntent in *. cbn in *.
  rewrite !reject_ok, bind_unit_ok in Hv |- *. destruct Hv as (H1 & H2 & H3 & H4 & Hv). split_and!; try done.
  destruct (DeliveryID it_Identity) as [want|]; [|done]. cbn in *. rewrite !reject_ok in Hv |- *.
  destruct Hv as (H5 & H6 & H7 & H8 & H9 & H10 & H11 & H12 & H13 & H14).
  split_and!; try done.
  - by rewrite po_status0.
  - apply orb_false_elim in H7 as [-> _]. by rewrite po_updated0.
  - destruct (Z.eqb_spec it_Version recordVersion) as [E|]; [|done]. by rewrite po_class0.
  - by rewrite po_retention0.
  - destruct it_RecoverySettled0; [|done]. by destruct po_settled0 as [-> ->].
  - destruct it_TranscriptProjected0; [|done]. by destruct po_projected0 as [-> ->].
Qed.

Lemma retired_facts i : validateIntent i = Ok tt → it_PayloadRetired i = true →
  it_Status i = StatusDelivered ∧ it_Message i = None ∧ it_Media i = None.
Proof.
  unfold validateIntent. intros Hv Hret. rewrite Hret in Hv. rewrite !reject_ok, bind_unit_ok in Hv.
  destruct Hv as (_ & _ & _ & _ & Hv). destruct (DeliveryID (it_Identity i)) as [want|]; [|done]. cbn in Hv.
  rewrite !reject_ok in Hv. destruct Hv as (_ & _ & _ & _ & _ & Hv). unfold validateRetiredIntent in Hv.
  destruct (it_Message i), (it_Media i); rewrite ?andb_false_r in Hv; try done.
  destruct (bool_decide (it_Status i = StatusDelivered)) eqn:E; [by apply bool_decide_eq_true in E|].
  by rewrite !andb_false_r in Hv.
Qed.
Lemma not_retired i : validateIntent i = Ok tt →
  it_Status i ≠ StatusDelivered ∨ is_Some (it_Message i) ∨ is_Some (it_Media i) → it_PayloadRetired i = false.
Proof.
  intros Hv Hor. destruct (it_PayloadRetired i) eqn:E; [|done].
  destruct (retired_facts i Hv E) as (H1 & H2 & H3). rewrite H2, H3 in Hor. by destruct Hor as [|[[? ?]|[? ?]]].
Qed.
Lemma settlement_media i : RequiresRecoverySettlement i = true → is_Some (it_Media i).
Proof. unfold RequiresRecoverySettlement. by destruct (it_Media i). Qed.
Lemma projection_payload i : RequiresTranscriptProjection i = true → is_Some (it_Message i) ∨ is_Some (it_Media i).
Proof.
  unfold RequiresTranscriptProjection, transcriptProjection. intros Ht%bool_decide_eq_true.
  destruct (it_Message i); [left; by eexists|]. destruct (it_Media i); [right; by eexists|by destruct Ht].
Qed.
Lemma valid_id i : validateIntent i = Ok tt → validateID (it_ID i) = true.
Proof. unfold validateIntent. rewrite !reject_ok. by intros (_ & Hid%negb_false_iff & _). Qed.

Variable decode : string → result DecodeError Intent.
Implicit Types (c : Coordinator) (env : Env) (id : string) (s : Store).

(** Every record that decodes is valid, under the name of its file. *)
Definition valid_store s : Prop := ∀ id i, peek decode s id = Some i → it_ID i = id ∧ validateIntent i = Ok tt.
(** The clock does not read the zero time. *)
Definition ticking env : Prop := ∀ id, IsZero (UTC (env_now env id)) = false.

Definition to_valid (o : option Intent) (j : Intent) : Prop := validateIntent j = Ok tt.
Lemma touch_valid id s s' : touch decode to_valid id s s' → valid_store s → valid_store s'.
Proof.
  intros Ht Hv id' j Hj. destruct (decide (id' = id)) as [->|Hne].
  - destruct Ht as [->|(j' & Hid & _ & Hp & Hok)]; [by apply Hv|]. rewrite Hp in Hj. by injection Hj as <-.
  - apply Hv. by rewrite <- (touch_other _ _ _ _ _ _ Ht Hne).
Qed.
Lemma save_valid env s j : readable decode env → validateIntent j = Ok tt → valid_store s → valid_store (save env s j).1.
Proof. intros Hr Hj. eapply touch_valid, save_touch; [done|]. exact Hj. Qed.

(** ** Operations of the store *)

(** A record that is not delivered, moved on. *)
Lemma valid_moved env i next o count :
  ticking env → validateIntent i = Ok tt → it_Status i ≠ StatusDelivered → validStatus next = true →
  isTerminalStatus next = true ∨ it_RecoverySettled i = false → validateIntent (moved env next o count i) = Ok tt.
Proof.
  intros Ht Hv Hnd Hn Hs. assert (it_PayloadRetired i = false) as Hret by (apply not_retired; auto).
  eapply valid_intact; [exact Hv|done|by split|]. pose proof (valid_progress i Hv Hret) as [].
  split; cbn; try done.
  - intros E. destruct (po_settled0 E) as [? _]. split; [done|]. destruct Hs; [done|congruence].
  - intros [E _]%po_projected0. done.
Qed.

Lemma transition_valid env s id next o refresh count allowed :
  readable decode env → ticking env → StatusDelivered ∉ allowed → validStatus next = true →
  isTerminalStatus next = true ∨ (∀ i, peek decode s id = Some i → it_RecoverySettled i = false) →
  valid_store s → valid_store (transition decode env s id next o refresh count allowed).1.
Proof.
  intros Hr Ht Ha Hn Hs Hv. unfold transition. destruct (read decode env s id) as [i|] eqn:E; [|done].
  apply read_peek in E as (Hi & Hid & Hvi).
  destruct (_ && negb refresh); [by apply save_valid|]. unfold statusAllowed. case_bool_decide as Hin; [|done].
  cbn [negb]. apply save_valid; [done| |done]. apply valid_moved; try done; [by intros E; rewrite E in Hin|].
  destruct Hs as [|Hs]; [by left|right; by apply Hs].
Qed.

Lemma Create_valid env s i : readable decode env → ticking env → valid_store s → valid_store (Create decode env s i).1.
Proof.
  intros Hr Ht Hv. unfold Create. destruct (validateNewIntent i) as [[]|] eqn:Hn; [|done].
  apply new_intent_fresh in Hn as (Hvi & _). destruct (read decode env s (it_ID i)) as [e|[]] eqn:E; try done.
  - apply read_peek in E as (He & Hid & Hve). destruct (negb _); [done|].
    destruct (negb (it_PayloadRetired e) && negb (String.eqb (it_RetentionClass e) "")
      && String.eqb (it_RetentionClass i) "") eqn:Hp; cbn [negb]; rewrite ?andb_false_r, ?andb_true_r;
      [|destruct (bool_decide _); cbn; [by apply save_valid|exact Hv]].
    apply andb_prop in Hp as [[Hret%negb_true_iff _]%andb_prop _].
    apply save_valid; [done| |done]. eapply valid_intact; [exact Hve|done|by split|].
    pose proof (valid_progress e Hve Hret) as []. split; cbn; done.
  - by apply save_valid.
Qed.

Lemma MarkRecoverySettled_valid env s id :
  readable decode env → ticking env → valid_store s → valid_store (MarkRecoverySettled decode env s id).1.
Proof.
  intros Hr Ht Hv. unfold MarkRecoverySettled. destruct (read decode env s id) as [i|] eqn:E; [|done].
  apply read_peek in E as (Hi & Hid & Hvi). destruct (_ || _) eqn:Hg; [done|].
  apply orb_false_elim in Hg as [Hq%negb_false_iff Hterm%negb_false_iff].
  destruct (it_RecoverySettled i); (apply save_valid; [exact Hr| |exact Hv]); [exact Hvi|].
  assert (it_PayloadRetired i = false) as Hret by (apply not_retired; auto using settlement_media).
  eapply valid_intact; [exact Hvi|done|by split|]. pose proof (valid_progress i Hvi Hret) as [].
  split; cbn; done.
Qed.
Lemma MarkTranscriptProjected_valid env s id :
  readable decode env → ticking env → valid_store s → valid_store (MarkTranscriptProjected decode env s id).1.
Proof.
  intros Hr Ht Hv. unfold MarkTranscriptProjected. destruct (read decode env s id) as [i|] eqn:E; [|done].
  apply read_peek in E as (Hi & Hid & Hvi). destruct (_ || _) eqn:Hg; [done|].
  apply orb_false_elim in Hg as [Hd%negb_false_iff%bool_decide_eq_true Hq%negb_false_iff].
  destruct (it_TranscriptProjected i); (apply save_valid; [exact Hr| |exact Hv]); [exact Hvi|].
  assert (it_PayloadRetired i = false) as Hret by (apply not_retired; auto using projection_payload).
  eapply valid_intact; [exact Hvi|done|by split|]. pose proof (valid_progress i Hvi Hret) as [].
  split; cbn; done.
Qed.
Lemma protectPayload_valid env s id :
  readable decode env → ticking env → valid_store s → valid_store (protectPayload decode env s id).1.
Proof.
  intros Hr Ht Hv. unfold protectPayload. destruct (read decode env s id) as [i|] eqn:E; [|done].
  apply read_peek in E as (Hi & Hid & Hvi). destruct (it_PayloadRetired i) eqn:Hret; [done|].
  destruct (String.eqb _ _); [done|]. rewrite (proj1 (save_write _ _ _)). apply save_valid; [done| |done].
  eapply valid_intact; [exact Hvi|done|by split|]. pose proof (valid_progress i Hvi Hret) as [].
  split; cbn; done.
Qed.
Lemma retirePlainPayload_valid env s id before now :
  readable decode env → valid_store s → valid_store (retirePlainPayload decode env s id before now).1.
Proof.
  intros Hr Hv. unfold retirePlainPayload. destruct (read decode env s id) as [i|] eqn:E; [|done].
  destruct (_ && _); [done|]. destruct (validateIntent _) as [[]|] eqn:Hvr; [|done].
  destruct (negb _); [done|]. destruct (_ <? _); [done|]. by apply save_valid.
Qed.
Lemma seal_valid env i : ticking env → validateIntent i = Ok tt → it_PayloadRetired i = false →
  it_RetentionClass i = retentionSourcePending →
  validateIntent (stamp env (i <| it_RetentionClass := retentionPlainMessage |>)) = Ok tt.
Proof.
  intros Ht Hvi Hret Hcl. eapply valid_intact; [exact Hvi|done|by split|]. pose proof (valid_progress i Hvi Hret) as [].
  split; cbn; try done.
  - intros Hver. rewrite po_class0 in Hcl; done.
  - revert po_retention0. unfold retention_class_ok. rewrite Hcl. done.
Qed.

Lemma recover_record_valid env i : ticking env → validateIntent i = Ok tt → validateIntent (recover_record env i) = Ok tt.
Proof.
  intros Ht Hv. unfold recover_record. destruct (owes_settlement i || _); [done|].
  destruct (decide (it_Status i = StatusAttempting)) as [Hst|Hst]; [rewrite Hst|by destruct (it_Status i)].
  assert (it_PayloadRetired i = false) as Hret by (apply not_retired; [done|left; by rewrite Hst]).
  eapply valid_intact; [exact Hv|done|by split|]. pose proof (valid_progress i Hv Hret) as [].
  split; cbn; try done.
  - intros [? E]%po_settled0. by rewrite Hst in E.
  - intros [E _]%po_projected0. by rewrite Hst in E.
Qed.
Lemma Recover_valid env s : readable decode env → ticking env → valid_store s → valid_store (Recover decode env s).1.
Proof.
  intros Hr Ht Hv. destruct (recovery_records_facts decode env s) as [_ Hrec].
  destruct (Recover decode env s) as [s' res] eqn:E.
  apply Recover_spec in E as [[-> _]|(out & (Hne & Hin & _) & _)]; [done..| |done]. intros id j Hj. cbn in Hj.
  destruct (decide (id ∈ it_ID <$> recovery_records decode env s)) as [Hid|Hid]; [|apply Hv; by rewrite <- Hne].
  apply list_elem_of_fmap in Hid as (i & -> & Hi). destruct (read_peek _ _ _ _ _ (proj1 (Hrec i) Hi)) as (Hp & _ & Hvi).
  destruct (Hin i Hi) as [Hp'|Hp']; rewrite Hp' in Hj; injection Hj as <-; [done|].
  split; [by apply (recover_record_id decode)|by apply recover_record_valid].
Qed.

(** ** The machine *)

(** The operation does not begin another attempt at a settled delivery. *)
Definition begins_unsettled c op : Prop :=
  ∀ id i, op = OpBegin id → peek decode (store c) id = Some i → it_RecoverySettled i = false.

Lemma step_valid env c op : readable decode env → ticking env → begins_unsettled c op →
  valid_store (store c) → valid_store (store (step decode env c op).1).
Proof.
  intros Hr Ht Hb. generalize (step_effect decode env c op). unfold begins_unsettled in Hb. revert Hb.
  generalize (store c), (store (step decode env c op).1). intros s s' Hb He Hv.
  destruct He; try done; try (apply transition_valid; [done|done|by unfold unsent; intros Hin; absent Hin|done|by left|done]).
  - by apply Create_valid.
  - by apply Create_valid.
  - apply transition_valid; [done..|intros Hin; absent Hin|done|right; by eauto|done].
  - by apply Recover_valid.
  - by apply MarkRecoverySettled_valid.
  - by apply MarkTranscriptProjected_valid.
  - by apply protectPayload_valid.
  - apply read_peek in H1 as (_ & _ & Hvi). apply save_valid; [done| |done].
    destruct H2 as [->|(Hret & Hcl & ->)]; [done|by apply seal_valid].
  - by apply retirePlainPayload_valid.
Qed.
End validity.

(** The retry budget: how often the transport is called for one delivery.

    An admission hands a lease out only for a delivery with attempts left, and
    the publication of that lease allows one more attempt.  [used] is the set of
    the leases prepared for publication so far in this process: while no lease
    is prepared twice, no record counts more than [MaxDeliveryAttempts]. *)

Definition fits (i : Intent) : Prop :=
  it_Attempts i ≤ MaxDeliveryAttempts ∧ (it_Status i = StatusPending → it_Attempts i < MaxDeliveryAttempts).
(** If the record may be sent at all, one more attempt is within the budget. *)
Definition room (i : Intent) : Prop := it_Status i ∈ unsent → it_Attempts i < MaxDeliveryAttempts.

Lemma moves_fits m i j : moves m i j → fits i → (m = MvBegin ∨ m = MvReject → room i ∧ it_Status i ∈ unsent) → fits j.
Proof.
  intros [_ Hm] [Hle Hlt] Hr. unfold fits. destruct m; [done|..].
  - by destruct Hm as [-> ->].
  - destruct Hm as (_ & -> & ->), (Hr (or_introl eq_refl)) as [Hi Hu]. specialize (Hi Hu). split; [lia|done].
  - destruct Hm as (_ & -> & ->), (Hr (or_intror eq_refl)) as [Hi Hu]. specialize (Hi Hu). split; [lia|done].
  - destruct Hm as (_ & Hs & ->). split; [done|]. intros E. rewrite E in Hs. absent Hs.
  - destruct Hm as (_ & Hs & ->). split; [done|]. intros E. rewrite E in Hs. absent Hs.
Qed.
Lemma moves_room m i j : moves m i j → m ≠ MvReject → m ≠ MvOutcome → room i → room j.
Proof.
  intros [_ Hm] H1 H2 Hr. unfold room in *. destruct m; try done.
  - by destruct Hm as [-> ->].
  - destruct Hm as (_ & -> & _). intros Hs. absent Hs.
  - destruct Hm as (_ & Hs & ->). intros Hu. unfold unsent in Hu.
    apply elem_of_cons in Hs as [E|Hs]; [rewrite E in Hu; absent Hu|].
    apply list_elem_of_singleton in Hs as E. rewrite E in Hu. absent Hu.
Qed.
Lemma room_status i : it_Status i ∉ unsent → room i.
Proof. by intros ? ?. Qed.

Record budget (used : gset Z) (sl : Slot) : Prop := {
  bu_rec : ∀ i, sl_rec sl = Some i → fits i;
  bu_lease : ∀ i g, sl_rec sl = Some i → sl_lease sl = Some g → g ∉ used → room i;
  bu_open : ∀ i, sl_rec sl = Some i → sl_published sl = true → sl_attempting sl = false → room i;
  bu_used : ∀ g, sl_lease sl = Some g → sl_published sl = true → g ∈ used }.

Lemma budget_mono used used' sl : used ⊆ used' → budget used sl → budget used' sl.
Proof. intros Hu [H1 H2 H3 H4]. split; [done| |done|by auto]. intros i g Hi Hg Hn. eapply H2; [done..|set_solver]. Qed.

Section slot.
Context (lo hi : Z) (used : gset Z) (sl sl' : Slot).

(** The record of a slot moved by one of [ms]. *)
Lemma budget_moved ms j :
  budget used sl → moves_to ms (sl_rec sl) j → MvBegin ∉ ms → MvReject ∉ ms →
  fits j ∧ (MvOutcome ∉ ms → ∀ P : Prop, (P → ∀ i, sl_rec sl = Some i → room i) → P → room j).
Proof.
  intros Hb Hm Hnb Hnr. pose proof (bu_rec _ _ Hb) as Hfits. destruct (sl_rec sl) as [i|]; cbn in Hm.
  - destruct Hm as (m & Hin & Hm). specialize (Hfits i eq_refl). split.
    + eapply moves_fits; [done..|]. by intros [->| ->].
    + intros Ho P HP HPi. eapply moves_room; [done|by intros ->|by intros ->|by apply HP].
  - destruct Hm as (_ & Hs & Ha). split; [|intros _ P _ _]; unfold fits, room; rewrite Ha; by split.
Qed.

(** A published record that may be sent, one attempt later. *)
Lemma budget_counted ms j :
  budget used sl → slot_ok sl → sl_published sl = true → sl_attempting sl = false →
  moves_to ms (sl_rec sl) j → MvNew ∉ ms → fits j.
Proof.
  intros Hb Hok Hp Ha Hm Hnn. pose proof (bu_rec _ _ Hb) as Hfits. pose proof (bu_open _ _ Hb) as Hroom.
  pose proof (so_fence _ Hok) as Hf. destruct (sl_rec sl) as [i|]; cbn in Hm; [|by destruct Hm].
  destruct Hm as (m & Hin & Hm). eapply moves_fits; [done|by apply Hfits|].
  intros Hor. split; [by apply Hroom|].
  assert (it_Status i ≠ StatusAttempting) as Hna
    by (intros Hs; destruct (Hf i eq_refl Hs) as [?|[_ ?]]; congruence).
  destruct Hm as [_ Hm]. destruct Hor as [->| ->]; destruct Hm as [Hs _]; [|done].
  by apply elem_of_cons in Hs as [?|?].
Qed.

Lemma slot_step_budget : slot_step lo hi None sl sl' → slot_ok sl → budget used sl → budget used sl'.
Proof.
  intros Hs Hok Hb. pose proof Hb as [Hrec Hlease Hopen Hused].
  destruct Hs as [j Hm|i j Hi Hm Hst|i g Hi Hd Hl Hp Hg|g Hpr|g Hl Hp|i j Hp Ha Hi Hm Hst|ms o Hp Hms Hr
    |j Hp Ha Hi Hm Hst|j Hp Ha Hi Hm Hst|g Hl|o Hp Ha Hr|j Hpb Hp Ha Hi Hm Hst|]; try done.
  - destruct (budget_moved _ j Hb Hm) as [Hf Hroom]; [set_solver..|]. specialize (Hroom ltac:(set_solver)).
    split; cbn; [by intros ? [= <-]| | |done].
    + intros ? g [= <-] Hg Hn. apply (Hroom True); [|done]. intros _ i Hi. by eapply Hlease.
    + intros ? [= <-] Hp Ha. apply (Hroom True); [|done]. intros _ i Hi. by eapply Hopen.
  - assert (room j) as Hroom by (apply room_status; rewrite Hst; intros Hu; unfold unsent in Hu; absent Hu).
    split; cbn; [|by intros ? ? [= <-]|by intros ? [= <-]|done].
    intros ? [= <-]. eapply moves_fits; [done|by apply Hrec|]. by intros [|].
  - assert (room i) as Hroom.
    { intros Hu. unfold dispatchable, RetryExhausted in Hd. pose proof (Hrec _ Hi) as [_ Hlt].
      apply orb_true_iff in Hd as [Hd%bool_decide_eq_true|[Hd He]%andb_prop]; [by apply Hlt|].
      rewrite Hd in He. cbn in He. apply negb_true_iff, Z.leb_gt in He. done. }
    split; cbn; [done| |congruence|congruence]. intros i' g' Hi' _ _. rewrite Hi in Hi'. by injection Hi' as <-.
  - assert (fits j) as Hf by (eapply (budget_counted _ j); [done..|by rewrite Hi|set_solver]).
    split; cbn; [by intros ? [= <-]| |done|done]. intros ? g [= <-] Hg Hn. by destruct Hn; apply Hused.
  - split; cbn; [|intros i g _ Hg Hn; by destruct Hn; apply Hused|done|done]. intros i ->.
    destruct Hr as [Hr|(j & [= <-] & Hr)]; [by apply Hrec|]. destruct (sl_attempting sl) eqn:Ha; cbn in Hms.
    + apply list_elem_of_singleton in Hms as ->. by eapply budget_moved; [|done|set_solver..].
    + eapply (budget_counted ms); [done..|].
      apply elem_of_cons in Hms as [->|Hms]; [set_solver|]. apply list_elem_of_singleton in Hms as ->. set_solver.
  - assert (fits j) as Hf by (eapply (budget_counted _ j); [done..|set_solver]).
    split; cbn; [by intros ? [= <-]| |done|done]. intros ? g [= <-] Hg Hn. by destruct Hn; apply Hused.
  - destruct (budget_moved _ j Hb Hm) as [Hf _]; [set_solver..|].
    split; cbn; [by intros ? [= <-]| |done|done]. intros ? g [= <-] Hg Hn. by destruct Hn; apply Hused.
  - assert (∀ i, o = Some i → fits i ∧ ∀ P : Prop, (P → ∀ i, sl_rec sl = Some i → room i) → P → room i) as Ho.
    { intros i ->. destruct Hr as [Hr|(j & [= <-] & Hr)].
      - split; [by apply Hrec|]. intros P HP HPi. by apply HP.
      - destruct (budget_moved _ i Hb Hr) as [Hf Hroom]; [set_solver..|]. split; [done|]. apply Hroom. set_solver. }
    split; cbn; [by intros i [? _]%Ho| |congruence|congruence].
    intros i g Hi Hg Hn. destruct (Ho _ Hi) as [_ Hroom]. apply (Hroom True); [|done]. intros _ i' Hi'. by eapply Hlease.
  - destruct (budget_moved _ j Hb Hm) as [Hf _]; [set_solver..|].
    split; cbn; [by intros ? [= <-]|done|congruence|done].
Qed.
End slot.

(** The leases prepared so far in this process, and the runs in which none is
    prepared a second time. *)
Definition used_after (used : gset Z) (op : Op) : gset Z :=
  if ends_process op then ∅ else match prepared_by op with Some g => {[g]} ∪ used | None => used end.
Fixpoint prepared_once (used : gset Z) (tr : list (Env * Op)) : bool :=
  match tr with
  | [] => true
  | (_, op) :: tr' =>
      match prepared_by op with Some g => bool_decide (g ∉ used) | None => true end
      && prepared_once (used_after used op) tr'
  end.

Section machine.
Context `{Sha256} `{UnicodeCase}.
Variable decode : string → result DecodeError Intent.
Implicit Types (c : Coordinator) (env : Env) (id : string) (used : gset Z).
Local Abbreviation slot := (slot decode).

Definition budgeted used c : Prop := ∀ id, budget used (slot c id).

Lemma rtc_budget lo hi used sl sl' :
  rtc (slot_step lo hi None) sl sl' → slot_ok sl → budget used sl → budget used sl'.
Proof. induction 1; [done|]. eauto using slot_step_budget, slot_step_ok. Qed.

Lemma good_budget used c c' : good decode None c c' → wf decode c → budgeted used c → budgeted used c'.
Proof.
  intros Hg Hwf Hb id. destruct (Hg Hwf) as [_ He]. eapply rtc_budget; [apply He|apply (wf_slot _ _ Hwf)|apply Hb].
Qed.

Lemma PrepareAdmission_budget used c lease :
  dl_generation lease ∉ used → budgeted used c →
  budgeted ({[dl_generation lease]} ∪ used) (PrepareAdmission c lease).1.
Proof.
  intros Hn Hb. assert (budgeted ({[dl_generation lease]} ∪ used) c) as Hc
    by (intros id; eapply budget_mono; [|apply Hb]; set_solver).
  unfold PrepareAdmission. destruct (lease_guard c lease) as [[]|] eqn:Hg; [|done].
  apply lease_guard_ok in Hg as [Hop Hz].
  destruct (negb (generation_of (leases c) _ =? _)) eqn:Hl; [done|]. apply generation_held in Hl; [|done].
  destruct (_ && _); [done|]. cbn [fst]. intros id. destruct (decide (id = dl_deliveryID lease)) as [->|Hne].
  - specialize (Hb (dl_deliveryID lease)) as [H1 H2 H3 H4]. split; cbn in *; [done|..].
    + intros i g Hi Hg. rewrite Hl in Hg. injection Hg as <-. set_solver.
    + intros i Hi _ _. by eapply H2.
    + intros g Hg _. rewrite Hl in Hg. injection Hg as <-. set_solver.
  - specialize (Hc id) as [H1 H2 H3 H4]. split; cbn in *; [done..| |];
      rewrite (bool_decide_ext (id ∈ {[dl_deliveryID lease]} ∪ published c) (id ∈ published c)) by set_solver; done.
Qed.

Lemma budget_new used root s : (∀ id i, peek decode s id = Some i → fits i) → budgeted used (newCoordinator root s).
Proof. intros Hf id. split; cbn; try done. intros i. apply Hf. Qed.

Lemma step_budget used env c op :
  readable decode env → wf decode c → (∀ g, prepared_by op = Some g → g ∉ used) → budgeted used c →
  budgeted (used_after used op) (step decode env c op).1.
Proof.
  intros Hr Hwf Hp Hb. unfold used_after. destruct (ends_process op) eqn:He.
  - assert (∀ id i, peek decode (store c) id = Some i → fits i) as Hf by (intros id i Hi; by eapply (bu_rec _ _ (Hb id))).
    destruct op; try discriminate He; cbn [step]; [|by apply budget_new].
    pose proof (retirePlainPayload_touched decode env (store c) id before now Hr) as Ht.
    destruct (retirePlainPayload _ _ _ _ _ _) as [s' res]. cbn in *. apply budget_new. intros id' i Hi.
    destruct (decide (id' = id)) as [->|Hne]; [|rewrite (touch_other _ _ _ _ _ _ Ht Hne) in Hi; by eapply Hf].
    destruct (touch_lookup _ _ _ _ _ _ Ht Hi) as [Hi'|Hm]; [by eapply Hf|].
    by apply (budget_moved used (slot c id) [MvKeep] i); [apply Hb|exact Hm|set_solver..].
  - pose proof (step_good decode env c op Hr He) as Hg. destruct (prepared_by op) as [g|] eqn:E.
    + destruct op; try discriminate E. injection E as <-. cbn. apply PrepareAdmission_budget; [|done]. by apply Hp.
    + by eapply good_budget.
Qed.

Lemma exec_budget tr : ∀ used c,
  all_readable decode tr → wf decode c → prepared_once used tr = true → budgeted used c →
  ∃ used', budgeted used' (exec decode c tr).
Proof.
  induction tr as [|[env op] tr IH]; intros used c Hr Hwf Ho Hb; [by exists used|]. apply Forall_cons in Hr as [Hr1 Hr].
  cbn in Ho. apply andb_prop in Ho as [Ho1 Ho]. eapply (IH (used_after used op)); [done|by apply step_wf|done|].
  apply step_budget; [done..| |done]. intros g Hg. rewrite Hg in Ho1. by apply bool_decide_eq_true in Ho1.
Qed.
End machine.
