(* ===== verification/OutboxClaims.v ===== *)
(** Admissions, leases and receipts, followed along runs of one process; and
    what [Recover] of the coordinator hands out after a restart, and when it
    comes to a result. *)
From S2P Require Import Prelude GoStrings GoJson GoTime TaskResult BusInbound BusOutbound OutboxTypes OutboxStore.
From S2P Require Import OutboxCoordinator OutboxRecords OutboxSteps OutboxMachine.
From S2P Require Import OutboxValid.
From stdpp Require Import gmap relations.
#[local] Open Scope Z_scope.

(** The run stays in one process. *)
Definition one_process (tr : list (Env * Op)) : Prop := Forall (fun p => ends_process p.2 = false) tr.

Section claims.
Context `{Sha256} `{UnicodeCase}.
Variable decode : string → result DecodeError Intent.
Implicit Types (c : Coordinator) (env : Env) (id : string) (a : Admission).
Local Abbreviation step := (step decode).
Local Abbreviation exec := (exec decode).

(** ** Runs *)

(** Results and receipts along a run of one process. *)
Lemma exec_receipts tr : ∀ c, all_readable decode tr → one_process tr → wf decode c →
  (∀ g r, results c !! g = Some r → results (exec c tr) !! g = Some r)
  ∧ (∀ id g, receipts c !! id = Some g → receipts (exec c tr) !! id = Some g ∨ is_Some (results (exec c tr) !! g))
  ∧ dispatchLeaseSequence c ≤ dispatchLeaseSequence (exec c tr)
  ∧ (∀ id g, leases (exec c tr) !! id = Some g → leases c !! id = Some g ∨ dispatchLeaseSequence c < g).
Proof.
  induction tr as [|[env op] tr IH]; intros c Hr Ho Hwf; [split_and!; auto; cbn; lia|].
  apply Forall_cons in Hr as [Hr1 Hr]. apply Forall_cons in Ho as [Ho1 Ho]. cbn [OutboxMachine.exec].
  destruct (step_good decode env c op Hr1 Ho1 Hwf) as [Hwf' [Hs Hq Hst Hrc _]].
  destruct (IH _ Hr Ho Hwf') as (H1 & H2 & H3 & H4). split_and!; [by auto| |lia|].
  - intros id g [Hg|[r Hg]]%Hrc; [by apply H2|]. right. exists r. by apply H1.
  - intros id g [Hg|Hg]%H4; [|right; lia]. specialize (Hs id). apply (rtc_lease _ _ _ _ _ Hs) in Hg as [Hg|Hg]; [by left|].
    right. lia.
Qed.

(** ** Leases *)

(** A lease this process issued and no longer holds. *)
Definition spent_lease c (lease : DispatchLease) : Prop :=
  dl_generation lease ≤ dispatchLeaseSequence c ∧ leases c !! dl_deliveryID lease ≠ Some (dl_generation lease).

Lemma spent_refused c lease : spent_lease c lease →
  dl_generation lease = 0 ∨ negb (generation_of (leases c) (dl_deliveryID lease) =? dl_generation lease) = true.
Proof.
  intros [_ Hn]. destruct (Z.eq_dec (dl_generation lease) 0) as [|Hz]; [by left|right].
  destruct (negb _) eqn:E; [done|]. by apply generation_held in E.
Qed.
Lemma spent_for_ever tr c lease : all_readable decode tr → one_process tr → wf decode c →
  spent_lease c lease → spent_lease (exec c tr) lease.
Proof.
  intros Hr Ho Hwf [Hg Hn]. destruct (exec_receipts tr c Hr Ho Hwf) as (_ & _ & Hq & Hl).
  split; [lia|]. intros [?|?]%Hl; [done|lia].
Qed.
Lemma lease_guard_zero c lease : dl_generation lease = 0 → ∃ e, lease_guard c lease = Err e.
Proof. intros Hz. unfold lease_guard. rewrite Hz, orb_true_r. by eexists. Qed.

(** ** Receipts *)

Lemma claim_facts c i c' a : claimDispatchLocked c i = (c', a) →
  ad_Intent a = i ∧ store c' = store c ∧ published c' = published c
  ∧ ad_Dispatch a = dispatchable i && bool_decide (leases c !! it_ID i = None) && bool_decide (it_ID i ∉ published c)
  ∧ (∀ id, id ≠ it_ID i → leases c' !! id = leases c !! id)
  ∧ (ad_Dispatch a = true → dl_deliveryID (ad_Lease a) = it_ID i
       ∧ leases c' !! it_ID i = Some (dl_generation (ad_Lease a)))
  ∧ (∀ r, ad_receipt a = Some r → dl_deliveryID r = it_ID i ∧ receipts c' !! it_ID i = Some (dl_generation r)
       ∧ (ad_Dispatch a = true → dl_generation r = dl_generation (ad_Lease a))).
Proof.
  unfold claimDispatchLocked.
  assert (negb (bool_decide (is_Some (leases c !! it_ID i))) = bool_decide (leases c !! it_ID i = None)) as ->.
  { rewrite <- bool_decide_not. apply bool_decide_ext. by rewrite eq_None_not_Some. }
  rewrite <- bool_decide_not. destruct (_ && bool_decide (it_ID i ∉ published c)); intros [= <- <-]; cbn.
  - rewrite !lookup_insert_eq. split_and!; try done; [by intros; rewrite lookup_insert_ne|]. by intros r [= <-].
  - split_and!; try done. intros r. destruct (receipts c !! it_ID i) as [g|]; [|done]. by intros [= <-].
Qed.

Lemma step_admits env c op c' a : step env c op = (c', RAdmission a) → ∃ j, admit_ decode env c j = (c', Ok a).
Proof.
  assert (∀ p : Coordinator * result Error Admission, map_reply admission_reply p = (c', RAdmission a) → p = (c', Ok a)) as Hm.
  { intros [c1 [a1|e]]; cbn; [|by intros [=]]. by intros [= -> ->]. }
  destruct op; cbn [OutboxMachine.step];
    try (by intros [= _ Hr]; revert Hr; unfold done_reply, flag_reply, recovery_reply; case_match);
    try (by destruct (retirePlainPayload _ _ _ _ _ _) as [? []]; intros [=]);
    unfold AdmitNativeFinalMessage, AdmitMessage, admitMessage, AdmitMedia.
  - destruct native; destruct (NewMessageIntent _ _ _ _); intros Hs%Hm; try done; by eexists.
  - destruct (NewMediaIntent _ _ _ _); intros Hs%Hm; try done; by eexists.
Qed.

Lemma admit_facts env c j c' a : admit_ decode env c j = (c', Ok a) →
  ∃ s' i, Create decode env (store c) j = (s', Ok i) ∧ claimDispatchLocked (c <| store := s' |>) i = (c', a).
Proof.
  unfold admit_. destruct (validateOpenLocked c); [|done]. destruct (Create decode env (store c) j) as [s' [i|e]]; [|done].
  set (c1 := c <| store := s' |>). destruct (claimDispatchLocked c1 i) as [c2 a2] eqn:E.
  intros [= <- <-]. by exists s', i.
Qed.

Lemma Create_intent_id env s j s' i : readable decode env → Create decode env s j = (s', Ok i) → validateID (it_ID i) = true.
Proof.
  intros Hr Hc. pose proof (Create_ok decode env s j i Hr) as Hi. rewrite Hc in Hi.
  destruct (Hi eq_refl) as [_ ->]. clear Hi. unfold Create in Hc.
  destruct (validateNewIntent j) as [[]|] eqn:Hn; [|done]. apply new_intent_fresh in Hn as [Hv _]. by apply valid_id.
Qed.

(** A receipt with a result is never waited for. *)
Lemma receipt_waits env c a r cancelled receiptFirst res :
  validateID (it_ID (ad_Intent a)) = true → ad_receipt a = Some r → dl_deliveryID r = it_ID (ad_Intent a) →
  dl_generation r ≠ 0 → (ad_Dispatch a = true → dl_generation r = dl_generation (ad_Lease a)) →
  results c !! dl_generation r = Some res →
  AwaitTerminal decode env c a cancelled receiptFirst = Some (if cancelled && negb receiptFirst then Err ErrContext else res).
Proof.
  intros Hv Hr Hid Hz Hd Hres. unfold AwaitTerminal. rewrite Hv, Hr, Hid, String.eqb_refl, Hres. cbn [negb orb].
  assert (dl_generation r =? 0 = false) as -> by by apply Z.eqb_neq. cbn [orb].
  destruct (ad_Dispatch a); [|done]. rewrite <- Hd by done. by rewrite Z.eqb_refl.
Qed.

(** What an admission's receipt stands for. *)
Lemma admission_receipt env c op c' a r : readable decode env → wf decode c →
  step env c op = (c', RAdmission a) → ad_receipt a = Some r →
  wf decode c' ∧ receipts c' !! it_ID (ad_Intent a) = Some (dl_generation r)
  ∧ ∀ env' c2 cancelled receiptFirst res, results c2 !! dl_generation r = Some res →
      AwaitTerminal decode env' c2 a cancelled receiptFirst = Some (if cancelled && negb receiptFirst then Err ErrContext else res).
Proof.
  intros Hr Hwf Hs Hrc. pose proof (step_wf decode env c op Hr Hwf) as Hwf'. rewrite Hs in Hwf'. split; [done|].
  destruct (step_admits _ _ _ _ _ Hs) as (j & (s' & i & Hc & Hcl)%admit_facts).
  pose proof (Create_intent_id _ _ _ _ _ Hr Hc) as Hid.
  destruct (claim_facts _ _ _ _ Hcl) as (<- & _ & _ & _ & _ & _ & Hf). destruct (Hf r Hrc) as (H1 & H2 & H3).
  split; [done|]. intros env' c2 cancelled receiptFirst res Hres. apply (receipt_waits env' c2 a r); try done.
  apply (wf_receipt _ _ Hwf') in H2. lia.
Qed.

(** Closing leaves no receipt open. *)
Lemma close_resolves env c id g : wf decode c → receipts c !! id = Some g ∨ is_Some (results c !! g) →
  is_Some (results (step env c OpClose).1 !! g).
Proof.
  intros Hwf Hor. destruct (Close_good decode c Hwf) as [Hwf' He]. cbn.
  destruct Hor as [Hg|[r Hg]]; [|exists r; by apply (ev_stable _ _ _ _ He)].
  destruct (ev_receipts _ _ _ _ He _ _ Hg) as [Hg'|]; [|done].
  assert (closed (Close c) = true) as Hc by (unfold Close; by destruct (closed c) eqn:E).
  apply (wf_closed _ _ Hwf') in Hc. rewrite Hc in Hg'. by rewrite lookup_empty in Hg'.
Qed.
End claims.

(** * Recovery

    Recovery after a restart: what [Recover] of the coordinator hands out from
    a fresh process, and when it comes to a result. *)

Section recovery.
Context `{Sha256} `{UnicodeCase}.
Variable decode : string → result DecodeError Intent.
Implicit Types (c : Coordinator) (env : Env) (id : string) (a : Admission).
Local Abbreviation peek := (peek decode).

(** An admission recovery made: of an intent that owes a settlement, or of one
    whose dispatch it claimed. *)
Definition recovered_admission c a : Prop :=
  if owes_settlement (ad_Intent a) then a = mkAdmission (ad_Intent a) false true false no_lease None
  else ad_Settle a = false ∧ ad_Dispatch a = true ∧ dl_deliveryID (ad_Lease a) = it_ID (ad_Intent a)
       ∧ leases c !! it_ID (ad_Intent a) = Some (dl_generation (ad_Lease a)).

Definition claimable c i : Prop :=
  owes_settlement i = true ∨ dispatchable i = true ∧ leases c !! it_ID i = None ∧ it_ID i ∉ published c.

Lemma claim_recovered_spec l : ∀ c adm c' out,
  NoDup (it_ID <$> l) → (∀ i, i ∈ l → claimable c i) → claim_recovered c l adm = (c', out) →
  (∀ id, id ∉ it_ID <$> l → leases c' !! id = leases c !! id) ∧ published c' = published c
  ∧ ∃ new, out = adm ++ new ∧ ad_Intent <$> new = l ∧ Forall (recovered_admission c') new.
Proof.
  induction l as [|i l IH]; intros c adm c' out Hnd Hl; cbn [claim_recovered].
  { intros [= <- <-]. split; [done|]. split; [done|]. exists []. by rewrite app_nil_r. }
  csimpl in Hnd. apply NoDup_cons in Hnd as [Hni Hnd]. fold (owes_settlement i).
  pose proof (Hl i (list_elem_of_here _ _)) as Hi. destruct (owes_settlement i) eqn:Ho.
  - intros (H1 & H2 & new & -> & Hmap & Hall)%IH; [|done|by intros; apply Hl; right]. split_and!; [|done|].
    + intros id Hid. csimpl in Hid. apply not_elem_of_cons in Hid as [_ ?]. by apply H1.
    + eexists (_ :: new). rewrite <- app_assoc. split; [done|]. csimpl. split; [by rewrite Hmap|].
      constructor; [|done]. unfold recovered_admission. cbn. by rewrite Ho.
  - destruct Hi as [?|(Hd & Hn & Hp)]; [congruence|]. destruct (claimDispatchLocked c i) as [c1 a] eqn:Hc.
    destruct (claim_facts _ _ _ _ Hc) as (Hai & _ & Hpub & Hdis & Hoth & Hls & _).
    rewrite Hd, !bool_decide_eq_true_2 in Hdis by done. cbn in Hdis. rewrite Hdis.
    destruct (Hls Hdis) as [Hlid Hlg].
    intros (H1 & H2 & new & -> & Hmap & Hall)%IH; [|done|].
    + split_and!; [|congruence|].
      * intros id Hid. csimpl in Hid. apply not_elem_of_cons in Hid as [? ?]. by rewrite H1, Hoth.
      * exists (a :: new). rewrite <- app_assoc. split; [done|]. csimpl. split; [by rewrite Hmap, Hai|].
        constructor; [|done]. unfold recovered_admission. rewrite Hai, Ho, Hlid. split_and!; try done.
        -- unfold claimDispatchLocked in Hc. by injection Hc as _ <-.
        -- by rewrite H1.
    + intros j Hj. destruct (Hl j) as [?|(? & Hnj & ?)]; [by right|by left|]. right.
      rewrite Hpub, Hoth by (intros E; apply Hni; rewrite <- E; by apply list_elem_of_fmap_2). done.
Qed.

(** What recovery reports of a record keeps its id, and can be claimed. *)
Lemma recover_work_claimable env root s i j : j ∈ recover_work env i →
  it_ID j = it_ID i ∧ claimable (newCoordinator root s) j.
Proof.
  unfold recover_work, claimable, dispatchable. cbn. intros Hj.
  destruct (owes_settlement i) eqn:Ho; [apply list_elem_of_singleton in Hj as ->; auto|].
  destruct (_ && _); [by apply elem_of_nil in Hj|].
  destruct (it_Status i) eqn:Hs; try by apply elem_of_nil in Hj.
  - apply list_elem_of_singleton in Hj as ->. rewrite Hs. split; [done|right]. split_and!; [done..|set_solver].
  - destruct (RecoverySettlementPending _) eqn:Hp; [|by apply elem_of_nil in Hj].
    apply list_elem_of_singleton in Hj as ->. split; [done|left]. unfold owes_settlement. by rewrite Hp.
  - destruct (RetryExhausted i) eqn:Hx; [by apply elem_of_nil in Hj|]. apply list_elem_of_singleton in Hj as ->.
    rewrite Hs, Hx. split; [done|right]. split_and!; [done..|set_solver].
Qed.
Lemma recover_work_short env i : recover_work env i = [] ∨ ∃ j, recover_work env i = [j].
Proof. unfold recover_work. repeat case_match; eauto. Qed.
Lemma work_nodup env l : NoDup (it_ID <$> l) → NoDup (it_ID <$> (l ≫= recover_work env)).
Proof.
  induction l as [|i l IH]; [done|]. csimpl. intros [Hni Hnd]%NoDup_cons. rewrite fmap_app.
  apply NoDup_app. split_and!; [|intros id Hid|by apply IH].
  - destruct (recover_work_short env i) as [->|[j ->]]; [constructor|]. csimpl. by apply NoDup_singleton.
  - apply list_elem_of_fmap in Hid as (j & -> & Hj). apply (recover_work_claimable env "" ∅) in Hj as [-> _].
    intros Hin. apply Hni. apply list_elem_of_fmap in Hin as (k & Hk & Hin).
    apply list_elem_of_bind in Hin as (i' & Hin & Hi'). apply (recover_work_claimable env "" ∅) in Hin as [E _].
    rewrite Hk, E. by apply list_elem_of_fmap_2.
Qed.

(** No valid record is left as one that is being attempted. *)
Lemma recover_record_settles env i : validateIntent i = Ok tt → it_Status (recover_record env i) ≠ StatusAttempting.
Proof.
  intros Hv. unfold recover_record. destruct (it_Status i) eqn:Hs; try (destruct (_ || _); by rewrite ?Hs).
  assert (it_PayloadRetired i = false) as Hret by (apply not_retired; [done|left; by rewrite Hs]).
  assert (owes_settlement i = false) as ->.
  { unfold owes_settlement, RecoverySettlementPending, TranscriptProjectionPending. rewrite Hs. cbn. by rewrite andb_false_r. }
  destruct (it_RecoverySettled i) eqn:E; [|by rewrite andb_false_r].
  pose proof (po_settled _ (valid_progress i Hv Hret) E) as [_ Ht]. by rewrite Hs in Ht.
Qed.

Lemma Recover_report env root s c' rep :
  readable decode env → Recover_ decode env (newCoordinator root s) = (c', Ok rep) →
  ad_Intent <$> rp_Admissions rep = recovery_records decode env s ≫= recover_work env
  ∧ Forall (recovered_admission c') (rp_Admissions rep)
  ∧ rp_Issues rep = omap (read_issue decode env s) (record_ids s)
  ∧ (∀ i, i ∈ recovery_records decode env s → peek (store c') (it_ID i) = Some (recover_record env i))
  ∧ (∀ id, id ∉ it_ID <$> recovery_records decode env s → peek (store c') id = peek s id).
Proof.
  intros Hr. unfold Recover_. cbn [validateOpenLocked newCoordinator closed store].
  destruct (recovery_records_facts decode env s) as [Hnd Hin].
  destruct (Recover decode env s) as [s' [report|e]] eqn:E; [|done].
  apply Recover_spec in E as [[_ [e [=]]]|(out & (Hne & _ & Hok) & -> & Hiss)]; [|done].
  destruct (Hok _ eq_refl) as [Hw Hall]. cbn in Hw.
  set (c1 := (newCoordinator root s) <| store := s' |>). destruct (claim_recovered c1 _ []) as [c2 adm] eqn:Hc.
  intros [= <- <-]. cbn. pose proof (claim_recovered_store (rr_Intents report) c1 []) as Hst. rewrite Hc in Hst. cbn in Hst.
  apply claim_recovered_spec in Hc as (_ & _ & new & -> & Hmap & Hfa).
  - cbn. rewrite Hmap, Hw, Hst. done.
  - rewrite Hw. by apply work_nodup.
  - rewrite Hw. intros j (i & Hj & _)%list_elem_of_bind. by apply (recover_work_claimable env root s') in Hj as [_ ?].
Qed.

(** ** Recovery comes to a result *)

(** The directory can be listed, every record can be read or is set aside, and
    the records recovery writes reach the disk. *)
Record recoverable env s : Prop := {
  rv_dir : env_dir env = true;
  rv_reads : ∀ id, is_Some (s !! id) → is_ok (read decode env s id) = true ∨ is_Some (read_issue decode env s id);
  rv_writes : ∀ i, i ∈ recovery_records decode env s →
    Intent_marshals (recover_record env i) = true ∧ env_write env (recover_record env i) = WriteOk }.

Lemma list_loop_ok env s ids : ∀ records issues,
  (∀ id, id ∈ ids → is_ok (read decode env s id) = true ∨ is_Some (read_issue decode env s id)) →
  ∃ out, list_loop decode env s ids records issues = Ok out.
Proof.
  induction ids as [|id ids IH]; intros records issues Hids; cbn [list_loop]; [by eexists|].
  pose proof (Hids id (list_elem_of_here _ _)) as Hid. unfold read_issue in Hid.
  destruct (read decode env s id) as [i|e]; [apply IH; intros; apply Hids; by right|].
  destruct Hid as [|[issue ->]]; [done|]. apply IH. intros. apply Hids. by right.
Qed.

Lemma recover_loop_ok env l : ∀ s d,
  (∀ i, i ∈ l → Intent_marshals (recover_record env i) = true ∧ env_write env (recover_record env i) = WriteOk) →
  ∃ s' out, recover_loop env s l d = (s', Ok out).
Proof.
  induction l as [|i l IH]; intros s d Hl; cbn [recover_loop]; [by eexists _, _|].
  assert (∀ s d, ∃ s' out, recover_loop env s l d = (s', Ok out)) as Hrest by (intros; apply IH; intros; apply Hl; by right).
  destruct (Hl i (list_elem_of_here _ _)) as [Hm Hw]. unfold recover_record in Hm, Hw. fold (owes_settlement i).
  destruct (owes_settlement i); [apply Hrest|]. cbn [orb] in *.
  destruct (_ && it_RecoverySettled i); [apply Hrest|]. destruct (it_Status i); try apply Hrest.
  - unfold write. rewrite Hm, Hw. apply Hrest.
  - destruct (String.eqb _ _); [|apply Hrest]. unfold write. rewrite Hm, Hw. apply Hrest.
Qed.

Lemma Recover_completes env root s : recoverable env s →
  ∃ c' rep, Recover_ decode env (newCoordinator root s) = (c', Ok rep).
Proof.
  intros [Hd Hids Hw]. unfold Recover_. cbn [validateOpenLocked newCoordinator closed store].
  unfold Recover, list_. rewrite Hd. cbn [negb].
  destruct (list_loop_ok env s (record_ids s) [] []) as [[records issues] Hl];
    [by intros id Hid%elem_of_record_ids; apply Hids|].
  rewrite Hl. apply list_loop_spec in Hl as (-> & _ & _). cbn [app]. fold (recovery_records decode env s).
  destruct (recover_loop_ok env _ s [] Hw) as (s' & out & ->). cbn [rr_Intents]. 
  destruct (claim_recovered _ _ _). by eexists _, _.
Qed.
End recovery.
