(* ===== verification/OutboxProps.v ===== *)
(** The properties of the outbox: what it promises to the channels that send,
    to the callers that wait, and to the operator who restarts it. *)
From S2P Require Import Prelude GoStrings GoJson GoTime TaskResult BusInbound BusOutbound OutboxTypes.
From S2P Require Import OutboxStore OutboxCoordinator OutboxRecords OutboxSteps OutboxMachine OutboxLedger.
From S2P Require Import OutboxValid OutboxClaims.
From stdpp Require Import gmap relations.
#[local] Open Scope Z_scope.

Section props.
Context `{Sha256} `{UnicodeCase}.
Variable decode : string → result DecodeError Intent.
Implicit Types (c : Coordinator) (env : Env) (id : string) (a : Admission).
Local Abbreviation peek := (peek decode).
Local Abbreviation step := (step decode).
Local Abbreviation exec := (exec decode).

(** ** Hypotheses of runs *)

(** No attempt in the run is at a delivery whose recovery was settled. *)
Definition begins_settled c op : bool :=
  match op with
  | OpBegin id => match peek (store c) id with Some i => it_RecoverySettled i | None => false end
  | _ => false
  end.
Fixpoint unsettled_begins c (tr : list (Env * Op)) : bool :=
  match tr with
  | [] => true
  | (env, op) :: tr' => negb (begins_settled c op) && unsettled_begins (step env c op).1 tr'
  end.
(** The transport's answer an operation reports, and the status it means. *)
Definition answer_of (op : Op) : option (string * Status) :=
  match op with
  | OpDelivered id _ => Some (id, StatusDelivered)
  | OpDefinitelyFailed id _ | OpReject id _ => Some (id, StatusDefinitelyFailed)
  | OpAmbiguous id _ => Some (id, StatusAmbiguous)
  | _ => None
  end.

(** ** Lemmas *)

Lemma exec_valid tr : ∀ c, all_readable decode tr → Forall (fun p => ticking p.1) tr → unsettled_begins c tr = true →
  valid_store decode (store c) → valid_store decode (store (exec c tr)).
Proof.
  induction tr as [|[env op] tr IH]; intros c Hr Ht Hb Hv; [done|].
  apply Forall_cons in Hr as [Hr1 Hr]. apply Forall_cons in Ht as [Ht1 Ht]. cbn in Hb. apply andb_prop in Hb as [Hb1 Hb].
  cbn. apply IH; [done..|]. apply step_valid; [done..| |done]. intros id i -> Hi. cbn in Hb1. rewrite Hi in Hb1.
  by apply negb_true_iff in Hb1.
Qed.

Lemma transitionPublished_answers c id req f c' next g :
  transitionPublished c id req f = (c', Ok tt) → wf decode c → receipts c !! id = Some g →
  (∀ j, (f (store c)).2 = Ok j →
     peek (f (store c)).1 id = Some j ∧ it_Status j = next ∧ it_ID j = id ∧ is_Some (peek (store c) id)) →
  ∃ j, results c' !! g = Some (Ok j) ∧ it_Status j = next ∧ peek (store c') id = Some j.
Proof.
  intros Ht Hwf Hg Hok. unfold transitionPublished in Ht. destruct (id_guard c id); [|done].
  destruct (negb _); [done|]. destruct (req && _); [done|]. destruct (negb req && _); [done|].
  destruct (f (store c)) as [s' [j|e]]; [|done]. cbn [fst snd] in Hok. destruct (Hok _ eq_refl) as (Hj & Hst & _).
  injection Ht as <-. exists j. rewrite finishReceiptLocked_eq. cbn. rewrite Hg. unfold finish.
  destruct (wf_receipt _ _ Hwf _ _ Hg) as [_ ->]. by rewrite lookup_insert_eq.
Qed.

(** An attempt that succeeded wrote the record [moved] makes. *)
Lemma begun env c id c' : readable decode env → step env c (OpBegin id) = (c', RDone) →
  ∃ i, read decode env (store c) id = Ok i ∧ it_Status i ∈ [StatusPending; StatusAttempting; StatusDefinitelyFailed]
       ∧ peek (store c') id = Some (moved env StatusAttempting no_outcome true i).
Proof.
  intros Hr. cbn. unfold BeginAttempt_. destruct (id_guard c id); [|done]. destruct (negb _); [done|].
  destruct (bool_decide (id ∈ attempting c)); [done|]. unfold BeginAttempt, transition.
  destruct (read decode env (store c) id) as [i|] eqn:E; [|done]. apply read_peek in E as He. destruct He as (_ & Hid & _).
  rewrite andb_false_r. cbn [andb]. unfold statusAllowed. case_bool_decide as Hin; [|done]. cbn [negb].
  pose proof (save_ok decode env (store c) (moved env StatusAttempting no_outcome true i)) as Hs.
  destruct (save env (store c) (moved env StatusAttempting no_outcome true i)) as [s' [j|e]]; [|done].
  intros [= <-]. exists i. split; [done|]. split; [done|]. cbn. destruct (Hs j Hr eq_refl) as [_ Hp].
  cbn in Hp. by rewrite Hid in Hp.
Qed.

Lemma list_loop_fails env s ids id e : ∀ records issues,
  id ∈ ids → read decode env s id = Err e → isolatedRecordIssue id e = None →
  ∃ e', list_loop decode env s ids records issues = Err e'.
Proof.
  induction ids as [|id' ids IH]; intros records issues Hin Hrd He; [by apply elem_of_nil in Hin|]. cbn [list_loop].
  apply elem_of_cons in Hin as [->|Hin].
  - rewrite Hrd, He. by eexists.
  - destruct (read decode env s id') as [i|e1]; [by apply IH|].
    destruct (isolatedRecordIssue id' e1); [by apply IH|by eexists].
Qed.

Lemma settled_attempt_invalid env i : it_RecoverySettled i = true → it_PayloadRetired i = false →
  ∃ d, validateIntent (moved env StatusAttempting no_outcome true i) = Err (ErrInvalid d).
Proof.
  intros Hs Hret. set (j := moved env StatusAttempting no_outcome true i).
  destruct (validateIntent j) as [[]|e] eqn:E; [|by apply validateIntent_invalid in E as [d ->]; exists d].
  destruct (po_settled _ (valid_progress j E Hret) Hs) as [_ Ht]. discriminate Ht.
Qed.

(** ** The contract *)

(** C13: the outbox refines its contract.  Seen through the record of one
    delivery, any run of the coordinator from a fresh process over any
    directory, with failed writes, failed reads, retirements and restarts at
    any point, is a run of the ledger with the same events: the transport is
    called only on a delivery that waits, and what it answered is recorded or
    nothing is. *)
Theorem outbox_refines_ledger root s tr id :
  all_readable decode tr →
  ledger_run (phase (status decode s id)) (events decode id (newCoordinator root s) tr)
    (phase (status decode (store (exec (newCoordinator root s) tr)) id)).
Proof. intros Hr. exact (exec_simulates decode id tr _ Hr (wf_new decode root s)). Qed.

(** C2: no delivery is sent twice.  In any run, with any failures and restarts,
    a second successful [BeginAttempt] of a delivery comes only after the
    transport reported that the first definitely failed, and once a delivery
    was recorded as delivered it is never sent again. *)
Theorem no_resend_without_refusal root s tr id es1 es2 :
  all_readable decode tr → events decode id (newCoordinator root s) tr = es1 ++ Sent :: es2 →
  (∀ es3 es4, es2 = es3 ++ Sent :: es4 → Refused ∈ es3) ∧ Took ∉ es1.
Proof.
  intros Hr He. pose proof (exec_simulates decode id tr _ Hr (wf_new decode root s)) as Hrun. rewrite He in Hrun. split.
  - intros es3 es4 ->. by eapply ledger_resend.
  - intros (k1 & k2 & ->)%list_elem_of_split. rewrite <- app_assoc in Hrun. apply ledger_took in Hrun as [Hn _].
    apply Hn, elem_of_app. right. apply list_elem_of_here.
Qed.

(** the retry budget holds.  In a run from an empty directory in which no
    dispatch lease is prepared twice, no record ever counts more than
    [MaxDeliveryAttempts] attempts, and a delivery that still waits for its
    first attempt has attempts left. *)
Theorem attempts_bounded root tr id i :
  all_readable decode tr → prepared_once ∅ tr = true →
  peek (store (exec (newCoordinator root ∅) tr)) id = Some i →
  it_Attempts i ≤ MaxDeliveryAttempts ∧ (it_Status i = StatusPending → it_Attempts i < MaxDeliveryAttempts).
Proof.
  intros Hr Ho Hi. destruct (exec_budget decode tr ∅ (newCoordinator root ∅) Hr (wf_new decode root ∅) Ho) as [used Hb].
  - by apply budget_new.
  - exact (bu_rec _ _ (Hb id) i Hi).
Qed.

(** C34: what is on disk stays well-formed.  From a directory whose records are
    all valid, a run with a working clock that begins no attempt at a delivery
    whose recovery was settled leaves a directory whose records are all valid:
    each passes [validateIntent] under the name of its file. *)
Theorem stored_records_stay_valid root s tr :
  all_readable decode tr → Forall (fun p => ticking p.1) tr → unsettled_begins (newCoordinator root s) tr = true →
  valid_store decode s → valid_store decode (store (exec (newCoordinator root s) tr)).
Proof. intros Hr Ht Hb Hv. by apply (exec_valid tr (newCoordinator root s)). Qed.

(** ** Callers that wait *)

(** C21: no caller waits for ever.  The receipt of an admission is resolved by
    the time the coordinator is closed, whatever happened before, and its
    result never changes: from then on [AwaitTerminal] returns at once, to every
    waiter, however often it is called: that result; or, only if the context of
    the waiter has ended too and the [select] prefers it, the context's error. *)
Theorem receipts_resolve root s tr0 env op a r tr1 env1 :
  all_readable decode (tr0 ++ (env, op) :: tr1) → one_process tr1 → ad_receipt a = Some r →
  (step env (exec (newCoordinator root s) tr0) op).2 = RAdmission a →
  ∃ res, ∀ tr2 env2 cancelled receiptFirst, all_readable decode tr2 → one_process tr2 → readable decode env1 →
    AwaitTerminal decode env2
      (exec (newCoordinator root s) (tr0 ++ (env, op) :: tr1 ++ (env1, OpClose) :: tr2)) a cancelled receiptFirst
    = Some (if cancelled && negb receiptFirst then Err ErrContext else res).
Proof.
  intros Hr Ho Hrc Hs. apply Forall_app in Hr as [Hr0 Hr]. apply Forall_cons in Hr as [Hre Hr1]. cbn in Hre.
  pose proof (exec_wf decode tr0 _ Hr0 (wf_new decode root s)) as Hwf. set (c := exec (newCoordinator root s) tr0) in *.
  destruct (step env c op) as [c1 rep] eqn:Es. cbn in Hs. subst rep.
  destruct (admission_receipt decode env c op c1 a r Hre Hwf Es Hrc) as (Hwf1 & Hg & Hans).
  destruct (exec_receipts decode tr1 c1 Hr1 Ho Hwf1) as (_ & Hkeep & _ & _).
  destruct (close_resolves decode env1 (exec c1 tr1) _ _ (exec_wf decode tr1 c1 Hr1 Hwf1) (Hkeep _ _ Hg)) as [res Hres].
  exists res. intros tr2 env2 cancelled receiptFirst Hr2 Ho2 Hr3. rewrite exec_app. fold c. cbn [OutboxMachine.exec].
  rewrite Es. cbn [fst]. rewrite exec_app. cbn [OutboxMachine.exec]. apply Hans.
  apply (exec_receipts decode tr2); [done..| |exact Hres].
  apply step_wf; [exact Hr3|]. by apply exec_wf.
Qed.

(** the transport's answer reaches whoever waits for it.  When an answer is
    recorded, the receipt of the delivery is resolved with the record as it is
    now on disk, in the status the answer means. *)
Theorem answer_reaches_waiter root s tr env op id next c' g :
  all_readable decode tr → readable decode env → answer_of op = Some (id, next) →
  step env (exec (newCoordinator root s) tr) op = (c', RDone) →
  receipts (exec (newCoordinator root s) tr) !! id = Some g →
  ∃ i, results c' !! g = Some (Ok i) ∧ it_Status i = next ∧ peek (store c') id = Some i.
Proof.
  intros Hr He Ha Hs Hg. pose proof (exec_wf decode tr _ Hr (wf_new decode root s)) as Hwf.
  set (c := exec (newCoordinator root s) tr) in *.
  assert (∀ p : Coordinator * result Error (), map_reply done_reply p = (c', RDone) → p = (c', Ok tt)) as Hm
    by (intros [c1 [[]|]]; cbn; [by intros [= ->]|done]).
  destruct op; try discriminate Ha; injection Ha as -> <-; cbn in Hs; apply Hm in Hs;
    unfold MarkDispatchRejected_, MarkDelivered_, MarkDefinitelyFailed_, MarkAmbiguous_ in Hs;
    (refine (transitionPublished_answers _ _ _ _ _ _ _ Hs Hwf Hg _); intros j; exact (transition_ok decode env _ _ _ _ _ _ _ j He)).
Qed.

(** ** Leases *)

(** a lease is good once.  A lease this process issued and no longer holds
    (committed, released, or given up) never becomes good again: preparing,
    committing or giving up with it is refused and changes nothing. *)
Theorem stale_lease_refused root s tr0 tr1 lease env op :
  all_readable decode (tr0 ++ tr1) → one_process tr1 →
  dl_generation lease ≤ dispatchLeaseSequence (exec (newCoordinator root s) tr0) →
  leases (exec (newCoordinator root s) tr0) !! dl_deliveryID lease ≠ Some (dl_generation lease) →
  op = OpPrepare lease ∨ op = OpCommit lease ∨ (∃ o, op = OpUnrecoverable lease o) →
  ∃ e, step env (exec (newCoordinator root s) (tr0 ++ tr1)) op = (exec (newCoordinator root s) (tr0 ++ tr1), RError e).
Proof.
  intros [Hr0 Hr1]%Forall_app Ho Hq Hn Hop. rewrite exec_app.
  pose proof (exec_wf decode tr0 _ Hr0 (wf_new decode root s)) as Hwf. set (c0 := exec (newCoordinator root s) tr0) in *.
  pose proof (spent_for_ever decode tr1 c0 lease Hr1 Ho Hwf (conj Hq Hn)) as Hsp. set (c := exec c0 tr1) in *.
  assert (∃ e, lease_guard c lease = Err e ∨ lease_guard c lease = Ok tt
    ∧ negb (generation_of (leases c) (dl_deliveryID lease) =? dl_generation lease) = true) as [e Hg].
  { destruct (lease_guard c lease) as [[]|e] eqn:E; [|by exists e; left]. exists ErrClosed. right. split; [done|].
    destruct (spent_refused _ _ Hsp) as [Hz|]; [|done]. destruct (lease_guard_zero c lease Hz) as [e He]. congruence. }
  destruct Hop as [->|[->|[o ->]]]; cbn; unfold PrepareAdmission, CommitAdmission, MarkAdmissionUnrecoverable;
    (destruct Hg as [->|[-> ->]]; cbn; by eexists).
Qed.

(** ** Admission *)

(** admission is idempotent and durable.  An admission answers with the
    record that is on disk under the identity of the intent: a new identity is
    stored as offered; a known one keeps its status, its attempts and its first
    payload, whatever is offered now.  It may be dispatched only if it still
    waits, has attempts left, and nobody else holds or publishes it. *)
Theorem admission_idempotent env c j c' a :
  readable decode env → admit_ decode env c j = (c', Ok a) →
  peek (store c') (it_ID j) = Some (ad_Intent a) ∧ (∀ id, id ≠ it_ID j → peek (store c') id = peek (store c) id)
  ∧ match read decode env (store c) (it_ID j) with
    | Ok e => same_delivery e (ad_Intent a) ∧ it_Status (ad_Intent a) = it_Status e
              ∧ it_Attempts (ad_Intent a) = it_Attempts e ∧ it_Message (ad_Intent a) = it_Message e
              ∧ it_Media (ad_Intent a) = it_Media e
    | Err _ => ad_Intent a = j ∧ peek (store c) (it_ID j) = None
    end
  ∧ ad_Dispatch a = dispatchable (ad_Intent a) && bool_decide (leases c !! it_ID j = None)
                    && bool_decide (it_ID j ∉ published c).
Proof.
  intros Hr (s' & i & Hc & Hcl)%admit_facts. destruct (claim_facts _ _ _ _ Hcl) as (-> & -> & _ & -> & _). cbn.
  pose proof (Create_ok decode env (store c) j i Hr) as Hok. pose proof (Create_touched decode env (store c) j Hr) as Ht.
  rewrite Hc in Hok, Ht. destruct (Hok eq_refl) as [Hp ->]. split; [done|]. split; [intros id; by apply (touch_other _ _ _ _ _ _ Ht)|].
  split; [|done]. clear Hok Ht Hp Hcl. unfold Create in Hc. destruct (validateNewIntent j); [|done].
  destruct (read decode env (store c) (it_ID j)) as [e|[]] eqn:E; try done.
  - destruct (negb _); [done|]. revert Hc. destruct (_ && String.eqb _ ""); (destruct (_ && negb _); [by intros [= _ <-]|]);
      (destruct (save _ _ _) as [s2 res] eqn:Es; intros [= -> ->]); apply (f_equal snd) in Es; cbn in Es;
      apply (save_ok decode) in Es as [-> _]; done.
  - apply (f_equal snd) in Hc as Hs. cbn in Hs. apply (save_ok decode) in Hs as [-> _]; [|done]. split; [done|].
    by eapply (read_not_exist decode).
Qed.

(** ** Recovery *)

(** C38: recovery after a restart hands out exactly what is owed.  A report
    admits, oldest first, the records [recover_work] names: those that owe a
    settlement, for settlement only, and those that still wait with attempts
    left, each with a dispatch lease held in its name.  Every record is left as
    [recover_record] says, none as being attempted, and the records that cannot
    be read are reported and left alone. *)
Theorem recovery_exact env root s c' rep :
  readable decode env → step env (newCoordinator root s) OpRecover = (c', RRecovery rep) →
  ad_Intent <$> rp_Admissions rep = recovery_records decode env s ≫= recover_work env
  ∧ Forall (recovered_admission c') (rp_Admissions rep)
  ∧ rp_Issues rep = omap (read_issue decode env s) (record_ids s)
  ∧ (∀ i, i ∈ recovery_records decode env s →
       peek (store c') (it_ID i) = Some (recover_record env i) ∧ it_Status (recover_record env i) ≠ StatusAttempting)
  ∧ (∀ id, id ∉ it_ID <$> recovery_records decode env s → peek (store c') id = peek s id).
Proof.
  intros Hr Hs. assert (Recover_ decode env (newCoordinator root s) = (c', Ok rep)) as Hrec.
  { change (map_reply recovery_reply (Recover_ decode env (newCoordinator root s)) = (c', RRecovery rep)) in Hs.
    destruct (Recover_ decode env (newCoordinator root s)) as [c1 r1]. unfold map_reply in Hs. cbn [fst snd] in Hs.
    destruct r1; cbn [recovery_reply] in Hs; by simplify_eq. }
  destruct (Recover_report decode env root s c' rep Hr Hrec) as (H1 & H2 & H3 & H4 & H5). split_and!; try done.
  intros i Hi. split; [by apply H4|]. eapply recover_record_settles.
  by apply recovery_records_facts, read_peek in Hi as (_ & _ & ?).
Qed.

(** recovery comes to a result.  If the directory can be listed, every
    record can be read or is one recovery sets aside, and the disk takes the
    records recovery writes, a fresh process gets a report. *)
Theorem recovery_completes env root s :
  recoverable decode env s → ∃ c' rep, step env (newCoordinator root s) OpRecover = (c', RRecovery rep).
Proof. intros Hrv. destruct (Recover_completes decode env root s Hrv) as (c' & rep & E).
  exists c', rep. change (map_reply recovery_reply (Recover_ decode env (newCoordinator root s)) = (c', RRecovery rep)). by rewrite E. Qed.

(** an attempt at a settled delivery takes the outbox down.  [BeginAttempt]
    of a delivery whose recovery was settled succeeds, and leaves a record that
    [validateIntent] refuses: the transport's answer cannot be recorded, and
    after a restart recovery of the whole directory fails. *)
Theorem settled_attempt_blocks_recovery env c id i c' env' o :
  readable decode env → peek (store c) id = Some i → it_RecoverySettled i = true →
  step env c (OpBegin id) = (c', RDone) → env_read env' id = None →
  (∃ d, read decode env' (store c') id = Err (ErrInvalid d))
  ∧ (∃ e, (step env' c' (OpDelivered id o)).2 = RError e)
  ∧ ∃ e, (step env' (step env' c' OpRestart).1 OpRecover).2 = RError e.
Proof.
  intros Hr Hi Hset Hs He. destruct (begun env c id c' Hr Hs) as (i' & Hrd & Hst & Hp).
  destruct (read_peek _ _ _ _ _ Hrd) as (Hi' & Hid & Hv). rewrite Hi in Hi'. injection Hi' as <-.
  assert (it_PayloadRetired i = false) as Hret by (apply not_retired; [done|left; intros E; rewrite E in Hst; absent Hst]).
  destruct (settled_attempt_invalid env i Hset Hret) as [d Hd].
  assert (read decode env' (store c') id = Err (ErrInvalid d)) as Hread.
  { unfold OutboxStore.read. rewrite <- Hid at 1. rewrite (valid_id i Hv). cbn [negb]. rewrite He.
    unfold OutboxRecords.peek in Hp. destruct (store c' !! id); [|done]. destruct (decode _); [|done].
    injection Hp as ->. by rewrite Hd. }
  split; [by exists d|]. split.
  - cbn. unfold MarkDelivered_, transitionPublished, MarkDelivered, transition. rewrite Hread.
    repeat case_match; simplify_eq/=; try (by eexists); done.
  - cbn. unfold Recover_. cbn [validateOpenLocked newCoordinator closed store]. unfold Recover, list_.
    destruct (negb (env_dir env')); [by eexists|].
    destruct (list_loop_fails env' (store c') (record_ids (store c')) id (ErrInvalid d) [] []) as [e ->]; [|done..|by eexists].
    apply elem_of_record_ids. unfold OutboxRecords.peek in Hp. by destruct (store c' !! id).
Qed.
End props.
