(* ===== verification/OutboxWitness.v ===== *)
(** The properties of the outbox at concrete runs: each lemma applies a property
    where its hypotheses hold by computation.

    The file system of these runs takes the records of [samples], the ones the
    runs below write, and the decoder reads them back by their text. *)
From S2P Require Import Prelude GoStrings GoJson GoTime TaskResult BusInbound BusOutbound OutboxTypes.
From S2P Require Import OutboxStore OutboxCoordinator OutboxRecords OutboxSteps OutboxMachine OutboxLedger.
From S2P Require Import OutboxValid OutboxClaims OutboxProps.
From stdpp Require Import gmap relations.
#[local] Open Scope Z_scope.

(** Stand-ins for the hash and the case tables: a digest that tells texts of
    different length apart. *)
#[local] Instance length_hash : Sha256 | 50 := fun s =>
  let d := String.substring (Z.to_nat (len s mod 16)) 1 "0123456789abcdef" in
  String.concat "" (repeat d 64).
#[local] Instance plain_case : UnicodeCase | 50 := {| rune_lower := fun r => r; rune_fold := fun r => r |}.

#[local] Instance relation_eq : EqDecision InboundMessageRelation. Proof. solve_decision. Defined.
#[local] Instance group_eq : EqDecision InboundMediaGroup. Proof. solve_decision. Defined.
#[local] Instance projection_eq : EqDecision InboundInteractionProjection. Proof. solve_decision. Defined.
#[local] Instance intake_eq : EqDecision InboundDocumentIntakeGuard. Proof. solve_decision. Defined.
#[local] Instance context_eq : EqDecision InboundContext. Proof. solve_decision. Defined.
#[local] Instance epoch_eq : EqDecision OutboundEpoch. Proof. solve_decision. Defined.
#[local] Instance scope_eq : EqDecision OutboundScope. Proof. solve_decision. Defined.
#[local] Instance transcript_eq : EqDecision OutboundTranscriptProjection. Proof. solve_decision. Defined.
#[local] Instance usage_eq : EqDecision ContextUsage. Proof. solve_decision. Defined.
#[local] Instance output_eq : EqDecision ObjectiveOutput. Proof. solve_decision. Defined.
#[local] Instance artifact_recovery_eq : EqDecision ArtifactRecovery. Proof. solve_decision. Defined.
#[local] Instance part_eq : EqDecision MediaPart. Proof. solve_decision. Defined.
#[local] Instance message_eq : EqDecision OutboundMessage. Proof. solve_decision. Defined.
#[local] Instance media_eq : EqDecision OutboundMediaMessage. Proof. solve_decision. Defined.
#[local] Instance identity_eq : EqDecision Identity. Proof. solve_decision. Defined.
#[local] Instance intent_eq : EqDecision Intent. Proof. solve_decision. Defined.

(** ** The sample records *)

Definition noon : Time := mkTime 63800000000000000000 0.
Definition blank_context : InboundContext :=
  mkInboundContext "" "" "" "" "" "" "" "" "" "" "" "" "" "" false "" "" zero_time
    (mkRelation "" false) (mkMediaGroup "" []) (mkProjection no_choice "" "" "" false None "")
    (mkIntakeGuard "" "" "" false false) ∅ ∅.
Definition blank_metadata : OutboundMetadata := mkMetadata "" [] "" "" "" 0 0 0 "" "" "" [] [] "" "" "".
Definition hello : OutboundMessage :=
  mkMessage "" "" "" blank_context blank_metadata "" "" [] false None None None "hello" "" None.
Definition form_recovery : ArtifactRecovery :=
  mkArtifactRecovery OutboundRecoveryDocumentFill "" "media://1" "ws" "main" "u1" "r1" "s1" "" "owner" "op1" "dd1" "job1" "digest1".
Definition form : OutboundMediaMessage :=
  mkMedia "" "" "" blank_context blank_metadata "" "" [] false None None [mkMediaPart "file" "media://1" "" "" ""]
    (Some form_recovery) [].
Definition turn (kind : Kind) : Identity := mkIdentity "turn-1" 0 kind "telegram" "42" "s1".
Definition refused : Outcome := mkOutcome [] zero_time "refused".
Definition taken : Outcome := mkOutcome ["m1"] zero_time "".

(** The clock of the runs: always noon. *)
Definition at_noon (w : Intent → WriteOutcome) : Env := mkEnv (fun _ => noon) w (fun _ => None) true.
Definition clock : Env := at_noon (fun _ => WriteOk).

Definition ok_intent (r : result Error Intent) : Intent :=
  match r with Ok i => i | Err _ => new_intent "" "" (turn KindMessage) None None noon end.
Definition msg0 : Intent := Eval vm_compute in ok_intent (NewMessageIntent "/ws" (turn KindMessage) hello noon).
Definition form0 : Intent := Eval vm_compute in ok_intent (NewMediaIntent "/ws" (turn KindMedia) form noon).

Definition msg_id : string := it_ID msg0.
Definition form_id : string := it_ID form0.
Definition samples : list Intent := Eval vm_compute in
  let msg1 := moved clock StatusAttempting no_outcome true msg0 in
  let msg2 := moved clock StatusDefinitelyFailed refused false msg1 in
  let msg3 := moved clock StatusAttempting no_outcome true msg2 in
  let msg4 := moved clock StatusDelivered taken false msg3 in
  let form1 := moved clock StatusAttempting no_outcome true form0 in
  let form2 := moved clock StatusDefinitelyFailed refused false form1 in
  let form3 := stamp clock (form2 <| it_RecoverySettled := true |>) in
  [msg0; msg1; msg2; msg3; msg4; interrupted clock msg1; form0; form1; form2; form3;
   moved clock StatusAttempting no_outcome true form3].
Definition sample_files : list (string * Intent) := Eval vm_compute in map (fun i => (Intent_file i, i)) samples.

Definition sample_decode (data : string) : result DecodeError Intent :=
  match find (fun p => String.eqb p.1 data) sample_files with Some p => Ok p.2 | None => Err SyntaxError end.
Definition sample_write (i : Intent) : WriteOutcome :=
  match sample_decode (Intent_file i) with Ok j => if decide (j = i) then WriteOk else WriteFailed | Err _ => WriteFailed end.
Definition disk : Env := at_noon sample_write.

Lemma disk_readable : readable sample_decode disk.
Proof.
  intros i. cbn. unfold sample_write. destruct (sample_decode (Intent_file i)) as [j|]; [|done].
  by destruct (decide (j = i)) as [->|].
Qed.

(** A run in which every operation meets that disk. *)
Definition on_disk (ops : list Op) : list (Env * Op) := map (pair disk) ops.
Lemma on_disk_readable ops : all_readable sample_decode (on_disk ops).
Proof. apply Forall_map, Forall_true. intros op. apply disk_readable. Qed.
Lemma on_disk_ticking ops : Forall (fun p => ticking p.1) (on_disk ops).
Proof. apply Forall_map, Forall_true. by intros op id. Qed.
Lemma on_disk_one_process ops : forallb (fun op => negb (ends_process op)) ops = true → one_process (on_disk ops).
Proof.
  unfold one_process, on_disk. rewrite Forall_map, Forall_forall, forallb_forall. intros Hf op Hop. cbn.
  apply list_elem_of_In, Hf in Hop. by apply negb_true_iff in Hop.
Qed.

(** ** The runs *)

Definition start : Coordinator := newCoordinator "/state/outbox" ∅.
Definition run (ops : list Op) : Coordinator := exec sample_decode start (on_disk ops).
Definition admit_msg : Op := OpAdmitMessage false noon "/ws" (turn KindMessage) hello.
Definition admit_form : Op := OpAdmitMedia noon "/ws" (turn KindMedia) form.

(** Refused once, then delivered. *)
Definition first_try : list Op := [admit_msg; OpPrepare (mkLease msg_id 1); OpBegin msg_id; OpCommit (mkLease msg_id 1)].
Definition second_try : list Op :=
  [OpDefinitelyFailed msg_id refused; admit_msg; OpPrepare (mkLease msg_id 2); OpBegin msg_id;
   OpCommit (mkLease msg_id 2); OpDelivered msg_id taken].
(** A form refused, its recovery settled, admitted again. *)
Definition settled_form : list Op :=
  [admit_form; OpPrepare (mkLease form_id 1); OpBegin form_id; OpCommit (mkLease form_id 1);
   OpDefinitelyFailed form_id refused; OpSettled form_id; admit_form; OpPrepare (mkLease form_id 2)].

(** ** The contract *)

Lemma outbox_refines_ledger_witness :
  events sample_decode msg_id start (on_disk (first_try ++ second_try)) = [Sent; Refused; Sent; Took]
  ∧ ledger_run Absent [Sent; Refused; Sent; Took] Accepted.
Proof.
  split; [vm_compute; reflexivity|].
  exact (outbox_refines_ledger sample_decode "/state/outbox" ∅ (on_disk (first_try ++ second_try)) msg_id
    (on_disk_readable _)).
Defined.

Lemma no_resend_without_refusal_witness :
  events sample_decode msg_id start (on_disk (first_try ++ second_try)) = [] ++ Sent :: [Refused; Sent; Took]
  ∧ Refused ∈ [Refused].
Proof.
  assert (events sample_decode msg_id start (on_disk (first_try ++ second_try)) = [] ++ Sent :: [Refused; Sent; Took])
    as He by (vm_compute; reflexivity).
  split; [exact He|].
  destruct (no_resend_without_refusal sample_decode "/state/outbox" ∅ (on_disk (first_try ++ second_try)) msg_id
    [] [Refused; Sent; Took] (on_disk_readable _) He) as [Hr _].
  exact (Hr [Refused] [Took] eq_refl).
Defined.

(** The delivered record: two attempts. *)
Definition delivered : Intent := Eval vm_compute in default msg0 (peek sample_decode (store (run (first_try ++ second_try))) msg_id).
Lemma attempts_bounded_witness : it_Attempts delivered = 2 ∧ it_Attempts delivered ≤ MaxDeliveryAttempts.
Proof.
  split; [reflexivity|].
  destruct (attempts_bounded sample_decode "/state/outbox" (on_disk (first_try ++ second_try)) msg_id delivered) as [Hle _].
  - apply on_disk_readable.
  - vm_compute. reflexivity.
  - vm_compute. reflexivity.
  - exact Hle.
Defined.

Lemma valid_empty : valid_store sample_decode ∅.
Proof. by intros id i. Qed.
Lemma stored_records_stay_valid_witness :
  valid_store sample_decode (store (run (first_try ++ OpRestart :: [OpRecover; OpProtect msg_id]))).
Proof.
  apply (stored_records_stay_valid sample_decode "/state/outbox" ∅).
  - apply on_disk_readable.
  - apply on_disk_ticking.
  - vm_compute. reflexivity.
  - apply valid_empty.
Defined.

(** ** Callers that wait *)

Definition admission_of (r : Reply) : option Admission := match r with RAdmission a => Some a | _ => None end.
Definition first_admission : Admission := Eval vm_compute in
  default (mkAdmission msg0 false false false no_lease None) (admission_of (step sample_decode disk start admit_msg).2).

Lemma receipts_resolve_witness :
  ad_receipt first_admission = Some (mkLease msg_id 1)
  ∧ ∃ res, ∀ tr2 env2 cancelled receiptFirst, all_readable sample_decode tr2 → one_process tr2 → readable sample_decode disk →
    AwaitTerminal sample_decode env2
      (exec sample_decode start ([] ++ (disk, admit_msg) :: on_disk [OpPrepare (mkLease msg_id 1)] ++ (disk, OpClose) :: tr2))
      first_admission cancelled receiptFirst = Some (if cancelled && negb receiptFirst then Err ErrContext else res).
Proof.
  split; [reflexivity|].
  apply (receipts_resolve sample_decode "/state/outbox" ∅ [] disk admit_msg first_admission (mkLease msg_id 1)
    (on_disk [OpPrepare (mkLease msg_id 1)]) disk).
  - exact (on_disk_readable [admit_msg; OpPrepare (mkLease msg_id 1)]).
  - apply on_disk_one_process. reflexivity.
  - reflexivity.
  - vm_compute. reflexivity.
Defined.

Lemma answer_reaches_waiter_witness :
  ∃ i, results (step sample_decode disk (run first_try) (OpDefinitelyFailed msg_id refused)).1 !! 1 = Some (Ok i)
  ∧ it_Status i = StatusDefinitelyFailed
  ∧ peek sample_decode (store (step sample_decode disk (run first_try) (OpDefinitelyFailed msg_id refused)).1) msg_id = Some i.
Proof.
  apply (answer_reaches_waiter sample_decode "/state/outbox" ∅ (on_disk first_try) disk (OpDefinitelyFailed msg_id refused)
    msg_id StatusDefinitelyFailed _ 1).
  - apply on_disk_readable.
  - apply disk_readable.
  - reflexivity.
  - vm_compute. reflexivity.
  - vm_compute. reflexivity.
Defined.

(** ** Leases *)

Lemma stale_lease_refused_witness :
  ∃ e, step sample_decode disk (run (first_try ++ second_try)) (OpPrepare (mkLease msg_id 1))
       = (run (first_try ++ second_try), RError e).
Proof.
  unfold run, on_disk. rewrite map_app. fold (on_disk first_try) (on_disk second_try).
  apply (stale_lease_refused sample_decode "/state/outbox" ∅ (on_disk first_try) (on_disk second_try) (mkLease msg_id 1)).
  - exact (on_disk_readable (first_try ++ second_try)).
  - apply on_disk_one_process. reflexivity.
  - vm_compute. discriminate.
  - vm_compute. discriminate.
  - left. reflexivity.
Defined.

(** ** Admission *)

(** The refused message is offered again. *)
Definition refused_once : Coordinator := run (first_try ++ [OpDefinitelyFailed msg_id refused]).
Definition offered_again : Coordinator * result Error Admission := admit_ sample_decode disk refused_once msg0.
Definition second_admission : Admission := Eval vm_compute in
  match offered_again.2 with Ok a => a | Err _ => first_admission end.
Lemma admission_idempotent_witness :
  it_Status (ad_Intent second_admission) = StatusDefinitelyFailed ∧ it_Attempts (ad_Intent second_admission) = 1
  ∧ ad_Dispatch second_admission = true
  ∧ peek sample_decode (store offered_again.1) (it_ID msg0) = Some (ad_Intent second_admission).
Proof.
  destruct (admission_idempotent sample_decode disk refused_once msg0 offered_again.1 second_admission) as [Hp _].
  - apply disk_readable.
  - vm_compute. reflexivity.
  - split; [reflexivity|]. split; [reflexivity|]. split; [reflexivity|]. exact Hp.
Defined.

(** ** Recovery *)

(** The process ends in the middle of an attempt; a form waits, and one file is
    no record. *)
Definition crashed : Store := <["out_00000000000000000000000000000000" := "{"]> (store (run (first_try ++ [admit_form]))).
Definition recovery : Coordinator * Reply := step sample_decode disk (newCoordinator "/state/outbox" crashed) OpRecover.
Definition recovery_report : AdmissionRecoveryReport := Eval vm_compute in
  match recovery.2 with RRecovery rep => rep | _ => mkRecovery [] [] end.

Lemma recovery_exact_witness :
  rp_Issues recovery_report = [mkIssue "out_00000000000000000000000000000000" RecoveryIssueInvalidJSON]
  ∧ ad_Intent <$> rp_Admissions recovery_report = [form0]
  ∧ ad_Intent <$> rp_Admissions recovery_report = recovery_records sample_decode disk crashed ≫= recover_work disk.
Proof.
  split; [reflexivity|]. split; [reflexivity|].
  apply (recovery_exact sample_decode disk "/state/outbox" crashed recovery.1 recovery_report).
  - apply disk_readable.
  - vm_compute. reflexivity.
Defined.

Definition writes_okb (env : Env) (i : Intent) : bool :=
  Intent_marshals i && match env_write env i with WriteOk => true | _ => false end.
Definition recoverableb (env : Env) (s : Store) : bool :=
  env_dir env
  && forallb (fun id => is_ok (read sample_decode env s id) || bool_decide (is_Some (read_issue sample_decode env s id))) (record_ids s)
  && forallb (fun i => writes_okb env (recover_record env i)) (recovery_records sample_decode env s).
Lemma recoverableb_ok env s : recoverableb env s = true → recoverable sample_decode env s.
Proof.
  unfold recoverableb. rewrite !andb_true_iff, !forallb_forall. intros ((Hd & Hr) & Hw). split; [done|..].
  - intros id Hid%elem_of_record_ids%list_elem_of_In%Hr. by rewrite orb_true_iff, bool_decide_eq_true in Hid.
  - intros i Hi%list_elem_of_In%Hw. unfold writes_okb in Hi. rewrite andb_true_iff in Hi. destruct Hi as [? Hi].
    split; [done|]. by destruct (env_write env (recover_record env i)).
Qed.
Lemma recovery_completes_witness :
  ∃ c' rep, step sample_decode disk (newCoordinator "/state/outbox" crashed) OpRecover = (c', RRecovery rep).
Proof.
  apply (recovery_completes sample_decode disk "/state/outbox" crashed). apply recoverableb_ok. vm_compute. reflexivity.
Defined.

(** A form of which the transport definitely failed is settled, and then sent
    again. *)
Definition settled_record : Intent := Eval vm_compute in default form0 (peek sample_decode (store (run settled_form)) form_id).
Definition sent_again : Coordinator := (step sample_decode disk (run settled_form) (OpBegin form_id)).1.
Lemma settled_attempt_blocks_recovery_witness :
  ∃ e, (step sample_decode disk (step sample_decode disk sent_again OpRestart).1 OpRecover).2 = RError e.
Proof.
  destruct (settled_attempt_blocks_recovery sample_decode disk (run settled_form) form_id settled_record sent_again disk taken)
    as (_ & _ & Hrec).
  - apply disk_readable.
  - vm_compute. reflexivity.
  - reflexivity.
  - vm_compute. reflexivity.
  - reflexivity.
  - exact Hrec.
Defined.
