(* ===== verification/InteractionTypes.v ===== *)
(** Package [pkg/interactions], data and validation: the durable interaction
    record with its route, origin, questions and answer, its events, their JSON
    form, the validation of requests and of stored records ([types.go],
    [validate.go], [helpers.go], [external_wait.go], and
    [CanonicalPromptLanguage] of [presentation.go]).

    A nil slice or map and an empty one are not distinguished: the code tests
    their length only. *)
From S2P Require Import Prelude GoStrings GoJson TaskResult CodingScope BusInbound.
From stdpp Require Import pretty.
#[local] Open Scope Z_scope.

Inductive Kind :=
| KindQuestion | KindApproval | KindExternalWait | KindOther (raw : string).
Inductive Status :=
| StatusCreated | StatusWaiting | StatusClaimed | StatusResuming | StatusCanceling
| StatusResolved | StatusCancelled | StatusFailed | StatusOther (raw : string).
Inductive Outcome :=
| OutcomeAnswered | OutcomeReady | OutcomeUnavailable | OutcomeTimedOut | OutcomeAllowed
| OutcomeDenied | OutcomeCanceled | OutcomeDeliveryUnknown | OutcomeOther (raw : string).
Inductive EventType :=
| EventCreated | EventPromptDelivery | EventFinalDelivery | EventWaiting | EventAnswerClaimed
| EventResumeStarted | EventApprovalConsumed | EventApprovalExpired | EventCanceling
| EventResolved | EventCancelled | EventFailed | EventRecoveryObserved | EventTypeOther (raw : string).
Inductive ProtectedAnswerAction :=
| ActionClarify | ActionBack | ActionSkip | ActionNotApplicable | ActionOther (raw : string).

#[export] Instance Kind_eq_dec : EqDecision Kind. Proof. solve_decision. Defined.
#[export] Instance Status_eq_dec : EqDecision Status. Proof. solve_decision. Defined.
#[export] Instance Outcome_eq_dec : EqDecision Outcome. Proof. solve_decision. Defined.
#[export] Instance EventType_eq_dec : EqDecision EventType. Proof. solve_decision. Defined.
#[export] Instance Action_eq_dec : EqDecision ProtectedAnswerAction. Proof. solve_decision. Defined.

Definition Kind_string (k : Kind) : string :=
  match k with
  | KindQuestion => "question" | KindApproval => "approval" | KindExternalWait => "external_wait"
  | KindOther raw => raw
  end.
Definition Status_string (s : Status) : string :=
  match s with
  | StatusCreated => "created" | StatusWaiting => "waiting" | StatusClaimed => "answer_claimed"
  | StatusResuming => "resuming" | StatusCanceling => "canceling" | StatusResolved => "resolved"
  | StatusCancelled => "cancelled" | StatusFailed => "failed" | StatusOther raw => raw
  end.
Definition Outcome_string (o : Outcome) : string :=
  match o with
  | OutcomeAnswered => "answered" | OutcomeReady => "ready" | OutcomeUnavailable => "unavailable"
  | OutcomeTimedOut => "timed_out" | OutcomeAllowed => "allowed" | OutcomeDenied => "denied"
  | OutcomeCanceled => "canceled" | OutcomeDeliveryUnknown => "delivery_unknown"
  | OutcomeOther raw => raw
  end.
Definition EventType_string (t : EventType) : string :=
  match t with
  | EventCreated => "interaction.created" | EventPromptDelivery => "interaction.prompt_delivery_bound"
  | EventFinalDelivery => "interaction.final_delivery_bound" | EventWaiting => "interaction.waiting"
  | EventAnswerClaimed => "interaction.answer_claimed" | EventResumeStarted => "interaction.resume_started"
  | EventApprovalConsumed => "interaction.approval_consumed"
  | EventApprovalExpired => "interaction.approval_expired" | EventCanceling => "interaction.canceling"
  | EventResolved => "interaction.resolved" | EventCancelled => "interaction.cancelled"
  | EventFailed => "interaction.failed" | EventRecoveryObserved => "interaction.recovery_observed"
  | EventTypeOther raw => raw
  end.
Definition Action_string (a : ProtectedAnswerAction) : string :=
  match a with
  | ActionClarify => "clarify" | ActionBack => "back" | ActionSkip => "skip"
  | ActionNotApplicable => "not_applicable" | ActionOther raw => raw
  end.

(** The zero values of the string types. *)
Abbreviation no_status := (StatusOther "").
Abbreviation no_outcome := (OutcomeOther "").

Definition SnapshotSchemaVersion : string := "interaction_snapshot.v1".
Definition EventSchemaVersion : string := "interaction_event.v1".
Definition DefaultMaxPendingObservations : Z := 256.
Definition DefaultMaxPendingObservationBytes : Z := 4 * 1024 * 1024.
Definition DefaultRetention : Z := 7 * 24 * 3600 * 1000000000.
Definition DefaultMaxRecords : Z := 1000.
Definition DefaultMaxEvents : Z := 5000.
Definition DefaultMaxBytes : Z := 2 * 1024 * 1024.
Definition MaxFinalDeliveries : nat := 16.
Definition MaxQuestions : nat := 3.
Definition MaxOptions : nat := 3.
Definition MaxQuestionIDLength : Z := 64.
Definition MaxHeaderLength : Z := 64.
Definition MaxQuestionLength : Z := 1000.
Definition MaxIntroductionLength : Z := 1282.
Definition MaxOptionLabelLength : Z := 64.
Definition MaxOptionValueLength : Z := 256.
Definition MaxDescriptionLength : Z := 500.
Definition MaxAnswerLength : Z := 16 * 1024.
Definition MaxAnswerMedia : nat := 16.
Definition MaxAnswerMediaRefLength : Z := 8 * 1024.
Definition MaxSummaryLength : Z := 1000.
Definition MaxApprovalAction : Z := 2000.
Definition MaxRuntimeActorID : Z := 1024.
Definition MaxExecutionContext : Z := 64 * 1024.
Definition MaxOutcomeReceipts : nat := 64.
Definition MaxProtectedNamespace : Z := 64.
Definition MaxProtectedBinding : Z := 8 * 1024.
Definition MaxProtectedReference : Z := 256.
Definition MaxProtectedState : Z := 64.
Definition MaxPromptLanguageLength : Z := 35.

(** [^[a-z][a-z0-9_]*$] *)
Definition questionIDPattern : string → bool := matches lower (fun b => lower b || digit b || one_of "_" b).
(** [^[a-z][a-z0-9_.-]*$] *)
Definition protectedCodePattern : string → bool :=
  matches lower (fun b => lower b || digit b || one_of "_.-" b).
(** [^[A-Za-z0-9_-]+$] *)
Definition id_class (b : Z) : bool := upper b || lower b || digit b || one_of "_-" b.
Definition regexpID : string → bool := matches id_class id_class.
(** [^[a-zA-Z0-9_-]{1,256}$] *)
Definition conditionRefPattern (s : string) : bool := regexpID s && (len s <=? 256).

(** ** Errors *)

Inductive Error :=
| ErrStoreClosed
| ErrStoreBusy
| ErrStoreUnavailable (cause : string)
| ErrNotFound (id : string)
| ErrConflict (detail : string)
| ErrInvalidTransition
| ErrSessionHasActive (shortID : string)
| ErrTaskHasActive (shortID : string)
| ErrDuplicateAnswer (messageID : string)
| ErrAnswerTooLate (status : Status)
| ErrApprovalExpired
| ErrSnapshotOverBudget
| ErrInvalidInteraction (detail : string)
| ErrCapacityExceeded
| ErrObserverPayloadOverBudget
| ErrObserverBacklog
| ErrWrite (committed : bool)
| ErrRandom.

(** ** Interaction data *)

Record Option := mkOption { qo_Label : string; qo_Description : string; qo_Value : string }.
Record Question := mkQuestion {
  q_ID : string; q_Header : string; q_Introduction : string; q_Question : string;
  q_Options : list Option; q_MultiSelect : bool }.
Record ProtectedAnswerBinding := mkBinding {
  pb_Namespace : string; pb_Token : string; pb_Actions : list ProtectedAnswerAction }.
Record ProtectedAnswerReceipt := mkProtectedReceipt { pr_Reference : string; pr_State : string }.
Record Route := mkRoute {
  ro_AgentID : string; ro_SessionKey : string; ro_RouteSessionKey : string; ro_Channel : string;
  ro_AccountID : string; ro_ChatID : string; ro_ChatType : string; ro_TopicID : string;
  ro_SpaceID : string; ro_SpaceType : string; ro_SenderID : string }.
#[export] Instance eta_Route : Eta Route := fun r =>
  mkRoute (ro_AgentID r) (ro_SessionKey r) (ro_RouteSessionKey r) (ro_Channel r) (ro_AccountID r)
    (ro_ChatID r) (ro_ChatType r) (ro_TopicID r) (ro_SpaceID r) (ro_SpaceType r) (ro_SenderID r).
#[export] Instance Route_eq_dec : EqDecision Route. Proof. solve_decision. Defined.
Record ObjectiveChecklistItem := mkChecklistItem {
  ci_ID : string; ci_Item : string; ci_Kind : string; ci_Requirement : string;
  ci_Acceptance : option ObjectiveAcceptance }.
#[export] Instance eta_ChecklistItem : Eta ObjectiveChecklistItem := fun c =>
  mkChecklistItem (ci_ID c) (ci_Item c) (ci_Kind c) (ci_Requirement c) (ci_Acceptance c).
Record Origin := mkOrigin {
  og_TurnID : string; og_ExecutionID : string; og_RuntimeActorID : string; og_ToolCallID : string;
  og_ToolName : string; og_TaskID : string; og_ContinuationSessionKey : string;
  og_ModelName : string; og_ArgumentHash : string; og_ExecutionContext : option InboundContext;
  og_ObjectiveChecklist : list ObjectiveChecklistItem }.
#[export] Instance eta_Origin : Eta Origin := fun o =>
  mkOrigin (og_TurnID o) (og_ExecutionID o) (og_RuntimeActorID o) (og_ToolCallID o) (og_ToolName o)
    (og_TaskID o) (og_ContinuationSessionKey o) (og_ModelName o) (og_ArgumentHash o)
    (og_ExecutionContext o) (og_ObjectiveChecklist o).
Record Answer := mkAnswer {
  an_Text : string; an_Values : gmap string string; an_Media : list string;
  an_Choice : InboundInteractionChoice; an_Superseded : bool; an_MessageID : string;
  an_ResponseMessageID : string; an_ReceivedAt : Z; an_Relation : InboundMessageRelation;
  an_Protected : option ProtectedAnswerReceipt }.
#[export] Instance eta_Answer : Eta Answer := fun a =>
  mkAnswer (an_Text a) (an_Values a) (an_Media a) (an_Choice a) (an_Superseded a) (an_MessageID a)
    (an_ResponseMessageID a) (an_ReceivedAt a) (an_Relation a) (an_Protected a).
(** [Answer{MessageID: m, ResponseMessageID: p, ReceivedAt: t}] *)
Definition bare_answer (m p : string) (t : Z) : Answer :=
  mkAnswer "" ∅ [] no_choice false m p t (mkRelation "" false) None.

Record Record := mkRecord {
  in_ID : string; in_ShortID : string; in_Kind : Kind; in_Status : Status; in_Outcome : Outcome;
  in_Revision : Z; in_LastEventSeq : Z; in_Route : Route; in_Origin : Origin;
  in_Questions : list Question; in_PromptSummary : string; in_PromptLanguage : string;
  in_ApprovalAction : string; in_ConditionRef : string;
  in_ProtectedAnswer : option ProtectedAnswerBinding; in_Answer : option Answer;
  in_CreatedAt : Z; in_UpdatedAt : Z; in_ExpiresAt : Z; in_ResolvedAt : Z; in_CleanupAfter : Z;
  in_PromptDeliveryID : string; in_FinalDeliveryIDs : list string; in_ResumeTries : Z;
  in_LastResumeAt : Z; in_ResumeError : string; in_FailureCode : string; in_FailureDetail : string;
  in_ApprovalConsumedAt : Z; in_OutcomeReceipts : list Receipt }.
#[export] Instance eta_Record : Eta Record := fun r =>
  mkRecord (in_ID r) (in_ShortID r) (in_Kind r) (in_Status r) (in_Outcome r) (in_Revision r)
    (in_LastEventSeq r) (in_Route r) (in_Origin r) (in_Questions r) (in_PromptSummary r)
    (in_PromptLanguage r) (in_ApprovalAction r) (in_ConditionRef r) (in_ProtectedAnswer r)
    (in_Answer r) (in_CreatedAt r) (in_UpdatedAt r) (in_ExpiresAt r) (in_ResolvedAt r)
    (in_CleanupAfter r) (in_PromptDeliveryID r) (in_FinalDeliveryIDs r) (in_ResumeTries r)
    (in_LastResumeAt r) (in_ResumeError r) (in_FailureCode r) (in_FailureDetail r)
    (in_ApprovalConsumedAt r) (in_OutcomeReceipts r).

Record Event := mkEvent {
  ie_SchemaVersion : string; ie_EventID : string; ie_CommitSequence : Z; ie_InteractionID : string;
  ie_Type : EventType; ie_From : Status; ie_To : Status; ie_Outcome : Outcome; ie_Revision : Z;
  ie_Sequence : Z; ie_EmittedAt : Z; ie_Code : string; ie_Success : option bool }.

(** [req.ExpiresAt] is its [UnixMilli], [None] for the zero time. *)
Record CreateRequest := mkCreateRequest {
  rq_ID : string; rq_Kind : Kind; rq_Route : Route; rq_Origin : Origin; rq_Questions : list Question;
  rq_PromptSummary : string; rq_PromptLanguage : string; rq_ApprovalAction : string;
  rq_ConditionRef : string; rq_ProtectedAnswer : option ProtectedAnswerBinding;
  rq_OutcomeReceipts : list Receipt; rq_ExpiresAt : option Z }.

Record Snapshot := mkSnapshot {
  sn_SchemaVersion : string; sn_CommitSequence : Z; sn_Records : list Record; sn_Events : list Event }.

(** ** JSON *)

Definition Option_json (o : Option) : json := JObj (
  fstr "label" (qo_Label o) ++ fstr_omit "description" (qo_Description o) ++
  fstr_omit "value" (qo_Value o)).
Definition Question_json (q : Question) : json := JObj (
  fstr "id" (q_ID q) ++ fstr_omit "header" (q_Header q) ++
  fstr_omit "introduction" (q_Introduction q) ++ fstr "question" (q_Question q) ++
  flist_omit "options" Option_json (q_Options q) ++ fbool_omit "multi_select" (q_MultiSelect q)).
Definition Binding_json (b : ProtectedAnswerBinding) : json := JObj (
  fstr "namespace" (pb_Namespace b) ++ fstr "token" (pb_Token b) ++
  flist_omit "actions" (fun a => JStr (Action_string a)) (pb_Actions b)).
Definition ProtectedReceipt_json (r : ProtectedAnswerReceipt) : json := JObj (
  fstr "reference" (pr_Reference r) ++ fstr "state" (pr_State r)).
Definition Route_json (r : Route) : json := JObj (
  fstr "agent_id" (ro_AgentID r) ++ fstr "session_key" (ro_SessionKey r) ++
  fstr_omit "route_session_key" (ro_RouteSessionKey r) ++ fstr "channel" (ro_Channel r) ++
  fstr_omit "account_id" (ro_AccountID r) ++ fstr "chat_id" (ro_ChatID r) ++
  fstr_omit "chat_type" (ro_ChatType r) ++ fstr_omit "topic_id" (ro_TopicID r) ++
  fstr_omit "space_id" (ro_SpaceID r) ++ fstr_omit "space_type" (ro_SpaceType r) ++
  fstr "sender_id" (ro_SenderID r)).
Definition Acceptance_json (a : ObjectiveAcceptance) : json := JObj (
  fstr_omit "output_kind" (oa_OutputKind a) ++
  flist_omit "required_fields" JStr (oa_RequiredFields a) ++ fint_omit "min_items" (oa_MinItems a) ++
  fbool_omit "exact_json" (oa_ExactJSON a)).
Definition ChecklistItem_json (c : ObjectiveChecklistItem) : json := JObj (
  fstr "id" (ci_ID c) ++ fstr "item" (ci_Item c) ++ fstr "kind" (ci_Kind c) ++
  fstr_omit "requirement" (ci_Requirement c) ++ fopt_omit "acceptance" Acceptance_json (ci_Acceptance c)).
Definition Origin_json (o : Origin) : json := JObj (
  fstr "turn_id" (og_TurnID o) ++ fstr_omit "execution_id" (og_ExecutionID o) ++
  fstr_omit "runtime_actor_id" (og_RuntimeActorID o) ++ fstr "tool_call_id" (og_ToolCallID o) ++
  fstr "tool_name" (og_ToolName o) ++ fstr_omit "task_id" (og_TaskID o) ++
  fstr_omit "continuation_session_key" (og_ContinuationSessionKey o) ++
  fstr_omit "model_name" (og_ModelName o) ++ fstr_omit "argument_hash" (og_ArgumentHash o) ++
  fopt_omit "execution_context" InboundContext_json (og_ExecutionContext o) ++
  flist_omit "objective_checklist" ChecklistItem_json (og_ObjectiveChecklist o)).
Definition Answer_json (a : Answer) : json := JObj (
  fstr_omit "text" (an_Text a) ++ fmap_omit "values" (an_Values a) ++
  flist_omit "media" JStr (an_Media a) ++ fstr_omit "choice" (Choice_string (an_Choice a)) ++
  fbool_omit "superseded" (an_Superseded a) ++ fstr_omit "message_id" (an_MessageID a) ++
  fstr_omit "response_message_id" (an_ResponseMessageID a) ++ fint "received_at" (an_ReceivedAt a) ++
  field_omit "relation" (Relation_IsZero (an_Relation a)) (Relation_json (an_Relation a)) ++
  fopt_omit "protected" ProtectedReceipt_json (an_Protected a)).
Definition Record_json (r : Record) : json := JObj (
  fstr "id" (in_ID r) ++ fstr "short_id" (in_ShortID r) ++ fstr "kind" (Kind_string (in_Kind r)) ++
  fstr "status" (Status_string (in_Status r)) ++ fstr_omit "outcome" (Outcome_string (in_Outcome r)) ++
  fint "revision" (in_Revision r) ++ fint "last_event_sequence" (in_LastEventSeq r) ++
  field "route" (Route_json (in_Route r)) ++ field "origin" (Origin_json (in_Origin r)) ++
  flist_omit "questions" Question_json (in_Questions r) ++
  fstr_omit "prompt_summary" (in_PromptSummary r) ++ fstr_omit "prompt_language" (in_PromptLanguage r) ++
  fstr_omit "approval_action" (in_ApprovalAction r) ++ fstr_omit "condition_ref" (in_ConditionRef r) ++
  fopt_omit "protected_answer" Binding_json (in_ProtectedAnswer r) ++
  fopt_omit "answer" Answer_json (in_Answer r) ++ fint "created_at" (in_CreatedAt r) ++
  fint "updated_at" (in_UpdatedAt r) ++ fint "expires_at" (in_ExpiresAt r) ++
  fint_omit "resolved_at" (in_ResolvedAt r) ++ fint_omit "cleanup_after" (in_CleanupAfter r) ++
  fstr_omit "prompt_delivery_id" (in_PromptDeliveryID r) ++
  flist_omit "final_delivery_ids" JStr (in_FinalDeliveryIDs r) ++
  fint_omit "resume_tries" (in_ResumeTries r) ++ fint_omit "last_resume_at" (in_LastResumeAt r) ++
  fstr_omit "resume_error" (in_ResumeError r) ++ fstr_omit "failure_code" (in_FailureCode r) ++
  fstr_omit "failure_detail" (in_FailureDetail r) ++
  fint_omit "approval_consumed_at" (in_ApprovalConsumedAt r) ++
  flist_omit "outcome_receipts" Receipt_json (in_OutcomeReceipts r)).
Definition Event_json (e : Event) : json := JObj (
  fstr "schema_version" (ie_SchemaVersion e) ++ fstr "event_id" (ie_EventID e) ++
  fint "commit_sequence" (ie_CommitSequence e) ++ fstr "interaction_id" (ie_InteractionID e) ++
  fstr "type" (EventType_string (ie_Type e)) ++ fstr_omit "from" (Status_string (ie_From e)) ++
  fstr_omit "to" (Status_string (ie_To e)) ++ fstr_omit "outcome" (Outcome_string (ie_Outcome e)) ++
  fint "revision" (ie_Revision e) ++ fint "sequence" (ie_Sequence e) ++
  fint "emitted_at" (ie_EmittedAt e) ++ fstr_omit "code" (ie_Code e) ++
  fopt_omit "success" JBool (ie_Success e)).
Definition Snapshot_json (s : Snapshot) : json := JObj (
  fstr "schema_version" (sn_SchemaVersion s) ++ fint "commit_sequence" (sn_CommitSequence s) ++
  field "records" (JArr (List.map Record_json (sn_Records s))) ++
  flist_omit "events" Event_json (sn_Events s)).
Definition Observation_json (e : Event) (r : Record) : json := JObj (
  field "Event" (Event_json e) ++ field "Record" (Record_json r)).

(** ** helpers.go *)

Definition is_some {A} (o : option A) : bool := match o with Some _ => true | None => false end.

Definition shortID (id : string) : string :=
  let id := default id (cut_prefix "interaction_" id) in
  if 8 <? len id then String.substring 0 8 id else id.

Definition bounded (value : string) (maxLength : Z) : string :=
  if rune_count value <=? maxLength then value else rune_prefix maxLength value.

Definition normalizeRoute (r : Route) : Route :=
  r <| ro_AgentID ::= trim_space |> <| ro_SessionKey ::= trim_space |>
    <| ro_RouteSessionKey ::= trim_space |> <| ro_Channel ::= trim_space |>
    <| ro_AccountID ::= trim_space |> <| ro_ChatID ::= trim_space |>
    <| ro_TopicID ::= trim_space |> <| ro_SenderID ::= trim_space |>.

Definition cloneExecutionContext (src : option InboundContext) : option InboundContext :=
  (fun c => mkInboundContext (ic_Channel c) (ic_Account c) (ic_ChatID c) (ic_ChatType c) (ic_TopicID c)
    (ic_SpaceID c) (ic_SpaceType c) (ic_SenderID c) (ic_ActorID c) (ic_MessageID c) (ic_OriginID c)
    (ic_OriginType c) (ic_SourceRef c) (ic_ClientSessionID c) (ic_Mentioned c) (ic_ReplyToMessageID c)
    (ic_ReplyToSenderID c) (ic_ReceivedAt c) (ic_Relation c) (ic_MediaGroup c) (ic_Interaction c)
    (ic_DocumentIntake c) (cloneStringMap (ic_ReplyHandles c)) (cloneStringMap (ic_Raw c))) <$> src.

Definition normalizeOrigin (o : Origin) : Origin :=
  o <| og_TurnID ::= trim_space |> <| og_ExecutionID ::= trim_space |>
    <| og_RuntimeActorID ::= trim_space |> <| og_ToolCallID ::= trim_space |>
    <| og_ToolName ::= trim_space |> <| og_TaskID ::= trim_space |>
    <| og_ContinuationSessionKey ::= trim_space |> <| og_ModelName ::= trim_space |>
    <| og_ArgumentHash ::= trim_space |> <| og_ExecutionContext ::= cloneExecutionContext |>
    <| og_ObjectiveChecklist ::= fmap (fun c =>
         c <| ci_ID ::= trim_space |> <| ci_Item ::= trim_space |> <| ci_Kind ::= trim_space |>
           <| ci_Acceptance ::= CloneObjectiveAcceptance |>) |>.

Definition routesEqual (left right : Route) : bool :=
  String.eqb (ro_AgentID left) (ro_AgentID right)
  && String.eqb (ro_SessionKey left) (ro_SessionKey right)
  && String.eqb (ro_RouteSessionKey left) (ro_RouteSessionKey right)
  && String.eqb (ro_Channel left) (ro_Channel right)
  && String.eqb (ro_AccountID left) (ro_AccountID right)
  && String.eqb (ro_ChatID left) (ro_ChatID right)
  && String.eqb (ro_TopicID left) (ro_TopicID right)
  && String.eqb (ro_SenderID left) (ro_SenderID right).

Definition cloneAnswer (a : Answer) : Answer := a <| an_Values ::= cloneStringMap |>.
Definition cloneRecord (r : Record) : Record :=
  r <| in_Origin ::= fun o => o <| og_ObjectiveChecklist ::= fmap (fun c =>
           c <| ci_Acceptance ::= CloneObjectiveAcceptance |>) |>
         <| og_ExecutionContext ::= cloneExecutionContext |> |>
    <| in_Answer ::= fmap cloneAnswer |> <| in_OutcomeReceipts ::= CloneReceipts |>.

Lemma cloneExecutionContext_id c : cloneExecutionContext c = c.
Proof. destruct c as [[]|]; [|done]. csimpl. by rewrite !cloneStringMap_id. Qed.
Lemma CloneObjectiveAcceptance_id a : CloneObjectiveAcceptance a = a.
Proof. by destruct a as [[]|]. Qed.
(** Copies share nothing with their original and have the same content. *)
Lemma cloneRecord_id r : cloneRecord r = r.
Proof.
  destruct r as [? ? ? ? ? ? ? ? [t e ra tc tn tk cs mn ah ec oc] ? ? ? ? ? ? a].
  unfold cloneRecord. cbn. rewrite CloneReceipts_id, cloneExecutionContext_id.
  rewrite (fmap_pointwise_id _ oc) by (intros []; cbn; by rewrite CloneObjectiveAcceptance_id).
  destruct a as [[]|]; [|done]. cbn. unfold cloneAnswer. cbn. by rewrite cloneStringMap_id.
Qed.

Definition isTerminal (s : Status) : bool :=
  match s with StatusResolved | StatusCancelled | StatusFailed => true | _ => false end.

Definition validTransition (from to : Status) : bool :=
  match from with
  | StatusCreated =>
      match to with StatusWaiting | StatusCanceling | StatusCancelled | StatusFailed => true | _ => false end
  | StatusWaiting =>
      match to with StatusClaimed | StatusCanceling | StatusCancelled | StatusFailed => true | _ => false end
  | StatusClaimed =>
      match to with StatusResuming | StatusCanceling | StatusCancelled | StatusFailed => true | _ => false end
  | StatusResuming =>
      match to with StatusResolved | StatusCanceling | StatusCancelled | StatusFailed => true | _ => false end
  | StatusCanceling => match to with StatusCancelled | StatusFailed => true | _ => false end
  | _ => false
  end.

(** ** Validation *)

Definition validBoundedString (value : string) (maxRunes : Z) : bool :=
  valid_string value && (rune_count value <=? maxRunes).

Definition validKind (k : Kind) : bool := match k with KindOther _ => false | _ => true end.

Abbreviation invalid msg := (ErrInvalidInteraction msg%string).

Definition validateProtectedAnswerReceipt (receipt : option ProtectedAnswerReceipt) : result Error () :=
  match receipt with
  | None => Err (invalid "protected answer receipt is invalid")
  | Some r =>
      reject negb (protectedCodePattern (pr_Reference r))
             || negb (validBoundedString (pr_Reference r) MaxProtectedReference)
             || negb (protectedCodePattern (pr_State r))
             || negb (validBoundedString (pr_State r) MaxProtectedState)
        with invalid "protected answer receipt is invalid" ;;
      Ok tt
  end.

Definition Route_validate (r : Route) : result Error () :=
  reject blank (ro_AgentID r) || blank (ro_SessionKey r) || blank (ro_Channel r)
         || blank (ro_ChatID r) || blank (ro_SenderID r)
    with invalid "route requires agent, session, channel, chat, and sender" ;;
  Ok tt.

Definition Origin_validate (o : Origin) : result Error () :=
  reject blank (og_TurnID o) || blank (og_ToolCallID o) || blank (og_ToolName o)
    with invalid "origin requires turn, tool call, and tool" ;;
  reject negb (String.eqb (og_RuntimeActorID o) (trim_space (og_RuntimeActorID o)))
         || negb (validBoundedString (og_RuntimeActorID o) MaxRuntimeActorID)
    with invalid "origin runtime actor is invalid" ;;
  Ok tt.

Definition validateExternalWait (kind : Kind) (reference : string) (origin : option Origin)
    : result Error () :=
  if negb (bool_decide (kind = KindExternalWait)) then
    reject negb (String.eqb reference "") with invalid "condition requires an external wait" ;;
    Ok tt
  else
    reject negb (conditionRefPattern reference)
      with invalid "external wait requires a bounded opaque condition reference" ;;
    reject match origin with
           | Some o => blank (og_ExecutionID o) || negb (is_some (og_ExecutionContext o))
           | None => false
           end
      with invalid "external wait requires its original execution identity" ;;
    Ok tt.

(** [language.Parse] of golang.org/x/text accepts the tag. *)
Class LanguageTags := language_parse : string → bool.

Section validation.
Context `{UnicodeCase} `{LanguageTags}.

(** The loop over the options of a question. *)
Fixpoint validateOptions (options : list Option) (labels values : gset string) : result Error () :=
  match options with
  | [] => Ok tt
  | option :: rest =>
      reject blank (qo_Label option) with invalid "question %q option %d label is required" ;;
      reject negb (validBoundedString (qo_Label option) MaxOptionLabelLength)
        with invalid "question %q option %d label exceeds %d characters" ;;
      reject negb (validBoundedString (qo_Description option) MaxDescriptionLength)
        with invalid "question %q option %d description exceeds %d characters" ;;
      reject negb (validBoundedString (qo_Value option) MaxOptionValueLength)
        with invalid "question %q option %d value exceeds %d characters" ;;
      reject negb (String.eqb (qo_Value option) "")
             && negb (String.eqb (trim_space (qo_Value option)) (qo_Value option))
        with invalid "question %q option %d value has surrounding whitespace" ;;
      let label := to_lower (trim_space (qo_Label option)) in
      reject equal_fold (trim_space (qo_Label option)) InboundInteractionCancelLabel
        with invalid "question %q option %q is reserved for cancellation" ;;
      reject bool_decide (label ∈ labels) with invalid "question %q has duplicate option %q" ;;
      let labels := {[label]} ∪ labels in
      let value := trim_space (qo_Value option) in
      if String.eqb value "" then validateOptions rest labels values else
      let canonicalValue := to_lower value in
      reject bool_decide (canonicalValue ∈ values)
        with invalid "question %q has duplicate option value" ;;
      validateOptions rest labels ({[canonicalValue]} ∪ values)
  end.

(** The loop over the questions. *)
Fixpoint validateQuestionList (questions : list Question) (seen : gset string) : result Error () :=
  match questions with
  | [] => Ok tt
  | question :: rest =>
      reject negb (validBoundedString (q_ID question) MaxQuestionIDLength)
             || negb (questionIDPattern (q_ID question))
        with invalid "question %d has invalid id" ;;
      reject bool_decide (q_ID question ∈ seen) with invalid "duplicate question id %q" ;;
      reject negb (validBoundedString (q_Header question) MaxHeaderLength)
        with invalid "question %q header exceeds %d characters" ;;
      reject blank (q_Question question) with invalid "question %q text is required" ;;
      reject negb (validBoundedString (q_Introduction question) MaxIntroductionLength)
        with invalid "question %q introduction exceeds bounds" ;;
      reject negb (validBoundedString (q_Question question) MaxQuestionLength)
        with invalid "question %q text exceeds %d characters" ;;
      reject (MaxOptions <? length (q_Options question))%nat || (length (q_Options question) =? 1)%nat
        with invalid "question %q must contain zero or 2 to %d options" ;;
      _ ← validateOptions (q_Options question) ∅ ∅;
      validateQuestionList rest ({[q_ID question]} ∪ seen)
  end.

Definition validateQuestions (kind : Kind) (questions : list Question) : result Error () :=
  reject bool_decide (kind = KindQuestion)
         && ((length questions =? 0)%nat || (MaxQuestions <? length questions)%nat)
    with invalid "questions must contain 1 to %d entries" ;;
  reject (bool_decide (kind = KindApproval) || bool_decide (kind = KindExternalWait))
         && negb (length questions =? 0)%nat
    with invalid "approval prompts are policy-owned" ;;
  validateQuestionList questions ∅.

(** The loop over the actions of a binding. *)
Fixpoint validateActions (actions seen : list ProtectedAnswerAction) : result Error () :=
  match actions with
  | [] => Ok tt
  | action :: rest =>
      reject match action with ActionOther _ => true | _ => false end
        with invalid "protected answer actions are invalid" ;;
      reject bool_decide (action ∈ seen) with invalid "protected answer actions are invalid" ;;
      validateActions rest (action :: seen)
  end.

Definition validateProtectedAnswerBinding (kind : Kind) (questions : list Question)
    (binding : option ProtectedAnswerBinding) : result Error () :=
  match binding with
  | None => Ok tt
  | Some b =>
      reject negb (bool_decide (kind = KindQuestion)) || negb (length questions =? 1)%nat
             || match questions with q :: _ => q_MultiSelect q | [] => false end
        with invalid "protected answer requires one single-value question" ;;
      reject negb (protectedCodePattern (pb_Namespace b))
             || negb (validBoundedString (pb_Namespace b) MaxProtectedNamespace)
             || negb (String.eqb (trim_space (pb_Token b)) (pb_Token b))
             || String.eqb (pb_Token b) ""
             || negb (validBoundedString (pb_Token b) MaxProtectedBinding)
        with invalid "protected answer binding is invalid" ;;
      reject (4 <? length (pb_Actions b))%nat with invalid "protected answer actions are invalid" ;;
      validateActions (pb_Actions b) []
  end.

Definition CanonicalPromptLanguage (value : string) : result Error string :=
  let value := trim_space value in
  reject String.eqb value "" || (MaxPromptLanguageLength <? len value)
    with invalid "interaction_language must be a valid BCP-47 language tag" ;;
  reject negb (language_parse value)
    with invalid "interaction_language must be a valid BCP-47 language tag" ;;
  Ok (to_lower value).

Definition validateExecutionContext (ctx : InboundContext) : result Error () :=
  reject MaxExecutionContext <? len (marshal (InboundContext_json ctx))
    with invalid "execution context exceeds %d bytes" ;;
  Ok tt.

Definition validateInteractionMetadata (kind : Kind) (executionContext : option InboundContext)
    (action : string) : result Error () :=
  if negb (bool_decide (kind = KindApproval)) then
    reject negb (blank action) with invalid "question interactions cannot carry an approval action" ;;
    match executionContext with Some ctx => validateExecutionContext ctx | None => Ok tt end
  else
    match executionContext with
    | None => Err (invalid "approval requires the original execution context")
    | Some ctx =>
        reject blank action || negb (validBoundedString action MaxApprovalAction)
          with invalid "approval requires a bounded action description" ;;
        validateExecutionContext ctx
    end.

(** [hex.DecodeString] yields [sha256.Size] bytes. *)
Definition hex_any (b : Z) : bool := hex_lower b || in_range 65 70 b.
Definition validArgumentHashForKind (kind : Kind) (value : string) : bool :=
  let value := trim_space value in
  if negb (bool_decide (kind = KindApproval)) then String.eqb value ""
  else matches_n 64 hex_any value.

Definition validStoredOutcome (kind : Kind) (outcome : Outcome) : bool :=
  if bool_decide (outcome = OutcomeTimedOut) || bool_decide (outcome = OutcomeDeliveryUnknown) then true
  else if bool_decide (kind = KindQuestion) then bool_decide (outcome = OutcomeAnswered)
  else if bool_decide (kind = KindExternalWait)
       then bool_decide (outcome = OutcomeReady) || bool_decide (outcome = OutcomeUnavailable)
  else bool_decide (outcome = OutcomeAllowed) || bool_decide (outcome = OutcomeDenied).

(** The conversion [ProtectedAnswerAction(choice)]. *)
Definition action_of_choice (c : InboundInteractionChoice) : ProtectedAnswerAction :=
  match c with
  | ChoiceClarify => ActionClarify | ChoiceBack => ActionBack | ChoiceSkip => ActionSkip
  | ChoiceNotApplicable => ActionNotApplicable | c => ActionOther (Choice_string c)
  end.

Definition validSupersedingAnswer (rec : Record) (answer : Answer) (outcome : Outcome) : bool :=
  if negb (size (an_Values answer) =? 0)%nat || is_some (an_Protected answer)
     || (blank (an_Text answer) && (length (an_Media answer) =? 0)%nat)
  then false
  else match in_ProtectedAnswer rec with
       | Some b =>
           if negb (bool_decide (an_Choice answer = no_choice))
              && ((negb (bool_decide (an_Choice answer = ChoiceClarify))
                   && negb (bool_decide (an_Choice answer = ChoiceBack)))
                  || negb (bool_decide (action_of_choice (an_Choice answer) ∈ pb_Actions b)))
           then false
           else bool_decide (in_Kind rec = KindQuestion) && bool_decide (outcome = OutcomeAnswered)
       | None => bool_decide (an_Choice answer = no_choice) && bool_decide (in_Kind rec = KindApproval)
                 && bool_decide (outcome = OutcomeDenied)
       end.

Definition validateStoredAnswer (rec : Record) : result Error () :=
  match in_Answer rec with
  | None => Err (invalid "invalid stored answer for interaction %q")
  | Some answer =>
      reject negb (validBoundedString (an_Text answer) MaxAnswerLength)
             || (MaxQuestions <? size (an_Values answer))%nat
             || (MaxAnswerMedia <? length (an_Media answer))%nat
        with invalid "invalid stored answer for interaction %q" ;;
      reject existsb (fun ref => blank ref || negb (validBoundedString ref MaxAnswerMediaRefLength))
               (an_Media answer)
        with invalid "invalid stored answer media for interaction %q" ;;
      if bool_decide (in_Kind rec = KindExternalWait) then
        reject negb (String.eqb (an_MessageID answer) "")
               || negb (String.eqb (an_ResponseMessageID answer) "")
               || negb (String.eqb (an_Text answer) "") || negb (size (an_Values answer) =? 0)%nat
               || negb (length (an_Media answer) =? 0)%nat || an_Superseded answer
               || negb (bool_decide (an_Choice answer = no_choice)) || is_some (an_Protected answer)
          with invalid "invalid external-wait resolution for interaction %q" ;;
        Ok tt
      else if an_Superseded answer then
        reject negb (validSupersedingAnswer rec answer (in_Outcome rec))
          with invalid "invalid superseding answer for interaction %q" ;;
        Ok tt
      else
        reject negb (bool_decide (an_Choice answer = no_choice))
          with invalid "unexpected typed choice for interaction %q" ;;
        match in_ProtectedAnswer rec with
        | Some _ =>
            reject negb (String.eqb (an_Text answer) "") || negb (size (an_Values answer) =? 0)%nat
                   || negb (length (an_Media answer) =? 0)%nat
              with invalid "invalid protected answer for interaction %q" ;;
            if bool_decide (in_Outcome rec = OutcomeAnswered) then
              reject negb (is_ok (validateProtectedAnswerReceipt (an_Protected answer)))
                with invalid "invalid protected answer for interaction %q" ;;
              Ok tt
            else
              reject is_some (an_Protected answer)
                with invalid "unexpected protected receipt for interaction %q" ;;
              Ok tt
        | None =>
            reject is_some (an_Protected answer)
              with invalid "unexpected protected answer for interaction %q" ;;
            reject negb (length (an_Media answer) =? 0)%nat
              with invalid "unexpected answer media for interaction %q" ;;
            Ok tt
        end
  end.

(** The loop over the final delivery ids. *)
Fixpoint validateFinalDeliveries (ids : list string) (seen : gset string) : result Error () :=
  match ids with
  | [] => Ok tt
  | deliveryID :: rest =>
      let deliveryID := trim_space deliveryID in
      reject String.eqb deliveryID "" with invalid "invalid final delivery for interaction %q" ;;
      reject bool_decide (deliveryID ∈ seen) with invalid "duplicate final delivery for interaction %q" ;;
      validateFinalDeliveries rest ({[deliveryID]} ∪ seen)
  end.

(** The switch of [validateStoredRecord] on the status. *)
Definition validateStatusFields (rec : Record) : result Error () :=
  match in_Status rec with
  | StatusCreated =>
      reject is_some (in_Answer rec) || negb (bool_decide (in_Outcome rec = no_outcome))
        with invalid "invalid created interaction %q" ;;
      Ok tt
  | StatusWaiting =>
      reject is_some (in_Answer rec) || negb (bool_decide (in_Outcome rec = no_outcome))
             || blank (in_PromptDeliveryID rec)
        with invalid "invalid waiting interaction %q" ;;
      Ok tt
  | StatusClaimed | StatusResuming | StatusResolved =>
      reject match in_Answer rec with None => true | Some a => an_ReceivedAt a <=? 0 end
             || negb (validStoredOutcome (in_Kind rec) (in_Outcome rec))
        with invalid "invalid answered interaction %q" ;;
      _ ← validateStoredAnswer rec;
      reject (bool_decide (in_Status rec = StatusResuming) || bool_decide (in_Status rec = StatusResolved))
             && (in_ResumeTries rec =? 0)
        with invalid "invalid resuming interaction %q" ;;
      Ok tt
  | _ => Ok tt
  end.

Definition validateStoredRecord (rec : Record) : result Error () :=
  reject blank (in_ID rec) || negb (regexpID (in_ID rec))
         || negb (String.eqb (in_ShortID rec) (shortID (in_ID rec))) || (in_Revision rec <=? 0)
         || (in_LastEventSeq rec <=? 0) || (in_CreatedAt rec <=? 0)
         || (in_UpdatedAt rec <? in_CreatedAt rec) || (in_ExpiresAt rec <=? in_CreatedAt rec)
    with invalid "invalid interaction record %q" ;;
  reject negb (validKind (in_Kind rec)) with invalid "invalid interaction kind %q" ;;
  reject match in_Status rec with StatusOther _ => true | _ => false end
    with invalid "invalid interaction status %q" ;;
  _ ← validateExternalWait (in_Kind rec) (in_ConditionRef rec) (Some (in_Origin rec));
  _ ← Route_validate (in_Route rec);
  _ ← Origin_validate (in_Origin rec);
  reject negb (validArgumentHashForKind (in_Kind rec) (og_ArgumentHash (in_Origin rec)))
    with invalid "invalid argument hash for interaction %q" ;;
  _ ← validateInteractionMetadata (in_Kind rec) (og_ExecutionContext (in_Origin rec)) (in_ApprovalAction rec);
  _ ← validateQuestions (in_Kind rec) (in_Questions rec);
  _ ← validateProtectedAnswerBinding (in_Kind rec) (in_Questions rec) (in_ProtectedAnswer rec);
  reject negb (String.eqb (in_PromptLanguage rec) "")
         && match CanonicalPromptLanguage (in_PromptLanguage rec) with
            | Ok canonical => negb (String.eqb canonical (in_PromptLanguage rec))
            | Err _ => true
            end
    with invalid "invalid prompt language for interaction %q" ;;
  reject (MaxFinalDeliveries <? length (in_FinalDeliveryIDs rec))%nat
    with invalid "too many final deliveries for interaction %q" ;;
  _ ← validateFinalDeliveries (in_FinalDeliveryIDs rec) ∅;
  _ ← validateStatusFields rec;
  reject isTerminal (in_Status rec)
         && ((in_ResolvedAt rec <=? 0) || (in_CleanupAfter rec <=? in_ResolvedAt rec))
    with invalid "invalid terminal interaction %q" ;;
  reject negb (in_ApprovalConsumedAt rec =? 0)
         && (negb (bool_decide (in_Kind rec = KindApproval))
             || (negb (bool_decide (in_Outcome rec = OutcomeAllowed))
                 && negb (bool_decide (in_Outcome rec = OutcomeDeliveryUnknown)))
             || bool_decide (in_Status rec = StatusCreated) || bool_decide (in_Status rec = StatusWaiting)
             || bool_decide (in_Status rec = StatusClaimed))
    with invalid "invalid consumed approval %q" ;;
  Ok tt.

(** ** Requests *)

(** The validation half of [ValidateSuspensionRequest]; [timeout] is in
    nanoseconds. *)
Definition ValidateSuspensionRequest (kind : Kind) (conditionRef : string) (questions : list Question)
    (promptSummary promptLanguage : string) (timeout : Z) (binding : option ProtectedAnswerBinding)
    : result Error () :=
  reject negb (validKind kind) with invalid "unsupported suspension kind %q" ;;
  _ ← validateExternalWait kind conditionRef None;
  _ ← validateQuestions kind questions;
  reject negb (validBoundedString promptSummary MaxSummaryLength)
    with invalid "prompt summary exceeds bounds" ;;
  _ ← (if String.eqb promptLanguage "" then Ok ""%string else CanonicalPromptLanguage promptLanguage);
  reject (timeout <? 60 * 1000000000) || (24 * 3600 * 1000000000 <? timeout)
    with invalid "timeout must be between 1 minute and 24 hours" ;;
  validateProtectedAnswerBinding kind questions binding.

(** The loop of [initialOutcomeReceipts]; [index] counts from 0. *)
Fixpoint normalizeReceipts (interactionID : string) (receipts : list Receipt) (index : nat)
    (seen : gset string) : result Error (list Receipt) :=
  match receipts with
  | [] => Ok []
  | receipt :: rest =>
      let receipt := receipt <| r_ID ::= trim_space |> in
      let receipt := if String.eqb (r_ID receipt) ""
        then receipt <| r_ID := interactionID +:+ "_receipt_" +:+ pretty (Z.of_nat index + 1) |>
        else receipt in
      let receipt := receipt <| r_Kind ::= trim_space |> <| r_Target ::= trim_space |>
        <| r_Action ::= trim_space |> <| r_Tool ::= trim_space |> <| r_Summary ::= trim_space |> in
      reject negb (validBoundedString (r_ID receipt) 256) || String.eqb (r_Kind receipt) ""
             || negb (validBoundedString (r_Kind receipt) 64) || String.eqb (r_Target receipt) ""
             || negb (validBoundedString (r_Target receipt) 1024) || String.eqb (r_Action receipt) ""
             || negb (validBoundedString (r_Action receipt) 128)
             || negb (validBoundedString (r_Tool receipt) 128)
             || negb (validBoundedString (r_Summary receipt) MaxSummaryLength)
        with invalid "initial outcome receipt is invalid" ;;
      reject bool_decide (r_ID receipt ∈ seen) with invalid "duplicate initial outcome receipt ID" ;;
      rest ← normalizeReceipts interactionID rest (S index) ({[r_ID receipt]} ∪ seen);
      Ok (receipt :: rest)
  end.

Definition initialOutcomeReceipts (interactionID : string) (input : list Receipt)
    : result Error (list Receipt) :=
  reject (MaxOutcomeReceipts <? length input)%nat
    with invalid "initial outcome receipts cannot exceed %d" ;;
  normalizeReceipts interactionID (CloneReceipts input) 0 ∅.

(** [buildRecord]; [random] is what [randomID] returns, [None] when the
    random source fails. *)
Definition buildRecord (req : CreateRequest) (random : option string) (now : Z) : result Error Record :=
  reject negb (validKind (rq_Kind req)) with invalid "unsupported kind %q" ;;
  _ ← validateExternalWait (rq_Kind req) (rq_ConditionRef req) (Some (rq_Origin req));
  _ ← Route_validate (rq_Route req);
  _ ← Origin_validate (rq_Origin req);
  reject negb (validArgumentHashForKind (rq_Kind req) (og_ArgumentHash (rq_Origin req)))
    with invalid "approval requires a canonical argument hash" ;;
  _ ← validateInteractionMetadata (rq_Kind req) (og_ExecutionContext (rq_Origin req)) (rq_ApprovalAction req);
  _ ← validateQuestions (rq_Kind req) (rq_Questions req);
  _ ← validateProtectedAnswerBinding (rq_Kind req) (rq_Questions req) (rq_ProtectedAnswer req);
  promptLanguage ← (if String.eqb (rq_PromptLanguage req) "" then Ok ""%string
                    else CanonicalPromptLanguage (rq_PromptLanguage req));
  id ← (if String.eqb (trim_space (rq_ID req)) ""
        then match random with Some id => Ok id | None => Err ErrRandom end
        else Ok (trim_space (rq_ID req)));
  reject (len id <? 8) || (128 <? len id) || negb (regexpID id)
    with invalid "id must be 8 to 128 characters" ;;
  receipts ← initialOutcomeReceipts id (rq_OutcomeReceipts req);
  match rq_ExpiresAt req with
  | None => Err (invalid "expiry must be in the future")
  | Some expiresAt =>
      reject expiresAt <=? now with invalid "expiry must be in the future" ;;
      Ok (mkRecord id (shortID id) (rq_Kind req) StatusCreated no_outcome 1 0
        (normalizeRoute (rq_Route req)) (normalizeOrigin (rq_Origin req)) (rq_Questions req)
        (bounded (trim_space (rq_PromptSummary req)) MaxSummaryLength) promptLanguage
        (bounded (trim_space (rq_ApprovalAction req)) MaxApprovalAction) (rq_ConditionRef req)
        (rq_ProtectedAnswer req) None now now expiresAt 0 0 "" [] 0 0 "" "" "" 0 receipts)
  end.
End validation.
