(* ===== verification/InteractionRegistry.v ===== *)
(** Package [pkg/interactions], the durable registry: load and save
    ([persist.go]), admission of a writer ([admission.go]), events and
    retention ([events.go]), the notification budget
    ([notification_budget.go]), the lifecycle operations ([lifecycle.go],
    [external_wait.go]) and the queries ([query.go]).

    A mutating method runs under the store's file lock and the registry's
    mutex, so it is one function from the old registry to the new one and its
    result; a file-backed registry reloads the file first, which other
    processes may have written since.  [file] is the content of the file at
    [storePath], [observers] the number of subscribers a new batch is offered
    to, and [pending] the accounted bytes of every notification that was
    accepted and is not released yet. *)
From S2P Require Import Prelude GoStrings GoJson TaskResult CodingScope BusInbound InteractionTypes.

Record Options := mkOptions {
  TerminalRetention : Z; (* nanoseconds *)
  MaxRecords : Z; MaxEvents : Z; MaxSnapshotBytes : Z; MaxPendingObservations : Z;
  MaxPendingObservationBytes : Z }.

Definition default_options (o : Options) : Options :=
  let pick v d := if v <=? 0 then d else v in
  mkOptions (pick (TerminalRetention o) DefaultRetention) (pick (MaxRecords o) DefaultMaxRecords)
    (pick (MaxEvents o) DefaultMaxEvents) (pick (MaxSnapshotBytes o) DefaultMaxBytes)
    (pick (MaxPendingObservations o) DefaultMaxPendingObservations)
    (pick (MaxPendingObservationBytes o) DefaultMaxPendingObservationBytes).

Record Registry := mkRegistry {
  storePath : string;
  options : Options;
  records : gmap string Record;
  events : list Event;
  observers : nat;
  closed : bool;
  pending : list Z;
  commitSequence : Z;
  loadErr : option Error;
  file : option string }.
#[export] Instance eta_Registry : Eta Registry := fun r =>
  mkRegistry (storePath r) (options r) (records r) (events r) (observers r) (closed r) (pending r)
    (commitSequence r) (loadErr r) (file r).

(** What one operation takes from its environment: the clock, the outcome of
    acquiring the locks, the error of reading the file other than its absence,
    and the outcome of writing it. *)
Record Env := mkEnv {
  env_now : Z; env_admission : result Error (); env_read : option string; env_write : WriteOutcome }.

Definition retention_ms (r : Registry) : Z := Z.quot (TerminalRetention (options r)) 1000000.

(** [scopedAnswerMessageIdentity] *)
Definition answerMessageIdentity : Type := string * string * string * string * string * string.
Definition scopedAnswerMessageIdentity (route : Route) (messageID : string) : answerMessageIdentity :=
  (ro_Channel route, ro_AccountID route, ro_ChatID route, ro_TopicID route, ro_SpaceID route,
   trim_space messageID).

Section registry.
Context `{MapOrder} `{UnicodeCase} `{LanguageTags}.
(** The strict JSON decoding of [decodeSnapshot]. *)
Variable decodeSnapshot : string → result string Snapshot.
Implicit Types (r : Registry) (rec : Record).

(** ** persist.go *)

Definition record_le (a b : Record) : Prop :=
  in_CreatedAt a < in_CreatedAt b ∨ in_CreatedAt a = in_CreatedAt b ∧ str_le (in_ID a) (in_ID b).
#[global] Instance record_le_dec a b : Decision (record_le a b).
Proof. unfold record_le. apply _. Defined.

Definition snapshot_records (m : gmap string Record) : list Record :=
  merge_sort record_le (cloneRecord <$> go_values m).
Definition snapshotLocked r : Snapshot :=
  mkSnapshot SnapshotSchemaVersion (commitSequence r) (snapshot_records (records r)) (events r).
Definition snapshot_text (s : Snapshot) : string := marshal_indent "" "  " (Snapshot_json s).
Definition snapshotSizeLocked r : Z := len (snapshot_text (snapshotLocked r)).

Definition restoreSnapshotLocked r (s : Snapshot) : Registry :=
  r <| records := foldl (fun m rec => <[in_ID rec := cloneRecord rec]> m) ∅ (sn_Records s) |>
    <| events := sn_Events s |> <| commitSequence := sn_CommitSequence s |>.

(** The indexes [loadData] keeps of the records read so far.  An id is never
    empty, so a key is taken exactly when it is present. *)
Record LoadState := mkLoadState {
  ls_records : gmap string Record; ls_sessions : gset string; ls_tasks : gset string;
  ls_shortIDs : gset string; ls_messages : gset answerMessageIdentity }.

Definition load_record (st : LoadState) rec : result Error LoadState :=
  _ ← validateStoredRecord rec;
  reject bool_decide (is_Some (ls_records st !! in_ID rec)) with invalid "duplicate interaction record %q" ;;
  st ← (if isTerminal (in_Status rec) then Ok st else
    let taskID := trim_space (og_TaskID (in_Origin rec)) in
    reject bool_decide (ro_SessionKey (in_Route rec) ∈ ls_sessions st)
      with invalid "active interactions %q and %q share session" ;;
    reject bool_decide (in_ShortID rec ∈ ls_shortIDs st)
      with invalid "active interactions %q and %q share short id" ;;
    reject negb (String.eqb taskID "") && bool_decide (taskID ∈ ls_tasks st)
      with invalid "active interactions %q and %q share task %q" ;;
    Ok (mkLoadState (ls_records st) ({[ro_SessionKey (in_Route rec)]} ∪ ls_sessions st)
          (if String.eqb taskID "" then ls_tasks st else {[taskID]} ∪ ls_tasks st)
          ({[in_ShortID rec]} ∪ ls_shortIDs st) (ls_messages st)));
  messages ← match in_Answer rec with
    | Some answer =>
        if String.eqb (an_MessageID answer) "" then Ok (ls_messages st) else
        let identity := scopedAnswerMessageIdentity (in_Route rec) (an_MessageID answer) in
        reject bool_decide (identity ∈ ls_messages st)
          with invalid "interactions %q and %q share answer message" ;;
        Ok ({[identity]} ∪ ls_messages st)
    | None => Ok (ls_messages st)
    end;
  Ok (mkLoadState (<[in_ID rec := cloneRecord rec]> (ls_records st)) (ls_sessions st) (ls_tasks st)
        (ls_shortIDs st) messages).

Fixpoint load_records (st : LoadState) (l : list Record) : result Error LoadState :=
  match l with
  | [] => Ok st
  | rec :: rest => st ← load_record st rec; load_records st rest
  end.

(** The loop over the events: [seqs] is [eventSequences] on the keys of
    [eventSeen], [commit] the last commit sequence. *)
Fixpoint load_events (recs : gmap string Record) (l : list Event) (seqs : gmap string Z) (commit : Z)
    : result Error Z :=
  match l with
  | [] => Ok commit
  | event :: rest =>
      reject negb (String.eqb (ie_SchemaVersion event) EventSchemaVersion)
             || String.eqb (ie_InteractionID event) "" || bool_decide (ie_Type event = EventTypeOther "")
        with invalid "invalid interaction event %q" ;;
      reject match recs !! ie_InteractionID event with
             | None => true
             | Some rec => (ie_Sequence event <=? 0) || (in_LastEventSeq rec <? ie_Sequence event)
                           || (ie_Revision event <=? 0) || (in_Revision rec <? ie_Revision event)
             end
        with invalid "invalid interaction event sequence %q" ;;
      reject match seqs !! ie_InteractionID event with
             | Some previous => negb (ie_Sequence event =? previous + 1)
             | None => false
             end
        with invalid "invalid interaction event sequence %q" ;;
      reject ie_CommitSequence event <=? commit with invalid "invalid interaction commit sequence %q" ;;
      load_events recs rest (<[ie_InteractionID event := ie_Sequence event]> seqs) (ie_CommitSequence event)
  end.

(** [loadData], from the decoded snapshot; the registry's own records are
    empty when it is called. *)
Definition loadSnapshot r (snapshot : Snapshot) : result Error Registry :=
  reject negb (String.eqb (sn_SchemaVersion snapshot) SnapshotSchemaVersion)
    with invalid "unsupported interaction snapshot schema %q" ;;
  st ← load_records (mkLoadState (records r) ∅ ∅ ∅ ∅) (sn_Records snapshot);
  commit ← load_events (ls_records st) (sn_Events snapshot) ∅ 0;
  reject sn_CommitSequence snapshot <? commit with invalid "invalid interaction snapshot commit sequence" ;;
  Ok (r <| records := ls_records st |> <| events ::= fun evs => evs ++ sn_Events snapshot |>
        <| commitSequence := sn_CommitSequence snapshot |>).

Definition loadData r (data : string) : result Error Registry :=
  match decodeSnapshot data with
  | Err msg => Err (ErrInvalidInteraction msg)
  | Ok snapshot => loadSnapshot r snapshot
  end.

Definition load (env : Env) r : result Error Registry :=
  match file r, env_read env with
  | None, _ => Ok r
  | Some _, Some err => Err (ErrInvalidInteraction err)
  | Some data, None => loadData r data
  end.

Definition saveLocked (env : Env) r : Registry * result Error () :=
  if String.eqb (storePath r) "" then (r, Ok tt) else
  let data := snapshot_text (snapshotLocked r) in
  if MaxSnapshotBytes (options r) <? len data then (r, Err ErrSnapshotOverBudget) else
  match env_write env with
  | WriteOk => (r <| file := Some data |>, Ok tt)
  | WriteCommitted => (r <| file := Some data |>, Err (ErrWrite true))
  | WriteFailed => (r, Err (ErrWrite false))
  end.

(** ** admission.go *)

Definition is_busy (e : Error) : bool := match e with ErrStoreBusy => true | _ => false end.

Definition lockAndReload (env : Env) r : Registry * result Error () :=
  if closed r then (r, Err ErrStoreClosed) else
  match env_admission env with
  | Err e => (r, Err e)
  | Ok _ =>
      if match loadErr r with Some e => negb (is_busy e) | None => false end
      then (r, Err (ErrStoreUnavailable "load")) else
      if String.eqb (storePath r) "" then (r <| loadErr := None |>, Ok tt) else
      let before := snapshotLocked r in
      let empty := r <| records := ∅ |> <| events := [] |> <| commitSequence := 0 |> in
      match load env empty with
      | Ok r' => (r' <| loadErr := None |>, Ok tt)
      | Err _ => (restoreSnapshotLocked r before, Err (ErrStoreUnavailable "reload under lock"))
      end
  end.

Definition Refresh (env : Env) r : Registry * result Error () := lockAndReload env r.

(** ** events.go *)

(** The binary search of [trimEventsToSnapshotBudgetLocked]: the snapshot
    size with [original[middle:]] is at most [limit]. *)
Fixpoint find_drop_loop (fuel : nat) (fits : Z → bool) (low high best : Z) : Z :=
  match fuel with
  | O => best
  | S fuel =>
      if high <? low then best else
      let middle := low + Z.quot (high - low) 2 in
      if fits middle then find_drop_loop fuel fits low (middle - 1) middle
      else find_drop_loop fuel fits (middle + 1) high best
  end.
Definition with_events r (evs : list Event) : Registry := r <| events := evs |>.
Definition fits_dropped r (original : list Event) (limit middle : Z) : bool :=
  snapshotSizeLocked (with_events r (drop (Z.to_nat middle) original)) <=? limit.
Definition findDrop r (original : list Event) (limit : Z) : option Z :=
  let best := find_drop_loop (length original) (fits_dropped r original limit)
                1 (Z.of_nat (length original) - 1) (-1) in
  if 0 <=? best then Some best else None.

Definition trimEventsToSnapshotBudgetLocked r : Registry * bool :=
  if (length (events r) <? 2)%nat || (MaxSnapshotBytes (options r) <=? 0) then (r, false) else
  let target := Z.quot (MaxSnapshotBytes (options r) * 3) 4 in
  if snapshotSizeLocked r <=? target then (r, false) else
  let original := events r in
  let found := match findDrop r original target with
               | Some d => Some d
               | None => findDrop r original (MaxSnapshotBytes (options r))
               end in
  match found with
  | Some d => (with_events r (drop (Z.to_nat d) original), true)
  | None => (r, false)
  end.

Definition trimEventsLocked r : Registry * bool :=
  let kept := filter (fun e => is_Some (records r !! ie_InteractionID e)) (events r) in
  let changed := negb (length kept =? length (events r))%nat in
  let r := with_events r kept in
  let '(r, changed) :=
    if MaxEvents (options r) <? Z.of_nat (length (events r))
    then (with_events r (last_n (Z.to_nat (MaxEvents (options r))) (events r)), true) else (r, changed) in
  let '(r, trimmed) := trimEventsToSnapshotBudgetLocked r in
  (r, changed || trimmed).

(** Remove the oldest terminal records while there are too many. *)
Fixpoint prune_for_count r (terminal : list Record) (changed : bool) : Registry * bool :=
  match terminal with
  | [] => (r, changed)
  | victim :: rest =>
      if MaxRecords (options r) <? Z.of_nat (size (records r))
      then prune_for_count (r <| records ::= delete (in_ID victim) |>) rest true else (r, changed)
  end.

Definition expired rec (now : Z) : bool :=
  isTerminal (in_Status rec) && (0 <? in_CleanupAfter rec) && (in_CleanupAfter rec <=? now).

Definition pruneLocked r (now : Z) : Registry * bool :=
  let kept := filter (fun p => expired p.2 now = false) (records r) in
  let changed := negb (size kept =? size (records r))%nat in
  let r := r <| records := kept |> in
  let '(r, changed) :=
    if MaxRecords (options r) <? Z.of_nat (size (records r))
    then prune_for_count r (sort_by in_ResolvedAt
           (filter (fun rec => isTerminal (in_Status rec) = true) (go_values (records r)))) changed
    else (r, changed) in
  let '(r, trimmed) := trimEventsLocked r in
  (r, changed || trimmed).

(** [appendEventFromLocked]; the record it counts the event in is returned. *)
Definition make_event rec (commit : Z) (eventType : EventType) (from : Status) (code : string)
    (success : option bool) : Event :=
  mkEvent EventSchemaVersion
    (in_ID rec +:+ ":" +:+ format_06d (in_LastEventSeq rec) +:+ ":" +:+ EventType_string eventType)
    commit (in_ID rec) eventType from (in_Status rec) (in_Outcome rec) (in_Revision rec)
    (in_LastEventSeq rec) (in_UpdatedAt rec) (trim_space code) success.
Definition appendEventFromLocked r rec (eventType : EventType) (from : Status) (code : string)
    (success : option bool) : Registry * Record :=
  let rec := rec <| in_LastEventSeq ::= Z.succ |> in
  let commit := commitSequence r + 1 in
  (r <| commitSequence := commit |>
     <| events ::= fun evs => evs ++ [make_event rec commit eventType from code success] |>, rec).

(** ** notification_budget.go *)

Definition sum_bytes (l : list Z) : Z := foldr Z.add 0 l.

Definition checkLocked r (count bytes : Z) : result Error () :=
  reject (MaxPendingObservations (options r) - Z.of_nat (length (pending r)) <? count)
         || (MaxPendingObservationBytes (options r) - sum_bytes (pending r) <? bytes)
    with ErrObserverBacklog ;;
  Ok tt.

(** [newNotificationBatchLocked]: the subscribers the batch is offered to. *)
Definition batch_observers r : nat := if closed r then 0%nat else observers r.

(** [notificationBatch.append]; a batch is the list of its items' bytes. *)
Definition batch_append r (items : list Z) (event : Event) rec : result Error (list Z) :=
  if (batch_observers r =? 0)%nat then Ok items else
  let encoded := len (marshal (Observation_json event (cloneRecord rec))) in
  let copies := Z.of_nat (batch_observers r) + 1 in
  let maxBytes := MaxPendingObservationBytes (options r) in
  reject Z.quot maxBytes copies <? encoded with ErrObserverPayloadOverBudget ;;
  let bytes := encoded * copies in
  _ ← checkLocked r (Z.of_nat (length items) + 1) (sum_bytes items + bytes);
  Ok (items ++ [bytes]).

Definition commitNotificationBatchLocked (env : Env) r (items : list Z) : Registry * result Error () :=
  match checkLocked r (Z.of_nat (length items)) (sum_bytes items) with
  | Err e => (r, Err e)
  | Ok _ =>
      let '(r, err) := saveLocked env r in
      match err with
      | Err e => (r, Err e)
      | Ok _ => (r <| pending ::= fun l => l ++ items |>, Ok tt)
      end
  end.

Definition zero_record : Record :=
  mkRecord "" "" (KindOther "") no_status no_outcome 0 0 (mkRoute "" "" "" "" "" "" "" "" "" "" "")
    (mkOrigin "" "" "" "" "" "" "" "" "" None []) [] "" "" "" "" None None 0 0 0 0 0 "" [] 0 0 "" "" ""
    0 [].

Fixpoint batch_events r (items : list Z) (evs : list Event) : result Error (list Z) :=
  match evs with
  | [] => Ok items
  | event :: rest =>
      items ← batch_append r items event (default zero_record (records r !! ie_InteractionID event));
      batch_events r items rest
  end.

Definition commitEventsLocked (env : Env) r (evs : list Event) : Registry * result Error () :=
  match batch_events r [] evs with
  | Err e => (r, Err e)
  | Ok items => commitNotificationBatchLocked env r items
  end.

(** A subscriber finishes the [i]-th pending notification. *)
Definition release_observation r (i : nat) : Registry := r <| pending ::= delete i |>.
Definition subscribe r : Registry * result Error () :=
  if closed r then (r, Err ErrStoreClosed) else (r <| observers ::= S |>, Ok tt).

(** ** lifecycle.go *)

(** What the mutation closure of an operation returns. *)
Definition Mutation : Type := Record → Z → result Error (Record * EventType * string * option bool).

Definition mutated (rec : Record) (t : EventType) (code : string)
    : result Error (Record * EventType * string * option bool) := Ok (rec, t, code, None).

(** The fields [update] sets itself on the record the closure returns. *)
Definition stamp r rec (now : Z) : Record :=
  let rec := rec <| in_Revision ::= Z.succ |> <| in_UpdatedAt := now |> in
  if isTerminal (in_Status rec)
  then rec <| in_ResolvedAt := now |> <| in_CleanupAfter := now + retention_ms r |> else rec.

Definition update (env : Env) r (id : string) (expectedRevision : Z) (mutate : Mutation)
    : Registry * result Error Record :=
  let id := trim_space id in
  match lockAndReload env r with
  | (r, Err e) => (r, Err e)
  | (r, Ok _) =>
      match records r !! id with
      | None => (r, Err (ErrNotFound id))
      | Some before =>
          if negb (in_Revision before =? expectedRevision) then (r, Err (ErrConflict "revision")) else
          let eventsBefore := events r in
          let commitSequenceBefore := commitSequence r in
          match mutate before (env_now env) with
          | Err e => (r, Err e)
          | Ok (rec, eventType, code, success) =>
              let rec := stamp r rec (env_now env) in
              let '(r, rec) := appendEventFromLocked r rec eventType (in_Status before) code success in
              let r := r <| records ::= <[id := rec]> |> in
              let event := make_event rec (commitSequence r) eventType (in_Status before) code success in
              let r := (trimEventsLocked r).1 in
              match commitEventsLocked env r [event] with
              | (r, Err e) =>
                  (r <| records ::= <[id := before]> |> <| events := eventsBefore |>
                     <| commitSequence := commitSequenceBefore |>, Err e)
              | (r, Ok _) => (r, Ok (cloneRecord rec))
              end
          end
      end
  end.

Definition canChainInteraction (existing next : Record) : bool :=
  bool_decide (in_Status existing = StatusResuming)
  && String.eqb (og_TaskID (in_Origin existing)) (og_TaskID (in_Origin next))
  && negb (String.eqb (og_ContinuationSessionKey (in_Origin existing)) "")
  && String.eqb (og_ContinuationSessionKey (in_Origin existing))
       (og_ContinuationSessionKey (in_Origin next))
  && bool_decide (in_Route existing = in_Route next).

(** A chained interaction is resolved by its successor. *)
Definition supersede r existing (now : Z) : Record :=
  existing <| in_Status := StatusResolved |> <| in_Revision ::= Z.succ |> <| in_UpdatedAt := now |>
    <| in_ResolvedAt := now |> <| in_CleanupAfter := now + retention_ms r |>.

(** The loop of [CreateContext] over the records, in the order the map is
    visited; an early return leaves what the loop changed so far. *)
Fixpoint createLoop r rec (now : Z) (l : list (string * Record)) (superseded : option (string * Record))
    : Registry * result Error (option (string * Record)) :=
  match l with
  | [] => (r, Ok superseded)
  | (id, existing) :: rest =>
      if negb (isTerminal (in_Status existing))
         && String.eqb (ro_SessionKey (in_Route existing)) (ro_SessionKey (in_Route rec))
      then
        if canChainInteraction existing rec then
          let '(r, existing') := appendEventFromLocked r (supersede r existing now) EventResolved
                                   (in_Status existing) "continued_with_next_interaction" None in
          createLoop (r <| records ::= <[id := existing']> |>) rec now rest (Some (id, existing))
        else (r, Err (ErrSessionHasActive (in_ShortID existing)))
      else if negb (isTerminal (in_Status existing)) && negb (String.eqb (og_TaskID (in_Origin rec)) "")
              && String.eqb (og_TaskID (in_Origin existing)) (og_TaskID (in_Origin rec))
      then (r, Err (ErrTaskHasActive (in_ShortID existing)))
      else if negb (isTerminal (in_Status existing)) && String.eqb (in_ShortID existing) (in_ShortID rec)
      then (r, Err (ErrConflict "duplicate short id"))
      else createLoop r rec now rest superseded
  end.

Definition Create (env : Env) r (req : CreateRequest) (random : option string)
    : Registry * result Error Record :=
  let now := env_now env in
  match buildRecord req random now with
  | Err e => (r, Err e)
  | Ok rec =>
      match lockAndReload env r with
      | (r, Err e) => (r, Err e)
      | (r, Ok _) =>
          if MaxRecords (options r) <=? Z.of_nat (size (records r)) then (r, Err ErrCapacityExceeded) else
          let eventsBefore := events r in
          let commitSequenceBefore := commitSequence r in
          match createLoop r rec now (go_range (records r)) None with
          | (r, Err e) => (r, Err e)
          | (r, Ok superseded) =>
              if bool_decide (is_Some (records r !! in_ID rec)) then (r, Err (ErrConflict "duplicate id")) else
              let '(r, rec) := appendEventFromLocked r rec EventCreated no_status "" None in
              let r := r <| records ::= <[in_ID rec := rec]> |> in
              let evs := drop (length eventsBefore) (events r) in
              let r := (trimEventsLocked r).1 in
              match commitEventsLocked env r evs with
              | (r, Err e) =>
                  let r := r <| records ::= delete (in_ID rec) |> in
                  let r := match superseded with
                           | Some (id, before) => r <| records ::= <[id := before]> |>
                           | None => r
                           end in
                  (r <| events := eventsBefore |> <| commitSequence := commitSequenceBefore |>, Err e)
              | (r, Ok _) => (r, Ok (cloneRecord rec))
              end
          end
      end
  end.

Definition MarkWaiting_mutate : Mutation := fun rec _ =>
  reject negb (validTransition (in_Status rec) StatusWaiting) with ErrInvalidTransition ;;
  reject blank (in_PromptDeliveryID rec) with ErrInvalidTransition ;;
  mutated (rec <| in_Status := StatusWaiting |>) EventWaiting "".
Definition MarkWaiting env r id rev := update env r id rev MarkWaiting_mutate.

Definition BindPromptDelivery_mutate (deliveryID : string) : Mutation := fun rec _ =>
  reject negb (bool_decide (in_Status rec = StatusCreated)) || String.eqb deliveryID ""
         || negb (String.eqb (in_PromptDeliveryID rec) "")
    with ErrInvalidTransition ;;
  mutated (rec <| in_PromptDeliveryID := deliveryID |>) EventPromptDelivery "".
Definition BindPromptDelivery env r id rev deliveryID :=
  update env r id rev (BindPromptDelivery_mutate (trim_space deliveryID)).

Definition BindFinalDelivery_mutate (deliveryID : string) : Mutation := fun rec _ =>
  reject negb (bool_decide (in_Status rec = StatusResuming)) || String.eqb deliveryID ""
    with ErrInvalidTransition ;;
  reject bool_decide (deliveryID ∈ in_FinalDeliveryIDs rec)
    with ErrConflict "final delivery %q is already bound"%string ;;
  reject (MaxFinalDeliveries <=? length (in_FinalDeliveryIDs rec))%nat with ErrInvalidTransition ;;
  mutated (rec <| in_FinalDeliveryIDs ::= fun l => l ++ [deliveryID] |>) EventFinalDelivery "".
Definition BindFinalDelivery env r id rev deliveryID :=
  update env r id rev (BindFinalDelivery_mutate (trim_space deliveryID)).

Definition ClaimDeliveryUnknown_mutate (promptDeliveryID : string) : Mutation := fun rec now =>
  reject negb (bool_decide (in_Status rec = StatusCreated)) || String.eqb promptDeliveryID ""
         || negb (String.eqb (in_PromptDeliveryID rec) promptDeliveryID)
    with ErrInvalidTransition ;;
  mutated (rec <| in_Status := StatusClaimed |> <| in_Outcome := OutcomeDeliveryUnknown |>
               <| in_Answer := Some (bare_answer "" "" now) |>)
    EventAnswerClaimed "prompt_delivery_ambiguous".
Definition ClaimDeliveryUnknown env r id rev promptDeliveryID :=
  update env r id rev (ClaimDeliveryUnknown_mutate (trim_space promptDeliveryID)).

(** The answer [claim] stores: trimmed and bounded. *)
Fixpoint trim_media (l : list string) : result Error (list string) :=
  match l with
  | [] => Ok []
  | ref :: rest =>
      let ref := trim_space ref in
      reject String.eqb ref "" || negb (validBoundedString ref MaxAnswerMediaRefLength)
        with invalid "invalid answer media ref" ;;
      rest ← trim_media rest;
      Ok (ref :: rest)
  end.
Definition value_ok (p : string * string) : bool :=
  questionIDPattern p.1 && validBoundedString p.2 MaxAnswerLength.
Definition prepare_answer (answer : Answer) : result Error Answer :=
  let answer := answer <| an_Protected ::= fmap (fun p =>
    mkProtectedReceipt (trim_space (pr_Reference p)) (trim_space (pr_State p))) |> in
  _ ← (if is_some (an_Protected answer) then validateProtectedAnswerReceipt (an_Protected answer) else Ok tt);
  reject negb (validBoundedString (an_Text answer) MaxAnswerLength)
         || (MaxQuestions <? size (an_Values answer))%nat
         || (MaxAnswerMedia <? length (an_Media answer))%nat
    with invalid "answer exceeds bounds" ;;
  media ← trim_media (an_Media answer);
  reject negb (forallb value_ok (map_to_list (an_Values answer))) with invalid "invalid answer value %q" ;;
  Ok (answer <| an_Text ::= trim_space |> <| an_Values ::= fmap trim_space |> <| an_Media := media |>
        <| an_MessageID ::= trim_space |> <| an_ResponseMessageID ::= trim_space |>).

Definition answer_in_use r (identity : answerMessageIdentity) : bool :=
  existsb (fun other => match in_Answer other with
    | Some a => bool_decide (scopedAnswerMessageIdentity (in_Route other) (an_MessageID a) = identity)
    | None => false
    end) (go_values (records r)).

(** The closure of [claim]; [r] is the registry under the lock. *)
Definition claim_mutate r (answer : Answer) (outcome : Outcome) : Mutation := fun rec now =>
  reject bool_decide (in_Kind rec = KindExternalWait)
    with invalid "external waits cannot accept chat answers" ;;
  reject negb (bool_decide (in_Status rec = StatusWaiting)) with ErrAnswerTooLate (in_Status rec) ;;
  if (0 <? in_ExpiresAt rec) && (in_ExpiresAt rec <=? now) then
    mutated (rec <| in_Status := StatusClaimed |> <| in_Outcome := OutcomeTimedOut |>
                 <| in_Answer := Some (bare_answer (an_MessageID answer) (an_ResponseMessageID answer) now) |>)
      EventAnswerClaimed "timeout_at_answer_claim"
  else
    reject bool_decide (in_Kind rec = KindQuestion) && negb (bool_decide (outcome = OutcomeAnswered))
      with invalid "question outcome %q" ;;
    _ ← (if an_Superseded answer then
           reject negb (validSupersedingAnswer rec answer outcome)
             with invalid "invalid superseding guidance" ;;
           Ok tt
         else if negb (bool_decide (an_Choice answer = no_choice)) then
           Err (invalid "typed interaction choice requires superseding guidance")
         else if is_some (in_ProtectedAnswer rec) then
           reject negb (is_some (an_Protected answer)) || negb (String.eqb (an_Text answer) "")
                  || negb (size (an_Values answer) =? 0)%nat || negb (length (an_Media answer) =? 0)%nat
             with invalid "protected interaction requires an opaque receipt" ;;
           Ok tt
         else
           reject is_some (an_Protected answer)
             with invalid "ordinary interaction cannot claim a protected receipt" ;;
           Ok tt);
    reject negb (an_Superseded answer) && negb (length (an_Media answer) =? 0)%nat
      with invalid "answer media requires superseding guidance" ;;
    reject bool_decide (in_Kind rec = KindApproval) && negb (bool_decide (outcome = OutcomeAllowed))
           && negb (bool_decide (outcome = OutcomeDenied))
      with invalid "approval outcome %q" ;;
    reject bool_decide (in_Kind rec = KindQuestion)
           && existsb (fun key => negb (bool_decide (key ∈ q_ID <$> in_Questions rec)))
                (go_keys (an_Values answer))
      with invalid "unknown question id %q" ;;
    reject negb (String.eqb (an_MessageID answer) "")
           && answer_in_use r (scopedAnswerMessageIdentity (in_Route rec) (an_MessageID answer))
      with ErrDuplicateAnswer (an_MessageID answer) ;;
    let answer := if an_ReceivedAt answer =? 0 then answer <| an_ReceivedAt := now |> else answer in
    mutated (rec <| in_Status := StatusClaimed |> <| in_Outcome := outcome |>
                 <| in_Answer := Some answer |>)
      EventAnswerClaimed "".

(** [claim]: the closure reads the records as they are under the lock. *)
Definition claim env r id rev (answer : Answer) (outcome : Outcome) : Registry * result Error Record :=
  match prepare_answer answer with
  | Err e => (r, Err e)
  | Ok answer => update env r id rev (claim_mutate (lockAndReload env r).1 answer outcome)
  end.

Definition ClaimAnswer env r id rev answer (outcome : Outcome) : Registry * result Error Record :=
  match outcome with
  | OutcomeAnswered | OutcomeAllowed | OutcomeDenied => claim env r id rev answer outcome
  | _ => (r, Err (invalid "invalid answer outcome %q"))
  end.

Definition ClaimProtectedAnswer env r id rev answer : Registry * result Error Record :=
  if is_some (an_Protected answer) then claim env r id rev answer OutcomeAnswered
  else (r, Err (invalid "protected answer receipt is required")).

Definition overdue rec (now : Z) : bool :=
  (bool_decide (in_Status rec = StatusCreated) || bool_decide (in_Status rec = StatusWaiting))
  && (0 <? in_ExpiresAt rec) && (in_ExpiresAt rec <=? now).
Definition time_out rec (now : Z) : Record :=
  rec <| in_Status := StatusClaimed |> <| in_Outcome := OutcomeTimedOut |>
      <| in_Answer := Some (bare_answer "" "" now) |> <| in_Revision ::= Z.succ |>
      <| in_UpdatedAt := now |>.

(** The loop of [ClaimOverdue] over the visited records: the claimed records
    in the order they were claimed and the notification batch. *)
Inductive OverdueResult :=
| OverdueDone (r : Registry) (claimed : list Record) (items : list Z)
| OverdueFailed (e : Error).
Fixpoint overdueLoop r (now : Z) (l : list (string * Record)) (claimed : list Record) (items : list Z)
    : OverdueResult :=
  match l with
  | [] => OverdueDone r claimed items
  | (id, rec) :: rest =>
      if negb (overdue rec now) then overdueLoop r now rest claimed items else
      let '(r', rec') := appendEventFromLocked r (time_out rec now) EventAnswerClaimed no_status "timeout" None in
      let event := make_event rec' (commitSequence r') EventAnswerClaimed no_status "timeout" None in
      match batch_append r' items event rec' with
      | Err e =>
          match claimed, e with
          | _ :: _, ErrObserverBacklog => OverdueDone r claimed items
          | _, _ => OverdueFailed e
          end
      | Ok items => overdueLoop (r' <| records ::= <[id := rec']> |>) now rest
                      (claimed ++ [cloneRecord rec']) items
      end
  end.

Definition id_le (a b : Record) : Prop := str_le (in_ID a) (in_ID b).
#[global] Instance id_le_dec a b : Decision (id_le a b).
Proof. unfold id_le. apply _. Defined.

Definition ClaimOverdue (env : Env) r (now : option Z) : Registry * result Error (list Record) :=
  let now := default (env_now env) now in
  match lockAndReload env r with
  | (r, Err e) => (r, Err e)
  | (r0, Ok _) =>
      match overdueLoop r0 now (go_range (records r0)) [] [] with
      | OverdueFailed e => (r0, Err e)
      | OverdueDone r claimed items =>
          if (length claimed =? 0)%nat then (r, Ok []) else
          let r := (trimEventsLocked r).1 in
          match commitNotificationBatchLocked env r items with
          | (r, Err e) => (r <| records := records r0 |> <| events := events r0 |>
                             <| commitSequence := commitSequence r0 |>, Err e)
          | (r, Ok _) => (r, Ok (merge_sort id_le claimed))
          end
      end
  end.

Definition MarkResuming_mutate : Mutation := fun rec now =>
  reject negb (validTransition (in_Status rec) StatusResuming) with ErrInvalidTransition ;;
  mutated (rec <| in_Status := StatusResuming |> <| in_ResumeTries ::= Z.succ |>
               <| in_LastResumeAt := now |> <| in_ResumeError := "" |>) EventResumeStarted "".
Definition MarkResuming env r id rev := update env r id rev MarkResuming_mutate.

Definition RecordResumeFailure_mutate (detail : string) : Mutation := fun rec now =>
  reject negb (bool_decide (in_Status rec = StatusClaimed))
         && negb (bool_decide (in_Status rec = StatusResuming)) with ErrInvalidTransition ;;
  mutated (rec <| in_ResumeError := bounded detail MaxSummaryLength |> <| in_LastResumeAt := now |>)
    EventRecoveryObserved "resume_failed".
Definition RecordResumeFailure env r id rev detail := update env r id rev (RecordResumeFailure_mutate detail).

Definition transition_mutate (to : Status) (eventType : EventType) (code : string) : Mutation :=
  fun rec _ =>
  reject negb (validTransition (in_Status rec) to) with ErrInvalidTransition ;;
  mutated (rec <| in_Status := to |>) eventType (bounded code 128).
Definition transition env r id rev to eventType code :=
  update env r id rev (transition_mutate to eventType code).

Definition Resolve env r id rev := transition env r id rev StatusResolved EventResolved "".
Definition CompleteCancellation env r id rev :=
  transition env r id rev StatusCancelled EventCancelled "cancellation_completed".
Definition Cancel env r id rev code := transition env r id rev StatusCancelled EventCancelled code.

Definition ConsumeApproval_mutate (toolCallID toolName argumentHash : string) : Mutation := fun rec now =>
  reject negb (bool_decide (in_Kind rec = KindApproval)) || negb (bool_decide (in_Status rec = StatusResuming))
         || negb (bool_decide (in_Outcome rec = OutcomeAllowed)) || negb (in_ApprovalConsumedAt rec =? 0)
         || negb (String.eqb (og_ToolCallID (in_Origin rec)) toolCallID)
         || negb (String.eqb (og_ToolName (in_Origin rec)) toolName)
         || String.eqb (og_ArgumentHash (in_Origin rec)) ""
         || negb (String.eqb (og_ArgumentHash (in_Origin rec)) argumentHash)
    with ErrInvalidTransition ;;
  if (0 <? in_ExpiresAt rec) && (in_ExpiresAt rec <=? now)
  then mutated (rec <| in_Outcome := OutcomeTimedOut |>) EventApprovalExpired "timeout_at_approval_consumption"
  else mutated (rec <| in_ApprovalConsumedAt := now |>) EventApprovalConsumed "allow_once_consumed".

(** An expired approval is reported together with its record; the record is
    not part of the result here. *)
Definition ConsumeApproval env r id rev (toolCallID toolName argumentHash : string)
    : Registry * result Error Record :=
  match update env r id rev
          (ConsumeApproval_mutate (trim_space toolCallID) (trim_space toolName) (trim_space argumentHash)) with
  | (r, Err e) => (r, Err e)
  | (r, Ok record) =>
      if bool_decide (in_Outcome record = OutcomeTimedOut) && (in_ApprovalConsumedAt record =? 0)
      then (r, Err ErrApprovalExpired) else (r, Ok record)
  end.

Definition MarkApprovalDeliveryUnknown_mutate : Mutation := fun rec _ =>
  reject negb (bool_decide (in_Kind rec = KindApproval)) || negb (bool_decide (in_Status rec = StatusResuming))
         || negb (bool_decide (in_Outcome rec = OutcomeAllowed)) || (in_ApprovalConsumedAt rec =? 0)
    with ErrInvalidTransition ;;
  mutated (rec <| in_Outcome := OutcomeDeliveryUnknown |>) EventRecoveryObserved "approval_execution_unknown".
Definition MarkApprovalDeliveryUnknown env r id rev := update env r id rev MarkApprovalDeliveryUnknown_mutate.

Definition BeginCancellation_mutate (code : string) : Mutation := fun rec _ =>
  reject negb (validTransition (in_Status rec) StatusCanceling) with ErrInvalidTransition ;;
  mutated (rec <| in_Status := StatusCanceling |> <| in_FailureCode := bounded code 128 |>)
    EventCanceling (bounded code 128).
Definition BeginCancellation env r id rev code := update env r id rev (BeginCancellation_mutate code).

Definition Fail_mutate (code detail : string) : Mutation := fun rec _ =>
  reject negb (validTransition (in_Status rec) StatusFailed) with ErrInvalidTransition ;;
  mutated (rec <| in_Status := StatusFailed |> <| in_FailureCode := bounded code 128 |>
               <| in_FailureDetail := bounded detail MaxSummaryLength |>) EventFailed (bounded code 128).
Definition Fail env r id rev code detail := update env r id rev (Fail_mutate code detail).

(** The loop of [RecordOutcomeReceipts] over the new receipts. *)
Fixpoint add_receipts (seen : gset string) (receipts : list Receipt) : list Receipt :=
  match receipts with
  | [] => []
  | receipt :: rest =>
      let receipt := receipt <| r_ID ::= trim_space |> in
      if String.eqb (r_ID receipt) "" || bool_decide (r_ID receipt ∈ seen) then add_receipts seen rest
      else receipt <| r_Metadata ::= cloneStringMap |> :: add_receipts ({[r_ID receipt]} ∪ seen) rest
  end.
Definition RecordOutcomeReceipts_mutate (receipts : list Receipt) : Mutation := fun rec _ =>
  let seen := list_to_set ((fun x => trim_space (r_ID x)) <$> in_OutcomeReceipts rec) in
  mutated (rec <| in_OutcomeReceipts ::= fun l => l ++ add_receipts seen receipts |>)
    EventRecoveryObserved "outcome_receipts_recorded".
Definition RecordOutcomeReceipts env r id rev receipts :=
  update env r id rev (RecordOutcomeReceipts_mutate receipts).

(** ** external_wait.go *)

Definition ClaimExternalWait_mutate (outcome : Outcome) : Mutation := fun rec now =>
  reject negb (bool_decide (in_Kind rec = KindExternalWait)) || negb (bool_decide (in_Status rec = StatusWaiting))
    with ErrInvalidTransition ;;
  let outcome := if in_ExpiresAt rec <=? now then OutcomeTimedOut else outcome in
  mutated (rec <| in_Status := StatusClaimed |> <| in_Outcome := outcome |>
               <| in_Answer := Some (bare_answer "" "" now) |>) EventAnswerClaimed "external_condition".
Definition ClaimExternalWait env r id rev (outcome : Outcome) : Registry * result Error Record :=
  match outcome with
  | OutcomeReady | OutcomeUnavailable => update env r id rev (ClaimExternalWait_mutate outcome)
  | _ => (r, Err (invalid "invalid external-wait outcome"))
  end.

Definition InvalidateExternalWait_mutate : Mutation := fun rec _ =>
  reject negb (bool_decide (in_Kind rec = KindExternalWait)) || negb (bool_decide (in_Outcome rec = OutcomeReady))
         || (negb (bool_decide (in_Status rec = StatusClaimed))
             && negb (bool_decide (in_Status rec = StatusResuming)))
    with ErrInvalidTransition ;;
  mutated (rec <| in_Outcome := OutcomeUnavailable |>) EventRecoveryObserved "external_condition_unavailable".
Definition InvalidateExternalWait env r id rev := update env r id rev InvalidateExternalWait_mutate.

(** ** registry.go and query.go *)

Definition Prune (env : Env) r (now : option Z) : Registry * result Error () :=
  let now := default (env_now env) now in
  match lockAndReload env r with
  | (r, Err e) => (r, Err e)
  | (r, Ok _) =>
      let before := snapshotLocked r in
      let '(r, changed) := pruneLocked r now in
      if negb changed then (r, Ok tt) else
      match saveLocked env r with
      | (r, Err e) => (restoreSnapshotLocked r before, Err e)
      | (r, Ok _) => (r, Ok tt)
      end
  end.

Definition NewRegistryWithOptions (env : Env) (path : string) (opts : Options) (content : option string)
    : Registry :=
  let r := mkRegistry (trim_space path) (default_options opts) ∅ [] 0 false [] 0 None content in
  if String.eqb (storePath r) "" then r else
  match lockAndReload env r with
  | (r, Err e) => r <| loadErr := Some e |>
  | (r, Ok _) =>
      let '(r, changed) := pruneLocked r (env_now env) in
      if negb changed then r else
      match saveLocked env r with
      | (r, Err e) => r <| loadErr := Some e |>
      | (r, Ok _) => r <| loadErr := None |>
      end
  end.

Definition InspectSnapshot (data : string) : result Error Snapshot :=
  reject DefaultMaxBytes <? len data with ErrSnapshotOverBudget ;;
  r ← loadData (mkRegistry "" (mkOptions 0 0 0 0 0 0) ∅ [] 0 false [] 0 None None) data;
  Ok (snapshotLocked r).

Definition Get r (id : string) : option Record := cloneRecord <$> records r !! trim_space id.
Definition List_ r : list Record := merge_sort record_le (cloneRecord <$> go_values (records r)).
Definition ListNonterminal r : list Record :=
  filter (fun rec => isTerminal (in_Status rec) = false) (List_ r).
Definition FindNonterminalByTaskID r (taskID : string) : option Record :=
  let taskID := trim_space taskID in
  if String.eqb taskID "" then None else
  last (filter (fun rec => trim_space (og_TaskID (in_Origin rec)) = taskID) (ListNonterminal r)).
Definition NonterminalTaskIDs r : gset string :=
  list_to_set (filter (fun t => t ≠ "")
    ((fun rec => trim_space (og_TaskID (in_Origin rec))) <$> ListNonterminal r)).
Definition FindWaitingByRoute r (route : Route) : list Record :=
  filter (fun rec => in_Status rec = StatusWaiting ∧ routesEqual (in_Route rec) (normalizeRoute route) = true)
    (List_ r).
Definition ListEvents r (id : string) : list Event :=
  let id := trim_space id in
  filter (fun e => id = "" ∨ ie_InteractionID e = id) (events r).
End registry.
