(* ===== verification/InteractionStore.v ===== *)
(** The stored form of the interaction registry: what a load accepts, stated
    declaratively, and that loading a snapshot gives back the registry it was
    taken of. *)
From S2P Require Import Prelude GoStrings GoJson TaskResult CodingScope BusInbound InteractionTypes.
From S2P Require Import InteractionRegistry.

(** ** Keys that live records must not share *)

Section fresh.
Context {A K : Type} `{Countable K}.
Implicit Types (f : A → list K) (seen : gset K).

Definition fresh_keys f seen (l : list A) : Prop :=
  NoDup (l ≫= f) ∧ ∀ k, k ∈ l ≫= f → k ∉ seen.

Lemma fresh_keys_cons f seen x l :
  NoDup (f x) →
  fresh_keys f seen (x :: l) ↔
  (∀ k, k ∈ f x → k ∉ seen) ∧ fresh_keys f (list_to_set (f x) ∪ seen) l.
Proof.
  intros Hx. unfold fresh_keys. rewrite bind_cons, NoDup_app. setoid_rewrite elem_of_app.
  setoid_rewrite not_elem_of_union. setoid_rewrite elem_of_list_to_set. naive_solver.
Qed.

Lemma fresh_keys_perm f seen l l' : l ≡ₚ l' → fresh_keys f seen l ↔ fresh_keys f seen l'.
Proof.
  intros Hp. assert (l ≫= f ≡ₚ l' ≫= f) as Hb by by rewrite Hp.
  unfold fresh_keys. rewrite Hb. by setoid_rewrite Hb.
Qed.

Lemma fresh_keys_empty f l : fresh_keys f ∅ l ↔ NoDup (l ≫= f).
Proof. unfold fresh_keys. set_solver. Qed.

(** Replacing an element by one whose keys are among its own. *)
Lemma nodup_keys_replace f x y l :
  NoDup (f y) → (∀ k, k ∈ f y → k ∈ f x ∨ ∀ z, z ∈ l → k ∉ f z) →
  NoDup ((x :: l) ≫= f) → NoDup ((y :: l) ≫= f).
Proof.
  intros Hy Hk. rewrite !bind_cons, !NoDup_app. intros (_ & Hd & Hl). split_and!; [done| |done].
  intros k Hky Hkl. destruct (Hk k Hky) as [Hkx|Hz]; [by apply (Hd k)|].
  apply list_elem_of_bind in Hkl as (z & Hkz & Hzl). by apply (Hz z).
Qed.
End fresh.

Definition session_keys (rec : Record) : list string :=
  if isTerminal (in_Status rec) then [] else [ro_SessionKey (in_Route rec)].
Definition short_keys (rec : Record) : list string :=
  if isTerminal (in_Status rec) then [] else [in_ShortID rec].
Definition task_key (rec : Record) : string := trim_space (og_TaskID (in_Origin rec)).
Definition task_keys (rec : Record) : list string :=
  if isTerminal (in_Status rec) || String.eqb (task_key rec) "" then [] else [task_key rec].
Definition message_keys (rec : Record) : list answerMessageIdentity :=
  match in_Answer rec with
  | Some a => if String.eqb (an_MessageID a) "" then []
              else [scopedAnswerMessageIdentity (in_Route rec) (an_MessageID a)]
  | None => []
  end.

Lemma session_keys_nodup rec : NoDup (session_keys rec).
Proof. unfold session_keys. case_match; repeat constructor; set_solver. Qed.
Lemma short_keys_nodup rec : NoDup (short_keys rec).
Proof. unfold short_keys. case_match; repeat constructor; set_solver. Qed.
Lemma task_keys_nodup rec : NoDup (task_keys rec).
Proof. unfold task_keys. case_match; repeat constructor; set_solver. Qed.
Lemma message_keys_nodup rec : NoDup (message_keys rec).
Proof. unfold message_keys. repeat case_match; repeat constructor; set_solver. Qed.
#[export] Hint Resolve session_keys_nodup short_keys_nodup task_keys_nodup message_keys_nodup : go.

Ltac state_solver :=
  try done; try set_solver; match goal with |- mkLoadState _ _ _ _ _ = _ => f_equal end; set_solver.

Section store.
Context `{MapOrder} `{UnicodeCase} `{LanguageTags}.
Implicit Types (r : Registry) (rec : Record).

Definition next_state (st : LoadState) rec : LoadState :=
  mkLoadState (<[in_ID rec := rec]> (ls_records st)) (list_to_set (session_keys rec) ∪ ls_sessions st)
    (list_to_set (task_keys rec) ∪ ls_tasks st) (list_to_set (short_keys rec) ∪ ls_shortIDs st)
    (list_to_set (message_keys rec) ∪ ls_messages st).

Definition admits (st : LoadState) rec : Prop :=
  validateStoredRecord rec = Ok tt ∧ ls_records st !! in_ID rec = None
  ∧ (∀ k, k ∈ session_keys rec → k ∉ ls_sessions st)
  ∧ (∀ k, k ∈ short_keys rec → k ∉ ls_shortIDs st)
  ∧ (∀ k, k ∈ task_keys rec → k ∉ ls_tasks st)
  ∧ (∀ k, k ∈ message_keys rec → k ∉ ls_messages st).

Lemma load_record_ok st rec st' : load_record st rec = Ok st' ↔ admits st rec ∧ st' = next_state st rec.
Proof.
  unfold load_record, admits, next_state, session_keys, short_keys, task_keys, message_keys, task_key.
  rewrite result_bind_ok. rewrite cloneRecord_id. split.
  - intros ([] & Hv & Hc). case_bool_decide as Hid; [done|].
    apply eq_None_not_Some in Hid. destruct (isTerminal (in_Status rec)); simpl in Hc.
    + destruct (in_Answer rec) as [a|]; [destruct (String.eqb (an_MessageID a) "")|]; simpl in Hc;
        repeat case_bool_decide; simplify_eq/=; split_and!; state_solver.
    + case_bool_decide; [done|]. case_bool_decide; [done|].
      destruct (String.eqb (trim_space (og_TaskID (in_Origin rec))) ""); simpl in Hc;
        [|case_bool_decide; [done|]; simpl in Hc];
        (destruct (in_Answer rec) as [a|]; [destruct (String.eqb (an_MessageID a) "")|]; simpl in Hc);
        repeat case_bool_decide; simplify_eq/=; split_and!; state_solver.
  - intros ((Hv & Hid & Hs & Hsh & Ht & Hm) & ->). exists tt. split; [done|].
    rewrite Hid. rewrite bool_decide_eq_false_2 by by intros [].
    destruct (isTerminal (in_Status rec)); simpl.
    + destruct (in_Answer rec) as [a|]; [destruct (String.eqb (an_MessageID a) "")|]; simpl;
        rewrite ?bool_decide_eq_false_2 by set_solver; simpl; f_equal; state_solver.
    + rewrite (bool_decide_eq_false_2 (ro_SessionKey _ ∈ _)) by set_solver.
      rewrite (bool_decide_eq_false_2 (in_ShortID _ ∈ _)) by set_solver.
      simpl in *. destruct (String.eqb (trim_space (og_TaskID (in_Origin rec))) ""); simpl in *;
        rewrite ?(bool_decide_eq_false_2 (trim_space _ ∈ _)) by set_solver;
        (destruct (in_Answer rec) as [a|]; [destruct (String.eqb (an_MessageID a) "")|]; simpl);
        rewrite ?bool_decide_eq_false_2 by set_solver; simpl; f_equal; state_solver.
Qed.

(** ** Records *)

(** The records of a store: each is valid, ids are distinct, no two live
    records share a session, a short id or a task, and no answer message is
    used twice. *)
Record valid_records (l : list Record) : Prop := {
  vr_valid : Forall (fun rec => validateStoredRecord rec = Ok tt) l;
  vr_ids : NoDup (in_ID <$> l);
  vr_sessions : NoDup (l ≫= session_keys);
  vr_shorts : NoDup (l ≫= short_keys);
  vr_tasks : NoDup (l ≫= task_keys);
  vr_messages : NoDup (l ≫= message_keys) }.

Definition index_records (m : gmap string Record) (l : list Record) : gmap string Record :=
  foldl (fun m rec => <[in_ID rec := rec]> m) m l.
Lemma index_records_cons m rec l : index_records m (rec :: l) = index_records (<[in_ID rec := rec]> m) l.
Proof. done. Qed.

Definition load_state_of (st : LoadState) (l : list Record) : LoadState := foldl next_state st l.

Lemma load_state_records l : ∀ st, ls_records (load_state_of st l) = index_records (ls_records st) l.
Proof. induction l as [|rec l IH]; intros st; [done|]. apply (IH (next_state st rec)). Qed.

Lemma load_records_ok l : ∀ st st',
  load_records st l = Ok st' ↔
  (Forall (fun rec => validateStoredRecord rec = Ok tt) l
   ∧ (NoDup (in_ID <$> l) ∧ ∀ rec, rec ∈ l → ls_records st !! in_ID rec = None)
   ∧ fresh_keys session_keys (ls_sessions st) l ∧ fresh_keys short_keys (ls_shortIDs st) l
   ∧ fresh_keys task_keys (ls_tasks st) l ∧ fresh_keys message_keys (ls_messages st) l)
  ∧ st' = load_state_of st l.
Proof.
  induction l as [|rec l IH]; intros st st'.
  { simpl. split.
    - intros [= <-]. split; [|done]. unfold fresh_keys. simpl.
      split_and!; first [apply Forall_nil_2 | apply NoDup_nil_2 | by intros ? ?%elem_of_nil].
    - by intros [_ ->]. }
  cbn [load_records]. rewrite result_bind_ok. setoid_rewrite load_record_ok.
  rewrite fmap_cons, Forall_cons, NoDup_cons, !fresh_keys_cons by auto with go.
  assert ((∃ st1, (admits st rec ∧ st1 = next_state st rec) ∧ load_records st1 l = Ok st')
    ↔ admits st rec ∧ load_records (next_state st rec) l = Ok st') as -> by naive_solver.
  rewrite IH. clear IH. unfold admits.
  assert ((∀ x, x ∈ l → ls_records (next_state st rec) !! in_ID x = None) ↔
    in_ID rec ∉ in_ID <$> l ∧ ∀ x, x ∈ l → ls_records st !! in_ID x = None) as ->.
  { cbn [next_state ls_records]. setoid_rewrite lookup_insert_None. rewrite list_elem_of_fmap. naive_solver. }
  setoid_rewrite elem_of_cons. cbn [next_state ls_sessions ls_shortIDs ls_tasks ls_messages].
  split.
  - intros ((? & ? & ? & ? & ? & ?) & ((? & (? & ? & ?) & ? & ? & ? & ?) & ->)). split; [|done].
    split_and!; try done. intros x [->|?]; auto.
  - intros (((? & ?) & ((? & ?) & Hn) & ? & ? & ? & ?) & ->).
    assert (ls_records st !! in_ID rec = None) by (apply Hn; by left).
    assert (∀ x, x ∈ l → ls_records st !! in_ID x = None) by (intros; apply Hn; by right). tauto.
Qed.

(** ** Events *)

Definition event_seqs (id : string) (l : list Event) : list Z :=
  ie_Sequence <$> filter (fun e => ie_InteractionID e = id) l.
Lemma event_seqs_cons id e l :
  event_seqs id (e :: l) =
    if decide (ie_InteractionID e = id) then ie_Sequence e :: event_seqs id l else event_seqs id l.
Proof. unfold event_seqs. rewrite filter_cons. by case_decide. Qed.
Lemma event_seqs_app id l1 l2 : event_seqs id (l1 ++ l2) = event_seqs id l1 ++ event_seqs id l2.
Proof. unfold event_seqs. by rewrite filter_app, fmap_app. Qed.

Definition event_ok (recs : gmap string Record) (e : Event) : Prop :=
  ie_SchemaVersion e = EventSchemaVersion ∧ ie_InteractionID e ≠ "" ∧ ie_Type e ≠ EventTypeOther "" ∧
  ∃ rec, recs !! ie_InteractionID e = Some rec ∧
    0 < ie_Sequence e ≤ in_LastEventSeq rec ∧ 0 < ie_Revision e ≤ in_Revision rec.

Lemma load_events_ok recs l : ∀ seqs commit c,
  load_events recs l seqs commit = Ok c ↔
  Forall (event_ok recs) l ∧ (∀ id, consecutive (option_list (seqs !! id) ++ event_seqs id l))
  ∧ increasing_from commit (ie_CommitSequence <$> l)
  ∧ c = default commit (last (ie_CommitSequence <$> l)).
Proof.
  induction l as [|e l IH]; intros seqs commit c.
  { simpl. split.
    - intros [= <-]. split_and!; try constructor. intros id. by destruct (seqs !! id).
    - by intros (_ & _ & _ & ->). }
  cbn [load_events]. rewrite fmap_cons, Forall_cons.
  assert (event_ok recs e ↔
    (negb (String.eqb (ie_SchemaVersion e) EventSchemaVersion) || String.eqb (ie_InteractionID e) ""
     || bool_decide (ie_Type e = EventTypeOther "")) = false ∧
    match recs !! ie_InteractionID e with
    | None => true
    | Some rec => (ie_Sequence e <=? 0) || (in_LastEventSeq rec <? ie_Sequence e)
                  || (ie_Revision e <=? 0) || (in_Revision rec <? ie_Revision e)
    end = false) as Hok.
  { unfold event_ok. rewrite !orb_false_iff, negb_false_iff, bool_decide_eq_false, String.eqb_eq, String.eqb_neq.
    destruct (recs !! ie_InteractionID e) as [rec|]; [|naive_solver].
    rewrite !orb_false_iff, !Z.leb_gt, !Z.ltb_ge. split.
    - intros (? & ? & ? & ? & [= <-] & ? & ?). lia || tauto.
    - intros [? ?]. split_and!; try tauto. eexists. split; [done|lia]. }
  assert ((∀ id, consecutive (option_list (seqs !! id) ++ event_seqs id (e :: l))) ↔
    match seqs !! ie_InteractionID e with Some p => negb (ie_Sequence e =? p + 1) | None => false end = false
    ∧ ∀ id, consecutive (option_list (<[ie_InteractionID e := ie_Sequence e]> seqs !! id) ++ event_seqs id l))
    as Hseq.
  { assert (match seqs !! ie_InteractionID e with Some p => negb (ie_Sequence e =? p + 1) | None => false end = false
      ↔ match seqs !! ie_InteractionID e with Some p => ie_Sequence e = p + 1 | None => True end) as ->.
    { destruct (seqs !! ie_InteractionID e); [|done]. by rewrite negb_false_iff, Z.eqb_eq. }
    split.
    - intros Hall. split.
      + specialize (Hall (ie_InteractionID e)). rewrite event_seqs_cons, decide_True in Hall by done.
        by apply consecutive_extend in Hall as [? _].
      + intros id. specialize (Hall id). rewrite event_seqs_cons in Hall.
        destruct (decide (ie_InteractionID e = id)) as [Hk|Hk].
        * subst id. rewrite lookup_insert_eq. by apply consecutive_extend in Hall as [_ ?].
        * by rewrite lookup_insert_ne.
    - intros [Hp Hall] id. specialize (Hall id). rewrite event_seqs_cons.
      destruct (decide (ie_InteractionID e = id)) as [Hk|Hk].
      + subst id. rewrite lookup_insert_eq in Hall. by apply consecutive_extend.
      + by rewrite lookup_insert_ne in Hall. }
  rewrite Hok, Hseq. clear Hok Hseq. cbn [increasing_from].
  repeat match goal with |- (if ?c then _ else _) = _ ↔ _ =>
    let E := fresh in destruct c eqn:E; [split; [done|]; intuition congruence|] end.
  match goal with |- (if ?c then _ else _) = _ ↔ _ => destruct c eqn:Hcs end.
  { apply Z.leb_le in Hcs. split; [done|]. intros (_ & _ & [? _] & _). lia. }
  apply Z.leb_gt in Hcs. rewrite IH.
  assert (default (ie_CommitSequence e) (last (ie_CommitSequence <$> l))
          = default commit (last (ie_CommitSequence e :: (ie_CommitSequence <$> l)))) as ->.
  { destruct l as [|e' l]; [done|]. rewrite !fmap_cons, last_cons_cons.
    destruct (last (ie_CommitSequence e' :: (ie_CommitSequence <$> l))) eqn:E; [done|]. by apply last_None in E. }
  intuition.
Qed.

(** ** Healthy registries *)

Definition values (m : gmap string Record) : list Record := (map_to_list m).*2.

(** A record as the registry itself stores it: one a load accepts, with its
    task id and delivery ids trimmed. *)
Definition healthy_record rec : Prop :=
  validateStoredRecord rec = Ok tt
  ∧ trim_space (og_TaskID (in_Origin rec)) = og_TaskID (in_Origin rec)
  ∧ Forall (fun d => trim_space d = d) (in_FinalDeliveryIDs rec) ∧ 0 ≤ in_ResumeTries rec.

Record healthy r : Prop := {
  h_records : map_Forall (fun id rec => in_ID rec = id ∧ healthy_record rec) (records r);
  h_sessions : NoDup (values (records r) ≫= session_keys);
  h_shorts : NoDup (values (records r) ≫= short_keys);
  h_tasks : NoDup (values (records r) ≫= task_keys);
  h_messages : NoDup (values (records r) ≫= message_keys);
  h_events : Forall (event_ok (records r)) (events r);
  h_streams : ∀ id, consecutive (event_seqs id (events r));
  h_tails : ∀ id rec, records r !! id = Some rec →
    match last (event_seqs id (events r)) with Some n => n = in_LastEventSeq rec | None => True end;
  h_commits : increasing_from 0 (ie_CommitSequence <$> events r);
  h_last : 0 ≤ commitSequence r ∧ Forall (fun e => ie_CommitSequence e ≤ commitSequence r) (events r) }.

(** The registry a load starts from. *)
Definition emptied r : Registry := r <| records := ∅ |> <| events := [] |> <| commitSequence := 0 |>.

Lemma snapshot_records_values m : snapshot_records m ≡ₚ values m.
Proof.
  unfold snapshot_records. rewrite merge_sort_Permutation.
  rewrite (fmap_pointwise_id cloneRecord) by apply cloneRecord_id.
  unfold go_values, values. by rewrite go_range_perm.
Qed.

Lemma elem_of_values m rec : rec ∈ values m ↔ ∃ id, m !! id = Some rec.
Proof.
  unfold values. rewrite list_elem_of_fmap. split.
  - intros ([id rec'] & -> & Hin%elem_of_map_to_list). eauto.
  - intros [id Hid]. exists (id, rec). by rewrite elem_of_map_to_list.
Qed.

Lemma values_ids m : map_Forall (fun id rec => in_ID rec = id) m → NoDup (in_ID <$> values m).
Proof.
  intros Hk. unfold values. rewrite <- list_fmap_compose.
  assert ((in_ID ∘ snd) <$> map_to_list m = (map_to_list m).*1) as ->; [|apply NoDup_fst_map_to_list].
  apply list_fmap_ext. intros i [id rec] Hi%list_elem_of_lookup_2%elem_of_map_to_list. exact (Hk _ _ Hi).
Qed.

Lemma index_records_lookup l : ∀ m id,
  NoDup (in_ID <$> l) →
  index_records m l !! id = match list_find (fun rec => in_ID rec = id) l with
                            | Some (_, rec) => Some rec | None => m !! id end.
Proof.
  induction l as [|rec l IH]; intros m id Hnd; [done|].
  rewrite fmap_cons in Hnd. apply NoDup_cons in Hnd as [Hni Hnd].
  rewrite index_records_cons, IH by done. cbn [list_find]. destruct (decide (in_ID rec = id)) as [<-|Hne].
  - destruct (list_find (fun rec' => in_ID rec' = in_ID rec) l) as [[i rec']|] eqn:E.
    + apply list_find_Some in E as (Hi & Heq & _). exfalso. apply Hni, list_elem_of_fmap.
      exists rec'. split; [done|]. by eapply list_elem_of_lookup_2.
    + by rewrite lookup_insert_eq.
  - rewrite lookup_insert_ne by done. by destruct (list_find _ l) as [[]|].
Qed.

Lemma index_snapshot m :
  map_Forall (fun id rec => in_ID rec = id) m → index_records ∅ (snapshot_records m) = m.
Proof.
  intros Hk. apply map_eq. intros id.
  assert (NoDup (in_ID <$> snapshot_records m)) as Hnd
    by (rewrite snapshot_records_values; by apply values_ids).
  rewrite index_records_lookup by done.
  destruct (list_find _ _) as [[i rec]|] eqn:E.
  - apply list_find_Some in E as (Hi & <- & _). apply list_elem_of_lookup_2 in Hi.
    rewrite snapshot_records_values, elem_of_values in Hi. destruct Hi as (id' & Hid').
    by rewrite (Hk _ _ Hid').
  - rewrite lookup_empty. destruct (m !! id) as [rec|] eqn:Hm; [|done]. exfalso.
    apply list_find_None in E. rewrite Forall_forall in E. apply (E rec).
    + rewrite snapshot_records_values, elem_of_values. eauto.
    + exact (Hk _ _ Hm).
Qed.

Lemma healthy_keyed r : healthy r → map_Forall (fun id rec => in_ID rec = id) (records r).
Proof. intros Hh id rec Hid. apply (h_records _ Hh _ _ Hid). Qed.

Lemma healthy_loads r : healthy r → loadSnapshot (emptied r) (snapshotLocked r) = Ok r.
Proof.
  intros Hh. pose proof (healthy_keyed _ Hh) as Hk. unfold loadSnapshot.
  cbn [snapshotLocked sn_SchemaVersion sn_Records sn_Events sn_CommitSequence].
  change (records (emptied r)) with (∅ : gmap string Record). rewrite String.eqb_refl. cbn [negb].
  pose proof (snapshot_records_values (records r)) as Hp.
  assert (load_records (mkLoadState ∅ ∅ ∅ ∅ ∅) (snapshot_records (records r))
    = Ok (load_state_of (mkLoadState ∅ ∅ ∅ ∅ ∅) (snapshot_records (records r)))) as Hl.
  { apply load_records_ok. split; [|done]. cbn [ls_sessions ls_shortIDs ls_tasks ls_messages ls_records].
    rewrite !fresh_keys_empty. split_and!.
    - rewrite Hp. apply Forall_forall. intros rec (id & Hid)%elem_of_values. apply (h_records _ Hh _ _ Hid).
    - rewrite Hp. by apply values_ids.
    - intros. apply lookup_empty.
    - rewrite Hp. apply Hh.
    - rewrite Hp. apply Hh.
    - rewrite Hp. apply Hh.
    - rewrite Hp. apply Hh. }
  rewrite Hl. simpl. rewrite load_state_records. cbn [ls_records]. rewrite index_snapshot by done.
  assert (load_events (records r) (events r) ∅ 0
    = Ok (default 0 (last (ie_CommitSequence <$> events r)))) as ->.
  { apply load_events_ok. split_and!; [apply Hh| |apply Hh|done]. intros id. rewrite lookup_empty. apply Hh. }
  simpl. destruct (h_last _ Hh) as [H0' Hlast].
  assert (default 0 (last (ie_CommitSequence <$> events r)) ≤ commitSequence r) as Hle.
  { destruct (last (ie_CommitSequence <$> events r)) as [c|] eqn:E; [|done]. simpl.
    apply last_Some_elem_of in E. apply list_elem_of_fmap in E as (e & -> & He).
    rewrite Forall_forall in Hlast. by apply Hlast. }
  destruct (commitSequence r <? default 0 (last (ie_CommitSequence <$> events r))) eqn:E.
  { apply Z.ltb_lt in E. lia. }
  by destruct r.
Qed.
End store.
