(* ===== verification/InteractionHealth.v ===== *)
(** Every operation of the interaction registry keeps its store loadable: the
    validation of a stored record split into what never changes and what an
    operation may change, and the preservation of both. *)
From S2P Require Import Prelude GoStrings GoJson TaskResult CodingScope BusInbound InteractionTypes.
From S2P Require Import InteractionRegistry InteractionStore.

(** ** Identifiers *)

Lemma match_width_head ws b l :
  Forall (fun w => match w with h :: _ => h ≠ b | [] => False end) ws → match_width ws (b :: l) = None.
Proof.
  induction 1 as [|w ws Hw _ IH]; [done|]. cbn [match_width]. destruct w as [|h w]; [done|].
  cbn [starts_with]. by apply Z.eqb_neq in Hw as ->.
Qed.

Lemma id_class_range b : id_class b = true → 45 ≤ b ≤ 122.
Proof.
  unfold id_class, upper, lower, digit, in_range, one_of.
  change (bytes "_-") with [95; 45]. cbn [existsb].
  rewrite !orb_true_iff, !andb_true_iff, !Z.leb_le, !Z.eqb_eq. lia.
Qed.

(** No byte of an identifier is white space. *)
Lemma trim_id s : regexpID s = true → trim_space s = s ∧ s ≠ "".
Proof.
  unfold regexpID, matches, trim_space, trim_left, trim_right.
  destruct (bytes s) as [|b l] eqn:Hb; [done|]. intros [Hbc Hl]%andb_true_iff.
  assert (Forall (fun c => 45 ≤ c ≤ 122) (b :: l)) as Hall.
  { constructor; [by apply id_class_range|]. apply Forall_forall. intros c Hc.
    rewrite forallb_forall in Hl. apply id_class_range, Hl, list_elem_of_In, Hc. }
  split; [|by intros ->]. rewrite (trim_from_id white_space).
  2:{ apply match_width_head. apply Forall_cons in Hall as [Hall _].
      unfold white_space. repeat constructor; lia. }
  rewrite trim_from_id; [by rewrite rev_involutive, <- Hb, of_bytes_bytes|].
  destruct (rev (b :: l)) as [|c l'] eqn:Hr; [done|].
  apply match_width_head. assert (45 ≤ c ≤ 122) as Hc.
  { rewrite Forall_forall in Hall. apply Hall. apply list_elem_of_In, in_rev. rewrite Hr. by left. }
  unfold white_space. cbn. repeat constructor; lia.
Qed.

(** Take a closure that succeeded apart: its guards become hypotheses. *)
Ltac mutation :=
  match goal with
  | Hm : ?m = Ok _ |- _ =>
      unfold mutated in Hm;
      repeat first [rewrite reject_ok in Hm | rewrite bind_unit_ok in Hm];
      repeat match type of Hm with _ ∧ _ => let E := fresh "E" in destruct Hm as [E Hm] end;
      injection Hm as <- <- <- <-
  end;
  repeat match goal with
  | E : _ || _ = false |- _ => apply orb_false_iff in E as [? ?]
  | E : negb _ = false |- _ => apply negb_false_iff in E
  | E : negb _ = true |- _ => apply negb_true_iff in E
  | E : bool_decide _ = true |- _ => apply bool_decide_eq_true in E
  | E : bool_decide _ = false |- _ => apply bool_decide_eq_false in E
  end.

Section health.
Context `{MapOrder} `{UnicodeCase} `{LanguageTags}.
Implicit Types (r : Registry) (rec : Record).

(** ** The two halves of [validateStoredRecord] *)

Definition static_ok rec : Prop :=
  blank (in_ID rec) = false ∧ regexpID (in_ID rec) = true ∧ in_ShortID rec = shortID (in_ID rec)
  ∧ 0 < in_CreatedAt rec < in_ExpiresAt rec ∧ validKind (in_Kind rec) = true
  ∧ validateExternalWait (in_Kind rec) (in_ConditionRef rec) (Some (in_Origin rec)) = Ok tt
  ∧ Route_validate (in_Route rec) = Ok tt ∧ Origin_validate (in_Origin rec) = Ok tt
  ∧ validArgumentHashForKind (in_Kind rec) (og_ArgumentHash (in_Origin rec)) = true
  ∧ validateInteractionMetadata (in_Kind rec) (og_ExecutionContext (in_Origin rec))
      (in_ApprovalAction rec) = Ok tt
  ∧ validateQuestions (in_Kind rec) (in_Questions rec) = Ok tt
  ∧ validateProtectedAnswerBinding (in_Kind rec) (in_Questions rec) (in_ProtectedAnswer rec) = Ok tt
  ∧ (in_PromptLanguage rec = "" ∨
     CanonicalPromptLanguage (in_PromptLanguage rec) = Ok (in_PromptLanguage rec)).

Definition known_status (s : Status) : bool := match s with StatusOther _ => false | _ => true end.

Definition consumed_ok rec : Prop :=
  in_ApprovalConsumedAt rec = 0 ∨
  in_Kind rec = KindApproval ∧ (in_Outcome rec = OutcomeAllowed ∨ in_Outcome rec = OutcomeDeliveryUnknown)
  ∧ in_Status rec ≠ StatusCreated ∧ in_Status rec ≠ StatusWaiting ∧ in_Status rec ≠ StatusClaimed.

Definition dynamic_ok rec : Prop :=
  0 < in_Revision rec ∧ 0 < in_LastEventSeq rec ∧ in_CreatedAt rec ≤ in_UpdatedAt rec
  ∧ known_status (in_Status rec) = true ∧ (length (in_FinalDeliveryIDs rec) ≤ MaxFinalDeliveries)%nat
  ∧ validateFinalDeliveries (in_FinalDeliveryIDs rec) ∅ = Ok tt ∧ validateStatusFields rec = Ok tt
  ∧ (isTerminal (in_Status rec) = true → 0 < in_ResolvedAt rec < in_CleanupAfter rec)
  ∧ consumed_ok rec.

Lemma consumed_ok_bool rec :
  negb (in_ApprovalConsumedAt rec =? 0)
  && (negb (bool_decide (in_Kind rec = KindApproval))
      || (negb (bool_decide (in_Outcome rec = OutcomeAllowed))
          && negb (bool_decide (in_Outcome rec = OutcomeDeliveryUnknown)))
      || bool_decide (in_Status rec = StatusCreated) || bool_decide (in_Status rec = StatusWaiting)
      || bool_decide (in_Status rec = StatusClaimed)) = false ↔ consumed_ok rec.
Proof.
  unfold consumed_ok. rewrite andb_false_iff, negb_false_iff, Z.eqb_eq, !orb_false_iff, andb_false_iff.
  rewrite !negb_false_iff, !bool_decide_eq_true, !bool_decide_eq_false. tauto.
Qed.

Lemma language_bool rec :
  negb (String.eqb (in_PromptLanguage rec) "")
  && match CanonicalPromptLanguage (in_PromptLanguage rec) with
     | Ok canonical => negb (String.eqb canonical (in_PromptLanguage rec))
     | Err _ => true
     end = false ↔
  (in_PromptLanguage rec = "" ∨
   CanonicalPromptLanguage (in_PromptLanguage rec) = Ok (in_PromptLanguage rec)).
Proof.
  rewrite andb_false_iff, negb_false_iff, String.eqb_eq.
  destruct (CanonicalPromptLanguage (in_PromptLanguage rec)) as [c|]; [|naive_solver].
  rewrite negb_false_iff, String.eqb_eq. naive_solver.
Qed.

Lemma terminal_bool rec :
  isTerminal (in_Status rec) && ((in_ResolvedAt rec <=? 0) || (in_CleanupAfter rec <=? in_ResolvedAt rec)) = false
  ↔ (isTerminal (in_Status rec) = true → 0 < in_ResolvedAt rec < in_CleanupAfter rec).
Proof.
  rewrite andb_false_iff, orb_false_iff, !Z.leb_gt. destruct (isTerminal (in_Status rec)); [|naive_solver].
  split; [intros [|[? ?]]; [done|lia]|]. intros Hx. specialize (Hx eq_refl). right. lia.
Qed.

Lemma status_bool rec :
  match in_Status rec with StatusOther _ => true | _ => false end = false ↔ known_status (in_Status rec) = true.
Proof. by destruct (in_Status rec). Qed.

Lemma valid_split rec : validateStoredRecord rec = Ok tt ↔ static_ok rec ∧ dynamic_ok rec.
Proof.
  unfold validateStoredRecord. repeat first [rewrite reject_ok | rewrite bind_unit_ok].
  rewrite consumed_ok_bool, language_bool, terminal_bool, status_bool.
  rewrite !orb_false_iff, !negb_false_iff, String.eqb_eq, !Z.leb_gt, Z.ltb_ge, Nat.ltb_ge.
  unfold static_ok, dynamic_ok. intuition lia.
Qed.

(** ** What an operation may change *)

Definition same_static (a b : Record) : Prop :=
  in_ID b = in_ID a ∧ in_ShortID b = in_ShortID a ∧ in_Kind b = in_Kind a
  ∧ in_ConditionRef b = in_ConditionRef a ∧ in_Route b = in_Route a ∧ in_Origin b = in_Origin a
  ∧ in_ApprovalAction b = in_ApprovalAction a ∧ in_Questions b = in_Questions a
  ∧ in_ProtectedAnswer b = in_ProtectedAnswer a ∧ in_PromptLanguage b = in_PromptLanguage a
  ∧ in_CreatedAt b = in_CreatedAt a ∧ in_ExpiresAt b = in_ExpiresAt a.

Lemma same_static_ok a b : same_static a b → static_ok a → static_ok b.
Proof.
  unfold same_static, static_ok.
  intros (-> & -> & -> & -> & -> & -> & -> & -> & -> & -> & -> & ->). done.
Qed.

(** The answer part of an answered record. *)
Definition answered rec : Prop :=
  match in_Answer rec with Some a => 0 < an_ReceivedAt a | None => False end
  ∧ validStoredOutcome (in_Kind rec) (in_Outcome rec) = true ∧ validateStoredAnswer rec = Ok tt.

Definition status_fields rec : Prop :=
  match in_Status rec with
  | StatusCreated => in_Answer rec = None ∧ in_Outcome rec = no_outcome
  | StatusWaiting => in_Answer rec = None ∧ in_Outcome rec = no_outcome ∧ blank (in_PromptDeliveryID rec) = false
  | StatusClaimed => answered rec
  | StatusResuming | StatusResolved => answered rec ∧ in_ResumeTries rec ≠ 0
  | _ => True
  end.

Lemma status_fields_iff rec : validateStatusFields rec = Ok tt ↔ status_fields rec.
Proof.
  unfold validateStatusFields, status_fields, answered.
  destruct (in_Status rec) eqn:Hs; repeat first [rewrite reject_ok | rewrite bind_unit_ok];
    rewrite ?orb_false_iff, ?negb_false_iff, ?bool_decide_eq_true; try tauto.
  - destruct (in_Answer rec); simpl; naive_solver.
  - destruct (in_Answer rec); simpl; naive_solver.
  - rewrite (bool_decide_eq_false_2 (StatusClaimed = StatusResuming)),
      (bool_decide_eq_false_2 (StatusClaimed = StatusResolved)) by done. cbn [orb andb].
    destruct (in_Answer rec); rewrite ?Z.leb_gt; intuition congruence.
  - rewrite bool_decide_eq_true_2 by done. cbn [orb andb]. rewrite Z.eqb_neq.
    destruct (in_Answer rec); rewrite ?Z.leb_gt; intuition congruence.
  - rewrite (bool_decide_eq_true_2 (StatusResolved = StatusResolved)) by done.
    rewrite orb_true_r. cbn [andb]. rewrite Z.eqb_neq.
    destruct (in_Answer rec); rewrite ?Z.leb_gt; intuition congruence.
Qed.

Lemma stored_answer_ext a b :
  in_Answer b = in_Answer a → in_Kind b = in_Kind a → in_Outcome b = in_Outcome a →
  in_ProtectedAnswer b = in_ProtectedAnswer a → validateStoredAnswer b = validateStoredAnswer a.
Proof. unfold validateStoredAnswer, validSupersedingAnswer. by intros -> -> -> ->. Qed.
Lemma answered_ext a b :
  in_Answer b = in_Answer a → in_Kind b = in_Kind a → in_Outcome b = in_Outcome a →
  in_ProtectedAnswer b = in_ProtectedAnswer a → answered a → answered b.
Proof.
  unfold answered. intros Ha Hk Ho Hp. by rewrite (stored_answer_ext a b Ha Hk Ho Hp), Ha, Hk, Ho.
Qed.

(** A timeout or an unknown delivery leaves a bare answer. *)
Lemma bare_answered rec m p now :
  in_Answer rec = Some (bare_answer m p now) → 0 < now → in_Outcome rec ≠ OutcomeAnswered →
  validStoredOutcome (in_Kind rec) (in_Outcome rec) = true →
  (in_Kind rec = KindExternalWait → m = "" ∧ p = "") → answered rec.
Proof.
  intros Ha Hn Ho Hv Hk. unfold answered, validateStoredAnswer. rewrite Ha. split_and!; [done..|].
  cbn [bare_answer an_Text an_Values an_Media an_Superseded an_Choice an_Protected an_MessageID
       an_ResponseMessageID].
  replace (validBoundedString "" MaxAnswerLength) with true by done.
  rewrite map_size_empty. cbn [negb orb length Nat.ltb Nat.leb MaxQuestions MaxAnswerMedia existsb].
  case_bool_decide as Hx; [by destruct (Hk Hx) as [-> ->]|].
  rewrite bool_decide_eq_true_2 by done. cbn [negb].
  destruct (in_ProtectedAnswer rec); [|done]. by rewrite bool_decide_eq_false_2.
Qed.

(** What an operation's closure guarantees of the record it returns. *)
Record good_change (before rec : Record) : Prop := {
  gc_static : same_static before rec;
  gc_revision : in_Revision rec = in_Revision before;
  gc_seq : in_LastEventSeq rec = in_LastEventSeq before;
  gc_known : known_status (in_Status rec) = true;
  gc_terminal : isTerminal (in_Status before) = true → isTerminal (in_Status rec) = true;
  gc_deliveries : (length (in_FinalDeliveryIDs rec) ≤ MaxFinalDeliveries)%nat
    ∧ validateFinalDeliveries (in_FinalDeliveryIDs rec) ∅ = Ok tt
    ∧ Forall (fun d => trim_space d = d) (in_FinalDeliveryIDs rec);
  gc_fields : status_fields rec;
  gc_consumed : consumed_ok rec;
  gc_tries : 0 ≤ in_ResumeTries rec }.

(** The record [update] stores. *)
Definition stored r rec (now : Z) : Record := stamp r rec now <| in_LastEventSeq ::= Z.succ |>.

Lemma stored_fields r rec now :
  same_static rec (stored r rec now) ∧ in_Revision (stored r rec now) = in_Revision rec + 1
  ∧ in_LastEventSeq (stored r rec now) = in_LastEventSeq rec + 1
  ∧ in_UpdatedAt (stored r rec now) = now ∧ in_Status (stored r rec now) = in_Status rec
  ∧ in_Outcome (stored r rec now) = in_Outcome rec ∧ in_Answer (stored r rec now) = in_Answer rec
  ∧ in_PromptDeliveryID (stored r rec now) = in_PromptDeliveryID rec
  ∧ in_FinalDeliveryIDs (stored r rec now) = in_FinalDeliveryIDs rec
  ∧ in_ResumeTries (stored r rec now) = in_ResumeTries rec
  ∧ in_ApprovalConsumedAt (stored r rec now) = in_ApprovalConsumedAt rec
  ∧ (isTerminal (in_Status rec) = true →
     in_ResolvedAt (stored r rec now) = now ∧ in_CleanupAfter (stored r rec now) = now + retention_ms r).
Proof.
  unfold stored, stamp, same_static. cbv zeta.
  change (in_Status (rec <| in_Revision ::= Z.succ |> <| in_UpdatedAt := now |>)) with (in_Status rec).
  destruct (isTerminal (in_Status rec)); split_and!; done.
Qed.

Lemma stored_healthy r before rec now :
  healthy_record before → good_change before rec → in_CreatedAt before ≤ now → 0 < now →
  1 ≤ retention_ms r → healthy_record (stored r rec now).
Proof.
  intros ((Hst & Hdy)%valid_split & Htrim & Hd & _) [Hs Hrev Hseq Hk _ (Hl & Hv & Hdt) Hf Hc Ht] Hnow Hn Hret.
  destruct (stored_fields r rec now) as (Hs' & Hr' & Hq' & Hu' & Hst' & Ho' & Ha' & Hp' & Hd' & Ht' & Hac & Hterm).
  destruct Hdy as (Hrev0 & Hseq0 & _).
  pose proof (same_static_ok _ _ Hs Hst) as Hst1. pose proof (same_static_ok _ _ Hs' Hst1) as Hst2.
  destruct Hs as (_ & _ & _ & _ & _ & Hor & _ & _ & _ & _ & Hcr & _).
  destruct Hs' as (_ & _ & Hkind & _ & _ & Hor' & _ & _ & Hpa & _ & Hcr' & _).
  split_and!; [|by rewrite Hor', Hor|by rewrite Hd'|by rewrite Ht'].
  apply valid_split. split; [done|]. unfold dynamic_ok. rewrite Hr', Hq', Hu', Hst', Hd', Hcr', Hcr.
  split_and!; try done; try lia.
  - apply status_fields_iff. unfold status_fields in Hf |- *. rewrite Hst', Ha', Ho', Hp', Ht'.
    destruct (in_Status rec); try done; [|destruct Hf as [Hf ?]; split; [|done]..];
      (eapply answered_ext; [..|exact Hf]; done).
  - intros Hx. destruct (Hterm Hx) as [-> ->]. lia.
  - unfold consumed_ok in Hc |- *. by rewrite Hac, Hkind, Ho', Hst'.
Qed.

(** ** The closures of the operations *)

Lemma healthy_facts rec :
  healthy_record rec →
  known_status (in_Status rec) = true
  ∧ ((length (in_FinalDeliveryIDs rec) ≤ MaxFinalDeliveries)%nat
     ∧ validateFinalDeliveries (in_FinalDeliveryIDs rec) ∅ = Ok tt
     ∧ Forall (fun d => trim_space d = d) (in_FinalDeliveryIDs rec))
  ∧ status_fields rec ∧ consumed_ok rec ∧ 0 ≤ in_ResumeTries rec.
Proof.
  intros ((_ & Hdy)%valid_split & _ & Hd & Ht). destruct Hdy as (_ & _ & _ & Hk & Hl & Hv & Hf & _ & Hc).
  apply status_fields_iff in Hf. by split_and!.
Qed.

(** A change of status, outcome, answer or bookkeeping fields. *)
Lemma change_fields before rec :
  healthy_record before → same_static before rec → in_Revision rec = in_Revision before →
  in_LastEventSeq rec = in_LastEventSeq before → in_FinalDeliveryIDs rec = in_FinalDeliveryIDs before →
  in_ResumeTries before ≤ in_ResumeTries rec → known_status (in_Status rec) = true →
  (isTerminal (in_Status before) = true → isTerminal (in_Status rec) = true) →
  status_fields rec → consumed_ok rec → good_change before rec.
Proof.
  intros (_ & Hd & _ & _ & Ht)%healthy_facts Hs Hr Hq Hf Htr Hk Hterm Hsf Hc.
  split; try done; [by rewrite Hf|lia].
Qed.

(** No approval is consumed before its interaction resumes. *)
Lemma unconsumed rec :
  healthy_record rec →
  in_Status rec = StatusCreated ∨ in_Status rec = StatusWaiting ∨ in_Status rec = StatusClaimed →
  in_ApprovalConsumedAt rec = 0.
Proof. intros (_ & _ & _ & Hc & _)%healthy_facts Hs. destruct Hc as [?|(_ & _ & ? & ? & ?)]; [done|tauto]. Qed.

Lemma MarkWaiting_good before now rec t c s :
  healthy_record before → MarkWaiting_mutate before now = Ok (rec, t, c, s) → good_change before rec.
Proof.
  intros Hh Hm. unfold MarkWaiting_mutate in Hm. mutation.
  destruct (in_Status before) eqn:Hs; try done.
  pose proof (healthy_facts _ Hh) as (_ & _ & Hf & _ & _).
  unfold status_fields in Hf. rewrite Hs in Hf.
  apply change_fields; try done; [by rewrite Hs|by split_and!; destruct Hf|].
  left. cbn. apply unconsumed; auto.
Qed.

Lemma BindPromptDelivery_good d before now rec t c s :
  healthy_record before → BindPromptDelivery_mutate d before now = Ok (rec, t, c, s) → good_change before rec.
Proof.
  intros Hh Hm. unfold BindPromptDelivery_mutate in Hm. mutation.
  pose proof (healthy_facts _ Hh) as (_ & _ & Hf & _ & _). unfold status_fields in Hf.
  match goal with Hs : in_Status before = _ |- _ => rename Hs into Hst end. rewrite Hst in Hf.
  apply change_fields; try done; [by cbn; rewrite Hst|unfold status_fields; cbn; by rewrite Hst|].
  left. cbn. apply unconsumed; auto.
Qed.

Lemma validateFinalDeliveries_snoc ids d : ∀ seen,
  Forall (fun x => trim_space x = x) ids → trim_space d = d → d ≠ "" →
  d ∉ ids → d ∉ seen → validateFinalDeliveries ids seen = Ok tt →
  validateFinalDeliveries (ids ++ [d]) seen = Ok tt.
Proof.
  induction ids as [|x ids IH]; intros seen Ht Hd Hne Hni Hns; cbn [validateFinalDeliveries app].
  - intros _. rewrite Hd. apply String.eqb_neq in Hne. rewrite Hne. by rewrite bool_decide_eq_false_2.
  - apply Forall_cons in Ht as [Hx Ht]. apply not_elem_of_cons in Hni as [Hdx Hni].
    rewrite !reject_ok. intros (? & ? & Hv). split_and!; try done.
    apply IH; try done. rewrite Hx. set_solver.
Qed.

Lemma BindFinalDelivery_good d before now rec t c s :
  healthy_record before → trim_space d = d →
  BindFinalDelivery_mutate d before now = Ok (rec, t, c, s) → good_change before rec.
Proof.
  intros Hh Htd Hm. unfold BindFinalDelivery_mutate in Hm. mutation.
  pose proof (healthy_facts _ Hh) as (Hk & (Hl & Hv & Hdt) & Hf & Hc & Ht).
  match goal with Hs : in_Status before = _ |- _ => rename Hs into Hst end.
  split; try done.
  - cbn [in_FinalDeliveryIDs update]. match goal with E : (_ <=? _)%nat = false |- _ => apply Nat.leb_gt in E end.
    cbn. rewrite length_app. cbn. split_and!; [lia| |].
    + apply validateFinalDeliveries_snoc; try done. by apply String.eqb_neq.
    + apply Forall_app. split; [done|by constructor].
Qed.

Lemma ClaimDeliveryUnknown_good d before now rec t c s :
  healthy_record before → 0 < now →
  ClaimDeliveryUnknown_mutate d before now = Ok (rec, t, c, s) → good_change before rec.
Proof.
  intros Hh Hn Hm. unfold ClaimDeliveryUnknown_mutate in Hm. mutation.
  match goal with Hs : in_Status before = _ |- _ => rename Hs into Hst end.
  apply change_fields; try done; [by rewrite Hst| |left; cbn; apply unconsumed; auto].
  unfold status_fields. cbn. eapply bare_answered; done.
Qed.

Lemma MarkResuming_good before now rec t c s :
  healthy_record before → MarkResuming_mutate before now = Ok (rec, t, c, s) → good_change before rec.
Proof.
  intros Hh Hm. unfold MarkResuming_mutate in Hm. mutation.
  destruct (in_Status before) eqn:Hs; try done.
  pose proof (healthy_facts _ Hh) as (_ & _ & Hf & _ & Ht). unfold status_fields in Hf. rewrite Hs in Hf.
  apply change_fields; try done.
  - cbn. lia.
  - by rewrite Hs.
  - unfold status_fields. cbn. split; [|lia]. by eapply answered_ext; [..|exact Hf].
  - left. cbn. apply unconsumed; auto.
Qed.

(** The status is kept and no field the validation reads is touched. *)
Lemma kept_good before rec :
  healthy_record before → same_static before rec → in_Revision rec = in_Revision before →
  in_LastEventSeq rec = in_LastEventSeq before → in_FinalDeliveryIDs rec = in_FinalDeliveryIDs before →
  in_ResumeTries rec = in_ResumeTries before → in_Status rec = in_Status before →
  in_Outcome rec = in_Outcome before → in_Answer rec = in_Answer before →
  in_PromptDeliveryID rec = in_PromptDeliveryID before →
  in_ApprovalConsumedAt rec = in_ApprovalConsumedAt before → good_change before rec.
Proof.
  intros Hh Hs Hr Hq Hf Ht Hst Ho Ha Hp Hac.
  pose proof (healthy_facts _ Hh) as (Hk & _ & Hsf & Hc & _).
  pose proof Hs as (_ & _ & Hkind & _ & _ & _ & _ & _ & Hpa & _).
  apply change_fields; try done; try congruence; [lia| |].
  - unfold status_fields in *. rewrite Hst, Ha, Ho, Hp, Ht.
    destruct (in_Status before); try done; [|destruct Hsf as [Hsf ?]; split; [|done]..];
      (eapply answered_ext; [..|exact Hsf]; done).
  - unfold consumed_ok in *. by rewrite Hac, Hkind, Ho, Hst.
Qed.

Lemma RecordResumeFailure_good d before now rec t c s :
  healthy_record before → RecordResumeFailure_mutate d before now = Ok (rec, t, c, s) → good_change before rec.
Proof. intros Hh Hm. unfold RecordResumeFailure_mutate in Hm. mutation. by apply kept_good. Qed.
Lemma RecordOutcomeReceipts_good l before now rec t c s :
  healthy_record before → RecordOutcomeReceipts_mutate l before now = Ok (rec, t, c, s) → good_change before rec.
Proof. intros Hh Hm. unfold RecordOutcomeReceipts_mutate in Hm. mutation. by apply kept_good. Qed.

(** Moving to a status without fields of its own keeps the record valid. *)
Lemma stop_good before rec to :
  healthy_record before → validTransition (in_Status before) to = true →
  to = StatusCanceling ∨ to = StatusCancelled ∨ to = StatusFailed →
  same_static before rec → in_Revision rec = in_Revision before →
  in_LastEventSeq rec = in_LastEventSeq before → in_FinalDeliveryIDs rec = in_FinalDeliveryIDs before →
  in_ResumeTries rec = in_ResumeTries before → in_Status rec = to → in_Outcome rec = in_Outcome before →
  in_ApprovalConsumedAt rec = in_ApprovalConsumedAt before → good_change before rec.
Proof.
  intros Hh Hv Hto Hs Hr Hq Hf Ht Hst Ho Hac.
  pose proof (healthy_facts _ Hh) as (Hk & _ & Hsf & Hc & _).
  pose proof Hs as (_ & _ & Hkind & _).
  apply change_fields; try done.
  - lia.
  - rewrite Hst. by destruct Hto as [->|[->| ->]].
  - intros Hterm. by destruct (in_Status before).
  - unfold status_fields. rewrite Hst. by destruct Hto as [->|[->| ->]].
  - unfold consumed_ok in *. rewrite Hac, Hkind, Ho, Hst.
    destruct Hc as [?|(? & ? & _)]; [by left|right]. split_and!; try done; by destruct Hto as [->|[->| ->]].
Qed.

Lemma BeginCancellation_good code before now rec t c s :
  healthy_record before → BeginCancellation_mutate code before now = Ok (rec, t, c, s) → good_change before rec.
Proof.
  intros Hh Hm. unfold BeginCancellation_mutate in Hm. mutation.
  by apply (stop_good _ _ StatusCanceling); auto.
Qed.
Lemma Fail_good code detail before now rec t c s :
  healthy_record before → Fail_mutate code detail before now = Ok (rec, t, c, s) → good_change before rec.
Proof.
  intros Hh Hm. unfold Fail_mutate in Hm. mutation. by apply (stop_good _ _ StatusFailed); auto.
Qed.
Lemma transition_good to et code before now rec t c s :
  to = StatusResolved ∨ to = StatusCancelled →
  healthy_record before → transition_mutate to et code before now = Ok (rec, t, c, s) → good_change before rec.
Proof.
  intros Hto Hh Hm. unfold transition_mutate in Hm. mutation.
  destruct Hto as [->| ->]; [|by apply (stop_good _ _ StatusCancelled); auto].
  destruct (in_Status before) eqn:Hs; try done.
  pose proof (healthy_facts _ Hh) as (_ & _ & Hf & Hc & Ht). unfold status_fields in Hf. rewrite Hs in Hf.
  apply change_fields; try done.
  unfold consumed_ok in *. cbn. destruct Hc as [?|(? & ? & _)]; [by left|right]. by split_and!.
Qed.

(** ** Outcomes decided after the answer *)

Lemma unbound rec : healthy_record rec → in_Kind rec ≠ KindQuestion → in_ProtectedAnswer rec = None.
Proof.
  intros ((Hst & _)%valid_split & _) Hk. destruct Hst as (_ & _ & _ & _ & _ & _ & _ & _ & _ & _ & _ & Hb & _).
  destruct (in_ProtectedAnswer rec); [|done]. unfold validateProtectedAnswerBinding in Hb.
  apply reject_ok in Hb as [Hb _]. by rewrite bool_decide_eq_false_2 in Hb.
Qed.

(** Without a protected binding the outcome only matters to superseding
    guidance, which denies. *)
Lemma answered_outcome a b :
  in_Answer b = in_Answer a → in_Kind b = in_Kind a → in_ProtectedAnswer b = in_ProtectedAnswer a →
  in_ProtectedAnswer a = None → in_Outcome a ≠ OutcomeDenied →
  validStoredOutcome (in_Kind b) (in_Outcome b) = true → answered a → answered b.
Proof.
  unfold answered, validateStoredAnswer. intros -> -> -> Hb Hd Hv (Hr & _ & Ha). split_and!; [done..|].
  destruct (in_Answer a) as [ans|]; [|done]. revert Ha. rewrite !reject_ok. intros (? & ? & Ha).
  split_and!; [done..|]. rewrite Hb in *. case_bool_decide; [done|]. destruct (an_Superseded ans); [|done].
  apply reject_ok in Ha as [Ha _]. apply negb_false_iff in Ha. unfold validSupersedingAnswer in Ha.
  rewrite Hb, (bool_decide_eq_false_2 _ Hd), andb_false_r in Ha.
  by match type of Ha with (if ?c then _ else _) = _ => destruct c end.
Qed.

Lemma outcome_good before rec :
  healthy_record before → same_static before rec → in_Revision rec = in_Revision before →
  in_LastEventSeq rec = in_LastEventSeq before → in_FinalDeliveryIDs rec = in_FinalDeliveryIDs before →
  in_ResumeTries rec = in_ResumeTries before → in_Status rec = in_Status before →
  in_Answer rec = in_Answer before → in_Kind before ≠ KindQuestion → in_Outcome before ≠ OutcomeDenied →
  in_Status before = StatusClaimed ∨ in_Status before = StatusResuming →
  validStoredOutcome (in_Kind rec) (in_Outcome rec) = true → consumed_ok rec → good_change before rec.
Proof.
  intros Hh Hs Hr Hq Hf Ht Hst Ha Hk Ho Hor Hv Hc.
  pose proof (healthy_facts _ Hh) as (Hkn & _ & Hsf & _). pose proof (unbound _ Hh Hk) as Hb.
  pose proof Hs as (_ & _ & Hkind & _ & _ & _ & _ & _ & Hpa & _).
  assert (answered before → answered rec) as Hans by (intros; by eapply answered_outcome).
  apply change_fields; try done; try congruence; [lia|].
  unfold status_fields in *. rewrite Hst, Ht. destruct Hor as [E|E]; rewrite E in *; [auto|].
  destruct Hsf. auto.
Qed.

Lemma ConsumeApproval_good a b h before now rec t c s :
  healthy_record before → ConsumeApproval_mutate a b h before now = Ok (rec, t, c, s) → good_change before rec.
Proof.
  intros Hh Hm. unfold ConsumeApproval_mutate in Hm. apply reject_ok in Hm as [Hg Hm].
  rewrite !orb_false_iff, !negb_false_iff, !bool_decide_eq_true, Z.eqb_eq in Hg.
  destruct Hg as (((((((Hk & Hst) & Ho) & Hc) & _) & _) & _) & _).
  destruct (_ && _); injection Hm as <- <- <- <-; apply outcome_good; try done; try congruence; auto.
  - by left.
  - cbn. by rewrite Hk, Ho.
  - right. cbn. rewrite Hst. by auto.
Qed.

Lemma MarkApprovalDeliveryUnknown_good before now rec t c s :
  healthy_record before → MarkApprovalDeliveryUnknown_mutate before now = Ok (rec, t, c, s) →
  good_change before rec.
Proof.
  intros Hh Hm. unfold MarkApprovalDeliveryUnknown_mutate in Hm. mutation.
  apply outcome_good; try done; try congruence; auto.
  right. cbn. match goal with Hst : in_Status before = _ |- _ => rewrite Hst end. by auto.
Qed.

Lemma InvalidateExternalWait_good before now rec t c s :
  healthy_record before → InvalidateExternalWait_mutate before now = Ok (rec, t, c, s) → good_change before rec.
Proof.
  intros Hh Hm. unfold InvalidateExternalWait_mutate in Hm. mutation.
  match goal with
  | Hk : in_Kind before = _, Ho : in_Outcome before = _, Hs : _ && _ = false |- _ =>
      rename Hk into Hkind; rename Ho into Hout;
      rewrite andb_false_iff, !negb_false_iff, !bool_decide_eq_true in Hs
  end.
  apply outcome_good; try done; try congruence; cbn; [by rewrite Hkind|].
  left. cbn. pose proof (healthy_facts _ Hh) as (_ & _ & _ & Hc & _).
  destruct Hc as [?|(? & _)]; [done|congruence].
Qed.

Lemma ClaimExternalWait_good outcome before now rec t c s :
  outcome = OutcomeReady ∨ outcome = OutcomeUnavailable → 0 < now →
  healthy_record before → ClaimExternalWait_mutate outcome before now = Ok (rec, t, c, s) →
  good_change before rec.
Proof.
  intros Hout Hn Hh Hm. unfold ClaimExternalWait_mutate in Hm. mutation.
  match goal with Hs : in_Status before = _ |- _ => rename Hs into Hst end.
  match goal with Hs : in_Kind before = _ |- _ => rename Hs into Hk end.
  apply change_fields; try done; [by rewrite Hst| |left; cbn; apply unconsumed; auto].
  unfold status_fields. cbn [in_Status]. eapply bare_answered; [done|done| | |done]; cbn.
  - destruct (_ <=? _); [done|]. by destruct Hout as [->| ->].
  - rewrite Hk. destruct (_ <=? _); [done|]. by destruct Hout as [->| ->].
Qed.

(** ** Answers *)

(** What [prepare_answer] guarantees of the answer it returns. *)
Definition prepared (a : Answer) : Prop :=
  validBoundedString (an_Text a) MaxAnswerLength = true ∧ (size (an_Values a) ≤ MaxQuestions)%nat
  ∧ (length (an_Media a) ≤ MaxAnswerMedia)%nat
  ∧ existsb (fun ref => blank ref || negb (validBoundedString ref MaxAnswerMediaRefLength)) (an_Media a) = false
  ∧ (is_some (an_Protected a) = true → validateProtectedAnswerReceipt (an_Protected a) = Ok tt)
  ∧ trim_space (an_MessageID a) = an_MessageID a.

Lemma trim_bounded s n : validBoundedString s n = true → validBoundedString (trim_space s) n = true.
Proof.
  unfold validBoundedString. rewrite !andb_true_iff, !Z.leb_le. intros [Hv Hl].
  destruct (trim_space_valid _ Hv). split; [done|lia].
Qed.

Lemma trim_media_ok l : ∀ media,
  trim_media l = Ok media → length media = length l ∧
  existsb (fun ref => blank ref || negb (validBoundedString ref MaxAnswerMediaRefLength)) media = false.
Proof.
  induction l as [|ref l IH]; intros media; cbn [trim_media]; [by intros [= <-]|].
  rewrite reject_ok. intros [Hg Hm]. apply result_bind_ok in Hm as (rest & Hrest & [= <-]).
  destruct (IH _ Hrest) as [Hl He]. cbn [length existsb]. rewrite He, Hl, blank_trim.
  apply orb_false_iff in Hg as [Hb Hv]. unfold blank. by rewrite Hb, Hv.
Qed.

Lemma prepare_answer_ok answer a :
  prepare_answer answer = Ok a →
  prepared a ∧ an_ReceivedAt a = an_ReceivedAt answer ∧ an_MessageID a = trim_space (an_MessageID answer).
Proof.
  unfold prepare_answer. rewrite bind_unit_ok, reject_ok. intros (Hp & Hg & Hm).
  apply result_bind_ok in Hm as (media & Hmedia & Hm). apply reject_ok in Hm as [_ [= <-]].
  rewrite !orb_false_iff, negb_false_iff, !Nat.ltb_ge in Hg. destruct Hg as ((Ht & Hv) & Hl).
  destruct (trim_media_ok _ _ Hmedia) as [Hlm Hem]. split; [|done]. unfold prepared. split_and!.
  - by apply trim_bounded.
  - cbn. by rewrite map_size_fmap.
  - cbn in Hl |- *. by rewrite Hlm.
  - done.
  - intros Hs. cbn in Hs, Hp |- *. by rewrite Hs in Hp.
  - apply trim_space_idem.
Qed.

Definition claimable (o : Outcome) : Prop := o = OutcomeAnswered ∨ o = OutcomeAllowed ∨ o = OutcomeDenied.

(** The answer [claim] stores when it is in time. *)
Definition received (answer : Answer) (now : Z) : Answer :=
  if an_ReceivedAt answer =? 0 then answer <| an_ReceivedAt := now |> else answer.
Lemma received_fields answer now :
  an_Text (received answer now) = an_Text answer ∧ an_Values (received answer now) = an_Values answer
  ∧ an_Media (received answer now) = an_Media answer ∧ an_Choice (received answer now) = an_Choice answer
  ∧ an_Superseded (received answer now) = an_Superseded answer
  ∧ an_Protected (received answer now) = an_Protected answer
  ∧ an_MessageID (received answer now) = an_MessageID answer.
Proof. unfold received. by destruct (_ =? _). Qed.

Lemma superseding_ext a b x y o :
  in_ProtectedAnswer b = in_ProtectedAnswer a → in_Kind b = in_Kind a → an_Values y = an_Values x →
  an_Protected y = an_Protected x → an_Text y = an_Text x → an_Media y = an_Media x →
  an_Choice y = an_Choice x → validSupersedingAnswer b y o = validSupersedingAnswer a x o.
Proof. unfold validSupersedingAnswer. by intros -> -> -> -> -> -> ->. Qed.

(** The checks of [claim] are those of the stored answer. *)
Lemma claimed_answer before answer outcome now rec :
  healthy_record before → prepared answer → claimable outcome → 0 ≤ an_ReceivedAt answer → 0 < now →
  in_Kind before ≠ KindExternalWait →
  (in_Kind before = KindQuestion → outcome = OutcomeAnswered) →
  (in_Kind before = KindApproval → outcome = OutcomeAllowed ∨ outcome = OutcomeDenied) →
  (if an_Superseded answer then validSupersedingAnswer before answer outcome = true
   else an_Choice answer = no_choice ∧ length (an_Media answer) = 0%nat ∧
     if is_some (in_ProtectedAnswer before)
     then is_some (an_Protected answer) = true ∧ an_Text answer = "" ∧ size (an_Values answer) = 0%nat
     else is_some (an_Protected answer) = false) →
  same_static before rec → in_Outcome rec = outcome → in_Answer rec = Some (received answer now) →
  answered rec.
Proof.
  intros Hh (Ht & Hv & Hl & He & Hp & _) Hcl Hra Hn Hk Hq Hap Hcase Hs Ho Ha.
  destruct (received_fields answer now) as (Ft & Fv & Fm & Fc & Fs & Fp & _).
  destruct Hs as (_ & _ & Hkind & _ & _ & _ & _ & _ & Hpa & _).
  pose proof Hh as ((Hst & _)%valid_split & _). destruct Hst as (_ & _ & _ & _ & Hvk & _).
  unfold answered, validateStoredAnswer. rewrite Ha, Ho, Hkind, Hpa, Ft, Fv, Fm, Fc, Fs, Fp. split_and!.
  - unfold received. destruct (an_ReceivedAt answer =? 0) eqn:E; cbn; [done|]. apply Z.eqb_neq in E. lia.
  - destruct (in_Kind before) eqn:Ek; try done; [by rewrite Hq|].
    by destruct (Hap eq_refl) as [->| ->].
  - apply Nat.ltb_ge in Hv, Hl. rewrite Ht, Hv, Hl, He. cbn [negb orb].
    rewrite bool_decide_eq_false_2 by done. destruct (an_Superseded answer).
    { rewrite (superseding_ext before _ answer) by done. by rewrite Hcase. }
    destruct Hcase as (-> & Hm & Hcase). rewrite Hm. rewrite bool_decide_eq_true_2 by done. cbn [negb].
    destruct (in_ProtectedAnswer before) as [pb|] eqn:Epb; cbn [is_some] in Hcase.
    + destruct Hcase as (Hsome & -> & ->). cbn [negb orb String.eqb Nat.eqb].
      rewrite Hq by (destruct (decide (in_Kind before = KindQuestion)); [done|];
                     by rewrite (unbound before) in Epb).
      rewrite bool_decide_eq_true_2 by done. by rewrite Hp.
    + rewrite Hcase. by cbn.
Qed.

Lemma claim_good r answer outcome before now rec t c s :
  healthy_record before → prepared answer → claimable outcome → 0 ≤ an_ReceivedAt answer → 0 < now →
  claim_mutate r answer outcome before now = Ok (rec, t, c, s) → good_change before rec.
Proof.
  intros Hh Hp Hcl Hra Hn Hm. unfold claim_mutate in Hm.
  rewrite !reject_ok, bool_decide_eq_false, negb_false_iff, bool_decide_eq_true in Hm.
  destruct Hm as (Hk & Hst & Hm).
  destruct (_ && _) in Hm.
  - injection Hm as <- <- <- <-.
    apply change_fields; try done; [by rewrite Hst| |left; cbn; apply unconsumed; auto].
    unfold status_fields. cbn [in_Status]. by eapply bare_answered.
  - rewrite reject_ok, bind_unit_ok, !reject_ok in Hm.
    destruct Hm as (Hq & Hcase & Hmedia & Hap & _ & _ & Hm). injection Hm as <- <- <- <-.
    apply change_fields; try done; [by rewrite Hst| |left; cbn; apply unconsumed; auto].
    unfold status_fields. cbn [in_Status]. eapply (claimed_answer before answer outcome now); try done.
    + intros Hk'. rewrite bool_decide_eq_true_2 in Hq by done. cbn in Hq.
      by apply negb_false_iff, bool_decide_eq_true in Hq.
    + intros Hk'. rewrite bool_decide_eq_true_2 in Hap by done. cbn in Hap.
      rewrite andb_false_iff, !negb_false_iff, !bool_decide_eq_true in Hap. done.
    + clear - Hcase Hmedia. destruct (an_Superseded answer).
      * by apply reject_ok in Hcase as [?%negb_false_iff _].
      * cbn in Hmedia. apply negb_false_iff, Nat.eqb_eq in Hmedia.
        case_bool_decide as Hc; [|done]. cbn in Hcase. split_and!; [done..|].
        destruct (is_some (in_ProtectedAnswer before)); apply reject_ok in Hcase as [Hcase _]; [|done].
        rewrite !orb_false_iff, !negb_false_iff, String.eqb_eq, !Nat.eqb_eq in Hcase. tauto.
Qed.

(** ** New records *)

Lemma normalizeRoute_ok route : Route_validate route = Ok tt → Route_validate (normalizeRoute route) = Ok tt.
Proof. unfold Route_validate. cbn -[trim_space blank]. by rewrite !blank_trim. Qed.

Lemma normalizeOrigin_ok o : Origin_validate o = Ok tt → Origin_validate (normalizeOrigin o) = Ok tt.
Proof.
  unfold Origin_validate. rewrite !reject_ok. cbn -[trim_space blank]. rewrite !blank_trim, trim_space_idem, String.eqb_refl.
  rewrite !orb_false_iff, !negb_false_iff. intros (? & [Ht ?] & _). apply String.eqb_eq in Ht.
  by rewrite <- Ht.
Qed.

Lemma normalized_wait k ref o :
  validateExternalWait k ref (Some o) = Ok tt → validateExternalWait k ref (Some (normalizeOrigin o)) = Ok tt.
Proof.
  unfold validateExternalWait. destruct (negb _); [done|]. cbn -[trim_space blank]. by rewrite blank_trim, cloneExecutionContext_id.
Qed.

Lemma normalized_metadata k ctx action :
  validateInteractionMetadata k ctx action = Ok tt →
  validateInteractionMetadata k (cloneExecutionContext ctx) (bounded (trim_space action) MaxApprovalAction) = Ok tt.
Proof.
  unfold validateInteractionMetadata. rewrite cloneExecutionContext_id. destruct (negb _).
  - rewrite !reject_ok. intros [Hb ?]. split; [|done]. unfold blank in Hb.
    apply negb_false_iff, String.eqb_eq in Hb. by rewrite Hb.
  - destruct ctx as [ctx|]; [|done]. rewrite !reject_ok. intros [Hb ?]. split; [|done].
    apply orb_false_iff in Hb as [Hb Hv%negb_false_iff]. apply trim_bounded in Hv.
    unfold bounded. pose proof Hv as Hv'. unfold validBoundedString in Hv'. apply andb_true_iff in Hv' as [_ ->].
    by rewrite blank_trim, Hb, Hv.
Qed.

Definition language_stable (v : string) : Prop :=
  ∀ c, CanonicalPromptLanguage v = Ok c → CanonicalPromptLanguage c = Ok c.

Lemma buildRecord_ok req random now rec :
  0 < now → language_stable (rq_PromptLanguage req) → buildRecord req random now = Ok rec →
  in_Status rec = StatusCreated ∧ in_Answer rec = None ∧ in_LastEventSeq rec = 0 ∧ in_Revision rec = 1
  ∧ trim_space (og_TaskID (in_Origin rec)) = og_TaskID (in_Origin rec)
  ∧ in_UpdatedAt rec = now ∧ in_CreatedAt rec = now
  ∧ healthy_record (rec <| in_LastEventSeq := 1 |>).
Proof.
  intros Hn Hls. unfold buildRecord. repeat first [rewrite reject_ok | rewrite bind_unit_ok].
  intros (Hvk & Hew & Hro & Hor & Hh & Hmd & Hqs & Hpb & Hm). apply negb_false_iff in Hvk, Hh.
  apply result_bind_ok in Hm as (lang & Hlang & Hm). apply result_bind_ok in Hm as (id & Hid & Hm).
  apply reject_ok in Hm as [Hg Hm]. apply result_bind_ok in Hm as (receipts & _ & Hm).
  destruct (rq_ExpiresAt req) as [ex|]; [|done]. apply reject_ok in Hm as [Hex Hm].
  injection Hm as <-. apply Z.leb_gt in Hex.
  rewrite !orb_false_iff, negb_false_iff in Hg. destruct Hg as (_ & Hre). destruct (trim_id _ Hre) as [Htid Hne].
  split_and!; try done; [apply trim_space_idem|]. split_and!; [|apply trim_space_idem|constructor|done].
  apply valid_split. split.
  - unfold static_ok. split_and!; try done.
    + unfold blank. cbn -[trim_space blank]. rewrite Htid. by apply String.eqb_neq.
    + by apply normalized_wait.
    + by apply normalizeRoute_ok.
    + by apply normalizeOrigin_ok.
    + unfold validArgumentHashForKind in *. cbn -[trim_space blank]. by rewrite trim_space_idem.
    + by apply normalized_metadata.
    + cbn -[trim_space blank]. destruct (String.eqb (rq_PromptLanguage req) ""); [injection Hlang as <-; by left|].
      right. by apply Hls.
  - unfold dynamic_ok. split_and!; try done; cbn; [unfold MaxFinalDeliveries; lia|by left].
Qed.
End health.
