(* ===== verification/InteractionInvariant.v ===== *)
(** Retention of the interaction registry, the binary search that trims the
    event log; and what keeps a registry healthy: replacing or adding a record
    with its event, deleting records, dropping old events, reloading, saving. *)
From S2P Require Import Prelude GoStrings GoJson TaskResult CodingScope BusInbound InteractionTypes.
From S2P Require Import InteractionRegistry InteractionStore InteractionHealth.

(** ** Binary search *)

(** On a monotone test the search returns the least position that passes, and
    [best] when none does. *)
Lemma find_drop_loop_least (fits : Z → bool) fuel : ∀ low high best,
  high - low + 1 ≤ Z.of_nat fuel →
  (∀ i j, low ≤ i ≤ j → j ≤ high → fits i = true → fits j = true) →
  let d := find_drop_loop fuel fits low high best in
  (low ≤ d ≤ high ∧ fits d = true ∧ ∀ i, low ≤ i < d → fits i = false)
  ∨ (d = best ∧ ∀ i, low ≤ i ≤ high → fits i = false).
Proof.
  induction fuel as [|fuel IH]; intros low high best Hf Hmono; cbn [find_drop_loop].
  { right. split; [done|]. lia. }
  destruct (high <? low) eqn:Hlt; [right; split; [done|]; lia|]. apply Z.ltb_ge in Hlt.
  rewrite Z.quot_div_nonneg by lia. set (middle := low + (high - low) / 2).
  assert (low ≤ middle ≤ high) as Hmid.
  { pose proof (Z.mul_div_le (high - low) 2). pose proof (Z.div_pos (high - low) 2). subst middle. lia. }
  clearbody middle.
  destruct (fits middle) eqn:Hfit.
  - destruct (IH low (middle - 1) middle) as [(Hd & Hfd & Hleast)|(Hd & Hnone)]; [lia| | |].
    + intros i j Hij Hj. apply Hmono; lia.
    + left. split_and!; [lia|lia|done|done].
    + left. rewrite Hd. split_and!; [lia|lia|done|]. intros i Hi. apply Hnone. lia.
  - assert (∀ i, low ≤ i ≤ middle → fits i = false) as Hlow.
    { intros i Hi. destruct (fits i) eqn:E; [|done]. rewrite <- Hfit, (Hmono i middle); [done|lia|lia|done]. }
    destruct (IH (middle + 1) high best) as [(Hd & Hfd & Hleast)|(Hd & Hnone)]; [lia| | |].
    + intros i j Hij Hj. apply Hmono; lia.
    + left. split_and!; [lia|lia|done|]. intros i Hi.
      destruct (decide (i ≤ middle)); [apply Hlow|apply Hleast]; lia.
    + right. split; [done|]. intros i Hi. destruct (decide (i ≤ middle)); [apply Hlow|apply Hnone]; lia.
Qed.

Section events.
Context `{MapOrder} `{UnicodeCase} `{LanguageTags}.
Implicit Types (r : Registry) (rec : Record).

Lemma with_events_same r : with_events r (events r) = r.
Proof. by destruct r. Qed.

(** Dropping the oldest of two or more events makes the snapshot shorter. *)
Lemma snapshotSize_drop_one r e e' l :
  snapshotSizeLocked (with_events r (e' :: l)) ≤ snapshotSizeLocked (with_events r (e :: e' :: l)).
Proof.
  unfold snapshotSizeLocked, snapshot_text, marshal_indent, Snapshot_json, with_events.
  cbn [snapshotLocked sn_SchemaVersion sn_CommitSequence sn_Records sn_Events records events commitSequence
       Prelude.update eta_Registry flist_omit field fstr fint app render List.map fst snd].
  rewrite !len_app, !len_join_cons, !len_app by done. cbn [join]. rewrite !len_app.
  match goal with |- context [len (render ?nl ?d (Event_json e))] =>
    pose proof (len_nonneg (render nl d (Event_json e))) end.
  pose proof (len_nonneg (newline_at "" "  " 2)). pose proof (len_nonneg ","). lia.
Qed.

Lemma snapshotSize_drop r l i j :
  (i ≤ j < length l)%nat →
  snapshotSizeLocked (with_events r (drop j l)) ≤ snapshotSizeLocked (with_events r (drop i l)).
Proof.
  intros [Hij Hj]. induction Hij as [|j Hij IH]; [done|]. etrans; [|apply IH; lia].
  destruct (drop j l) as [|e l'] eqn:E.
  { apply (f_equal length) in E. rewrite length_drop in E. simpl in E. lia. }
  assert (drop (S j) l = l') as ->.
  { replace (S j) with (j + 1)%nat by lia. by rewrite <- drop_drop, E. }
  destruct l' as [|e' l']; [|apply snapshotSize_drop_one].
  apply (f_equal length) in E. rewrite length_drop in E. simpl in E. lia.
Qed.

(** The drop the search settles on: the least one after which the snapshot
    fits, none when keeping the newest event alone does not fit. *)
Definition least_drop r (original : list Event) (limit : Z) (found : option Z) : Prop :=
  let fits d := snapshotSizeLocked (with_events r (drop (Z.to_nat d) original)) ≤ limit in
  match found with
  | Some d => 1 ≤ d < Z.of_nat (length original) ∧ fits d ∧ ∀ i, 1 ≤ i < d → ¬ fits i
  | None => ∀ i, 1 ≤ i < Z.of_nat (length original) → ¬ fits i
  end.

Lemma findDrop_least r original limit : least_drop r original limit (findDrop r original limit).
Proof.
  unfold findDrop, least_drop.
  destruct (find_drop_loop_least (fits_dropped r original limit) (length original) 1
    (Z.of_nat (length original) - 1) (-1)) as [(Hd & Hfit & Hleast)|(Hd & Hnone)]; [lia| | |].
  - unfold fits_dropped. intros i j Hij Hj. rewrite !Z.leb_le. intros Hi. etrans; [|exact Hi].
    apply snapshotSize_drop. lia.
  - destruct (Z.leb_spec 0 (find_drop_loop (length original) (fits_dropped r original limit) 1
      (Z.of_nat (length original) - 1) (-1))); [|lia].
    split_and!; [lia|lia|by apply Z.leb_le|]. intros i Hi. apply Z.nle_gt, Z.leb_gt. apply Hleast. lia.
  - rewrite Hd. cbn. intros i Hi. apply Z.nle_gt, Z.leb_gt. apply Hnone. lia.
Qed.

(** ** The event trim *)

Lemma trimBudget_shape r :
  ∃ n, (trimEventsToSnapshotBudgetLocked r).1 = with_events r (drop n (events r))
    ∧ (n = 0 ∨ n < length (events r))%nat.
Proof.
  assert (∃ n, r = with_events r (drop n (events r)) ∧ (n = 0 ∨ n < length (events r))%nat) as Hsame
    by (exists 0%nat; split; [symmetry; apply with_events_same|by left]).
  unfold trimEventsToSnapshotBudgetLocked. destruct (_ || _); [done|]. destruct (_ <=? _); [done|].
  pose proof (findDrop_least r (events r) (Z.quot (MaxSnapshotBytes (options r) * 3) 4)) as H1'.
  pose proof (findDrop_least r (events r) (MaxSnapshotBytes (options r))) as H2'.
  destruct (findDrop r _ (Z.quot _ 4)) as [d|]; [|destruct (findDrop r _ _) as [d|]]; [..|done].
  - destruct H1' as (? & _). exists (Z.to_nat d). split; [done|]. right. lia.
  - destruct H2' as (? & _). exists (Z.to_nat d). split; [done|]. right. lia.
Qed.

Definition live_events r : list Event :=
  filter (fun e => is_Some (records r !! ie_InteractionID e)) (events r).

(** A trim drops the events of deleted records, then the oldest ones; the
    newest stays. *)
Lemma trimEvents_shape r :
  ∃ n, (trimEventsLocked r).1 = with_events r (drop n (live_events r))
    ∧ (1 ≤ MaxEvents (options r) → (n = 0 ∨ n < length (live_events r))%nat).
Proof.
  unfold trimEventsLocked. fold (live_events r).
  change (options (with_events r (live_events r))) with (options r).
  change (events (with_events r (live_events r))) with (live_events r).
  assert (∀ n, ∃ k, (trimEventsToSnapshotBudgetLocked (with_events r (drop n (live_events r)))).1
    = with_events r (drop k (live_events r)) ∧ (k = n ∨ n ≤ k < length (live_events r))%nat) as Hk.
  { intros n. destruct (trimBudget_shape (with_events r (drop n (live_events r)))) as (k & Hk & Hlt).
    exists (n + k)%nat. rewrite Hk, <- drop_drop. split; [by destruct r|].
    cbn [with_events events Prelude.update eta_Registry] in Hlt. rewrite length_drop in Hlt. lia. }
  destruct (_ <? _) eqn:E.
  - destruct (Hk (length (live_events r) - Z.to_nat (MaxEvents (options r)))%nat) as (k & Hk' & Hlt).
    exists k. unfold last_n. apply Z.ltb_lt in E. split; [|lia]. rewrite <- Hk'.
    by destruct (trimEventsToSnapshotBudgetLocked _).
  - destruct (Hk 0%nat) as (k & Hk' & Hlt). exists k. split; [|lia]. rewrite <- Hk'. rewrite drop_0.
    by destruct (trimEventsToSnapshotBudgetLocked _).
Qed.

Lemma trimEvents_newest r e l :
  1 ≤ MaxEvents (options r) → events r = l ++ [e] → is_Some (records r !! ie_InteractionID e) →
  last (events (trimEventsLocked r).1) = Some e.
Proof.
  intros Hm He Hs. destruct (trimEvents_shape r) as (n & -> & Hn). specialize (Hn Hm).
  cbn [with_events events Prelude.update eta_Registry].
  assert (live_events r = filter (fun e => is_Some (records r !! ie_InteractionID e)) l ++ [e]) as Hl.
  { unfold live_events. rewrite He, filter_app. f_equal. by rewrite filter_cons_True. }
  rewrite Hl in *. rewrite length_app in Hn. cbn in Hn.
  rewrite drop_app_le by lia. by rewrite last_snoc.
Qed.

Lemma trim_length r :
  Z.of_nat (length (events (trimEventsLocked r).1)) ≤ Z.max 0 (MaxEvents (options r)).
Proof.
  unfold trimEventsLocked. fold (live_events r).
  change (options (with_events r (live_events r))) with (options r).
  change (events (with_events r (live_events r))) with (live_events r).
  destruct (_ <? _) eqn:E.
  - match goal with |- context [trimEventsToSnapshotBudgetLocked ?x] =>
      destruct (trimBudget_shape x) as (n & Hn & _); destruct (trimEventsToSnapshotBudgetLocked x) as [r' b] end.
    cbn [fst] in *. rewrite Hn. cbn. unfold last_n. rewrite !length_drop. lia.
  - apply Z.ltb_ge in E.
    match goal with |- context [trimEventsToSnapshotBudgetLocked ?x] =>
      destruct (trimBudget_shape x) as (n & Hn & _); destruct (trimEventsToSnapshotBudgetLocked x) as [r' b] end.
    cbn [fst] in *. rewrite Hn. cbn. rewrite !length_drop. lia.
Qed.
End events.

(** * Healthy registries

    What keeps an interaction registry healthy: replacing or adding a record
    with its event, deleting records, dropping old events, reloading and
    saving. *)

(** ** Keys, pairwise *)

Section keys.
Context {K : Type} `{Countable K}.
Implicit Types (f : Record → list K) (m : gmap string Record).

Definition distinct_keys f m : Prop :=
  ∀ i j a b k, m !! i = Some a → m !! j = Some b → k ∈ f a → k ∈ f b → i = j.

Lemma nodup_values f m : (∀ rec, NoDup (f rec)) → NoDup (values m ≫= f) ↔ distinct_keys f m.
Proof.
  intros Hf. unfold values. induction m as [|i x m Hi IH] using map_ind.
  { rewrite map_to_list_empty. split; [|by constructor]. intros _ ? ? ? ? ? Hl. by rewrite lookup_empty in Hl. }
  assert ((map_to_list (<[i:=x]> m)).*2 ≫= f ≡ₚ f x ++ ((map_to_list m).*2 ≫= f)) as ->
    by (by rewrite (map_to_list_insert _ _ _ Hi)).
  rewrite NoDup_app, IH. split.
  - intros (_ & Hd & Hm) j1 j2 a b k.
    assert (∀ j c, m !! j = Some c → k ∈ f x → k ∈ f c → False) as Hx.
    { intros j c Hj Hkx Hkc. apply (Hd k Hkx). apply list_elem_of_bind. exists c. split; [done|].
      apply elem_of_values. eauto. }
    intros [[<- <-]|[? Ha]]%lookup_insert_Some [[<- <-]|[? Hb]]%lookup_insert_Some Hka Hkb; try done.
    + by destruct (Hx _ _ Hb).
    + by destruct (Hx _ _ Ha).
    + by apply (Hm _ _ _ _ _ Ha Hb Hka).
  - intros Hall. split_and!; [done| |].
    + intros k Hkx (c & Hkc & (j & Hj)%elem_of_values)%list_elem_of_bind.
      assert (i = j) as <-; [|congruence].
      eapply (Hall i j x c k); [apply lookup_insert_eq|rewrite lookup_insert_ne; congruence|done|done].
    + intros j1 j2 a b k Ha Hb. apply Hall; rewrite lookup_insert_ne; congruence.
Qed.

Lemma distinct_keys_sub f m m' : m' ⊆ m → distinct_keys f m → distinct_keys f m'.
Proof. intros Hs Hd i j a b k Ha Hb. eapply Hd; by eapply lookup_weaken. Qed.

(** The record under [id] may take any key no other record has. *)
Lemma distinct_keys_insert f m id x :
  distinct_keys f m → (∀ j b k, j ≠ id → m !! j = Some b → k ∈ f x → k ∉ f b) →
  distinct_keys f (<[id := x]> m).
Proof.
  intros Hd Hx i j a b k.
  intros [[<- <-]|[? Ha]]%lookup_insert_Some [[<- <-]|[? Hb]]%lookup_insert_Some Hka Hkb; try done.
  - by destruct (Hx j b k).
  - by destruct (Hx i a k).
  - by eapply Hd.
Qed.

(** Keys taken over from the record that is replaced are no one else's. *)
Lemma distinct_keys_replace f m id x y :
  distinct_keys f m → m !! id = Some y → (∀ k, k ∈ f x → k ∈ f y) → distinct_keys f (<[id := x]> m).
Proof.
  intros Hd Hy Hk. apply distinct_keys_insert; [done|]. intros j b k Hne Hb Hkx Hkb.
  apply Hne. symmetry. by apply (Hd id j y b k); auto.
Qed.
End keys.

Section invariant.
Context `{MapOrder} `{UnicodeCase} `{LanguageTags}.
Implicit Types (r : Registry) (rec : Record).

Lemma healthy_content r r' :
  records r' = records r → events r' = events r → commitSequence r' = commitSequence r → healthy r → healthy r'.
Proof. intros Hr He Hc []. by split; rewrite ?Hr, ?He, ?Hc. Qed.

Lemma healthy_empty r : healthy (emptied r).
Proof.
  split; cbn; try (by constructor); try apply map_Forall_empty.
  all: try (unfold values; rewrite map_to_list_empty; constructor).
Qed.

(** ** Events *)

Lemma event_seqs_suffix id l n : event_seqs id (drop n l) `suffix_of` event_seqs id l.
Proof. rewrite <- (take_drop n l) at 2. rewrite event_seqs_app. by eexists. Qed.

Lemma event_seqs_live id (m : gmap string Record) l :
  event_seqs id (filter (fun e => is_Some (m !! ie_InteractionID e)) l)
  = if decide (is_Some (m !! id)) then event_seqs id l else [].
Proof.
  unfold event_seqs. induction l as [|e l IH]; [by case_decide|]. rewrite filter_cons.
  destruct (decide (ie_InteractionID e = id)) as [He|He].
  - subst id. rewrite (filter_cons_True _ e l) by done. rewrite fmap_cons. revert IH.
    case_decide; intros IH; [|done]. by rewrite filter_cons_True, fmap_cons, IH.
  - rewrite (filter_cons_False _ e l) by done. rewrite <- IH.
    match goal with |- context [if decide (is_Some (m !! ie_InteractionID e)) then _ else _] =>
      destruct (decide (is_Some (m !! ie_InteractionID e))); [by rewrite filter_cons_False|done] end.
Qed.

Lemma suffix_last {A} (l l' : list A) x : l `suffix_of` l' → last l = Some x → last l' = Some x.
Proof. intros [k ->] Hl. by rewrite last_app, Hl. Qed.

(** Deleting records with their events, and the oldest events, keeps a
    registry healthy. *)
Lemma healthy_shrink r r' n :
  healthy r → records r' ⊆ records r →
  events r' = drop n (filter (fun e => is_Some (records r' !! ie_InteractionID e)) (events r)) →
  commitSequence r' = commitSequence r → healthy r'.
Proof.
  intros Hh Hsub Hev Hc.
  assert (∀ e, e ∈ events r' → e ∈ events r ∧ is_Some (records r' !! ie_InteractionID e)) as Hin.
  { intros e. rewrite Hev. intros He%subseteq_drop. by apply list_elem_of_filter in He as [? ?]. }
  assert (events r' `sublist_of` events r) as Hsl.
  { rewrite Hev. etrans; [apply sublist_drop|apply sublist_filter]. }
  assert (∀ id, event_seqs id (events r') `suffix_of` event_seqs id (events r)) as Hsuf.
  { intros id. rewrite Hev. etrans; [apply event_seqs_suffix|]. rewrite event_seqs_live.
    case_decide; [done|apply suffix_nil]. }
  destruct Hh as [h1 h2 h3 h4 h5 h6 h7 h8 h9 [h10 h11]].
  rewrite nodup_values in h2, h3, h4 by auto with go. rewrite nodup_values in h5 by auto with go.
  split; rewrite ?nodup_values by auto with go.
  - intros id rec Hid. apply h1. by eapply lookup_weaken.
  - by eapply distinct_keys_sub.
  - by eapply distinct_keys_sub.
  - by eapply distinct_keys_sub.
  - by eapply distinct_keys_sub.
  - apply Forall_forall. intros e He. destruct (Hin e He) as [He' [rec Hrec]].
    rewrite Forall_forall in h6. destruct (h6 e He') as (? & ? & ? & rec' & Hrec' & ?).
    split_and!; try done. exists rec'. split; [|done]. rewrite Hrec. f_equal.
    pose proof (lookup_weaken _ _ _ _ Hrec Hsub). congruence.
  - intros id. destruct (Hsuf id) as [k Hk]. specialize (h7 id). rewrite Hk in h7. by eapply consecutive_suffix.
  - intros id rec Hid. destruct (last (event_seqs id (events r'))) eqn:E; [|done].
    specialize (h8 id rec (lookup_weaken _ _ _ _ Hid Hsub)). by rewrite (suffix_last _ _ _ (Hsuf id) E) in h8.
  - eapply increasing_from_sublist; [|exact h9]. by apply fmap_sublist.
  - rewrite Hc. split; [done|]. apply Forall_forall. intros e [He _]%Hin. rewrite Forall_forall in h11. by apply h11.
Qed.

(** ** One record with its event *)

(** The number of events a record has had, [0] before it exists. *)
Definition seq_of (m : gmap string Record) (id : string) : Z :=
  match m !! id with Some rec => in_LastEventSeq rec | None => 0 end.
Definition revision_of (m : gmap string Record) (id : string) : Z :=
  match m !! id with Some rec => in_Revision rec | None => 0 end.

Definition advanced r (id : string) rec (e : Event) : Registry :=
  r <| records ::= <[id := rec]> |> <| events ::= fun l => l ++ [e] |> <| commitSequence ::= Z.succ |>.

Record advances r (id : string) rec (e : Event) : Prop := {
  ad_id : in_ID rec = id;
  ad_record : healthy_record rec;
  ad_seq : in_LastEventSeq rec = seq_of (records r) id + 1;
  ad_revision : revision_of (records r) id ≤ in_Revision rec;
  ad_schema : ie_SchemaVersion e = EventSchemaVersion;
  ad_type : ie_Type e ≠ EventTypeOther "";
  ad_event_id : ie_InteractionID e = id;
  ad_event_seq : ie_Sequence e = in_LastEventSeq rec;
  ad_event_revision : ie_Revision e = in_Revision rec;
  ad_commit : ie_CommitSequence e = commitSequence r + 1;
  ad_sessions : ∀ j b k, j ≠ id → records r !! j = Some b → k ∈ session_keys rec → k ∉ session_keys b;
  ad_shorts : ∀ j b k, j ≠ id → records r !! j = Some b → k ∈ short_keys rec → k ∉ short_keys b;
  ad_tasks : ∀ j b k, j ≠ id → records r !! j = Some b → k ∈ task_keys rec → k ∉ task_keys b;
  ad_messages : ∀ j b k, j ≠ id → records r !! j = Some b → k ∈ message_keys rec → k ∉ message_keys b }.

Lemma healthy_id rec : healthy_record rec → in_ID rec ≠ "" ∧ 0 < in_LastEventSeq rec ∧ 0 < in_Revision rec.
Proof.
  intros ((Hs & Hd)%valid_split & _). destruct Hs as (Hb & _). destruct Hd as (? & ? & _).
  split_and!; [|done..]. intros Hid. by rewrite Hid in Hb.
Qed.

Lemma advanced_events r id rec e :
  healthy r → advances r id rec e → Forall (event_ok (<[id := rec]> (records r))) (events r ++ [e]).
Proof.
  intros Hh Ha. destruct (healthy_id _ (ad_record _ _ _ _ Ha)) as (Hne & Hs & Hrev).
  apply Forall_app. split.
  - eapply Forall_impl; [apply Hh|]. intros x (? & ? & ? & y & Hy & ? & ?). split_and!; try done.
    destruct (decide (ie_InteractionID x = id)) as [Hx|Hx].
    + exists rec. rewrite Hx, lookup_insert_eq. split; [done|].
      pose proof (ad_seq _ _ _ _ Ha) as Has. pose proof (ad_revision _ _ _ _ Ha) as Har.
      unfold seq_of, revision_of in *. rewrite <- Hx, Hy in *. lia.
    + exists y. by rewrite lookup_insert_ne.
  - constructor; [|constructor]. destruct Ha. split_and!; try congruence.
    exists rec. rewrite ad_event_id0, lookup_insert_eq. split; [done|]. lia.
Qed.

(** Events of an interaction that has no record do not exist. *)
Lemma no_record_no_events r id : healthy r → records r !! id = None → event_seqs id (events r) = [].
Proof.
  intros Hh Hid. unfold event_seqs.
  assert (filter (fun e => ie_InteractionID e = id) (events r) = []) as ->; [|done].
  destruct (filter _ _) as [|e l] eqn:E; [done|].
  assert (e ∈ filter (fun e => ie_InteractionID e = id) (events r)) as He by (rewrite E; by left).
  apply list_elem_of_filter in He as [He1 He2]. pose proof (h_events _ Hh) as Hev. rewrite Forall_forall in Hev.
  destruct (Hev e He2) as (_ & _ & _ & rec & Hrec & _). congruence.
Qed.

(** The stream of a record ends at its counter. *)
Lemma stream_last r id n :
  healthy r → last (event_seqs id (events r)) = Some n → n = seq_of (records r) id.
Proof.
  intros Hh Hl. unfold seq_of. destruct (records r !! id) as [rec|] eqn:Hid.
  - pose proof (h_tails _ Hh _ _ Hid) as Ht. by rewrite Hl in Ht.
  - by rewrite (no_record_no_events _ _ Hh Hid) in Hl.
Qed.

Lemma advanced_streams r id rec e id' :
  healthy r → advances r id rec e → consecutive (event_seqs id' (events r ++ [e])).
Proof.
  intros Hh Ha. rewrite event_seqs_app, event_seqs_cons. pose proof (h_streams _ Hh id') as Hc.
  case_decide as Hid; [|by rewrite app_nil_r].
  destruct (last (event_seqs id' (events r))) as [n|] eqn:Hl.
  - pose proof (stream_last _ _ _ Hh Hl) as ->. apply last_Some in Hl as [l' Hl']. rewrite Hl' in *.
    rewrite <- (assoc_L (++)). apply consecutive_app; [done|]. cbn. split; [|done].
    rewrite (ad_event_seq _ _ _ _ Ha), (ad_seq _ _ _ _ Ha), <- Hid. by rewrite (ad_event_id _ _ _ _ Ha).
  - apply last_None in Hl. by rewrite Hl.
Qed.

Lemma advanced_healthy r id rec e : healthy r → advances r id rec e → healthy (advanced r id rec e).
Proof.
  intros Hh Ha. pose proof Hh as [h1 h2 h3 h4 h5 h6 h7 h8 h9 [h10 h11]].
  rewrite nodup_values in h2, h3, h4 by auto with go. rewrite nodup_values in h5 by auto with go.
  pose proof (ad_commit _ _ _ _ Ha) as Hcm.
  assert (records (advanced r id rec e) = <[id := rec]> (records r)) as Hr by done.
  assert (events (advanced r id rec e) = events r ++ [e]) as He by done.
  assert (commitSequence (advanced r id rec e) = commitSequence r + 1) as Hc by done.
  split; rewrite ?nodup_values by auto with go; rewrite ?Hr, ?He, ?Hc.
  - apply map_Forall_insert_2; [split; apply Ha|done].
  - apply distinct_keys_insert; [done|apply Ha].
  - apply distinct_keys_insert; [done|apply Ha].
  - apply distinct_keys_insert; [done|apply Ha].
  - apply distinct_keys_insert; [done|apply Ha].
  - by apply advanced_events.
  - intros id'. by eapply advanced_streams.
  - intros id' rec'. rewrite event_seqs_app, event_seqs_cons.
    change (event_seqs id' []) with (@nil Z).
    destruct (decide (id = id')) as [->|Hne].
    + rewrite lookup_insert_eq. intros [= <-]. rewrite decide_True by apply Ha.
      rewrite last_snoc. apply Ha.
    + rewrite lookup_insert_ne by done. intros Hid. rewrite decide_False by (by rewrite (ad_event_id _ _ _ _ Ha)).
      rewrite app_nil_r. by apply h8.
  - rewrite fmap_app. apply increasing_from_app; [done|lia|]. intros y (x & -> & Hx)%list_elem_of_fmap.
    rewrite Forall_forall in h11. specialize (h11 x Hx). lia.
  - split; [lia|]. apply Forall_app. split; [|constructor; [lia|constructor]].
    eapply Forall_impl; [exact h11|]. cbn. lia.
Qed.
End invariant.
