(* ===== verification/InteractionMachine.v ===== *)
(** The interaction registry as a machine: every operation of the registry is
    one constructor of [Op], and what it does to the records and the event log
    is a sequence of atomic steps. *)
From S2P Require Import Prelude GoStrings GoJson TaskResult CodingScope BusInbound InteractionTypes.
From S2P Require Import InteractionRegistry InteractionStore InteractionHealth InteractionInvariant.

(** What a load restores and a save writes. *)
Definition content (r : Registry) : gmap string Record * list Event * Z :=
  (records r, events r, commitSequence r).

(** What no operation changes but subscribing and closing. *)
Definition same_config (r r' : Registry) : Prop :=
  storePath r' = storePath r ∧ options r' = options r ∧ observers r' = observers r ∧ closed r' = closed r.
#[export] Instance same_config_preorder : PreOrder same_config.
Proof. split; unfold same_config; [done|]. intros r1 r2 r3. intuition congruence. Qed.

Lemma content_fields r r' :
  content r' = content r ↔
  records r' = records r ∧ events r' = events r ∧ commitSequence r' = commitSequence r.
Proof. unfold content. split; [by intros [= -> -> ->]|by intros (-> & -> & ->)]. Qed.

(** The methods built on [update]. *)
Inductive Change :=
| ChMarkWaiting
| ChBindPromptDelivery (deliveryID : string)
| ChBindFinalDelivery (deliveryID : string)
| ChClaimDeliveryUnknown (promptDeliveryID : string)
| ChClaimAnswer (answer : Answer) (outcome : Outcome)
| ChClaimProtectedAnswer (answer : Answer)
| ChMarkResuming
| ChRecordResumeFailure (detail : string)
| ChResolve
| ChCompleteCancellation
| ChCancel (code : string)
| ChConsumeApproval (toolCallID toolName argumentHash : string)
| ChMarkApprovalDeliveryUnknown
| ChBeginCancellation (code : string)
| ChFail (code detail : string)
| ChRecordOutcomeReceipts (receipts : list Receipt)
| ChClaimExternalWait (outcome : Outcome)
| ChInvalidateExternalWait.

Inductive Op :=
| OpCreate (req : CreateRequest) (random : option string)
| OpChange (id : string) (rev : Z) (c : Change)
| OpClaimOverdue (now : option Z)
| OpPrune (now : option Z)
| OpRefresh
| OpSubscribe
| OpRelease (i : nat).

Section machine.
Context `{MapOrder} `{UnicodeCase} `{LanguageTags}.
Variable decodeSnapshot : string → result string Snapshot.
Implicit Types (r : Registry) (rec : Record) (env : Env).

Local Abbreviation lockAndReload := (lockAndReload decodeSnapshot).
Local Abbreviation update := (update decodeSnapshot).

Definition apply_change env r (id : string) (rev : Z) (c : Change) : Registry * result Error Record :=
  match c with
  | ChMarkWaiting => MarkWaiting decodeSnapshot env r id rev
  | ChBindPromptDelivery d => BindPromptDelivery decodeSnapshot env r id rev d
  | ChBindFinalDelivery d => BindFinalDelivery decodeSnapshot env r id rev d
  | ChClaimDeliveryUnknown d => ClaimDeliveryUnknown decodeSnapshot env r id rev d
  | ChClaimAnswer answer outcome => ClaimAnswer decodeSnapshot env r id rev answer outcome
  | ChClaimProtectedAnswer answer => ClaimProtectedAnswer decodeSnapshot env r id rev answer
  | ChMarkResuming => MarkResuming decodeSnapshot env r id rev
  | ChRecordResumeFailure detail => RecordResumeFailure decodeSnapshot env r id rev detail
  | ChResolve => Resolve decodeSnapshot env r id rev
  | ChCompleteCancellation => CompleteCancellation decodeSnapshot env r id rev
  | ChCancel code => Cancel decodeSnapshot env r id rev code
  | ChConsumeApproval a b h => ConsumeApproval decodeSnapshot env r id rev a b h
  | ChMarkApprovalDeliveryUnknown => MarkApprovalDeliveryUnknown decodeSnapshot env r id rev
  | ChBeginCancellation code => BeginCancellation decodeSnapshot env r id rev code
  | ChFail code detail => Fail decodeSnapshot env r id rev code detail
  | ChRecordOutcomeReceipts receipts => RecordOutcomeReceipts decodeSnapshot env r id rev receipts
  | ChClaimExternalWait outcome => ClaimExternalWait decodeSnapshot env r id rev outcome
  | ChInvalidateExternalWait => InvalidateExternalWait decodeSnapshot env r id rev
  end.

(** The closure each method passes to [update], or its early error; [r] is
    the registry under the lock. *)
Definition change_mutation r (c : Change) : result Error Mutation :=
  let claim answer outcome :=
    answer ← prepare_answer answer; Ok (claim_mutate r answer outcome) in
  match c with
  | ChMarkWaiting => Ok MarkWaiting_mutate
  | ChBindPromptDelivery d => Ok (BindPromptDelivery_mutate (trim_space d))
  | ChBindFinalDelivery d => Ok (BindFinalDelivery_mutate (trim_space d))
  | ChClaimDeliveryUnknown d => Ok (ClaimDeliveryUnknown_mutate (trim_space d))
  | ChClaimAnswer answer outcome =>
      match outcome with
      | OutcomeAnswered | OutcomeAllowed | OutcomeDenied => claim answer outcome
      | _ => Err (invalid "invalid answer outcome %q")
      end
  | ChClaimProtectedAnswer answer =>
      if is_some (an_Protected answer) then claim answer OutcomeAnswered
      else Err (invalid "protected answer receipt is required")
  | ChMarkResuming => Ok MarkResuming_mutate
  | ChRecordResumeFailure detail => Ok (RecordResumeFailure_mutate detail)
  | ChResolve => Ok (transition_mutate StatusResolved EventResolved "")
  | ChCompleteCancellation => Ok (transition_mutate StatusCancelled EventCancelled "cancellation_completed")
  | ChCancel code => Ok (transition_mutate StatusCancelled EventCancelled code)
  | ChConsumeApproval a b h => Ok (ConsumeApproval_mutate (trim_space a) (trim_space b) (trim_space h))
  | ChMarkApprovalDeliveryUnknown => Ok MarkApprovalDeliveryUnknown_mutate
  | ChBeginCancellation code => Ok (BeginCancellation_mutate code)
  | ChFail code detail => Ok (Fail_mutate code detail)
  | ChRecordOutcomeReceipts receipts => Ok (RecordOutcomeReceipts_mutate receipts)
  | ChClaimExternalWait outcome =>
      match outcome with
      | OutcomeReady | OutcomeUnavailable => Ok (ClaimExternalWait_mutate outcome)
      | _ => Err (invalid "invalid external-wait outcome")
      end
  | ChInvalidateExternalWait => Ok InvalidateExternalWait_mutate
  end.

(** Only [ConsumeApproval] looks at the record [update] returns. *)
Definition change_result (c : Change) (res : result Error Record) : result Error Record :=
  match c, res with
  | ChConsumeApproval _ _ _, Ok record =>
      if bool_decide (in_Outcome record = OutcomeTimedOut) && (in_ApprovalConsumedAt record =? 0)
      then Err ErrApprovalExpired else Ok record
  | _, _ => res
  end.

Lemma apply_change_update env r id rev c :
  apply_change env r id rev c =
  match change_mutation (lockAndReload env r).1 c with
  | Err e => (r, Err e)
  | Ok m => let '(r', res) := update env r id rev m in (r', change_result c res)
  end.
Proof.
  destruct c; cbn [apply_change change_mutation change_result];
    try (match goal with |- _ = (let '(_, _) := ?u in _) => by destruct u eqn:E; rewrite <- E end).
  - unfold ClaimAnswer, claim. destruct outcome; try done;
      (destruct (prepare_answer answer); [cbn|done]; by destruct (update _ _ _ _ _)).
  - unfold ClaimProtectedAnswer, claim. destruct (is_some _); [|done].
    destruct (prepare_answer answer); [cbn|done]; by destruct (update _ _ _ _ _).
  - unfold ConsumeApproval. destruct (update _ _ _ _ _) as [r' [rec|e]]; [|done]. by destruct (_ && _).
  - unfold ClaimExternalWait. destruct outcome; try done; by destruct (update _ _ _ _ _).
Qed.

Definition run env r (op : Op) : Registry * result Error (list Record) :=
  let one p := match p with (r, Ok rec) => (r, Ok [rec]) | (r, Err e) => (r, Err e) end in
  let none p := match p with (r, Ok _) => (r, Ok []) | (r, Err e) => (r, Err e) end in
  match op with
  | OpCreate req random => one (Create decodeSnapshot env r req random)
  | OpChange id rev c => one (apply_change env r id rev c)
  | OpClaimOverdue now => ClaimOverdue decodeSnapshot env r now
  | OpPrune now => none (Prune decodeSnapshot env r now)
  | OpRefresh => none (Refresh decodeSnapshot env r)
  | OpSubscribe => none (subscribe r)
  | OpRelease i => (release_observation r i, Ok [])
  end.

(** ** Reloading *)

(** The file holds what some healthy registry wrote. *)
Definition disk_ok r : Prop :=
  match file r with
  | None => True
  | Some data => ∃ h, healthy h ∧ decodeSnapshot data = Ok (snapshotLocked h)
  end.

Definition adopt r r0 : Registry :=
  r <| records := records r0 |> <| events := events r0 |> <| commitSequence := commitSequence r0 |>.

Lemma load_adopts r h : healthy h → loadSnapshot (emptied r) (snapshotLocked h) = Ok (adopt r h).
Proof.
  intros Hh. assert (healthy (adopt r h)) as Ha by by apply (healthy_content h).
  pose proof (healthy_loads _ Ha) as Hl. exact Hl.
Qed.

Lemma restore_adopts r h : healthy h → restoreSnapshotLocked r (snapshotLocked h) = adopt r h.
Proof.
  intros Hh. unfold restoreSnapshotLocked, adopt. cbn [snapshotLocked sn_Records sn_Events sn_CommitSequence].
  pose proof (index_snapshot _ (healthy_keyed _ Hh)) as Hi. unfold index_records in Hi.
  assert (∀ (l : list Record) (m : gmap string Record), foldl (fun m rec => <[in_ID rec := cloneRecord rec]> m) m l
    = foldl (fun m rec => <[in_ID rec := rec]> m) m l) as Hl.
  { induction l as [|x l IH]; intros m; [done|]. cbn [foldl]. by rewrite IH, cloneRecord_id. }
  by rewrite Hl, Hi.
Qed.

Lemma adopt_self r : adopt r r = r.
Proof. by destruct r. Qed.

Record reloaded r r0 : Prop := {
  rl_healthy : healthy r0;
  rl_config : same_config r r0;
  rl_file : file r0 = file r;
  rl_pending : pending r0 = pending r }.

Lemma reload_outcome env r r0 res :
  healthy r → disk_ok r → lockAndReload env r = (r0, res) →
  reloaded r r0 ∧ (is_ok res = false → r0 = r).
Proof.
  intros Hh Hd. unfold InteractionRegistry.lockAndReload.
  destruct (closed r) eqn:Hcl; [by intros [= <- <-]|].
  destruct (env_admission env); [|by intros [= <- <-]].
  destruct (match loadErr r with Some _ => _ | None => _ end); [by intros [= <- <-]|].
  destruct (String.eqb (storePath r) ""); [intros [= <- <-]; split; [split; try done; by apply (healthy_content r)|done]|].
  fold (emptied r). unfold load. change (file (emptied r)) with (file r). unfold disk_ok in Hd.
  destruct (file r) as [data|] eqn:Hf.
  - destruct (env_read env).
    { intros [= <- <-]. rewrite (restore_adopts r r) by done. by rewrite adopt_self. }
    destruct Hd as (h & Hhh & Hdec). unfold loadData. rewrite Hdec, load_adopts by done.
    intros [= <- <-]. split; [|done]. split; try done. by apply (healthy_content h).
  - intros [= <- <-]. split; [|done]. split; try done. eapply healthy_content; [..|apply (healthy_empty r)]; done.
Qed.

(** ** Committing *)

(** A result that may come with a written file: success, or the error of a
    write that was committed. *)
Definition wrote {A} (res : result Error A) : bool :=
  match res with Ok _ | Err (ErrWrite true) => true | Err _ => false end.

Lemma save_outcome env r r' res :
  saveLocked env r = (r', res) →
  content r' = content r ∧ same_config r r' ∧ pending r' = pending r ∧ loadErr r' = loadErr r ∧
  (file r' = file r ∧ (is_ok res = true → storePath r = "")
   ∨ file r' = Some (snapshot_text (snapshotLocked r)) ∧ wrote res = true).
Proof.
  unfold saveLocked. destruct (String.eqb (storePath r) "") eqn:E.
  { apply String.eqb_eq in E. intros [= <- <-]. by split_and!; [..|left]. }
  destruct (_ <? _); [intros [= <- <-]; by split_and!; [..|left]|].
  destruct (env_write env); intros [= <- <-]; split_and!; try done; [by right..|by left].
Qed.

Lemma commit_outcome env r evs r' res :
  commitEventsLocked env r evs = (r', res) →
  content r' = content r ∧ same_config r r' ∧ loadErr r' = loadErr r ∧
  (is_ok res = false → pending r' = pending r) ∧
  (file r' = file r ∧ (is_ok res = true → storePath r = "")
   ∨ file r' = Some (snapshot_text (snapshotLocked r)) ∧ wrote res = true).
Proof.
  unfold commitEventsLocked. destruct (batch_events r [] evs) as [items|]; [|intros [= <- <-]; by split_and!; [..|left]].
  unfold commitNotificationBatchLocked.
  destruct (checkLocked _ _ _); [|intros [= <- <-]; by split_and!; [..|left]].
  destruct (saveLocked env r) as [r1 res1] eqn:Hs. apply save_outcome in Hs as (Hc & Hcfg & Hp & Hl & Hf).
  destruct res1 as [[]|e]; intros [= <- <-]; split_and!; try done.
Qed.
End machine.
