(* ===== verification/InteractionOutcome.v ===== *)
(** What each operation of the interaction registry does, on every branch:
    the record it stores, the event it appends, the file it writes and the
    content it restores when it fails. *)
From S2P Require Import Prelude GoStrings GoJson TaskResult CodingScope BusInbound InteractionTypes.
From S2P Require Import InteractionRegistry InteractionStore InteractionHealth InteractionInvariant.
From S2P Require Import InteractionMachine.

Section outcome.
Context `{MapOrder} `{UnicodeCase} `{LanguageTags}.
Variable decodeSnapshot : string → result string Snapshot.
Implicit Types (r : Registry) (rec : Record) (env : Env).

(** A record stored with its event, before the log is trimmed. *)
Definition entered r (id : string) rec (t : EventType) (from : Status) (code : string) (s : option bool)
    : Registry :=
  advanced r id rec (make_event rec (commitSequence r + 1) t from code s).

Lemma append_entered r rec t from code s id :
  let '(r1, rec1) := appendEventFromLocked r rec t from code s in
  rec1 = rec <| in_LastEventSeq ::= Z.succ |> ∧ commitSequence r1 = commitSequence r + 1
  ∧ options r1 = options r ∧ records r1 = records r
  ∧ r1 <| records ::= <[id := rec1]> |> = entered r id rec1 t from code s.
Proof. unfold appendEventFromLocked, entered, advanced. by destruct r. Qed.

Lemma trimmed_config r : same_config r (trimEventsLocked r).1 ∧ records (trimEventsLocked r).1 = records r
  ∧ commitSequence (trimEventsLocked r).1 = commitSequence r ∧ file (trimEventsLocked r).1 = file r
  ∧ pending (trimEventsLocked r).1 = pending r.
Proof. by destruct (trimEvents_shape r) as (n & -> & _). Qed.

(** The file after a commit of [r2] that started from [r0]: it is written
    unless the registry is kept in memory, and a failure that wrote it says
    so. *)
Definition file_after {A} r0 r2 r' (res : result Error A) : Prop :=
  file r' = file r0 ∧ (is_ok res = true → storePath r0 = "")
  ∨ file r' = Some (snapshot_text (snapshotLocked r2)) ∧ wrote res = true.

(** The three parts of an outcome of an operation that got to its commit. *)
Definition committed {A} r0 r2 r' (res : result Error A) : Prop :=
  same_config r0 r' ∧ file_after r0 r2 r' res ∧
  (if is_ok res then content r' = content r2 else content r' = content r0 ∧ pending r' = pending r0).

Lemma update_outcome env r r0 id rev m r' res :
  lockAndReload decodeSnapshot env r = (r0, Ok tt) → update decodeSnapshot env r id rev m = (r', res) →
  (∃ e, res = Err e ∧ r' = r0 ∧
     (∀ before, records r0 !! trim_space id = Some before → in_Revision before ≠ rev → e = ErrConflict "revision"))
  ∨ ∃ before rec t code s,
    records r0 !! trim_space id = Some before ∧ in_Revision before = rev
    ∧ m before (env_now env) = Ok (rec, t, code, s)
    ∧ let rec' := stored r0 rec (env_now env) in
      let r2 := (trimEventsLocked (entered r0 (trim_space id) rec' t (in_Status before) code s)).1 in
      committed r0 r2 r' res ∧ ∀ out, res = Ok out → out = rec'.
Proof.
  intros Hl Hu. unfold update in Hu. rewrite Hl in Hu.
  destruct (records r0 !! trim_space id) as [before|] eqn:Hid; [|injection Hu as <- <-; left; naive_solver].
  destruct (negb _) eqn:Hrev.
  { injection Hu as <- <-. left. naive_solver. }
  apply negb_false_iff, Z.eqb_eq in Hrev.
  destruct (m before (env_now env)) as [[[[rec t] code] s]|e] eqn:Hm; [|injection Hu as <- <-; left; naive_solver].
  right. exists before, rec, t, code, s. split_and!; [done..|]. cbv zeta.
  pose proof (append_entered r0 (stamp r0 rec (env_now env)) t (in_Status before) code s (trim_space id)) as Ha.
  destruct (appendEventFromLocked r0 (stamp r0 rec (env_now env)) t (in_Status before) code s) as [r1 rec1].
  destruct Ha as (-> & Hc1 & _ & _ & Hent). fold (stored r0 rec (env_now env)) in *.
  rewrite Hent in Hu. set (rec' := stored r0 rec (env_now env)) in *. clearbody rec'. clear Hent.
  set (r2 := (trimEventsLocked (entered r0 (trim_space id) rec' t (in_Status before) code s)).1) in *.
  assert (same_config r0 r2 ∧ records r2 = <[trim_space id := rec']> (records r0) ∧ file r2 = file r0
    ∧ pending r2 = pending r0) as (Hcfg & Hr2 & Hf2 & Hp2).
  { destruct (trimmed_config (entered r0 (trim_space id) rec' t (in_Status before) code s))
      as (Hc & Hr & _ & Hf & Hp). fold r2 in Hc, Hr, Hf, Hp. by rewrite Hr, Hf, Hp. }
  clearbody r2. clear r1 Hc1.
  match type of Hu with context [commitEventsLocked env r2 ?e] =>
    destruct (commitEventsLocked env r2 e) as [r3 res3] eqn:Hcm end.
  apply commit_outcome in Hcm as (Hct & Hcfg3 & _ & Hp3 & Hf3). pose proof Hcfg as (Hsp & _).
  apply content_fields in Hct as (Hr3 & He3 & Hc3).
  unfold committed, file_after. destruct res3 as [[]|e]; injection Hu as <- <-; cbn [is_ok] in *.
  - split; [|by intros out [= <-]; apply cloneRecord_id].
    split_and!; [by etrans|by rewrite <- Hf2, <- Hsp|by apply content_fields].
  - split; [|done]. split_and!.
    + by etrans; [|exact Hcfg3].
    + rewrite <- Hf2, <- Hsp. done.
    + apply content_fields. cbn. rewrite Hr3, Hr2. by rewrite insert_insert_eq, insert_id.
    + cbn. rewrite Hp3; done.
Qed.

(** ** Creating *)

(** A live record that keeps another one from being created. *)
Definition conflicts (existing rec : Record) : Prop :=
  isTerminal (in_Status existing) = false ∧
  (ro_SessionKey (in_Route existing) = ro_SessionKey (in_Route rec)
   ∨ og_TaskID (in_Origin rec) ≠ "" ∧ og_TaskID (in_Origin existing) = og_TaskID (in_Origin rec)
   ∨ in_ShortID existing = in_ShortID rec).

(** A live record that its successor resolves. *)
Definition chains (existing rec : Record) : Prop :=
  isTerminal (in_Status existing) = false
  ∧ ro_SessionKey (in_Route existing) = ro_SessionKey (in_Route rec) ∧ canChainInteraction existing rec = true.

Definition resolved existing : Record := existing <| in_Status := StatusResolved |>.
Definition chained r (id : string) existing (now : Z) : Registry :=
  entered r id (stored r (resolved existing) now) EventResolved (in_Status existing)
    "continued_with_next_interaction" None.

Lemma createLoop_cases rec now l : ∀ r sup r' res,
  createLoop r rec now l sup = (r', res) →
  r' = r ∧ (∀ s, res = Ok s → s = sup ∧ Forall (fun p => ¬ conflicts p.2 rec) l)
  ∨ ∃ l1 id ex l2, l = l1 ++ (id, ex) :: l2 ∧ Forall (fun p => ¬ conflicts p.2 rec) l1 ∧ chains ex rec
    ∧ createLoop (chained r id ex now) rec now l2 (Some (id, ex)) = (r', res).
Proof.
  induction l as [|[id ex] l IH]; intros r sup r' res Hc; cbn [createLoop] in Hc.
  { injection Hc as <- <-. left. split; [done|]. by intros s [= <-]. }
  destruct (negb (isTerminal (in_Status ex)) && _) eqn:E1.
  - apply andb_true_iff in E1 as [Ht%negb_true_iff Hs%String.eqb_eq].
    destruct (canChainInteraction ex rec) eqn:Hch; [|injection Hc as <- <-; by left].
    right. exists [], id, ex, l. split_and!; [done|constructor|done|].
    pose proof (append_entered r (supersede r ex now) EventResolved (in_Status ex)
      "continued_with_next_interaction" None id) as Ha.
    destruct (appendEventFromLocked _ _ _ _ _ _) as [r1 rec1]. destruct Ha as (-> & _ & _ & _ & Hent).
    rewrite Hent in Hc. exact Hc.
  - destruct (negb (isTerminal (in_Status ex)) && negb _ && _) eqn:E2; [injection Hc as <- <-; by left|].
    destruct (negb (isTerminal (in_Status ex)) && String.eqb (in_ShortID ex) (in_ShortID rec)) eqn:E3;
      [injection Hc as <- <-; by left|].
    assert (¬ conflicts ex rec) as Hno.
    { intros (Ht & Hor). rewrite Ht in *. cbn in *. apply String.eqb_neq in E1, E3.
      destruct Hor as [?|[[Hne Heq]|?]]; [done| |done]. apply String.eqb_neq in Hne.
      rewrite Hne, Heq, String.eqb_refl in E2. done. }
    destruct (IH _ _ _ _ Hc) as [[-> Hok]|(l1 & id' & ex' & l2 & -> & Hl1 & ? & ?)].
    + left. split; [done|]. intros s Hs. destruct (Hok s Hs) as [-> ?]. split; [done|]. by constructor.
    + right. exists ((id, ex) :: l1), id', ex', l2. split_and!; [done|by constructor|done|done].
Qed.

Definition no_conflict (m : gmap string Record) rec : Prop := map_Forall (fun _ ex => ¬ conflicts ex rec) m.

Lemma createLoop_outcome r rec now r' res :
  healthy r → createLoop r rec now (go_range (records r)) None = (r', res) →
  r' = r ∧ (∀ s, res = Ok s → s = None ∧ no_conflict (records r) rec)
  ∨ ∃ id ex, records r !! id = Some ex ∧ chains ex rec ∧ r' = chained r id ex now
    ∧ ∀ s, res = Ok s → s = Some (id, ex) ∧ no_conflict (records r') rec.
Proof.
  intros Hh Hc. pose proof (h_sessions _ Hh) as Hses. rewrite nodup_values in Hses by auto with go.
  assert (∀ id ex, (id, ex) ∈ go_range (records r) ↔ records r !! id = Some ex) as Hin.
  { intros. by rewrite go_range_perm, elem_of_map_to_list. }
  assert (NoDup (go_range (records r)).*1) as Hnd by (rewrite go_range_perm; apply NoDup_fst_map_to_list).
  apply createLoop_cases in Hc as [[-> Hok]|(l1 & id & ex & l2 & Hl & Hl1 & Hch & Hc)].
  { left. split; [done|]. intros s Hs. destruct (Hok s Hs) as [-> Hall]. split; [done|].
    intros id ex Hid%Hin. rewrite Forall_forall in Hall. exact (Hall _ Hid). }
  right. rewrite Hl in Hin, Hnd. assert (records r !! id = Some ex) as Hid by (apply Hin; set_solver).
  exists id, ex. split; [done|]. split; [done|].
  apply createLoop_cases in Hc as [[-> Hok]|(l3 & id2 & ex2 & l4 & -> & _ & Hch2 & _)].
  - split; [done|]. intros s Hs. destruct (Hok s Hs) as [-> Hl2]. split; [done|]. intros id' ex'.
    change (records (chained r id ex now)) with (<[id := stored r (resolved ex) now]> (records r)).
    intros [[<- <-]|[Hne Hid']]%lookup_insert_Some.
    + intros [Ht _]. destruct (stored_fields r (resolved ex) now) as (_ & _ & _ & _ & Hst & _).
      by rewrite Hst in Ht.
    + apply Hin in Hid'. rewrite Forall_forall in Hl1, Hl2.
      apply elem_of_app in Hid' as [Hx|[[= -> ->]|Hx]%elem_of_cons]; [exact (Hl1 _ Hx)|done|exact (Hl2 _ Hx)].
  - exfalso. assert (records r !! id2 = Some ex2) as Hid2 by (apply Hin; set_solver).
    destruct Hch as (Ht & Hs & _), Hch2 as (Ht2 & Hs2 & _).
    assert (id = id2) as <-.
    { apply (Hses _ _ _ _ (ro_SessionKey (in_Route rec)) Hid Hid2); unfold session_keys.
      - rewrite Ht, Hs. by left.
      - rewrite Ht2, Hs2. by left. }
    rewrite fmap_app, fmap_cons, fmap_app, fmap_cons in Hnd. cbn in Hnd.
    apply NoDup_app in Hnd as (_ & _ & Hnd). apply NoDup_cons in Hnd as [Hnd _]. set_solver.
Qed.

(** The state [Create] commits, from the state after the loop. *)
Definition created r rec : Registry :=
  entered r (in_ID rec) (rec <| in_LastEventSeq ::= Z.succ |>) EventCreated no_status "" None.

Lemma Create_outcome env r r0 req random rec r' res :
  lockAndReload decodeSnapshot env r = (r0, Ok tt) → healthy r0 →
  buildRecord req random (env_now env) = Ok rec → Create decodeSnapshot env r req random = (r', res) →
  (∃ e, res = Err e ∧ (r' = r0 ∨ ∃ id ex, records r0 !! id = Some ex ∧ chains ex rec
     ∧ r' = chained r0 id ex (env_now env)))
  ∨ ∃ r1, (r1 = r0 ∨ ∃ id ex, records r0 !! id = Some ex ∧ chains ex rec ∧ r1 = chained r0 id ex (env_now env))
    ∧ no_conflict (records r1) rec ∧ records r1 !! in_ID rec = None
    ∧ Z.of_nat (size (records r0)) < MaxRecords (options r0)
    ∧ committed r0 (trimEventsLocked (created r1 rec)).1 r' res
    ∧ ∀ out, res = Ok out → out = rec <| in_LastEventSeq ::= Z.succ |>.
Proof.
  intros Hl Hh Hb Hc. unfold Create in Hc. cbv zeta in Hc. rewrite Hb, Hl in Hc.
  destruct (_ <=? _) eqn:Hmax in Hc; [injection Hc as <- <-; left; naive_solver|]. apply Z.leb_gt in Hmax.
  destruct (createLoop r0 rec (env_now env) (go_range (records r0)) None) as [r1 res1] eqn:Hloop.
  apply (createLoop_outcome _ _ _ _ _ Hh) in Hloop.
  assert (r1 = r0 ∨ ∃ id ex, records r0 !! id = Some ex ∧ chains ex rec ∧ r1 = chained r0 id ex (env_now env))
    as Hr1 by (destruct Hloop as [[-> _]|(id & ex & ? & ? & -> & _)]; [by left|right; eauto]).
  destruct res1 as [sup|e]; [|injection Hc as <- <-; left; eauto].
  destruct (bool_decide _) eqn:Hdup in Hc; [injection Hc as <- <-; left; eauto|].
  apply bool_decide_eq_false, eq_None_not_Some in Hdup.
  assert (no_conflict (records r1) rec) as Hno
    by (destruct Hloop as [[-> Hok]|(id & ex & ? & ? & -> & Hok)]; by destruct (Hok _ eq_refl)).
  assert (match sup with Some (id, before) => <[id := before]> (records r1) | None => records r1 end = records r0
    ∧ same_config r0 r1 ∧ file r1 = file r0 ∧ pending r1 = pending r0) as (Hrec1 & Hcfg1 & Hf1 & Hp1).
  { destruct Hloop as [[-> Hok]|(id & ex & Hid & _ & -> & Hok)]; destruct (Hok _ eq_refl) as [-> _]; split_and!; try done.
    change (records (chained r0 id ex (env_now env)))
      with (<[id := stored r0 (resolved ex) (env_now env)]> (records r0)).
    by rewrite insert_insert_eq, insert_id. }
  right. exists r1. do 4 (split; [done|]). clear Hloop Hr1 Hno.
  pose proof (append_entered r1 rec EventCreated no_status "" None (in_ID rec)) as Ha.
  destruct (appendEventFromLocked r1 rec EventCreated no_status "" None) as [r2 rec2].
  destruct Ha as (-> & _ & _ & _ & Hent). change (in_ID (rec <| in_LastEventSeq ::= Z.succ |>)) with (in_ID rec) in Hc.
  rewrite Hent in Hc. fold (created r1 rec) in Hc. clear Hent r2.
  set (r3 := (trimEventsLocked (created r1 rec)).1) in *.
  assert (same_config r1 r3 ∧ records r3 = <[in_ID rec := rec <| in_LastEventSeq ::= Z.succ |>]> (records r1)
    ∧ file r3 = file r1 ∧ pending r3 = pending r1) as (Hcfg3 & Hr3 & Hf3 & Hp3).
  { destruct (trimmed_config (created r1 rec)) as (Hc' & Hr & _ & Hf & Hp). fold r3 in Hc', Hr, Hf, Hp.
    by rewrite Hr, Hf, Hp. }
  clearbody r3.
  match type of Hc with context [commitEventsLocked env r3 ?e] =>
    destruct (commitEventsLocked env r3 e) as [r4 res4] eqn:Hcm end.
  apply commit_outcome in Hcm as (Hct & Hcfg4 & _ & Hp4 & Hf4). pose proof Hcfg1 as (Hsp1 & _).
  pose proof Hcfg3 as (Hsp3 & _). apply content_fields in Hct as (Hr4 & He4 & Hc4).
  assert (same_config r0 r4) as Hcfg by (etrans; [exact Hcfg1|]; by etrans).
  rewrite Hf3, Hf1, Hsp3, Hsp1 in Hf4. unfold committed, file_after.
  destruct res4 as [[]|e]; injection Hc as <- <-; cbn [is_ok] in *.
  - split; [|by intros out [= <-]; apply cloneRecord_id]. split_and!; [done..|]. by apply content_fields.
  - split; [|done]. rewrite Hp3, Hp1 in Hp4. specialize (Hp4 eq_refl).
    assert (delete (in_ID rec) (records r4) = records r1) as Hdel
      by (rewrite Hr4, Hr3; by apply delete_insert_id).
    destruct sup as [[id before]|]; split_and!; try done; apply content_fields; cbn;
      by rewrite Hdel, Hrec1.
Qed.

(** ** Timing out *)

(** A record whose time has passed, as it is stored. *)
Definition timed rec (now : Z) : Record := time_out rec now <| in_LastEventSeq ::= Z.succ |>.
Definition expire rec (now : Z) : Record :=
  rec <| in_Status := StatusClaimed |> <| in_Outcome := OutcomeTimedOut |>
      <| in_Answer := Some (bare_answer "" "" now) |>.
Lemma timed_stored r rec now : timed rec now = stored r (expire rec now) now.
Proof. destruct rec. cbv. reflexivity. Qed.

Definition enter_overdue (now : Z) r (p : string * Record) : Registry :=
  entered r p.1 (timed p.2 now) EventAnswerClaimed no_status "timeout" None.
Definition hits (now : Z) (l : list (string * Record)) : list (string * Record) :=
  filter (fun p => overdue p.2 now = true) l.

Lemma overdueLoop_outcome now l : ∀ r claimed items,
  match overdueLoop r now l claimed items with
  | OverdueFailed _ => batch_observers r ≠ 0%nat
  | OverdueDone r' claimed' _ =>
      ∃ l1 l2, l = l1 ++ l2 ∧ r' = foldl (enter_overdue now) r (hits now l1)
        ∧ claimed' = claimed ++ ((fun p => timed p.2 now) <$> hits now l1)
        ∧ (l2 = [] ∨ batch_observers r ≠ 0%nat ∧ claimed' ≠ [])
  end.
Proof.
  induction l as [|[id rec] l IH]; intros r claimed items; cbn [overdueLoop].
  { exists [], []. split_and!; [done..|by rewrite app_nil_r|by left]. }
  destruct (overdue rec now) eqn:Ho; cbn [negb].
  2:{ specialize (IH r claimed items). destruct (overdueLoop _ _ _ _ _); [|done].
      destruct IH as (l1 & l2 & -> & -> & -> & Hs). exists ((id, rec) :: l1), l2. unfold hits.
      rewrite filter_cons_False by (cbn; by rewrite Ho). done. }
  pose proof (append_entered r (time_out rec now) EventAnswerClaimed no_status "timeout" None id) as Ha.
  assert (batch_observers (appendEventFromLocked r (time_out rec now) EventAnswerClaimed no_status "timeout" None).1
    = batch_observers r) as Hb1 by done.
  destruct (appendEventFromLocked _ _ _ _ _ _) as [r1 rec1]. cbn [fst] in Hb1.
  destruct Ha as (-> & _ & _ & _ & Hent). fold (timed rec now) in *.
  destruct (batch_append r1 items _ _) as [items'|e] eqn:Hba.
  - rewrite Hent. change (entered r id (timed rec now) EventAnswerClaimed no_status "timeout" None)
      with (enter_overdue now r (id, rec)).
    specialize (IH (enter_overdue now r (id, rec)) (claimed ++ [cloneRecord (timed rec now)]) items').
    destruct (overdueLoop _ _ _ _ _); [|done].
    destruct IH as (l1 & l2 & -> & -> & -> & Hs). exists ((id, rec) :: l1), l2. unfold hits.
    rewrite filter_cons_True by done. rewrite cloneRecord_id in *. split_and!; [done..| |].
    + by rewrite <- (assoc_L (++)).
    + done.
  - assert (batch_observers r ≠ 0%nat) as Hne.
    { intros Hz. unfold batch_append in Hba. by rewrite Hb1, Hz in Hba. }
    destruct claimed as [|c claimed]; [done|]. destruct e; try done.
    exists [], ((id, rec) :: l). split_and!; [done..|by rewrite app_nil_r|by right].
Qed.

Lemma foldl_enter_records now l : ∀ r,
  records (foldl (enter_overdue now) r l) = foldl (fun m p => <[p.1 := timed p.2 now]> m) (records r) l
  ∧ same_config r (foldl (enter_overdue now) r l) ∧ file (foldl (enter_overdue now) r l) = file r
  ∧ pending (foldl (enter_overdue now) r l) = pending r.
Proof.
  induction l as [|p l IH]; intros r; [done|]. cbn [foldl].
  destruct (IH (enter_overdue now r p)) as (-> & Hc & -> & ->).
  split; [done|]. split; [|done]. by etrans; [|exact Hc].
Qed.

Lemma ClaimOverdue_outcome env r r0 at_ r' res :
  lockAndReload decodeSnapshot env r = (r0, Ok tt) → ClaimOverdue decodeSnapshot env r at_ = (r', res) →
  let now := default (env_now env) at_ in
  (∃ e, res = Err e ∧ r' = r0 ∧ batch_observers r0 ≠ 0%nat)
  ∨ ∃ l1 l2, go_range (records r0) = l1 ++ l2 ∧ (batch_observers r0 = 0%nat → l2 = [])
    ∧ (hits now l1 = [] ∧ l2 = [] ∧ r' = r0 ∧ res = Ok []
       ∨ hits now l1 ≠ [] ∧ committed r0 (trimEventsLocked (foldl (enter_overdue now) r0 (hits now l1))).1 r' res
         ∧ ∀ out, res = Ok out → out = merge_sort id_le ((fun p => timed p.2 now) <$> hits now l1)).
Proof.
  intros Hl Hc now. unfold ClaimOverdue in Hc. fold now in Hc. rewrite Hl in Hc.
  pose proof (overdueLoop_outcome now (go_range (records r0)) r0 [] []) as Ho.
  destruct (overdueLoop r0 now (go_range (records r0)) [] []) as [r1 claimed items|e];
    [|injection Hc as <- <-; left; eauto].
  destruct Ho as (l1 & l2 & Hgr & -> & -> & Hs). right. exists l1, l2. split; [done|].
  rewrite app_nil_l in *. rewrite length_fmap in Hc. split; [naive_solver|].
  destruct (hits now l1) as [|p ps] eqn:Hh; cbn [length Nat.eqb] in Hc.
  { injection Hc as <- <-. left. destruct Hs as [->|[_ ?]]; done. }
  right. split; [done|]. rewrite <- Hh in *. clear Hh.
  destruct (foldl_enter_records now (hits now l1) r0) as (_ & Hcfg1 & Hf1 & Hp1).
  set (r1 := foldl (enter_overdue now) r0 (hits now l1)) in *. clearbody r1.
  destruct (trimmed_config r1) as (Hcfg2 & _ & _ & Hf2 & Hp2).
  set (r2 := (trimEventsLocked r1).1) in *. clearbody r2.
  assert (same_config r0 r2) as Hcfg by by etrans. rewrite Hf1 in Hf2. rewrite Hp1 in Hp2.
  unfold commitNotificationBatchLocked in Hc.
  destruct (checkLocked r2 _ _).
  2:{ injection Hc as <- <-. split; [|done]. split; [done|]. split; [by left|done]. }
  destruct (saveLocked env r2) as [r3 res3] eqn:Hsv. apply save_outcome in Hsv as (Hct & Hcfg3 & Hp3 & _ & Hf3).
  apply content_fields in Hct as (Hr3 & He3 & Hc3). pose proof Hcfg as (Hsp & _).
  rewrite Hf2, Hsp in Hf3. assert (same_config r0 r3) as Hcfg' by by etrans.
  unfold committed, file_after. destruct res3 as [[]|e]; injection Hc as <- <-; cbn [is_ok] in *.
  - split; [|by intros out [= <-]]. split_and!; [done..|]. by apply content_fields.
  - split; [|done]. split_and!; [done..|]. cbn. congruence.
Qed.

(** ** Pruning *)

(** [r'] is [r] without some terminal records, their events and the oldest
    events. *)
Definition pruned r r' : Prop :=
  records r' ⊆ records r
  ∧ (∀ id rec, records r !! id = Some rec → isTerminal (in_Status rec) = false → records r' !! id = Some rec)
  ∧ (∃ n, events r' = drop n (filter (fun e => is_Some (records r' !! ie_InteractionID e)) (events r)))
  ∧ commitSequence r' = commitSequence r ∧ same_config r r' ∧ file r' = file r ∧ pending r' = pending r.

Lemma trimmed_pruned r m :
  m ⊆ records r →
  (∀ id rec, records r !! id = Some rec → isTerminal (in_Status rec) = false → m !! id = Some rec) →
  pruned r (trimEventsLocked (r <| records := m |>)).1.
Proof.
  intros Hs Hk. destruct (trimEvents_shape (r <| records := m |>)) as (n & -> & _).
  split_and!; try done. by exists n.
Qed.

Definition terminals (m : gmap string Record) : list Record :=
  sort_by in_ResolvedAt (filter (fun rec => isTerminal (in_Status rec) = true) (go_values m)).

Lemma elem_of_terminals m rec :
  rec ∈ terminals m ↔ isTerminal (in_Status rec) = true ∧ ∃ id, m !! id = Some rec.
Proof. unfold terminals. by rewrite sort_by_elem_of, list_elem_of_filter, elem_of_go_values. Qed.

Definition keyed (m : gmap string Record) : Prop := map_Forall (fun id rec => in_ID rec = id) m.

Lemma count_prune_outcome l : ∀ r changed,
  let r' := (prune_for_count r l changed).1 in
  ∃ m, r' = r <| records := m |> ∧ m ⊆ records r ∧ (∀ id, id ∉ in_ID <$> l → m !! id = records r !! id)
    ∧ (Z.of_nat (size m) ≤ MaxRecords (options r) ∨ ∀ id, id ∈ in_ID <$> l → m !! id = None).
Proof.
  induction l as [|v l IH]; intros r changed; cbn [prune_for_count].
  { exists (records r). split_and!; [by destruct r|done|done|]. right. intros id. by rewrite elem_of_nil. }
  destruct (_ <? _) eqn:E.
  - destruct (IH (r <| records ::= delete (in_ID v) |>) true) as (m & -> & Hs & Hk & Hor).
    exists m. split_and!; [done| | |].
    + etrans; [exact Hs|apply delete_subseteq].
    + intros id Hid. rewrite fmap_cons in Hid. apply not_elem_of_cons in Hid as [Hne Hid].
      rewrite Hk by done. cbn. by rewrite lookup_delete_ne.
    + destruct Hor as [?|Hor]; [by left|right]. intros id. rewrite fmap_cons.
      intros [->|Hid]%elem_of_cons; [|by apply Hor].
      eapply lookup_weaken_None; [|exact Hs]. apply lookup_delete_eq.
  - apply Z.ltb_ge in E. exists (records r). split_and!; [by destruct r|done|done|by left].
Qed.

Lemma prune_outcome r now :
  keyed (records r) →
  let r' := (pruneLocked r now).1 in
  pruned r r'
  ∧ (∀ id rec, records r' !! id = Some rec → expired rec now = false)
  ∧ (Z.of_nat (size (records r')) ≤ MaxRecords (options r)
     ∨ ∀ id rec, records r' !! id = Some rec → isTerminal (in_Status rec) = false)
  ∧ Z.of_nat (length (events r')) ≤ Z.max 0 (MaxEvents (options r)).
Proof.
  intros Hkey. unfold pruneLocked.
  set (kept := filter (fun p => expired p.2 now = false) (records r)).
  assert (kept ⊆ records r) as Hsub by apply map_filter_subseteq.
  assert (∀ id rec, records r !! id = Some rec → isTerminal (in_Status rec) = false → kept !! id = Some rec) as Hlive.
  { intros id rec Hid Ht. apply map_lookup_filter_Some. split; [done|]. unfold expired. cbn. by rewrite Ht. }
  assert (∀ id rec, kept !! id = Some rec → expired rec now = false) as Hexp
    by (by intros id rec [_ ?]%map_lookup_filter_Some).
  change (options (r <| records := kept |>)) with (options r).
  change (records (r <| records := kept |>)) with kept.
  fold (terminals kept).
  assert (∃ m b, (if MaxRecords (options r) <? Z.of_nat (size kept)
      then prune_for_count (r <| records := kept |>) (terminals kept) (negb (size kept =? size (records r))%nat)
      else (r <| records := kept |>, negb (size kept =? size (records r))%nat)) = (r <| records := m |>, b)
    ∧ m ⊆ kept ∧ (∀ id rec, kept !! id = Some rec → isTerminal (in_Status rec) = false → m !! id = Some rec)
    ∧ (Z.of_nat (size m) ≤ MaxRecords (options r)
       ∨ ∀ id rec, m !! id = Some rec → isTerminal (in_Status rec) = false)) as (m & b & -> & Hm & Hml & Hmb).
  { destruct (_ <? _) eqn:E.
    - pose proof (count_prune_outcome (terminals kept) (r <| records := kept |>)
        (negb (size kept =? size (records r))%nat)) as (m & Heq & Hs & Hk & Hor).
      destruct (prune_for_count _ _ _) as [r1 b]. cbn [fst] in Heq. subst r1. exists m, b. split_and!; try done.
      + intros id rec Hid Ht. rewrite Hk; [done|]. intros (v & -> & (Hv & id' & Hid')%elem_of_terminals)%list_elem_of_fmap.
        pose proof (Hkey _ _ (lookup_weaken _ _ _ _ Hid' Hsub)) as Hkv. cbn in Hkv. congruence.
      + destruct Hor as [?|Hor]; [by left|right]. intros id rec Hid.
        destruct (isTerminal (in_Status rec)) eqn:Ht; [|done]. exfalso.
        pose proof (lookup_weaken _ _ _ _ Hid Hs) as Hidk. cbn in Hidk.
        rewrite Hor in Hid; [done|]. apply list_elem_of_fmap. exists rec. split.
        * symmetry. exact (Hkey _ _ (lookup_weaken _ _ _ _ Hidk Hsub)).
        * apply elem_of_terminals. eauto.
    - apply Z.ltb_ge in E. exists kept. eexists. split_and!; [done..|by left]. }
  pose proof (trimmed_pruned r m) as Hp. pose proof (trim_length (r <| records := m |>)) as Hlen.
  destruct (trimmed_config (r <| records := m |>)) as (_ & Hrec & _).
  destruct (trimEventsLocked (r <| records := m |>)) as [r' b']. cbn [fst] in *.
  change (records (r <| records := m |>)) with m in Hrec. rewrite Hrec. split_and!; try done.
  - apply Hp; [by etrans|]. intros. by apply Hml; [apply Hlive|].
  - intros id rec Hid. apply (Hexp id). by eapply lookup_weaken.
Qed.

Lemma Prune_outcome env r r0 at_ r' res :
  lockAndReload decodeSnapshot env r = (r0, Ok tt) → healthy r0 → Prune decodeSnapshot env r at_ = (r', res) →
  let r2 := (pruneLocked r0 (default (env_now env) at_)).1 in
  committed r0 r2 r' res ∨ res = Ok tt ∧ r' = r2 ∧ (pruneLocked r0 (default (env_now env) at_)).2 = false.
Proof.
  intros Hl Hh Hc. unfold Prune in Hc. rewrite Hl in Hc. cbv zeta.
  destruct (prune_outcome r0 (default (env_now env) at_) (healthy_keyed _ Hh)) as ((_ & _ & _ & _ & Hcfg & Hf & Hp) & _).
  destruct (pruneLocked r0 (default (env_now env) at_)) as [r2 ch]. cbn [fst snd] in *.
  destruct ch; [|injection Hc as <- <-; by right]. cbn [negb] in Hc. left.
  destruct (saveLocked env r2) as [r3 res3] eqn:Hsv. apply save_outcome in Hsv as (Hct & Hcfg3 & Hp3 & _ & Hf3).
  pose proof Hcfg as (Hsp & _). rewrite Hf, Hsp in Hf3. assert (same_config r0 r3) as Hcfg' by by etrans.
  unfold committed, file_after. destruct res3 as [[]|e]; injection Hc as <- <-; cbn [is_ok] in *; [done|].
  rewrite restore_adopts by done. split_and!; try done. cbn. congruence.
Qed.
End outcome.
