(* ===== verification/InteractionSteps.v ===== *)
(** The steps of the interaction registry on one record: where its status may
    go, what is written once, and that every step keeps the registry healthy. *)
From S2P Require Import Prelude GoStrings GoJson TaskResult CodingScope BusInbound InteractionTypes.
From S2P Require Import InteractionRegistry InteractionStore InteractionHealth InteractionInvariant.
From S2P Require Import InteractionMachine InteractionOutcome.

(** A step of one record: its identity is fixed, its status follows the
    transition table (a prompt that was never delivered may be claimed at
    once), an approval is consumed once and an answer is set once. *)
Record moves (a b : Record) : Prop := {
  mv_static : same_static a b;
  mv_status : in_Status b = in_Status a ∨ validTransition (in_Status a) (in_Status b) = true
    ∨ in_Status a = StatusCreated ∧ in_Status b = StatusClaimed;
  mv_consumed : in_ApprovalConsumedAt a ≠ 0 → in_ApprovalConsumedAt b = in_ApprovalConsumedAt a;
  mv_answer : in_Answer a ≠ None → in_Answer b = in_Answer a }.

Section steps.
Context `{MapOrder} `{UnicodeCase} `{LanguageTags}.
Implicit Types (r : Registry) (rec : Record).

(** What an operation needs of its arguments for the record to stay valid:
    an answer is not dated before the epoch. *)
Definition change_ok (c : Change) : Prop :=
  match c with
  | ChClaimAnswer answer _ | ChClaimProtectedAnswer answer => 0 ≤ an_ReceivedAt answer
  | _ => True
  end.

Lemma mutated_eq rec t code x :
  mutated rec t code = Ok x → x = (rec, t, code, None).
Proof. by intros [= <-]. Qed.

Lemma claim_type r answer outcome before now rec t code s :
  claim_mutate r answer outcome before now = Ok (rec, t, code, s) → t = EventAnswerClaimed.
Proof.
  unfold claim_mutate. rewrite !reject_ok. intros (_ & _ & Hm).
  destruct (_ && _) in Hm; [by apply mutated_eq in Hm as [= -> -> -> ->]|].
  repeat first [apply reject_ok in Hm as [_ Hm] | apply bind_unit_ok in Hm as [_ Hm]].
  by apply mutated_eq in Hm as [= -> -> -> ->].
Qed.

Ltac closure lem :=
  intros Hm; split; [by eapply lem; [..|exact Hm]|]; revert Hm;
  let E := fresh in intros E; unfold mutated in E;
  repeat first [apply reject_ok in E as [_ E] | apply bind_unit_ok in E as [_ E]];
  by injection E as <- <- <- <-.

Lemma change_good r c m before now rec t code s :
  healthy_record before → 0 < now → change_ok c → change_mutation r c = Ok m →
  m before now = Ok (rec, t, code, s) → good_change before rec ∧ t ≠ EventTypeOther "".
Proof.
  intros Hh Hn Hok Hc. destruct c; cbn [change_mutation change_ok] in *; try (injection Hc as <-).
  - closure MarkWaiting_good.
  - closure BindPromptDelivery_good.
  - intros Hm. split; [eapply BindFinalDelivery_good; [done| |exact Hm]; apply trim_space_idem|].
    revert Hm. unfold BindFinalDelivery_mutate. rewrite !reject_ok. by intros (_ & _ & _ & [= <- <- <- <-]).
  - closure ClaimDeliveryUnknown_good.
  - intros Hm. assert (∃ a, prepare_answer answer = Ok a ∧ m = claim_mutate r a outcome ∧ claimable outcome)
      as (a & Hp & -> & Hcl).
    { unfold claimable. destruct outcome; try done; apply result_bind_ok in Hc as (a & Hp & [= <-]); eauto 10. }
    apply prepare_answer_ok in Hp as (Hp & Hr & _).
    split; [eapply claim_good; [..|exact Hm]; try done; lia|]. by apply claim_type in Hm as ->.
  - intros Hm. destruct (is_some (an_Protected answer)); [|done]. apply result_bind_ok in Hc as (a & Hp & [= <-]).
    apply prepare_answer_ok in Hp as (Hp & Hr & _).
    split; [eapply claim_good; [..|exact Hm]; try done; [by left|lia]|]. by apply claim_type in Hm as ->.
  - closure MarkResuming_good.
  - closure RecordResumeFailure_good.
  - intros Hm. split; [eapply transition_good; [..|exact Hm]; auto|].
    revert Hm. unfold transition_mutate. rewrite !reject_ok. by intros (_ & [= <- <- <- <-]).
  - intros Hm. split; [eapply transition_good; [..|exact Hm]; auto|].
    revert Hm. unfold transition_mutate. rewrite !reject_ok. by intros (_ & [= <- <- <- <-]).
  - intros Hm. split; [eapply transition_good; [..|exact Hm]; auto|].
    revert Hm. unfold transition_mutate. rewrite !reject_ok. by intros (_ & [= <- <- <- <-]).
  - intros Hm. split; [by eapply ConsumeApproval_good|]. revert Hm. unfold ConsumeApproval_mutate.
    rewrite reject_ok. intros [_ Hm]. by destruct (_ && _) in Hm; injection Hm as <- <- <- <-.
  - closure MarkApprovalDeliveryUnknown_good.
  - closure BeginCancellation_good.
  - closure Fail_good.
  - closure RecordOutcomeReceipts_good.
  - intros Hm. assert (m = ClaimExternalWait_mutate outcome ∧ (outcome = OutcomeReady ∨ outcome = OutcomeUnavailable))
      as (-> & Ho) by (destruct outcome; try done; injection Hc as <-; auto).
    split; [by eapply ClaimExternalWait_good|].
    revert Hm. unfold ClaimExternalWait_mutate. rewrite !reject_ok. by intros (_ & [= <- <- <- <-]).
  - closure InvalidateExternalWait_good.
Qed.

(** ** Moves *)

Lemma unanswered rec :
  healthy_record rec → in_Status rec = StatusCreated ∨ in_Status rec = StatusWaiting → in_Answer rec = None.
Proof.
  intros (_ & _ & Hf & _)%healthy_facts Hs. unfold status_fields in Hf.
  destruct Hs as [Hs|Hs]; rewrite Hs in Hf; tauto.
Qed.

(** The shape shared by the closures: the status step, the consumption and
    the answer of the returned record. *)
Definition shape before rec : Prop :=
  (in_Status rec = in_Status before ∨ validTransition (in_Status before) (in_Status rec) = true
   ∨ in_Status before = StatusCreated ∧ in_Status rec = StatusClaimed)
  ∧ (in_ApprovalConsumedAt rec = in_ApprovalConsumedAt before ∨ in_ApprovalConsumedAt before = 0)
  ∧ (in_Answer rec = in_Answer before
     ∨ in_Status before = StatusCreated ∨ in_Status before = StatusWaiting).

Lemma shape_moves before rec : healthy_record before → good_change before rec → shape before rec → moves before rec.
Proof.
  intros Hh Hg (Hs & Hc & Ha). split; [apply Hg|done|by destruct Hc|].
  intros Hne. destruct Ha as [?|Ha]; [done|]. by destruct (unanswered _ Hh Ha).
Qed.

Lemma claim_shape r answer outcome before now rec t code s :
  claim_mutate r answer outcome before now = Ok (rec, t, code, s) → shape before rec.
Proof.
  unfold claim_mutate. rewrite !reject_ok, negb_false_iff, bool_decide_eq_true. intros (_ & Hs & Hm). unfold shape.
  destruct (_ && _) in Hm.
  - apply mutated_eq in Hm as [= -> -> -> ->]. rewrite Hs. split_and!; [right; by left|by left|auto].
  - repeat first [apply reject_ok in Hm as [_ Hm] | apply bind_unit_ok in Hm as [_ Hm]].
    apply mutated_eq in Hm as [= -> -> -> ->]. rewrite Hs. split_and!; [right; by left|by left|auto].
Qed.

Ltac kept_shape :=
  intros Hm; mutation; unfold shape; cbn [in_Status in_Answer in_ApprovalConsumedAt Prelude.update eta_Record];
  split_and!; auto; try (by right; left).

Lemma change_shape r c m before now rec t code s :
  change_mutation r c = Ok m → m before now = Ok (rec, t, code, s) → shape before rec.
Proof.
  intros Hc. destruct c; cbn [change_mutation] in Hc; try (injection Hc as <-).
  - unfold MarkWaiting_mutate. kept_shape.
  - unfold BindPromptDelivery_mutate. kept_shape.
  - unfold BindFinalDelivery_mutate. kept_shape.
  - unfold ClaimDeliveryUnknown_mutate. kept_shape.
  - intros Hm. assert (∃ a, m = claim_mutate r a outcome) as [a ->].
    { destruct outcome; try done; apply result_bind_ok in Hc as (a & Hp & [= <-]); eauto. }
    by eapply claim_shape.
  - intros Hm. destruct (is_some (an_Protected answer)); [|done]. apply result_bind_ok in Hc as (a & Hp & [= <-]).
    by eapply claim_shape.
  - unfold MarkResuming_mutate. kept_shape.
  - unfold RecordResumeFailure_mutate. kept_shape.
  - unfold transition_mutate. kept_shape.
  - unfold transition_mutate. kept_shape.
  - unfold transition_mutate. kept_shape.
  - unfold ConsumeApproval_mutate. rewrite reject_ok, !orb_false_iff, !negb_false_iff, Z.eqb_eq.
    intros [Hg Hm]. destruct (_ && _) in Hm; injection Hm as <- <- <- <-; unfold shape;
      cbn [in_Status in_Answer in_ApprovalConsumedAt Prelude.update eta_Record]; split_and!; auto. tauto.
  - unfold MarkApprovalDeliveryUnknown_mutate. kept_shape.
  - unfold BeginCancellation_mutate. kept_shape.
  - unfold Fail_mutate. kept_shape.
  - unfold RecordOutcomeReceipts_mutate. kept_shape.
  - intros Hm. assert (m = ClaimExternalWait_mutate outcome) as -> by (destruct outcome; try done; by injection Hc as <-).
    revert Hm. unfold ClaimExternalWait_mutate. kept_shape. right. left. by match goal with H : in_Status _ = _ |- _ => rewrite H end.
  - unfold InvalidateExternalWait_mutate. kept_shape.
Qed.

(** ** Answer messages *)

Definition message_of (c : Change) : string :=
  match c with
  | ChClaimAnswer answer _ | ChClaimProtectedAnswer answer => trim_space (an_MessageID answer)
  | _ => ""
  end.

(** The message of an answer that comes too late is not the answer of
    another interaction yet; [claim] checks this of an answer in time only. *)
Definition late_fresh r (now : Z) (id : string) (c : Change) : Prop :=
  ∀ before, records r !! id = Some before → in_ExpiresAt before ≤ now → message_of c ≠ "" →
    answer_in_use r (scopedAnswerMessageIdentity (in_Route before) (message_of c)) = false.

Definition unused r (k : answerMessageIdentity) : Prop :=
  ∀ j b, records r !! j = Some b → k ∉ message_keys b.

Lemma not_in_use r k : answer_in_use r k = false → unused r k.
Proof.
  intros Hu j b Hb Hk. apply not_true_iff_false in Hu. apply Hu. unfold answer_in_use. apply existsb_exists.
  exists b. split; [apply list_elem_of_In, elem_of_go_values; eauto|].
  unfold message_keys in Hk. destruct (in_Answer b) as [a|]; [|by apply elem_of_nil in Hk].
  destruct (String.eqb _ _); [by apply elem_of_nil in Hk|].
  apply list_elem_of_singleton in Hk as ->. by apply bool_decide_eq_true.
Qed.

Lemma message_keys_ext a b : in_Answer b = in_Answer a → in_Route b = in_Route a → message_keys b = message_keys a.
Proof. unfold message_keys. by intros -> ->. Qed.

(** The only message a claim brings in is its own. *)
Lemma claim_messages r answer outcome before now rec t code s :
  claim_mutate r answer outcome before now = Ok (rec, t, code, s) →
  (in_ExpiresAt before ≤ now → an_MessageID answer ≠ "" →
   answer_in_use r (scopedAnswerMessageIdentity (in_Route before) (an_MessageID answer)) = false) →
  ∀ k, k ∈ message_keys rec → unused r k.
Proof.
  intros Hm Hlate k Hk.
  assert (∀ a, in_Answer rec = Some a → an_MessageID a = an_MessageID answer → in_Route rec = in_Route before →
    (an_MessageID answer ≠ "" →
     answer_in_use r (scopedAnswerMessageIdentity (in_Route before) (an_MessageID answer)) = false) → unused r k)
    as Hgen.
  { intros a Ha Hma Hro Hu. unfold message_keys in Hk. rewrite Ha, Hma, Hro in Hk.
    destruct (String.eqb_spec (an_MessageID answer) ""); [by apply elem_of_nil in Hk|].
    apply list_elem_of_singleton in Hk as ->. by apply not_in_use, Hu. }
  unfold claim_mutate in Hm. rewrite !reject_ok in Hm. destruct Hm as (_ & _ & Hm).
  destruct (_ && _) eqn:He in Hm.
  - apply mutated_eq in Hm as [= -> -> -> ->]. eapply Hgen; try done. intros Hne. apply Hlate; [|done].
    apply andb_true_iff in He as [_ He]. by apply Z.leb_le.
  - rewrite reject_ok, bind_unit_ok, !reject_ok in Hm. destruct Hm as (_ & _ & _ & _ & _ & Hu & Hm).
    apply mutated_eq in Hm as [= -> -> -> ->].
    eapply Hgen; [done|by destruct (an_ReceivedAt answer =? 0)|done|].
    intros Hne%String.eqb_neq. by rewrite Hne in Hu.
Qed.

Lemma bare_messages rec now : in_Answer rec = Some (bare_answer "" "" now) → message_keys rec = [].
Proof. unfold message_keys. by intros ->. Qed.

Lemma change_messages r id c m before now rec t code s :
  records r !! id = Some before → late_fresh r now id c → change_mutation r c = Ok m →
  m before now = Ok (rec, t, code, s) →
  ∀ k, k ∈ message_keys rec → k ∈ message_keys before ∨ unused r k.
Proof.
  intros Hid Hlate Hc Hm k Hk.
  assert (in_Answer rec = in_Answer before → in_Route rec = in_Route before → k ∈ message_keys before ∨ unused r k)
    as Hsame by (intros Ha Hr; left; by rewrite <- (message_keys_ext _ _ Ha Hr)).
  specialize (Hlate before Hid).
  destruct c; cbn [change_mutation message_of] in *; try (injection Hc as <-).
  all: try (match type of Hm with ?f = _ => let h := get_head f in unfold h in Hm end; mutation; by apply Hsame).
  all: try (match type of Hm with ?f = _ => let h := get_head f in unfold h in Hm end; mutation;
            by rewrite (bare_messages _ now) in Hk by done; apply elem_of_nil in Hk).
  - right. assert (∃ a, prepare_answer answer = Ok a ∧ m = claim_mutate r a outcome) as (a & Hp & ->).
    { destruct outcome; try done; apply result_bind_ok in Hc as (a & Hp & [= <-]); eauto. }
    apply prepare_answer_ok in Hp as (_ & _ & Hp). rewrite <- Hp in Hlate. by eapply claim_messages.
  - right. destruct (is_some (an_Protected answer)); [|done]. apply result_bind_ok in Hc as (a & Hp & [= <-]).
    apply prepare_answer_ok in Hp as (_ & _ & Hp). rewrite <- Hp in Hlate. by eapply claim_messages.
  - unfold ConsumeApproval_mutate in Hm. apply reject_ok in Hm as [_ Hm].
    destruct (_ && _) in Hm; injection Hm as <- <- <- <-; by apply Hsame.
  - assert (m = ClaimExternalWait_mutate outcome) as -> by (destruct outcome; try done; by injection Hc as <-).
    unfold ClaimExternalWait_mutate in Hm. mutation.
    rewrite (bare_messages _ now) in Hk by done. by apply elem_of_nil in Hk.
Qed.

(** ** Steps keep a registry healthy *)

(** The clock is not behind any record, and the retention is a millisecond
    at least: the default is weeks. *)
Definition clock_ok r (now : Z) : Prop :=
  0 < now ∧ 1 ≤ retention_ms r ∧ map_Forall (fun _ rec => in_CreatedAt rec ≤ now) (records r).

Lemma stored_advances r id before rec now t from code s :
  healthy r → records r !! id = Some before → good_change before rec → clock_ok r now →
  t ≠ EventTypeOther "" → (∀ k, k ∈ message_keys rec → k ∈ message_keys before ∨ unused r k) →
  healthy (entered r id (stored r rec now) t from code s).
Proof.
  intros Hh Hid Hg (Hn & Hret & Hclk) Ht Hmk. apply advanced_healthy; [done|].
  destruct (h_records _ Hh _ _ Hid) as [Hkey Hhr].
  destruct (stored_fields r rec now) as (Hs' & Hr' & Hq' & _ & Hst' & _ & Ha' & _).
  pose proof Hg as [Hs Hrev Hseq _ Hterm _ _ _ _].
  assert (healthy_record (stored r rec now)) as Hhs.
  { eapply stored_healthy; try done. by apply (Hclk id). }
  destruct Hs as (Hid1 & Hsh1 & _ & _ & Hro1 & Hor1 & _). destruct Hs' as (Hid2 & Hsh2 & _ & _ & Hro2 & Hor2 & _).
  assert (∀ {K} (f : Record → list K) `{Countable K}, (∀ x, NoDup (f x)) → NoDup (values (records r) ≫= f) →
    (∀ k, k ∈ f (stored r rec now) → k ∈ f before ∨ ∀ j b, records r !! j = Some b → k ∉ f b) →
    ∀ j b k, j ≠ id → records r !! j = Some b → k ∈ f (stored r rec now) → k ∉ f b) as Hkeys.
  { intros K f ? ? Hf Hnd Hsub j b k Hne Hb Hk Hkb. rewrite nodup_values in Hnd by done.
    destruct (Hsub k Hk) as [Hk'|Hk']; [|by apply (Hk' j b)]. apply Hne. symmetry.
    by apply (Hnd _ _ _ _ k Hid Hb). }
  split; try done.
  - by rewrite Hid2, Hid1.
  - unfold seq_of. rewrite Hid. lia.
  - unfold revision_of. rewrite Hid. lia.
  - cbn [make_event ie_InteractionID]. by rewrite Hid2, Hid1.
  - apply (Hkeys string session_keys _ _); [auto with go|apply Hh|]. intros k Hk. left. unfold session_keys in *.
    rewrite Hst', Hro2, Hro1 in Hk. destruct (isTerminal (in_Status before)); [by rewrite Hterm in Hk|].
    by destruct (isTerminal (in_Status rec)); [apply elem_of_nil in Hk|].
  - apply (Hkeys string short_keys _ _); [auto with go|apply Hh|]. intros k Hk. left. unfold short_keys in *.
    rewrite Hst', Hsh2, Hsh1 in Hk. destruct (isTerminal (in_Status before)); [by rewrite Hterm in Hk|].
    by destruct (isTerminal (in_Status rec)); [apply elem_of_nil in Hk|].
  - apply (Hkeys string task_keys _ _); [auto with go|apply Hh|]. intros k Hk. left. unfold task_keys, task_key in *.
    rewrite Hst', Hor2, Hor1 in Hk. destruct (isTerminal (in_Status before)); [by rewrite Hterm in Hk|].
    by destruct (isTerminal (in_Status rec)); [apply elem_of_nil in Hk|].
  - apply (Hkeys answerMessageIdentity message_keys _ _); [auto with go|apply Hh|]. intros k. rewrite (message_keys_ext rec (stored r rec now)) by done.
    apply Hmk.
Qed.

Lemma trimmed_healthy r : healthy r → healthy (trimEventsLocked r).1.
Proof.
  intros Hh. destruct (trimEvents_shape r) as (n & -> & _). by apply (healthy_shrink r _ n).
Qed.

Lemma pruned_healthy r r' : healthy r → pruned r r' → healthy r'.
Proof. intros Hh (Hs & _ & [n He] & Hc & _). by apply (healthy_shrink r _ n). Qed.

(** *** Time-outs *)

Lemma expire_good rec now :
  healthy_record rec → 0 < now → overdue rec now = true → good_change rec (expire rec now) ∧ shape rec (expire rec now).
Proof.
  intros Hh Hn Ho. unfold overdue in Ho. rewrite !andb_true_iff, orb_true_iff, !bool_decide_eq_true in Ho.
  destruct Ho as ((Hs & _) & _).
  assert (in_Status rec = StatusCreated ∨ in_Status rec = StatusWaiting ∨ in_Status rec = StatusClaimed) as Hs'
    by tauto.
  split.
  - apply change_fields; try done.
    + by destruct Hs as [-> | ->].
    + unfold status_fields. cbn [in_Status expire Prelude.update eta_Record].
      eapply bare_answered; done.
    + left. cbn. by apply unconsumed.
  - unfold shape. cbn [in_Status in_Answer in_ApprovalConsumedAt expire Prelude.update eta_Record].
    split_and!; [|by left|by right]. destruct Hs as [-> | ->]; right; [by right|by left].
Qed.

Lemma enter_overdue_healthy r now p :
  healthy r → clock_ok r now → records r !! p.1 = Some p.2 → overdue p.2 now = true →
  healthy (enter_overdue now r p) ∧ clock_ok (enter_overdue now r p) now.
Proof.
  intros Hh Hclk Hp Ho. destruct (h_records _ Hh _ _ Hp) as [_ Hhr].
  destruct (expire_good p.2 now Hhr (proj1 Hclk) Ho) as [Hg _]. unfold enter_overdue.
  rewrite (timed_stored r). split.
  - eapply stored_advances; try done. intros k Hk.
    rewrite (bare_messages _ now) in Hk by done. by apply elem_of_nil in Hk.
  - destruct Hclk as (? & ? & Hclk). split_and!; [done..|].
    change (records _) with (<[p.1 := stored r (expire p.2 now) now]> (records r)).
    apply map_Forall_insert_2; [|done].
    destruct (stored_fields r (expire p.2 now) now) as ((_ & _ & _ & _ & _ & _ & _ & _ & _ & _ & -> & _) & _).
    exact (Hclk _ _ Hp).
Qed.

Lemma overdue_healthy now l : ∀ r,
  healthy r → clock_ok r now → NoDup l.*1 → Forall (fun p => records r !! p.1 = Some p.2) l →
  Forall (fun p => overdue p.2 now = true) l → healthy (foldl (enter_overdue now) r l).
Proof.
  induction l as [|p l IH]; intros r Hh Hclk Hnd Hin Ho; [done|]. cbn [foldl].
  rewrite fmap_cons in Hnd. apply NoDup_cons in Hnd as [Hni Hnd].
  apply Forall_cons in Hin as [Hp Hin]. apply Forall_cons in Ho as [Hop Ho].
  destruct (enter_overdue_healthy r now p) as [Hh' Hclk']; try done. apply IH; try done.
  rewrite Forall_forall in Hin |- *. intros q Hq.
  change (records (enter_overdue now r p)) with (<[p.1 := timed p.2 now]> (records r)).
  rewrite lookup_insert_ne; [by apply Hin|]. intros Heq. apply Hni. rewrite Heq. apply list_elem_of_fmap. eauto.
Qed.

(** *** Creation *)

Lemma chain_good existing rec :
  healthy_record existing → chains existing rec →
  good_change existing (resolved existing) ∧ shape existing (resolved existing).
Proof.
  intros Hh (_ & _ & Hc). unfold canChainInteraction in Hc. rewrite !andb_true_iff, bool_decide_eq_true in Hc.
  destruct Hc as ((((Hs & _) & _) & _) & _). split.
  - apply (transition_good StatusResolved EventResolved "" _ 0 _ EventResolved (bounded "" 128) None); [by left|done|].
    unfold transition_mutate. by rewrite Hs.
  - unfold shape, resolved. cbn [in_Status in_Answer in_ApprovalConsumedAt Prelude.update eta_Record].
    rewrite Hs. split_and!; [right; by left|by left|by left].
Qed.

Lemma chained_healthy r id ex rec now :
  healthy r → clock_ok r now → records r !! id = Some ex → chains ex rec → healthy (chained r id ex now).
Proof.
  intros Hh Hclk Hid Hch. destruct (h_records _ Hh _ _ Hid) as [_ Hhr].
  destruct (chain_good _ _ Hhr Hch) as [Hg _]. unfold chained. eapply stored_advances; try done.
  intros k Hk. left. by rewrite (message_keys_ext ex (resolved ex)) in Hk by done.
Qed.

Lemma created_healthy r req random now rec :
  healthy r → 0 < now → language_stable (rq_PromptLanguage req) → buildRecord req random now = Ok rec →
  no_conflict (records r) rec → records r !! in_ID rec = None → healthy (created r rec).
Proof.
  intros Hh Hn Hls Hb Hno Hid. destruct (buildRecord_ok _ _ _ _ Hn Hls Hb)
    as (Hst & Ha & Hseq & Hrev & Htask & _ & _ & Hhr).
  assert (rec <| in_LastEventSeq ::= Z.succ |> = rec <| in_LastEventSeq := 1 |>) as Heq
    by (destruct rec; cbn in *; by subst).
  unfold created. rewrite Heq. apply advanced_healthy; [done|].
  set (rec' := rec <| in_LastEventSeq := 1 |>) in *.
  assert (in_ID rec' = in_ID rec ∧ in_Revision rec' = 1 ∧ in_LastEventSeq rec' = 1 ∧ in_Answer rec' = None
    ∧ in_Route rec' = in_Route rec ∧ in_Origin rec' = in_Origin rec ∧ in_ShortID rec' = in_ShortID rec)
    as (E1 & E2 & E3 & E4 & E5 & E6 & E7) by done. clearbody rec'.
  assert (∀ j b, records r !! j = Some b → isTerminal (in_Status b) = false → ¬ conflicts b rec → 
    ro_SessionKey (in_Route b) ≠ ro_SessionKey (in_Route rec) ∧ in_ShortID b ≠ in_ShortID rec
    ∧ (og_TaskID (in_Origin rec) = "" ∨ og_TaskID (in_Origin b) ≠ og_TaskID (in_Origin rec))) as Hsep.
  { intros j b Hj Ht Hnc. unfold conflicts in Hnc. destruct (decide (og_TaskID (in_Origin rec) = "")); naive_solver. }
  assert (∀ j b k, records r !! j = Some b → k ∈ session_keys rec' → k ∉ session_keys b) as Hses.
  { intros j b k Hj Hk Hkb. unfold session_keys in *. destruct (isTerminal (in_Status b)) eqn:Ht; [by apply elem_of_nil in Hkb|].
    destruct (isTerminal (in_Status rec')); [by apply elem_of_nil in Hk|].
    apply list_elem_of_singleton in Hk, Hkb. destruct (Hsep j b Hj Ht (Hno _ _ Hj)). congruence. }
  assert (∀ j b k, records r !! j = Some b → k ∈ short_keys rec' → k ∉ short_keys b) as Hsho.
  { intros j b k Hj Hk Hkb. unfold short_keys in *. destruct (isTerminal (in_Status b)) eqn:Ht; [by apply elem_of_nil in Hkb|].
    destruct (isTerminal (in_Status rec')); [by apply elem_of_nil in Hk|].
    apply list_elem_of_singleton in Hk, Hkb. destruct (Hsep j b Hj Ht (Hno _ _ Hj)) as (_ & ? & _). congruence. }
  assert (∀ j b k, records r !! j = Some b → k ∈ task_keys rec' → k ∉ task_keys b) as Htas.
  { intros j b k Hj Hk Hkb. unfold task_keys, task_key in *.
    destruct (h_records _ Hh _ _ Hj) as (_ & _ & Htb & _). rewrite Htb in Hkb. rewrite E6, Htask in Hk.
    destruct (isTerminal (in_Status b)) eqn:Ht; [by apply elem_of_nil in Hkb|].
    destruct (isTerminal (in_Status rec')); [by apply elem_of_nil in Hk|]. cbn [orb] in *.
    destruct (String.eqb_spec (og_TaskID (in_Origin rec)) ""); [by apply elem_of_nil in Hk|].
    destruct (String.eqb (og_TaskID (in_Origin b)) ""); [by apply elem_of_nil in Hkb|].
    apply list_elem_of_singleton in Hk, Hkb. destruct (Hsep j b Hj Ht (Hno _ _ Hj)) as (_ & _ & [?|?]); congruence. }
  split; try done; try (intros j b k _; eauto).
  - unfold seq_of. by rewrite Hid.
  - unfold revision_of. rewrite Hid. lia.
  - intros Hb' Hk. unfold message_keys in Hk. rewrite E4 in Hk. by apply elem_of_nil in Hk.
Qed.
End steps.
