(* ===== verification/InteractionProps.v ===== *)
(** The properties of the interaction registry over its operations. *)
From S2P Require Import Prelude GoStrings GoJson TaskResult CodingScope BusInbound InteractionTypes.
From S2P Require Import InteractionRegistry InteractionStore InteractionHealth InteractionInvariant.
From S2P Require Import InteractionMachine InteractionOutcome InteractionSteps.

(** One step of a record, counted by its revision and its event stream. *)
Definition record_step (a b : Record) : Prop :=
  moves a b ∧ in_Revision b = in_Revision a + 1 ∧ in_LastEventSeq b = in_LastEventSeq a + 1.

(** Every record is still there, unchanged or one step further. *)
Definition evolves (m m' : gmap string Record) : Prop :=
  ∀ id a, m !! id = Some a → ∃ b, m' !! id = Some b ∧ (b = a ∨ record_step a b).

Lemma evolves_refl m : evolves m m.
Proof. intros id a Ha. eauto. Qed.
Lemma evolves_insert m id a b : m !! id = Some a → record_step a b → evolves m (<[id := b]> m).
Proof.
  intros Ha Hs j c Hc. destruct (decide (j = id)) as [->|Hne].
  - rewrite lookup_insert_eq. exists b. split; [done|]. right. congruence.
  - rewrite lookup_insert_ne by done. eauto.
Qed.
Lemma evolves_fresh m m' id b : evolves m m' → m !! id = None → evolves m (<[id := b]> m').
Proof.
  intros He Hid j c Hc. rewrite lookup_insert_ne by congruence. by apply He.
Qed.

Section props.
Context `{MapOrder} `{UnicodeCase} `{LanguageTags}.
Variable decodeSnapshot : string → result string Snapshot.
Implicit Types (r : Registry) (rec : Record) (env : Env).

Local Abbreviation run := (run decodeSnapshot).
Local Abbreviation disk_ok := (disk_ok decodeSnapshot).

(** The registry an operation works on: the file is reloaded first. *)
Definition base env r (op : Op) : Registry :=
  match op with
  | OpSubscribe | OpRelease _ => r
  | _ => (lockAndReload decodeSnapshot env r).1
  end.

Definition op_ok env r (op : Op) : Prop :=
  let r0 := base env r op in
  match op with
  | OpCreate req _ => language_stable (rq_PromptLanguage req) ∧ clock_ok r0 (env_now env)
  | OpChange id _ c => change_ok c ∧ late_fresh r0 (env_now env) (trim_space id) c ∧ clock_ok r0 (env_now env)
  | OpClaimOverdue at_ => clock_ok r0 (default (env_now env) at_)
  | _ => True
  end.

(** ** What the outcomes have in common *)

Lemma stored_step r before rec now :
  healthy_record before → good_change before rec → shape before rec → record_step before (stored r rec now).
Proof.
  intros Hh Hg Hs. destruct (shape_moves _ _ Hh Hg Hs) as [M1 M2 M3 M4].
  unfold record_step.
  destruct (stored_fields r rec now) as (Hst & -> & -> & _ & Hsts & _ & Ha & _ & _ & _ & Hc & _).
  pose proof (gc_revision _ _ Hg). pose proof (gc_seq _ _ Hg).
  split_and!; [|lia..]. split.
  - unfold same_static in *. intuition congruence.
  - by rewrite Hsts.
  - by rewrite Hc.
  - by rewrite Ha.
Qed.

Definition written r r' : Prop :=
  file r' = file r ∨ ∃ h, healthy h ∧ file r' = Some (snapshot_text (snapshotLocked h)).

Lemma committed_healthy {A} r0 r2 r' (res : result Error A) : healthy r0 → healthy r2 → committed r0 r2 r' res → healthy r' ∧ written r0 r'.
Proof.
  intros H0' H2 (Hc & Hf & Hct). split.
  - destruct (is_ok res); [apply content_fields in Hct|destruct Hct as [Hct%content_fields _]];
      destruct Hct as (? & ? & ?); by eapply healthy_content.
  - destruct Hf as [[Hf _]|[Hf _]]; [by left|right; eauto].
Qed.

Lemma committed_evolves {A} r0 r2 r' (res : result Error A) :
  evolves (records r0) (records r2) → committed r0 r2 r' res → evolves (records r0) (records r').
Proof.
  intros He (_ & _ & Hct). destruct (is_ok res); [apply content_fields in Hct|destruct Hct as [Hct%content_fields _]];
    destruct Hct as (-> & _); [done|apply evolves_refl].
Qed.

(** What one operation leaves: a healthy registry, in the same place, a file
    that is the old one or that of a healthy registry, and records at most a
    step further. *)
Record leaves r0 (keeps : bool) r' : Prop := {
  lv_healthy : healthy r';
  lv_file : written r0 r';
  lv_records : keeps = true → evolves (records r0) (records r');
  lv_path : storePath r' = storePath r0 }.

Lemma leaves_refl r keeps : healthy r → leaves r keeps r.
Proof. split; [done|by left|intros _; apply evolves_refl|done]. Qed.
Lemma leaves_committed {A} r0 r2 keeps r' (res : result Error A) :
  healthy r0 → healthy r2 → (keeps = true → evolves (records r0) (records r2)) → committed r0 r2 r' res →
  leaves r0 keeps r'.
Proof.
  intros H0' H2 He Hc. destruct (committed_healthy _ _ _ _ H0' H2 Hc). split; try done; [|apply Hc].
  intros Hk. by eapply committed_evolves; [apply He|].
Qed.

Lemma trimmed_records r : records (trimEventsLocked r).1 = records r.
Proof. apply trimmed_config. Qed.

Lemma update_leaves env r r0 id rev c m r' res :
  lockAndReload decodeSnapshot env r = (r0, Ok tt) → healthy r0 → clock_ok r0 (env_now env) → change_ok c →
  late_fresh r0 (env_now env) (trim_space id) c → change_mutation r0 c = Ok m →
  update decodeSnapshot env r id rev m = (r', res) → leaves r0 true r'.
Proof.
  intros Hl Hh Hclk Hok Hlate Hc Hu.
  apply (update_outcome _ _ _ _ _ _ _ _ _ Hl) in Hu as [(e & -> & -> & _)|(before & rec & t & code & s & Hid & _ & Hm & Hcm & _)];
    [by apply leaves_refl|].
  destruct (h_records _ Hh _ _ Hid) as [_ Hhr].
  destruct (change_good _ _ _ _ _ _ _ _ _ Hhr (proj1 Hclk) Hok Hc Hm) as [Hg Ht].
  eapply leaves_committed; [done| | |exact Hcm].
  - apply trimmed_healthy. eapply stored_advances; try done. by eapply change_messages.
  - intros _. rewrite trimmed_records. eapply evolves_insert; [done|].
    apply stored_step; [done..|]. by eapply change_shape.
Qed.

Lemma timed_step rec now :
  healthy_record rec → 0 < now → overdue rec now = true → record_step rec (timed rec now).
Proof.
  intros Hh Hn Ho. destruct (expire_good rec now Hh Hn Ho).
  rewrite (timed_stored (mkRegistry "" (mkOptions 0 0 0 0 0 0) ∅ [] 0 false [] 0 None None)).
  by apply stored_step.
Qed.

Lemma timed_lookup now l : ∀ (m : gmap string Record) id,
  NoDup l.*1 →
  foldl (fun m p => <[p.1 := timed p.2 now]> m) m l !! id
  = match list_find (fun p => p.1 = id) l with Some (_, p) => Some (timed p.2 now) | None => m !! id end.
Proof.
  induction l as [|p l IH]; intros m id Hnd; [done|]. cbn [foldl list_find]. rewrite fmap_cons in Hnd.
  apply NoDup_cons in Hnd as [Hni Hnd]. rewrite IH by done. case_decide as Hp.
  - subst id. destruct (list_find (fun q => q.1 = p.1) l) as [[i q]|] eqn:E; [|by rewrite lookup_insert_eq].
    apply list_find_Some in E as (Hi & Heq & _). exfalso. apply Hni. rewrite <- Heq.
    apply list_elem_of_fmap. exists q. split; [done|]. by eapply list_elem_of_lookup_2.
  - rewrite lookup_insert_ne by done. by destruct (list_find _ l) as [[]|].
Qed.

Lemma hits_facts (m : gmap string Record) now l1 l2 :
  go_range m = l1 ++ l2 →
  NoDup (hits now l1).*1 ∧ Forall (fun p => m !! p.1 = Some p.2) (hits now l1)
  ∧ Forall (fun p => overdue p.2 now = true) (hits now l1).
Proof.
  intros Hgr. assert (NoDup (go_range m).*1) as Hnd by (rewrite go_range_perm; apply NoDup_fst_map_to_list).
  split_and!.
  - eapply sublist_NoDup; [exact Hnd|]. apply fmap_sublist. rewrite Hgr. unfold hits.
    etrans; [apply sublist_filter|apply sublist_inserts_r, reflexivity].
  - apply Forall_forall. intros [id rec] [_ Hp]%list_elem_of_filter. apply elem_of_go_range. rewrite Hgr.
    apply elem_of_app. by left.
  - apply Forall_forall. by intros p [? _]%list_elem_of_filter.
Qed.

Lemma overdue_evolves r now l :
  healthy r → 0 < now → NoDup l.*1 → Forall (fun p => records r !! p.1 = Some p.2) l →
  Forall (fun p => overdue p.2 now = true) l → evolves (records r) (records (foldl (enter_overdue now) r l)).
Proof.
  intros Hh Hn Hnd Hin Ho id a Ha. destruct (foldl_enter_records now l r) as (-> & _).
  rewrite timed_lookup by done. destruct (list_find _ l) as [[i p]|] eqn:E; [|eauto].
  apply list_find_Some in E as (Hi & <- & _). apply list_elem_of_lookup_2 in Hi.
  rewrite Forall_forall in Hin, Ho. specialize (Hin p Hi). specialize (Ho p Hi).
  rewrite Ha in Hin. injection Hin as ->. eexists. split; [done|]. right.
  apply timed_step; [|done..]. apply (h_records _ Hh _ _ Ha).
Qed.

Lemma overdue_leaves env r r0 at_ r' res :
  lockAndReload decodeSnapshot env r = (r0, Ok tt) → healthy r0 → clock_ok r0 (default (env_now env) at_) →
  ClaimOverdue decodeSnapshot env r at_ = (r', res) → leaves r0 true r'.
Proof.
  intros Hl Hh Hclk Hc. apply (ClaimOverdue_outcome _ _ _ _ _ _ _ Hl) in Hc
    as [(e & -> & -> & _)|(l1 & l2 & Hgr & _ & [(_ & _ & -> & _)|(_ & Hcm & _)])]; [by apply leaves_refl..|].
  destruct (hits_facts _ (default (env_now env) at_) _ _ Hgr) as (Hnd & Hin & Ho).
  eapply leaves_committed; [done| | |exact Hcm].
  - by apply trimmed_healthy, overdue_healthy.
  - intros _. rewrite trimmed_records. apply overdue_evolves; try done. apply Hclk.
Qed.

Lemma chained_step r id ex rec now :
  healthy r → records r !! id = Some ex → chains ex rec → evolves (records r) (records (chained r id ex now)).
Proof.
  intros Hh Hid Hch. destruct (h_records _ Hh _ _ Hid) as [_ Hhr]. destruct (chain_good _ _ Hhr Hch).
  eapply evolves_insert; [done|]. by apply stored_step.
Qed.

Lemma create_leaves env r r0 req random rec r' res :
  lockAndReload decodeSnapshot env r = (r0, Ok tt) → healthy r0 → clock_ok r0 (env_now env) →
  language_stable (rq_PromptLanguage req) → buildRecord req random (env_now env) = Ok rec →
  Create decodeSnapshot env r req random = (r', res) → leaves r0 true r'.
Proof.
  intros Hl Hh Hclk Hls Hb Hc.
  assert (∀ r1, (r1 = r0 ∨ ∃ id ex, records r0 !! id = Some ex ∧ chains ex rec ∧ r1 = chained r0 id ex (env_now env)) →
    leaves r0 true r1) as Hr1.
  { intros r1 [->|(id & ex & Hid & Hch & ->)]; [by apply leaves_refl|]. split; [by eapply chained_healthy|by left| |done].
    intros _. by eapply chained_step. }
  apply (Create_outcome _ _ _ _ _ _ _ _ _ Hl Hh Hb) in Hc
    as [(e & -> & Hor)|(r1 & Hor & Hno & Hid & _ & Hcm & _)]; [by apply Hr1|].
  pose proof (lv_healthy _ _ _ (Hr1 _ Hor)) as Hh1. pose proof (lv_records _ _ _ (Hr1 _ Hor) eq_refl) as He1.
  eapply leaves_committed; [done| | |exact Hcm].
  - apply trimmed_healthy. eapply created_healthy; try done. apply Hclk.
  - intros _. rewrite trimmed_records. apply evolves_fresh; [done|].
    destruct (records r0 !! in_ID rec) eqn:E; [|done]. destruct (He1 _ _ E) as (b & Hb' & _). congruence.
Qed.

Definition keeps_records (op : Op) : bool := match op with OpPrune _ => false | _ => true end.

(** An operation that cannot load leaves the registry alone. *)
Lemma reload_cases env r r0 res :
  healthy r → disk_ok r → lockAndReload decodeSnapshot env r = (r0, res) →
  healthy r0 ∧ file r0 = file r ∧ (res = Ok tt ∨ r0 = r ∧ ∃ e, res = Err e).
Proof.
  intros Hh Hd Hl. destruct (reload_outcome _ _ _ _ _ Hh Hd Hl) as [[Hh0 _ Hf _] Herr].
  split_and!; [done..|]. destruct res as [[]|e]; [by left|right]. split; [by apply Herr|eauto].
Qed.

Lemma pair_run {A B} (p : Registry * result Error A) (f : A → B) :
  (match p with (r, Ok x) => (r, Ok (f x)) | (r, Err e) => (r, Err e) end).1 = p.1.
Proof. by destruct p as [r [x|e]]. Qed.

Lemma run_leaves env r op :
  healthy r → disk_ok r → op_ok env r op →
  (run env r op).1 = r ∨ leaves (base env r op) (keeps_records op) (run env r op).1.
Proof.
  intros Hh Hd Hok. unfold op_ok, base in *.
  destruct (lockAndReload decodeSnapshot env r) as [r0 res] eqn:Hl.
  destruct (reload_cases _ _ _ _ Hh Hd Hl) as (Hh0 & _ & Hres).
  destruct op as [req random|id rev c|at_|at_| | |i]; cbn [run keeps_records fst] in *.
  - unfold InteractionMachine.run. rewrite (pair_run _ (fun rec => [rec])).
    destruct (buildRecord req random (env_now env)) as [rec|e] eqn:Hb.
    2:{ left. unfold Create. cbv zeta. by rewrite Hb. }
    destruct Hres as [->|(-> & e & ->)].
    2:{ left. unfold Create. cbv zeta. by rewrite Hb, Hl. }
    right. destruct Hok as [? ?]. destruct (Create decodeSnapshot env r req random) as [r' res'] eqn:Hc. by eapply create_leaves.
  - unfold InteractionMachine.run. rewrite (pair_run _ (fun rec => [rec])).
    rewrite apply_change_update, Hl. cbn [fst].
    destruct (change_mutation r0 c) as [m|e] eqn:Hm; [|by left].
    destruct (update decodeSnapshot env r id rev m) as [r' res'] eqn:Hu. cbn [fst].
    destruct Hres as [->|(-> & e & ->)].
    2:{ left. unfold update in Hu. rewrite Hl in Hu. by injection Hu as <- <-. }
    right. destruct Hok as (? & ? & ?). by eapply update_leaves.
  - unfold InteractionMachine.run.
    destruct (ClaimOverdue decodeSnapshot env r at_) as [r' res'] eqn:Hc. cbn [fst].
    destruct Hres as [->|(-> & e & ->)].
    2:{ left. unfold ClaimOverdue in Hc. rewrite Hl in Hc. by injection Hc as <- <-. }
    right. by eapply overdue_leaves.
  - unfold InteractionMachine.run. rewrite (pair_run _ (fun _ => [])).
    destruct (Prune decodeSnapshot env r at_) as [r' res'] eqn:Hc. cbn [fst].
    destruct Hres as [->|(-> & e & ->)].
    2:{ left. unfold Prune in Hc. rewrite Hl in Hc. by injection Hc as <- <-. }
    right. destruct (prune_outcome r0 (default (env_now env) at_) (healthy_keyed _ Hh0)) as (Hp & _).
    apply (Prune_outcome _ _ _ _ _ _ _ Hl Hh0) in Hc as [Hcm|(_ & -> & _)].
    + eapply leaves_committed; [done| |done|exact Hcm]. by eapply pruned_healthy.
    + split; [by eapply pruned_healthy|left; apply Hp|done|apply Hp].
  - unfold InteractionMachine.run. rewrite (pair_run _ (fun _ => [])). unfold Refresh. rewrite Hl. cbn [fst].
    right. by apply leaves_refl.
  - unfold InteractionMachine.run. rewrite (pair_run _ (fun _ => [])). unfold subscribe.
    destruct (closed r); [by left|right]. split; [by apply (healthy_content r)|by left| |done].
    intros _. apply evolves_refl.
  - right. split; [by apply (healthy_content r)|by left| |done]. intros _. apply evolves_refl.
Qed.

Lemma run_healthy env r op :
  healthy r → disk_ok r → op_ok env r op → healthy (run env r op).1.
Proof. intros Hh Hd Hok. by destruct (run_leaves _ _ _ Hh Hd Hok) as [->|[]]. Qed.

Lemma base_file env r op : healthy r → disk_ok r → file (base env r op) = file r.
Proof.
  intros Hh Hd. unfold base. destruct (lockAndReload decodeSnapshot env r) as [r0 res] eqn:Hl.
  destruct (reload_cases _ _ _ _ Hh Hd Hl) as (_ & Hf & _). by destruct op.
Qed.

(** ** What an operation means to write *)

(** The same circumstances, with a disk that takes every write. *)
Definition undisturbed env : Env := mkEnv (env_now env) (env_admission env) (env_read env) WriteOk.
(** The registry that the operation leaves if its write succeeds. *)
Definition intended env r (op : Op) : Registry := (run (undisturbed env) r op).1.
(** The file is the old one, or what an undisturbed operation leaves. *)
Definition meant (f : Env → Registry) env r0 : Prop :=
  file (f env) = file r0 ∨ storePath r0 ≠ "" ∧ file (f env) = Some (snapshot_text (snapshotLocked (f (undisturbed env)))).

Lemma snapshot_content r r' : content r = content r' → snapshotLocked r = snapshotLocked r'.
Proof. intros (Hr & He & Hc)%content_fields. unfold snapshotLocked. by rewrite Hr, He, Hc. Qed.
Lemma save_meant env r r1 res : saveLocked env r = (r1, res) →
  file r1 = file r ∨ storePath r ≠ "" ∧ file r1 = Some (snapshot_text (snapshotLocked r)) ∧
    ∃ r2, saveLocked (undisturbed env) r = (r2, Ok tt) ∧ content r2 = content r.
Proof.
  unfold saveLocked. destruct (String.eqb_spec (storePath r) ""); [intros [= <- <-]; by left|]. destruct (_ <? _); [intros [= <- <-]; by left|].
  cbn [env_write undisturbed]. destruct (env_write env); intros [= <- <-]; [right; eauto..|by left].
Qed.
Lemma batch_meant env r items r1 res : commitNotificationBatchLocked env r items = (r1, res) →
  file r1 = file r ∨ storePath r ≠ "" ∧ file r1 = Some (snapshot_text (snapshotLocked r)) ∧
    ∃ r2, commitNotificationBatchLocked (undisturbed env) r items = (r2, Ok tt) ∧ content r2 = content r.
Proof.
  unfold commitNotificationBatchLocked. destruct (checkLocked _ _ _); [|intros [= <- <-]; by left].
  destruct (saveLocked env r) as [r2 res2] eqn:Hs. apply save_meant in Hs as [Hf|(Hne & Hf & r3 & Hs & Hc)].
  - destruct res2 as [[]|e]; intros [= <- <-]; by left.
  - rewrite Hs. destruct res2 as [[]|e]; intros [= <- <-]; right; (split; [done|]); (split; [done|]); eexists; split; done.
Qed.
Lemma events_meant env r evs r1 res : commitEventsLocked env r evs = (r1, res) →
  file r1 = file r ∨ storePath r ≠ "" ∧ file r1 = Some (snapshot_text (snapshotLocked r)) ∧
    ∃ r2, commitEventsLocked (undisturbed env) r evs = (r2, Ok tt) ∧ content r2 = content r.
Proof.
  unfold commitEventsLocked. destruct (batch_events r [] evs) as [items|]; [apply batch_meant|intros [= <- <-]; by left].
Qed.
Definition place r : option string * string := (file r, storePath r).
Lemma place_fields r r' : place r' = place r ↔ file r' = file r ∧ storePath r' = storePath r.
Proof. unfold place. split; [by intros [= -> ->]|by intros [-> ->]]. Qed.
Lemma trimmed_file r : file (trimEventsLocked r).1 = file r.
Proof. apply trimmed_config. Qed.
Lemma trimmed_path r : storePath (trimEventsLocked r).1 = storePath r.
Proof. apply trimmed_config. Qed.

Lemma update_meant env r id rev m :
  meant (fun env => (update decodeSnapshot env r id rev m).1) env (lockAndReload decodeSnapshot env r).1.
Proof.
  unfold meant, update. change (lockAndReload decodeSnapshot (undisturbed env) r) with (lockAndReload decodeSnapshot env r).
  change (env_now (undisturbed env)) with (env_now env).
  destruct (lockAndReload decodeSnapshot env r) as [r0 [[]|e]]; [|by left]. cbn [fst].
  destruct (records r0 !! trim_space id) as [before|]; [|by left]. destruct (negb _); [by left|].
  destruct (m before (env_now env)) as [[[[rec t] code] s]|e]; [|by left].
  destruct (appendEventFromLocked r0 _ t (in_Status before) code s) as [r1 rec1] eqn:Ha.
  assert (place r1 = place r0) as Hpl by by injection Ha as <- _. apply place_fields in Hpl as [Hf1 Hp1].
  destruct (commitEventsLocked env _ _) as [r3 res3] eqn:Hc. apply events_meant in Hc as [Hf|(Hne & Hf & r4 & -> & Hct)].
  - left. rewrite trimmed_file in Hf. destruct res3 as [[]|e]; cbn in *; congruence.
  - right. rewrite ?trimmed_path in Hne. split; [cbn in Hne; congruence|]. rewrite <- (snapshot_content _ _ Hct) in Hf. by destruct res3 as [[]|e].
Qed.
Lemma createLoop_place rec now l : ∀ r sup, place (createLoop r rec now l sup).1 = place r.
Proof.
  induction l as [|[id ex] l IH]; intros r sup; cbn [createLoop]; [done|]. repeat case_match; try done; try apply IH.
  rewrite IH. match goal with H : appendEventFromLocked _ _ _ _ _ _ = _ |- _ => by injection H as <- _ end.
Qed.
Lemma create_meant env r req random :
  meant (fun env => (Create decodeSnapshot env r req random).1) env (lockAndReload decodeSnapshot env r).1 ∨
  (Create decodeSnapshot env r req random).1 = r.
Proof.
  unfold meant, Create. change (lockAndReload decodeSnapshot (undisturbed env) r) with (lockAndReload decodeSnapshot env r).
  cbv zeta. change (env_now (undisturbed env)) with (env_now env). destruct (buildRecord req random (env_now env)) as [rec|e]; [left|by right].
  destruct (lockAndReload decodeSnapshot env r) as [r0 [[]|e]]; [|by left]. cbn [fst].
  destruct (_ <=? _); [by left|]. pose proof (createLoop_place rec (env_now env) (go_range (records r0)) r0 None) as Hl.
  destruct (createLoop r0 rec (env_now env) (go_range (records r0)) None) as [r1 [sup|e]]; cbn [fst] in Hl; [|left; by apply place_fields in Hl as [? _]].
  destruct (bool_decide _); [left; by apply place_fields in Hl as [? _]|].
  destruct (appendEventFromLocked r1 rec EventCreated no_status "" None) as [r2 rec2] eqn:Ha.
  assert (place r2 = place r0) as Hpl by (rewrite <- Hl; by injection Ha as <- _). apply place_fields in Hpl as [Hf1 Hp1].
  destruct (commitEventsLocked env _ _) as [r3 res3] eqn:Hc. apply events_meant in Hc as [Hf|(Hne & Hf & r4 & -> & Hct)].
  - left. rewrite trimmed_file in Hf. destruct res3 as [[]|e], sup as [[]|]; cbn in *; congruence.
  - right. rewrite ?trimmed_path in Hne. split; [cbn in Hne; congruence|]. rewrite <- (snapshot_content _ _ Hct) in Hf. by destruct res3 as [[]|e], sup as [[]|].
Qed.
Lemma overdue_meant env r at_ :
  meant (fun env => (ClaimOverdue decodeSnapshot env r at_).1) env (lockAndReload decodeSnapshot env r).1.
Proof.
  unfold meant, ClaimOverdue. change (lockAndReload decodeSnapshot (undisturbed env) r) with (lockAndReload decodeSnapshot env r).
  cbv zeta. change (env_now (undisturbed env)) with (env_now env).
  destruct (lockAndReload decodeSnapshot env r) as [r0 [[]|e]]; [|by left]. cbn [fst]. set (now := default (env_now env) at_).
  pose proof (overdueLoop_outcome now (go_range (records r0)) r0 [] []) as Ho.
  destruct (overdueLoop r0 now (go_range (records r0)) [] []) as [r1 claimed items|e]; [|by left].
  destruct Ho as (l1 & l2 & _ & -> & _). destruct (foldl_enter_records now (hits now l1) r0) as (_ & (Hp1 & _) & Hf1 & _).
  destruct (length claimed =? 0)%nat; [by left|].
  destruct (commitNotificationBatchLocked env _ _) as [r3 res3] eqn:Hc. apply batch_meant in Hc as [Hf|(Hne & Hf & r4 & -> & Hct)].
  - left. rewrite trimmed_file in Hf. destruct res3 as [[]|e]; cbn in *; congruence.
  - right. rewrite ?trimmed_path in Hne. split; [cbn in Hne; congruence|]. rewrite <- (snapshot_content _ _ Hct) in Hf. by destruct res3 as [[]|e].
Qed.
Lemma prune_meant env r at_ : healthy (lockAndReload decodeSnapshot env r).1 →
  meant (fun env => (Prune decodeSnapshot env r at_).1) env (lockAndReload decodeSnapshot env r).1.
Proof.
  unfold meant, Prune. change (lockAndReload decodeSnapshot (undisturbed env) r) with (lockAndReload decodeSnapshot env r).
  cbv zeta. change (env_now (undisturbed env)) with (env_now env).
  destruct (lockAndReload decodeSnapshot env r) as [r0 [[]|e]]; [|by left]. cbn [fst]. intros Hh.
  destruct (prune_outcome r0 (default (env_now env) at_) (healthy_keyed _ Hh)) as ((_ & _ & _ & _ & (Hp1 & _) & Hf1 & _) & _).
  destruct (pruneLocked r0 (default (env_now env) at_)) as [r1 changed]; cbn [fst] in Hf1, Hp1. destruct (negb changed); [by left|].
  destruct (saveLocked env r1) as [r3 res3] eqn:Hc. apply save_meant in Hc as [Hf|(Hne & Hf & r4 & -> & Hct)].
  - left. destruct res3 as [[]|e]; cbn; congruence.
  - right. rewrite ?trimmed_path in Hne. split; [cbn in Hne; congruence|]. rewrite <- (snapshot_content _ _ Hct) in Hf. by destruct res3 as [[]|e].
Qed.
(** After an operation the file is the old one, or what the operation meant to
    write: nothing but the registry it leaves when its write succeeds. *)
Lemma run_meant env r op : healthy r → disk_ok r → meant (fun env => (run env r op).1) env r.
Proof.
  intros Hh Hd. pose proof (reload_outcome decodeSnapshot env r _ _ Hh Hd (surjective_pairing _)) as [[Hh0 (Hp & _) Hf _] _].
  assert (∀ f, meant f env (lockAndReload decodeSnapshot env r).1 → meant f env r) as Hm
    by (unfold meant; rewrite Hf, Hp; done).
  destruct op as [req random|id rev c|at_|at_| | |i]; unfold InteractionMachine.run.
  - destruct (create_meant env r req random) as [Hc|Hc].
    + apply Hm in Hc. unfold meant in *. rewrite !(pair_run _ (fun rec => [rec])). exact Hc.
    + left. rewrite (pair_run _ (fun rec => [rec])). by rewrite Hc.
  - unfold meant. rewrite !(pair_run _ (fun rec => [rec])), !apply_change_update.
    change (lockAndReload decodeSnapshot (undisturbed env) r) with (lockAndReload decodeSnapshot env r).
    destruct (change_mutation _ c) as [m|e]; [|by left]. pose proof (Hm _ (update_meant env r id rev m)) as Hu. unfold meant in Hu.
    by destruct (update decodeSnapshot env r id rev m), (update decodeSnapshot (undisturbed env) r id rev m).
  - exact (Hm _ (overdue_meant env r at_)).
  - unfold meant. rewrite !(pair_run _ (fun _ => [])). exact (Hm _ (prune_meant env r at_ Hh0)).
  - left. rewrite (pair_run _ (fun _ => [])). exact Hf.
  - left. rewrite (pair_run _ (fun _ => [])). unfold subscribe. by destruct (closed r).
  - by left.
Qed.
Lemma base_path env r op : healthy r → disk_ok r → storePath (base env r op) = storePath r.
Proof.
  intros Hh Hd. pose proof (reload_outcome decodeSnapshot env r _ _ Hh Hd (surjective_pairing _)) as [[_ (Hp & _) _ _] _]. by destruct op.
Qed.
(** An update that succeeds has written what it leaves. *)
Lemma commit_saved env r evs r' : commitEventsLocked env r evs = (r', Ok tt) → storePath r = "" ∨ undisturbed env = env.
Proof.
  unfold commitEventsLocked. destruct (batch_events r [] evs); [|done]. unfold commitNotificationBatchLocked. destruct (checkLocked _ _ _); [|done].
  unfold saveLocked. destruct (String.eqb_spec (storePath r) ""); [by left|]. destruct (_ <? _); [done|]. right. destruct env as [now ad rd []]; done.
Qed.
Lemma update_saved env r r0 id rev m r' rec : lockAndReload decodeSnapshot env r = (r0, Ok tt) →
  update decodeSnapshot env r id rev m = (r', Ok rec) →
  storePath r0 = "" ∨ undisturbed env = env ∧ file r' = Some (snapshot_text (snapshotLocked r')).
Proof.
  intros Hl Hu. destruct (update_outcome _ _ _ _ _ _ _ _ _ Hl Hu) as [(e & ? & _)|(before & out & t & code & s & _ & _ & _ & (_ & Hf & Hct) & _)]; [done|].
  cbn [is_ok] in Hct. destruct Hf as [[_ Hp]|[Hf _]]; [left; by apply Hp|]. rewrite <- (snapshot_content _ _ Hct) in Hf.
  unfold update in Hu. rewrite Hl in Hu. destruct (records r0 !! trim_space id) as [before1|]; [|done]. destruct (negb _); [done|].
  destruct (m _ _) as [[[[rec1 t1] code1] s1]|]; [|done]. destruct (appendEventFromLocked r0 _ t1 _ code1 s1) as [r1 rec2] eqn:Ha.
  assert (storePath r1 = storePath r0) as Hp1 by by injection Ha as <- _.
  destruct (commitEventsLocked env _ _) as [r3 [[]|e]] eqn:Hc; [|done]. apply commit_saved in Hc as [Hp|He]; [left|by right].
  rewrite trimmed_path in Hp. cbn in Hp. congruence.
Qed.
Lemma run_path env r op : healthy r → disk_ok r → op_ok env r op → storePath (run env r op).1 = storePath r.
Proof.
  intros Hh Hd Hok. destruct (run_leaves _ _ _ Hh Hd Hok) as [->|[_ _ _ Hp]]; [done|]. by rewrite Hp, base_path.
Qed.

(** What the operation writes, if it writes, is read back as it is. *)
Definition reads_back env r (op : Op) : Prop :=
  storePath r = "" ∨
  decodeSnapshot (snapshot_text (snapshotLocked (intended env r op))) = Ok (snapshotLocked (intended env r op)).
Fixpoint run_all r (l : list (Env * Op)) : Registry :=
  match l with [] => r | (env, op) :: l => run_all (run env r op).1 l end.
(** A run in which the clock, the languages and the late answers are in order
    and every file can be read back. *)
Fixpoint orderly r (l : list (Env * Op)) : Prop :=
  match l with
  | [] => True
  | (env, op) :: l => op_ok env r op ∧ reads_back env r op ∧ orderly (run env r op).1 l
  end.

Lemma run_disk env r op : healthy r → disk_ok r → op_ok env r op → reads_back env r op →
  healthy (run env r op).1 ∧ healthy (intended env r op) ∧ disk_ok (run env r op).1 ∧
  (file (run env r op).1 = file r ∨
   file (run env r op).1 = Some (snapshot_text (snapshotLocked (intended env r op))) ∧
   decodeSnapshot (snapshot_text (snapshotLocked (intended env r op))) = Ok (snapshotLocked (intended env r op))).
Proof.
  intros Hh Hd Hok Hb. pose proof (run_healthy env r op Hh Hd Hok) as Hh1.
  assert (healthy (intended env r op)) as Hh2 by exact (run_healthy (undisturbed env) r op Hh Hd Hok).
  assert (file (run env r op).1 = file r ∨
    file (run env r op).1 = Some (snapshot_text (snapshotLocked (intended env r op))) ∧
    decodeSnapshot (snapshot_text (snapshotLocked (intended env r op))) = Ok (snapshotLocked (intended env r op))) as Hf.
  { destruct (run_meant env r op Hh Hd) as [Hf|[Hne Hf]]; [by left|right]. destruct Hb as [?|Hb]; [done|]. by split. }
  split_and!; try done. unfold InteractionMachine.disk_ok. destruct Hf as [->|[-> Hb']]; [exact Hd|eauto].
Qed.
Lemma run_all_disk l : ∀ r, healthy r → disk_ok r → orderly r l →
  healthy (run_all r l) ∧
  (file (run_all r l) = file r ∨ ∃ l1 env op l2, l = l1 ++ (env, op) :: l2 ∧ let h := intended env (run_all r l1) op in
    healthy h ∧ file (run_all r l) = Some (snapshot_text (snapshotLocked h)) ∧
    decodeSnapshot (snapshot_text (snapshotLocked h)) = Ok (snapshotLocked h)).
Proof.
  induction l as [|[env op] l IH]; intros r Hh Hd Hl; [by split; [|left]|]. destruct Hl as (Hok & Hb & Hl). cbn [run_all].
  destruct (run_disk _ _ _ Hh Hd Hok Hb) as (Hh1 & Hh2 & Hd1 & Hf). destruct (IH _ Hh1 Hd1 Hl) as [Hh' [Hf'|(l1 & e & o & l2 & -> & Hw)]].
  - split; [done|]. rewrite Hf'. destruct Hf as [Hf|[Hf Hdec]]; [by left|right]. by exists [], env, op, l.
  - split; [done|]. right. by exists ((env, op) :: l1), e, o, l2.
Qed.


(** C29. The life of an interaction: except for pruning, an operation keeps
    every record it loaded, and a record it changes moves one step - its
    identity, route, origin, questions and deadline stay, its status follows
    [validTransition] or goes from created to claimed, a terminal status
    stays, an answer once set and a consumption once recorded stay, and the
    revision and the event counter grow by exactly one. *)
Theorem run_moves_records env r op :
  healthy r → disk_ok r → op_ok env r op → keeps_records op = true →
  (run env r op).1 = r ∨
  ∀ id a, records (base env r op) !! id = Some a →
    ∃ b, records (run env r op).1 !! id = Some b ∧ (b = a ∨ record_step a b).
Proof.
  intros Hh Hd Hok Hk. destruct (run_leaves _ _ _ Hh Hd Hok) as [->|[_ _ He _]]; [by left|right].
  by apply He.
Qed.

(** ** Compare and swap *)

Lemma apply_change_ok env r id rev c r' rec :
  apply_change decodeSnapshot env r id rev c = (r', Ok rec) →
  ∃ r0 m, lockAndReload decodeSnapshot env r = (r0, Ok tt) ∧ change_mutation r0 c = Ok m
    ∧ update decodeSnapshot env r id rev m = (r', Ok rec).
Proof.
  rewrite apply_change_update. destruct (lockAndReload decodeSnapshot env r) as [r0 [[]|e]] eqn:Hl; cbn [fst].
  - destruct (change_mutation r0 c) as [m|e] eqn:Hm; [|done].
    destruct (update decodeSnapshot env r id rev m) as [r1 res1] eqn:Hu. intros Heq. exists r0, m.
    split_and!; [done..|]. injection Heq as -> Heq. rewrite Hu. f_equal.
    destruct c; cbn [change_result] in Heq; try done. destruct res1; [|done]. by destruct (_ && _).
  - destruct (change_mutation r0 c) as [m|e']; [|done]. unfold update. rewrite Hl. by destruct c.
Qed.

(** A change is a compare-and-swap on the revision: it succeeds only
    when the stored revision is the expected one, stores the record it
    returns under its id and nothing else, and that record is exactly one
    revision and one event further; the event, the newest of the log, has
    the record's counter as its sequence number and its old and new
    status. *)
Theorem change_is_compare_and_swap env r id rev c r' rec :
  healthy r → disk_ok r → op_ok env r (OpChange id rev c) → 1 ≤ MaxEvents (options r) →
  apply_change decodeSnapshot env r id rev c = (r', Ok rec) →
  let r0 := base env r (OpChange id rev c) in
  ∃ before, records r0 !! trim_space id = Some before ∧ in_Revision before = rev ∧ record_step before rec
    ∧ records r' = <[trim_space id := rec]> (records r0)
    ∧ ∃ e, last (events r') = Some e ∧ ie_InteractionID e = trim_space id
      ∧ ie_Sequence e = in_LastEventSeq rec ∧ ie_From e = in_Status before ∧ ie_To e = in_Status rec.
Proof.
  intros Hh Hd Hok Hmax Hc. apply apply_change_ok in Hc as (r0 & m & Hl & Hm & Hu).
  unfold op_ok, base in *. rewrite Hl in *. cbn [fst] in *. cbv zeta.
  destruct (reload_outcome _ _ _ _ _ Hh Hd Hl) as [[Hh0 (_ & Hopt & _) _ _] _].
  destruct Hok as (Hcok & _ & Hclk).
  apply (update_outcome _ _ _ _ _ _ _ _ _ Hl) in Hu as [(e & ? & _)|(before & out & t & code & s & Hid & Hrev & Hmut & Hcm & Hout)];
    [done|]. specialize (Hout rec eq_refl). destruct (h_records _ Hh0 _ _ Hid) as [Hkey Hhr].
  destruct (change_good _ _ _ _ _ _ _ _ _ Hhr (proj1 Hclk) Hcok Hm Hmut) as [Hg _].
  assert (record_step before rec) as Hstep
    by (rewrite Hout; apply stored_step; [done..|by eapply change_shape]).
  exists before. split_and!; [done..| |].
  - destruct Hcm as (_ & _ & Hct). apply content_fields in Hct as (-> & _). rewrite trimmed_records. by rewrite Hout.
  - destruct Hcm as (_ & _ & Hct). apply content_fields in Hct as (_ & -> & _). rewrite <- Hout.
    eexists. split; [eapply trimEvents_newest; [change (1 ≤ MaxEvents (options r0)); by rewrite Hopt|reflexivity|]|].
    + eexists. apply lookup_insert_Some. left. split; [|done]. cbn [make_event ie_InteractionID].
      destruct Hstep as ([(-> & _) _ _ _] & _). by rewrite Hkey.
    + split_and!; [|done..]. cbn [make_event ie_InteractionID]. destruct Hstep as ([(-> & _) _ _ _] & _). by rewrite Hkey.
Qed.

(** A change made against another revision than the stored one is
    refused as a conflict and changes nothing. *)
Theorem stale_revision_refused env r r0 id rev c m before :
  lockAndReload decodeSnapshot env r = (r0, Ok tt) → change_mutation r0 c = Ok m →
  records r0 !! trim_space id = Some before → in_Revision before ≠ rev →
  apply_change decodeSnapshot env r id rev c = (r0, Err (ErrConflict "revision")).
Proof.
  intros Hl Hm Hid Hrev. rewrite apply_change_update, Hl. cbn [fst]. rewrite Hm. unfold update. rewrite Hl, Hid.
  apply Z.eqb_neq in Hrev. rewrite Hrev. by destruct c.
Qed.

(** ** Failures *)

(** The registry after a failed operation. *)
Definition restored {A} r r0 r' (res : result Error A) : Prop :=
  (content r' = content r ∨ content r' = content r0) ∧ pending r' = pending r
  ∧ (wrote res = false → file r' = file r).

Lemma restored_refl {A} r r0 (res : result Error A) : restored r r0 r res.
Proof. split_and!; [by left|done..]. Qed.
Lemma restored_base {A} r r0 (res : result Error A) :
  file r0 = file r → pending r0 = pending r → restored r r0 r0 res.
Proof. intros. split_and!; [by right|done..]. Qed.
Lemma restored_committed {A} r r0 r2 r' e :
  file r0 = file r → pending r0 = pending r → committed r0 r2 r' (Err e : result Error A) →
  restored r r0 r' (Err e : result Error A).
Proof.
  intros Hf Hp (_ & Hfa & Hct & Hpd). split_and!; [by right|congruence|].
  intros Hw. destruct Hfa as [[Hfa _]|[_ Hfa]]; congruence.
Qed.

(** What the reload leaves, as the operations that failed after it see it. *)
Definition after_reload r r0 (res0 : result Error ()) : Prop :=
  healthy r0 ∧ file r0 = file r ∧ pending r0 = pending r
  ∧ (res0 = Ok tt ∨ r0 = r ∧ ∃ e0, res0 = Err e0).

Lemma after_reload_base {A} r r0 res0 e : after_reload r r0 res0 → restored r r0 r0 (Err e : result Error A).
Proof. intros (_ & ? & ? & _). by apply restored_base. Qed.
Lemma after_reload_committed {A} r r0 res0 r2 r' e :
  after_reload r r0 res0 → committed r0 r2 r' (Err e : result Error A) → restored r r0 r' (Err e : result Error ()).
Proof. intros (_ & ? & ? & _) Hcm. by eapply restored_committed in Hcm. Qed.

Lemma failed_create_restores env r r0 res0 req random r' e :
  lockAndReload decodeSnapshot env r = (r0, res0) → after_reload r r0 res0 →
  (∀ rec, buildRecord req random (env_now env) = Ok rec → map_Forall (fun _ ex => ¬ chains ex rec) (records r0)) →
  Create decodeSnapshot env r req random = (r', Err e) → restored r r0 r' (Err e : result Error ()).
Proof.
  intros Hl Har Hch Hc. pose proof Har as (Hh0 & _ & _ & Hres).
  destruct (buildRecord req random (env_now env)) as [rec|eb] eqn:Hb.
  2:{ unfold Create in Hc. cbv zeta in Hc. rewrite Hb in Hc. injection Hc as <- <-. apply restored_refl. }
  destruct Hres as [->|(-> & e0 & ->)].
  2:{ unfold Create in Hc. cbv zeta in Hc. rewrite Hb, Hl in Hc. injection Hc as <- <-. apply restored_refl. }
  specialize (Hch _ eq_refl). apply (Create_outcome _ _ _ _ _ _ _ _ _ Hl Hh0 Hb) in Hc
    as [(e1 & _ & [->|(id & ex & Hid & Hx & _)])|(r2 & Hor & _ & _ & _ & Hcm & _)].
  - by eapply after_reload_base.
  - by destruct (Hch _ _ Hid).
  - by eapply after_reload_committed.
Qed.

Lemma failed_change_restores env r r0 res0 id rev c r' e :
  lockAndReload decodeSnapshot env r = (r0, res0) → after_reload r r0 res0 → e ≠ ErrApprovalExpired →
  apply_change decodeSnapshot env r id rev c = (r', Err e) → restored r r0 r' (Err e : result Error ()).
Proof.
  intros Hl Har He Hc. rewrite apply_change_update, Hl in Hc. cbn [fst] in Hc.
  destruct (change_mutation r0 c) as [m|em]; [|injection Hc as <- <-; apply restored_refl].
  destruct (update decodeSnapshot env r id rev m) as [r2 res2] eqn:Hu. injection Hc as -> Hc.
  assert (res2 = Err e) as ->.
  { destruct c; cbn [change_result] in Hc; try done. destruct res2; [|done]. destruct (_ && _); congruence. }
  destruct (proj2 (proj2 (proj2 Har))) as [->|(-> & e0 & ->)].
  2:{ unfold update in Hu. rewrite Hl in Hu. injection Hu as <- <-. apply restored_refl. }
  apply (update_outcome _ _ _ _ _ _ _ _ _ Hl) in Hu as [(e1 & _ & -> & _)|(before & out & t & code & s & _ & _ & _ & Hcm & _)];
    [by eapply after_reload_base|by eapply after_reload_committed].
Qed.

Lemma failed_sweep_restores env r r0 res0 at_ r' e :
  lockAndReload decodeSnapshot env r = (r0, res0) → after_reload r r0 res0 →
  ClaimOverdue decodeSnapshot env r at_ = (r', Err e) → restored r r0 r' (Err e : result Error ()).
Proof.
  intros Hl Har Hc. destruct (proj2 (proj2 (proj2 Har))) as [->|(-> & e0 & ->)].
  2:{ unfold ClaimOverdue in Hc. rewrite Hl in Hc. injection Hc as <- <-. apply restored_refl. }
  apply (ClaimOverdue_outcome _ _ _ _ _ _ _ Hl) in Hc
    as [(e1 & _ & -> & _)|(l1 & l2 & _ & _ & [(_ & _ & _ & ?)|(_ & Hcm & _)])];
    [by eapply after_reload_base|done|by eapply after_reload_committed].
Qed.

Lemma failed_prune_restores env r r0 res0 at_ r' e :
  lockAndReload decodeSnapshot env r = (r0, res0) → after_reload r r0 res0 →
  Prune decodeSnapshot env r at_ = (r', Err e) → restored r r0 r' (Err e : result Error ()).
Proof.
  intros Hl Har Hc. destruct (proj2 (proj2 (proj2 Har))) as [->|(-> & e0 & ->)].
  2:{ unfold Prune in Hc. rewrite Hl in Hc. injection Hc as <- <-. apply restored_refl. }
  apply (Prune_outcome _ _ _ _ _ _ _ Hl (proj1 Har)) in Hc as [Hcm|(? & _)]; [by eapply after_reload_committed|done].
Qed.

(** A failed operation leaves nothing behind: the records, the events
    and the commit sequence are those before it (or those it reloaded), no
    notification stays accounted, and the file is untouched unless the
    error is that of a write that was committed.  An approval that expired
    is reported as an error but stored, and creation is taken up to the
    first chained predecessor. *)
Theorem failed_operation_restores env r op r' e :
  healthy r → disk_ok r → run env r op = (r', Err e) → e ≠ ErrApprovalExpired →
  (∀ req random rec, op = OpCreate req random → buildRecord req random (env_now env) = Ok rec →
     map_Forall (fun _ ex => ¬ chains ex rec) (records (base env r op))) →
  (content r' = content r ∨ content r' = content (base env r op)) ∧ pending r' = pending r
  ∧ (e ≠ ErrWrite true → file r' = file r).
Proof.
  intros Hh Hd Hrun He Hch.
  enough (restored r (base env r op) r' (Err e : result Error ())) as (? & ? & Hf).
  { split_and!; [done..|]. intros Hne. apply Hf. cbn. by destruct e as [| | | | | | | | | | | | | | | |[]|]. }
  unfold base in *. destruct (lockAndReload decodeSnapshot env r) as [r0 res0] eqn:Hl.
  assert (after_reload r r0 res0) as Har.
  { destruct (reload_outcome _ _ _ _ _ Hh Hd Hl) as [[Hh0 _ Hf Hp] _].
    by destruct (reload_cases _ _ _ _ Hh Hd Hl) as (_ & _ & Hres). }
  destruct op as [req random|id rev c|at_|at_| | |i]; unfold InteractionMachine.run in Hrun; cbn [fst] in *.
  - destruct (Create decodeSnapshot env r req random) as [r1 [out|e1]] eqn:Hc; [done|]. injection Hrun as -> ->.
    eapply failed_create_restores; [done..| |done]. intros rec. by apply Hch.
  - destruct (apply_change decodeSnapshot env r id rev c) as [r1 [out|e1]] eqn:Hc; [done|]. injection Hrun as -> ->.
    by eapply failed_change_restores.
  - by eapply failed_sweep_restores.
  - destruct (Prune decodeSnapshot env r at_) as [r1 [out|e1]] eqn:Hc; [done|]. injection Hrun as -> ->.
    by eapply failed_prune_restores.
  - unfold Refresh in Hrun. rewrite Hl in Hrun. destruct res0; [done|]. injection Hrun as -> ->.
    by eapply after_reload_base.
  - unfold subscribe in Hrun. destruct (closed r); [|done]. injection Hrun as <- <-. apply restored_refl.
  - done.
Qed.
End props.
