(* ===== verification/InteractionApproval.v ===== *)
(** Approvals are consumed at most once, and what claiming an answer does. *)
From S2P Require Import Prelude GoStrings GoJson TaskResult CodingScope BusInbound InteractionTypes.
From S2P Require Import InteractionRegistry InteractionStore InteractionHealth InteractionInvariant.
From S2P Require Import InteractionMachine InteractionOutcome InteractionSteps.
From S2P Require Import InteractionProps.

Section approval.
Context `{MapOrder} `{UnicodeCase} `{LanguageTags}.
Variable decodeSnapshot : string → result string Snapshot.
Implicit Types (r : Registry) (rec : Record) (env : Env).

Local Abbreviation run := (run decodeSnapshot).

(** An approval authorises one call: consuming it succeeds only for an
    allowed approval that is resuming, was not consumed, has not expired and
    was given for this very tool call, tool and argument hash; the stored
    record then carries the time of its consumption. *)
Theorem ConsumeApproval_authorises env r r0 id rev toolCallID toolName argumentHash r' rec :
  lockAndReload decodeSnapshot env r = (r0, Ok tt) →
  ConsumeApproval decodeSnapshot env r id rev toolCallID toolName argumentHash = (r', Ok rec) →
  ∃ before, records r0 !! trim_space id = Some before ∧ in_Revision before = rev
    ∧ in_Kind before = KindApproval ∧ in_Status before = StatusResuming ∧ in_Outcome before = OutcomeAllowed
    ∧ in_ApprovalConsumedAt before = 0
    ∧ og_ToolCallID (in_Origin before) = trim_space toolCallID
    ∧ og_ToolName (in_Origin before) = trim_space toolName
    ∧ og_ArgumentHash (in_Origin before) = trim_space argumentHash ∧ trim_space argumentHash ≠ ""
    ∧ (in_ExpiresAt before ≤ 0 ∨ env_now env < in_ExpiresAt before)
    ∧ in_ApprovalConsumedAt rec = env_now env ∧ records r' !! trim_space id = Some rec.
Proof.
  intros Hl Hc.
  apply (apply_change_ok decodeSnapshot env r id rev (ChConsumeApproval toolCallID toolName argumentHash)) in Hc as Hu.
  destruct Hu as (r0' & m & Hl' & Hm & Hu). rewrite Hl in Hl'. injection Hl' as <-. injection Hm as <-.
  apply (update_outcome _ _ _ _ _ _ _ _ _ Hl) in Hu as Hout.
  destruct Hout as [(e & ? & _)|(before & out & t & code & s & Hid & Hrev & Hmut & Hcm & Hout)]; [done|].
  specialize (Hout rec eq_refl).
  unfold ConsumeApproval_mutate in Hmut. apply reject_ok in Hmut as [Hg Hmut].
  rewrite !orb_false_iff, !negb_false_iff, !bool_decide_eq_true, Z.eqb_eq, !String.eqb_eq, String.eqb_neq in Hg.
  destruct Hg as (((((((Hk & Hst) & Ho) & Hcn) & Htc) & Htn) & Hne) & Hhash).
  destruct (stored_fields r0 out (env_now env)) as (_ & _ & _ & _ & _ & Ho' & _ & _ & _ & _ & Hc' & _).
  unfold ConsumeApproval in Hc. rewrite Hu in Hc.
  destruct (_ && _) eqn:Hexp in Hmut; injection Hmut as <- <- <- <-.
  - exfalso. rewrite Hout, Ho', Hc' in Hc.
    cbn [in_Outcome in_ApprovalConsumedAt Prelude.update eta_Record] in Hc. by rewrite Hcn in Hc.
  - destruct Hcm as (_ & _ & Hct). apply content_fields in Hct as (Hrec & _). rewrite trimmed_records in Hrec.
    exists before. split_and!; try done.
    + congruence.
    + apply andb_false_iff in Hexp as [?%Z.ltb_ge|?%Z.leb_gt]; auto.
    + by rewrite Hout, Hc'.
    + rewrite Hrec, Hout. apply lookup_insert_eq.
Qed.

(** ** At most once *)

(** The approval [id] has been consumed: the registry says so, and so does the
    file, if there is one to keep. *)
Definition spent (id : string) r : Prop := ∃ a, records r !! id = Some a ∧ in_ApprovalConsumedAt a ≠ 0.
Definition held (id : string) r : Prop :=
  spent id r ∧ (storePath r = "" ∨
    ∃ data h, file r = Some data ∧ healthy h ∧ decodeSnapshot data = Ok (snapshotLocked h) ∧ spent id h).

Lemma spent_records id r r' : records r' = records r → spent id r → spent id r'.
Proof. unfold spent. by intros ->. Qed.
(** What was consumed is consumed after a reload. *)
Lemma held_base id env r op : healthy r → held id r → spent id (base decodeSnapshot env r op).
Proof.
  intros Hh [Hs Hd]. assert (spent id (lockAndReload decodeSnapshot env r).1) as Hl; [|by destruct op].
  unfold lockAndReload. destruct (closed r); [done|]. destruct (env_admission env); [|done].
  destruct (match loadErr r with Some _ => _ | None => _ end); [done|].
  destruct (String.eqb_spec (storePath r) ""); [by apply (spent_records id r)|]. fold (emptied r). unfold load.
  change (file (emptied r)) with (file r). destruct Hd as [?|(data & h & Hf & Hhh & Hdec & Hsh)]; [done|]. rewrite Hf.
  destruct (env_read env); [by rewrite restore_adopts|]. unfold loadData. rewrite Hdec, load_adopts by done.
  by apply (spent_records id h).
Qed.
Lemma spent_kept id env r op : healthy r → disk_ok decodeSnapshot r → op_ok decodeSnapshot env r op → keeps_records op = true →
  spent id r → spent id (base decodeSnapshot env r op) → spent id (run env r op).1.
Proof.
  intros Hh Hd Hok Hk Hs (a & Ha & Hc). destruct (run_leaves _ _ _ _ Hh Hd Hok) as [->|[_ _ He _]]; [done|].
  destruct (He Hk _ _ Ha) as (b & Hb & Hor). exists b. split; [done|]. destruct Hor as [->|([_ _ Hm _] & _)]; [done|by rewrite Hm].
Qed.
(** No operation takes a consumption back, whatever becomes of its write. *)
Lemma held_kept id env r op : healthy r → disk_ok decodeSnapshot r → op_ok decodeSnapshot env r op → keeps_records op = true →
  reads_back decodeSnapshot env r op → held id r → held id (run env r op).1.
Proof.
  intros Hh Hd Hok Hk Hb Hheld. pose proof (held_base id env r op Hh Hheld) as Hbase. pose proof Hheld as [Hs Hfile].
  destruct (run_disk _ _ _ _ Hh Hd Hok Hb) as (_ & Hhi & _ & Hf). split; [by apply spent_kept|].
  assert (storePath (run env r op).1 = storePath r) as -> by by apply run_path.
  destruct Hfile as [?|(data & h & Hdata & Hhh & Hdec & Hsh)]; [by left|right]. destruct Hf as [->|[-> Hdec']]; [by exists data, h|].
  eexists _, _. split; [done|]. split; [exact Hhi|]. split; [exact Hdec'|].
  exact (spent_kept id (undisturbed env) r op Hh Hd Hok Hk Hs Hbase).
Qed.

(** The operations of one process over its store, nothing pruned. *)
Fixpoint unpruned (l : list (Env * Op)) : Prop :=
  match l with [] => True | (_, op) :: l => keeps_records op = true ∧ unpruned l end.
Definition consumed_by env r (op : Op) (id : string) : bool :=
  match op with
  | OpChange id' _ (ChConsumeApproval _ _ _) => String.eqb (trim_space id') id && is_ok (run env r op).2
  | _ => false
  end.
Fixpoint consumptions (id : string) r (l : list (Env * Op)) : nat :=
  match l with
  | [] => 0
  | (env, op) :: l => (if consumed_by env r op id then 1 else 0) + consumptions id (run env r op).1 l
  end.

Lemma consumed_by_facts env r op id : consumed_by env r op id = true →
  (∃ before, records (base decodeSnapshot env r op) !! id = Some before ∧ in_ApprovalConsumedAt before = 0)
  ∧ (∃ rec, records (run env r op).1 !! id = Some rec ∧ in_ApprovalConsumedAt rec = env_now env)
  ∧ (storePath (base decodeSnapshot env r op) = "" ∨
     undisturbed env = env ∧ file (run env r op).1 = Some (snapshot_text (snapshotLocked (run env r op).1))).
Proof.
  intros Hc. destruct op as [|id' rev c| | | | |]; try done. destruct c; try done.
  cbn [consumed_by] in Hc. apply andb_true_iff in Hc as [<-%String.eqb_eq Hok]. cbn [InteractionMachine.run base] in *.
  destruct (apply_change decodeSnapshot env r id' rev _) as [r' [rec|e]] eqn:Ha; [|done].
  pose proof (apply_change_ok _ _ _ _ _ _ _ _ Ha) as (r0 & m & Hl & _ & Hu).
  apply (ConsumeApproval_authorises _ _ _ _ _ _ _ _ _ _ Hl) in Ha as (before & Hid & _ & _ & _ & _ & Hz & _ & _ & _ & _ & _ & Hn & Hr').
  rewrite Hl. cbn [fst]. split; [eauto|]. split; [by exists rec|]. by eapply update_saved.
Qed.
Lemma first_consumption id env r op : healthy r → disk_ok decodeSnapshot r → op_ok decodeSnapshot env r op →
  reads_back decodeSnapshot env r op → consumed_by env r op id = true → held id (run env r op).1.
Proof.
  intros Hh Hd Hok Hb Hcb. destruct (run_disk _ _ _ _ Hh Hd Hok Hb) as (Hh' & _ & _ & _).
  destruct (consumed_by_facts _ _ _ _ Hcb) as (_ & (rec & Hrec & Hn) & Hsaved).
  assert (spent id (run env r op).1) as Hs.
  { exists rec. split; [done|]. rewrite Hn. destruct op as [|? ? c| | | | |]; try done. destruct Hok as (_ & _ & Hclk & _). lia. }
  split; [done|]. rewrite (run_path decodeSnapshot env r op Hh Hd Hok).
  destruct Hb as [?|Hb]; [by left|]. destruct Hsaved as [Hp|[Hu Hf]].
  - left. by rewrite (base_path decodeSnapshot env r op Hh Hd) in Hp.
  - right. unfold intended in Hb. rewrite Hu in Hb. by eexists _, _.
Qed.
Lemma held_blocks id l : ∀ r, healthy r → disk_ok decodeSnapshot r → orderly decodeSnapshot r l → unpruned l → held id r →
  consumptions id r l = 0%nat.
Proof.
  induction l as [|[env op] l IH]; [done|]. intros r Hh Hd (Hok & Hb & Hl) [Hk Hu] Hheld. cbn [consumptions].
  assert (consumed_by env r op id = false) as ->.
  { apply not_true_iff_false. intros Hcb. destruct (consumed_by_facts _ _ _ _ Hcb) as ((b & Hb' & ?) & _ & _).
    destruct (held_base id env r op Hh Hheld) as (a & Ha & ?). congruence. }
  destruct (run_disk _ _ _ _ Hh Hd Hok Hb) as (Hh' & _ & Hd' & _). apply IH; try done. by apply held_kept.
Qed.

(** C8. An approval authorises one call.  Take any run of the operations of one
    process over its store, under any ids and revisions, with writes, reads
    and admissions that fail anywhere and with every operation loading the
    file again: in it an approval is consumed at most once.  The run is one in
    which the clock is not behind the records, prompt languages canonicalize
    stably, no late answer carries the message of another answer and the
    decoder reads back what is written ([orderly]); no one else writes the
    file, and nothing is pruned, since a record that is gone is no longer known
    to be consumed. *)
Theorem approval_consumed_at_most_once id l : ∀ r,
  healthy r → disk_ok decodeSnapshot r → orderly decodeSnapshot r l → unpruned l → (consumptions id r l ≤ 1)%nat.
Proof.
  induction l as [|[env op] l IH]; [cbn; lia|]. intros r Hh Hd (Hok & Hb & Hl) [Hk Hu]. cbn [consumptions].
  destruct (run_disk _ _ _ _ Hh Hd Hok Hb) as (Hh' & _ & Hd' & _).
  destruct (consumed_by env r op id) eqn:Hcb; [|by apply IH].
  by rewrite (held_blocks id l) by (done || by apply (first_consumption id)).
Qed.

(** ** Answers *)

(** What answering does.  A claim succeeds only on a waiting question or
    approval at the expected revision and leaves it claimed.  At or after
    the deadline the outcome is a time-out and only the message identities
    of the answer are kept; before it the outcome is the claimed one, the
    text is the trimmed one and within its bound, a question is answered on
    its own question ids, an approval is allowed or denied, and the message
    answers no other interaction. *)
Theorem ClaimAnswer_outcome env r r0 id rev answer outcome r' rec :
  lockAndReload decodeSnapshot env r = (r0, Ok tt) →
  ClaimAnswer decodeSnapshot env r id rev answer outcome = (r', Ok rec) →
  ∃ before, records r0 !! trim_space id = Some before ∧ in_Revision before = rev
    ∧ in_Status before = StatusWaiting ∧ in_Kind before ≠ KindExternalWait ∧ in_Status rec = StatusClaimed
    ∧ if (0 <? in_ExpiresAt before) && (in_ExpiresAt before <=? env_now env)
      then in_Outcome rec = OutcomeTimedOut
        ∧ in_Answer rec = Some (bare_answer (trim_space (an_MessageID answer))
            (trim_space (an_ResponseMessageID answer)) (env_now env))
      else in_Outcome rec = outcome
        ∧ (in_Kind before = KindQuestion → outcome = OutcomeAnswered)
        ∧ (in_Kind before = KindApproval → outcome = OutcomeAllowed ∨ outcome = OutcomeDenied)
        ∧ ∃ a, in_Answer rec = Some a ∧ an_Text a = trim_space (an_Text answer)
          ∧ validBoundedString (an_Text a) MaxAnswerLength = true
          ∧ (in_Kind before = KindQuestion → ∀ key, key ∈ dom (an_Values a) → key ∈ q_ID <$> in_Questions before)
          ∧ (trim_space (an_MessageID answer) ≠ "" →
             unused r0 (scopedAnswerMessageIdentity (in_Route before) (trim_space (an_MessageID answer)))).
Proof.
  intros Hl Hc.
  apply (apply_change_ok decodeSnapshot env r id rev (ChClaimAnswer answer outcome)) in Hc as (r0' & m & Hl' & Hm & Hu).
  rewrite Hl in Hl'. injection Hl' as <-.
  assert (∃ a, prepare_answer answer = Ok a ∧ m = claim_mutate r0 a outcome) as (a & Hp & ->).
  { cbn [change_mutation] in Hm. destruct outcome; try done; apply result_bind_ok in Hm as (a & Hp & [= <-]); eauto. }
  apply (update_outcome _ _ _ _ _ _ _ _ _ Hl) in Hu
    as [(e & ? & _)|(before & out & t & code & s & Hid & Hrev & Hmut & Hcm & Hout)]; [done|].
  specialize (Hout rec eq_refl).
  destruct (stored_fields r0 out (env_now env)) as (_ & _ & _ & _ & Hst & Ho & Ha & _). rewrite <- Hout in Hst, Ho, Ha.
  assert (an_Text a = trim_space (an_Text answer) ∧ an_MessageID a = trim_space (an_MessageID answer)
    ∧ an_ResponseMessageID a = trim_space (an_ResponseMessageID answer)) as (Et & Em & Er).
  { unfold prepare_answer in Hp. rewrite bind_unit_ok, reject_ok in Hp. destruct Hp as (_ & _ & Hp).
    apply result_bind_ok in Hp as (media & _ & Hp). by apply reject_ok in Hp as [_ [= <-]]. }
  apply prepare_answer_ok in Hp as ((Htext & _) & _).
  unfold claim_mutate in Hmut. rewrite !reject_ok, bool_decide_eq_false, negb_false_iff, bool_decide_eq_true in Hmut.
  destruct Hmut as (Hk & Hs & Hmut). exists before. do 4 (split; [done|]). rewrite Hst, Ho, Ha.
  destruct (_ && _) eqn:Hexp.
  - apply mutated_eq in Hmut as [= -> -> -> ->]. rewrite <- Em, <- Er. done.
  - rewrite reject_ok, bind_unit_ok, !reject_ok in Hmut. destruct Hmut as (Hq & _ & _ & Hap & Hids & Huse & Hmut).
    apply mutated_eq in Hmut as [= -> -> -> ->]. split; [done|]. split; [done|]. split_and!.
    + intros Hkq. rewrite bool_decide_eq_true_2 in Hq by done. cbn in Hq.
      by apply negb_false_iff, bool_decide_eq_true in Hq.
    + intros Hka. rewrite bool_decide_eq_true_2 in Hap by done. cbn in Hap.
      by rewrite andb_false_iff, !negb_false_iff, !bool_decide_eq_true in Hap.
    + destruct (received_fields a (env_now env)) as (Ft & Fv & _ & _ & _ & _ & _).
      exists (received a (env_now env)). split; [done|]. rewrite Ft, Fv. split_and!; [done..| |].
      * intros Hkq key Hkey. rewrite bool_decide_eq_true_2 in Hids by done. cbn [andb] in Hids.
        destruct (decide (key ∈ q_ID <$> in_Questions before)); [done|]. exfalso.
        apply not_true_iff_false in Hids. apply Hids, existsb_exists. exists key.
        split; [|by apply negb_true_iff, bool_decide_eq_false].
        apply elem_of_dom in Hkey as [v Hv]. apply list_elem_of_In. unfold go_keys.
        apply list_elem_of_fmap. exists (key, v). split; [done|]. by apply elem_of_go_range.
      * rewrite <- Em. intros Hne%String.eqb_neq. rewrite Hne in Huse. by apply not_in_use.
Qed.
End approval.
