(* ===== verification/InteractionRetention.v ===== *)
(** Creation, time-outs, retention, look-up and the notification budget of
    interactions. *)
From S2P Require Import Prelude GoStrings GoJson TaskResult CodingScope BusInbound InteractionTypes.
From S2P Require Import InteractionRegistry InteractionStore InteractionHealth InteractionInvariant.
From S2P Require Import InteractionMachine InteractionOutcome InteractionSteps InteractionProps.

(** ** The notification budget

    Accepted notifications never exceed it. *)

(** The accounted notifications are within the budget. *)
Definition within (r : Registry) : Prop :=
  Z.of_nat (length (pending r)) ≤ MaxPendingObservations (options r)
  ∧ sum_bytes (pending r) ≤ MaxPendingObservationBytes (options r)
  ∧ Forall (fun bytes => 0 ≤ bytes) (pending r).

(** What the budget depends on is the same. *)
Definition same_budget (r r' : Registry) : Prop := pending r' = pending r ∧ options r' = options r.
#[export] Instance same_budget_preorder : PreOrder same_budget.
Proof. split; unfold same_budget; [done|]. intros r1 r2 r3. intuition congruence. Qed.

#[export] Instance within_proper : Proper (same_budget ==> impl) within.
Proof. intros r r' [Hp Ho]. unfold within. by rewrite Hp, Ho. Qed.

Lemma sum_bytes_app l1 l2 : sum_bytes (l1 ++ l2) = sum_bytes l1 + sum_bytes l2.
Proof. unfold sum_bytes. induction l1 as [|x l1 IH]; cbn; [done|]. rewrite IH. lia. Qed.
Lemma sum_bytes_delete i l :
  Forall (fun x => 0 ≤ x) l → sum_bytes (delete i l) ≤ sum_bytes l ∧ (length (delete i l) ≤ length l)%nat.
Proof.
  revert i. induction l as [|x l IH]; intros i Hl; [by destruct i|].
  apply Forall_cons in Hl as [Hx Hl]. change (sum_bytes (x :: l)) with (x + sum_bytes l).
  destruct i as [|i].
  - change (delete 0%nat (x :: l)) with l. cbn [length]. lia.
  - change (delete (S i) (x :: l)) with (x :: delete i l). change (sum_bytes (x :: delete i l)) with (x + sum_bytes (delete i l)).
    destruct (IH i Hl). cbn [length]. lia.
Qed.

Section budget.
Context `{MapOrder} `{UnicodeCase} `{LanguageTags}.
Variable decodeSnapshot : string → result string Snapshot.
Implicit Types (r : Registry) (rec : Record) (env : Env).

Lemma reload_budget env r : same_budget r (lockAndReload decodeSnapshot env r).1.
Proof.
  unfold lockAndReload. destruct (closed r); [done|]. destruct (env_admission env); [|done].
  destruct (match loadErr r with Some _ => _ | None => _ end); [done|].
  destruct (String.eqb _ _); [done|]. unfold load. destruct (file _) as [data|]; [|done].
  destruct (env_read env); [done|]. unfold loadData. destruct (decodeSnapshot data) as [s|]; [|done].
  unfold loadSnapshot. destruct (negb _); [done|]. destruct (load_records _ _); [|done]. cbn.
  destruct (load_events _ _ _ _); [|done]. cbn. by destruct (_ <? _).
Qed.
Lemma save_budget env r : same_budget r (saveLocked env r).1.
Proof.
  destruct (saveLocked env r) as [r' res] eqn:E. by apply save_outcome in E as (_ & (_ & ? & _) & ? & _).
Qed.
Lemma trim_budget r : same_budget r (trimEventsLocked r).1.
Proof. by destruct (trimmed_config r) as ((_ & ? & _) & _ & _ & _ & ?). Qed.

(** ** Committing a batch *)

Lemma batch_append_nonneg r items event rec items' :
  Forall (fun x => 0 ≤ x) items → batch_append r items event rec = Ok items' → Forall (fun x => 0 ≤ x) items'.
Proof.
  unfold batch_append. intros Hi. destruct (_ =? _)%nat; [by intros [= <-]|].
  rewrite reject_ok, bind_unit_ok. intros (_ & _ & [= <-]). apply Forall_app. split; [done|].
  constructor; [|constructor]. apply Z.mul_nonneg_nonneg; [apply len_nonneg|lia].
Qed.
Lemma batch_events_nonneg r evs : ∀ items items',
  Forall (fun x => 0 ≤ x) items → batch_events r items evs = Ok items' → Forall (fun x => 0 ≤ x) items'.
Proof.
  induction evs as [|e evs IH]; intros items items' Hi; cbn [batch_events]; [by intros [= <-]|].
  rewrite result_bind_ok. intros (mid & Hm & He). eapply IH; [|exact He]. by eapply batch_append_nonneg.
Qed.

Lemma commitBatch_within env r items :
  within r → Forall (fun x => 0 ≤ x) items → within (commitNotificationBatchLocked env r items).1.
Proof.
  intros Hw Hi. unfold commitNotificationBatchLocked.
  destruct (checkLocked _ _ _) as [[]|] eqn:Hc; [|done].
  unfold checkLocked in Hc. apply reject_ok in Hc as [Hc _].
  apply orb_false_iff in Hc as [H1'%Z.ltb_ge H2'%Z.ltb_ge].
  pose proof (save_budget env r) as Hs. destruct (saveLocked env r) as [r1 [[]|e]]; cbn [fst] in *;
    [|by rewrite <- Hs].
  destruct Hw as (Hl & Hb & Hn). destruct Hs as [Hp Ho]. unfold within. cbn.
  rewrite Hp, Ho, length_app, sum_bytes_app, Forall_app. split_and!; [lia|lia|done..].
Qed.
Lemma commitEvents_within env r evs : within r → within (commitEventsLocked env r evs).1.
Proof.
  intros Hw. unfold commitEventsLocked. destruct (batch_events r [] evs) as [items|] eqn:E; [|done].
  apply commitBatch_within; [done|]. eapply batch_events_nonneg; [|exact E]. constructor.
Qed.

Lemma createLoop_budget rec now l : ∀ r sup, same_budget r (createLoop r rec now l sup).1.
Proof.
  induction l as [|[id ex] l IH]; intros r sup; cbn [createLoop]; [done|].
  destruct (_ && _); [|by repeat (destruct (_ && _); [done|])]. destruct (canChainInteraction ex rec); [|done].
  assert (same_budget r (appendEventFromLocked r (supersede r ex now) EventResolved (in_Status ex)
    "continued_with_next_interaction" None).1) as Ha by done.
  destruct (appendEventFromLocked _ _ _ _ _ _) as [r1 rec1]. cbn [fst] in Ha.
  etrans; [exact Ha|]. etrans; [|apply IH]. done.
Qed.

Lemma overdueLoop_budget now l : ∀ r claimed items,
  Forall (fun x => 0 ≤ x) items →
  match overdueLoop r now l claimed items with
  | OverdueDone r' _ items' => same_budget r r' ∧ Forall (fun x => 0 ≤ x) items'
  | OverdueFailed _ => True
  end.
Proof.
  induction l as [|[id rec] l IH]; intros r claimed items Hi; cbn [overdueLoop]; [done|].
  destruct (negb _); [by apply IH|].
  assert (same_budget r (appendEventFromLocked r (time_out rec now) EventAnswerClaimed no_status "timeout" None).1)
    as Ha by done.
  destruct (appendEventFromLocked _ _ _ _ _ _) as [r1 rec1]. cbn [fst] in Ha.
  destruct (batch_append r1 items _ rec1) as [items'|e] eqn:Hb.
  - apply batch_append_nonneg in Hb; [|done].
    specialize (IH (r1 <| records ::= <[id := rec1]> |>) (claimed ++ [cloneRecord rec1]) items' Hb).
    destruct (overdueLoop _ _ _ _ _); [|done]. destruct IH as [IH ?]. split; [|done]. by etrans; [exact Ha|].
  - destruct claimed; [done|]. by destruct e.
Qed.

(** ** The operations *)

Lemma update_within env r id rev m : within r → within (update decodeSnapshot env r id rev m).1.
Proof.
  intros Hw. unfold update. pose proof (reload_budget env r) as Hl.
  destruct (lockAndReload decodeSnapshot env r) as [r0 [[]|e]]; cbn [fst] in *; [|by rewrite <- Hl].
  assert (within r0) as Hw0 by by rewrite <- Hl. clear Hl.
  destruct (records r0 !! trim_space id) as [before|]; [|done]. destruct (negb _); [done|].
  destruct (m before (env_now env)) as [[[[rec t] code] s]|e]; [|done].
  pose proof (append_entered r0 (stamp r0 rec (env_now env)) t (in_Status before) code s (trim_space id)) as Ha.
  destruct (appendEventFromLocked _ _ _ _ _ _) as [r1 rec1]. destruct Ha as (_ & _ & _ & _ & Hent). rewrite Hent.
  assert (within (entered r0 (trim_space id) rec1 t (in_Status before) code s)) as Hw1 by exact Hw0.
  rewrite (trim_budget _) in Hw1.
  match goal with |- context [commitEventsLocked env ?r2 ?e] =>
    pose proof (commitEvents_within env r2 e Hw1) as Hc; destruct (commitEventsLocked env r2 e) as [r3 [[]|e3]] end;
    exact Hc.
Qed.

Lemma create_within env r req random : within r → within (Create decodeSnapshot env r req random).1.
Proof.
  intros Hw. unfold Create. cbv zeta. destruct (buildRecord req random (env_now env)) as [rec|]; [|done].
  pose proof (reload_budget env r) as Hl.
  destruct (lockAndReload decodeSnapshot env r) as [r0 [[]|e]]; cbn [fst] in *; [|by rewrite <- Hl].
  rewrite Hl in Hw. clear Hl. destruct (_ <=? _); [done|].
  pose proof (createLoop_budget rec (env_now env) (go_range (records r0)) r0 None) as Hcl.
  destruct (createLoop _ _ _ _ _) as [r1 [sup|e]]; cbn [fst] in *; rewrite Hcl in Hw; clear Hcl; [|done].
  destruct (bool_decide _); [done|].
  pose proof (append_entered r1 rec EventCreated no_status "" None (in_ID rec)) as Ha.
  destruct (appendEventFromLocked _ _ _ _ _ _) as [r2 rec2]. destruct Ha as (-> & _ & _ & _ & Hent).
  change (in_ID (rec <| in_LastEventSeq ::= Z.succ |>)) with (in_ID rec). rewrite Hent. fold (created r1 rec).
  assert (within (created r1 rec)) as Hw1 by exact Hw. rewrite (trim_budget _) in Hw1.
  match goal with |- context [commitEventsLocked env ?r3 ?e] =>
    pose proof (commitEvents_within env r3 e Hw1) as Hc; destruct (commitEventsLocked env r3 e) as [r4 [[]|e3]] end;
    [exact Hc|]. destruct sup as [[id before]|]; exact Hc.
Qed.

Lemma overdue_within env r at_ : within r → within (ClaimOverdue decodeSnapshot env r at_).1.
Proof.
  intros Hw. unfold ClaimOverdue. pose proof (reload_budget env r) as Hl.
  destruct (lockAndReload decodeSnapshot env r) as [r0 [[]|e]]; cbn [fst] in *; [|by rewrite <- Hl].
  rewrite Hl in Hw. clear Hl.
  pose proof (overdueLoop_budget (default (env_now env) at_) (go_range (records r0)) r0 [] [] (Forall_nil_2 _)) as Ho.
  destruct (overdueLoop _ _ _ _ _) as [r1 claimed items|e]; [|done]. destruct Ho as [Ho Hi].
  rewrite Ho in Hw. clear Ho. destruct (_ =? _)%nat; [done|]. rewrite (trim_budget _) in Hw.
  pose proof (commitBatch_within env _ items Hw Hi) as Hc.
  destruct (commitNotificationBatchLocked env (trimEventsLocked r1).1 items) as [r2 [[]|e]]; exact Hc.
Qed.

Lemma pruneLocked_budget r now : same_budget r (pruneLocked r now).1.
Proof.
  unfold pruneLocked.
  match goal with |- context [if ?c then prune_for_count ?a ?b ?d else ?x] =>
    assert (same_budget r (if c then prune_for_count a b d else x).1) as Hp;
    [destruct c; [destruct (count_prune_outcome b a d) as (m & -> & _)|]; done|];
    destruct (if c then prune_for_count a b d else x) as [r1 ch] end.
  cbn [fst] in Hp. pose proof (trim_budget r1) as Ht. destruct (trimEventsLocked r1) as [r2 ch2].
  cbn [fst] in *. by etrans.
Qed.

Lemma prune_within env r at_ : within r → within (Prune decodeSnapshot env r at_).1.
Proof.
  intros Hw. unfold Prune. pose proof (reload_budget env r) as Hl.
  destruct (lockAndReload decodeSnapshot env r) as [r0 [[]|e]]; cbn [fst] in *; [|by rewrite <- Hl].
  rewrite Hl in Hw. clear Hl. pose proof (pruneLocked_budget r0 (default (env_now env) at_)) as Hp.
  destruct (pruneLocked r0 _) as [r1 ch]. cbn [fst] in Hp. rewrite Hp in Hw. destruct (negb ch); [done|].
  pose proof (save_budget env r1) as Hs. destruct (saveLocked env r1) as [r2 [[]|e]]; cbn [fst] in *;
    rewrite Hs in Hw; exact Hw.
Qed.

(** The notifications accepted and not yet delivered never exceed the
    configured count or number of bytes, whatever the registry does and
    however slowly its subscribers are: an operation whose events would
    exceed it is refused instead. *)
Theorem notifications_within_budget env r op :
  within r → within (run decodeSnapshot env r op).1.
Proof.
  intros Hw. destruct op as [req random|id rev c|at_|at_| | |i]; cbn [run].
  - pose proof (create_within env r req random Hw) as Hc.
    by destruct (Create decodeSnapshot env r req random) as [? [?|?]].
  - rewrite apply_change_update. destruct (change_mutation _ c) as [m|]; [|done].
    pose proof (update_within env r id rev m Hw) as Hu.
    destruct (update decodeSnapshot env r id rev m) as [r' res]. cbn [fst] in Hu. by destruct (change_result c res).
  - by apply overdue_within.
  - pose proof (prune_within env r at_ Hw) as Hc. by destruct (Prune decodeSnapshot env r at_) as [? [?|?]].
  - unfold Refresh. pose proof (reload_budget env r) as Hl. rewrite Hl in Hw.
    by destruct (lockAndReload decodeSnapshot env r) as [? [?|?]].
  - unfold subscribe. by destruct (closed r).
  - destruct Hw as (Hl & Hb & Hn). destruct (sum_bytes_delete i _ Hn) as [Hs Hlen].
    change (within (r <| pending ::= delete i |>)). split_and!.
    + change (Z.of_nat (length (delete i (pending r))) ≤ MaxPendingObservations (options r)). lia.
    + change (sum_bytes (delete i (pending r)) ≤ MaxPendingObservationBytes (options r)). lia.
    + by apply Forall_delete.
Qed.
End budget.

Section retention.
Context `{MapOrder} `{UnicodeCase} `{LanguageTags}.
Variable decodeSnapshot : string → result string Snapshot.
Implicit Types (r : Registry) (rec : Record) (env : Env).

(** What creating does.  Creation succeeds only below the capacity, and
    then the new interaction is stored as created at revision one, under an
    id that was free; every live interaction that would share its session,
    its task or its short id is gone: at most one record of the registry
    changes, and that one was resuming, has the same task, continuation and
    route, and is resolved by its successor in the same step. *)
Theorem Create_admits_one env r r0 req random r' rec :
  lockAndReload decodeSnapshot env r = (r0, Ok tt) → healthy r0 → 0 < env_now env →
  language_stable (rq_PromptLanguage req) → Create decodeSnapshot env r req random = (r', Ok rec) →
  Z.of_nat (size (records r0)) < MaxRecords (options r0)
  ∧ records r0 !! in_ID rec = None ∧ records r' !! in_ID rec = Some rec
  ∧ in_Status rec = StatusCreated ∧ in_Revision rec = 1 ∧ in_LastEventSeq rec = 1
  ∧ (∀ id ex, id ≠ in_ID rec → records r' !! id = Some ex → ¬ conflicts ex rec)
  ∧ ∃ predecessor, ∀ id ex, records r0 !! id = Some ex →
      predecessor ≠ Some id ∧ records r' !! id = Some ex
      ∨ predecessor = Some id ∧ chains ex rec
        ∧ records r' !! id = Some (stored r0 (resolved ex) (env_now env)).
Proof.
  intros Hl Hh Hn Hls Hc.
  destruct (buildRecord req random (env_now env)) as [rec0|e] eqn:Hb.
  2:{ unfold Create in Hc. cbv zeta in Hc. by rewrite Hb in Hc. }
  destruct (buildRecord_ok _ _ _ _ Hn Hls Hb) as (Hst & _ & Hseq & Hrev & _).
  destruct (Create_outcome _ _ _ _ _ _ _ _ _ Hl Hh Hb Hc)
    as [(e & Herr & _)|(r1 & Hor & Hno & Hfree & Hcap & (_ & _ & Hct) & Hout)]; [done|].
  specialize (Hout rec eq_refl). cbn [is_ok] in Hct. apply content_fields in Hct as (Hrec & _).
  rewrite trimmed_records in Hrec.
  change (records (created r1 rec0)) with (<[in_ID rec0 := rec0 <| in_LastEventSeq ::= Z.succ |>]> (records r1)) in Hrec.
  rewrite <- Hout in Hrec.
  assert (in_ID rec = in_ID rec0 ∧ in_Status rec = in_Status rec0 ∧ in_Revision rec = in_Revision rec0
    ∧ in_LastEventSeq rec = Z.succ (in_LastEventSeq rec0)
    ∧ (∀ ex, conflicts ex rec ↔ conflicts ex rec0) ∧ (∀ ex, chains ex rec ↔ chains ex rec0))
    as (E1 & E2 & E3 & E4 & Hcf & Hchs) by (clear - Hout; by subst rec).
  clear Hout. rewrite Hrec, E1, E2, E3, E4, Hseq.
  assert (∃ o : option string, ∀ id ex, records r0 !! id = Some ex → id ≠ in_ID rec0
    ∧ (o ≠ Some id ∧ records r1 !! id = Some ex
    ∨ o = Some id ∧ chains ex rec ∧ records r1 !! id = Some (stored r0 (resolved ex) (env_now env)))) as [o Hkeep].
  { destruct Hor as [->|(id' & ex' & Hid' & Hch & ->)];
      [exists None|exists (Some id')]; intros id ex Hid; [split; [congruence|by left]|].
    change (records (chained r0 id' ex' (env_now env)))
      with (<[id' := stored r0 (resolved ex') (env_now env)]> (records r0)) in *.
    apply lookup_insert_None in Hfree as [Hfree ?]. split; [congruence|].
    destruct (decide (id' = id)) as [->|Hne].
    - right. rewrite Hid in Hid'. injection Hid' as ->. rewrite lookup_insert_eq. split_and!; [done|by apply Hchs|done].
    - left. rewrite lookup_insert_ne by done. split; [congruence|done]. }
  split_and!; try done.
  - destruct (records r0 !! in_ID rec0) as [ex|] eqn:E; [|done]. by destruct (Hkeep _ _ E).
  - by rewrite lookup_insert_eq.
  - intros id ex Hne. rewrite lookup_insert_ne by done. intros Hid. rewrite Hcf. exact (Hno _ _ Hid).
  - exists o. intros id ex Hid. destruct (Hkeep _ _ Hid) as [Hne Hk]. by rewrite lookup_insert_ne.
Qed.

(** What a successful sweep stores: the visited prefix [l1] of the records
    gives the claimed interactions. *)
Lemma sweep_stores env r r0 at_ r' claimed :
  lockAndReload decodeSnapshot env r = (r0, Ok tt) → ClaimOverdue decodeSnapshot env r at_ = (r', Ok claimed) →
  let now := default (env_now env) at_ in
  ∃ l1 l2, go_range (records r0) = l1 ++ l2 ∧ (batch_observers r0 = 0%nat → l2 = [])
    ∧ claimed ≡ₚ (fun p => timed p.2 now) <$> hits now l1 ∧ Sorted id_le claimed
    ∧ records r' = foldl (fun m p => <[p.1 := timed p.2 now]> m) (records r0) (hits now l1)
    ∧ (hits now l1 = [] → l2 = []).
Proof.
  intros Hl Hc now.
  apply (ClaimOverdue_outcome _ _ _ _ _ _ _ Hl) in Hc as [(e & ? & _)|(l1 & l2 & Hgr & Hobs & Hcase)]; [done|].
  fold now in Hcase. exists l1, l2. split; [done|]. split; [done|].
  destruct Hcase as [(Hh1 & -> & -> & [= ->])|(Hne & (_ & _ & Hct) & Hout)]; [rewrite Hh1; by split_and!|].
  rewrite (Hout _ eq_refl). apply content_fields in Hct as (Hr & _). rewrite trimmed_records in Hr.
  split_and!; [apply merge_sort_Permutation| | |done].
  - apply Sorted_merge_sort. intros a b. unfold id_le, str_le. apply String.leb_total.
  - by destruct (foldl_enter_records now (hits now l1) r0) as (<- & _).
Qed.

(** A record after the sweep: claimed if it was hit, unchanged otherwise. *)
Lemma sweep_lookup now l1 l2 (m m' : gmap string Record) :
  go_range m = l1 ++ l2 → m' = foldl (fun m p => <[p.1 := timed p.2 now]> m) m (hits now l1) →
  ∀ id a, m !! id = Some a →
    (id, a) ∈ hits now l1 ∧ m' !! id = Some (timed a now) ∨ (id, a) ∉ hits now l1 ∧ m' !! id = Some a.
Proof.
  intros Hgr -> id a Hid. destruct (hits_facts _ now _ _ Hgr) as (Hnd & Hin & _). rewrite timed_lookup by done.
  destruct (list_find (fun p => p.1 = id) (hits now l1)) as [[i p]|] eqn:E.
  - apply list_find_Some in E as (Hi & <- & _). apply list_elem_of_lookup_2 in Hi.
    rewrite Forall_forall in Hin. pose proof (Hin p Hi) as Hp. rewrite Hid in Hp. injection Hp as ->.
    left. destruct p. by split.
  - right. split; [|done]. apply list_find_None in E. rewrite Forall_forall in E.
    intros Hx. by apply (E _ Hx).
Qed.

(** The sweep for time-outs.  The interactions it returns are claimed
    with the time-out outcome, in the order of their ids, and every other
    record is as it was; without subscribers, whose notification budget could
    stop it early, no created or waiting interaction is left whose deadline
    has passed; and it claims something whenever there is something to
    claim. *)
Theorem ClaimOverdue_complete env r r0 at_ r' claimed :
  lockAndReload decodeSnapshot env r = (r0, Ok tt) → healthy r0 →
  ClaimOverdue decodeSnapshot env r at_ = (r', Ok claimed) →
  let now := default (env_now env) at_ in
  Sorted id_le claimed
  ∧ (∀ rec, rec ∈ claimed ↔ ∃ id a, records r0 !! id = Some a ∧ overdue a now = true
       ∧ records r' !! id = Some (timed a now) ∧ rec = timed a now)
  ∧ (∀ id a, records r0 !! id = Some a → records r' !! id = Some a
       ∨ overdue a now = true ∧ records r' !! id = Some (timed a now))
  ∧ (batch_observers r0 = 0%nat → ∀ id b, records r' !! id = Some b → overdue b now = false)
  ∧ ((∃ id a, records r0 !! id = Some a ∧ overdue a now = true) → claimed ≠ []).
Proof.
  intros Hl Hh Hc now. destruct (sweep_stores _ _ _ _ _ _ Hl Hc) as (l1 & l2 & Hgr & Hobs & Hperm & Hsort & Hrec & Hnil).
  fold now in Hperm, Hrec, Hnil. pose proof (sweep_lookup _ _ _ _ _ Hgr Hrec) as Hlook.
  destruct (hits_facts _ now _ _ Hgr) as (Hnd & Hin & Ho).
  assert (∀ id a, (id, a) ∈ l1 ++ l2 ↔ records r0 !! id = Some a) as Hgo
    by (intros; rewrite <- Hgr; apply elem_of_go_range).
  assert (∀ b, overdue (timed b now) now = false) as Hto by done.
  split_and!; [done| | | |].
  - intros rec. rewrite Hperm, list_elem_of_fmap. rewrite Forall_forall in Hin, Ho. split.
    + intros ([id a] & -> & Hp). exists id, a. pose proof (Hin _ Hp) as Hid. cbn in Hid.
      destruct (Hlook _ _ Hid) as [[_ ?]|[? _]]; [|done]. split_and!; try done. exact (Ho _ Hp).
    + intros (id & a & Hid & Hoa & Hid' & ->). exists (id, a). split; [done|].
      destruct (Hlook _ _ Hid) as [[? _]|[_ Hx]]; [done|].
      rewrite Hx in Hid'. injection Hid' as Hid'. rewrite Hid', Hto in Hoa. done.
  - intros id a Hid. destruct (Hlook _ _ Hid) as [[Hp ?]|[_ ?]]; [right|by left].
    rewrite Forall_forall in Ho. split; [exact (Ho _ Hp)|done].
  - intros Hb id b Hid. specialize (Hobs Hb). subst l2. rewrite app_nil_r in *.
    rewrite Hrec, timed_lookup in Hid by done.
    destruct (list_find (fun p => p.1 = id) (hits now l1)) as [[i p]|] eqn:E; [by injection Hid as <-|].
    apply not_true_iff_false. intros Hob. apply list_find_None in E. rewrite Forall_forall in E.
    apply (E (id, b)); [|done]. apply list_elem_of_filter. split; [done|]. by apply Hgo.
  - intros (id & a & Hid & Hoa) ->. symmetry in Hperm. apply Permutation_nil_r in Hperm.
    apply fmap_nil_inv in Hperm. specialize (Hnil Hperm). subst l2. rewrite app_nil_r in Hgo.
    assert ((id, a) ∈ hits now l1) as Hx by (apply list_elem_of_filter; split; [done|by apply Hgo]).
    rewrite Hperm in Hx. by apply elem_of_nil in Hx.
Qed.

(** What pruning does.  Every interaction that has not ended is kept, no
    record is invented or changed, no ended interaction past its retention
    stays, at most the configured number of records stays unless none of
    them has ended, and the event log is within its bound. *)
Theorem Prune_keeps_live env r r0 at_ r' :
  lockAndReload decodeSnapshot env r = (r0, Ok tt) → healthy r0 → Prune decodeSnapshot env r at_ = (r', Ok tt) →
  (∀ id rec, records r0 !! id = Some rec → isTerminal (in_Status rec) = false → records r' !! id = Some rec)
  ∧ records r' ⊆ records r0
  ∧ (∀ id rec, records r' !! id = Some rec → expired rec (default (env_now env) at_) = false)
  ∧ (Z.of_nat (size (records r')) ≤ MaxRecords (options r0)
     ∨ ∀ id rec, records r' !! id = Some rec → isTerminal (in_Status rec) = false)
  ∧ Z.of_nat (length (events r')) ≤ Z.max 0 (MaxEvents (options r0)).
Proof.
  intros Hl Hh Hc.
  destruct (prune_outcome r0 (default (env_now env) at_) (healthy_keyed _ Hh)) as ((Hs & Hk & _) & He & Hb & Hlen).
  assert (content r' = content (pruneLocked r0 (default (env_now env) at_)).1) as (Hr & Hev & _)%content_fields.
  { by destruct (Prune_outcome _ _ _ _ _ _ _ Hl Hh Hc) as [(_ & _ & ?)|(_ & -> & _)]. }
  by rewrite Hr, Hev.
Qed.

End retention.

Section exact.
Context `{MapOrder} `{UnicodeCase} `{LanguageTags}.
Implicit Types (r : Registry) (rec : Record).

(** The newest events after which [d] of them are dropped. *)
Definition tail_fits r (limit d : Z) : Prop :=
  snapshotSizeLocked (with_events r (drop (Z.to_nat d) (events r))) ≤ limit.
Definition longest_tail r (limit : Z) (evs : list Event) : Prop :=
  ∃ d, 1 ≤ d < Z.of_nat (length (events r)) ∧ evs = drop (Z.to_nat d) (events r) ∧ tail_fits r limit d
    ∧ ∀ i, 1 ≤ i < d → ¬ tail_fits r limit i.
Definition no_tail r (limit : Z) : Prop :=
  ∀ d, 1 ≤ d < Z.of_nat (length (events r)) → ¬ tail_fits r limit d.

(** The binary search that trims the event log is exact: the log keeps
    its longest tail with which the encoded snapshot is within three
    quarters of the byte budget, when no tail is that short the longest one
    within the budget, and it is left alone when none is, when it fits
    already or when it has fewer than two events; nothing but the log
    changes. *)
Theorem trim_keeps_longest_tail r :
  let r' := (trimEventsToSnapshotBudgetLocked r).1 in
  let budget := MaxSnapshotBytes (options r) in
  let target := Z.quot (budget * 3) 4 in
  r' = with_events r (events r') ∧
  if (length (events r) <? 2)%nat || (budget <=? 0) || (snapshotSizeLocked r <=? target)
  then events r' = events r
  else longest_tail r target (events r')
    ∨ no_tail r target ∧ longest_tail r budget (events r')
    ∨ no_tail r target ∧ no_tail r budget ∧ events r' = events r.
Proof.
  cbv zeta. unfold trimEventsToSnapshotBudgetLocked.
  destruct ((length (events r) <? 2)%nat || _) eqn:E1; cbn [orb].
  { cbn [fst]. by rewrite with_events_same. }
  destruct (snapshotSizeLocked r <=? _) eqn:E2; [cbn [fst]; by rewrite with_events_same|].
  pose proof (findDrop_least r (events r) (Z.quot (MaxSnapshotBytes (options r) * 3) 4)) as Ht.
  pose proof (findDrop_least r (events r) (MaxSnapshotBytes (options r))) as Hb.
  destruct (findDrop r (events r) (Z.quot _ _)) as [d|]; cbn [fst] in *.
  - split; [done|]. left. destruct Ht as (? & ? & ?). by exists d.
  - destruct (findDrop r (events r) _) as [d|]; cbn [fst] in *; (split; [by rewrite ?with_events_same|]); right.
    + left. split; [done|]. destruct Hb as (? & ? & ?). by exists d.
    + right. by split_and!.
Qed.

(** Looking an interaction up by its task is exact: in a healthy
    registry it finds the one live interaction of the task, if there is
    one, whatever the order of the records. *)
Theorem FindNonterminalByTaskID_exact r taskID rec :
  healthy r →
  FindNonterminalByTaskID r taskID = Some rec ↔
  trim_space taskID ≠ "" ∧ task_key rec = trim_space taskID ∧ isTerminal (in_Status rec) = false
  ∧ ∃ id, records r !! id = Some rec.
Proof.
  intros Hh. pose proof (h_tasks _ Hh) as Hd. rewrite nodup_values in Hd by auto with go.
  unfold FindNonterminalByTaskID. destruct (String.eqb_spec (trim_space taskID) "") as [He|He]; [naive_solver|].
  set (l := filter (fun rec => trim_space (og_TaskID (in_Origin rec)) = trim_space taskID) (ListNonterminal r)).
  assert (∀ x, x ∈ l ↔ task_key x = trim_space taskID ∧ isTerminal (in_Status x) = false
    ∧ ∃ id, records r !! id = Some x) as Hl.
  { intros x. unfold l, ListNonterminal, List_. rewrite !list_elem_of_filter, merge_sort_Permutation.
    rewrite (fmap_pointwise_id cloneRecord) by apply cloneRecord_id. by rewrite elem_of_go_values. }
  assert (∀ x y, x ∈ l → y ∈ l → x = y) as Huniq.
  { intros x y (Hx & Htx & i & Hi)%Hl (Hy & Hty & j & Hj)%Hl.
    assert (∀ z, task_key z = trim_space taskID → isTerminal (in_Status z) = false → trim_space taskID ∈ task_keys z)
      as Hin.
    { intros z Hz Ht. unfold task_keys. rewrite Ht, Hz. apply String.eqb_neq in He. rewrite He. by left. }
    pose proof (Hd i j x y _ Hi Hj (Hin x Hx Htx) (Hin y Hy Hty)). congruence. }
  clearbody l. split.
  - intros Hlast%last_Some_elem_of%Hl. tauto.
  - intros (_ & Hx). apply Hl in Hx. destruct (last l) as [y|] eqn:E.
    + f_equal. apply Huniq; [by apply last_Some_elem_of|done].
    + apply last_None in E. rewrite E in Hx. by apply elem_of_nil in Hx.
Qed.
End exact.
