(* ===== verification/InteractionWitness.v ===== *)
(** The properties of the interaction registry at concrete registries: each
    lemma applies a property where its hypotheses hold by computation. *)
From S2P Require Import Prelude GoStrings GoJson GoTime TaskResult CodingScope BusInbound.
From S2P Require Import InteractionTypes InteractionRegistry InteractionStore InteractionHealth.
From S2P Require Import InteractionInvariant InteractionMachine InteractionOutcome InteractionSteps.
From S2P Require Import InteractionProps InteractionApproval InteractionRetention.

(** ** Concrete runs

    What two of them show: a late answer with a message that already answered another
    interaction is stored although the next load refuses the store, and a
    failed creation can leave the interaction it wanted to succeed resolved. *)

(** A stand-in for the case tables and the language tags: no run below depends
    on them. *)
#[export] Instance demo_case : UnicodeCase | 100 := {| rune_lower := fun r => r; rune_fold := fun r => r |}.
#[export] Instance demo_tags : LanguageTags | 100 := fun _ => true.

(** The registries below are kept in memory: nothing is decoded. *)
Definition demo_decode : string → result string Snapshot := fun _ => Err "unexpected end of JSON input".

Definition demo_options : Options := mkOptions 1000000000 10 20 100000 4 100000.
Definition demo_empty : Registry := mkRegistry "" demo_options ∅ [] 0 false [] 0 None None.
Definition at_time (now : Z) : Env := mkEnv now (Ok tt) None WriteOk.

Definition demo_route (agent session : string) : Route :=
  mkRoute agent session "" "telegram" "" "42" "" "" "" "" "u1".
Definition demo_origin (task continuation hash : string) (context : option InboundContext) : Origin :=
  mkOrigin "turn" "exec" "" "call-1" "shell" task continuation "" hash context [].
Definition demo_question : Question := mkQuestion "q" "" "" "Which branch?" [] false.
Definition demo_request (id agent session continuation : string) : CreateRequest :=
  mkCreateRequest id KindQuestion (demo_route agent session) (demo_origin "" continuation "" None) [demo_question]
    "" "" "" "" None [] (Some 2000).
Definition demo_answer (text message : string) : Answer :=
  mkAnswer text ∅ [] no_choice false message "" 0 (mkRelation "" false) None.

Definition demo_context : InboundContext :=
  mkInboundContext "telegram" "" "42" "" "" "" "" "u1" "" "m0" "" "" "" "" false "" "" zero_time
    (mkRelation "" false) (mkMediaGroup "" []) (mkProjection no_choice "" "" "" false None "")
    (mkIntakeGuard "" "" "" false false) ∅ ∅.
Definition demo_hash : string := "0123456789abcdef0123456789abcdef0123456789abcdef0123456789abcdef".
Definition demo_approval_request (id session : string) : CreateRequest :=
  mkCreateRequest id KindApproval (demo_route "main" session) (demo_origin "" "" demo_hash (Some demo_context)) []
    "" "" "run rm" "" None [] (Some 2000).

Fixpoint run_ops (r : Registry) (l : list (Z * Op)) : Registry :=
  match l with [] => r | (now, op) :: l => run_ops (run demo_decode (at_time now) r op).1 l end.

(** A question from its creation to its waiting. *)
Definition ask (id agent session continuation : string) : list (Z * Op) :=
  [(1000, OpCreate (demo_request id agent session continuation) None);
   (1000, OpChange id 1 (ChBindPromptDelivery "d1"));
   (1000, OpChange id 2 ChMarkWaiting)].

Definition two_questions : Registry :=
  run_ops demo_empty (ask "interaction_00000001" "main" "s1" "" ++ ask "interaction_10000002" "aux" "s2" "").

Definition late_answer : Registry :=
  run_ops two_questions
    [(1500, OpChange "interaction_00000001" 3 (ChClaimAnswer (demo_answer "main" "m1") OutcomeAnswered));
     (2500, OpChange "interaction_10000002" 3 (ChClaimAnswer (demo_answer "dev" "m1") OutcomeAnswered))].

(** A late answer can make the store unreadable.  Its message is recorded
    without the check that refuses an answer in time, so one message - for
    two agents in one chat - can end up as the answer of two interactions;
    the registry accepts it, and the next load of what it saves fails. *)
Theorem late_answer_breaks_load :
  is_ok (run demo_decode (at_time 2500)
    (run_ops two_questions
       [(1500, OpChange "interaction_00000001" 3 (ChClaimAnswer (demo_answer "main" "m1") OutcomeAnswered))])
    (OpChange "interaction_10000002" 3 (ChClaimAnswer (demo_answer "dev" "m1") OutcomeAnswered))).2 = true
  ∧ loadSnapshot (emptied late_answer) (snapshotLocked late_answer)
    = Err (ErrInvalidInteraction "interactions %q and %q share answer message").
Proof. split; vm_compute; reflexivity. Qed.

(** An interaction that is resuming and may be continued by another one. *)
Definition resuming : Registry :=
  run_ops demo_empty (ask "interaction_00000001" "main" "s1" "session-2" ++
    [(1500, OpChange "interaction_00000001" 3 (ChClaimAnswer (demo_answer "main" "m1") OutcomeAnswered));
     (1500, OpChange "interaction_00000001" 4 ChMarkResuming)]).

(** A failed creation is not always undone.  The loop that resolves the
    predecessor of a chained interaction runs before the new id is checked:
    when the id is taken, the call fails with a conflict, yet the predecessor
    stays resolved in memory, its event stays in the log and the commit
    sequence stays advanced. *)
Theorem failed_create_leaves_predecessor_resolved :
  let '(r', res) := run demo_decode (at_time 1600) resuming
    (OpCreate (demo_request "interaction_00000001" "main" "s1" "session-2") None) in
  res = Err (ErrConflict "duplicate id")
  ∧ in_Status <$> records resuming !! "interaction_00000001" = Some StatusResuming
  ∧ in_Status <$> records r' !! "interaction_00000001" = Some StatusResolved
  ∧ commitSequence r' = commitSequence resuming + 1
  ∧ length (events r') = S (length (events resuming)).
Proof. vm_compute. by split_and!. Qed.

(** ** The hypotheses as tests *)

Definition clock_okb (r : Registry) (now : Z) : bool :=
  (0 <? now) && (1 <=? retention_ms r) && forallb (fun p => in_CreatedAt p.2 <=? now) (map_to_list (records r)).
Lemma clock_okb_ok r now : clock_okb r now = true → clock_ok r now.
Proof.
  unfold clock_okb. rewrite !andb_true_iff, Z.ltb_lt, Z.leb_le, forallb_forall. intros ((? & ?) & Hall).
  split_and!; [done..|]. intros id rec Hid. apply Z.leb_le.
  apply (Hall (id, rec)). by apply list_elem_of_In, elem_of_map_to_list.
Qed.

Definition late_freshb (r : Registry) (now : Z) (id : string) (c : Change) : bool :=
  match records r !! id with
  | None => true
  | Some before =>
      (now <? in_ExpiresAt before) || String.eqb (message_of c) ""
      || negb (answer_in_use r (scopedAnswerMessageIdentity (in_Route before) (message_of c)))
  end.
Lemma late_freshb_ok r now id c : late_freshb r now id c = true → late_fresh r now id c.
Proof.
  unfold late_freshb, late_fresh. intros Hb before Hid Hexp Hne. rewrite Hid in Hb.
  rewrite !orb_true_iff, negb_true_iff, Z.ltb_lt, String.eqb_eq in Hb. destruct Hb as [[?|?]|?]; [lia|done|done].
Qed.

Definition change_okb (c : Change) : bool :=
  match c with
  | ChClaimAnswer answer _ | ChClaimProtectedAnswer answer => 0 <=? an_ReceivedAt answer
  | _ => true
  end.
Definition op_okb (decode : string → result string Snapshot) (env : Env) (r : Registry) (op : Op) : bool :=
  let r0 := base decode env r op in
  match op with
  | OpCreate req _ => String.eqb (rq_PromptLanguage req) "" && clock_okb r0 (env_now env)
  | OpChange id _ c =>
      change_okb c && late_freshb r0 (env_now env) (trim_space id) c && clock_okb r0 (env_now env)
  | OpClaimOverdue at_ => clock_okb r0 (default (env_now env) at_)
  | _ => true
  end.
Lemma op_okb_ok decode env r op : op_okb decode env r op = true → op_ok decode env r op.
Proof.
  unfold op_okb, op_ok. destruct op as [req random|id rev c|at_|at_| | |i]; cbv zeta; try done.
  - rewrite andb_true_iff, String.eqb_eq. intros [Hl Hc]. split; [|by apply clock_okb_ok].
    rewrite Hl. intros c Hcan. by vm_compute in Hcan.
  - rewrite !andb_true_iff. intros ((Hc & Hf) & Hk). split_and!; [|by apply late_freshb_ok|by apply clock_okb_ok].
    destruct c; try done; by apply Z.leb_le.
  - apply clock_okb_ok.
Qed.

Fixpoint ops_okb (r : Registry) (l : list (Z * Op)) : bool :=
  match l with
  | [] => true
  | (now, op) :: l =>
      op_okb demo_decode (at_time now) r op && negb (is_some (file (run demo_decode (at_time now) r op).1))
      && ops_okb (run demo_decode (at_time now) r op).1 l
  end.
Lemma run_ops_healthy l : ∀ r, healthy r → file r = None → ops_okb r l = true → healthy (run_ops r l).
Proof.
  induction l as [|[now op] l IH]; intros r Hh Hf Hok; [done|]. cbn [run_ops ops_okb] in *.
  apply andb_true_iff in Hok as [[Hok Hf']%andb_true_iff Hl]. apply IH; [| |done].
  - apply run_healthy; [done|unfold disk_ok; by rewrite Hf|by apply op_okb_ok].
  - by destruct (file (run demo_decode (at_time now) r op).1).
Qed.
Lemma demo_healthy l : ops_okb demo_empty l = true → healthy (run_ops demo_empty l).
Proof.
  apply run_ops_healthy; [|done]. apply (healthy_empty demo_empty).
Qed.

(** ** Witnesses *)

Definition claim_one : Op :=
  OpChange "interaction_00000001" 3 (ChClaimAnswer (demo_answer "main" "m1") OutcomeAnswered).

Lemma two_questions_healthy : healthy two_questions.
Proof. apply demo_healthy. vm_compute. reflexivity. Qed.

Lemma run_moves_records_witness :
  (run demo_decode (at_time 1500) two_questions claim_one).1 = two_questions ∨
  ∀ id a, records (base demo_decode (at_time 1500) two_questions claim_one) !! id = Some a →
    ∃ b, records (run demo_decode (at_time 1500) two_questions claim_one).1 !! id = Some b
      ∧ (b = a ∨ record_step a b).
Proof.
  apply (run_moves_records demo_decode (at_time 1500) two_questions claim_one).
  - exact two_questions_healthy.
  - vm_compute. exact I.
  - apply op_okb_ok. vm_compute. reflexivity.
  - reflexivity.
Defined.

(** The record an operation returns. *)
Definition returned (p : Registry * result Error Record) : Record :=
  match p.2 with Ok rec => rec | Err _ => zero_record end.

Definition claim_one_result : Registry * result Error Record :=
  apply_change demo_decode (at_time 1500) two_questions "interaction_00000001" 3
    (ChClaimAnswer (demo_answer "main" "m1") OutcomeAnswered).

Lemma change_is_compare_and_swap_witness :
  in_Revision (returned claim_one_result) = 4 ∧
  ∃ before, records (base demo_decode (at_time 1500) two_questions claim_one)
      !! trim_space "interaction_00000001" = Some before
    ∧ in_Revision before = 3 ∧ record_step before (returned claim_one_result).
Proof.
  split; [vm_compute; reflexivity|].
  destruct (change_is_compare_and_swap demo_decode (at_time 1500) two_questions "interaction_00000001" 3
    (ChClaimAnswer (demo_answer "main" "m1") OutcomeAnswered) claim_one_result.1 (returned claim_one_result))
    as (before & Hid & Hrev & Hstep & _).
  - exact two_questions_healthy.
  - vm_compute. exact I.
  - apply op_okb_ok. vm_compute. reflexivity.
  - vm_compute. discriminate.
  - vm_compute. reflexivity.
  - exists before. exact (conj Hid (conj Hrev Hstep)).
Defined.

Lemma stale_revision_refused_witness :
  apply_change demo_decode (at_time 1500) two_questions "interaction_00000001" 2 ChMarkResuming
  = (two_questions, Err (ErrConflict "revision")).
Proof.
  eapply (stale_revision_refused demo_decode (at_time 1500) two_questions two_questions "interaction_00000001" 2
    ChMarkResuming MarkResuming_mutate).
  - vm_compute. reflexivity.
  - reflexivity.
  - vm_compute. reflexivity.
  - vm_compute. discriminate.
Defined.

(** The file can no longer be written. *)
Definition broken_disk : Env := mkEnv 1500 (Ok tt) None WriteFailed.
Definition on_disk : Registry := demo_empty <| storePath := "/state/interactions.json" |>.
Definition failed_create : Registry * result Error (list Record) :=
  run demo_decode broken_disk on_disk (OpCreate (demo_request "interaction_00000001" "main" "s1" "") None).

Lemma failed_operation_restores_witness :
  (content failed_create.1 = content on_disk ∨
   content failed_create.1 = content (base demo_decode broken_disk on_disk
     (OpCreate (demo_request "interaction_00000001" "main" "s1" "") None))) ∧ file failed_create.1 = None.
Proof.
  destruct (failed_operation_restores demo_decode broken_disk on_disk
    (OpCreate (demo_request "interaction_00000001" "main" "s1" "") None) failed_create.1 (ErrWrite false))
    as (Hc & _ & Hf).
  - apply (healthy_empty on_disk).
  - vm_compute. exact I.
  - vm_compute. reflexivity.
  - discriminate.
  - intros req random rec _ _. apply map_Forall_empty.
  - split; [exact Hc|]. apply Hf. discriminate.
Defined.

(** ** Approvals *)

Definition approved : list (Z * Op) :=
  [(1000, OpCreate (demo_approval_request "interaction_20000003" "s3") None);
   (1000, OpChange "interaction_20000003" 1 (ChBindPromptDelivery "d1"));
   (1000, OpChange "interaction_20000003" 2 ChMarkWaiting);
   (1500, OpChange "interaction_20000003" 3 (ChClaimAnswer (demo_answer "yes" "m1") OutcomeAllowed));
   (1500, OpChange "interaction_20000003" 4 ChMarkResuming)].
Definition approval : Registry := run_ops demo_empty approved.
Definition consume (rev : Z) : Op :=
  OpChange "interaction_20000003" rev (ChConsumeApproval "call-1" "shell" demo_hash).
Definition consume_result : Registry * result Error Record :=
  ConsumeApproval demo_decode (at_time 1600) approval "interaction_20000003" 5 "call-1" "shell" demo_hash.

Lemma approval_healthy : healthy approval.
Proof. apply demo_healthy. vm_compute. reflexivity. Qed.

Lemma ConsumeApproval_authorises_witness :
  in_ApprovalConsumedAt (returned consume_result) = 1600 ∧
  ∃ before, records approval !! trim_space "interaction_20000003" = Some before ∧ in_Revision before = 5.
Proof.
  destruct (ConsumeApproval_authorises demo_decode (at_time 1600) approval approval "interaction_20000003" 5
    "call-1" "shell" demo_hash consume_result.1 (returned consume_result))
    as (before & Hid & Hrev & _ & _ & _ & _ & _ & _ & _ & _ & _ & Hn & _).
  - vm_compute. reflexivity.
  - vm_compute. reflexivity.
  - split; [exact Hn|]. exists before. exact (conj Hid Hrev).
Defined.

(** ** A store on disk *)

(** The snapshots of a run, as the run in memory leaves them, and the decoder
    that reads back just these. *)
Fixpoint snapshots (r : Registry) (l : list (Z * Op)) : list Snapshot :=
  match l with
  | [] => []
  | (now, op) :: l => let r' := (run demo_decode (at_time now) r op).1 in snapshotLocked r' :: snapshots r' l
  end.
Definition saved : list (string * Snapshot) := Eval vm_compute in
  (fun s => (snapshot_text s, s)) <$> snapshots demo_empty (approved ++ [(1600, consume 5)]).
Definition disk_decode (data : string) : result string Snapshot :=
  match List.find (fun p => String.eqb p.1 data) saved with Some p => Ok p.2 | None => Err "unexpected end of JSON input" end.

(** An approval is asked for and given, on a disk; it is consumed three times:
    the first time the write fails, the second time it succeeds, and the third
    call comes too late. *)
Definition approved_on_disk : list (Env * Op) :=
  ((fun p => (at_time p.1, p.2)) <$> approved) ++
  [(mkEnv 1600 (Ok tt) None WriteFailed, consume 5); (at_time 1600, consume 5); (at_time 1600, consume 6)].
Lemma approved_orderly : orderly disk_decode on_disk approved_on_disk.
Proof.
  unfold approved_on_disk. cbn [approved fmap list_fmap app orderly fst snd].
  do 8 (split; [apply op_okb_ok; vm_compute; reflexivity|split; [right; vm_compute; reflexivity|]]). exact I.
Qed.

Lemma approval_consumed_at_most_once_witness :
  consumptions disk_decode "interaction_20000003" on_disk approved_on_disk = 1%nat
  ∧ (consumptions disk_decode "interaction_20000003" on_disk approved_on_disk ≤ 1)%nat.
Proof.
  split; [vm_compute; reflexivity|].
  apply (approval_consumed_at_most_once disk_decode "interaction_20000003" approved_on_disk on_disk).
  - apply (healthy_empty on_disk).
  - exact I.
  - exact approved_orderly.
  - cbn. tauto.
Defined.

Definition late_result : Registry * result Error Record :=
  ClaimAnswer demo_decode (at_time 2500) two_questions "interaction_00000001" 3 (demo_answer "main" "m1")
    OutcomeAnswered.

Lemma ClaimAnswer_outcome_witness :
  in_Outcome (returned late_result) = OutcomeTimedOut ∧ in_Status (returned late_result) = StatusClaimed.
Proof.
  destruct (ClaimAnswer_outcome demo_decode (at_time 2500) two_questions two_questions "interaction_00000001" 3
    (demo_answer "main" "m1") OutcomeAnswered late_result.1 (returned late_result))
    as (before & _ & _ & _ & _ & Hs & _).
  - vm_compute. reflexivity.
  - vm_compute. reflexivity.
  - split; [vm_compute; reflexivity|exact Hs].
Defined.

(** ** Budget, creation, time-outs, retention, look-up *)

Definition watched : Registry := two_questions <| observers := 1%nat |>.

Lemma notifications_within_budget_witness :
  within (run demo_decode (at_time 1500) watched claim_one).1
  ∧ length (pending (run demo_decode (at_time 1500) watched claim_one).1) = 1%nat.
Proof.
  split; [|vm_compute; reflexivity].
  apply (notifications_within_budget demo_decode (at_time 1500) watched claim_one).
  vm_compute. split_and!; [discriminate|discriminate|constructor].
Defined.

Definition create_result : Registry * result Error Record :=
  Create demo_decode (at_time 1600) resuming (demo_request "interaction_30000004" "main" "s1" "session-2") None.

Lemma Create_admits_one_witness :
  in_Status (returned create_result) = StatusCreated
  ∧ in_Status <$> records create_result.1 !! "interaction_00000001" = Some StatusResolved.
Proof.
  destruct (Create_admits_one demo_decode (at_time 1600) resuming resuming
    (demo_request "interaction_30000004" "main" "s1" "session-2") None create_result.1 (returned create_result))
    as (_ & _ & _ & Hs & _).
  - vm_compute. reflexivity.
  - apply demo_healthy. vm_compute. reflexivity.
  - vm_compute. reflexivity.
  - intros c Hc. by vm_compute in Hc.
  - vm_compute. reflexivity.
  - split; [exact Hs|vm_compute; reflexivity].
Defined.

Definition sweep_result : Registry * result Error (list Record) :=
  ClaimOverdue demo_decode (at_time 2500) two_questions None.
Definition swept : list Record := match sweep_result.2 with Ok l => l | Err _ => [] end.

Lemma ClaimOverdue_complete_witness :
  length swept = 2%nat ∧
  ∀ id b, records sweep_result.1 !! id = Some b → overdue b (default (env_now (at_time 2500)) None) = false.
Proof.
  split; [vm_compute; reflexivity|].
  destruct (ClaimOverdue_complete demo_decode (at_time 2500) two_questions two_questions None sweep_result.1 swept)
    as (_ & _ & _ & Hall & _).
  - vm_compute. reflexivity.
  - exact two_questions_healthy.
  - vm_compute. reflexivity.
  - apply Hall. vm_compute. reflexivity.
Defined.

Definition one_cancelled : Registry :=
  run_ops demo_empty (ask "interaction_00000001" "main" "s1" "" ++ ask "interaction_10000002" "aux" "s2" "" ++
    [(1500, OpChange "interaction_10000002" 3 (ChCancel "user"))]).
Definition prune_result : Registry * result Error () := Prune demo_decode (at_time 5000) one_cancelled None.

Lemma Prune_keeps_live_witness :
  size (records prune_result.1) = 1%nat ∧ records prune_result.1 ⊆ records one_cancelled.
Proof.
  split; [vm_compute; reflexivity|].
  refine (proj1 (proj2 (Prune_keeps_live demo_decode (at_time 5000) one_cancelled one_cancelled None prune_result.1
    _ _ _))).
  - vm_compute. reflexivity.
  - apply demo_healthy. vm_compute. reflexivity.
  - vm_compute. reflexivity.
Defined.

Lemma FindNonterminalByTaskID_exact_witness :
  FindNonterminalByTaskID two_questions "task-1" = None ∧
  ∀ rec, FindNonterminalByTaskID two_questions "task-1" = Some rec ↔
    trim_space "task-1" ≠ "" ∧ task_key rec = trim_space "task-1" ∧ isTerminal (in_Status rec) = false
    ∧ ∃ id, records two_questions !! id = Some rec.
Proof.
  split; [vm_compute; reflexivity|]. intros rec.
  apply (FindNonterminalByTaskID_exact two_questions "task-1" rec). exact two_questions_healthy.
Defined.
