(* ===== verification/ObserverHub.v ===== *)
(** Package [pkg/interactions], the subscribers of the registry: the queue of
    every subscriber ([observer.go]), the budget and the batches of committed
    notifications ([notification_budget.go]), subscribing and settling
    ([subscription.go], [registry.go]) and closing ([shutdown.go]).

    Any number of goroutines call the package, and a subscriber's callback may
    call it again.  A goroutine is a stack of [Instr]: the first is where it
    stands, with its local variables, and the others are what it does when the
    calls above return.  [exec] runs one instruction; one step is what the code
    does atomically: a section under the mutex of a delivery or of the budget,
    an atomic load, store or add, or one pass of a loop under the mutex of the
    registry, which is explicit ([hub_mu]).  [exec] is [None] when the
    instruction waits.  A [Choice] is what the step takes from outside: the
    failure of a lock, a write or a deadline, and the calls a callback makes. *)
From S2P Require Import Prelude GoStrings GoJson InteractionTypes.

(** An [idle] channel is a cell of the list of the channels made so far: true
    when it is closed. *)
Notation channels := (list bool).
Definition make_channel (l : channels) : channels := l ++ [false].
(** Closing nil or a closed channel panics. *)
Definition close_channel (l : channels) : option channels :=
  match last l with Some false => Some (<[pred (length l) := true]> l) | _ => None end.

Record observerDelivery := mkDelivery {
  d_observer : bool; (* not nil *)
  d_active : bool; d_closed : bool; d_notifying : bool;
  d_pending : list nat;
  d_unsubscribed : bool; d_resyncRequired : bool;
  d_work : Z; d_idle : channels }.
#[export] Instance eta_observerDelivery : Eta observerDelivery := fun d =>
  mkDelivery (d_observer d) (d_active d) (d_closed d) (d_notifying d) (d_pending d) (d_unsubscribed d)
    (d_resyncRequired d) (d_work d) (d_idle d).
(** What an index that no delivery has reads as. *)
#[export] Instance inhabited_observerDelivery : Inhabited observerDelivery :=
  populate (mkDelivery false false false false [] true false 0 []).

Definition newObserverDelivery (active : bool) : observerDelivery :=
  mkDelivery true active false false [] false false 0 [].

Record Payload := mkPayload { pl_Event : Event; pl_Record : Record }.
(** An item of a batch; once it is published it is shared, and [q_remaining]
    counts its users. *)
Record queuedObservation := mkQueued {
  q_observation : Payload; q_observers : list nat; q_bytes : Z; q_remaining : Z }.
#[export] Instance eta_queuedObservation : Eta queuedObservation := fun q =>
  mkQueued (q_observation q) (q_observers q) (q_bytes q) (q_remaining q).

Inductive WaitError := DeadlineExceeded | WaitStoreBusy.
Record ObserverDrainError := mkDrainError {
  Cause : option WaitError; PendingWork : Z; ResyncRequired : bool }.

(** What a caller or a callback sees. *)
Inductive Observed :=
| Called (d q : nat)
| WriteReturned (r : result Error ())
| SubscribeReturned (r : result Error nat)
| SubscriptionClosed (d : nat) (e : option ObserverDrainError)
| HubClosed (e : option ObserverDrainError).

Record Hub := mkHub {
  hub_mu : bool; hub_closed : bool;
  hub_observers : list nat;
  hub_notifications : list nat; hub_notifying : bool;
  hub_count : Z; hub_bytes : Z; hub_idle : channels;
  hub_maxCount : Z; hub_maxBytes : Z; (* MaxPendingObservations, MaxPendingObservationBytes *)
  hub_deliveries : list observerDelivery;
  hub_queued : list queuedObservation; (* in the order of their commits *)
  hub_panicked : bool;
  hub_trace : list Observed }.
#[export] Instance eta_Hub : Eta Hub := fun h =>
  mkHub (hub_mu h) (hub_closed h) (hub_observers h) (hub_notifications h) (hub_notifying h) (hub_count h)
    (hub_bytes h) (hub_idle h) (hub_maxCount h) (hub_maxBytes h) (hub_deliveries h) (hub_queued h)
    (hub_panicked h) (hub_trace h).

Definition newHub (maxCount maxBytes : Z) : Hub :=
  mkHub false false [] [] false 0 0 [] maxCount maxBytes [] [] false [].

Definition observe (o : Observed) (h : Hub) : Hub := h <| hub_trace ::= fun t => t ++ [o] |>.
Definition panic (h : Hub) : Hub := h <| hub_panicked := true |>.
Definition delivery (h : Hub) (d : nat) : observerDelivery := hub_deliveries h !!! d.
Definition set_delivery (h : Hub) (d : nat) (x : observerDelivery) : Hub :=
  h <| hub_deliveries ::= <[d := x]> |>.

(** ** The public calls and the states of a goroutine *)

(** A write appends its events to one batch.  [ClaimOverdue] goes on with the
    ones it claimed when the budget refuses a later one; the other methods fail. *)
Record Write := mkWrite { w_overdue : bool; w_events : list Payload }.

Inductive Op :=
| OpWrite (w : Write)
| OpSubscribe (active : bool)
| OpActivate (d : nat)
| OpUnsubscribe (d : nat)
| OpCloseSubscription (d : nat)
| OpClose.

Record Choice := mkChoice { ch_fail : option Error; ch_calls : list Op }.

(** Why the observers are compacted. *)
Inductive Reason := ForWrite (w : Write) | ForSubscribe (active : bool).

Inductive Instr :=
| ICall (op : Op)
| IUnlock
| IReturn (o : Observed)
(* a writer *)
| IWriteLock (w : Write)
| IWriteAdmitted (w : Write)
| ICompact (todo kept : list nat) (k : Reason)
| IBatch (w : Write)
| IBeginAdmission (w : Write) (todo obs : list nat)
| IAppend (w : Write) (events : list Payload) (obs : list nat) (items : list queuedObservation)
    (bytes : Z) (claimed : nat)
| IReserve (obs : list nat) (items : list queuedObservation) (bytes : Z)
| ISave (obs : list nat) (items : list queuedObservation) (bytes : Z)
| IAddWork (added todo : list nat) (items : list queuedObservation) (bytes : Z)
| IPublish (obs : list nat) (items : list queuedObservation) (bytes : Z)
| IReleaseAdmissions (todo : list nat)
| IReleaseBudget (bytes : Z)
(* a drainer of the registry, a drainer of a delivery *)
| IDrainNotifications
| IFanOut (q : nat) (todo : list nat)
| IQueuedDone (q : nat)
| IFinishWork (d : nat)
| IDrain (d : nat)
| INotify (d q : nat) (observer : bool)
| INotified (d q : nat)
(* subscribing, settling, closing *)
| ISubscribeLock (active : bool)
| ISubscribeLocked (active : bool)
| IWaitWork (d : nat)
| IWaitIdle (d c : nat)
| IWaited (d : nat) (cancelled : bool)
| ICloseLock
| ICloseEach (todo : list nat) (resync : bool)
| IWaitBudget (resync : bool)
| IWaitBudgetIdle (c : nat) (resync : bool)
| ICloseReport (err : option WaitError) (resync : bool).

Notation thread := (list Instr).

(** ** observer.go *)

Definition subscribed (x : observerDelivery) : bool := negb (d_unsubscribed x).

Definition addWorkLocked (n : Z) (x : observerDelivery) : observerDelivery :=
  let x := if (d_work x =? 0) && (0 <? n) then x <| d_idle ::= make_channel |> else x in
  x <| d_work ::= fun k => k + n |>.

Definition beginAdmission (x : observerDelivery) : option observerDelivery :=
  if d_unsubscribed x then None else Some (addWorkLocked 1 x).

(** [None] is the panic of closing the channel. *)
Definition finishWork (n : Z) (x : observerDelivery) : option observerDelivery :=
  let x := x <| d_work ::= fun k => k - n |> in
  if (d_work x =? 0) && (0 <? n) then
    match close_channel (d_idle x) with
    | Some idle =>
        let x := x <| d_idle := idle |> in
        Some (if d_unsubscribed x then x <| d_observer := false |> else x)
    | None => None
    end
  else Some x.

Definition finishObservation (d q : nat) : thread := [IQueuedDone q; IFinishWork d].

(** The critical section of [enqueue]; the boolean says whether the caller
    drains. [None]: the delivery is closed and the observation is finished. *)
Definition enqueue (q : nat) (x : observerDelivery) : option (observerDelivery * bool) :=
  if d_closed x then None else
  let x := x <| d_pending ::= fun l => l ++ [q] |> in
  let drain := d_active x && negb (d_notifying x) in
  Some (if drain then x <| d_notifying := true |> else x, drain).

Definition activate (x : observerDelivery) : observerDelivery * bool :=
  if d_closed x || d_active x then (x, false) else
  let x := x <| d_active := true |> in
  let drain := match d_pending x with [] => false | _ => negb (d_notifying x) end in
  (if drain then x <| d_notifying := true |> else x, drain).

(** The new state, the pending observations to finish, and [resync]. *)
Definition unsubscribe (x : observerDelivery) : observerDelivery * list nat * bool :=
  let x := x <| d_unsubscribed := true |> in
  let x := if d_work x =? 0 then x <| d_observer := false |> else x in
  if d_active x then (x, [], d_resyncRequired x) else
  let x' := x <| d_closed := true |> <| d_resyncRequired := d_resyncRequired x || (0 <? d_work x) |>
              <| d_pending := [] |> <| d_notifying := false |> in
  (x', d_pending x, d_resyncRequired x').

Definition claimNext (x : observerDelivery) : observerDelivery * option (nat * bool) :=
  match d_pending x with
  | q :: rest =>
      if d_closed x || negb (d_active x) then (x <| d_notifying := false |>, None)
      else (x <| d_pending := rest |>, Some (q, d_observer x))
  | [] => (x <| d_notifying := false |>, None)
  end.

(** ** notification_budget.go *)

Definition checkLocked (h : Hub) (count bytes : Z) : result Error () :=
  if (hub_maxCount h - hub_count h <? count) || (hub_maxBytes h - hub_bytes h <? bytes)
  then Err ErrObserverBacklog else Ok tt.

Definition reserve (h : Hub) (count bytes : Z) : result Error Hub :=
  match checkLocked h count bytes with
  | Err e => Err e
  | Ok _ =>
      let h := if (hub_count h =? 0) && (0 <? count) then h <| hub_idle ::= make_channel |> else h in
      Ok (h <| hub_count ::= fun c => c + count |> <| hub_bytes ::= fun b => b + bytes |>)
  end.

Definition release (h : Hub) (count bytes : Z) : Hub :=
  let h := h <| hub_count ::= fun c => c - count |> <| hub_bytes ::= fun b => b - bytes |> in
  if (hub_count h =? 0) && (0 <? count) then
    match close_channel (hub_idle h) with Some idle => h <| hub_idle := idle |> | None => panic h end
  else h.

(** The size of the observation a batch charges. *)
Definition encoded_len (p : Payload) : Z :=
  len (marshal (Observation_json (pl_Event p) (cloneRecord (pl_Record p)))).

(** [notificationBatch.append]: the item, [None] without observers. *)
Definition append_item (h : Hub) (obs : list nat) (items : list queuedObservation) (bytes : Z) (p : Payload)
    : result Error (option queuedObservation) :=
  match obs with
  | [] => Ok None
  | _ =>
      let copies := Z.of_nat (length obs) + 1 in
      if Z.quot (hub_maxBytes h) copies <? encoded_len p then Err ErrObserverPayloadOverBudget else
      let n := encoded_len p * copies in
      match checkLocked h (Z.of_nat (length items) + 1) (bytes + n) with
      | Err e => Err e
      | Ok _ => Ok (Some (mkQueued (mkPayload (pl_Event p) (cloneRecord (pl_Record p))) obs n copies))
      end
  end.

(** A goroutine that leaves a write with the batch's admissions still held. *)
Definition abandon (obs : list nat) (r : result Error ()) : thread :=
  [IReleaseAdmissions obs; IUnlock; IReturn (WriteReturned r)].
(** The early returns of [ClaimOverdue] unlock before the deferred release. *)
Definition abandon_unlocked (obs : list nat) (r : result Error ()) : thread :=
  [IUnlock; IReleaseAdmissions obs; IReturn (WriteReturned r)].

(** The caller's loop over its events. *)
Definition append_step (h : Hub) (w : Write) (events : list Payload) (obs : list nat)
    (items : list queuedObservation) (bytes : Z) (claimed : nat) : thread :=
  match events with
  | [] =>
      if w_overdue w && (claimed =? 0)%nat then abandon_unlocked obs (Ok tt)
      else [IReserve obs items bytes]
  | p :: rest =>
      match append_item h obs items bytes p with
      | Ok (Some item) => [IAppend w rest obs (items ++ [item]) (bytes + q_bytes item) (S claimed)]
      | Ok None => [IAppend w rest obs items bytes (S claimed)]
      | Err e =>
          if w_overdue w then
            match claimed, e with
            | S _, ErrObserverBacklog => [IReserve obs items bytes]
            | _, _ => abandon_unlocked obs (Err e)
            end
          else abandon obs (Err e)
      end
  end.

(** The appended items become [hub_queued], and [hub_notifications] in order;
    the boolean says whether the caller drains. *)
Definition publish (h : Hub) (items : list queuedObservation) : Hub * bool :=
  let ids := seq (length (hub_queued h)) (length items) in
  let h := h <| hub_queued ::= fun l => l ++ items |> <| hub_notifications ::= fun l => l ++ ids |> in
  match items with
  | [] => (h, false)
  | _ => if hub_notifying h then (h, false) else (h <| hub_notifying := true |>, true)
  end.

(** ** One step of a goroutine *)

Definition observers_of (h : Hub) (q : nat) : list nat :=
  match hub_queued h !! q with Some o => q_observers o | None => [] end.

Definition finish_work (h : Hub) (d : nat) (n : Z) : Hub :=
  match finishWork n (delivery h d) with Some x => set_delivery h d x | None => panic h end.

Definition unsubscribe_at (h : Hub) (d : nat) : Hub * thread * bool :=
  let '(x, drop, resync) := unsubscribe (delivery h d) in
  (set_delivery h d x, concat (finishObservation d <$> drop), resync).

Definition drain_error (err : option WaitError) (pending : Z) (resync : bool) : option ObserverDrainError :=
  match err, resync with
  | None, false => None
  | _, _ => Some (mkDrainError err pending resync)
  end.

(** A handle is the index of a delivery; other indices are nil handles. *)
Definition handle_ok (h : Hub) (d : nat) : bool := (d <? length (hub_deliveries h))%nat.

Definition exec_call (h : Hub) (op : Op) : Hub * thread :=
  match op with
  | OpWrite w =>
      if hub_closed h then (h, [IReturn (WriteReturned (Err ErrStoreClosed))]) else (h, [IWriteLock w])
  | OpSubscribe active =>
      if hub_closed h then (h, [IReturn (SubscribeReturned (Err ErrStoreClosed))])
      else (h, [ISubscribeLock active])
  | OpActivate d =>
      if handle_ok h d then
        let '(x, drain) := activate (delivery h d) in
        (set_delivery h d x, if drain then [IDrain d] else [])
      else (h, [])
  | OpUnsubscribe d =>
      if handle_ok h d then let '(h, finish, _) := unsubscribe_at h d in (h, finish) else (h, [])
  | OpCloseSubscription d =>
      if handle_ok h d then
        let '(h, finish, _) := unsubscribe_at h d in (h, finish ++ [IWaitWork d])
      else (h, [])
  | OpClose => (h <| hub_closed := true |>, [ICloseLock])
  end.

Definition lock (h : Hub) : Hub := h <| hub_mu := true |>.

(** *** Writers *)

(** [lockAndReload]: the lock of the store's file and the mutex, or the error
    of not getting them in time. *)
Definition lockAndReload (c : Choice) (w : Write) (h : Hub) : option (Hub * thread) :=
  match ch_fail c with
  | Some e => Some (h, [IReturn (WriteReturned (Err e))])
  | None => if hub_mu h then None else Some (lock h, [IWriteAdmitted w])
  end.
(** Its second look at [closed]; the choice is the reload's or the change's
    own error. *)
Definition admitted (c : Choice) (w : Write) (h : Hub) : option (Hub * thread) :=
  if hub_closed h then Some (h, [IUnlock; IReturn (WriteReturned (Err ErrStoreClosed))]) else
  match ch_fail c with
  | Some e => Some (h, [IUnlock; IReturn (WriteReturned (Err e))])
  | None => Some (h, [ICompact (hub_observers h) [] (ForWrite w)])
  end.

(** [compactObserversLocked]; then the caller goes on. *)
Definition compactObserversLocked (todo kept : list nat) (k : Reason) (h : Hub) : option (Hub * thread) :=
  match todo, k with
  | d :: todo, _ => Some (h, [ICompact todo (if subscribed (delivery h d) then kept ++ [d] else kept) k])
  | [], ForWrite w => Some (h <| hub_observers := kept |>, [IBatch w])
  | [], ForSubscribe active =>
      let d := length (hub_deliveries h) in
      Some (h <| hub_observers := kept ++ [d] |>
              <| hub_deliveries ::= fun l => l ++ [newObserverDelivery active] |>,
            [IUnlock; IReturn (SubscribeReturned (Ok d))])
  end.

(** [newNotificationBatchLocked]: the load of [closed], then the loop. *)
Definition newNotificationBatchLocked (w : Write) (h : Hub) : option (Hub * thread) :=
  Some (h, [IBeginAdmission w (if hub_closed h then [] else hub_observers h) []]).
Definition begin_admissions (w : Write) (todo obs : list nat) (h : Hub) : option (Hub * thread) :=
  match todo with
  | d :: todo =>
      match beginAdmission (delivery h d) with
      | Some x => Some (set_delivery h d x, [IBeginAdmission w todo (obs ++ [d])])
      | None => Some (h, [IBeginAdmission w todo obs])
      end
  | [] => Some (h, [IAppend w (w_events w) obs [] 0 0])
  end.

(** [commitNotificationBatchLocked]: reserve, save, account the work, publish. *)
Definition commit_reserve (obs : list nat) (items : list queuedObservation) (bytes : Z) (h : Hub)
    : option (Hub * thread) :=
  match reserve h (Z.of_nat (length items)) bytes with
  | Ok h => Some (h, [ISave obs items bytes])
  | Err e => Some (h, abandon obs (Err e))
  end.
Definition commit_save (c : Choice) (obs : list nat) (items : list queuedObservation) (bytes : Z) (h : Hub)
    : option (Hub * thread) :=
  match ch_fail c with
  | Some e => Some (release h (Z.of_nat (length items)) bytes, abandon obs (Err e))
  | None => Some (h, [IAddWork [] obs items bytes])
  end.
Definition commit_addWork (added todo : list nat) (items : list queuedObservation) (bytes : Z) (h : Hub)
    : option (Hub * thread) :=
  match todo with
  | d :: todo =>
      Some (set_delivery h d (addWorkLocked (Z.of_nat (length items)) (delivery h d)),
            [IAddWork (added ++ [d]) todo items bytes])
  | [] => Some (h, [IPublish added items bytes])
  end.
Definition commit_publish (obs : list nat) (items : list queuedObservation) (h : Hub) : option (Hub * thread) :=
  let '(h, drain) := publish h items in
  Some (h, [IReleaseAdmissions obs; IUnlock]
             ++ (if drain then [IDrainNotifications] else []) ++ [IReturn (WriteReturned (Ok tt))]).

Definition releaseAdmissions (todo : list nat) (h : Hub) : option (Hub * thread) :=
  match todo with
  | d :: todo => Some (finish_work h d 1, [IReleaseAdmissions todo])
  | [] => Some (h, [])
  end.

(** *** Drainers *)

(** One pass of [drainNotifications], up to its unlock. *)
Definition drainNotifications (h : Hub) : option (Hub * thread) :=
  if hub_mu h then None else
  match hub_notifications h with
  | [] => Some (h <| hub_notifying := false |>, [])
  | q :: rest => Some (h <| hub_notifications := rest |>, [IFanOut q (observers_of h q)])
  end.
(** The rest of the pass. *)
Definition fan_out (q : nat) (todo : list nat) (h : Hub) : option (Hub * thread) :=
  match todo with
  | d :: todo =>
      match enqueue q (delivery h d) with
      | None => Some (h, finishObservation d q ++ [IFanOut q todo])
      | Some (x, drain) => Some (set_delivery h d x, (if drain then [IDrain d] else []) ++ [IFanOut q todo])
      end
  | [] => Some (h, [IQueuedDone q; IDrainNotifications])
  end.

(** [queuedObservation.done] *)
Definition queued_done (q : nat) (h : Hub) : option (Hub * thread) :=
  match hub_queued h !! q with
  | Some o =>
      let o := o <| q_remaining ::= fun k => k - 1 |> in
      Some (h <| hub_queued ::= <[q := o]> |>,
            if q_remaining o =? 0 then [IReleaseBudget (q_bytes o)] else [])
  | None => Some (panic h, [])
  end.

(** One pass of [observerDelivery.drain]: the claim, the call and its end. A
    nil observer panics, and [notifyObserver] recovers. *)
Definition drain_delivery (d : nat) (h : Hub) : option (Hub * thread) :=
  let '(x, claimed) := claimNext (delivery h d) in
  Some (set_delivery h d x, match claimed with Some (q, observer) => [INotify d q observer] | None => [] end).
Definition notifyObserver (c : Choice) (d q : nat) (observer : bool) (h : Hub) : option (Hub * thread) :=
  if observer then Some (observe (Called d q) h, (ICall <$> ch_calls c) ++ [INotified d q])
  else Some (panic h, [INotified d q]).
Definition notified (d q : nat) (h : Hub) : option (Hub * thread) :=
  Some (h, finishObservation d q ++ [IDrain d]).

(** *** Subscribing and settling *)

Definition subscribe_lock (active : bool) (h : Hub) : option (Hub * thread) :=
  if hub_mu h then None else Some (lock h, [ISubscribeLocked active]).
Definition subscribe_locked (active : bool) (h : Hub) : option (Hub * thread) :=
  if hub_closed h then Some (h, [IUnlock; IReturn (SubscribeReturned (Err ErrStoreClosed))])
  else Some (h, [ICompact (hub_observers h) [] (ForSubscribe active)]).

(** [observerDelivery.wait] and the result of [Subscription.CloseContext]. *)
Definition wait_work (d : nat) (h : Hub) : option (Hub * thread) :=
  let x := delivery h d in
  if d_work x =? 0 then Some (h, [IReturn (SubscriptionClosed d (drain_error None 0 (d_resyncRequired x)))])
  else Some (h, [IWaitIdle d (pred (length (d_idle x)))]).
Definition wait_idle (c : Choice) (d k : nat) (h : Hub) : option (Hub * thread) :=
  match ch_fail c, d_idle (delivery h d) !! k with
  | Some _, _ => Some (h, [IWaited d true])
  | None, Some true => Some (h, [IWaited d false])
  | None, _ => None
  end.
Definition waited (d : nat) (cancelled : bool) (h : Hub) : option (Hub * thread) :=
  let x := delivery h d in
  let err := if (d_work x =? 0) || negb cancelled then None else Some DeadlineExceeded in
  Some (h, [IReturn (SubscriptionClosed d (drain_error err (d_work x) (d_resyncRequired x)))]).

(** *** Closing *)

(** [Registry.CloseContext]: the mutex, the loop over the observers, the wait
    for the budget and the report. *)
Definition close_lock (c : Choice) (h : Hub) : option (Hub * thread) :=
  match ch_fail c with
  | Some _ => Some (h, [IReturn (HubClosed (Some (mkDrainError (Some WaitStoreBusy) (-1) false)))])
  | None => if hub_mu h then None else Some (h, [ICloseEach (hub_observers h) false])
  end.
Definition close_each (todo : list nat) (resync : bool) (h : Hub) : option (Hub * thread) :=
  match todo with
  | d :: todo =>
      let '(h, finish, r) := unsubscribe_at h d in Some (h, finish ++ [ICloseEach todo (r || resync)])
  | [] => Some (h, [IWaitBudget resync])
  end.
Definition wait_budget (resync : bool) (h : Hub) : option (Hub * thread) :=
  if hub_count h =? 0 then Some (h, [ICloseReport None resync])
  else Some (h, [IWaitBudgetIdle (pred (length (hub_idle h))) resync]).
Definition wait_budget_idle (c : Choice) (k : nat) (resync : bool) (h : Hub) : option (Hub * thread) :=
  match ch_fail c, hub_idle h !! k with
  | Some _, _ => Some (h, [ICloseReport (if hub_count h =? 0 then None else Some DeadlineExceeded) resync])
  | None, Some true => Some (h, [ICloseReport None resync])
  | None, _ => None
  end.
Definition close_report (err : option WaitError) (resync : bool) (h : Hub) : option (Hub * thread) :=
  Some (h, [IReturn (HubClosed (drain_error err (hub_count h) resync))]).

(** *** All instructions *)

Definition exec (c : Choice) (i : Instr) (h : Hub) : option (Hub * thread) :=
  match i with
  | ICall op => Some (exec_call h op)
  | IUnlock => Some (h <| hub_mu := false |>, [])
  | IReturn o => Some (observe o h, [])
  | IWriteLock w => lockAndReload c w h
  | IWriteAdmitted w => admitted c w h
  | ICompact todo kept k => compactObserversLocked todo kept k h
  | IBatch w => newNotificationBatchLocked w h
  | IBeginAdmission w todo obs => begin_admissions w todo obs h
  | IAppend w events obs items bytes claimed => Some (h, append_step h w events obs items bytes claimed)
  | IReserve obs items bytes => commit_reserve obs items bytes h
  | ISave obs items bytes => commit_save c obs items bytes h
  | IAddWork added todo items bytes => commit_addWork added todo items bytes h
  | IPublish obs items _ => commit_publish obs items h
  | IReleaseAdmissions todo => releaseAdmissions todo h
  | IReleaseBudget bytes => Some (release h 1 bytes, [])
  | IDrainNotifications => drainNotifications h
  | IFanOut q todo => fan_out q todo h
  | IQueuedDone q => queued_done q h
  | IFinishWork d => Some (finish_work h d 1, [])
  | IDrain d => drain_delivery d h
  | INotify d q observer => notifyObserver c d q observer h
  | INotified d q => notified d q h
  | ISubscribeLock active => subscribe_lock active h
  | ISubscribeLocked active => subscribe_locked active h
  | IWaitWork d => wait_work d h
  | IWaitIdle d k => wait_idle c d k h
  | IWaited d cancelled => waited d cancelled h
  | ICloseLock => close_lock c h
  | ICloseEach todo resync => close_each todo resync h
  | IWaitBudget resync => wait_budget resync h
  | IWaitBudgetIdle k resync => wait_budget_idle c k resync h
  | ICloseReport err resync => close_report err resync h
  end.

(** ** Goroutines and schedules *)

Record System := mkSystem { sys_hub : Hub; sys_threads : list thread }.

Definition new_system (maxCount maxBytes : Z) : System := mkSystem (newHub maxCount maxBytes) [].

(** A goroutine starts with one call, or goroutine [t] runs an instruction. *)
Inductive Sched := Spawn (op : Op) | Run (t : nat) (c : Choice).

Definition sched_step (s : System) (a : Sched) : option System :=
  match a with
  | Spawn op => Some (mkSystem (sys_hub s) (sys_threads s ++ [[ICall op]]))
  | Run t c =>
      match sys_threads s !! t with
      | Some (i :: rest) =>
          match exec c i (sys_hub s) with
          | Some (h, pushed) => Some (mkSystem h (<[t := pushed ++ rest]> (sys_threads s)))
          | None => None
          end
      | _ => None
      end
  end.

Fixpoint sched_run (s : System) (l : list Sched) : option System :=
  match l with
  | [] => Some s
  | a :: l => match sched_step s a with Some s => sched_run s l | None => None end
  end.

(** The states the package can be in, for limits [maxCount] and [maxBytes]. *)
Definition reachable (maxCount maxBytes : Z) (s : System) : Prop :=
  ∃ l, sched_run (new_system maxCount maxBytes) l = Some s.

(** What a delivery was called with, in order. *)
Definition calls_of (d : nat) (t : list Observed) : list nat :=
  omap (fun o => match o with Called d' q => if decide (d' = d) then Some q else None | _ => None end) t.

(** The committed observations a delivery was admitted to, in commit order. *)
Definition accepted (d : nat) (h : Hub) : list nat :=
  filter (fun q => d ∈ observers_of h q) (seq 0 (length (hub_queued h))).
