(* ===== verification/ObserverWeights.v ===== *)
(** The accounts of the subscriber state: how often a number occurs in the
    lists the instructions of [ObserverHub] hold, what every instruction still
    owes the shared counters, and which exclusive right it holds. *)
From S2P Require Import Prelude Goroutines GoStrings GoJson InteractionTypes ObserverHub.

Definition same (d e : nat) : Z := one_if (bool_decide (e = d)).
Lemma same_refl d : same d d = 1.
Proof. unfold same. by rewrite bool_decide_eq_true_2. Qed.
Lemma same_ne d e : e ≠ d → same d e = 0.
Proof. intros. unfold same. by rewrite bool_decide_eq_false_2. Qed.
Lemma same_nonneg d e : 0 ≤ same d e ≤ 1.
Proof. apply one_if_nonneg. Qed.

(** How often [d] occurs. *)
Definition cnt (d : nat) (l : list nat) : Z := zsum (same d) l.

Lemma cnt_app d l k : cnt d (l ++ k) = cnt d l + cnt d k.
Proof. apply zsum_app. Qed.
Lemma cnt_cons d e l : cnt d (e :: l) = same d e + cnt d l.
Proof. done. Qed.
Lemma cnt_nil d : cnt d [] = 0. Proof. done. Qed.
Lemma cnt_nonneg d l : 0 ≤ cnt d l.
Proof. apply zsum_nonneg. intros. apply same_nonneg. Qed.
Lemma cnt_elem d l : d ∈ l → 1 ≤ cnt d l.
Proof.
  intros Hd. pose proof (zsum_elem (same d) l d (fun x _ => proj1 (same_nonneg d x)) Hd).
  by rewrite same_refl in *.
Qed.
Lemma cnt_not_elem d l : d ∉ l → cnt d l = 0.
Proof. intros Hd. apply zsum_zero. intros x Hx. apply same_ne. by intros ->. Qed.
Lemma cnt_zero d l : cnt d l = 0 → d ∉ l.
Proof. intros Hz Hd. pose proof (cnt_elem d l Hd). lia. Qed.
Lemma cnt_seq d a n : cnt d (seq a n) = one_if (bool_decide (a ≤ d < a + n)%nat).
Proof.
  revert a. induction n as [|n IH]; intros a; cbn [seq].
  - rewrite cnt_nil, bool_decide_eq_false_2 by lia. done.
  - rewrite cnt_cons, IH. unfold same, one_if. repeat case_bool_decide; lia.
Qed.
#[export] Hint Rewrite cnt_app cnt_cons cnt_nil : zsum.

(** * The accounts

    The accounts of the subscriber state: what every instruction still owes the
    shared counters ([wk] the work of a delivery, [rm] the users of an
    observation, [bc] and [bb] the count and bytes of the budget), and which
    exclusive right it holds ([tokd] draining a delivery, [tokr] draining the
    registry, [lk] the mutex of the registry). *)

Definition zlen {A} (l : list A) : Z := Z.of_nat (length l).

Definition wk (d : nat) (i : Instr) : Z :=
  match i with
  | IBeginAdmission _ _ obs | IAppend _ _ obs _ _ _ | IReserve obs _ _ | ISave obs _ _ => cnt d obs
  | IAddWork added todo items _ => cnt d added * (1 + zlen items) + cnt d todo
  | IPublish obs items _ => cnt d obs * (1 + zlen items)
  | IReleaseAdmissions todo | IFanOut _ todo => cnt d todo
  | IFinishWork e => same d e
  | INotify e _ _ | INotified e _ => same d e
  | _ => 0
  end.

Definition rm (q : nat) (i : Instr) : Z :=
  match i with
  | IFanOut p todo => same q p * (zlen todo + 1)
  | IQueuedDone p | INotify _ p _ | INotified _ p => same q p
  | _ => 0
  end.

Definition bc (i : Instr) : Z :=
  match i with
  | ISave _ items _ | IAddWork _ _ items _ | IPublish _ items _ => zlen items
  | IReleaseBudget _ => 1
  | _ => 0
  end.

Definition bb (i : Instr) : Z :=
  match i with
  | ISave _ _ bytes | IAddWork _ _ _ bytes | IPublish _ _ bytes => bytes
  | IReleaseBudget bytes => bytes
  | _ => 0
  end.

Definition tokd (d : nat) (i : Instr) : Z :=
  match i with IDrain e | INotify e _ _ | INotified e _ => same d e | _ => 0 end.

Definition tokr (i : Instr) : Z :=
  match i with IDrainNotifications | IFanOut _ _ => 1 | _ => 0 end.

Definition lk (i : Instr) : Z :=
  match i with
  | IUnlock | IWriteAdmitted _ | ICompact _ _ _ | IBatch _ | IBeginAdmission _ _ _ | IAppend _ _ _ _ _ _
  | IReserve _ _ _ | ISave _ _ _ | IAddWork _ _ _ _ | IPublish _ _ _ | ISubscribeLocked _ => 1
  | _ => 0
  end.

(** The observation a drainer of [d] holds, and the one on its way from the
    registry's queue to that of [d]. *)
Definition inflight (d : nat) (i : Instr) : list nat :=
  match i with INotify e q _ => if decide (e = d) then [q] else [] | _ => [] end.
Definition transit (d : nat) (i : Instr) : list nat :=
  match i with IFanOut q todo => if decide (d ∈ todo) then [q] else [] | _ => [] end.

(** ** The other sides of the accounts *)

Definition queued_for (h : Hub) (d : nat) (q : nat) : Z := cnt d (observers_of h q).
Definition work_owed (h : Hub) (d : nat) : Z :=
  d_work (delivery h d) - zlen (d_pending (delivery h d)) - zsum (queued_for h d) (hub_notifications h).

Definition remaining_of (h : Hub) (q : nat) : Z :=
  match hub_queued h !! q with Some o => q_remaining o | None => 0 end.
Definition users_of (h : Hub) (q : nat) : Z := zlen (observers_of h q) + 1.
Definition remaining_owed (h : Hub) (q : nat) : Z :=
  remaining_of h q - zsum (fun x => cnt q (d_pending x)) (hub_deliveries h)
  - users_of h q * cnt q (hub_notifications h).

Definition live (o : queuedObservation) : Z := one_if (0 <? q_remaining o).
Definition live_bytes (o : queuedObservation) : Z := live o * q_bytes o.
Definition count_owed (h : Hub) : Z := hub_count h - zsum live (hub_queued h).
Definition bytes_owed (h : Hub) : Z := hub_bytes h - zsum live_bytes (hub_queued h).

(** ** The accounts *)

Inductive Account :=
| AWork (d : nat) | ARemaining (q : nat) | ACount | ABytes | ADrainer (d : nat) | ANotifying | AMutex.

Definition weight (a : Account) : Instr → Z :=
  match a with
  | AWork d => wk d | ARemaining q => rm q | ACount => bc | ABytes => bb
  | ADrainer d => tokd d | ANotifying => tokr | AMutex => lk
  end.
Definition owed (a : Account) (h : Hub) : Z :=
  match a with
  | AWork d => work_owed h d | ARemaining q => remaining_owed h q
  | ACount => count_owed h | ABytes => bytes_owed h
  | ADrainer d => one_if (d_notifying (delivery h d))
  | ANotifying => one_if (hub_notifying h)
  | AMutex => one_if (hub_mu h)
  end.

(** ** Local well-formedness *)

(** The current channel is open exactly while there is work. *)
Definition idle_ok (n : Z) (l : channels) : Prop :=
  (n = 0 → Forall (fun b => b = true) l)
  ∧ (0 < n → ∃ k, l = k ++ [false] ∧ Forall (fun b => b = true) k).

Record delivery_ok (x : observerDelivery) : Prop := {
  ok_work : 0 ≤ d_work x;
  ok_idle : idle_ok (d_work x) (d_idle x);
  ok_closed : d_closed x = true →
    d_unsubscribed x = true ∧ d_active x = false ∧ d_pending x = []
    ∧ (d_resyncRequired x = true ∨ d_work x = 0);
  ok_resync : d_resyncRequired x = true → d_closed x = true;
  ok_notifying : d_notifying x = true → d_active x = true;
  ok_pending : d_active x = true → d_pending x ≠ [] → d_notifying x = true;
  ok_observer : d_observer x = false → d_unsubscribed x = true ∧ d_work x = 0 }.

(** The items of a batch for the observers [obs]. *)
Definition items_ok (obs : list nat) (items : list queuedObservation) (bytes : Z) : Prop :=
  Forall (fun o => q_observers o = obs ∧ q_remaining o = zlen obs + 1 ∧ 0 ≤ q_bytes o) items
  ∧ bytes = zsum q_bytes items.

Definition ids_ok (n : nat) (l : list nat) : Prop := NoDup l ∧ Forall (fun d => d < n)%nat l.

(** What the local variables of an instruction satisfy among [n] deliveries. *)
Definition instr_ok (n : nat) (i : Instr) : Prop :=
  match i with
  | ICompact todo kept _ => ids_ok n (kept ++ todo)
  | IBeginAdmission _ todo obs => ids_ok n (obs ++ todo)
  | IAppend _ _ obs items bytes _ | IReserve obs items bytes | ISave obs items bytes
  | IPublish obs items bytes => ids_ok n obs ∧ items_ok obs items bytes
  | IAddWork added todo items bytes => ids_ok n (added ++ todo) ∧ items_ok (added ++ todo) items bytes
  | IReleaseAdmissions todo | IFanOut _ todo => ids_ok n todo
  | IReleaseBudget bytes => 0 ≤ bytes
  | INotify d _ observer => observer = true ∧ (d < n)%nat
  | IFinishWork d | IDrain d | INotified d _ => (d < n)%nat
  | ICloseEach todo _ => Forall (fun d => d < n)%nat todo
  | IReturn (Called _ _) => False
  | _ => True
  end.

Record hub_ok (h : Hub) : Prop := {
  ok_observers : ids_ok (length (hub_deliveries h)) (hub_observers h);
  ok_deliveries : Forall delivery_ok (hub_deliveries h);
  ok_queued : Forall (fun o => ids_ok (length (hub_deliveries h)) (q_observers o) ∧ 0 ≤ q_bytes o ∧ 0 ≤ q_remaining o)
                (hub_queued h);
  ok_count : 0 ≤ hub_count h ≤ hub_maxCount h;
  ok_bytes : 0 ≤ hub_bytes h ≤ hub_maxBytes h;
  ok_budget_idle : idle_ok (hub_count h) (hub_idle h);
  ok_notify : hub_notifications h ≠ [] → hub_notifying h = true;
  ok_panic : hub_panicked h = false }.

(** What [d] was called with, then every observation on its way to it, in the
    order in which the calls will come. *)
Definition sequence (d : nat) (h : Hub) (ts : list thread) : list nat :=
  calls_of d (hub_trace h) ++ tcat (inflight d) ts ++ d_pending (delivery h d) ++ tcat (transit d) ts
  ++ filter (fun q => d ∈ observers_of h q) (hub_notifications h).

(** The invariant: local well-formedness, the accounts with the rights, and
    that no delivery loses or reorders an observation unless it says that it
    needs a fresh snapshot. *)
Record hub_inv (s : System) : Prop := {
  inv_hub : hub_ok (sys_hub s);
  inv_instrs : ∀ i, stands (sys_threads s) i → instr_ok (length (hub_deliveries (sys_hub s))) i;
  inv_accounts : ∀ a, owed a (sys_hub s) = tsum (weight a) (sys_threads s);
  inv_order : ∀ d, d_resyncRequired (delivery (sys_hub s) d) = false →
    sequence d (sys_hub s) (sys_threads s) = accepted d (sys_hub s);
  inv_gated : ∀ d, d_active (delivery (sys_hub s) d) = false → calls_of d (hub_trace (sys_hub s)) = [] }.
