(* ===== verification/ObserverViews.v ===== *)
(** One delivery of [ObserverHub], what its critical sections ([observer.go])
    do to its state and that they keep it well-formed; and the shared state
    under the updates of one instruction. *)
From S2P Require Import Prelude Goroutines GoStrings GoJson InteractionTypes ObserverHub ObserverWeights.

(** ** Channels *)

Lemma idle_make n l : idle_ok 0 l → 0 < n → idle_ok n (make_channel l).
Proof. intros [Hz _] Hn. split; [lia|]. intros _. exists l. split; [done|]. by apply Hz. Qed.
Lemma idle_more n m l : 0 < n → 0 < m → idle_ok n l → idle_ok m l.
Proof. intros Hn Hm [_ Hl]. split; [lia|]. intros _. by apply Hl. Qed.
Lemma idle_close n l : 0 < n → idle_ok n l → ∃ k, close_channel l = Some k ∧ idle_ok 0 k ∧ length k = length l.
Proof.
  intros Hn [_ Hl]. destruct (Hl Hn) as (k & -> & Hk). unfold close_channel. rewrite last_snoc.
  exists (k ++ [true]). repeat split; [|intros _|lia|by rewrite !length_app].
  - f_equal. rewrite length_app. replace (pred (length k + length [false])) with (length k + 0)%nat by (cbn; lia).
    by rewrite insert_app_r.
  - rewrite Forall_app. by split; [|constructor].
Qed.
(** A closed channel other than the current one, or no work left. *)
Lemma idle_closed n l k : idle_ok n l → (0 < n → S k = length l) → l !! k = Some true → n ≤ 0.
Proof.
  intros [_ Hl] Hk Ht. destruct (decide (0 < n)) as [Hn|]; [|lia]. exfalso.
  destruct (Hl Hn) as (l' & -> & _). specialize (Hk Hn). rewrite length_app in Hk. cbn in Hk.
  assert (k = length l') as -> by lia. by rewrite list_lookup_middle in Ht.
Qed.

(** ** Critical sections *)

Implicit Types (x y : observerDelivery).

(** The fields that the accounting of work does not touch. *)
Definition same_queue x y : Prop :=
  d_active y = d_active x ∧ d_closed y = d_closed x ∧ d_notifying y = d_notifying x
  ∧ d_pending y = d_pending x ∧ d_unsubscribed y = d_unsubscribed x
  ∧ d_resyncRequired y = d_resyncRequired x.

Lemma addWork_ok x n :
  delivery_ok x → 0 ≤ n → (d_unsubscribed x = true → 0 < d_work x) →
  delivery_ok (addWorkLocked n x) ∧ same_queue x (addWorkLocked n x)
  ∧ d_work (addWorkLocked n x) = d_work x + n
  ∧ (0 < d_work x → d_idle (addWorkLocked n x) = d_idle x).
Proof.
  intros [Hw Hi Hc Hr Hn Hp Ho] Hpos Hu. unfold addWorkLocked. destruct x as [o a c nt p u r w idle]; simpl in *.
  destruct ((w =? 0) && (0 <? n)) eqn:E; simpl.
  - assert (w = 0) as -> by lia. assert (0 < n) by lia. split; [|by repeat split; lia].
    split; simpl; [lia|by apply idle_make| |done..|].
    + intros ->. destruct (Hc eq_refl) as (-> & _). specialize (Hu eq_refl). lia.
    + intros ->. destruct (Ho eq_refl) as [-> _]. specialize (Hu eq_refl). lia.
  - split; [|by repeat split]. split; simpl; [lia| | |done..|].
    + destruct (decide (0 < w)); [by apply (idle_more w); [..|]; try lia|].
      assert (w = 0 ∧ n = 0) as [-> ->] by lia. done.
    + intros ->. destruct (Hc eq_refl) as (? & ? & ? & [?|?]); [by repeat split; try left|].
      specialize (Hu ltac:(done)). lia.
    + intros ->. destruct (Ho eq_refl) as [-> ?]. specialize (Hu eq_refl). lia.
Qed.

Lemma finishWork_ok x :
  delivery_ok x → 1 ≤ d_work x → ∃ y, finishWork 1 x = Some y
  ∧ delivery_ok y ∧ same_queue x y ∧ d_work y = d_work x - 1 ∧ length (d_idle y) = length (d_idle x).
Proof.
  intros [Hw Hi Hc Hr Hn Hp Ho] Hpos. unfold finishWork. destruct x as [o a c nt p u r w idle]; simpl in *.
  destruct ((w - 1 =? 0) && (0 <? 1)) eqn:E.
  - assert (w = 1) as -> by lia.
    destruct (idle_close 1 idle ltac:(lia) Hi) as (k & -> & Hk & Hlen).
    eexists. split; [done|]. destruct u; simpl.
    + split; [|by repeat split]. split; simpl; [lia|done| |done..].
      intros ->. destruct (Hc eq_refl) as (? & ? & ? & _). repeat split; try done. by right.
    + split; [|by repeat split]. split; simpl; [lia|done| |done..|].
      * intros ->. by destruct (Hc eq_refl) as (? & _).
      * intros ->. by destruct (Ho eq_refl) as [? _].
  - eexists. split; [done|]. split; [|by repeat split]. split; simpl; [lia| | |done..|].
    + apply (idle_more w); [lia..|done].
    + intros ->. destruct (Hc eq_refl) as (? & ? & ? & [?|?]); [|lia]. repeat split; try done. by left.
    + intros ->. destruct (Ho eq_refl) as [? ?]. lia.
Qed.

Lemma enqueue_ok x q y drain :
  delivery_ok x → enqueue q x = Some (y, drain) →
  delivery_ok y ∧ d_closed x = false ∧ y = x <| d_pending := d_pending x ++ [q] |> <| d_notifying := d_notifying x || drain |>
  ∧ one_if (d_notifying y) = one_if (d_notifying x) + one_if drain.
Proof.
  intros [Hw Hi Hc Hr Hn Hp Ho]. unfold enqueue. destruct x as [o a c nt p u r w idle]; simpl in *.
  destruct c; [done|]. intros [= <- <-]. destruct a, nt; simpl; (split; [|done]); split; simpl; naive_solver.
Qed.

Lemma activate_ok x y drain :
  delivery_ok x → activate x = (y, drain) →
  delivery_ok y ∧ (y = x ∧ drain = false
    ∨ d_closed x = false ∧ y = x <| d_active := true |> <| d_notifying := d_notifying x || drain |>)
  ∧ one_if (d_notifying y) = one_if (d_notifying x) + one_if drain.
Proof.
  intros Hx. pose proof Hx as [Hw Hi Hc Hr Hn Hp Ho]. unfold activate.
  destruct x as [o a c nt p u r w idle]; simpl in *.
  destruct c; simpl; [intros [= <- <-]; split; [done|split; [by left|by destruct nt]]|].
  destruct a; simpl; [intros [= <- <-]; split; [done|split; [by left|by destruct nt]]|].
  destruct nt; [by specialize (Hn eq_refl)|].
  destruct p; intros [= <- <-]; simpl;
    (split; [split; simpl; naive_solver|split; [right; by split|done]]).
Qed.

Lemma unsubscribe_ok x y drop resync :
  delivery_ok x → unsubscribe x = (y, drop, resync) →
  delivery_ok y ∧ d_unsubscribed y = true ∧ d_work y = d_work x ∧ d_idle y = d_idle x
  ∧ d_notifying y = d_notifying x ∧ d_active y = d_active x ∧ d_pending x = drop ++ d_pending y
  ∧ d_resyncRequired y = resync ∧ (d_resyncRequired y = false → d_resyncRequired x = false)
  ∧ (drop = [] ∨ resync = true ∨ d_work x ≤ 0).
Proof.
  intros [Hw Hi Hc Hr Hn Hp Ho]. unfold unsubscribe. destruct x as [o a c nt p u r w idle]; simpl in *.
  assert (Hz : w =? 0 = true → w = 0) by lia.
  destruct a.
  - destruct c; [by destruct (Hc eq_refl) as (_ & ? & _)|].
    destruct (w =? 0) eqn:E; simpl; intros [= <- <- <-]; simpl;
      (split; [split; simpl; naive_solver|by repeat split; auto]).
  - assert (nt = false) as -> by (destruct nt; [by specialize (Hn eq_refl)|done]).
    assert (Hlt : 0 <? w = negb (w =? 0)) by lia.
    destruct (w =? 0) eqn:E; simpl; rewrite Hlt; simpl; intros [= <- <- <-]; simpl.
    + rewrite (Hz eq_refl), orb_false_r.
      split; [split; simpl; naive_solver|]. repeat split; auto; [by rewrite app_nil_r|]. right; right. lia.
    + rewrite orb_true_r. split; [split; simpl; auto; naive_solver|]. repeat split; auto; [by rewrite app_nil_r|done].
Qed.

Lemma claimNext_ok x y claimed :
  delivery_ok x → d_notifying x = true → zlen (d_pending x) ≤ d_work x → claimNext x = (y, claimed) →
  delivery_ok y ∧
  match claimed with
  | Some (q, observer) => observer = true ∧ d_pending x = q :: d_pending y ∧ y = x <| d_pending := d_pending y |>
  | None => d_pending x = [] ∧ y = x <| d_notifying := false |>
  end.
Proof.
  intros [Hw Hi Hc Hr Hn Hp Ho]. unfold claimNext. destruct x as [o a c nt p u r w idle]; simpl in *.
  intros -> Hle. specialize (Hn eq_refl) as ->. destruct p as [|q p]; [intros [= <- <-]|].
  - split; [|done]. split; simpl; auto; done.
  - destruct c; [by destruct (Hc eq_refl) as (_ & ? & _)|]. intros [= <- <-]. split.
    + split; simpl; auto; done.
    + destruct o; [done|]. destruct (Ho eq_refl) as [_ ->]. unfold zlen in Hle. cbn in Hle. lia.
Qed.

(** * The shared state

    The shared state under the updates of one instruction: what a lookup, an
    account and the well-formedness of the state become. *)

Implicit Types (h : Hub) (d e q : nat).

Lemma zlen_app {A} (l k : list A) : zlen (l ++ k) = zlen l + zlen k.
Proof. unfold zlen. rewrite length_app. lia. Qed.
Lemma zlen_cons {A} (x : A) l : zlen (x :: l) = 1 + zlen l.
Proof. unfold zlen. cbn [length]. lia. Qed.
Lemma zlen_nil {A} : zlen (@nil A) = 0. Proof. done. Qed.
Lemma zlen_nonneg {A} (l : list A) : 0 ≤ zlen l.
Proof. unfold zlen. lia. Qed.
#[export] Hint Rewrite @zlen_app @zlen_cons @zlen_nil : zsum.

(** ** Updating one delivery *)

Lemma delivery_set h d x e :
  (d < length (hub_deliveries h))%nat →
  delivery (set_delivery h d x) e = if decide (e = d) then x else delivery h e.
Proof.
  intros Hd. unfold delivery, set_delivery. simpl. case_decide as He; [subst|].
  - by apply list_lookup_total_insert_eq.
  - by rewrite list_lookup_total_insert_ne.
Qed.
Lemma delivery_set_eq h d x :
  (d < length (hub_deliveries h))%nat → delivery (set_delivery h d x) d = x.
Proof. intros. rewrite delivery_set by done. by rewrite decide_True. Qed.
Lemma delivery_set_ne h d x e :
  (d < length (hub_deliveries h))%nat → e ≠ d → delivery (set_delivery h d x) e = delivery h e.
Proof. intros. rewrite delivery_set by done. by rewrite decide_False. Qed.
Lemma set_delivery_length h d x : length (hub_deliveries (set_delivery h d x)) = length (hub_deliveries h).
Proof. apply length_insert. Qed.

Lemma delivery_lookup h d :
  (d < length (hub_deliveries h))%nat → hub_deliveries h !! d = Some (delivery h d).
Proof. apply list_lookup_lookup_total_lt. Qed.
Lemma delivery_out h d : (length (hub_deliveries h) ≤ d)%nat → delivery h d = inhabitant.
Proof. intros Hd. unfold delivery. rewrite list_lookup_total_alt, lookup_ge_None_2; done. Qed.

Lemma delivery_is_ok h d : hub_ok h → (d < length (hub_deliveries h))%nat → delivery_ok (delivery h d).
Proof. intros Hh Hd. eapply Forall_lookup_1; [apply Hh|]. by apply delivery_lookup. Qed.

Lemma work_owed_set h d x e :
  (d < length (hub_deliveries h))%nat →
  work_owed (set_delivery h d x) e =
  work_owed h e + same e d * ((d_work x - zlen (d_pending x)) - (d_work (delivery h d) - zlen (d_pending (delivery h d)))).
Proof.
  intros Hd. unfold work_owed. change (hub_notifications (set_delivery h d x)) with (hub_notifications h).
  rewrite (zsum_ext (queued_for (set_delivery h d x) e) (queued_for h e)) by done.
  rewrite delivery_set by done. case_decide; [subst; rewrite same_refl|rewrite same_ne by done]; lia.
Qed.

Lemma remaining_owed_set h d x q :
  (d < length (hub_deliveries h))%nat →
  remaining_owed (set_delivery h d x) q =
  remaining_owed h q + cnt q (d_pending (delivery h d)) - cnt q (d_pending x).
Proof.
  intros Hd. unfold remaining_owed, set_delivery. simpl.
  rewrite (zsum_insert _ _ _ _ _ (delivery_lookup h d Hd)).
  unfold users_of, observers_of, remaining_of. simpl. lia.
Qed.

Lemma hub_ok_set h d x :
  hub_ok h → delivery_ok x → hub_ok (set_delivery h d x).
Proof.
  intros [? ? ? ? ? ? ? ?] Hx. split; rewrite ?set_delivery_length; try done.
  simpl. apply Forall_insert; done.
Qed.

(** ** Updates that the well-formedness does not read *)

Definition same_core h h' : Prop :=
  hub_observers h' = hub_observers h ∧ hub_deliveries h' = hub_deliveries h ∧ hub_queued h' = hub_queued h
  ∧ hub_count h' = hub_count h ∧ hub_bytes h' = hub_bytes h ∧ hub_idle h' = hub_idle h
  ∧ hub_maxCount h' = hub_maxCount h ∧ hub_maxBytes h' = hub_maxBytes h
  ∧ hub_notifications h' = hub_notifications h ∧ hub_notifying h' = hub_notifying h
  ∧ hub_panicked h' = hub_panicked h.

Lemma hub_ok_core h h' : same_core h h' → hub_ok h → hub_ok h'.
Proof.
  intros (E1 & E2 & E3 & E4 & E5 & E6 & E7 & E8 & E9 & E10 & E11) [? ? ? ? ? ? ? ?].
  split; rewrite ?E1, ?E2, ?E3, ?E4, ?E5, ?E6, ?E7, ?E8, ?E9, ?E10, ?E11; done.
Qed.

(** ** The budget *)

Lemma checkLocked_ok h count bytes :
  checkLocked h count bytes = Ok tt → hub_count h + count ≤ hub_maxCount h ∧ hub_bytes h + bytes ≤ hub_maxBytes h.
Proof. unfold checkLocked. destruct (_ || _) eqn:E; [done|]. intros _. lia. Qed.

Lemma reserve_ok h h' count bytes :
  hub_ok h → 0 ≤ count → 0 ≤ bytes → reserve h count bytes = Ok h' →
  hub_ok h' ∧ h' = h <| hub_count := hub_count h + count |> <| hub_bytes := hub_bytes h + bytes |>
                     <| hub_idle := hub_idle h' |>
  ∧ (hub_idle h' = hub_idle h ∨ hub_count h = 0 ∧ 0 < count).
Proof.
  intros [? ? ? ? ? Hi ? ?] Hc Hb. unfold reserve. destruct (checkLocked h count bytes) as [[]|] eqn:E; [|done].
  apply checkLocked_ok in E as [? ?].
  destruct ((hub_count h =? 0) && (0 <? count)) eqn:Ez; intros [= <-]; simpl.
  - assert (hub_count h = 0) as Hz by lia. split; [|split; [done|right; lia]].
    split; simpl; try done; try lia. rewrite Hz in Hi. apply idle_make; [done|lia].
  - split; [|split; [done|by left]]. split; simpl; try done; try lia.
    destruct (decide (0 < hub_count h)); [by apply (idle_more (hub_count h)); [lia..|]|].
    assert (hub_count h + count = hub_count h) as -> by lia. done.
Qed.

Lemma release_ok h count bytes :
  hub_ok h → 0 ≤ count ≤ hub_count h → 0 ≤ bytes ≤ hub_bytes h →
  hub_ok (release h count bytes)
  ∧ release h count bytes = h <| hub_count := hub_count h - count |> <| hub_bytes := hub_bytes h - bytes |>
                              <| hub_idle := hub_idle (release h count bytes) |>
  ∧ length (hub_idle (release h count bytes)) = length (hub_idle h).
Proof.
  intros [? ? ? ? ? Hi ? ?] Hc Hb. unfold release. simpl.
  destruct ((hub_count h - count =? 0) && (0 <? count)) eqn:E.
  - destruct (idle_close (hub_count h) (hub_idle h)) as (k & -> & Hk & Hlen); [lia|done|].
    split; [|done]. assert (hub_count h - count = 0) as Hz by lia.
    split; simpl; try done; try lia. by rewrite Hz.
  - split; [|done]. split; simpl; try done; try lia.
    destruct (decide (0 < hub_count h - count)); [by apply (idle_more (hub_count h)); [lia..|]|].
    assert (hub_count h - count = hub_count h) as -> by lia. done.
Qed.

(** ** Publishing *)

Lemma publish_fields h items h' drain :
  publish h items = (h', drain) →
  h' = h <| hub_queued := hub_queued h ++ items |>
         <| hub_notifications := hub_notifications h ++ seq (length (hub_queued h)) (length items) |>
         <| hub_notifying := hub_notifying h' |>
  ∧ one_if (hub_notifying h') = one_if (hub_notifying h) + one_if drain
  ∧ (hub_notifications h' ≠ [] → hub_notifications h ≠ [] ∨ hub_notifying h' = true).
Proof.
  unfold publish. destruct items as [|o items]; simpl.
  - intros [= <- <-]. split; [done|]. split; [cbn; lia|]. simpl. rewrite app_nil_r. by left.
  - destruct (hub_notifying h) eqn:E; intros [= <- <-]; simpl; rewrite ?E; (split; [done|]); (split; [done|]); by right.
Qed.

Section publish.
Context (h h' : Hub) (items : list queuedObservation) (drain : bool).
Hypothesis Hp : publish h items = (h', drain).

Lemma publish_queued : hub_queued h' = hub_queued h ++ items.
Proof. destruct (publish_fields _ _ _ _ Hp) as (-> & _). done. Qed.
Lemma publish_notifications :
  hub_notifications h' = hub_notifications h ++ seq (length (hub_queued h)) (length items).
Proof. destruct (publish_fields _ _ _ _ Hp) as (-> & _). done. Qed.
Lemma publish_deliveries : hub_deliveries h' = hub_deliveries h.
Proof. destruct (publish_fields _ _ _ _ Hp) as (-> & _). done. Qed.
Lemma publish_delivery d : delivery h' d = delivery h d.
Proof. unfold delivery. by rewrite publish_deliveries. Qed.

Lemma publish_observers_old q : (q < length (hub_queued h))%nat → observers_of h' q = observers_of h q.
Proof. intros Hq. unfold observers_of. by rewrite publish_queued, lookup_app_l. Qed.

Lemma publish_observers_new obs q :
  Forall (fun o => q_observers o = obs) items →
  q ∈ seq (length (hub_queued h)) (length items) → observers_of h' q = obs.
Proof.
  intros Hitems [? ?]%elem_of_seq. unfold observers_of. rewrite publish_queued, lookup_app_r by lia.
  destruct (items !! _) as [o|] eqn:E; [|apply lookup_ge_None in E; lia].
  by apply (Forall_lookup_1 _ _ _ _ Hitems E).
Qed.
End publish.
