(* ===== verification/ObserverExec.v ===== *)
(** One instruction of a goroutine: that it balances every account, given that
    the goroutine's claims are covered by the shared state. *)
From S2P Require Import Prelude Goroutines GoStrings GoJson InteractionTypes ObserverHub ObserverWeights ObserverViews.

(** What the accounts say of an instruction about to run. *)
Record covered (h : Hub) (i : Instr) : Prop := {
  cov_hub : hub_ok h;
  cov_instr : instr_ok (length (hub_deliveries h)) i;
  cov_work : ∀ d, wk d i + zlen (d_pending (delivery h d)) + zsum (queued_for h d) (hub_notifications h)
                  ≤ d_work (delivery h d);
  cov_remaining : ∀ q, rm q i ≤ remaining_of h q;
  cov_count : bc i + zsum live (hub_queued h) ≤ hub_count h;
  cov_bytes : bb i + zsum live_bytes (hub_queued h) ≤ hub_bytes h;
  cov_drainer : ∀ d, tokd d i ≤ one_if (d_notifying (delivery h d));
  cov_notifying : tokr i ≤ one_if (hub_notifying h);
  cov_mutex : lk i ≤ one_if (hub_mu h);
  cov_notified : ∀ q, q ∈ hub_notifications h → (q < length (hub_queued h))%nat }.

#[global] Arguments set_delivery : simpl never.
#[global] Arguments delivery : simpl never.
#[global] Arguments publish : simpl never.
#[global] Arguments release : simpl never.
#[global] Arguments reserve : simpl never.
#[global] Arguments finish_work : simpl never.
#[global] Arguments unsubscribe_at : simpl never.
#[global] Arguments append_step : simpl never.
#[global] Arguments handle_ok : simpl never.

Ltac unfold_exec H :=
  cbn [exec] in H;
  cbv beta iota zeta delta [lockAndReload admitted compactObserversLocked newNotificationBatchLocked begin_admissions commit_reserve
    commit_save commit_addWork commit_publish releaseAdmissions drainNotifications fan_out
    queued_done drain_delivery notifyObserver notified subscribe_lock subscribe_locked
    wait_work wait_idle waited close_lock close_each wait_budget
    wait_budget_idle close_report] in H.
(** The cases of [exec c i h = Some (h', pushed)]. *)
Ltac exec_cases H :=
  repeat match type of H with
  | Some _ = Some _ => apply (inj Some) in H
  | None = Some _ => discriminate H
  | (_, _) = (_, _) => let H1 := fresh in injection H as H1 H; subst
  | (match ?x with _ => _ end) = _ => let E := fresh "E" in destruct x eqn:E
  | Some (match ?x with _ => _ end) = _ => let E := fresh "E" in destruct x eqn:E
  end.

(** ** Balance *)

Definition balanced (h : Hub) (i : Instr) (h' : Hub) (pushed : thread) : Prop :=
  ∀ a, owed a h' = owed a h - weight a i + zsum (weight a) pushed.

(** The fields the accounts read. *)
Definition same_accounts (h h' : Hub) : Prop :=
  hub_deliveries h' = hub_deliveries h ∧ hub_queued h' = hub_queued h ∧ hub_count h' = hub_count h
  ∧ hub_bytes h' = hub_bytes h ∧ hub_notifications h' = hub_notifications h
  ∧ hub_notifying h' = hub_notifying h.

Section same_accounts.
Context (h h' : Hub) (Hs : same_accounts h h').
Lemma same_delivery d : delivery h' d = delivery h d.
Proof. unfold delivery. by destruct Hs as (-> & _). Qed.
Lemma same_observers q : observers_of h' q = observers_of h q.
Proof. unfold observers_of. by destruct Hs as (_ & -> & _). Qed.
Lemma same_work d : work_owed h' d = work_owed h d.
Proof.
  unfold work_owed. rewrite same_delivery.
  rewrite (zsum_ext (queued_for h' d) (queued_for h d)) by (intros; unfold queued_for; by rewrite same_observers).
  by destruct Hs as (_ & _ & _ & _ & -> & _).
Qed.
Lemma same_remaining q : remaining_owed h' q = remaining_owed h q.
Proof.
  unfold remaining_owed, users_of, remaining_of. rewrite same_observers.
  by destruct Hs as (-> & -> & _ & _ & -> & _).
Qed.
Lemma same_count : count_owed h' = count_owed h.
Proof. unfold count_owed. by destruct Hs as (_ & -> & -> & _). Qed.
Lemma same_bytes : bytes_owed h' = bytes_owed h.
Proof. unfold bytes_owed. by destruct Hs as (_ & -> & _ & -> & _). Qed.

Lemma balanced_quiet i pushed :
  hub_mu h' = hub_mu h → (∀ a, zsum (weight a) pushed = weight a i) → balanced h i h' pushed.
Proof.
  intros Hm Hw a. rewrite Hw. destruct a; cbn;
    rewrite ?same_work, ?same_remaining, ?same_count, ?same_bytes, ?same_delivery, ?Hm; try lia.
  destruct Hs as (_ & _ & _ & _ & _ & ->). lia.
Qed.
(** Taking or giving back the mutex. *)
Lemma balanced_mutex i pushed :
  (∀ a, a ≠ AMutex → zsum (weight a) pushed = weight a i) →
  one_if (hub_mu h') = one_if (hub_mu h) - lk i + zsum lk pushed → balanced h i h' pushed.
Proof.
  intros Hw Hm [d|q| | |d| |]; [..|done]; rewrite Hw by done; cbn;
    rewrite ?same_work, ?same_remaining, ?same_count, ?same_bytes, ?same_delivery; try lia.
  destruct Hs as (_ & _ & _ & _ & _ & ->). lia.
Qed.
End same_accounts.

Lemma balanced_set h i d x pushed :
  (d < length (hub_deliveries h))%nat →
  (∀ a, zsum (weight a) pushed = weight a i + match a with
     | AWork e => same e d * ((d_work x - zlen (d_pending x))
                              - (d_work (delivery h d) - zlen (d_pending (delivery h d))))
     | ARemaining q => cnt q (d_pending (delivery h d)) - cnt q (d_pending x)
     | ADrainer e => same e d * (one_if (d_notifying x) - one_if (d_notifying (delivery h d)))
     | _ => 0
     end) → balanced h i (set_delivery h d x) pushed.
Proof.
  intros Hd Hw a. rewrite Hw. destruct a; cbn.
  - rewrite work_owed_set by done. lia.
  - rewrite remaining_owed_set by done. lia.
  - change (count_owed (set_delivery h d x)) with (count_owed h). lia.
  - change (bytes_owed (set_delivery h d x)) with (bytes_owed h). lia.
  - rewrite delivery_set by done. case_decide; [subst; rewrite same_refl|rewrite same_ne by done]; lia.
  - change (hub_notifying (set_delivery h d x)) with (hub_notifying h). lia.
  - change (hub_mu (set_delivery h d x)) with (hub_mu h). lia.
Qed.

Lemma balanced_frame h i h' p i' p' :
  balanced h i h' p → (∀ a, zsum (weight a) p' - weight a i' = zsum (weight a) p - weight a i) →
  balanced h i' h' p'.
Proof. intros Hb Hw a. specialize (Hb a). specialize (Hw a). lia. Qed.

(** ** The compound instructions *)

Ltac weigh := intros; cbn; autorewrite with zsum; cbn; autorewrite with zsum; try lia.

Lemma finish_weights d l w :
  zsum w (concat (finishObservation d <$> l)) = zsum (fun q => w (IQueuedDone q) + w (IFinishWork d)) l.
Proof.
  induction l as [|q l IH]; [done|]. cbn [fmap list_fmap concat]. rewrite zsum_app, IH, zsum_cons.
  unfold finishObservation. autorewrite with zsum. lia.
Qed.

Lemma unsubscribe_balanced h d h' finish resync :
  hub_ok h → (d < length (hub_deliveries h))%nat → unsubscribe_at h d = (h', finish, resync) →
  balanced h (ICall OpClose) h' finish.
Proof.
  intros Hh Hd. unfold unsubscribe_at.
  destruct (unsubscribe (delivery h d)) as [[x drop] r] eqn:E. intros [= <- <- <-].
  apply unsubscribe_ok in E as (_ & _ & Hw & _ & Hn & _ & Hp & _); [|by apply delivery_is_ok].
  apply balanced_set; [done|]. intros a. rewrite finish_weights. destruct a as [e|q| | |e| |]; cbn.
  - rewrite (zsum_const _ _ (same e d)) by (intros; lia). fold (zlen drop).
    rewrite Hp, Hw. autorewrite with zsum. lia.
  - rewrite Hp, cnt_app. rewrite (zsum_ext _ (same q)) by (intros; lia).
    unfold cnt. lia.
  - by apply zsum_zero.
  - by apply zsum_zero.
  - rewrite Hn, zsum_zero by done. lia.
  - by apply zsum_zero.
  - by apply zsum_zero.
Qed.

Lemma append_step_weights h w events obs items bytes claimed a :
  zsum (weight a) (append_step h w events obs items bytes claimed)
  = weight a (IAppend w events obs items bytes claimed).
Proof.
  unfold append_step, abandon, abandon_unlocked. repeat case_match; destruct a; weigh.
Qed.

Lemma calls_weights (l : list Op) a : zsum (weight a) (ICall <$> l) = 0.
Proof. apply zsum_zero. intros i (op & -> & _)%list_elem_of_fmap. by destruct a. Qed.

Lemma ids_cons n d l : ids_ok n (d :: l) → (d < n)%nat ∧ d ∉ l ∧ ids_ok n l.
Proof. intros [[? ?]%NoDup_cons [? ?]%Forall_cons]. by repeat split. Qed.
Lemma ids_app n l k : ids_ok n (l ++ k) → ids_ok n l ∧ ids_ok n k.
Proof. intros [(? & ? & ?)%NoDup_app [? ?]%Forall_app]. by repeat split. Qed.
Lemma ids_elem n d l : ids_ok n l → d ∈ l → (d < n)%nat.
Proof. intros [_ Hl] Hd. by eapply Forall_forall in Hl. Qed.

(** ** The steps that move a debt *)

Lemma balanced_budget h i count bytes idle pushed :
  (∀ a, zsum (weight a) pushed = weight a i + match a with ACount => count | ABytes => bytes | _ => 0 end) →
  balanced h i (h <| hub_count := hub_count h + count |> <| hub_bytes := hub_bytes h + bytes |>
                  <| hub_idle := idle |>) pushed.
Proof.
  intros Hw a. rewrite Hw. set (h' := h <| hub_count := _ |> <| hub_bytes := _ |> <| hub_idle := _ |>).
  destruct a as [d|q| | |d| |]; cbn.
  - change (work_owed h' d) with (work_owed h d). lia.
  - change (remaining_owed h' q) with (remaining_owed h q). lia.
  - unfold count_owed. cbn. lia.
  - unfold bytes_owed. cbn. lia.
  - change (delivery h' d) with (delivery h d). lia.
  - lia.
  - lia.
Qed.

Lemma delivery_subscribed h active e :
  let h' := h <| hub_deliveries ::= fun l => l ++ [newObserverDelivery active] |> in
  d_work (delivery h' e) = d_work (delivery h e) ∧ d_pending (delivery h' e) = d_pending (delivery h e)
  ∧ d_notifying (delivery h' e) = d_notifying (delivery h e).
Proof.
  intros h'. subst h'. destruct (decide (length (hub_deliveries h) ≤ e)%nat).
  - rewrite (delivery_out h e) by done. unfold delivery. simpl. rewrite list_lookup_total_alt.
    rewrite lookup_app_r by done. by destruct (e - length (hub_deliveries h))%nat.
  - unfold delivery. simpl. rewrite !list_lookup_total_alt, lookup_app_l by lia. done.
Qed.

Lemma balanced_subscribe h i active kept pushed :
  (∀ a, zsum (weight a) pushed = weight a i) →
  balanced h i (h <| hub_observers := kept |>
                  <| hub_deliveries ::= fun l => l ++ [newObserverDelivery active] |>) pushed.
Proof.
  intros Hw a. rewrite Hw.
  set (h' := h <| hub_deliveries ::= fun l => l ++ [newObserverDelivery active] |>).
  set (h'' := h <| hub_observers := kept |> <| hub_deliveries ::= _ |>).
  destruct a as [d|q| | |d| |]; cbn; try lia.
  - destruct (delivery_subscribed h active d) as (Hwk & Hp & _). fold h' in Hwk, Hp.
    unfold work_owed. change (delivery h'' d) with (delivery h' d). rewrite Hwk, Hp.
    rewrite (zsum_ext (queued_for h'' d) (queued_for h d)) by done.
    change (hub_notifications h'') with (hub_notifications h). lia.
  - unfold remaining_owed. change (hub_deliveries h'') with (hub_deliveries h ++ [newObserverDelivery active]).
    rewrite zsum_app, zsum_cons, zsum_nil. cbn. rewrite cnt_nil.
    change (users_of h'' q) with (users_of h q). change (remaining_of h'' q) with (remaining_of h q). lia.
  - change (count_owed h'') with (count_owed h). lia.
  - change (bytes_owed h'') with (bytes_owed h). lia.
  - destruct (delivery_subscribed h active d) as (_ & _ & Hn). fold h' in Hn.
    change (delivery h'' d) with (delivery h' d). rewrite Hn. lia.
Qed.

Lemma balanced_drained h :
  hub_notifying h = true → balanced h IDrainNotifications (h <| hub_notifying := false |>) [].
Proof.
  intros Hn a. set (h' := h <| hub_notifying := false |>). destruct a as [d|q| | |d| |]; weigh.
  - change (work_owed h' d) with (work_owed h d). lia.
  - change (remaining_owed h' q) with (remaining_owed h q). lia.
  - change (count_owed h') with (count_owed h). lia.
  - change (bytes_owed h') with (bytes_owed h). lia.
  - change (delivery h' d) with (delivery h d). lia.
  - by rewrite Hn.
Qed.

Lemma balanced_pop h q rest :
  hub_notifications h = q :: rest →
  balanced h IDrainNotifications (h <| hub_notifications := rest |>) [IFanOut q (observers_of h q)].
Proof.
  intros Hn a. set (h' := h <| hub_notifications := rest |>). destruct a as [d|p| | |d| |]; weigh.
  - unfold work_owed. change (delivery h' d) with (delivery h d).
    change (hub_notifications h') with rest. rewrite Hn, zsum_cons.
    rewrite (zsum_ext (queued_for h' d) (queued_for h d)) by done. change (queued_for h d q) with (cnt d (observers_of h q)). lia.
  - unfold remaining_owed. change (hub_notifications h') with rest.
    change (remaining_of h' p) with (remaining_of h p). change (users_of h' p) with (users_of h p).
    change (hub_deliveries h') with (hub_deliveries h). rewrite Hn, cnt_cons.
    unfold same. case_bool_decide as E; cbn; [subst; unfold users_of|]; lia.
  - change (count_owed h') with (count_owed h). lia.
  - change (bytes_owed h') with (bytes_owed h). lia.
  - change (delivery h' d) with (delivery h d). lia.
Qed.

Lemma balanced_done h q o :
  hub_queued h !! q = Some o → 1 ≤ q_remaining o →
  balanced h (IQueuedDone q)
    (h <| hub_queued ::= <[q := o <| q_remaining ::= fun k => k - 1 |>]> |>)
    (if q_remaining o - 1 =? 0 then [IReleaseBudget (q_bytes o)] else []).
Proof.
  intros Hq Ho a. set (o' := o <| q_remaining ::= _ |>). set (h' := h <| hub_queued ::= <[q := o']> |>).
  assert (Hobs : ∀ p, observers_of h' p = observers_of h p).
  { intros p. unfold observers_of. simpl. destruct (decide (p = q)) as [->|].
    - rewrite list_lookup_insert_eq, Hq by (by eapply lookup_lt_Some). done.
    - by rewrite list_lookup_insert_ne. }
  assert (Hlive : live o' = live o - one_if (q_remaining o - 1 =? 0)).
  { unfold live, one_if. simpl. repeat case_match; lia. }
  destruct a as [d|p| | |d| |]; cbn.
  - unfold work_owed. rewrite (zsum_ext (queued_for h' d) (queued_for h d))
      by (intros; unfold queued_for; by rewrite Hobs).
    change (delivery h' d) with (delivery h d). change (hub_notifications h') with (hub_notifications h).
    destruct (_ =? 0); weigh.
  - unfold remaining_owed, users_of. rewrite Hobs. change (hub_deliveries h') with (hub_deliveries h).
    change (hub_notifications h') with (hub_notifications h).
    assert (remaining_of h' p = remaining_of h p - same p q) as ->.
    { unfold remaining_of, same. simpl. case_bool_decide as E; [subst p|].
      - rewrite list_lookup_insert_eq, Hq by (by eapply lookup_lt_Some). done.
      - rewrite list_lookup_insert_ne by done. cbn. lia. }
    destruct (_ =? 0); weigh.
  - unfold count_owed. simpl. rewrite (zsum_insert _ _ _ _ _ Hq), Hlive. destruct (_ =? 0); weigh.
  - unfold bytes_owed. simpl. rewrite (zsum_insert _ _ _ _ _ Hq). unfold live_bytes. rewrite Hlive.
    change (q_bytes o') with (q_bytes o). destruct (_ =? 0); weigh.
  - change (delivery h' d) with (delivery h d). destruct (_ =? 0); weigh.
  - destruct (_ =? 0); weigh.
  - destruct (_ =? 0); weigh.
Qed.

Lemma publish_remaining h obs items bytes h' drain q :
  items_ok obs items bytes → (∀ p, p ∈ hub_notifications h → (p < length (hub_queued h))%nat) →
  publish h items = (h', drain) →
  remaining_of h' q - users_of h' q * (cnt q (hub_notifications h)
     + one_if (bool_decide (length (hub_queued h) ≤ q < length (hub_queued h) + length items)%nat))
  = remaining_of h q - users_of h q * cnt q (hub_notifications h).
Proof.
  intros [Hit _] Hold Hp. unfold remaining_of, users_of.
  destruct (decide (q < length (hub_queued h))%nat).
  - rewrite (publish_observers_old _ _ _ _ Hp), (publish_queued _ _ _ _ Hp), lookup_app_l by lia.
    rewrite bool_decide_eq_false_2 by lia. cbn. lia.
  - rewrite (cnt_not_elem q) by (intros ?%Hold; lia).
    unfold observers_of. rewrite (publish_queued _ _ _ _ Hp), lookup_app_r by lia.
    rewrite (lookup_ge_None_2 (hub_queued h)) by lia.
    destruct (items !! _) as [o|] eqn:E.
    + pose proof (lookup_lt_Some _ _ _ E). rewrite bool_decide_eq_true_2 by lia.
      destruct (Forall_lookup_1 _ _ _ _ Hit E) as (-> & -> & _). cbn. lia.
    + apply lookup_ge_None in E. rewrite bool_decide_eq_false_2 by lia. cbn. lia.
Qed.

Lemma balanced_publish h obs items bytes h' drain :
  items_ok obs items bytes → (∀ q, q ∈ hub_notifications h → (q < length (hub_queued h))%nat) →
  publish h items = (h', drain) →
  balanced h (IPublish obs items bytes) h'
    ([IReleaseAdmissions obs; IUnlock] ++ (if drain then [IDrainNotifications] else [])
     ++ [IReturn (WriteReturned (Ok tt))]).
Proof.
  intros Hok Hold Hp. pose proof Hok as [Hit Hbytes].
  assert (Hitems : Forall (fun o => q_observers o = obs) items) by (eapply Forall_impl; [done|]; naive_solver).
  pose proof (publish_observers_old _ _ _ _ Hp) as Hoo.
  pose proof (fun q => publish_observers_new _ _ _ _ Hp obs q Hitems) as Hon.
  destruct (publish_fields _ _ _ _ Hp) as (Hh' & Hn & _).
  intros [d|q| | |d| |]; cbn.
  - unfold work_owed. rewrite (publish_delivery _ _ _ _ Hp), (publish_notifications _ _ _ _ Hp), zsum_app.
    rewrite (zsum_ext (queued_for h' d) (queued_for h d) (hub_notifications h))
      by (intros; unfold queued_for; rewrite Hoo; auto).
    rewrite (zsum_const (queued_for h' d) _ (cnt d obs)) by (intros; unfold queued_for; by rewrite Hon).
    rewrite length_seq. fold (zlen items). destruct drain; weigh.
  - pose proof (publish_remaining _ _ _ _ _ _ q Hok Hold Hp). unfold remaining_owed.
    rewrite (publish_deliveries _ _ _ _ Hp), (publish_notifications _ _ _ _ Hp), cnt_app, cnt_seq.
    destruct drain; weigh.
  - unfold count_owed. rewrite (publish_queued _ _ _ _ Hp), zsum_app.
    assert (zsum live items = zlen items) as Hl.
    { rewrite (zsum_const _ _ 1); [unfold zlen; lia|]. intros o Ho. eapply Forall_forall in Hit; [|done].
      unfold live. destruct Hit as (_ & -> & _). pose proof (zlen_nonneg obs).
      by rewrite (proj2 (Z.ltb_lt _ _)) by lia. }
    rewrite Hl, Hh'. destruct drain; weigh.
  - unfold bytes_owed. rewrite (publish_queued _ _ _ _ Hp), zsum_app.
    assert (zsum live_bytes items = bytes) as Hl.
    { rewrite Hbytes. apply zsum_ext. intros o Ho. eapply Forall_forall in Hit; [|done].
      unfold live_bytes, live. destruct Hit as (_ & -> & _). pose proof (zlen_nonneg obs).
      rewrite (proj2 (Z.ltb_lt _ _)) by lia. cbn. lia. }
    rewrite Hl, Hh'. destruct drain; weigh.
  - rewrite (publish_delivery _ _ _ _ Hp). destruct drain; weigh.
  - rewrite Hn. destruct drain; weigh.
  - rewrite Hh'. cbn. destruct drain; weigh.
Qed.

Section exec.
Context (c : Choice) (h h' : Hub) (pushed : thread).

Lemma finish_claimed i d : covered h i → 1 ≤ wk d i → (d < length (hub_deliveries h))%nat →
  ∃ y, finish_work h d 1 = set_delivery h d y ∧ delivery_ok y ∧ same_queue (delivery h d) y
  ∧ d_work y = d_work (delivery h d) - 1 ∧ length (d_idle y) = length (d_idle (delivery h d)).
Proof.
  intros Hcov Hw Hd. destruct Hcov as [Hh _ Hwk _ _ _ _ _ _ _]. specialize (Hwk d).
  pose proof (zlen_nonneg (d_pending (delivery h d))).
  assert (0 ≤ zsum (queued_for h d) (hub_notifications h))
    by (apply zsum_nonneg; intros; apply cnt_nonneg).
  destruct (finishWork_ok (delivery h d)) as (y & Hy & ?); [by apply delivery_is_ok|lia|].
  exists y. unfold finish_work. by rewrite Hy.
Qed.

(** An instruction that leaves the accounts alone. *)
Ltac quiet := apply balanced_quiet; [by repeat split|done|intros []; weigh].

Lemma exec_call_balanced op :
  covered h (ICall op) → exec c (ICall op) h = Some (h', pushed) → balanced h (ICall op) h' pushed.
Proof.
  intros Hcov Hx. pose proof (cov_hub _ _ Hcov) as Hh. unfold_exec Hx.
  destruct op; cbn [exec_call] in Hx; exec_cases Hx; try solve [quiet].
  - apply Nat.ltb_lt in E. apply activate_ok in E0 as (_ & Hc & Hn); [|by apply delivery_is_ok].
    assert (d_work o = d_work (delivery h d) ∧ d_pending o = d_pending (delivery h d)) as [Hw Hp].
    { destruct Hc as [[-> ->]|[_ ->]]; done. }
    apply balanced_set; [done|]. intros a. rewrite Hw, Hp, Hn. destruct a, b; weigh.
  - apply Nat.ltb_lt in E. eapply balanced_frame; [by eapply unsubscribe_balanced|]. intros []; weigh.
  - apply Nat.ltb_lt in E. eapply balanced_frame; [by eapply unsubscribe_balanced|]. intros []; weigh.
Qed.

(** The step of a covered instruction that adds work it was admitted for. *)
Lemma add_work_balanced added d todo items bytes :
  covered h (IAddWork added (d :: todo) items bytes) →
  balanced h (IAddWork added (d :: todo) items bytes)
    (set_delivery h d (addWorkLocked (Z.of_nat (length items)) (delivery h d)))
    [IAddWork (added ++ [d]) todo items bytes].
Proof.
  intros [_ [Hi _] _ _ _ _ _ _ _ _]. assert (d < length (hub_deliveries h))%nat by (eapply ids_elem; [done|set_solver]).
  apply balanced_set; [done|]. fold (zlen items).
  assert (d_work (addWorkLocked (zlen items) (delivery h d)) = d_work (delivery h d) + zlen items
          ∧ d_pending (addWorkLocked (zlen items) (delivery h d)) = d_pending (delivery h d)
          ∧ d_notifying (addWorkLocked (zlen items) (delivery h d)) = d_notifying (delivery h d)) as (-> & -> & ->).
  { unfold addWorkLocked. by case_match. }
  intros []; weigh.
Qed.

Lemma admission_balanced w d todo obs x :
  covered h (IBeginAdmission w (d :: todo) obs) → beginAdmission (delivery h d) = Some x →
  balanced h (IBeginAdmission w (d :: todo) obs) (set_delivery h d x) [IBeginAdmission w todo (obs ++ [d])].
Proof.
  intros [_ Hi _ _ _ _ _ _ _ _] Hb. assert (d < length (hub_deliveries h))%nat by (eapply ids_elem; [done|set_solver]).
  apply balanced_set; [done|].
  assert (d_work x = d_work (delivery h d) + 1 ∧ d_pending x = d_pending (delivery h d)
          ∧ d_notifying x = d_notifying (delivery h d)) as (-> & -> & ->).
  { revert Hb. unfold beginAdmission, addWorkLocked. repeat case_match; by intros [= <-]. }
  intros []; weigh.
Qed.

(** A claim on a delivery makes its index valid. *)
Lemma drainer_index i d : covered h i → 1 ≤ tokd d i → (d < length (hub_deliveries h))%nat.
Proof.
  intros Hc Ht. destruct (decide (d < length (hub_deliveries h))%nat); [done|]. exfalso.
  pose proof (cov_drainer _ _ Hc d) as H. rewrite delivery_out in H by lia. cbn in H. lia.
Qed.

Lemma finish_balanced i i' d pushed' :
  covered h i → (d < length (hub_deliveries h))%nat → 1 ≤ wk d i →
  (∀ a, zsum (weight a) pushed' = weight a i - match a with AWork e => same e d | _ => 0 end) →
  i' = i → balanced h i' (finish_work h d 1) pushed'.
Proof.
  intros Hc Hd Hw Hp ->. destruct (finish_claimed i d Hc Hw Hd) as (y & -> & _ & Hq & Hwy & _).
  destruct Hq as (_ & _ & Hn & Hpe & _). apply balanced_set; [done|].
  intros a. rewrite Hp, Hwy, Hpe, Hn. destruct a; lia.
Qed.

Lemma drain_balanced d x claimed :
  covered h (IDrain d) → claimNext (delivery h d) = (x, claimed) →
  balanced h (IDrain d) (set_delivery h d x)
    match claimed with Some (q, observer) => [INotify d q observer] | None => [] end.
Proof.
  intros Hc Hx. pose proof (cov_drainer _ _ Hc d) as Ht. cbn in Ht. rewrite same_refl in Ht.
  pose proof (drainer_index _ d Hc) as Hd. cbn in Hd. rewrite same_refl in Hd. specialize (Hd ltac:(lia)).
  assert (Hn : d_notifying (delivery h d) = true) by (by destruct (d_notifying (delivery h d))).
  pose proof (cov_work _ _ Hc d) as Hw. cbn in Hw.
  assert (0 ≤ zsum (queued_for h d) (hub_notifications h)) by (apply zsum_nonneg; intros; apply cnt_nonneg).
  apply claimNext_ok in Hx as [_ Hx]; [|by apply delivery_is_ok; [apply Hc|]|done|lia].
  apply balanced_set; [done|]. destruct claimed as [[q o]|].
  - destruct Hx as (_ & Hp & ->). rewrite Hp. cbn. rewrite Hn. intros []; weigh.
  - destruct Hx as (Hp & ->). intros []; cbn; rewrite ?Hp, ?Hn; weigh.
Qed.

Lemma fan_out_balanced q d todo x drain :
  covered h (IFanOut q (d :: todo)) → enqueue q (delivery h d) = Some (x, drain) →
  balanced h (IFanOut q (d :: todo)) (set_delivery h d x)
    ((if drain then [IDrain d] else []) ++ [IFanOut q todo]).
Proof.
  intros Hc Hx. pose proof (cov_instr _ _ Hc) as Hi.
  assert (Hd : (d < length (hub_deliveries h))%nat) by (eapply ids_elem; [done|set_solver]).
  apply enqueue_ok in Hx as (_ & _ & Hx & Hn); [|by apply delivery_is_ok; [apply Hc|]].
  apply balanced_set; [done|].
  assert (d_work x = d_work (delivery h d) ∧ d_pending x = d_pending (delivery h d) ++ [q]) as (-> & ->) by (by subst x).
  rewrite Hn. intros []; destruct drain; weigh.
Qed.

Lemma covered_budget i : covered h i → bc i ≤ hub_count h ∧ bb i ≤ hub_bytes h.
Proof.
  intros Hc. pose proof (cov_count _ _ Hc). pose proof (cov_bytes _ _ Hc).
  assert (0 ≤ zsum live (hub_queued h)) by (apply zsum_nonneg; intros; apply one_if_nonneg).
  assert (0 ≤ zsum live_bytes (hub_queued h)); [|lia].
  apply zsum_nonneg. intros o Ho. destruct (cov_hub _ _ Hc) as [_ _ Hq _ _ _ _ _].
  eapply Forall_forall in Hq as (_ & Hb & _); [|done]. unfold live_bytes. pose proof (one_if_nonneg (0 <? q_remaining o)).
  unfold live. nia.
Qed.

Lemma items_bytes obs items bytes : items_ok obs items bytes → 0 ≤ bytes.
Proof.
  intros [Hi ->]. apply zsum_nonneg. intros o Ho. eapply Forall_forall in Hi; [|done]. naive_solver.
Qed.

Lemma release_balanced i count bytes pushed' :
  covered h i → 0 ≤ count ≤ bc i → 0 ≤ bytes ≤ bb i →
  (∀ a, zsum (weight a) pushed' = weight a i + match a with ACount => - count | ABytes => - bytes | _ => 0 end) →
  balanced h i (release h count bytes) pushed'.
Proof.
  intros Hc H1 H2 Hw. destruct (covered_budget i Hc).
  destruct (release_ok h count bytes) as (_ & -> & _); [apply Hc|lia|lia|].
  by apply (balanced_budget h i (- count) (- bytes)).
Qed.

Ltac mutex_step := apply balanced_mutex; [by repeat split|intros [] ?; done || weigh|weigh].

Lemma exec_balanced i : covered h i → exec c i h = Some (h', pushed) → balanced h i h' pushed.
Proof.
  intros Hcov Hx. destruct i; [by apply exec_call_balanced|..]; unfold_exec Hx; exec_cases Hx; try solve [quiet].
  - pose proof (cov_mutex _ _ Hcov) as Hm. mutex_step. destruct (hub_mu h); [done|]. cbn in Hm. lia.
  - mutex_step. by rewrite E0.
  - apply balanced_subscribe. intros []; weigh.
  - by apply admission_balanced.
  - apply balanced_quiet; [by repeat split|done|]. intros. apply append_step_weights.
  - pose proof (cov_instr _ _ Hcov) as [_ Hi]. apply reserve_ok in E as (_ & -> & _);
      [|apply Hcov|lia|by eapply items_bytes].
    apply balanced_budget. intros []; weigh. unfold zlen. lia.
  - unfold abandon. quiet.
  - pose proof (cov_instr _ _ Hcov) as [_ Hi%items_bytes]. unfold abandon.
    apply release_balanced; [done|cbn; unfold zlen; lia|cbn; lia|]. intros []; weigh. unfold zlen. lia.
  - by apply add_work_balanced.
  - pose proof (cov_instr _ _ Hcov) as [_ Hi]. eapply balanced_publish; [done|apply Hcov|done].
  - pose proof (cov_instr _ _ Hcov) as Hi. apply ids_cons in Hi as (? & _).
    eapply finish_balanced; [done|done| | |done]; weigh.
    + rewrite same_refl. pose proof (cnt_nonneg n l). lia.
    + destruct a; weigh.
  - pose proof (cov_instr _ _ Hcov) as Hi. apply release_balanced; [done|cbn; lia|cbn in *; lia|]. intros []; weigh.
  - apply balanced_drained. pose proof (cov_notifying _ _ Hcov) as Hn. by destruct (hub_notifying h).
  - by apply balanced_pop.
  - by apply fan_out_balanced.
  - apply balanced_done; [done|]. pose proof (cov_remaining _ _ Hcov q) as Hr. cbn in Hr.
    rewrite same_refl in Hr. unfold remaining_of in Hr. by rewrite E in Hr.
  - pose proof (cov_remaining _ _ Hcov q) as Hr. cbn in Hr.
    rewrite same_refl in Hr. unfold remaining_of in Hr. by rewrite E in Hr.
  - pose proof (cov_instr _ _ Hcov) as Hi. eapply finish_balanced; [done|done| | |done]; weigh.
    + rewrite same_refl. lia.
    + destruct a; weigh.
  - by apply drain_balanced.
  - apply balanced_quiet; [by repeat split|done|]. intros a. rewrite zsum_app, calls_weights. destruct a; weigh.
  - mutex_step. by rewrite E.
  - pose proof (cov_instr _ _ Hcov) as [Hd _]%Forall_cons.
    eapply balanced_frame; [eapply unsubscribe_balanced; [apply Hcov|done|done]|]. intros []; weigh.
Qed.
End exec.
