(* ===== verification/ObserverLocal.v ===== *)
(** One instruction of a goroutine: that it keeps the shared state and the local
    variables of the goroutines well-formed, and panics nowhere. *)
From S2P Require Import Prelude Goroutines GoStrings GoJson InteractionTypes ObserverHub.
From S2P Require Import ObserverWeights ObserverViews ObserverExec.

Lemma ids_ok_mono n m l : (n ≤ m)%nat → ids_ok n l → ids_ok m l.
Proof. intros Hn [? Hl]. split; [done|]. eapply Forall_impl; [done|]. cbn. lia. Qed.
Lemma instr_ok_mono n m i : (n ≤ m)%nat → instr_ok n i → instr_ok m i.
Proof.
  intros Hn. destruct i; cbn; try done; try lia; try (by apply ids_ok_mono);
    try (intros [? ?]; split; [by eapply ids_ok_mono|done]);
    try (intros [? ?]; split; [done|lia]).
  intros Hl. eapply Forall_impl; [done|]. cbn. lia.
Qed.

Lemma ids_ok_nil n : ids_ok n []. Proof. split; constructor. Qed.
Lemma ids_ok_snoc n l : ids_ok n l → ids_ok (n + 1) (l ++ [n]).
Proof.
  intros [Hl Hf]. split.
  - rewrite NoDup_app. split; [done|]. split; [|apply NoDup_singleton].
    intros x Hx ->%list_elem_of_singleton. eapply Forall_forall in Hf; [|done]. lia.
  - rewrite Forall_app. split; [eapply Forall_impl; [done|]; cbn; lia|]. constructor; [lia|constructor].
Qed.
(** Moving the head of the second list to the end of the first, or dropping it. *)
Lemma ids_ok_move n l d k : ids_ok n (l ++ d :: k) → ids_ok n ((l ++ [d]) ++ k).
Proof. by rewrite <- app_assoc. Qed.
Lemma ids_ok_drop n l d k : ids_ok n (l ++ d :: k) → ids_ok n (l ++ k).
Proof.
  intros [Hn Hf]. split.
  - rewrite <- Permutation_middle in Hn. by apply NoDup_cons in Hn as [_ ?].
  - rewrite !Forall_app, Forall_cons in *. naive_solver.
Qed.

(** ** Batches *)

Lemma append_item_ok h obs items bytes p item :
  hub_ok h → append_item h obs items bytes p = Ok (Some item) →
  q_observers item = obs ∧ q_remaining item = zlen obs + 1 ∧ 0 ≤ q_bytes item.
Proof.
  intros Hh. unfold append_item. destruct obs as [|o obs]; [done|].
  repeat case_match; try done. intros [= <-]. cbn. unfold zlen. split; [done|]. split; [cbn [length]; lia|].
  unfold encoded_len, len. lia.
Qed.

Lemma items_ok_nil obs : items_ok obs [] 0.
Proof. split; [constructor|done]. Qed.
Lemma items_ok_snoc obs items bytes item :
  items_ok obs items bytes → q_observers item = obs ∧ q_remaining item = zlen obs + 1 ∧ 0 ≤ q_bytes item →
  items_ok obs (items ++ [item]) (bytes + q_bytes item).
Proof.
  intros [Hi ->] Hq. split.
  - rewrite Forall_app. split; [done|]. by constructor.
  - rewrite zsum_app, zsum_cons, zsum_nil. lia.
Qed.

Definition pushed_ok (n : nat) (k : thread) : Prop := Forall (instr_ok n) k.

Lemma abandon_ok n obs r : ids_ok n obs → pushed_ok n (abandon obs r) ∧ pushed_ok n (abandon_unlocked obs r).
Proof. intros Ho. split; repeat constructor; try done; apply Ho. Qed.

Lemma append_step_ok h w events obs items bytes claimed :
  let n := length (hub_deliveries h) in
  hub_ok h → ids_ok n obs → items_ok obs items bytes →
  pushed_ok n (append_step h w events obs items bytes claimed).
Proof.
  intros n Hh Ho Hi. destruct (abandon_ok n obs (Ok tt) Ho) as [_ Ha].
  assert (Hb : ∀ r, pushed_ok n (abandon obs r) ∧ pushed_ok n (abandon_unlocked obs r)) by (intros; by apply abandon_ok).
  unfold append_step. destruct events as [|p events]; [case_match; [done|by constructor; [split|]]|].
  destruct (append_item h obs items bytes p) as [[item|]|e] eqn:E.
  - constructor; [|constructor]. split; [done|]. apply items_ok_snoc; [done|]. by eapply append_item_ok.
  - by constructor; [split|].
  - repeat case_match; try apply Hb; by constructor; [split|].
Qed.

Lemma publish_hub_ok h obs items bytes h' drain :
  hub_ok h → ids_ok (length (hub_deliveries h)) obs → items_ok obs items bytes →
  publish h items = (h', drain) → hub_ok h'.
Proof.
  intros [? ? Hq ? ? ? Hn ?] Ho [Hi _] Hp. pose proof (publish_fields _ _ _ _ Hp) as (Hh' & _ & Hd).
  assert (hub_notifications h' ≠ [] → hub_notifying h' = true) as Hn'.
  { intros Hne. destruct (Hd Hne) as [Hne'|]; [|done]. specialize (Hn Hne').
    revert Hp. unfold publish. destruct items; simpl; rewrite ?Hn; by intros [= <- <-]. }
  rewrite Hh' in *. split; simpl; try done. apply Forall_app. split; [done|].
  eapply Forall_impl; [done|]. intros o (-> & -> & Hb). pose proof (zlen_nonneg obs). split; [done|]. split; [done|lia].
Qed.

Lemma unsubscribe_at_ok h d h' finish resync :
  hub_ok h → (d < length (hub_deliveries h))%nat → unsubscribe_at h d = (h', finish, resync) →
  hub_ok h' ∧ length (hub_deliveries h') = length (hub_deliveries h)
  ∧ pushed_ok (length (hub_deliveries h)) finish.
Proof.
  intros Hh Hd. unfold unsubscribe_at. destruct (unsubscribe (delivery h d)) as [[x drop] r] eqn:E.
  intros [= <- <- <-]. apply unsubscribe_ok in E as (Hx & _); [|by apply delivery_is_ok].
  rewrite set_delivery_length. split; [by apply hub_ok_set|]. split; [done|].
  induction drop as [|q drop IH]; [constructor|]. cbn. constructor; [done|]. by constructor.
Qed.

(** ** The step *)

Definition kept_ok (h h' : Hub) (pushed : thread) : Prop :=
  hub_ok h' ∧ (length (hub_deliveries h) ≤ length (hub_deliveries h'))%nat
  ∧ pushed_ok (length (hub_deliveries h')) pushed.

(** A step that touches nothing the well-formedness reads. *)
Lemma kept_core h h' pushed :
  same_core h h' → hub_ok h → pushed_ok (length (hub_deliveries h)) pushed → kept_ok h h' pushed.
Proof.
  intros Hs Hh Hp. split; [by eapply hub_ok_core|]. destruct Hs as (_ & -> & _). done.
Qed.
Lemma kept_set h d x pushed :
  hub_ok h → delivery_ok x → pushed_ok (length (hub_deliveries h)) pushed → kept_ok h (set_delivery h d x) pushed.
Proof. intros Hh Hx Hp. unfold kept_ok. rewrite set_delivery_length. split; [by apply hub_ok_set|done]. Qed.

Lemma kept_same h pushed : hub_ok h → pushed_ok (length (hub_deliveries h)) pushed → kept_ok h h pushed.
Proof. by split. Qed.
Lemma pushed_one n i : instr_ok n i → pushed_ok n [i].
Proof. intros. by constructor. Qed.
Lemma pushed_app n k l : pushed_ok n k → pushed_ok n l → pushed_ok n (k ++ l).
Proof. intros. by apply Forall_app. Qed.
#[local] Hint Resolve kept_same pushed_one pushed_app : core.

Ltac core := apply kept_core; [by repeat split|done|repeat constructor; cbn; try done].

Section exec.
Context (c : Choice) (h h' : Hub) (pushed : thread).

Lemma exec_call_kept op :
  hub_ok h → exec c (ICall op) h = Some (h', pushed) → kept_ok h h' pushed.
Proof.
  intros Hh Hx. unfold_exec Hx. destruct op; cbn [exec_call] in Hx; exec_cases Hx; try solve [core].
  - apply Nat.ltb_lt in E. apply activate_ok in E0 as (? & _ & _); [|by apply delivery_is_ok].
    apply kept_set; [done|done|]. by destruct b; repeat constructor.
  - apply Nat.ltb_lt in E. apply unsubscribe_at_ok in E0 as (? & Hl & ?); [|done|done].
    split; [done|]. by rewrite Hl.
  - apply Nat.ltb_lt in E. apply unsubscribe_at_ok in E0 as (? & Hl & ?); [|done|done].
    split; [done|]. rewrite Hl. split; [done|]. apply Forall_app. split; [done|]. by repeat constructor.
Qed.

Lemma finish_kept i d pushed' :
  covered h i → (d < length (hub_deliveries h))%nat → 1 ≤ wk d i →
  pushed_ok (length (hub_deliveries h)) pushed' → kept_ok h (finish_work h d 1) pushed'.
Proof.
  intros Hc Hd Hw Hp. destruct (finish_claimed _ i d Hc Hw Hd) as (y & -> & Hy & _).
  apply kept_set; [apply Hc|done|done].
Qed.

Lemma release_kept i count bytes pushed' :
  covered h i → 0 ≤ count ≤ bc i → 0 ≤ bytes ≤ bb i →
  pushed_ok (length (hub_deliveries h)) pushed' → kept_ok h (release h count bytes) pushed'.
Proof.
  intros Hc H1 H2 Hp. destruct (covered_budget _ i Hc).
  destruct (release_ok h count bytes) as (Hok & Heq & _); [apply Hc|lia|lia|].
  split; [done|]. by rewrite Heq.
Qed.

Lemma subscribe_kept kept active :
  hub_ok h → ids_ok (length (hub_deliveries h)) kept →
  kept_ok h (h <| hub_observers := kept ++ [length (hub_deliveries h)] |>
               <| hub_deliveries ::= fun l => l ++ [newObserverDelivery active] |>)
    [IUnlock; IReturn (SubscribeReturned (Ok (length (hub_deliveries h))))].
Proof.
  intros [Ho Hd Hq ? ? ? ? ?] Hk. unfold kept_ok. simpl. rewrite length_app. cbn [length].
  split; [|split; [lia|by repeat constructor]]. split; simpl; try done.
  - rewrite length_app. cbn [length]. by apply ids_ok_snoc.
  - apply Forall_app. split; [done|]. constructor; [|constructor]. by split; cbn; try done; split.
  - eapply Forall_impl; [done|]. intros o (? & ? & ?). rewrite length_app. cbn [length].
    split; [|done]. by apply (ids_ok_mono (length (hub_deliveries h))); [lia|].
Qed.

Lemma exec_kept i : covered h i → exec c i h = Some (h', pushed) → kept_ok h h' pushed.
Proof.
  intros Hcov Hx. pose proof (cov_hub _ _ Hcov) as Hh. pose proof (cov_instr _ _ Hcov) as Hi.
  destruct i; [by eapply exec_call_kept|..]; unfold_exec Hx; cbn in Hi; exec_cases Hx; try solve [core].
  - apply kept_same, pushed_one; [done|]. apply Hh.
  - apply ids_app in Hi as [Hi _]. destruct Hh. split; [|split; [done|by apply pushed_one]]. split; done.
  - apply ids_app in Hi as [Hi _]. by apply subscribe_kept.
  - apply kept_same, pushed_one; [done|]. cbn. case_match; [by apply ids_ok_move|by eapply ids_ok_drop].
  - apply kept_same, pushed_one; [done|]. cbn. case_match; [apply ids_ok_nil|apply Hh].
  - apply kept_same, pushed_one; [done|]. rewrite app_nil_r in Hi. split; [done|]. apply items_ok_nil.
  - assert (n < length (hub_deliveries h))%nat by (eapply ids_elem; [done|set_solver]).
    apply kept_set; [done| |by apply pushed_one, ids_ok_move].
    revert E0. unfold beginAdmission. destruct (d_unsubscribed _) eqn:Eu; [done|]. intros [= <-].
    apply addWork_ok; [by apply delivery_is_ok|lia|by rewrite Eu].
  - apply kept_same, pushed_one; [done|]. by eapply ids_ok_drop.
  - destruct Hi. apply kept_same; [done|]. by apply append_step_ok.
  - destruct Hi as [? Hi]. apply reserve_ok in E as (? & Heq & _); [|done|lia|by eapply items_bytes].
    split; [done|]. rewrite Heq. split; [done|]. by apply pushed_one.
  - destruct Hi. apply kept_same; [done|]. by apply abandon_ok.
  - destruct Hi as [? Hi%items_bytes]. apply release_kept with (ISave obs items bytes); [done|..].
    + cbn. unfold zlen. lia.
    + cbn. lia.
    + by apply abandon_ok.
  - apply kept_same, pushed_one; done.
  - apply kept_same, pushed_one; [done|]. by rewrite !app_nil_r in Hi.
  - destruct Hi as [Hi Hit].
    assert (n < length (hub_deliveries h))%nat by (eapply ids_elem; [done|set_solver]).
    pose proof (cov_work _ _ Hcov n) as Hw. pose proof (zlen_nonneg (d_pending (delivery h n))).
    assert (0 ≤ zsum (queued_for h n) (hub_notifications h)) by (apply zsum_nonneg; intros; apply cnt_nonneg).
    apply kept_set; [done| |].
    + apply addWork_ok; [by apply delivery_is_ok|lia|]. intros _. revert Hw. cbn. rewrite cnt_cons, same_refl.
      pose proof (cnt_nonneg n l). pose proof (cnt_nonneg n added). pose proof (zlen_nonneg items). nia.
    + apply pushed_one. cbn. rewrite <- app_assoc. by split.
  - destruct Hi as [Ho Hi]. pose proof (publish_deliveries _ _ _ _ E) as Hd.
    split; [by eapply publish_hub_ok|]. rewrite Hd. split; [done|]. constructor; [done|]. constructor; [done|].
    apply pushed_app; [by destruct b; repeat constructor|by apply pushed_one].
  - apply ids_cons in Hi as (? & ? & ?). eapply finish_kept; [done|done| |by apply pushed_one].
    weigh. rewrite same_refl. pose proof (cnt_nonneg n l). lia.
  - apply release_kept with (IReleaseBudget bytes); [done|cbn; lia|cbn; lia|constructor].
  - destruct Hh. split; [|by split; [|constructor]]. split; simpl; try done.
  - destruct Hh as [? ? Hq ? ? ? Hn ?]. split; [|split; [done|]].
    + split; simpl; try done. intros _. apply Hn. by rewrite E0.
    + apply pushed_one. cbn. unfold observers_of. destruct (hub_queued h !! n) eqn:En; [|apply ids_ok_nil].
      by eapply Forall_lookup_1 in Hq as [? _].
  - apply ids_cons in Hi as (? & ? & ?). apply enqueue_ok in E0 as (? & _); [|by apply delivery_is_ok].
    apply kept_set; [done|done|]. apply pushed_app; [by destruct b; repeat constructor|by apply pushed_one].
  - apply ids_cons in Hi as (? & ? & ?). apply kept_same; [done|]. repeat constructor; done || apply H1.
  - destruct Hh as [? ? Hq ? ? ? Hn ?]. split; [|split; [done|]].
    + split; simpl; try done. eapply Forall_insert; [done|]. eapply Forall_lookup_1 in Hq as (? & ? & ?); [|done].
      repeat split; try done; cbn; try apply H. pose proof (cov_remaining _ _ Hcov q) as Hr. cbn in Hr.
      rewrite same_refl in Hr. unfold remaining_of in Hr. rewrite E in Hr. lia.
    + eapply Forall_lookup_1 in Hq as (? & ? & ?); [|done]. by case_match; repeat constructor.
  - pose proof (cov_remaining _ _ Hcov q) as Hr. cbn in Hr.
    rewrite same_refl in Hr. unfold remaining_of in Hr. by rewrite E in Hr.
  - eapply finish_kept; [done|done| |constructor]. cbn. rewrite same_refl. lia.
  - pose proof (cov_drainer _ _ Hcov d) as Ht. cbn in Ht. rewrite same_refl in Ht.
    pose proof (cov_work _ _ Hcov d) as Hw. cbn in Hw.
    assert (0 ≤ zsum (queued_for h d) (hub_notifications h)) by (apply zsum_nonneg; intros; apply cnt_nonneg).
    apply claimNext_ok in E as [? Hc];
      [|by apply delivery_is_ok|by destruct (d_notifying (delivery h d))|lia].
    apply kept_set; [done|done|]. destruct o0 as [[q o']|]; [|constructor]. apply pushed_one. destruct Hc as [-> _]. done.
  - split; [by apply (hub_ok_core h); [repeat split|]|]. split; [done|]. apply pushed_app.
    + apply Forall_forall. by intros ? (op & -> & _)%list_elem_of_fmap.
    + apply pushed_one. by destruct Hi.
  - by destruct Hi.
  - apply kept_same, pushed_one; [done|]. apply Hh.
  - apply kept_same, pushed_one; [done|]. apply Hh.
  - apply Forall_cons in Hi as [Hd Hi]. apply unsubscribe_at_ok in E0 as (? & Hl & ?); [|done|done].
    split; [done|]. rewrite Hl. split; [done|]. by apply pushed_app; [|apply pushed_one].
Qed.
End exec.

(** What no step undoes: a delivery stays active, unsubscribed, settled and in
    need of a snapshot, and a closed registry stays closed. *)

(** An unsubscribed delivery only runs out of work, and keeps its channel while
    it has some. *)
Record delivery_le (x y : observerDelivery) : Prop := {
  le_active : d_active x = true → d_active y = true;
  le_resync : d_resyncRequired x = true → d_resyncRequired y = true;
  le_unsubscribed : d_unsubscribed x = true → d_unsubscribed y = true;
  le_settled : d_unsubscribed x = true → d_work x = 0 → d_work y = 0;
  le_idle : d_unsubscribed x = true → 0 < d_work y → length (d_idle y) = length (d_idle x);
  le_complete : d_unsubscribed x = true → d_work x = 0 → d_resyncRequired x = false → d_resyncRequired y = false }.

#[export] Instance delivery_le_refl : Reflexive delivery_le.
Proof. intros x. by split. Qed.

Lemma queue_le x y :
  same_queue x y → (d_unsubscribed x = true → d_work x = 0 → d_work y = 0) →
  (d_unsubscribed x = true → 0 < d_work y → length (d_idle y) = length (d_idle x)) → delivery_le x y.
Proof. intros (Ha & _ & _ & _ & Hu & Hr) Hw Hi. split; rewrite ?Ha, ?Hu, ?Hr; auto. Qed.

Lemma addWork_le x n :
  delivery_ok x → 0 ≤ n → (d_unsubscribed x = true → 0 < d_work x) → delivery_le x (addWorkLocked n x).
Proof.
  intros Hx Hn Hu. destruct (addWork_ok x n Hx Hn Hu) as (_ & Hq & Hw & Hi).
  apply queue_le; [done|intros Hx' ?; specialize (Hu Hx'); lia|]. intros Hx' _. by rewrite Hi by auto.
Qed.
Lemma finishWork_le x y :
  delivery_ok x → 1 ≤ d_work x → finishWork 1 x = Some y → delivery_le x y.
Proof.
  intros Hx Hw Hf. destruct (finishWork_ok x Hx Hw) as (y' & Hy & _ & Hq & Hwy & Hl).
  rewrite Hf in Hy. injection Hy as <-. apply queue_le; [done|lia|done].
Qed.
Lemma enqueue_le x q y drain : delivery_ok x → enqueue q x = Some (y, drain) → delivery_le x y.
Proof. intros Hx He. destruct (enqueue_ok x q y drain Hx He) as (_ & _ & -> & _). by split. Qed.
Lemma activate_le x y drain : delivery_ok x → activate x = (y, drain) → delivery_le x y.
Proof. intros Hx Ha. destruct (activate_ok x y drain Hx Ha) as (_ & [[-> _]|[_ ->]] & _); [done|by split]. Qed.
Lemma unsubscribe_le x y drop resync : delivery_ok x → unsubscribe x = (y, drop, resync) → delivery_le x y.
Proof.
  intros Hx Hu. destruct (unsubscribe_ok x y drop resync Hx Hu) as (_ & ? & Hw & Hi & _ & Ha & _ & _ & Hr & _).
  split; [by rewrite Ha| |done|by rewrite Hw|by rewrite Hi|].
  - intros Hres. destruct (d_resyncRequired y); [done|]. by rewrite Hr in Hres.
  - revert Hu. unfold unsubscribe. destruct x as [o a c nt p u rs w idle]; simpl. intros Hu _ -> ->.
    destruct a; simpl in Hu; injection Hu as <- _ _; done.
Qed.
Lemma claimNext_le x y claimed : claimNext x = (y, claimed) → delivery_le x y.
Proof. unfold claimNext. repeat case_match; intros [= <- _]; by split. Qed.

Record hub_le (h h' : Hub) : Prop := {
  le_deliveries : ∀ d, (d < length (hub_deliveries h))%nat → delivery_le (delivery h d) (delivery h' d);
  le_closed : hub_closed h = true → hub_closed h' = true;
  le_limits : hub_maxCount h' = hub_maxCount h ∧ hub_maxBytes h' = hub_maxBytes h }.

Lemma hub_le_same h h' :
  hub_deliveries h' = hub_deliveries h → (hub_closed h = true → hub_closed h' = true) →
  hub_maxCount h' = hub_maxCount h ∧ hub_maxBytes h' = hub_maxBytes h → hub_le h h'.
Proof. intros Hd ? ?. split; [|done..]. intros d _. unfold delivery. by rewrite Hd. Qed.
Lemma hub_le_set h d x :
  (d < length (hub_deliveries h))%nat → delivery_le (delivery h d) x → hub_le h (set_delivery h d x).
Proof.
  intros Hd Hx. split; [|done|done]. intros e He. rewrite delivery_set by done. by case_decide; subst.
Qed.

Definition emitted (i : Instr) : list Observed :=
  match i with IReturn o => [o] | INotify d q true => [Called d q] | _ => [] end.

Lemma emitted_cases i :
  emitted i = [] ∨ (∃ o, i = IReturn o ∧ emitted i = [o])
  ∨ (∃ d q, i = INotify d q true ∧ emitted i = [Called d q]).
Proof. destruct i; try (by left); [by right; left; eauto|]. destruct observer; [by right; right; eauto|by left]. Qed.

Section exec.
Context (c : Choice) (h h' : Hub) (pushed : thread).

Lemma unsubscribe_at_le d finish resync :
  hub_ok h → (d < length (hub_deliveries h))%nat → unsubscribe_at h d = (h', finish, resync) → hub_le h h'.
Proof.
  intros Hh Hd. unfold unsubscribe_at. destruct (unsubscribe (delivery h d)) as [[x drop] r] eqn:E. intros [= <- _ _].
  apply hub_le_set; [done|]. eapply unsubscribe_le; [by apply delivery_is_ok|done].
Qed.

Lemma finish_le i d :
  covered h i → (d < length (hub_deliveries h))%nat → 1 ≤ wk d i → hub_le h (finish_work h d 1).
Proof.
  intros Hc Hd Hw. destruct (finish_claimed _ i d Hc Hw Hd) as (y & -> & _ & Hq & Hwy & Hl).
  apply hub_le_set; [done|]. pose proof (cov_work _ _ Hc d). pose proof (zlen_nonneg (d_pending (delivery h d))).
  assert (0 ≤ zsum (queued_for h d) (hub_notifications h)) by (apply zsum_nonneg; intros; apply cnt_nonneg).
  apply queue_le; [done|lia|done].
Qed.

Lemma exec_le i : covered h i → exec c i h = Some (h', pushed) → hub_le h h'.
Proof.
  intros Hcov Hx. pose proof (cov_hub _ _ Hcov) as Hh. pose proof (cov_instr _ _ Hcov) as Hi.
  destruct i; unfold_exec Hx; cbn [exec_call] in Hx; cbn in Hi; exec_cases Hx; try solve [by apply hub_le_same].
  - destruct op; cbn [exec_call] in Hx; exec_cases Hx; try solve [by apply hub_le_same].
    + apply Nat.ltb_lt in E. apply hub_le_set; [done|]. eapply activate_le; [by apply delivery_is_ok|done].
    + apply Nat.ltb_lt in E. by eapply unsubscribe_at_le.
    + apply Nat.ltb_lt in E. by eapply unsubscribe_at_le.
  - split; [|done|done]. intros d Hd. unfold delivery. simpl. rewrite !list_lookup_total_alt.
    by rewrite lookup_app_l.
  - assert (n < length (hub_deliveries h))%nat by (eapply ids_elem; [done|set_solver]).
    apply hub_le_set; [done|]. revert E0. unfold beginAdmission. destruct (d_unsubscribed _) eqn:Eu; [done|].
    intros [= <-]. apply addWork_le; [by apply delivery_is_ok|lia|by rewrite Eu].
  - destruct Hi as [_ Hi]. apply reserve_ok in E as (_ & -> & _); [|done|lia|by eapply items_bytes].
    by apply hub_le_same.
  - destruct Hi as [_ Hi%items_bytes]. destruct (covered_budget _ _ Hcov). cbn in *. unfold zlen in *.
    destruct (release_ok h (Z.of_nat (length items)) bytes) as (_ & -> & _); [done|lia|lia|by apply hub_le_same].
  - destruct Hi as [Hi _]. assert (n < length (hub_deliveries h))%nat by (eapply ids_elem; [done|set_solver]).
    apply hub_le_set; [done|]. apply addWork_le; [by apply delivery_is_ok|lia|]. intros _.
    pose proof (cov_work _ _ Hcov n) as Hw. pose proof (zlen_nonneg (d_pending (delivery h n))).
    assert (0 ≤ zsum (queued_for h n) (hub_notifications h)) by (apply zsum_nonneg; intros; apply cnt_nonneg).
    revert Hw. cbn. rewrite cnt_cons, same_refl.
    pose proof (cnt_nonneg n l). pose proof (cnt_nonneg n added). pose proof (zlen_nonneg items). nia.
  - apply hub_le_same; [by eapply publish_deliveries|..]; destruct (publish_fields _ _ _ _ E) as (-> & _); done.
  - apply ids_cons in Hi as (? & _). eapply finish_le; [done|done|]. cbn. rewrite cnt_cons, same_refl.
    pose proof (cnt_nonneg n l). lia.
  - destruct (covered_budget _ _ Hcov). cbn in *.
    destruct (release_ok h 1 bytes) as (_ & -> & _); [done|lia|lia|by apply hub_le_same].
  - apply ids_cons in Hi as (? & _). apply hub_le_set; [done|]. eapply enqueue_le; [by apply delivery_is_ok|done].
  - eapply finish_le; [done|done|]. cbn. rewrite same_refl. lia.
  - apply hub_le_set; [done|]. by eapply claimNext_le.
  - apply Forall_cons in Hi as [? _]. by eapply unsubscribe_at_le.
Qed.

(** The trace grows by what a step returns or by the call it starts. *)
Lemma exec_trace i :
  covered h i → exec c i h = Some (h', pushed) → hub_trace h' = hub_trace h ++ emitted i.
Proof.
  intros Hcov Hx. pose proof (cov_hub _ _ Hcov) as Hh. pose proof (cov_instr _ _ Hcov) as Hi.
  assert (∀ d finish r h', unsubscribe_at h d = (h', finish, r) → hub_trace h' = hub_trace h) as Hu.
  { intros d finish r h2. unfold unsubscribe_at. destruct (unsubscribe _) as [[x drop] r']. by intros [= <- _ _]. }
  destruct i; unfold_exec Hx; cbn [exec_call] in Hx; cbn in Hi; exec_cases Hx; cbn [emitted]; rewrite ?app_nil_r; try done.
  - destruct op; cbn [exec_call] in Hx; exec_cases Hx; try done; by eapply Hu.
  - destruct Hi as [_ Hi]. apply reserve_ok in E as (_ & -> & _); [done|done|lia|by eapply items_bytes].
  - unfold release. by repeat case_match.
  - by destruct (publish_fields _ _ _ _ E) as (-> & _).
  - unfold finish_work. by case_match.
  - unfold release. by repeat case_match.
  - unfold finish_work. by case_match.
  - by eapply Hu.
Qed.
End exec.
