(* ===== verification/ObserverInvariant.v ===== *)
(** The invariant of the subscriber state holds in every state the goroutines
    can reach. *)
From S2P Require Import Prelude Goroutines GoStrings GoJson InteractionTypes ObserverHub ObserverWeights ObserverViews ObserverExec ObserverLocal.

(** ** Every running instruction is covered *)

Lemma wk_nonneg d i : 0 ≤ wk d i.
Proof.
  destruct i; cbn; try lia; try apply cnt_nonneg; try apply same_nonneg.
  - pose proof (cnt_nonneg d added). pose proof (cnt_nonneg d todo). pose proof (zlen_nonneg items). nia.
  - pose proof (cnt_nonneg d obs). pose proof (zlen_nonneg items). nia.
Qed.
Lemma rm_nonneg q i : 0 ≤ rm q i.
Proof.
  destruct i; cbn; try lia; try apply same_nonneg.
  rename q0 into p. pose proof (same_nonneg q p). pose proof (zlen_nonneg todo). nia.
Qed.
Lemma bc_nonneg i : 0 ≤ bc i.
Proof. destruct i; cbn; try lia; apply zlen_nonneg. Qed.
Lemma tokd_nonneg d i : 0 ≤ tokd d i.
Proof. destruct i; cbn; try lia; apply same_nonneg. Qed.
Lemma tokr_nonneg i : 0 ≤ tokr i.
Proof. by destruct i. Qed.
Lemma lk_nonneg i : 0 ≤ lk i.
Proof. by destruct i. Qed.
Lemma bb_nonneg n i : instr_ok n i → 0 ≤ bb i.
Proof.
  destruct i; cbn; try lia; intros [_ Hi]; by eapply items_bytes.
Qed.

Lemma tsum_bytes n ts i : (∀ j, stands ts j → instr_ok n j) → stands ts i → bb i ≤ tsum bb ts.
Proof.
  intros Hok (k & Hk & Hi). trans (zsum bb k).
  - apply zsum_elem; [|done]. intros j Hj. eapply bb_nonneg, Hok. by exists k.
  - apply (zsum_elem (zsum bb)); [|done]. intros k' Hk'. apply zsum_nonneg. intros j Hj.
    eapply bb_nonneg, Hok. by exists k'.
Qed.

Lemma inv_covered s i : hub_inv s → stands (sys_threads s) i → covered (sys_hub s) i.
Proof.
  intros [Hh Hi Ha _ _] Hs.
  assert (Hn : ∀ q, q ∈ hub_notifications (sys_hub s) → (q < length (hub_queued (sys_hub s)))%nat).
  { intros q Hq. specialize (Ha (ARemaining q)). cbn in Ha.
    pose proof (tsum_nonneg (rm q) (rm_nonneg q) (sys_threads s)) as Hr. unfold remaining_owed in Ha.
    assert (0 ≤ zsum (fun x => cnt q (d_pending x)) (hub_deliveries (sys_hub s)))
      by (apply zsum_nonneg; intros; apply cnt_nonneg).
    pose proof (cnt_elem _ _ Hq). unfold users_of in Ha. pose proof (zlen_nonneg (observers_of (sys_hub s) q)).
    unfold remaining_of in Ha. destruct (hub_queued (sys_hub s) !! q) eqn:E; [by eapply lookup_lt_Some|nia]. }
  split; try done; try by apply Hi.
  - intros d. pose proof (tsum_stands (wk d) (wk_nonneg d) _ _ Hs). specialize (Ha (AWork d)). cbn in Ha.
    unfold work_owed in Ha. lia.
  - intros q. pose proof (tsum_stands (rm q) (rm_nonneg q) _ _ Hs). specialize (Ha (ARemaining q)). cbn in Ha.
    unfold remaining_owed in Ha.
    assert (0 ≤ zsum (fun x => cnt q (d_pending x)) (hub_deliveries (sys_hub s)))
      by (apply zsum_nonneg; intros; apply cnt_nonneg).
    pose proof (cnt_nonneg q (hub_notifications (sys_hub s))). unfold users_of in Ha.
    pose proof (zlen_nonneg (observers_of (sys_hub s) q)). nia.
  - pose proof (tsum_stands bc bc_nonneg _ _ Hs). specialize (Ha ACount). cbn in Ha. unfold count_owed in Ha. lia.
  - pose proof (tsum_bytes _ _ _ Hi Hs). specialize (Ha ABytes). cbn in Ha. unfold bytes_owed in Ha. lia.
  - intros d. pose proof (tsum_stands (tokd d) (tokd_nonneg d) _ _ Hs). specialize (Ha (ADrainer d)). cbn in Ha. lia.
  - pose proof (tsum_stands tokr tokr_nonneg _ _ Hs). specialize (Ha ANotifying). cbn in Ha. lia.
  - pose proof (tsum_stands lk lk_nonneg _ _ Hs). specialize (Ha AMutex). cbn in Ha. lia.
Qed.

(** ** Order *)

Lemma calls_of_app d t o :
  calls_of d (t ++ [o]) = calls_of d t ++ match o with Called e q => if decide (e = d) then [q] else [] | _ => [] end.
Proof. unfold calls_of. rewrite omap_app. f_equal. destruct o; cbn; try done. by case_decide. Qed.

(** Everything the order of a delivery is made of, other than the goroutines. *)
Definition same_order (d : nat) (h h' : Hub) : Prop :=
  calls_of d (hub_trace h') = calls_of d (hub_trace h)
  ∧ d_pending (delivery h' d) = d_pending (delivery h d)
  ∧ d_resyncRequired (delivery h' d) = d_resyncRequired (delivery h d)
  ∧ hub_notifications h' = hub_notifications h ∧ length (hub_queued h') = length (hub_queued h)
  ∧ ∀ q, observers_of h' q = observers_of h q.

Lemma accepted_same d h h' :
  length (hub_queued h') = length (hub_queued h) → (∀ q, observers_of h' q = observers_of h q) →
  accepted d h' = accepted d h.
Proof.
  intros Hl Ho. unfold accepted. rewrite Hl. apply list_filter_iff'. intros q _. by rewrite Ho.
Qed.

Section order.
Context (d : nat) (h h' : Hub) (ts : list thread) (t : nat) (i : Instr) (rest pushed : thread).
Hypothesis Hts : ts !! t = Some (i :: rest).
Let ts' := <[t := pushed ++ rest]> ts.

Definition order_kept : Prop :=
  (d_resyncRequired (delivery h d) = false → sequence d h ts = accepted d h) →
  d_resyncRequired (delivery h' d) = false → sequence d h' ts' = accepted d h'.

Lemma order_same :
  same_order d h h' → inflight d i = mjoin (inflight d <$> pushed) → transit d i = mjoin (transit d <$> pushed) →
  order_kept.
Proof.
  intros (Hc & Hp & Hr & Hn & Hl & Ho) Hi Ht IH Hres. rewrite Hr in Hres. rewrite (accepted_same d h h' Hl Ho).
  rewrite <- IH by done. unfold sequence, ts'. rewrite Hc, Hp, Hn.
  rewrite (tcat_same _ _ _ _ _ _ Hts Hi), (tcat_same _ _ _ _ _ _ Hts Ht). do 4 f_equal.
  apply list_filter_iff'. intros q _. by rewrite Ho.
Qed.

(** The one goroutine that drains [d], and the one that drains the registry. *)
Lemma inflight_token :
  tokd d i = 1 → tsum (tokd d) ts ≤ 1 →
  tcat (inflight d) ts = inflight d i ∧ tcat (inflight d) ts' = mjoin (inflight d <$> pushed).
Proof.
  intros Hi Hle. eapply (tcat_token (inflight d) (tokd d) (tokd_nonneg d)); [|done..].
  intros []; cbn; try done. unfold same. case_bool_decide; [done|]. by rewrite decide_False.
Qed.
Lemma transit_token :
  tokr i = 1 → tsum tokr ts ≤ 1 →
  tcat (transit d) ts = transit d i ∧ tcat (transit d) ts' = mjoin (transit d <$> pushed).
Proof.
  intros Hi Hle. eapply (tcat_token (transit d) tokr tokr_nonneg); [|done..]. by intros [].
Qed.
End order.

Section order_steps.
Context (d : nat) (h : Hub) (ts : list thread) (t : nat) (rest : thread).
Implicit Types (i : Instr) (pushed : thread).

(** Steps whose instructions hold no observation of [d]. *)
Definition neutral i pushed : Prop :=
  inflight d i = [] ∧ transit d i = [] ∧ mjoin (inflight d <$> pushed) = [] ∧ mjoin (transit d <$> pushed) = [].

Lemma neutral_tcat i pushed :
  ts !! t = Some (i :: rest) → neutral i pushed →
  tcat (inflight d) (<[t := pushed ++ rest]> ts) = tcat (inflight d) ts
  ∧ tcat (transit d) (<[t := pushed ++ rest]> ts) = tcat (transit d) ts.
Proof. intros Hts (Hi & Ht & Hi' & Ht'). split; apply (tcat_same _ _ _ _ _ _ Hts); congruence. Qed.

Lemma order_set i pushed e x :
  ts !! t = Some (i :: rest) → (e < length (hub_deliveries h))%nat →
  d_pending x = d_pending (delivery h e) → d_resyncRequired x = d_resyncRequired (delivery h e) →
  neutral i pushed → order_kept d h (set_delivery h e x) ts t rest pushed.
Proof.
  intros Hts He Hp Hr (Hi & Ht & Hi' & Ht').
  apply (order_same _ _ _ _ _ _ _ _ Hts); [|congruence..]. repeat split; try done.
  - rewrite delivery_set by done. by case_decide; subst.
  - rewrite delivery_set by done. by case_decide; subst.
Qed.

Lemma order_unsubscribe i pushed h' e finish resync :
  ts !! t = Some (i :: rest) →
  hub_ok h → zlen (d_pending (delivery h e)) ≤ d_work (delivery h e) → (e < length (hub_deliveries h))%nat →
  unsubscribe_at h e = (h', finish, resync) → neutral i pushed → order_kept d h h' ts t rest pushed.
Proof.
  intros Hts Hh Hw He Hu Hneu. unfold unsubscribe_at in Hu.
  destruct (unsubscribe (delivery h e)) as [[x drop] r] eqn:E. injection Hu as <- _ _.
  apply unsubscribe_ok in E as (_ & _ & _ & _ & _ & _ & Hp & Hr & Hr' & Hdrop); [|by apply delivery_is_ok].
  intros IH Hres. rewrite delivery_set in Hres by done.
  assert (d_resyncRequired (delivery h d) = false) as Hres' by (case_decide; subst; auto).
  rewrite (accepted_same d h) by done. rewrite <- (IH Hres'). unfold sequence.
  destruct (neutral_tcat i pushed Hts Hneu) as [-> ->]. do 2 f_equal. rewrite delivery_set by done.
  case_decide; subst; [|done]. assert (drop = []) as ->; [|by rewrite Hp].
  destruct Hdrop as [?|[Hrt|Hle]]; [done|congruence|].
  rewrite Hp in Hw. destruct drop; [done|]. autorewrite with zsum in Hw.
  pose proof (zlen_nonneg drop). pose proof (zlen_nonneg (d_pending x)). lia.
Qed.

Lemma order_publish i pushed h' items drain :
  ts !! t = Some (i :: rest) → (∀ q, q ∈ hub_notifications h → (q < length (hub_queued h))%nat) →
  publish h items = (h', drain) → neutral i pushed → order_kept d h h' ts t rest pushed.
Proof.
  intros Hts Hold Hp Hneu IH. pose proof (publish_fields _ _ _ _ Hp) as (Hh' & _).
  rewrite (publish_delivery _ _ _ _ Hp). intros Hres. specialize (IH Hres).
  unfold sequence, accepted in *. destruct (neutral_tcat i pushed Hts Hneu) as [-> ->].
  rewrite (publish_delivery _ _ _ _ Hp), (publish_notifications _ _ _ _ Hp), (publish_queued _ _ _ _ Hp).
  rewrite length_app, seq_app, !filter_app.
  rewrite (list_filter_iff' (fun q => d ∈ observers_of h' q) (fun q => d ∈ observers_of h q) (hub_notifications h))
    by (intros; rewrite (publish_observers_old _ _ _ _ Hp); auto).
  rewrite (list_filter_iff' (fun q => d ∈ observers_of h' q) (fun q => d ∈ observers_of h q)
             (seq 0 (length (hub_queued h))))
    by (intros q [_ ?]%elem_of_seq; by rewrite (publish_observers_old _ _ _ _ Hp)).
  rewrite <- IH. assert (hub_trace h' = hub_trace h) as -> by (by rewrite Hh'). by rewrite <- !app_assoc.
Qed.

Lemma order_pop q notifications :
  ts !! t = Some (IDrainNotifications :: rest) → tsum tokr ts ≤ 1 → hub_notifications h = q :: notifications →
  order_kept d h (h <| hub_notifications := notifications |>) ts t rest [IFanOut q (observers_of h q)].
Proof.
  intros Hts Htok Hn IH Hres. rewrite (accepted_same d h) by done. rewrite <- IH by done. unfold sequence.
  destruct (transit_token d ts t _ rest [IFanOut q (observers_of h q)] Hts) as [-> ->]; [done|done|].
  rewrite (tcat_same _ _ _ _ _ _ Hts) by done. rewrite Hn, filter_cons. cbn.
  case_decide; rewrite ?decide_True, ?decide_False by done; done.
Qed.

Lemma order_fan_out q e todo x drain :
  ts !! t = Some (IFanOut q (e :: todo) :: rest) → hub_ok h → (e < length (hub_deliveries h))%nat → e ∉ todo →
  tsum tokr ts ≤ 1 → enqueue q (delivery h e) = Some (x, drain) →
  order_kept d h (set_delivery h e x) ts t rest ((if drain then [IDrain e] else []) ++ [IFanOut q todo]).
Proof.
  intros Hts Hh He Hnot Htok Hx IH Hres.
  apply enqueue_ok in Hx as (_ & _ & Hx & _); [|by apply delivery_is_ok].
  assert (d_resyncRequired (delivery h d) = false) as Hres'.
  { rewrite delivery_set in Hres by done. case_decide; subst; done. }
  rewrite (accepted_same d h) by done. rewrite <- (IH Hres'). unfold sequence.
  destruct (transit_token d ts t _ rest ((if drain then [IDrain e] else []) ++ [IFanOut q todo]) Hts)
    as [-> ->]; [done|done|].
  rewrite (tcat_same _ _ _ _ _ _ Hts) by (by destruct drain).
  assert (mjoin (transit d <$> (if drain then [IDrain e] else []) ++ [IFanOut q todo]) = transit d (IFanOut q todo)) as ->.
  { destruct drain; cbn; by rewrite app_nil_r. }
  rewrite delivery_set by done. do 2 f_equal. cbn. case_decide as Hde.
  - subst d x. cbn. rewrite <- app_assoc. f_equal. rewrite decide_False by done. by rewrite decide_True by (by left).
  - do 2 f_equal. repeat case_decide; set_solver.
Qed.

(** A delivery that is closed, and has been admitted, needs a fresh snapshot. *)
Lemma closed_admitted i e :
  covered h i → (e < length (hub_deliveries h))%nat → 1 ≤ wk e i → d_closed (delivery h e) = true →
  d_resyncRequired (delivery h e) = true.
Proof.
  intros Hcov He Hw Hc. destruct (delivery_is_ok h e (cov_hub _ _ Hcov) He) as [_ _ Hcl _ _ _ _].
  destruct (Hcl Hc) as (_ & _ & _ & [?|Hz]); [done|]. pose proof (cov_work _ _ Hcov e).
  pose proof (zlen_nonneg (d_pending (delivery h e))).
  assert (0 ≤ zsum (queued_for h e) (hub_notifications h)) by (apply zsum_nonneg; intros; apply cnt_nonneg). lia.
Qed.

Lemma order_fan_out_closed q e todo :
  ts !! t = Some (IFanOut q (e :: todo) :: rest) → covered h (IFanOut q (e :: todo)) →
  tsum tokr ts ≤ 1 → enqueue q (delivery h e) = None →
  order_kept d h h ts t rest (finishObservation e q ++ [IFanOut q todo]).
Proof.
  intros Hts Hcov Htok Hx IH Hres. destruct (ids_cons _ _ _ (cov_instr _ _ Hcov)) as (He & Hnot & _).
  rewrite <- (IH Hres). clear IH.
  assert (d ≠ e) as Hde.
  { intros <-. rewrite (closed_admitted _ d Hcov He) in Hres; [done| |].
    - cbn. rewrite cnt_cons, same_refl. pose proof (cnt_nonneg d todo). lia.
    - unfold enqueue in Hx. by destruct (d_closed (delivery h d)). }
  unfold sequence. rewrite (tcat_same _ _ _ _ _ _ Hts) by done.
  rewrite (tcat_same (transit d) _ _ _ _ _ Hts); [done|]. cbn. rewrite app_nil_r.
  repeat case_decide; set_solver.
Qed.

Lemma order_claim e x claimed :
  ts !! t = Some (IDrain e :: rest) → (e < length (hub_deliveries h))%nat → tsum (tokd d) ts ≤ 1 →
  claimNext (delivery h e) = (x, claimed) →
  order_kept d h (set_delivery h e x) ts t rest
    match claimed with Some (q, observer) => [INotify e q observer] | None => [] end.
Proof.
  intros Hts He Htok Hx IH Hres.
  assert (d_resyncRequired x = d_resyncRequired (delivery h e)
          ∧ d_pending (delivery h e) = (match claimed with Some (q, _) => [q] | None => [] end) ++ d_pending x) as [Hr Hp].
  { unfold claimNext in Hx. by repeat case_match; simplify_eq/=. }
  assert (d_resyncRequired (delivery h d) = false) as Hres'.
  { rewrite delivery_set in Hres by done. case_decide; subst; congruence. }
  rewrite (accepted_same d h) by done. rewrite <- (IH Hres'). unfold sequence.
  rewrite (tcat_same (transit d) _ _ _ _ _ Hts) by (by destruct claimed as [[]|]).
  rewrite delivery_set by done. case_decide as Hde.
  - subst e.
    edestruct (inflight_token d ts t (IDrain d) rest) as [-> ->]; [done|cbn; apply same_refl|done|]. rewrite Hp.
    destruct claimed as [[q o]|]; cbn; [by rewrite decide_True by done|done].
  - rewrite (tcat_same (inflight d) _ _ _ _ _ Hts); [done|]. destruct claimed as [[q o]|]; cbn; [|done].
    by rewrite decide_False by done.
Qed.

Lemma calls_neutral e q (calls : list Op) (f : Instr → list nat) :
  (∀ op, f (ICall op) = []) → f (INotified e q) = [] → mjoin (f <$> (ICall <$> calls) ++ [INotified e q]) = [].
Proof.
  intros Hf Hn. apply mjoin_empty.
  intros j [(op & -> & _)%list_elem_of_fmap|Hj%list_elem_of_singleton]%elem_of_app; [done|by subst].
Qed.

Lemma order_call e q calls :
  ts !! t = Some (INotify e q true :: rest) → tsum (tokd d) ts ≤ 1 →
  order_kept d h (observe (Called e q) h) ts t rest ((ICall <$> calls) ++ [INotified e q]).
Proof.
  intros Hts Htok IH Hres. rewrite (accepted_same d h) by done. rewrite <- IH by done. unfold sequence.
  rewrite (tcat_same (transit d) _ _ _ _ _ Hts) by (by rewrite calls_neutral).
  unfold observe. simpl. rewrite calls_of_app. case_decide as Hde.
  - subst e.
    edestruct (inflight_token d ts t (INotify d q true) rest) as [-> ->]; [done|cbn; apply same_refl|done|].
    rewrite calls_neutral by done. cbn. rewrite decide_True by done. by rewrite <- app_assoc.
  - rewrite (tcat_same (inflight d) _ _ _ _ _ Hts); [by rewrite app_nil_r|]. rewrite calls_neutral by done. cbn.
    by rewrite decide_False.
Qed.
End order_steps.

(** The observations an unsubscribe finishes are no longer on their way. *)
Lemma finish_neutral e h h' finish resync (f : Instr → list nat) :
  unsubscribe_at h e = (h', finish, resync) → (∀ q, f (IQueuedDone q) = []) → f (IFinishWork e) = [] →
  mjoin (f <$> finish) = [].
Proof.
  unfold unsubscribe_at. destruct (unsubscribe (delivery h e)) as [[x drop] r]. intros [= _ <- _] Hq He.
  apply mjoin_empty. induction drop as [|q drop IH]; cbn; [by intros ? ?%elem_of_nil|].
  intros j [->|[->|Hj]%elem_of_cons]%elem_of_cons; [done..|by apply IH].
Qed.

Lemma covered_pending h i d : covered h i → zlen (d_pending (delivery h d)) ≤ d_work (delivery h d).
Proof.
  intros Hcov. pose proof (cov_work _ _ Hcov d). pose proof (wk_nonneg d i).
  assert (0 ≤ zsum (queued_for h d) (hub_notifications h)) by (apply zsum_nonneg; intros; apply cnt_nonneg). lia.
Qed.

Lemma exec_call_order c d h h' ts t op rest pushed :
  ts !! t = Some (ICall op :: rest) → covered h (ICall op) →
  exec c (ICall op) h = Some (h', pushed) → order_kept d h h' ts t rest pushed.
Proof.
  intros Hts Hcov Hx. pose proof (cov_hub _ _ Hcov) as Hh. unfold_exec Hx.
  destruct op; cbn [exec_call] in Hx; exec_cases Hx; try solve [by eapply order_same].
  - apply Nat.ltb_lt in E. apply activate_ok in E0 as (_ & Hc & _); [|by apply delivery_is_ok].
    eapply order_set; [done|done|..].
    + by destruct Hc as [[-> _]|[_ ->]].
    + by destruct Hc as [[-> _]|[_ ->]].
    + by destruct b.
  - apply Nat.ltb_lt in E. eapply order_unsubscribe; [done|done|by eapply covered_pending|done|done|].
    repeat split; by eapply finish_neutral.
  - apply Nat.ltb_lt in E. eapply order_unsubscribe; [done|done|by eapply covered_pending|done|done|].
    repeat split; rewrite fmap_app, join_app; by erewrite finish_neutral.
Qed.

Lemma order_finish d h ts t i rest e pushed :
  ts !! t = Some (i :: rest) → covered h i → (e < length (hub_deliveries h))%nat → 1 ≤ wk e i →
  neutral d i pushed → order_kept d h (finish_work h e 1) ts t rest pushed.
Proof.
  intros Hts Hcov He Hw Hneu. destruct (finish_claimed _ i e Hcov Hw He) as (y & -> & _ & Hq & _).
  destruct Hq as (_ & _ & _ & Hp & _ & Hr). by eapply order_set.
Qed.

Lemma order_release d h ts t i rest count bytes pushed :
  ts !! t = Some (i :: rest) → covered h i → 0 ≤ count ≤ bc i → 0 ≤ bytes ≤ bb i → neutral d i pushed →
  order_kept d h (release h count bytes) ts t rest pushed.
Proof.
  intros Hts Hcov Hc Hb (? & ? & ? & ?). destruct (covered_budget _ i Hcov).
  destruct (release_ok h count bytes) as (_ & -> & _); [apply Hcov|lia|lia|].
  eapply order_same; [done|by repeat split|congruence..].
Qed.

Lemma append_step_neutral d h w events obs items bytes claimed :
  neutral d (IAppend w events obs items bytes claimed) (append_step h w events obs items bytes claimed).
Proof. repeat split; unfold append_step, abandon, abandon_unlocked; by repeat case_match. Qed.

Lemma exec_order c d h h' ts t i rest pushed :
  ts !! t = Some (i :: rest) → covered h i → tsum (tokd d) ts ≤ 1 → tsum tokr ts ≤ 1 →
  exec c i h = Some (h', pushed) → order_kept d h h' ts t rest pushed.
Proof.
  intros Hts Hcov Hd Hr Hx. pose proof (cov_hub _ _ Hcov) as Hh. pose proof (cov_instr _ _ Hcov) as Hi.
  destruct i; [by eapply exec_call_order|..]; unfold_exec Hx; cbn in Hi; exec_cases Hx;
    try solve [by eapply order_same].
  - eapply order_same; [done| |done..]. repeat split; try done. unfold observe. simpl. rewrite calls_of_app.
    destruct o; [done|by rewrite app_nil_r..].
  - destruct (delivery_subscribed h active d) as (_ & Hp & _).
    eapply order_same; [done| |done..]. repeat split; try done. clear. unfold delivery. simpl.
    rewrite !list_lookup_total_alt. destruct (decide (d < length (hub_deliveries h))%nat).
    + by rewrite lookup_app_l.
    + rewrite lookup_app_r, (lookup_ge_None_2 (hub_deliveries h)) by lia. by destruct (d - _)%nat.
  - assert (n < length (hub_deliveries h))%nat by (eapply ids_elem; [done|set_solver]).
    assert (d_pending o = d_pending (delivery h n) ∧ d_resyncRequired o = d_resyncRequired (delivery h n)) as [? ?].
    { revert E0. unfold beginAdmission, addWorkLocked. repeat case_match; by intros [= <-]. }
    by eapply order_set.
  - destruct (append_step_neutral d h' w events obs items bytes claimed) as (? & ? & ? & ?).
    eapply order_same; [done|done|congruence..].
  - destruct Hi as [_ Hi]. apply reserve_ok in E as (_ & -> & _); [|done|lia|by eapply items_bytes].
    by eapply order_same.
  - destruct Hi as [_ Hi%items_bytes]. eapply order_release; [done|done| |cbn; lia|done]. cbn. unfold zlen. lia.
  - destruct Hi as [Hi _]. assert (n < length (hub_deliveries h))%nat by (eapply ids_elem; [done|set_solver]).
    eapply order_set; [done|done| | |done]; unfold addWorkLocked; by case_match.
  - eapply order_publish; [done|apply Hcov|done|]. by destruct b.
  - apply ids_cons in Hi as (? & _). eapply order_finish; [done|done|done| |done].
    cbn. rewrite cnt_cons, same_refl. pose proof (cnt_nonneg n l). lia.
  - by eapply order_release; [done|done|cbn; lia|cbn in *; lia|].
  - by eapply order_pop.
  - apply ids_cons in Hi as (? & ? & _). by eapply order_fan_out.
  - by eapply order_fan_out_closed.
  - eapply order_same; [done| |by case_match..]. repeat split; try done.
    + simpl. apply length_insert.
    + intros p. unfold observers_of. simpl. destruct (decide (p = q)) as [->|].
      * rewrite list_lookup_insert_eq, E by (by eapply lookup_lt_Some). done.
      * by rewrite list_lookup_insert_ne.
  - eapply order_finish; [done|done|done| |done]. cbn. rewrite same_refl. lia.
  - by eapply order_claim.
  - by eapply order_call.
  - by destruct Hi.
  - apply Forall_cons in Hi as [He _]. eapply order_unsubscribe; [done|done|by eapply covered_pending|done|done|].
    repeat split; rewrite fmap_app, join_app; by erewrite finish_neutral.
Qed.

(** ** Preservation *)

Lemma tsum_tokens s d : hub_inv s → tsum (tokd d) (sys_threads s) ≤ 1 ∧ tsum tokr (sys_threads s) ≤ 1.
Proof.
  intros [_ _ Ha _ _]. pose proof (Ha (ADrainer d)) as H1. pose proof (Ha ANotifying) as H2. cbn in H1, H2.
  rewrite <- H1, <- H2. split; apply one_if_nonneg.
Qed.

Lemma run_keeps h h' ts t c i rest pushed :
  hub_inv (mkSystem h ts) → ts !! t = Some (i :: rest) → exec c i h = Some (h', pushed) →
  hub_inv (mkSystem h' (<[t := pushed ++ rest]> ts)).
Proof.
  intros Hinv Hts Hx. pose proof (inv_covered _ i Hinv (stands_top _ _ _ _ Hts)) as Hcov. cbn in Hcov.
  destruct (exec_kept c h h' pushed i Hcov Hx) as (Hh' & Hlen & Hpushed).
  pose proof (exec_balanced c h h' pushed i Hcov Hx) as Hbal.
  pose proof (exec_le c h h' pushed i Hcov Hx) as Hle.
  pose proof (exec_trace c h h' pushed i Hcov Hx) as Htr.
  pose proof Hinv as [Hh Hi Ha Ho Hg]. cbn in *. split; cbn.
  - done.
  - intros j [Hj|Hj]%(stands_step _ _ _ _ _ _ Hts); [|by apply (instr_ok_mono (length (hub_deliveries h))); [|apply Hi]].
    eapply Forall_forall in Hpushed; done.
  - intros a. rewrite (tsum_step _ _ _ _ _ _ Hts), Hbal, Ha. done.
  - intros d. destruct (tsum_tokens _ d Hinv). eapply exec_order; try done. by apply Ho.
  - intros d Hact. rewrite Htr.
    assert (d_active (delivery h d) = false) as Hold.
    { destruct (decide (d < length (hub_deliveries h))%nat) as [Hd|]; [|by rewrite delivery_out by lia].
      destruct (d_active (delivery h d)) eqn:E; [|done]. destruct (le_deliveries _ _ Hle d Hd) as [Hac _ _ _ _].
      by rewrite Hac in Hact. }
    destruct (emitted_cases i) as [->|[(o & -> & ->)|(e & q & -> & ->)]].
    + rewrite app_nil_r. by apply Hg.
    + rewrite calls_of_app, Hg by done. specialize (Hi (IReturn o) (stands_top _ _ _ _ Hts)). by destruct o.
    + rewrite calls_of_app, Hg by done. cbn. case_decide as Hd; [subst|done]. exfalso.
      destruct (cov_instr _ _ Hcov) as [_ Hd]. destruct (delivery_is_ok h d Hh Hd) as [_ _ _ _ Hn _ _].
      pose proof (cov_drainer _ _ Hcov d) as Ht. cbn in Ht. rewrite same_refl in Ht.
      destruct (d_notifying (delivery h d)); [|done]. rewrite Hn in Hold; done.
Qed.

Lemma spawn_keeps h ts op : hub_inv (mkSystem h ts) → hub_inv (mkSystem h (ts ++ [[ICall op]])).
Proof.
  intros [Hh Hi Ha Ho Hg]. cbn in *. split; cbn; try done.
  - intros i [Hs%list_elem_of_singleton|Hs]%stands_spawn; [by subst|by apply Hi].
  - intros a. rewrite tsum_spawn, Ha. destruct a; weigh.
  - intros d Hr. rewrite <- Ho by done. unfold sequence. by rewrite !tcat_app, !app_nil_r.
Qed.

Lemma step_keeps s a s' : hub_inv s → sched_step s a = Some s' → hub_inv s'.
Proof.
  intros Hinv. destruct s as [h ts]. destruct a as [op|t c]; cbn.
  - intros [= <-]. by apply spawn_keeps.
  - destruct (ts !! t) as [[|i rest]|] eqn:Hts; try done.
    destruct (exec c i h) as [[h' pushed]|] eqn:Hx; [|done]. intros [= <-]. by eapply run_keeps.
Qed.

Lemma init_inv maxCount maxBytes : 0 ≤ maxCount → 0 ≤ maxBytes → hub_inv (new_system maxCount maxBytes).
Proof.
  intros Hc Hb. split; cbn; try done.
  - split; cbn; try done; try lia; try apply ids_ok_nil.
  - by intros i (k & Hk%elem_of_nil & _).
  - by intros [].
Qed.

Lemma run_keeps_all s l s' : hub_inv s → sched_run s l = Some s' → hub_inv s'.
Proof.
  revert s. induction l as [|a l IH]; intros s Hs; cbn; [by intros [= <-]|].
  destruct (sched_step s a) as [s1|] eqn:E; [|done]. apply IH. by eapply step_keeps.
Qed.

Lemma reachable_inv maxCount maxBytes s :
  0 ≤ maxCount → 0 ≤ maxBytes → reachable maxCount maxBytes s → hub_inv s.
Proof. intros ? ? [l Hl]. eapply run_keeps_all; [|done]. by apply init_inv. Qed.
