(* ===== verification/ObserverClosing.v ===== *)
(** Settling: what a goroutine that waits for a subscription or for the registry
    knows, and that it stays true. *)
From S2P Require Import Prelude Goroutines GoStrings GoJson InteractionTypes ObserverHub ObserverWeights ObserverViews ObserverExec ObserverLocal ObserverInvariant.

(** The delivery was unsubscribed, and has nothing left to do. *)
Definition settled (h : Hub) (d : nat) : Prop :=
  (d < length (hub_deliveries h))%nat ∧ d_unsubscribed (delivery h d) = true ∧ d_work (delivery h d) = 0.

(** A batch without observers. *)
Definition holds_none (i : Instr) : Prop :=
  match i with
  | IBeginAdmission _ todo obs => todo = [] ∧ obs = []
  | IAppend _ _ obs items _ _ | IReserve obs items _ | ISave obs items _ | IPublish obs items _ =>
      obs = [] ∧ items = []
  | IAddWork added todo items _ => added = [] ∧ todo = [] ∧ items = []
  | _ => True
  end.

(** The registry is closed and no batch that has observers is under way. *)
Definition sealed (s : System) : Prop :=
  hub_closed (sys_hub s) = true ∧ ∀ i, stands (sys_threads s) i → holds_none i.
Definition drained (s : System) : Prop := sealed s ∧ hub_count (sys_hub s) = 0.

Definition no_cause (e : option ObserverDrainError) : Prop :=
  match e with Some e => Cause e = None | None => True end.

(** What a value returned to a caller says of the state. *)
Definition returned_fact (s : System) (o : Observed) : Prop :=
  match o with
  | SubscriptionClosed d e =>
      no_cause e → settled (sys_hub s) d
        ∧ (e = None → d_resyncRequired (delivery (sys_hub s) d) = false)
  | HubClosed e => no_cause e → drained s
  | _ => True
  end.

Definition instr_fact (s : System) (i : Instr) : Prop :=
  let h := sys_hub s in
  let known d := (d < length (hub_deliveries h))%nat ∧ d_unsubscribed (delivery h d) = true in
  match i with
  | IReturn o => returned_fact s o
  | IWaitWork d => known d
  | IWaitIdle d k => known d ∧ (0 < d_work (delivery h d) → S k = length (d_idle (delivery h d)))
  | IWaited d cancelled => known d ∧ (cancelled = false → d_work (delivery h d) = 0)
  | ICloseLock => hub_closed h = true
  | ICloseEach _ _ | IWaitBudget _ => sealed s
  | IWaitBudgetIdle k _ => sealed s ∧ (0 < hub_count h → S k = length (hub_idle h))
  | ICloseReport err _ => err = None → drained s
  | _ => True
  end.

(** The outcome that promises [d] is not called any more. *)
Definition silences (o : Observed) (d : nat) : Prop :=
  match o with
  | SubscriptionClosed e err => e = d ∧ no_cause err
  | HubClosed err => no_cause err
  | _ => False
  end.

Record closing_inv (s : System) : Prop := {
  cl_inv : hub_inv s;
  cl_instrs : ∀ i, stands (sys_threads s) i → instr_fact s i;
  cl_trace : ∀ o, o ∈ hub_trace (sys_hub s) → returned_fact s o;
  cl_silent : ∀ t1 o t2 d q, hub_trace (sys_hub s) = t1 ++ o :: t2 → silences o d → Called d q ∉ t2 }.

(** ** A sealed registry admits nothing more *)

(** What a step may do to the budget once nothing is admitted. *)
Definition only_releases (h h' : Hub) : Prop :=
  (hub_count h = 0 → hub_count h' = 0)
  ∧ (0 < hub_count h' → 0 < hub_count h ∧ length (hub_idle h') = length (hub_idle h)).

Section exec.
Context (c : Choice) (h h' : Hub) (pushed : thread).

Lemma unsubscribe_at_budget d finish resync :
  unsubscribe_at h d = (h', finish, resync) →
  hub_count h' = hub_count h ∧ hub_idle h' = hub_idle h ∧ Forall holds_none finish.
Proof.
  unfold unsubscribe_at. destruct (unsubscribe _) as [[x drop] r]. intros [= <- <- _]. repeat split.
  induction drop as [|q drop IH]; cbn; [constructor|by repeat constructor].
Qed.

Lemma exec_sealed i :
  covered h i → hub_closed h = true → holds_none i → exec c i h = Some (h', pushed) →
  Forall holds_none pushed ∧ only_releases h h'.
Proof.
  intros Hcov Hcl Hn Hx. pose proof (cov_hub _ _ Hcov) as Hh. pose proof (cov_instr _ _ Hcov) as Hi.
  destruct i; unfold_exec Hx; cbn in Hi, Hn; exec_cases Hx; destruct_and?; subst; try done;
    try solve [split; [by repeat constructor|by split]].
  - destruct op; cbn [exec_call] in Hx; exec_cases Hx; try done; try solve [split; [by repeat constructor|by split]].
    + split; [by destruct b; repeat constructor|by split].
    + apply unsubscribe_at_budget in E0 as (Hc & Hid & Hf). split; [done|]. unfold only_releases. by rewrite Hc, Hid.
    + apply unsubscribe_at_budget in E0 as (Hc & Hid & Hf). split; [by apply Forall_app; split; [|repeat constructor]|].
      unfold only_releases. by rewrite Hc, Hid.
  - rewrite Hcl. split; [by repeat constructor|by split].
  - split; [|by split]. unfold append_step, append_item, abandon_unlocked. repeat case_match; simplify_eq; by repeat constructor.
  - destruct (cov_instr _ _ Hcov) as [_ Hb%items_bytes]. apply reserve_ok in E as (_ & Heq & Hid); [|done|cbn; lia|done].
    split; [by repeat constructor|]. unfold only_releases.
    destruct Hid as [Hid|[_ ?]]; [|cbn in *; lia]. rewrite Hid, Heq. cbn. lia.
  - split; [by repeat constructor|]. destruct (cov_instr _ _ Hcov) as [_ Hb%items_bytes]. destruct (covered_budget _ _ Hcov).
    pose proof (ok_count _ Hh). cbn in *.
    destruct (release_ok h (Z.of_nat 0) bytes) as (_ & Hr & Hl); [done|lia|lia|]. unfold only_releases. rewrite Hl, Hr. cbn. lia.
  - cbn in E. injection E as <- <-. split; [by repeat constructor|by split].
  - split; [by repeat constructor|]. unfold finish_work. by case_match.
  - split; [done|]. destruct (covered_budget _ _ Hcov). cbn in *.
    destruct (release_ok h 1 bytes) as (_ & Hr & Hl); [done|lia|lia|]. unfold only_releases. rewrite Hl, Hr. cbn. lia.
  - split; [by destruct b; repeat constructor|by split].
  - split; [by case_match; repeat constructor|by split].
  - split; [done|]. unfold finish_work. by case_match.
  - split; [by repeat case_match; repeat constructor|by split].
  - split; [|by split]. apply Forall_app. split; [|by repeat constructor].
    apply Forall_forall. by intros ? (op & -> & _)%list_elem_of_fmap.
  - apply unsubscribe_at_budget in E0 as (Hc & Hid & Hf). split; [by apply Forall_app; split; [|repeat constructor]|].
    unfold only_releases. by rewrite Hc, Hid.
Qed.
End exec.

(** ** One step *)

Lemma drain_error_cause err pending resync :
  (no_cause (drain_error err pending resync) → err = None)
  ∧ (drain_error err pending resync = None → resync = false).
Proof. destruct err, resync; cbn; done. Qed.

Section step.
Context (c : Choice) (h h' : Hub) (ts : list thread) (t : nat) (i : Instr) (rest pushed : thread).
Let s := mkSystem h ts.
Let s' := mkSystem h' (<[t := pushed ++ rest]> ts).
Hypothesis Hinv : hub_inv s.
Hypothesis Hts : ts !! t = Some (i :: rest).
Hypothesis Hx : exec c i h = Some (h', pushed).

Lemma step_covered : covered h i.
Proof. apply (inv_covered s); [done|]. by eapply stands_top. Qed.
Lemma step_le : hub_le h h' ∧ (length (hub_deliveries h) ≤ length (hub_deliveries h'))%nat.
Proof.
  split; [by eapply exec_le, Hx; apply step_covered|].
  by destruct (exec_kept c h h' pushed i step_covered Hx) as (_ & ? & _).
Qed.

Lemma sealed_step : sealed s → sealed s' ∧ only_releases h h'.
Proof.
  intros [Hcl Hn]. destruct (exec_sealed c h h' pushed i step_covered Hcl) as [Hp Hr]; [|done|].
  { apply Hn. by eapply stands_top. }
  split; [|done]. destruct step_le as [Hle _]. split; [by eapply le_closed|].
  intros j [Hj|Hj]%(stands_step _ _ _ _ _ _ Hts); [by eapply Forall_forall in Hp|by apply Hn].
Qed.
Lemma drained_step : drained s → drained s'.
Proof. intros [Hs Hc]. destruct (sealed_step Hs) as [Hs' [Hz _]]. split; [done|]. by apply Hz. Qed.

Lemma settled_step d : settled h d → settled h' d.
Proof.
  intros (Hd & Hu & Hw). destruct step_le as [Hle Hlen]. destruct (le_deliveries _ _ Hle d Hd) as [_ _ Hu' Hw' _].
  split; [lia|]. by auto.
Qed.

(** A settled delivery never comes to need a snapshot. *)
Lemma settled_resync d :
  settled h d → d_resyncRequired (delivery h d) = false → d_resyncRequired (delivery h' d) = false.
Proof.
  intros (Hd & Hu & Hw) Hr. destruct step_le as [Hle _]. destruct (le_deliveries _ _ Hle d Hd). auto.
Qed.

Lemma returned_step o : returned_fact s o → returned_fact s' o.
Proof.
  destruct o; cbn; try done.
  - intros Hf He. destruct (Hf He) as [Hs Hr]. split; [by apply settled_step|]. intros ->.
    apply settled_resync; auto.
  - intros Hf He. apply drained_step. auto.
Qed.

Lemma known_step d :
  (d < length (hub_deliveries h))%nat ∧ d_unsubscribed (delivery h d) = true →
  ((d < length (hub_deliveries h'))%nat ∧ d_unsubscribed (delivery h' d) = true)
  ∧ (d_work (delivery h d) = 0 → d_work (delivery h' d) = 0)
  ∧ (0 < d_work (delivery h' d) → 0 < d_work (delivery h d)
     ∧ length (d_idle (delivery h' d)) = length (d_idle (delivery h d))).
Proof.
  intros [Hd Hu]. destruct step_le as [Hle Hlen]. destruct (le_deliveries _ _ Hle d Hd) as [_ _ Hu' Hw Hi].
  split; [split; [lia|auto]|]. split; [auto|]. intros Hpos. split; [|auto].
  pose proof (ok_work _ (delivery_is_ok h d (cov_hub _ _ step_covered) Hd)).
  destruct (decide (d_work (delivery h d) = 0)) as [Hz|]; [|lia]. rewrite Hw in Hpos by auto. lia.
Qed.

(** What a standing instruction knows stays true. *)
Lemma fact_step j : instr_fact s j → instr_fact s' j.
Proof.
  destruct j; cbn -[returned_fact]; try done.
  - apply returned_step.
  - intros Hk. by apply known_step.
  - intros [Hk Hi]. destruct (known_step _ Hk) as (? & _ & Hpos). split; [done|].
    intros Hw. destruct (Hpos Hw) as [? ->]. auto.
  - intros [Hk Hi]. destruct (known_step _ Hk) as (? & Hz & _). split; [done|]. auto.
  - destruct step_le as [Hle _]. apply Hle.
  - intros Hs. by apply sealed_step.
  - intros Hs. by apply sealed_step.
  - intros [Hs Hi]. destruct (sealed_step Hs) as [? [_ Hpos]]. split; [done|].
    intros Hc. destruct (Hpos Hc) as [? ->]. auto.
  - intros Hd ->. by apply drained_step, Hd.
Qed.

(** Nothing is called for a settled delivery, or once the budget is drained. *)
Lemma silent_step d q observer : i = INotify d q observer → settled h d ∨ hub_count h = 0 → False.
Proof.
  intros Hi. pose proof step_covered as Hcov. rewrite Hi in Hcov. intros [(_ & _ & Hw)|Hc].
  - pose proof (cov_work _ _ Hcov d) as H. cbn in H. rewrite same_refl in H.
    pose proof (zlen_nonneg (d_pending (delivery h d))).
    assert (0 ≤ zsum (queued_for h d) (hub_notifications h)) by (apply zsum_nonneg; intros; apply cnt_nonneg). lia.
  - pose proof (cov_remaining _ _ Hcov q) as H. cbn in H. rewrite same_refl in H. unfold remaining_of in H.
    destruct (hub_queued h !! q) as [o|] eqn:E; [|done]. pose proof (cov_count _ _ Hcov) as Hl. cbn in Hl.
    assert (live o ≤ zsum live (hub_queued h)).
    { apply zsum_elem; [intros; apply one_if_nonneg|by eapply list_elem_of_lookup_2]. }
    assert (live o = 1); [|lia]. unfold live. by rewrite (proj2 (Z.ltb_lt _ _)) by lia.
Qed.
End step.

Lemma finish_forall (P : Instr → Prop) h h' d finish resync :
  unsubscribe_at h d = (h', finish, resync) → (∀ q, P (IQueuedDone q)) → P (IFinishWork d) → Forall P finish.
Proof.
  unfold unsubscribe_at. destruct (unsubscribe _) as [[x drop] r]. intros [= _ <- _] Hq Hf.
  induction drop as [|q drop IH]; cbn; [constructor|by repeat constructor].
Qed.
Lemma unsubscribe_at_known h h' d finish resync :
  hub_ok h → (d < length (hub_deliveries h))%nat → unsubscribe_at h d = (h', finish, resync) →
  (d < length (hub_deliveries h'))%nat ∧ d_unsubscribed (delivery h' d) = true.
Proof.
  intros Hh Hd. unfold unsubscribe_at. destruct (unsubscribe (delivery h d)) as [[x drop] r] eqn:E.
  intros [= <- _ _]. apply unsubscribe_ok in E as (_ & Hu & _); [|by apply delivery_is_ok].
  rewrite set_delivery_length. split; [done|]. by rewrite delivery_set_eq.
Qed.

Section pushed.
Context (c : Choice) (h h' : Hub) (ts : list thread) (t : nat) (rest pushed : thread).
Implicit Types i : Instr.

(** What the instructions of a step know. *)
Definition knows i : Prop :=
  hub_inv (mkSystem h ts) → ts !! t = Some (i :: rest) → exec c i h = Some (h', pushed) →
  instr_fact (mkSystem h ts) i → Forall (instr_fact (mkSystem h' (<[t := pushed ++ rest]> ts))) pushed.
End pushed.

Ltac step_facts Hinv Hts Hx :=
  let Hcov := fresh "Hcov" in pose proof (step_covered _ _ _ _ _ Hinv Hts) as Hcov;
  let Hk := fresh "Hsealed" in pose proof (sealed_step _ _ _ _ _ _ _ _ Hinv Hts Hx) as Hk;
  let Hd := fresh "Hdrained" in pose proof (drained_step _ _ _ _ _ _ _ _ Hinv Hts Hx) as Hd.

Lemma knows_call c h h' ts t rest pushed op : knows c h h' ts t rest pushed (ICall op).
Proof.
  intros Hinv Hts Hx _. step_facts Hinv Hts Hx. pose proof (cov_hub _ _ Hcov) as Hh. unfold_exec Hx.
  destruct op; cbn [exec_call] in Hx; exec_cases Hx; try solve [by repeat constructor].
  - by destruct b; repeat constructor.
  - by eapply finish_forall.
  - apply Nat.ltb_lt in E. apply Forall_app. split; [by eapply finish_forall|].
    constructor; [|constructor]. by eapply unsubscribe_at_known.
Qed.

(** The current channel of a delivery that has work. *)
Lemma current_channel (n : Z) l : idle_ok n l → 0 < n → S (pred (length l)) = length l.
Proof. intros [_ Hl] Hn. destruct (Hl Hn) as (k & -> & _). rewrite length_app. cbn. lia. Qed.

Lemma knows_subscription c h h' ts t rest pushed i :
  match i with IWaitWork _ | IWaitIdle _ _ | IWaited _ _ => True | _ => False end →
  knows c h h' ts t rest pushed i.
Proof.
  intros Hi Hinv Hts Hx Hf. step_facts Hinv Hts Hx. pose proof (cov_hub _ _ Hcov) as Hh.
  destruct i; try done; unfold_exec Hx; cbn in Hf; exec_cases Hx; (constructor; [|constructor]); cbn.
  - intros He. destruct Hf. assert (settled h' d) by (split; [done|]; split; [done|lia]).
    split; [done|]. intros Hn. by apply (drain_error_cause None 0).
  - destruct Hf as [Hd Hu]. split; [done|]. intros Hw. by eapply current_channel, Hw; apply delivery_is_ok.
  - destruct Hf as [Hk _]. done.
  - destruct Hf as [[Hd Hu] Hk]. split; [done|]. intros _.
    destruct (delivery_is_ok h' d Hh Hd) as [Hw Hid _ _ _ _ _]. pose proof (idle_closed _ _ _ Hid Hk E0). lia.
  - intros He. destruct Hf as [[Hd Hu] Hz]. destruct (drain_error_cause
      (if (d_work (delivery h' d) =? 0) || negb cancelled then None else Some DeadlineExceeded)
      (d_work (delivery h' d)) (d_resyncRequired (delivery h' d))) as [Hc Hn].
    split; [|done]. split; [done|]. split; [done|]. specialize (Hc He).
    destruct (d_work (delivery h' d) =? 0) eqn:Ew; [lia|]. destruct cancelled; [done|auto].
Qed.

Lemma knows_close c h h' ts t rest pushed i :
  match i with
  | ICloseLock | ICloseEach _ _ | IWaitBudget _ | IWaitBudgetIdle _ _ | ICloseReport _ _ => True
  | _ => False
  end → knows c h h' ts t rest pushed i.
Proof.
  intros Hi Hinv Hts Hx Hf. step_facts Hinv Hts Hx. pose proof (cov_hub _ _ Hcov) as Hh.
  destruct i; try done; unfold_exec Hx; cbn in Hf; exec_cases Hx;
    try (constructor; [|constructor]); cbn; try (by apply Hsealed).
  - done.
  - apply Hsealed. split; [done|]. intros j Hj. cbn in Hj. destruct Hinv as [_ _ Ha _ _]. specialize (Ha AMutex).
    cbn in Ha. rewrite E0 in Ha. pose proof (tsum_zero_stands lk lk_nonneg ts j (eq_sym Ha) Hj). by destruct j.
  - apply Forall_app. split; [by eapply finish_forall|]. constructor; [|constructor]. by apply Hsealed.
  - intros _. apply Hdrained. split; [done|cbn; lia].
  - split; [by apply Hsealed|]. intros Hc. eapply current_channel, Hc. apply Hh.
  - intros He. apply Hdrained. destruct Hf. split; [done|]. cbn. destruct (hub_count h' =? 0) eqn:Ec; [lia|done].
  - intros _. apply Hdrained. destruct Hf as [Hs Hk]. split; [done|]. cbn.
    pose proof (idle_closed _ _ _ (ok_budget_idle _ Hh) Hk E0). pose proof (ok_count _ Hh). lia.
  - intros He. apply Hdrained, Hf. by eapply (drain_error_cause err).
Qed.

Lemma pushed_fact c h h' ts t rest pushed i : knows c h h' ts t rest pushed i.
Proof.
  destruct i; try (by apply knows_subscription); try (by apply knows_close); [apply knows_call|..].
  all: intros Hinv Hts Hx _; generalize (<[t := pushed ++ rest]> ts); intros ts'; unfold_exec Hx;
    exec_cases Hx; try solve [by repeat constructor].
  - unfold append_step, abandon, abandon_unlocked. by repeat case_match; repeat constructor.
  - by destruct b; repeat constructor.
  - by destruct b; repeat constructor.
  - by case_match; repeat constructor.
  - by repeat case_match; repeat constructor.
  - apply Forall_app. split; [|by repeat constructor]. apply Forall_forall.
    by intros ? (op & -> & _)%list_elem_of_fmap.
Qed.

(** ** The invariant of closing *)

Lemma silences_fact s o d : returned_fact s o → silences o d → settled (sys_hub s) d ∨ hub_count (sys_hub s) = 0.
Proof.
  destruct o; cbn; try done.
  - intros Hf [-> He]. left. by apply Hf.
  - intros Hf He. right. by apply Hf.
Qed.

Lemma closing_run c h h' ts t i rest pushed :
  closing_inv (mkSystem h ts) → ts !! t = Some (i :: rest) → exec c i h = Some (h', pushed) →
  closing_inv (mkSystem h' (<[t := pushed ++ rest]> ts)).
Proof.
  intros [Hinv Hf Ht Hs] Hts Hx. pose proof (Hf i (stands_top _ _ _ _ Hts)) as Hfi.
  pose proof (exec_trace c h h' pushed i (step_covered _ _ _ _ _ Hinv Hts) Hx) as Htr.
  pose proof (returned_step _ _ _ _ _ _ _ _ Hinv Hts Hx) as Hret. cbn in *. split; cbn.
  - by eapply run_keeps.
  - intros j [Hj|Hj]%(stands_step _ _ _ _ _ _ Hts); [|by eapply fact_step, Hf].
    pose proof (pushed_fact c h h' ts t rest pushed i Hinv Hts Hx Hfi) as Hp.
    by eapply Forall_forall in Hp.
  - intros o. rewrite Htr. intros [Ho|Ho]%elem_of_app; [by apply Hret, Ht|].
    destruct (emitted_cases i) as [He|[(o' & Hi & He)|(e & q & Hi & He)]]; rewrite He in Ho.
    + by apply elem_of_nil in Ho.
    + apply list_elem_of_singleton in Ho as ->. apply Hret. by rewrite Hi in Hfi.
    + by apply list_elem_of_singleton in Ho as ->.
  - intros t1 o t2 d q Heq Hsil Hin. rewrite Htr in Heq.
    destruct (emitted i) as [|x tail] eqn:Etail; [rewrite app_nil_r in Heq; by eapply Hs|].
    assert (tail = []) as -> by (destruct (emitted_cases i) as [?|[(? & _ & ?)|(? & ? & _ & ?)]]; congruence).
    destruct t2 as [|y t2 _] using rev_ind; [by apply elem_of_nil in Hin|].
    rewrite app_comm_cons, app_assoc in Heq. apply app_inj_tail in Heq as [Heq ->].
    apply elem_of_app in Hin as [Hin|Hy%list_elem_of_singleton]; [by eapply Hs|]. subst y.
    destruct (emitted_cases i) as [?|[(o' & Hi & He)|(e & p & Hi & He)]]; [congruence|..].
    + destruct Hinv as [_ Hio _ _ _]. specialize (Hio _ (stands_top _ _ _ _ Hts)). rewrite Hi in Hio.
      rewrite He in Etail. by injection Etail as ->.
    + rewrite He in Etail. injection Etail as -> ->. eapply (silent_step h ts t i rest Hinv Hts d q true Hi).
      apply (silences_fact (mkSystem h ts) o d); [|done]. apply Ht. cbn. rewrite Heq. set_solver.
Qed.

Lemma closing_step s a s' : closing_inv s → sched_step s a = Some s' → closing_inv s'.
Proof.
  intros Hinv. destruct s as [h ts]. destruct a as [op|t c]; cbn.
  - intros [= <-]. destruct Hinv as [Hinv Hf Ht Hs].
    assert (Hsealed : sealed (mkSystem h ts) → sealed (mkSystem h (ts ++ [[ICall op]]))).
    { intros [Hc Hn]. split; [done|]. intros i [->%list_elem_of_singleton|Hi]%stands_spawn; [done|by apply Hn]. }
    assert (Hret : ∀ o, returned_fact (mkSystem h ts) o → returned_fact (mkSystem h (ts ++ [[ICall op]])) o).
    { intros []; cbn; try done. intros Hd He. destruct (Hd He). split; [by apply Hsealed|done]. }
    split; cbn; [by apply spawn_keeps| |by intros; apply Hret, Ht|done].
    intros i [->%list_elem_of_singleton|Hi]%stands_spawn; [done|]. specialize (Hf i Hi).
    destruct i; cbn in *; try done; try by apply Hsealed.
    + by apply Hret.
    + destruct Hf. split; [by apply Hsealed|done].
    + intros He. destruct (Hf He). split; [by apply Hsealed|done].
  - destruct (ts !! t) as [[|i rest]|] eqn:Hts; try done.
    destruct (exec c i h) as [[h' pushed]|] eqn:Hx; [|done]. intros [= <-]. by eapply closing_run.
Qed.

Lemma reachable_closing maxCount maxBytes s :
  0 ≤ maxCount → 0 ≤ maxBytes → reachable maxCount maxBytes s → closing_inv s.
Proof.
  intros Hc Hb [l Hl]. assert (closing_inv (new_system maxCount maxBytes)) as H0.
  { split; [by apply init_inv|..]; cbn.
    - by intros i (k & Hk%elem_of_nil & _).
    - by intros o Ho%elem_of_nil.
    - intros t1 o t2 d q Heq. by destruct t1. }
  revert H0 Hl. generalize (new_system maxCount maxBytes). induction l as [|a l IH]; intros s0 H0; cbn; [by intros [= <-]|].
  destruct (sched_step s0 a) as [s1|] eqn:E; [|done]. apply IH. by eapply closing_step.
Qed.
