(* ===== verification/ObserverAdmission.v ===== *)
(** Consequences of the invariants of the subscriber state for the properties
    of [ObserverProps], and the admission of the committed observations. *)
From S2P Require Import Prelude Goroutines GoStrings GoJson InteractionTypes ObserverHub ObserverWeights.
From S2P Require Import ObserverViews ObserverExec ObserverLocal.
From S2P Require Import ObserverInvariant ObserverClosing.

(** ** Empty accounts *)

Lemma work_terms s d : hub_inv s →
  d_work (delivery (sys_hub s) d) =
  zlen (d_pending (delivery (sys_hub s) d)) + zsum (queued_for (sys_hub s) d) (hub_notifications (sys_hub s))
  + tsum (wk d) (sys_threads s).
Proof. intros Hinv. pose proof (inv_accounts _ Hinv (AWork d)) as H. cbn in H. unfold work_owed in H. lia. Qed.

Lemma zlen_zero {A} (l : list A) : zlen l = 0 → l = [].
Proof. destruct l; [done|]. rewrite zlen_cons. pose proof (zlen_nonneg l). lia. Qed.

Lemma not_queued_filter h d :
  zsum (queued_for h d) (hub_notifications h) = 0 →
  filter (fun q => d ∈ observers_of h q) (hub_notifications h) = [].
Proof.
  intros Hz. assert (∀ q, q ∈ hub_notifications h → d ∉ observers_of h q) as Hn.
  { intros q Hq. apply cnt_zero.
    apply (zsum_zero_elem (queued_for h d) _ _ (fun q _ => cnt_nonneg _ _) Hz Hq). }
  clear Hz. revert Hn. induction (hub_notifications h) as [|q l IH]; intros Hn; [done|].
  rewrite filter_cons_False by (apply Hn; by left). apply IH. intros. apply Hn. by right.
Qed.

(** With no work left everything accepted was delivered, or dropped by a
    delivery that says so. *)
Lemma no_work_delivered s d :
  hub_inv s → d_work (delivery (sys_hub s) d) = 0 → d_resyncRequired (delivery (sys_hub s) d) = false →
  calls_of d (hub_trace (sys_hub s)) = accepted d (sys_hub s).
Proof.
  intros Hinv Hw Hr. pose proof (work_terms s d Hinv) as Ht. rewrite Hw in Ht.
  pose proof (zlen_nonneg (d_pending (delivery (sys_hub s) d))).
  assert (0 ≤ zsum (queued_for (sys_hub s) d) (hub_notifications (sys_hub s)))
    by (apply zsum_nonneg; intros; apply cnt_nonneg).
  pose proof (tsum_nonneg (wk d) (wk_nonneg d) (sys_threads s)).
  rewrite <- (inv_order _ Hinv d Hr). unfold sequence.
  rewrite (zlen_zero (d_pending _)), not_queued_filter by lia.
  rewrite (tcat_empty (inflight d)), (tcat_empty (transit d)), !app_nil_r; [done|..].
  - intros i Hi. pose proof (tsum_zero_stands (wk d) (wk_nonneg d) (sys_threads s) i ltac:(lia) Hi) as Hz.
    destruct i; try done. cbn in *. rewrite decide_False; [done|by apply cnt_zero].
  - intros i Hi. pose proof (tsum_zero_stands (wk d) (wk_nonneg d) (sys_threads s) i ltac:(lia) Hi) as Hz.
    destruct i; try done. cbn in *. unfold same, one_if in Hz. case_bool_decide; [done|]. by rewrite decide_False.
Qed.

(** ** The budget is empty *)

Lemma remaining_terms s q : hub_inv s →
  remaining_of (sys_hub s) q =
  zsum (fun x => cnt q (d_pending x)) (hub_deliveries (sys_hub s))
  + users_of (sys_hub s) q * cnt q (hub_notifications (sys_hub s)) + tsum (rm q) (sys_threads s).
Proof. intros Hinv. pose proof (inv_accounts _ Hinv (ARemaining q)) as H. cbn in H. unfold remaining_owed in H. lia. Qed.

Lemma no_count_remaining s q : hub_inv s → hub_count (sys_hub s) = 0 → remaining_of (sys_hub s) q ≤ 0.
Proof.
  intros Hinv Hc. pose proof (inv_accounts _ Hinv ACount) as H. cbn in H. unfold count_owed in H.
  pose proof (tsum_nonneg bc bc_nonneg (sys_threads s)).
  unfold remaining_of. destruct (hub_queued (sys_hub s) !! q) as [o|] eqn:E; [|done].
  pose proof (zsum_elem live (hub_queued (sys_hub s)) o (fun x _ => proj1 (one_if_nonneg _))
                (list_elem_of_lookup_2 _ _ _ E)) as Hl.
  unfold live in Hl. destruct (0 <? q_remaining o) eqn:Eq; [cbn in Hl; unfold live in *; lia|lia].
Qed.

(** Nothing accepted is on its way any more. *)
Lemma no_count_delivered s d :
  hub_inv s → hub_count (sys_hub s) = 0 → d_resyncRequired (delivery (sys_hub s) d) = false →
  calls_of d (hub_trace (sys_hub s)) = accepted d (sys_hub s).
Proof.
  intros Hinv Hc Hr.
  assert (Hz : ∀ q, zsum (fun x => cnt q (d_pending x)) (hub_deliveries (sys_hub s)) ≤ 0
            ∧ cnt q (hub_notifications (sys_hub s)) ≤ 0 ∧ tsum (rm q) (sys_threads s) ≤ 0).
  { intros q. pose proof (remaining_terms s q Hinv). pose proof (no_count_remaining s q Hinv Hc).
    pose proof (tsum_nonneg (rm q) (rm_nonneg q) (sys_threads s)).
    pose proof (cnt_nonneg q (hub_notifications (sys_hub s))).
    assert (0 ≤ zsum (fun x => cnt q (d_pending x)) (hub_deliveries (sys_hub s)))
      by (apply zsum_nonneg; intros; apply cnt_nonneg).
    unfold users_of in *. pose proof (zlen_nonneg (observers_of (sys_hub s) q)). split; [|split]; nia. }
  rewrite <- (inv_order _ Hinv d Hr). unfold sequence.
  assert (Hthreads : ∀ i q, stands (sys_threads s) i → rm q i = 0).
  { intros i q Hi. destruct (Hz q) as (_ & _ & H). pose proof (tsum_nonneg (rm q) (rm_nonneg q) (sys_threads s)).
    apply (tsum_zero_stands (rm q) (rm_nonneg q) (sys_threads s)); [lia|done]. }
  rewrite (tcat_empty (inflight d)), (tcat_empty (transit d)).
  - assert (hub_notifications (sys_hub s) = []) as ->.
    { destruct (hub_notifications (sys_hub s)) as [|q l]; [done|]. destruct (Hz q) as (_ & H & _).
      rewrite cnt_cons, same_refl in H. pose proof (cnt_nonneg q l). lia. }
    assert (d_pending (delivery (sys_hub s) d) = []) as ->; [|by rewrite !app_nil_r].
    destruct (decide (d < length (hub_deliveries (sys_hub s)))%nat) as [Hd|]; [|by rewrite delivery_out by lia].
    destruct (d_pending (delivery (sys_hub s) d)) as [|q l] eqn:Ep; [done|]. destruct (Hz q) as (H & _ & _).
    pose proof (zsum_elem (fun x => cnt q (d_pending x)) (hub_deliveries (sys_hub s)) (delivery (sys_hub s) d)
                  (fun x _ => cnt_nonneg _ _) (list_elem_of_lookup_2 _ _ _ (delivery_lookup _ _ Hd))) as He.
    cbn in He. rewrite Ep, cnt_cons, same_refl in He. pose proof (cnt_nonneg q l). lia.
  - intros i Hi. destruct i; try done. specialize (Hthreads _ q Hi). cbn in Hthreads. rewrite same_refl in Hthreads.
    pose proof (zlen_nonneg todo). lia.
  - intros i Hi. destruct i; try done. specialize (Hthreads _ q Hi). cbn in Hthreads. by rewrite same_refl in Hthreads.
Qed.

(** ** Order *)

Lemma active_complete s d : hub_inv s → d_active (delivery (sys_hub s) d) = true →
  d_resyncRequired (delivery (sys_hub s) d) = false.
Proof.
  intros Hinv Ha. destruct (decide (d < length (hub_deliveries (sys_hub s)))%nat) as [Hd|];
    [|by rewrite delivery_out in Ha by lia].
  destruct (delivery_is_ok _ d (inv_hub _ Hinv) Hd) as [_ _ Hc Hr _ _ _].
  destruct (d_resyncRequired _); [|done]. destruct (Hc (Hr eq_refl)) as (_ & Hn & _). congruence.
Qed.

Lemma calls_prefix s d : hub_inv s → calls_of d (hub_trace (sys_hub s)) `prefix_of` accepted d (sys_hub s).
Proof.
  intros Hinv. destruct (d_active (delivery (sys_hub s) d)) eqn:Ha.
  - rewrite <- (inv_order _ Hinv d (active_complete s d Hinv Ha)). by eexists.
  - rewrite (inv_gated _ Hinv d Ha). apply prefix_nil.
Qed.

(** The callbacks of [d] that have begun and have not returned. *)
Definition running (d : nat) (i : Instr) : list nat :=
  match i with INotified e q => if decide (e = d) then [q] else [] | _ => [] end.

Lemma running_count d k : zlen (mjoin (running d <$> k)) ≤ zsum (tokd d) k.
Proof.
  induction k as [|i k IH]; [done|].
  change (mjoin (running d <$> i :: k)) with (running d i ++ mjoin (running d <$> k)).
  rewrite zlen_app, zsum_cons. assert (zlen (running d i) ≤ tokd d i); [|lia].
  destruct i; cbn; try done; try apply same_nonneg. unfold same, one_if. by repeat case_decide.
Qed.
Lemma running_once s d : hub_inv s → zlen (tcat (running d) (sys_threads s)) ≤ 1.
Proof.
  intros Hinv. destruct (tsum_tokens s d Hinv) as [Ht _]. etrans; [|exact Ht]. clear.
  induction (sys_threads s) as [|k ts IH]; [done|]. rewrite tcat_cons, zlen_app.
  unfold tsum in *. rewrite zsum_cons. pose proof (running_count d k). lia.
Qed.

(** ** Quiescence *)

Definition quiescent (s : System) : Prop := Forall (eq []) (sys_threads s).

Lemma quiescent_sum s w : quiescent s → tsum w (sys_threads s) = 0.
Proof.
  intros Hq. apply zsum_zero. intros k Hk. eapply Forall_forall in Hq as <-; done.
Qed.

Lemma quiescent_queues s d : hub_inv s → quiescent s →
  hub_notifications (sys_hub s) = []
  ∧ (d_active (delivery (sys_hub s) d) = true ∨ d_closed (delivery (sys_hub s) d) = true →
     d_pending (delivery (sys_hub s) d) = []).
Proof.
  intros Hinv Hq. split.
  - pose proof (inv_accounts _ Hinv ANotifying) as H. cbn in H. rewrite quiescent_sum in H by done.
    pose proof (ok_notify _ (inv_hub _ Hinv)) as Hn. destruct (hub_notifications _); [done|].
    by rewrite Hn in H by done.
  - destruct (decide (d < length (hub_deliveries (sys_hub s)))%nat) as [Hd|]; [|by rewrite delivery_out by lia].
    destruct (delivery_is_ok _ d (inv_hub _ Hinv) Hd) as [_ _ Hc _ _ Hp _].
    intros [Ha|Hcl]; [|by apply Hc]. pose proof (inv_accounts _ Hinv (ADrainer d)) as H. cbn in H.
    rewrite quiescent_sum in H by done. destruct (d_pending _); [done|]. by rewrite Hp in H by done.
Qed.

Lemma quiescent_delivered s d : hub_inv s → quiescent s → d_active (delivery (sys_hub s) d) = true →
  calls_of d (hub_trace (sys_hub s)) = accepted d (sys_hub s).
Proof.
  intros Hinv Hq Ha. destruct (quiescent_queues s d Hinv Hq) as [Hn Hp].
  rewrite <- (inv_order _ Hinv d (active_complete s d Hinv Ha)). unfold sequence. rewrite Hn, Hp by (by left).
  assert (∀ f : Instr → list nat, tcat f (sys_threads s) = []) as Hz.
  { intros f. apply tcat_empty. intros i (k & Hk & Hi). pose proof (proj1 (Forall_forall _ _) Hq k Hk) as Hnil.
    rewrite <- Hnil in Hi. by apply elem_of_nil in Hi. }
  by rewrite !Hz, !app_nil_r.
Qed.

Lemma quiescent_budget s : hub_inv s → quiescent s →
  (∀ d, d_active (delivery (sys_hub s) d) = true ∨ d_pending (delivery (sys_hub s) d) = []) →
  hub_count (sys_hub s) = 0 ∧ hub_bytes (sys_hub s) = 0.
Proof.
  intros Hinv Hq Hall.
  assert (Hrem : ∀ q, remaining_of (sys_hub s) q = 0).
  { intros q. rewrite remaining_terms, (proj1 (quiescent_queues s 0 Hinv Hq)), quiescent_sum by done.
    rewrite (zsum_zero (fun x => cnt q (d_pending x))); [rewrite cnt_nil; lia|]. intros x Hx.
    apply list_elem_of_lookup in Hx as [d Hd].
    assert (delivery (sys_hub s) d = x) as <-
      by (unfold delivery; by apply list_lookup_total_correct).
    destruct (Hall d) as [Ha|Hp]; [|by rewrite Hp].
    destruct (quiescent_queues s d Hinv Hq) as [_ Hp]. by rewrite Hp by (by left). }
  assert (Hlive : ∀ o, o ∈ hub_queued (sys_hub s) → live o = 0).
  { intros o Ho. apply list_elem_of_lookup in Ho as [q Hq']. specialize (Hrem q). unfold remaining_of in Hrem.
    rewrite Hq' in Hrem. unfold live. by rewrite Hrem. }
  pose proof (inv_accounts _ Hinv ACount) as Hc. pose proof (inv_accounts _ Hinv ABytes) as Hb. cbn in Hc, Hb.
  rewrite quiescent_sum in Hc, Hb by done. unfold count_owed, bytes_owed in *.
  rewrite (zsum_zero live) in Hc by done.
  rewrite (zsum_zero live_bytes) in Hb by (intros o Ho; unfold live_bytes; by rewrite Hlive).
  lia.
Qed.

Lemma calls_of_none d t : (∀ q, Called d q ∉ t) → calls_of d t = [].
Proof.
  induction t as [|o t IH]; intros Hn; [done|]. unfold calls_of in *. cbn.
  rewrite IH by (intros q Hq; apply (Hn q); by right).
  destruct o; cbn; try done. rewrite decide_False; [done|]. intros ->. apply (Hn q). by left.
Qed.

(** What had been delivered when a value was returned. *)
Lemma silent_calls s d t1 o t2 :
  closing_inv s → hub_trace (sys_hub s) = t1 ++ o :: t2 → silences o d →
  (∀ q, Called d q ∉ t2) ∧ calls_of d (hub_trace (sys_hub s)) = calls_of d t1.
Proof.
  intros Hcl Htr Hs. assert (∀ q, Called d q ∉ t2) as Hn by (intros q; by eapply cl_silent).
  split; [done|]. rewrite Htr. unfold calls_of. rewrite omap_app. cbn.
  pose proof (calls_of_none d t2 Hn) as Ht2. unfold calls_of in Ht2. rewrite Ht2.
  destruct o; try done; by rewrite app_nil_r.
Qed.

(** * Admission

    Admission of the committed observations: a batch that is under way covers
    every delivery that is subscribed, because the registry's mutex keeps a
    subscriber from joining meanwhile. *)

Definition subscribed_at (h : Hub) (d : nat) : Prop :=
  (d < length (hub_deliveries h))%nat ∧ d_unsubscribed (delivery h d) = false.
Definition covers (h : Hub) (l : list nat) : Prop := ∀ d, subscribed_at h d → d ∈ l.

Definition batch_fact (h : Hub) (i : Instr) : Prop :=
  match i with
  | ICompact todo kept _ => covers h (kept ++ todo)
  | IBeginAdmission _ todo obs => hub_closed h = true ∨ covers h (obs ++ todo)
  | IAppend _ _ obs _ _ _ | IReserve obs _ _ | ISave obs _ _ | IPublish obs _ _ =>
      hub_closed h = true ∨ covers h obs
  | IAddWork added todo _ _ => hub_closed h = true ∨ covers h (added ++ todo)
  | _ => True
  end.

Record admission_inv (s : System) : Prop := {
  ad_inv : hub_inv s;
  ad_observers : covers (sys_hub s) (hub_observers (sys_hub s));
  ad_batches : ∀ i, stands (sys_threads s) i → batch_fact (sys_hub s) i }.

(** An instruction that holds the whole of an account is alone with it. *)
Lemma stands_only (w : Instr → Z) (ts : list thread) t i (rest pushed : thread) j :
  (∀ i, 0 ≤ w i) → ts !! t = Some (i :: rest) →
  tsum w (<[t := pushed ++ rest]> ts) ≤ zsum w pushed → stands (<[t := pushed ++ rest]> ts) j → 0 < w j →
  j ∈ pushed.
Proof.
  intros Hw Ht. pose proof (lookup_lt_Some _ _ _ Ht) as Hlt.
  rewrite (insert_take_drop ts t (pushed ++ rest) Hlt). unfold tsum. rewrite zsum_app, zsum_cons, zsum_app.
  pose proof (tsum_nonneg w Hw (take t ts)) as H1. pose proof (tsum_nonneg w Hw (drop (S t) ts)) as H2.
  pose proof (weights_nonneg w Hw rest) as H3. intros Hle (k & Hk & Hj) Hpos. unfold tsum in *.
  apply elem_of_app in Hk as [Hk|[->|Hk]%elem_of_cons].
  - pose proof (tsum_stands w Hw (take t ts) j ltac:(by exists k)). unfold tsum in *. lia.
  - apply elem_of_app in Hj as [|Hj]; [done|]. pose proof (zsum_elem w rest j ltac:(auto) Hj). lia.
  - pose proof (tsum_stands w Hw (drop (S t) ts) j ltac:(by exists k)). unfold tsum in *. lia.
Qed.

Lemma covers_le h h' l :
  hub_le h h' → length (hub_deliveries h') = length (hub_deliveries h) → covers h l → covers h' l.
Proof.
  intros Hle Hn Hc d [Hd Hu]. rewrite Hn in Hd. apply Hc. split; [done|].
  destruct (le_deliveries _ _ Hle d Hd) as [_ _ Hun _ _ _].
  destruct (d_unsubscribed (delivery h d)); [|done]. by rewrite Hun in Hu.
Qed.
Lemma batch_fact_le h h' i :
  hub_le h h' → length (hub_deliveries h') = length (hub_deliveries h) → batch_fact h i → batch_fact h' i.
Proof.
  intros Hle Hn. pose proof (le_closed _ _ Hle). pose proof (fun l => covers_le h h' l Hle Hn).
  destruct i; cbn; try done; naive_solver.
Qed.
Lemma batch_fact_unlocked h i : lk i = 0 → batch_fact h i.
Proof. by destruct i. Qed.

Ltac each := repeat (apply Forall_cons; split; [done|]); by apply Forall_nil.

Section exec.
Context (c : Choice) (h h' : Hub) (pushed : thread).

(** Only a subscriber that is admitted makes a new delivery. *)
Lemma exec_deliveries i :
  covered h i → exec c i h = Some (h', pushed) →
  length (hub_deliveries h') = length (hub_deliveries h)
  ∨ ∃ kept active, i = ICompact [] kept (ForSubscribe active)
      ∧ hub_observers h' = kept ++ [length (hub_deliveries h)]
      ∧ length (hub_deliveries h') = S (length (hub_deliveries h))
      ∧ pushed = [IUnlock; IReturn (SubscribeReturned (Ok (length (hub_deliveries h))))].
Proof.
  intros Hcov Hx. pose proof (cov_hub _ _ Hcov) as Hh. pose proof (cov_instr _ _ Hcov) as Hi.
  assert (∀ d finish r h2, unsubscribe_at h d = (h2, finish, r) → length (hub_deliveries h2) = length (hub_deliveries h)) as Hu.
  { intros d finish r h2. unfold unsubscribe_at. destruct (unsubscribe _) as [[x drop] r']. intros [= <- _ _].
    apply set_delivery_length. }
  destruct i; unfold_exec Hx; cbn [exec_call] in Hx; cbn in Hi; exec_cases Hx; rewrite ?set_delivery_length; try (by left).
  - left. destruct op; cbn [exec_call] in Hx; exec_cases Hx; rewrite ?set_delivery_length; try done; by eapply Hu.
  - right. exists kept, active. cbn. rewrite length_app. cbn. repeat split. lia.
  - left. destruct Hi as [_ Hi]. apply reserve_ok in E as (_ & -> & _); [done|done|lia|by eapply items_bytes].
  - left. unfold release. by repeat case_match.
  - left. by rewrite (publish_deliveries _ _ _ _ E).
  - left. unfold finish_work. case_match; [apply set_delivery_length|done].
  - left. unfold release. by repeat case_match.
  - left. unfold finish_work. case_match; [apply set_delivery_length|done].
  - left. by eapply Hu.
Qed.

(** What the next instructions of a batch know, of the state before the step. *)
Lemma exec_batch i :
  exec c i h = Some (h', pushed) → covers h (hub_observers h) → batch_fact h i → Forall (batch_fact h) pushed.
Proof.
  intros Hx Ho Hf.
  assert (Hfinish : ∀ d h2 finish r, unsubscribe_at h d = (h2, finish, r) → Forall (batch_fact h) finish).
  { intros d h2 finish r. unfold unsubscribe_at. destruct (unsubscribe _) as [[x drop] r']. intros [= _ <- _].
    induction drop as [|q drop IH]; cbn; [constructor|by repeat constructor]. }
  destruct i; unfold_exec Hx; cbn in Hf; exec_cases Hx; try solve [each].
  - destruct op; cbn [exec_call] in Hx; exec_cases Hx; try solve [each].
    + by destruct b; repeat constructor.
    + by eapply Hfinish.
    + apply Forall_app. split; [by eapply Hfinish|by repeat constructor].
  - constructor; [|constructor]. cbn. case_match; [by rewrite <- app_assoc|]. intros d Hd.
    specialize (Hf d Hd). destruct Hd as [_ Hu]. apply elem_of_app.
    apply elem_of_app in Hf as [?|[->|?]%elem_of_cons]; [by left| |by right]. unfold subscribed in *. by rewrite Hu in *.
  - constructor; [|constructor]. cbn. destruct (hub_closed h') eqn:E; [by left|by right].
  - constructor; [|constructor]. cbn. by rewrite app_nil_r in Hf.
  - constructor; [|constructor]. cbn. by rewrite <- app_assoc.
  - constructor; [|constructor]. cbn. destruct Hf as [?|Hf]; [by left|right]. intros d Hd. specialize (Hf d Hd).
    unfold beginAdmission in *. destruct Hd as [_ Hu]. apply elem_of_app.
    apply elem_of_app in Hf as [?|[->|?]%elem_of_cons]; [by left| |by right]. by rewrite Hu in *.
  - unfold append_step, abandon, abandon_unlocked. repeat case_match; each.
  - constructor; [|constructor]. cbn. by rewrite app_nil_r in Hf.
  - constructor; [|constructor]. cbn. by rewrite <- app_assoc.
  - destruct b; each.
  - by destruct b; repeat constructor.
  - by case_match; repeat constructor.
  - by repeat case_match; repeat constructor.
  - apply Forall_app. split; [|by repeat constructor]. apply Forall_forall.
    by intros ? (op & -> & _)%list_elem_of_fmap.
  - apply Forall_app. split; [by eapply Hfinish|by repeat constructor].
Qed.

(** Only the end of a compaction changes the list of observers. *)
Lemma exec_observers i :
  covered h i → exec c i h = Some (h', pushed) →
  hub_observers h' = hub_observers h ∨ ∃ kept k, i = ICompact [] kept k
    ∧ hub_observers h' = kept ++ match k with ForWrite _ => [] | ForSubscribe _ => [length (hub_deliveries h)] end.
Proof.
  intros Hcov Hx. pose proof (cov_hub _ _ Hcov) as Hh. pose proof (cov_instr _ _ Hcov) as Hi.
  assert (Hu : ∀ d finish r h2, unsubscribe_at h d = (h2, finish, r) → hub_observers h2 = hub_observers h).
  { intros d finish r h2. unfold unsubscribe_at. destruct (unsubscribe _) as [[x drop] r']. by intros [= <- _ _]. }
  destruct i; unfold_exec Hx; cbn [exec_call] in Hx; cbn in Hi; exec_cases Hx; try (by left).
  - left. destruct op; cbn [exec_call] in Hx; exec_cases Hx; try done; by eapply Hu.
  - right. eexists _, _. split; [done|]. by rewrite app_nil_r.
  - right. eexists _, _. by split.
  - left. destruct Hi as [_ Hi]. apply reserve_ok in E as (_ & -> & _); [done|done|lia|by eapply items_bytes].
  - left. unfold release. by repeat case_match.
  - left. by destruct (publish_fields _ _ _ _ E) as (-> & _).
  - left. unfold finish_work. by case_match.
  - left. unfold release. by repeat case_match.
  - left. unfold finish_work. by case_match.
  - left. by eapply Hu.
Qed.
End exec.

Lemma admission_run c h h' ts t i rest pushed :
  admission_inv (mkSystem h ts) → ts !! t = Some (i :: rest) → exec c i h = Some (h', pushed) →
  admission_inv (mkSystem h' (<[t := pushed ++ rest]> ts)).
Proof.
  intros [Hinv Ho Hf] Hts Hx. cbn in *. pose proof (stands_top _ _ _ _ Hts) as Htop.
  pose proof (inv_covered _ i Hinv Htop) as Hcov. cbn in Hcov.
  pose proof (exec_le _ _ _ _ _ Hcov Hx) as Hle. pose proof (run_keeps _ _ _ _ _ _ _ _ Hinv Hts Hx) as Hinv'.
  pose proof (exec_batch c h h' pushed i Hx Ho (Hf i Htop)) as Hp.
  destruct (exec_deliveries c h h' pushed i Hcov Hx) as [Hn|(kept & active & -> & Hobs & Hn & ->)].
  - split; cbn; [done| |].
    + destruct (exec_observers c h h' pushed i Hcov Hx) as [->|(kept & k & -> & ->)]; [by eapply covers_le|].
      destruct k; [rewrite app_nil_r; eapply covers_le; [done|done|]; specialize (Hf _ Htop); cbn in Hf; by rewrite app_nil_r in Hf|].
      exfalso. unfold_exec Hx. exec_cases Hx. cbn in Hn. rewrite length_app in Hn. cbn in Hn. lia.
    + intros j [Hj|Hj]%(stands_step _ _ _ _ _ _ Hts).
      * eapply Forall_forall in Hp; [|done]. by eapply batch_fact_le.
      * by eapply batch_fact_le, Hf.
  - pose proof (Hf _ Htop) as Hkept. cbn in Hkept. rewrite app_nil_r in Hkept. split; cbn; [done| |].
    + rewrite Hobs. intros d [Hd Hu]. rewrite Hn in Hd. apply elem_of_app.
      destruct (decide (d = length (hub_deliveries h))) as [->|]; [right; by left|left]. apply Hkept.
      assert (d < length (hub_deliveries h))%nat as Hd' by lia. split; [done|].
      destruct (le_deliveries _ _ Hle d Hd') as [_ _ Hun _ _ _]. destruct (d_unsubscribed (delivery h d)); [|done].
      by rewrite Hun in Hu.
    + intros j Hj. destruct (decide (lk j = 0)) as [|Hne]; [by apply batch_fact_unlocked|].
      pose proof (lk_nonneg j). pose proof (inv_accounts _ Hinv' AMutex) as Ha. cbn in Ha.
      assert (j ∈ [IUnlock; IReturn (SubscribeReturned (Ok (length (hub_deliveries h))))]) as Hj'.
      { eapply (stands_only lk ts t); [apply lk_nonneg|done| |done|lia].
        etrans; [exact (Z.eq_le_incl _ _ (eq_sym Ha))|]. apply one_if_nonneg. }
      apply elem_of_cons in Hj' as [->|Hj'%list_elem_of_singleton]; [done|by subst].
Qed.

Lemma reachable_admission maxCount maxBytes s :
  0 ≤ maxCount → 0 ≤ maxBytes → reachable maxCount maxBytes s → admission_inv s.
Proof.
  intros Hc Hb [l Hl]. assert (admission_inv (new_system maxCount maxBytes)) as H0.
  { split; [by apply init_inv|..]; cbn.
    - intros d [Hd _]. cbn in Hd. lia.
    - by intros i (k & Hk%elem_of_nil & _). }
  revert H0 Hl. generalize (new_system maxCount maxBytes). induction l as [|a l IH]; intros s0 H0; cbn; [by intros [= <-]|].
  destruct (sched_step s0 a) as [s1|] eqn:E; [|done]. apply IH. clear IH. destruct s0 as [h ts], a as [op|t c]; cbn in E.
  - injection E as <-. destruct H0 as [Hinv Ho Hf]. split; [by apply spawn_keeps|done|].
    intros i [->%list_elem_of_singleton|Hi]%stands_spawn; [done|by apply Hf].
  - destruct (ts !! t) as [[|i rest]|] eqn:Hts; try done.
    destruct (exec c i h) as [[h' pushed]|] eqn:Hx; [|done]. injection E as <-. by eapply admission_run.
Qed.

(** ** Commits *)

(** The accepted observations only change when a batch is published. *)
Lemma exec_accepted c h h' pushed i d :
  covered h i → exec c i h = Some (h', pushed) →
  (∀ e, accepted e h' = accepted e h) ∧ length (hub_queued h') = length (hub_queued h)
  ∨ ∃ obs items bytes, i = IPublish obs items bytes
      ∧ length (hub_queued h') = (length (hub_queued h) + length items)%nat
      ∧ accepted d h' = accepted d h ++
          (if decide (d ∈ obs) then seq (length (hub_queued h)) (length items) else []).
Proof.
  intros Hcov Hx. pose proof (cov_hub _ _ Hcov) as Hh. pose proof (cov_instr _ _ Hcov) as Hi.
  assert (Hu : ∀ d finish r h2, unsubscribe_at h d = (h2, finish, r) → hub_queued h2 = hub_queued h).
  { intros e finish r h2. unfold unsubscribe_at. destruct (unsubscribe _) as [[x drop] r']. by intros [= <- _ _]. }
  assert (Hq : ∀ h2, hub_queued h2 = hub_queued h → (∀ e, accepted e h2 = accepted e h) ∧ length (hub_queued h2) = length (hub_queued h)).
  { intros h2 Hq. unfold accepted, observers_of. by rewrite Hq. }
  destruct i; unfold_exec Hx; cbn [exec_call] in Hx; cbn in Hi; exec_cases Hx; try (left; by apply Hq).
  - left. apply Hq. destruct op; cbn [exec_call] in Hx; exec_cases Hx; try done; by eapply Hu.
  - left. apply Hq. destruct Hi as [_ Hi]. apply reserve_ok in E as (_ & -> & _); [done|done|lia|by eapply items_bytes].
  - left. apply Hq. unfold release. by repeat case_match.
  - right. exists obs, items, bytes. destruct Hi as [_ [Hi _]]. split; [done|].
    assert (Hitems : Forall (fun o => q_observers o = obs) items) by (eapply Forall_impl; [done|]; naive_solver).
    rewrite (publish_queued _ _ _ _ E), length_app. split; [done|]. unfold accepted.
    rewrite (publish_queued _ _ _ _ E), length_app, seq_app, filter_app. f_equal.
    + apply list_filter_iff'. intros q [_ ?]%elem_of_seq. by rewrite (publish_observers_old _ _ _ _ E).
    + assert (∀ l, (∀ q, q ∈ l → observers_of h' q = obs) →
        filter (fun q => d ∈ observers_of h' q) l = if decide (d ∈ obs) then l else []) as Hl.
      { induction l as [|q l IH]; intros Hl; [by case_decide|]. rewrite filter_cons, (Hl q), IH by (intros; try apply Hl; set_solver).
        by case_decide. }
      apply Hl. intros q Hin. by apply (publish_observers_new _ _ _ _ E).
  - left. apply Hq. unfold finish_work. by case_match.
  - left. apply Hq. unfold release. by repeat case_match.
  - left. split; [|apply length_insert]. intros e. apply accepted_same; [apply length_insert|].
    intros p. unfold observers_of. cbn. destruct (decide (p = q)) as [->|].
    + rewrite list_lookup_insert_eq, E by (by eapply lookup_lt_Some). done.
    + by rewrite list_lookup_insert_ne.
  - left. apply Hq. unfold finish_work. by case_match.
  - left. apply Hq. by eapply Hu.
Qed.
