(* ===== verification/ObserverTermination.v ===== *)
(** Liveness of the subscriber state: no goroutine waits for ever for the mutex
    of the registry; and when the callbacks make no calls every schedule ends,
    so that what was accepted is delivered. *)
From S2P Require Import Prelude Goroutines GoStrings GoJson InteractionTypes ObserverHub ObserverWeights.
From S2P Require Import ObserverViews ObserverExec ObserverLocal.
From S2P Require Import ObserverInvariant ObserverAdmission.

(** ** The holder of the mutex runs *)

(** Above an instruction that holds the mutex stand only the releases of a
    batch's admissions. *)
Definition releasing (i : Instr) : Prop := match i with IReleaseAdmissions _ => True | _ => False end.
Fixpoint stack_ok (k : thread) : Prop :=
  match k with
  | [] => True
  | i :: rest => (zsum lk rest = 0 ∨ releasing i) ∧ stack_ok rest
  end.

Lemma stack_ok_app k l : stack_ok k → zsum lk l = 0 → stack_ok l → stack_ok (k ++ l).
Proof.
  induction k as [|i k IH]; [done|]. intros [Hi Hk] Hz Hl. cbn. split; [|by apply IH].
  destruct Hi as [Hi|]; [left|by right]. rewrite zsum_app. lia.
Qed.
Lemma stack_ok_unlocked k : zsum lk k = 0 → stack_ok k.
Proof.
  induction k as [|i k IH]; [done|]. rewrite zsum_cons. intros Hz. pose proof (lk_nonneg i).
  pose proof (weights_nonneg lk lk_nonneg k). cbn. split; [left; lia|]. apply IH. lia.
Qed.

Lemma finish_unlocked h d h' finish resync : unsubscribe_at h d = (h', finish, resync) → zsum lk finish = 0.
Proof.
  unfold unsubscribe_at. destruct (unsubscribe _) as [[x drop] r]. intros [= _ <- _].
  rewrite finish_weights. by apply zsum_zero.
Qed.

Ltac stack := cbn; repeat split; first [left; reflexivity|right; exact I].

Lemma exec_stack c h h' pushed i :
  exec c i h = Some (h', pushed) →
  stack_ok pushed ∧ (releasing i → pushed = [] ∨ ∃ todo, pushed = [IReleaseAdmissions todo]).
Proof.
  intros Hx. destruct i; unfold_exec Hx; exec_cases Hx; (split; [|cbn; eauto; done]); try solve [stack].
  - destruct op; cbn [exec_call] in Hx; exec_cases Hx; try solve [stack].
    + destruct b; stack.
    + by apply stack_ok_unlocked; eapply finish_unlocked.
    + apply stack_ok_unlocked. rewrite zsum_app. erewrite finish_unlocked by done. done.
  - unfold append_step, abandon, abandon_unlocked. repeat case_match; stack.
  - destruct b; stack.
  - destruct b; stack.
  - case_match; stack.
  - repeat case_match; stack.
  - apply stack_ok_unlocked. rewrite zsum_app. pose proof (calls_weights (ch_calls c) AMutex) as Hw. cbn in Hw. by rewrite Hw.
  - apply stack_ok_unlocked. rewrite zsum_app. erewrite finish_unlocked by done. done.
Qed.

Lemma step_stacks s a s' :
  Forall stack_ok (sys_threads s) → sched_step s a = Some s' → Forall stack_ok (sys_threads s').
Proof.
  destruct s as [h ts], a as [op|t c]; cbn.
  - intros Hs [= <-]. cbn. apply Forall_app. split; [done|]. constructor; [|done]. cbn. auto.
  - intros Hs. destruct (ts !! t) as [[|i rest]|] eqn:Hts; try done.
    destruct (exec c i h) as [[h' pushed]|] eqn:Hx; [|done]. intros [= <-]. cbn.
    apply Forall_insert; [done|]. destruct (Forall_lookup_1 _ _ _ _ Hs Hts) as [Hi Hrest].
    destruct (exec_stack c h h' pushed i Hx) as [Hp Hr].
    destruct Hi as [Hz|Hi]; [by apply stack_ok_app|].
    destruct (Hr Hi) as [->|[todo ->]]; [done|]. cbn. auto.
Qed.

Lemma reachable_stacks maxCount maxBytes s : reachable maxCount maxBytes s → Forall stack_ok (sys_threads s).
Proof.
  intros [l Hl]. assert (Forall stack_ok (sys_threads (new_system maxCount maxBytes))) as H0 by constructor.
  revert H0 Hl. generalize (new_system maxCount maxBytes). induction l as [|a l IH]; intros s0 H0; cbn; [by intros [= <-]|].
  destruct (sched_step s0 a) as [s1|] eqn:E; [|done]. apply IH. by eapply step_stacks.
Qed.

(** A step that takes the first way out of every wait and calls nothing. *)
Definition impatient : Choice := mkChoice (Some ErrStoreBusy) [].

Lemma exec_impatient i h :
  exec impatient i h = None → hub_mu h = true ∧ lk i = 0 ∧ ¬ releasing i.
Proof.
  intros Hx. destruct i; unfold_exec Hx; cbn [impatient ch_fail ch_calls] in Hx; try done;
    repeat case_match; try done; by repeat split; auto.
Qed.

Lemma holder_runs s t k : stack_ok k → sys_threads s !! t = Some k → 0 < zsum lk k →
  ∃ s', sched_step s (Run t impatient) = Some s'.
Proof.
  intros Hk Ht Hpos. destruct s as [h ts]. cbn in *. rewrite Ht. destruct k as [|i k]; [by rewrite zsum_nil in Hpos|].
  destruct (exec impatient i h) as [[h' pushed]|] eqn:Hx; [by eexists|].
  apply exec_impatient in Hx as (_ & Hl & Hn). rewrite zsum_cons, Hl in Hpos. destruct Hk as [[?|?] _]; [lia|done].
Qed.

(** Some goroutine can always run. *)
Lemma some_runs s : hub_inv s → Forall stack_ok (sys_threads s) → ¬ quiescent s →
  ∃ t s', sched_step s (Run t impatient) = Some s'.
Proof.
  intros Hinv Hs Hq. destruct (hub_mu (sys_hub s)) eqn:Hm.
  - pose proof (inv_accounts _ Hinv AMutex) as Ha. cbn in Ha. rewrite Hm in Ha. cbn in Ha.
    assert (∃ k, k ∈ sys_threads s ∧ 0 < zsum lk k) as (k & Hk & Hpos).
    { clear -Ha. unfold tsum in Ha. induction (sys_threads s) as [|k ts IH]; [done|]. rewrite zsum_cons in Ha.
      destruct (decide (0 < zsum lk k)); [exists k; split; [by left|done]|].
      pose proof (weights_nonneg lk lk_nonneg k). destruct IH as (k' & ? & ?); [lia|]. exists k'. split; [by right|done]. }
    apply list_elem_of_lookup in Hk as [t Ht]. exists t. eapply holder_runs; [|done|done]. by eapply Forall_lookup_1.
  - destruct (decide (Exists (fun k => k ≠ []) (sys_threads s))) as [He|Hn].
    + apply Exists_exists in He as (k & Hk & Hne). apply list_elem_of_lookup in Hk as [t Ht]. exists t.
      destruct s as [h ts]. cbn in *. rewrite Ht. destruct k as [|i k]; [done|].
      destruct (exec impatient i h) as [[h' pushed]|] eqn:Hx; [by eexists|].
      apply exec_impatient in Hx as [? _]. congruence.
    + exfalso. apply Hq. apply Forall_forall. intros k Hk. destruct k as [|i k]; [done|].
      exfalso. apply Hn. apply Exists_exists. eexists. by split.
Qed.

(** * Termination

    Every schedule of the running goroutines ends when the callbacks make no
    calls.  The measure counts first the readings of the observers' list still
    to come ([reads]), whose number of deliveries is not known before, then the
    steps that remain: those of the instructions ([steps]) and those of the
    observations that wait in a queue ([waiting]). *)

Definition reads (i : Instr) : Z :=
  match i with
  | ICall _ => 5
  | IWriteLock _ => 4 | IWriteAdmitted _ => 3 | ICompact _ _ (ForWrite _) => 2 | IBatch _ => 1
  | ISubscribeLock _ => 4 | ISubscribeLocked _ => 3 | ICompact _ _ (ForSubscribe _) => 2
  | ICloseLock => 4
  | _ => 0
  end.

(** The steps an observation for [n] deliveries takes once it is published. *)
Definition per_item (n : Z) : Z := 8 * n + 4.

Definition steps (i : Instr) : Z :=
  match i with
  | ICall _ | IUnlock | IReturn _ | IWriteLock _ | IWriteAdmitted _ | IBatch _ => 1
  | ISubscribeLock _ | ISubscribeLocked _ | ICloseLock => 1
  | ICompact todo _ _ => 3 + zlen todo
  | IBeginAdmission w todo obs =>
      zlen (w_events w) * per_item (zlen todo + zlen obs) + zlen (w_events w) + 4 * zlen todo + 3 * zlen obs + 20
  | IAppend _ events obs items _ _ =>
      (zlen events + zlen items) * per_item (zlen obs) + zlen events + 3 * zlen obs + 15
  | IReserve obs items _ => zlen items * per_item (zlen obs) + 3 * zlen obs + 14
  | ISave obs items _ => zlen items * per_item (zlen obs) + 3 * zlen obs + 12
  | IAddWork added todo items _ =>
      zlen items * per_item (zlen added + zlen todo) + zlen added + 2 * zlen todo + 10
  | IPublish obs items _ => zlen items * per_item (zlen obs) + zlen obs + 8
  | IReleaseAdmissions todo => 1 + zlen todo
  | IReleaseBudget _ => 1
  | IDrainNotifications => 1
  | IFanOut _ todo => 4 + 8 * zlen todo
  | IQueuedDone _ => 2
  | IFinishWork _ => 1
  | IDrain _ => 1
  | INotify _ _ _ => 6
  | INotified _ _ => 5
  | IWaitWork _ => 4 | IWaitIdle _ _ => 3 | IWaited _ _ => 2
  | ICloseEach todo _ => 6 + zlen todo
  | IWaitBudget _ => 5 | IWaitBudgetIdle _ _ => 4 | ICloseReport _ _ => 3
  end.

Definition waiting (h : Hub) : Z :=
  zsum (fun x => 6 * zlen (d_pending x)) (hub_deliveries h)
  + zsum (fun q => per_item (zlen (observers_of h q))) (hub_notifications h).

Ltac lengths := repeat match goal with
  | |- context [zlen ?l] => assert_fails (assert (0 ≤ zlen l) by assumption); pose proof (zlen_nonneg l)
  end.

Lemma reads_nonneg i : 0 ≤ reads i.
Proof. destruct i; cbn; try lia. by destruct k. Qed.
Lemma steps_pos i : 1 ≤ steps i.
Proof.
  destruct i; cbn; try lia; unfold per_item;
    lengths; nia.
Qed.
Lemma waiting_nonneg h : 0 ≤ waiting h.
Proof.
  unfold waiting, per_item. assert (∀ A (f : A → Z) l, (∀ x, 0 ≤ f x) → 0 ≤ zsum f l) as Hz
    by (intros; apply zsum_nonneg; auto).
  pose proof (Hz _ (fun x => 6 * zlen (d_pending x)) (hub_deliveries h)) as H1.
  pose proof (Hz _ (fun q => 8 * zlen (observers_of h q) + 4) (hub_notifications h)) as H2.
  cbn in H1, H2. assert (∀ A (l : list A), 0 ≤ zlen l) as Hl by (intros; apply zlen_nonneg).
  assert (0 ≤ zsum (fun x => 6 * zlen (d_pending x)) (hub_deliveries h)) by (apply H1; intros x; specialize (Hl _ (d_pending x)); lia).
  assert (0 ≤ zsum (fun q => 8 * zlen (observers_of h q) + 4) (hub_notifications h)) by (apply H2; intros q; specialize (Hl _ (observers_of h q)); lia).
  lia.
Qed.

(** One step goes down. *)
Definition descends (h : Hub) (i : Instr) (h' : Hub) (pushed : thread) : Prop :=
  zsum reads pushed < reads i
  ∨ zsum reads pushed = reads i ∧ zsum steps pushed + waiting h' < steps i + waiting h.

Lemma waiting_same h h' :
  hub_deliveries h' = hub_deliveries h → hub_notifications h' = hub_notifications h →
  (∀ q, observers_of h' q = observers_of h q) → waiting h' = waiting h.
Proof.
  intros Hd Hn Ho. unfold waiting. rewrite Hd, Hn. f_equal. apply zsum_ext. intros. by rewrite Ho.
Qed.
Lemma waiting_set h d x :
  (d < length (hub_deliveries h))%nat →
  waiting (set_delivery h d x) = waiting h + 6 * (zlen (d_pending x) - zlen (d_pending (delivery h d))).
Proof.
  intros Hd. unfold waiting, set_delivery. simpl. rewrite (zsum_insert _ _ _ _ _ (delivery_lookup h d Hd)).
  unfold observers_of. simpl. lia.
Qed.
Lemma waiting_publish h obs items bytes h' drain :
  items_ok obs items bytes → (∀ q, q ∈ hub_notifications h → (q < length (hub_queued h))%nat) →
  publish h items = (h', drain) → waiting h' = waiting h + zlen items * per_item (zlen obs).
Proof.
  intros [Hit _] Hold Hp. assert (Hitems : Forall (fun o => q_observers o = obs) items)
    by (eapply Forall_impl; [done|]; naive_solver).
  unfold waiting. rewrite (publish_deliveries _ _ _ _ Hp), (publish_notifications _ _ _ _ Hp), zsum_app.
  rewrite (zsum_ext (fun q => per_item (zlen (observers_of h' q))) (fun q => per_item (zlen (observers_of h q)))
             (hub_notifications h)) by (intros; rewrite (publish_observers_old _ _ _ _ Hp); auto).
  rewrite (zsum_const _ (seq _ _) (per_item (zlen obs)))
    by (intros q Hq; by rewrite (publish_observers_new _ _ _ _ Hp obs q Hitems Hq)).
  rewrite length_seq. change (Z.of_nat (length items)) with (zlen items). lia.
Qed.

Lemma unsubscribe_descends h d h' finish resync :
  hub_ok h → (d < length (hub_deliveries h))%nat → unsubscribe_at h d = (h', finish, resync) →
  zsum reads finish = 0 ∧ zsum steps finish + waiting h' ≤ waiting h.
Proof.
  intros Hh Hd Hu. unfold unsubscribe_at in Hu. destruct (unsubscribe (delivery h d)) as [[x drop] r] eqn:E.
  injection Hu as <- <- _. apply unsubscribe_ok in E as (_ & _ & _ & _ & _ & _ & Hp & _); [|by apply delivery_is_ok].
  rewrite !finish_weights, waiting_set by done. cbn [reads steps]. split; [by apply zsum_zero|].
  rewrite (zsum_const _ _ 3) by done. rewrite Hp, zlen_app. fold (zlen drop). pose proof (zlen_nonneg drop). lia.
Qed.

Ltac count := intros; cbn -[Z.mul]; autorewrite with zsum; cbn -[Z.mul]; autorewrite with zsum;
  unfold per_item; lengths; try nia.

Lemma descends_flat h h' i pushed :
  waiting h' = waiting h → zsum reads pushed = reads i → zsum steps pushed < steps i → descends h i h' pushed.
Proof. intros Hw Hr Hs. right. lia. Qed.
Lemma descends_set h d x i pushed :
  (d < length (hub_deliveries h))%nat → zsum reads pushed = reads i →
  zsum steps pushed + 6 * (zlen (d_pending x) - zlen (d_pending (delivery h d))) < steps i →
  descends h i (set_delivery h d x) pushed.
Proof. intros Hd Hr Hs. right. rewrite waiting_set by done. lia. Qed.

Lemma finish_descends h d i pushed :
  covered h i → (d < length (hub_deliveries h))%nat → 1 ≤ wk d i → zsum reads pushed = reads i →
  zsum steps pushed < steps i → descends h i (finish_work h d 1) pushed.
Proof.
  intros Hc Hd Hw Hr Hs. destruct (finish_claimed _ i d Hc Hw Hd) as (y & -> & _ & Hq & _).
  destruct Hq as (_ & _ & _ & Hp & _). apply descends_set; [done|done|]. rewrite Hp. lia.
Qed.

Lemma release_waiting h count bytes : waiting (release h count bytes) = waiting h.
Proof. unfold release. by repeat case_match. Qed.

Lemma append_step_descends h w events obs items bytes claimed :
  zsum reads (append_step h w events obs items bytes claimed) = 0
  ∧ zsum steps (append_step h w events obs items bytes claimed) < steps (IAppend w events obs items bytes claimed).
Proof.
  unfold append_step, abandon, abandon_unlocked. repeat case_match; split; count.
Qed.

Lemma exec_descends c h h' pushed i :
  covered h i → ch_calls c = [] → exec c i h = Some (h', pushed) → descends h i h' pushed.
Proof.
  intros Hcov Hcalls Hx. pose proof (cov_hub _ _ Hcov) as Hh. pose proof (cov_instr _ _ Hcov) as Hi.
  destruct i; unfold_exec Hx; cbn in Hi; exec_cases Hx; try solve [left; cbn; autorewrite with zsum; cbn; lia];
    try solve [right; count].
  - left. destruct op; cbn [exec_call] in Hx; exec_cases Hx; try solve [cbn; autorewrite with zsum; cbn; lia].
    + by destruct b.
    + apply Nat.ltb_lt in E. apply unsubscribe_descends in E0 as [-> _]; done.
    + apply Nat.ltb_lt in E. apply unsubscribe_descends in E0 as [Hr _]; [|done..].
      rewrite zsum_app, Hr. done.
  - by apply descends_flat; [|count..].
  - by apply descends_flat; [|count..].
  - assert (n < length (hub_deliveries h))%nat by (eapply ids_elem; [done|set_solver]).
    assert (d_pending o = d_pending (delivery h n)) as Hp.
    { revert E0. unfold beginAdmission, addWorkLocked. repeat case_match; by intros [= <-]. }
    apply descends_set; [done|count|]. rewrite Hp. count.
  - destruct (append_step_descends h' w events obs items bytes claimed). by apply descends_flat.
  - destruct Hi as [_ Hi]. apply reserve_ok in E as (_ & -> & _); [|done|lia|by eapply items_bytes].
    apply descends_flat; [done|count..].
  - apply descends_flat; [done|unfold abandon; count..].
  - apply descends_flat; [apply release_waiting|unfold abandon; count..].
  - destruct Hi as [Hi _]. assert (n < length (hub_deliveries h))%nat by (eapply ids_elem; [done|set_solver]).
    apply descends_set; [done|count|].
    assert (d_pending (addWorkLocked (Z.of_nat (length items)) (delivery h n)) = d_pending (delivery h n)) as ->.
    { unfold addWorkLocked. by case_match. }
    count.
  - destruct Hi as [_ Hi]. right. rewrite (waiting_publish _ _ _ _ _ _ Hi (cov_notified _ _ Hcov) E).
    destruct b; (split; [count|]); count.
  - apply ids_cons in Hi as (? & _). apply finish_descends; [done|done| |count..].
    cbn. rewrite cnt_cons, same_refl. pose proof (cnt_nonneg n l). lia.
  - apply descends_flat; [apply release_waiting|count..].
  - apply descends_flat; [done|count..].
  - right. unfold waiting. cbn [hub_deliveries hub_notifications]. rewrite E0.
    change (observers_of _ ?x) with (observers_of h x). split; [count|].
    rewrite !zsum_cons, zsum_nil. cbn [steps]. unfold per_item. lia.
  - apply ids_cons in Hi as (? & ? & _). apply enqueue_ok in E0 as (_ & _ & -> & _); [|by apply delivery_is_ok].
    apply descends_set; [done|by destruct b|]. destruct b; count.
  - assert (∀ p, observers_of (h <| hub_queued ::= <[q := q0 <| q_remaining ::= fun k => k - 1 |>]> |>) p = observers_of h p) as Ho.
    { intros p. unfold observers_of. cbn. destruct (decide (p = q)) as [->|].
      - rewrite list_lookup_insert_eq, E by (by eapply lookup_lt_Some). done.
      - by rewrite list_lookup_insert_ne. }
    apply descends_flat; [by apply waiting_same|..]; case_match; count.
  - apply descends_flat; [done|count..].
  - apply finish_descends; [done|done| |count..]. cbn. rewrite same_refl. lia.
  - pose proof (cov_drainer _ _ Hcov d) as Ht. cbn in Ht. rewrite same_refl in Ht.
    pose proof (covered_pending _ _ d Hcov) as Hw.
    apply claimNext_ok in E as [_ Hc];
      [|by apply delivery_is_ok|by destruct (d_notifying (delivery h d))|done].
    apply descends_set; [done|by destruct o0 as [[]|]|]. destruct o0 as [[q o']|].
    + destruct Hc as (_ & Hp & _). rewrite Hp. count.
    + destruct Hc as (Hp & ->). cbn. rewrite Hp. count.
  - rewrite Hcalls. apply descends_flat; [done|count..].
  - apply Forall_cons in Hi as [Hd Hi]. apply unsubscribe_descends in E0 as [Hr Hs]; [|done..].
    right. rewrite !zsum_app, Hr. split; count.
Qed.

(** ** Schedules end *)

(** A goroutine runs, and its callback, if it starts one, calls nothing. *)
Definition run_step (s s' : System) : Prop := ∃ t c, ch_calls c = [] ∧ sched_step s (Run t c) = Some s'.

Lemma run_step_descends s s' : hub_inv s → run_step s s' →
  hub_inv s'
  ∧ (tsum reads (sys_threads s') < tsum reads (sys_threads s)
     ∨ tsum reads (sys_threads s') = tsum reads (sys_threads s)
       ∧ tsum steps (sys_threads s') + waiting (sys_hub s') < tsum steps (sys_threads s) + waiting (sys_hub s)).
Proof.
  intros Hinv (t & c & Hc & Hs). split; [by eapply step_keeps|]. destruct s as [h ts]. cbn in *.
  destruct (ts !! t) as [[|i rest]|] eqn:Hts; try done.
  destruct (exec c i h) as [[h' pushed]|] eqn:Hx; [|done]. injection Hs as <-. cbn.
  pose proof (inv_covered _ i Hinv (stands_top _ _ _ _ Hts)) as Hcov.
  rewrite !(tsum_step _ _ _ _ _ _ Hts). destruct (exec_descends _ _ _ _ _ Hcov Hc Hx); cbn in *; lia.
Qed.

Lemma runs_end s : hub_inv s → Acc (fun s2 s1 => run_step s1 s2) s.
Proof.
  remember (tsum reads (sys_threads s)) as a eqn:Ha.
  remember (tsum steps (sys_threads s) + waiting (sys_hub s)) as b eqn:Hb.
  revert b s Ha Hb. induction a as [a IHa] using (well_founded_induction (Z.lt_wf 0)).
  induction b as [b IHb] using (well_founded_induction (Z.lt_wf 0)). intros s -> -> Hinv.
  constructor. intros s' Hs'. destruct (run_step_descends s s' Hinv Hs') as [Hinv' Hd].
  pose proof (tsum_nonneg reads reads_nonneg (sys_threads s')).
  pose proof (tsum_nonneg steps (fun i => Z.le_trans _ _ _ Z.le_0_1 (steps_pos i)) (sys_threads s')).
  pose proof (waiting_nonneg (sys_hub s')).
  destruct Hd as [Hlt|[Heq Hlt]].
  - eapply IHa; [|done..]. lia.
  - eapply IHb; [|by rewrite Heq|done|done]. lia.
Qed.

Lemma run_reachable maxCount maxBytes s s' :
  reachable maxCount maxBytes s → rtc run_step s s' → reachable maxCount maxBytes s'.
Proof.
  intros Hr. induction 1 as [|s s1 s2 (t & c & _ & Hs) _ IH]; [done|]. apply IH. destruct Hr as [l Hl].
  exists (l ++ [Run t c]). clear IH. revert Hl. generalize (new_system maxCount maxBytes).
  induction l as [|a l IHl]; intros s0; cbn [app sched_run]; [by intros [= ->]; rewrite Hs|].
  destruct (sched_step s0 a); [apply IHl|done].
Qed.
