(* ===== verification/ObserverProps.v ===== *)
(** The properties of the subscribers of the registry, in every state that any
    number of goroutines reach with any interleaving, any failures and any
    calls made by the callbacks. *)
From S2P Require Import Prelude Goroutines GoStrings GoJson InteractionTypes ObserverHub ObserverWeights ObserverViews ObserverExec ObserverLocal ObserverInvariant ObserverClosing ObserverAdmission ObserverTermination.

(** C6. A subscriber's callbacks run one at a time, and it is called with the
    observations it was admitted to, each once and in the order of their
    commits, whatever the goroutines that write, drain, activate, unsubscribe
    and close at the same time do. *)
Theorem observers_in_commit_order maxCount maxBytes s d :
  0 ≤ maxCount → 0 ≤ maxBytes → reachable maxCount maxBytes s →
  calls_of d (hub_trace (sys_hub s)) `prefix_of` accepted d (sys_hub s)
  ∧ (length (tcat (running d) (sys_threads s)) ≤ 1)%nat.
Proof.
  intros Hc Hb Hr. pose proof (reachable_inv _ _ _ Hc Hb Hr) as Hinv. split; [by apply calls_prefix|].
  pose proof (running_once s d Hinv) as H. unfold zlen in H. lia.
Qed.

(** When a batch of events is committed while the registry is open, every
    subscriber, gated or active, is admitted to each of its observations. *)
Theorem subscribers_miss_nothing maxCount maxBytes s t c s' d :
  0 ≤ maxCount → 0 ≤ maxBytes → reachable maxCount maxBytes s →
  sched_step s (Run t c) = Some s' → hub_closed (sys_hub s) = false → subscribed_at (sys_hub s) d →
  let n := length (hub_queued (sys_hub s)) in
  accepted d (sys_hub s') = accepted d (sys_hub s) ++ seq n (length (hub_queued (sys_hub s')) - n).
Proof.
  intros Hc Hb Hr Hs Hcl Hd. destruct (reachable_admission _ _ _ Hc Hb Hr) as [Hinv _ Hf].
  destruct s as [h ts]. cbn in *. destruct (ts !! t) as [[|i rest]|] eqn:Hts; try done.
  destruct (exec c i h) as [[h' pushed]|] eqn:Hx; [|done]. injection Hs as <-. cbn.
  pose proof (stands_top _ _ _ _ Hts) as Htop. pose proof (inv_covered _ i Hinv Htop) as Hcov.
  destruct (exec_accepted c h h' pushed i d Hcov Hx) as [[-> ->]|(obs & items & bytes & -> & -> & ->)].
  - by rewrite Nat.sub_diag, app_nil_r.
  - destruct (Hf _ Htop) as [?|Ho]; [congruence|]. rewrite decide_True by (by apply Ho).
    do 2 f_equal. lia.
Qed.

(** C12. When callbacks call nothing back, every schedule of the goroutines
    ends; where it ends every goroutine has returned, none waits for a mutex,
    every active subscriber has been called with all it was admitted to, and
    without gated subscribers the budget is free again. *)
Theorem everything_is_delivered maxCount maxBytes s :
  0 ≤ maxCount → 0 ≤ maxBytes → reachable maxCount maxBytes s →
  Acc (fun s2 s1 => run_step s1 s2) s
  ∧ ∀ s', rtc run_step s s' → (∀ s'', ¬ run_step s' s'') →
    quiescent s'
    ∧ (∀ d, d_active (delivery (sys_hub s') d) = true →
         calls_of d (hub_trace (sys_hub s')) = accepted d (sys_hub s'))
    ∧ ((∀ d, d_active (delivery (sys_hub s') d) = true ∨ d_pending (delivery (sys_hub s') d) = []) →
         hub_count (sys_hub s') = 0 ∧ hub_bytes (sys_hub s') = 0).
Proof.
  intros Hc Hb Hr. pose proof (reachable_inv _ _ _ Hc Hb Hr) as Hinv. split; [by apply runs_end|].
  intros s' Hs' Hstop. pose proof (run_reachable _ _ _ _ Hr Hs') as Hr'.
  pose proof (reachable_inv _ _ _ Hc Hb Hr') as Hinv'.
  assert (Hq : quiescent s').
  { destruct (decide (Forall (fun k => k = []) (sys_threads s'))) as [Hf|Hn].
    - apply Forall_forall. intros k Hk. by rewrite (proj1 (Forall_forall _ _) Hf k Hk).
    - destruct (some_runs s' Hinv' (reachable_stacks _ _ _ Hr')) as (t & s'' & Ht).
      + intros Hq. apply Hn. apply Forall_forall. intros k Hk. symmetry. by apply (proj1 (Forall_forall _ _) Hq).
      + exfalso. apply (Hstop s''). by exists t, impatient. }
  split; [done|]. split.
  - intros d Ha. by apply quiescent_delivered.
  - intros Hgate. by apply quiescent_budget.
Qed.

(** C32. A subscription that was closed without error stays silent: no callback
    begins after its [CloseContext] has returned nil, and by then it had been
    called with everything it was ever admitted to. *)
Theorem closed_subscription_silent maxCount maxBytes s d t1 t2 :
  0 ≤ maxCount → 0 ≤ maxBytes → reachable maxCount maxBytes s →
  hub_trace (sys_hub s) = t1 ++ SubscriptionClosed d None :: t2 →
  (∀ q, Called d q ∉ t2) ∧ calls_of d t1 = accepted d (sys_hub s).
Proof.
  intros Hc Hb Hr Htr. pose proof (reachable_closing _ _ _ Hc Hb Hr) as Hcl.
  destruct (silent_calls s d t1 _ t2 Hcl Htr) as [Hn Hcalls]; [done|]. split; [done|]. rewrite <- Hcalls.
  destruct (cl_trace _ Hcl (SubscriptionClosed d None)) as [(_ & _ & Hw) Hres]; [rewrite Htr; set_solver|done|].
  by apply no_work_delivered; [apply Hcl| |apply Hres].
Qed.

(** A registry that was closed without error stays silent: no callback of
    any subscriber begins after its [CloseContext] has returned nil, and by
    then every subscriber that does not ask for a fresh snapshot had been
    called with everything it was ever admitted to. *)
Theorem closed_registry_silent maxCount maxBytes s t1 t2 :
  0 ≤ maxCount → 0 ≤ maxBytes → reachable maxCount maxBytes s →
  hub_trace (sys_hub s) = t1 ++ HubClosed None :: t2 →
  (∀ d q, Called d q ∉ t2)
  ∧ ∀ d, d_resyncRequired (delivery (sys_hub s) d) = false → calls_of d t1 = accepted d (sys_hub s).
Proof.
  intros Hc Hb Hr Htr. pose proof (reachable_closing _ _ _ Hc Hb Hr) as Hcl.
  assert (Hsil : ∀ d, (∀ q, Called d q ∉ t2) ∧ calls_of d (hub_trace (sys_hub s)) = calls_of d t1).
  { intros d. by eapply (silent_calls s d t1). }
  split; [intros d; apply Hsil|]. intros d Hres. destruct (Hsil d) as [_ <-].
  destruct (cl_trace _ Hcl (HubClosed None)) as [_ Hz]; [rewrite Htr; set_solver|done|].
  by apply no_count_delivered; [apply Hcl| |].
Qed.

(** The queues never panic and never exceed their limits: no channel is
    closed twice, no released observation or nil observer is used, and the
    budget holds exactly the observations that are committed or being
    committed and not yet released. *)
Theorem observers_within_budget maxCount maxBytes s :
  0 ≤ maxCount → 0 ≤ maxBytes → reachable maxCount maxBytes s →
  let h := sys_hub s in
  hub_panicked h = false
  ∧ 0 ≤ hub_count h ≤ hub_maxCount h ∧ 0 ≤ hub_bytes h ≤ hub_maxBytes h
  ∧ hub_count h = zsum live (hub_queued h) + tsum bc (sys_threads s)
  ∧ hub_bytes h = zsum live_bytes (hub_queued h) + tsum bb (sys_threads s)
  ∧ ∀ d q observer, stands (sys_threads s) (INotify d q observer) → observer = true.
Proof.
  intros Hc Hb Hr h. pose proof (reachable_inv _ _ _ Hc Hb Hr) as Hinv. subst h.
  pose proof (inv_hub _ Hinv) as [_ _ _ ? ? _ _ ?].
  pose proof (inv_accounts _ Hinv ACount) as H1. pose proof (inv_accounts _ Hinv ABytes) as H2. cbn in H1, H2.
  unfold count_owed, bytes_owed in *. repeat split; try done; try lia.
  intros d q observer Hs. by destruct (inv_instrs _ Hinv _ Hs).
Qed.
