(* ===== verification/ObserverWitness.v ===== *)
(** The properties of the subscribers at concrete runs: an active and a gated
    subscriber, writers, and the closing of a subscription and of the
    registry. *)
From S2P Require Import Prelude Goroutines GoStrings GoJson TaskResult CodingScope BusInbound InteractionTypes InteractionRegistry.
From S2P Require Import ObserverHub ObserverWeights ObserverInvariant ObserverAdmission ObserverTermination ObserverProps.

Definition patient : Choice := mkChoice None [].

(** The first goroutine that can run without a failure, then with one. *)
Definition pick (s : System) : option (Sched * System) :=
  let candidates c := (fun t => Run t c) <$> seq 0 (length (sys_threads s)) in
  let try a := match sched_step s a with Some s' => Some (a, s') | None => None end in
  head (omap try (candidates patient ++ candidates impatient)).

Fixpoint drive (n : nat) (s : System) : list Sched :=
  match n with
  | 0%nat => []
  | S n => match pick s with Some (a, s') => a :: drive n s' | None => [] end
  end.

(** Each call is followed by so many steps. *)
Fixpoint script (s : System) (l : list (Op * nat)) : list Sched :=
  match l with
  | [] => []
  | (op, n) :: l =>
      let s1 := default s (sched_step s (Spawn op)) in
      let d := drive n s1 in
      Spawn op :: d ++ script (default s1 (sched_run s1 d)) l
  end.
Definition play (l : list (Op * nat)) : System :=
  let s := new_system 256 (4 * 1024 * 1024) in default s (sched_run s (script s l)).

Definition note : Payload :=
  mkPayload (mkEvent EventSchemaVersion "interaction_00000001:000001:interaction.created" 1 "interaction_00000001"
    EventCreated no_status StatusCreated no_outcome 1 1 1000 "" None) zero_record.
Definition write_two : Op := OpWrite (mkWrite false [note; note]).

Definition delivered : System := play [(OpSubscribe true, 100); (OpSubscribe false, 100); (write_two, 200)]%nat.

Example delivered_ex :
  calls_of 0 (hub_trace (sys_hub delivered)) = [0; 1]%nat ∧ calls_of 1 (hub_trace (sys_hub delivered)) = []
  ∧ d_pending (delivery (sys_hub delivered) 1) = [0; 1]%nat ∧ hub_count (sys_hub delivered) = 2
  ∧ sys_threads delivered = [[]; []; []].
Proof. vm_compute. repeat split; reflexivity. Qed.

(** ** Helpers *)

Lemma reachable_play l :
  match sched_run (new_system 256 (4 * 1024 * 1024)) (script (new_system 256 (4 * 1024 * 1024)) l) with
  | Some _ => true | None => false end = true → reachable 256 (4 * 1024 * 1024) (play l).
Proof.
  intros Hs. exists (script (new_system 256 (4 * 1024 * 1024)) l). unfold play. by destruct (sched_run _ _).
Qed.

Lemma pick_runs s a s' : pick s = Some (a, s') → sched_step s a = Some s' ∧ run_step s s'.
Proof.
  unfold pick. intros Hp.
  assert (∀ l, head (omap (fun a => match sched_step s a with Some s' => Some (a, s') | None => None end) l) = Some (a, s') →
    a ∈ l ∧ sched_step s a = Some s') as Hl.
  { induction l as [|b l IH]; [done|]. cbn. destruct (sched_step s b) eqn:E; cbn.
    - intros [= <- <-]. split; [by left|done].
    - intros Hh. destruct (IH Hh). split; [by right|done]. }
  destruct (Hl _ Hp) as [Ha Hs]. split; [done|].
  apply elem_of_app in Ha as [(t & -> & _)%list_elem_of_fmap|(t & -> & _)%list_elem_of_fmap].
  - by exists t, patient.
  - by exists t, impatient.
Qed.

Definition driven (n : nat) (s : System) : System := default s (sched_run s (drive n s)).
Lemma drive_runs n s : rtc run_step s (driven n s).
Proof.
  unfold driven. revert s. induction n as [|n IH]; intros s; cbn; [done|].
  destruct (pick s) as [[a s']|] eqn:Hp; [|done]. destruct (pick_runs s a s' Hp) as [Hs Hr].
  cbn [sched_run]. rewrite Hs. specialize (IH s').
  destruct (sched_run s' (drive n s')) eqn:E; cbn in *; [by eapply rtc_l|done].
Qed.

Lemma stuck_all s : forallb (fun k : list Instr => match k with [] => true | _ => false end) (sys_threads s) = true →
  ∀ s', ¬ run_step s s'.
Proof.
  intros Hf s' (t & c & _ & Hs). destruct s as [h ts]. cbn in *.
  destruct (ts !! t) as [[|i k]|] eqn:E; try done.
  rewrite forallb_forall in Hf. specialize (Hf (i :: k)). rewrite <- list_elem_of_In in Hf.
  discriminate Hf. by eapply list_elem_of_lookup_2.
Qed.

(** ** Witnesses *)

Lemma observers_in_commit_order_witness :
  calls_of 0 (hub_trace (sys_hub delivered)) = [0; 1]%nat
  ∧ calls_of 0 (hub_trace (sys_hub delivered)) `prefix_of` accepted 0 (sys_hub delivered)
  ∧ (length (tcat (running 0) (sys_threads delivered)) ≤ 1)%nat.
Proof.
  split; [vm_compute; reflexivity|].
  apply (observers_in_commit_order 256 (4 * 1024 * 1024) delivered 0); [lia|lia|].
  apply reachable_play. vm_compute. reflexivity.
Defined.

(** The goroutine of the write is about to publish. *)
Definition publishing : System := play [(OpSubscribe true, 100); (write_two, 15)]%nat.

Lemma subscribers_miss_nothing_witness :
  match sched_step publishing (Run 1 patient) with
  | Some s' => accepted 0 (sys_hub s') = [0; 1]%nat
      ∧ accepted 0 (sys_hub s') = accepted 0 (sys_hub publishing) ++ seq 0 2
  | None => False
  end.
Proof.
  destruct (sched_step publishing (Run 1 patient)) as [s'|] eqn:E; [|vm_compute in E; discriminate].
  pose proof (subscribers_miss_nothing 256 (4 * 1024 * 1024) publishing 1 patient s' 0) as H.
  assert (Hq : length (hub_queued (sys_hub s')) = 2%nat).
  { assert (Hs : length (hub_queued (sys_hub (default s' (sched_step publishing (Run 1 patient))))) = 2%nat)
      by (vm_compute; reflexivity). by rewrite E in Hs. }
  assert (Ha : accepted 0 (sys_hub s') = accepted 0 (sys_hub publishing) ++ seq 0 2).
  { rewrite H; [|lia|lia| |exact E|vm_compute; reflexivity|vm_compute; split; [lia|reflexivity]].
    - rewrite Hq. vm_compute. reflexivity.
    - apply reachable_play. vm_compute. reflexivity. }
  split; [|exact Ha]. rewrite Ha. vm_compute. reflexivity.
Defined.

(** From there, everyone runs to the end. *)
Lemma everything_is_delivered_witness :
  hub_count (sys_hub publishing) = 2
  ∧ calls_of 0 (hub_trace (sys_hub (driven 200 publishing))) = accepted 0 (sys_hub (driven 200 publishing))
  ∧ accepted 0 (sys_hub (driven 200 publishing)) = [0; 1]%nat ∧ hub_count (sys_hub (driven 200 publishing)) = 0.
Proof.
  split; [vm_compute; reflexivity|].
  destruct (everything_is_delivered 256 (4 * 1024 * 1024) publishing) as [_ Hend]; [lia|lia| |].
  { apply reachable_play. vm_compute. reflexivity. }
  destruct (Hend (driven 200 publishing)) as (_ & Hd & _).
  - apply drive_runs.
  - apply stuck_all. vm_compute. reflexivity.
  - split; [apply Hd; vm_compute; reflexivity|]. split; vm_compute; reflexivity.
Defined.

(** The subscription is closed after two notifications, then two more events
    are committed. *)
Definition unsubscribed_run : System :=
  play [(OpSubscribe true, 100); (write_two, 200); (OpCloseSubscription 0, 50); (write_two, 200)]%nat.

Lemma closed_subscription_silent_witness :
  d_unsubscribed (delivery (sys_hub unsubscribed_run) 0) = true
  ∧ (∀ q, Called 0 q ∉ [WriteReturned (Ok tt)]) ∧ accepted 0 (sys_hub unsubscribed_run) = [0; 1]%nat.
Proof.
  split; [vm_compute; reflexivity|].
  destruct (closed_subscription_silent 256 (4 * 1024 * 1024) unsubscribed_run 0
    [SubscribeReturned (Ok 0%nat); Called 0 0; Called 0 1; WriteReturned (Ok tt)] [WriteReturned (Ok tt)])
    as [Hn Ha].
  - lia.
  - lia.
  - apply reachable_play. vm_compute. reflexivity.
  - vm_compute. reflexivity.
  - split; [exact Hn|]. rewrite <- Ha. reflexivity.
Defined.

Definition closed_run : System :=
  play [(OpSubscribe true, 100); (write_two, 200); (OpClose, 50); (write_two, 200)]%nat.

Lemma closed_registry_silent_witness :
  hub_closed (sys_hub closed_run) = true
  ∧ (∀ d q, Called d q ∉ [WriteReturned (Err ErrStoreClosed)]) ∧ accepted 0 (sys_hub closed_run) = [0; 1]%nat.
Proof.
  split; [vm_compute; reflexivity|].
  destruct (closed_registry_silent 256 (4 * 1024 * 1024) closed_run
    [SubscribeReturned (Ok 0%nat); Called 0 0; Called 0 1; WriteReturned (Ok tt)]
    [WriteReturned (Err ErrStoreClosed)]) as [Hn Ha].
  - lia.
  - lia.
  - apply reachable_play. vm_compute. reflexivity.
  - vm_compute. reflexivity.
  - split; [exact Hn|]. rewrite <- (Ha 0%nat); [reflexivity|vm_compute; reflexivity].
Defined.

Lemma observers_within_budget_witness :
  hub_count (sys_hub delivered) = 2 ∧ hub_panicked (sys_hub delivered) = false
  ∧ 0 ≤ hub_bytes (sys_hub delivered) ≤ hub_maxBytes (sys_hub delivered).
Proof.
  split; [vm_compute; reflexivity|].
  destruct (observers_within_budget 256 (4 * 1024 * 1024) delivered) as (Hp & _ & Hb & _); [lia|lia| |].
  - apply reachable_play. vm_compute. reflexivity.
  - split; [exact Hp|exact Hb].
Defined.
