(* ===== verification/GoText.v ===== *)
(** Package [strings] on byte strings: prefixes, occurrences, splitting and
    replacing. *)
From Stdlib Require Import Ascii.
From S2P Require Import Prelude GoStrings GoJson.

Definition lf : ascii := "010"%char.
Definition cr : ascii := "013"%char.
Definition newline : string := String lf "".

(** [strings.HasPrefix] and [strings.TrimPrefix] *)
Definition has_prefix (p s : string) : bool := String.prefix p s.
Fixpoint string_drop (n : nat) (s : string) : string :=
  match n, s with S n, String _ s => string_drop n s | _, _ => s end.
Definition trim_prefix (p s : string) : string :=
  if has_prefix p s then string_drop (String.length p) s else s.

(** [strings.HasSuffix], [strings.TrimSuffix] *)
Definition has_suffix (suffix s : string) : bool :=
  (String.length suffix <=? String.length s)%nat && String.eqb (string_drop (String.length s - String.length suffix) s) suffix.
Definition trim_suffix (s suffix : string) : string :=
  if has_suffix suffix s then String.substring 0 (String.length s - String.length suffix) s else s.

(** [strings.Contains] *)
Fixpoint contains (s p : string) : bool :=
  has_prefix p s || match s with String _ s => contains s p | "" => false end.

(** [strings.Count] of a non-empty [p]: occurrences that do not overlap, from
    the left; [skip] bytes belong to the last one. *)
Fixpoint count_from (p : string) (skip : nat) (s : string) : Z :=
  match s with
  | "" => 0
  | String _ s' =>
      match skip with
      | S k => count_from p k s'
      | O => if has_prefix p s then 1 + count_from p (pred (String.length p)) s' else count_from p 0 s'
      end
  end.
Definition strings_count (s p : string) : Z := count_from p 0 s.

(** [strings.Replace(s, p, q, 1)] for a non-empty [p]. *)
Fixpoint replace_first (s p q : string) : string :=
  if has_prefix p s then q +:+ string_drop (String.length p) s
  else match s with String c s => String c (replace_first s p q) | "" => "" end.

(** [strings.Split(s, c)] for a one-byte separator. *)
Fixpoint split_at (c : ascii) (s : string) : list string :=
  match s with
  | "" => [""]
  | String a s =>
      if Ascii.eqb a c then "" :: split_at c s
      else match split_at c s with l :: ls => String a l :: ls | [] => [String a ""] end
  end.

(** [strings.ReplaceAll(s, "\r\n", "\n")] *)
Fixpoint replace_crlf (s : string) : string :=
  match s with
  | "" => ""
  | String a s' =>
      match s' with
      | String b s'' =>
          if Ascii.eqb a cr && Ascii.eqb b lf then String lf (replace_crlf s'') else String a (replace_crlf s')
      | "" => String a ""
      end
  end.

Fixpoint in_string (c : ascii) (s : string) : bool :=
  match s with "" => false | String a s => Ascii.eqb a c || in_string c s end.

#[global] Arguments has_prefix : simpl never.

(** ** Prefixes *)

Lemma has_prefix_spec p s : has_prefix p s = true ↔ ∃ t, s = p +:+ t.
Proof.
  unfold has_prefix. revert s. induction p as [|a p IH]; intros [|b s]; cbn.
  - split; [by exists ""|done].
  - split; [by exists (String b s)|done].
  - split; [done|by intros [? ?]].
  - destruct (ascii_dec a b) as [->|Hn].
    + rewrite IH. split; intros [t Ht]; exists t; [by subst|by injection Ht].
    + split; [done|]. by intros [t [=]].
Qed.
Lemma has_prefix_app p t : has_prefix p (p +:+ t) = true.
Proof. apply has_prefix_spec. by exists t. Qed.
Lemma string_drop_app p t : string_drop (String.length p) (p +:+ t) = t.
Proof. induction p; [by destruct t|done]. Qed.
Lemma trim_prefix_app p t : trim_prefix p (p +:+ t) = t.
Proof. unfold trim_prefix. by rewrite has_prefix_app, string_drop_app. Qed.
Lemma string_app_nil s : s +:+ "" = s.
Proof. induction s as [|a s IH]; [done|]. exact (f_equal (String a) IH). Qed.
Lemma string_app_inj p s t : p +:+ s = p +:+ t → s = t.
Proof. induction p as [|a p IH]; [done|]. intros [= H]. by apply IH. Qed.
Lemma string_length_app s t : String.length (s +:+ t) = (String.length s + String.length t)%nat.
Proof. induction s as [|a s IH]; [done|]. exact (f_equal S IH). Qed.

(** ** Occurrences *)

(** [p] occurs in [s] after [pre]. *)
Definition occurs (p s pre : string) : Prop := ∃ post, s = pre +:+ p +:+ post.

Lemma contains_spec s p : contains s p = true ↔ ∃ pre, occurs p s pre.
Proof.
  unfold occurs. induction s as [|a s IH]; cbn; rewrite orb_true_iff, has_prefix_spec.
  - split.
    + intros [[t Ht]|?]; [|done]. by exists "", t.
    + intros (pre & t & Ht). left. exists t. by destruct pre.
  - rewrite IH. split.
    + intros [[t Ht]|(pre & t & ->)]; [by exists "", t|by exists (String a pre), t].
    + intros ([|b pre] & t & Ht); [left; by exists t|right]. injection Ht as -> Ht. by exists pre, t.
Qed.

Lemma occurs_cons p a s pre : occurs p (String a s) (String a pre) ↔ occurs p s pre.
Proof. unfold occurs. split; intros [t Ht]; exists t; [by injection Ht|by rewrite Ht]. Qed.
Lemma occurs_head p s : has_prefix p s = true ↔ occurs p s "".
Proof. apply has_prefix_spec. Qed.
Lemma occurs_inv p a s pre :
  occurs p (String a s) pre → pre = "" ∧ has_prefix p (String a s) = true ∨ ∃ pre', pre = String a pre' ∧ occurs p s pre'.
Proof.
  intros [t Ht]. destruct pre as [|b pre].
  - left. split; [done|]. apply has_prefix_spec. by exists t.
  - injection Ht as <- Ht. right. exists pre. split; [done|]. by exists t.
Qed.
Lemma occurs_nil p pre : p ≠ "" → ¬ occurs p "" pre.
Proof. intros Hp [t Ht]. destruct pre; [|done]. by destruct p. Qed.

Lemma count_from_nonneg p k s : 0 ≤ count_from p k s.
Proof.
  revert k. induction s as [|a s IH]; intros k; cbn; [done|].
  destruct k; [|apply IH]. pose proof (IH (pred (String.length p))). pose proof (IH 0%nat). case_match; lia.
Qed.

(** Counting from [skip] bytes on finds something when [p] occurs there. *)
Lemma count_from_zero p skip s : p ≠ "" →
  count_from p skip s = 0 ↔ ∀ pre, occurs p s pre → (String.length pre < skip)%nat.
Proof.
  intros Hp. revert skip. induction s as [|a s IH]; intros skip; cbn.
  - split; [|done]. intros _ pre Hpre. by apply occurs_nil in Hpre.
  - pose proof (λ k, count_from_nonneg p k s) as Hnn.
    destruct skip as [|k]; [destruct (has_prefix p (String a s)) eqn:E|].
    + split; [specialize (Hnn (pred (String.length p))); lia|].
      intros H. specialize (H ""). cbn in H. exfalso. apply occurs_head in E. specialize (H E). lia.
    + rewrite IH. split; intros H pre Hpre.
      * destruct (occurs_inv _ _ _ _ Hpre) as [[_ ?]|(pre' & -> & Hp')]; [congruence|]. specialize (H _ Hp'). lia.
      * specialize (H (String a pre)). cbn in H. apply occurs_cons with (a := a) in Hpre. specialize (H Hpre). lia.
    + rewrite IH. split; intros H pre Hpre.
      * destruct (occurs_inv _ _ _ _ Hpre) as [[-> _]|(pre' & -> & Hp')]; cbn; [lia|]. specialize (H _ Hp'). lia.
      * specialize (H (String a pre)). cbn in H. apply occurs_cons with (a := a) in Hpre. specialize (H Hpre). lia.
Qed.

(** The first occurrence. *)
Definition first_at (p s pre : string) : Prop :=
  occurs p s pre ∧ ∀ pre', occurs p s pre' → (String.length pre ≤ String.length pre')%nat.

Lemma count_zero p s : p ≠ "" → strings_count s p = 0 ↔ ∀ pre, ¬ occurs p s pre.
Proof.
  intros Hp. unfold strings_count. rewrite count_from_zero by done. split; intros H pre Hpre.
  - specialize (H pre Hpre). lia.
  - by destruct (H pre).
Qed.

(** A count of one means that every occurrence overlaps the first. *)
Lemma count_one p s : p ≠ "" →
  strings_count s p = 1 ↔
  ∃ pre, first_at p s pre ∧ ∀ pre', occurs p s pre' → (String.length pre' < String.length pre + String.length p)%nat.
Proof.
  intros Hp. unfold strings_count, first_at. induction s as [|a s IH]; cbn.
  { split; [done|]. intros (pre & [Hpre _] & _). by apply occurs_nil in Hpre. }
  destruct p as [|b p]; [done|]. clear Hp. set (p' := String b p) in *.
  destruct (has_prefix p' (String a s)) eqn:E.
  - change (pred (String.length p')) with (String.length p).
    transitivity (count_from p' (String.length p) s = 0); [split; lia|]. rewrite count_from_zero by done. split.
    + intros H. exists "". split; [split; [by apply occurs_head|cbn; lia]|].
      intros pre' [[-> _]|(pre & -> & Hpre)]%occurs_inv; cbn; [lia|]. specialize (H _ Hpre). lia.
    + intros (pre & [_ Hmin] & H) pre' Hpre'. apply occurs_head in E. specialize (Hmin _ E).
      apply occurs_cons with (a := a) in Hpre'. specialize (H _ Hpre'). cbn in *. lia.
  - rewrite IH. split.
    + intros (pre & [Hpre Hmin] & H). exists (String a pre). split; [split; [by apply occurs_cons|]|];
        intros pre' [[_ ?]|(q & -> & Hq)]%occurs_inv; try congruence; cbn.
      * specialize (Hmin _ Hq). lia.
      * specialize (H _ Hq). cbn in H. lia.
    + intros (pre & [Hpre Hmin] & H). destruct (occurs_inv _ _ _ _ Hpre) as [[_ ?]|(q & -> & Hq)]; [congruence|].
      exists q. split; [split; [done|]|]; intros pre' Hpre'; apply occurs_cons with (a := a) in Hpre'.
      * specialize (Hmin _ Hpre'). cbn in Hmin. lia.
      * specialize (H _ Hpre'). cbn in H |- *. lia.
Qed.

Lemma replace_first_at p q pre post : p ≠ "" →
  (∀ pre', occurs p (pre +:+ p +:+ post) pre' → (String.length pre ≤ String.length pre')%nat) →
  replace_first (pre +:+ p +:+ post) p q = pre +:+ q +:+ post.
Proof.
  intros Hp. induction pre as [|a pre IH]; intros Hmin.
  - change ("" +:+ p +:+ post) with (p +:+ post) in *. destruct (p +:+ post) as [|b s] eqn:E; [by destruct p|].
    cbn [replace_first]. rewrite <- E, has_prefix_app, string_drop_app. done.
  - change (String a pre +:+ p +:+ post) with (String a (pre +:+ p +:+ post)) in *. cbn [replace_first].
    destruct (has_prefix p (String a (pre +:+ p +:+ post))) eqn:E.
    + apply occurs_head in E. specialize (Hmin _ E). cbn in Hmin. lia.
    + change (String a pre +:+ q +:+ post) with (String a (pre +:+ q +:+ post)). f_equal. apply IH.
      intros pre' Hpre'. apply occurs_cons with (a := a) in Hpre'. specialize (Hmin _ Hpre'). cbn in Hmin. lia.
Qed.

(** ** Lines *)

Lemma in_string_app c s t : in_string c (s +:+ t) = in_string c s || in_string c t.
Proof. induction s as [|a s IH]; [done|]. change (String a s +:+ t) with (String a (s +:+ t)). cbn. by rewrite IH, orb_assoc. Qed.

Lemma split_at_none c s : in_string c s = false → split_at c s = [s].
Proof. induction s as [|a s IH]; cbn; [done|]. intros [-> Hs]%orb_false_iff. by rewrite (IH Hs). Qed.
Lemma split_at_app c s t : in_string c s = false → split_at c (s +:+ String c t) = s :: split_at c t.
Proof.
  induction s as [|a s IH].
  - intros _. change ("" +:+ String c t) with (String c t). cbn. by rewrite Ascii.eqb_refl.
  - change (String a s +:+ String c t) with (String a (s +:+ String c t)). cbn.
    intros [-> Hs]%orb_false_iff. by rewrite (IH Hs).
Qed.

Definition no_newline (s : string) : Prop := in_string lf s = false.

Lemma split_join ls : ls ≠ [] → Forall no_newline ls → split_at lf (join newline ls) = ls.
Proof.
  induction ls as [|l ls IH]; [done|]. intros _ [Hl Hls]%Forall_cons. destruct ls as [|l' ls]; [by apply split_at_none|].
  rewrite join_cons by done. unfold newline at 1.
  change (l +:+ String lf "" +:+ ?t) with (l +:+ String lf t). rewrite split_at_app by done. by rewrite IH.
Qed.

(** No carriage return at the end of the line. *)
Fixpoint ends_with (c : ascii) (s : string) : bool :=
  match s with "" => false | String a s' => match s' with "" => Ascii.eqb a c | _ => ends_with c s' end end.

Lemma replace_crlf_line l : no_newline l → replace_crlf l = l.
Proof.
  unfold no_newline. induction l as [|a l IH]; [done|]. cbn. intros [Ha Hl]%orb_false_iff.
  destruct l as [|b l]; [done|]. cbn in Hl. apply orb_false_iff in Hl as Hb. destruct Hb as [-> _].
  rewrite andb_false_r. f_equal. by apply IH.
Qed.
Lemma replace_crlf_app l t : no_newline l → ends_with cr l = false →
  replace_crlf (l +:+ String lf t) = l +:+ String lf (replace_crlf t).
Proof.
  unfold no_newline. induction l as [|a l IH].
  - intros _ _. change ("" +:+ ?s) with s. cbn. by destruct t.
  - cbn. intros [Ha Hl]%orb_false_iff He. change (String a l +:+ ?s) with (String a (l +:+ s)).
    destruct l as [|b l].
    + change ("" +:+ ?s) with s. cbn. rewrite He. cbn. f_equal. by destruct t.
    + specialize (IH Hl He). change (String b l +:+ ?s) with (String b (l +:+ s)) in *. cbn in Hl.
      apply orb_false_iff in Hl as [Hb _]. cbn [replace_crlf]. rewrite Hb, andb_false_r. f_equal. exact IH.
Qed.
Lemma replace_crlf_join ls :
  Forall no_newline ls → Forall (λ l, ends_with cr l = false) ls → replace_crlf (join newline ls) = join newline ls.
Proof.
  induction ls as [|l ls IH]; [done|]. intros [Hl Hls]%Forall_cons [He Hes]%Forall_cons.
  destruct ls as [|l' ls]; [by apply replace_crlf_line|]. rewrite !join_cons by done. unfold newline at 1 3.
  change (l +:+ String lf "" +:+ ?t) with (l +:+ String lf t). rewrite replace_crlf_app by done. by rewrite IH.
Qed.

(** ** The order of strings *)

Lemma str_le_cons c d s t : str_le (String c s) (String d t) ↔ (N_of_ascii c < N_of_ascii d)%N ∨ c = d ∧ str_le s t.
Proof.
  unfold str_le, String.leb. cbn [String.compare]. unfold Ascii.compare.
  destruct (N.compare_spec (N_of_ascii c) (N_of_ascii d)) as [He|Hl|Hg].
  - assert (c = d) as -> by (rewrite <- (ascii_N_embedding c), <- (ascii_N_embedding d); by f_equal).
    split; [auto|]. intros [?|[_ ?]]; [lia|done].
  - split; auto.
  - split; [done|]. intros [?|[-> _]]; lia.
Qed.
#[export] Instance str_le_trans : Transitive str_le.
Proof.
  intros s. induction s as [|c s IH]; intros [|d t] [|x u] H1 H2; try done.
  apply str_le_cons in H1, H2. apply str_le_cons. destruct H1 as [?|[-> H1]], H2 as [?|[-> H2]]; [left; lia|by left|by left|right].
  split; [done|by eapply IH].
Qed.
#[export] Instance str_le_antisymm : AntiSymm (=) str_le.
Proof. intros s t. apply String.leb_antisym. Qed.
#[export] Instance str_le_total' : Total str_le.
Proof. intros s t. apply String.leb_total. Qed.

(** [strings.Join(strings.Split(s, c), c)] *)
Lemma join_split c s : join (String c "") (split_at c s) = s.
Proof.
  induction s as [|a s IH]; [done|]. cbn. destruct (Ascii.eqb_spec a c) as [-> | _].
  - destruct (split_at c s) as [|l ls] eqn:E; [by destruct s; cbn in E; repeat case_match|]. cbn in IH |- *. by rewrite IH.
  - destruct (split_at c s) as [|l ls] eqn:E; [by destruct s; cbn in E; repeat case_match|]. destruct ls; cbn in IH |- *; by rewrite <- IH.
Qed.
