(* ===== verification/PatchFormat.v ===== *)
(** Package [pkg/patchformat]: the patch text of the workspace tools, its
    parser and the preparation of one file operation; [applyPatchOperations]
    of [pkg/tools/fs/apply_patch.go], which runs the operations one by one;
    and that the parser accepts exactly the patches, and an update applies its
    hunks exactly where they occur. *)
From S2P Require Import Prelude GoStrings GoJson GoText.
From Stdlib Require Import Ascii.
From Equations Require Import Equations.

Inductive Kind := Add | Update | Delete.
Definition Kind_text (k : Kind) : string :=
  match k with Add => "add" | Update => "update" | Delete => "delete" end.

Record Operation := mkOperation { op_Kind : Kind; op_Path : string; op_Lines : list string }.
Record Mutation := mkMutation { mu_Path : string; mu_Action : string; mu_Before : string; mu_After : string }.

(** ** Parsing *)

Inductive ParseError :=
| NoBegin | NoOperations | PathRequired | UnsupportedHeader (line : string) | NoMove | TooManyFiles (limit : Z)
| NoEnd.

Definition headers : list (string * Kind) :=
  [("*** Add File: ", Add); ("*** Update File: ", Update); ("*** Delete File: ", Delete)].

Definition isHeader (line : string) : bool :=
  has_prefix "*** Add File: " line || has_prefix "*** Update File: " line || has_prefix "*** Delete File: " line.

Fixpoint parseHeader_loop (candidates : list (string * Kind)) (line : string) : result ParseError (Kind * string) :=
  match candidates with
  | [] => Err (UnsupportedHeader line)
  | (prefix, kind) :: candidates =>
      if has_prefix prefix line then
        let path := trim_space (trim_prefix prefix line) in
        reject String.eqb path "" with PathRequired ;; Ok (kind, path)
      else parseHeader_loop candidates line
  end.
Definition parseHeader (line : string) : result ParseError (Kind * string) := parseHeader_loop headers line.

(** The lines of one operation and the lines that follow it. *)
Fixpoint operation_lines (lines : list string) : result ParseError (list string * list string) :=
  match lines with
  | [] => Ok ([], [])
  | line :: lines' =>
      let next := trim_space line in
      if isHeader next || String.eqb next "*** End Patch" then Ok ([], lines)
      else
        reject has_prefix "*** Move to: " next with NoMove ;;
        r ← operation_lines lines'; Ok (line :: r.1, r.2)
  end.

Lemma operation_lines_length lines taken rest :
  operation_lines lines = Ok (taken, rest) → (length rest ≤ length lines)%nat.
Proof.
  revert taken rest. induction lines as [|l lines IH]; cbn; intros taken rest; [by intros [= <- <-]|].
  case_match; [intros [= <- <-]; cbn; lia|]. case_match; [done|].
  destruct (operation_lines lines) as [[t r]|]; [|done]. cbn. intros [= <- <-]. specialize (IH _ _ eq_refl). lia.
Qed.

(** The lines after the first, with the operations read so far. *)
Equations? parse_loop (maxOperations : Z) (operations : list Operation) (lines : list string) :
  result ParseError (list Operation) by wf (length lines) lt :=
parse_loop maxOperations operations [] := Err NoEnd;
parse_loop maxOperations operations (line :: rest) with trim_space line := {
  | header =>
    if String.eqb header "" then parse_loop maxOperations operations rest
    else if String.eqb header "*** End Patch" then
      (match operations with [] => Err NoOperations | _ => Ok operations end)
    else match parseHeader header with
         | Err e => Err e
         | Ok (kind, path) =>
             match operation_lines rest as r return operation_lines rest = r → _ with
             | Err e => fun _ => Err e
             | Ok (body, rest') => fun E =>
                 let operations := operations ++ [mkOperation kind path body] in
                 if (0 <? maxOperations) && (maxOperations <? Z.of_nat (length operations))
                 then Err (TooManyFiles maxOperations)
                 else parse_loop maxOperations operations rest'
             end eq_refl
         end }.
Proof. all: cbn; try lia. apply operation_lines_length in E. lia. Qed.

Definition Parse (input : string) (maxOperations : Z) : result ParseError (list Operation) :=
  match split_at lf (replace_crlf input) with
  | first :: ((_ :: _) as lines) =>
      require String.eqb (trim_space first) "*** Begin Patch" else NoBegin ;;
      parse_loop maxOperations [] lines
  | _ => Err NoBegin
  end.

(** ** Contents *)

Inductive ContentError := AddLineWithoutPlus | NoHunks | BadHunkLine | EmptyHunk | HunkNotFound | HunkAmbiguous (count : Z).
Inductive PrepareError :=
| FileExists (path : string) | FileNotFound (path : string) | BadContent (path : string) (e : ContentError).

Fixpoint added_lines (lines : list string) : result ContentError (list string) :=
  match lines with
  | [] => Ok []
  | line :: lines =>
      if String.eqb line "" then r ← added_lines lines; Ok ("" :: r)
      else
        require has_prefix "+" line else AddLineWithoutPlus ;;
        r ← added_lines lines; Ok (trim_prefix "+" line :: r)
  end.
Definition addedContent (lines : list string) : result ContentError string :=
  output ← added_lines lines; Ok (join newline output +:+ newline).

(** The loop of [splitUpdateBlocks] from its state. *)
Fixpoint split_blocks (lines : list string) (blocks : list (list string)) (current : list string) (seenHunk : bool) :
  list (list string) :=
  match lines with
  | [] => if (0 <? Z.of_nat (length current)) then blocks ++ [current] else blocks
  | line :: lines =>
      if has_prefix "@@" line then
        split_blocks lines (if seenHunk && (0 <? Z.of_nat (length current)) then blocks ++ [current] else blocks) [] true
      else if negb seenHunk && blank line then split_blocks lines blocks current seenHunk
      else split_blocks lines blocks (current ++ [line]) true
  end.
Definition splitUpdateBlocks (lines : list string) : list (list string) := split_blocks lines [] [] false.

Definition no_newline_marker : string := "\ No newline at end of file".
Fixpoint blockTexts (lines : list string) : result ContentError (string * string) :=
  match lines with
  | [] => Ok ("", "")
  | line :: lines =>
      if String.eqb line no_newline_marker then blockTexts lines
      else
        match line with
        | "" => Err BadHunkLine
        | String mark text =>
            let text := text +:+ newline in
            if Ascii.eqb mark " " then r ← blockTexts lines; Ok (text +:+ r.1, text +:+ r.2)
            else if Ascii.eqb mark "-" then r ← blockTexts lines; Ok (text +:+ r.1, r.2)
            else if Ascii.eqb mark "+" then r ← blockTexts lines; Ok (r.1, text +:+ r.2)
            else Err BadHunkLine
        end
  end.

Fixpoint apply_blocks (content : string) (blocks : list (list string)) : result ContentError string :=
  match blocks with
  | [] => Ok content
  | block :: blocks =>
      r ← blockTexts block;
      let '(oldText, newText) := r in
      reject String.eqb oldText "" with EmptyHunk ;;
      let count := strings_count content oldText in
      reject count =? 0 with HunkNotFound ;;
      reject 1 <? count with HunkAmbiguous count ;;
      apply_blocks (replace_first content oldText newText) blocks
  end.
Definition updatedContent (before : string) (lines : list string) : result ContentError string :=
  match splitUpdateBlocks lines with
  | [] => Err NoHunks
  | blocks => apply_blocks before blocks
  end.

(** [None] for the zero [Mutation] that comes with an error; [Kind] has no
    other values than its constructors in what [Parse] returns. *)
Definition Prepare (operation : Operation) (before : string) (exists_ : bool) : result PrepareError Mutation :=
  let path := op_Path operation in
  let content (r : result ContentError string) (before : string) :=
    match r with
    | Err e => Err (BadContent path e)
    | Ok after => Ok (mkMutation path (Kind_text (op_Kind operation)) before after)
    end in
  match op_Kind operation with
  | Add => reject exists_ with FileExists path ;; content (addedContent (op_Lines operation)) ""
  | Delete => require exists_ else FileNotFound path ;; Ok (mkMutation path (Kind_text Delete) before "")
  | Update => require exists_ else FileNotFound path ;; content (updatedContent before (op_Lines operation)) before
  end.

(** ** Running a patch on a file system

    A file is absent, readable or unreadable; [writable] says whether a write
    or a removal of the path succeeds. *)
Inductive ApplyError := ReadFailed (path : string) | PrepareFailed (e : PrepareError) | WriteFailedAt (path : string).
Record Files := mkFiles { fs_files : gmap string string; fs_unreadable : gset string }.

Definition applyPatchOperation (writable : string → bool) (s : Files) (o : Operation) : Files * result ApplyError Mutation :=
  let path := op_Path o in
  let found := fs_files s !! path in
  let unreadable := bool_decide (path ∈ fs_unreadable s) in
  let adds := match op_Kind o with Add => true | _ => false end in
  if unreadable || (bool_decide (found = None) && negb adds) then (s, Err (ReadFailed path)) else
  match Prepare o (default "" found) (bool_decide (is_Some found)) with
  | Err e => (s, Err (PrepareFailed e))
  | Ok m =>
      if negb (writable (mu_Path m)) then (s, Err (WriteFailedAt (mu_Path m))) else
      (mkFiles
         (match op_Kind o with
          | Delete => delete (mu_Path m) (fs_files s)
          | _ => <[mu_Path m := mu_After m]> (fs_files s)
          end) (fs_unreadable s), Ok m)
  end.

Fixpoint applyPatchOperations (writable : string → bool) (s : Files) (ops : list Operation) :
  Files * (list Mutation * option ApplyError) :=
  match ops with
  | [] => (s, ([], None))
  | o :: ops =>
      match applyPatchOperation writable s o with
      | (s, Err e) => (s, ([], Some e))
      | (s, Ok m) => let '(s, (results, err)) := applyPatchOperations writable s ops in (s, (m :: results, err))
      end
  end.

(** ** Rendering *)

Definition header (o : Operation) : string :=
  match op_Kind o with
  | Add => "*** Add File: " | Update => "*** Update File: " | Delete => "*** Delete File: "
  end +:+ op_Path o.

(** The text of a patch: what [Parse] is to read back. *)
Definition render_lines (ops : list Operation) : list string := ops ≫= fun o => header o :: op_Lines o.
Definition render (ops : list Operation) : string :=
  join newline ("*** Begin Patch" :: render_lines ops ++ ["*** End Patch"]).

(** Texts that stay one line each, a trimmed path that is not empty, and lines
    that do not look like the frame of a patch. *)
Definition one_line (s : string) : Prop := no_newline s ∧ ends_with cr s = false.
Definition plain (s : string) : Prop :=
  isHeader (trim_space s) = false ∧ trim_space s ≠ "*** End Patch" ∧ has_prefix "*** Move to: " (trim_space s) = false.
Definition body_line (s : string) : Prop := one_line s ∧ plain s.
Definition printable (o : Operation) : Prop :=
  op_Path o ≠ "" ∧ trim_space (op_Path o) = op_Path o ∧ no_newline (op_Path o) ∧ Forall body_line (op_Lines o).

Example parse_ex : Parse (render [mkOperation Add "a.txt" ["+x"]; mkOperation Update "b" ["@@"; "-y"; "+z"]; mkOperation Delete "c" []]) 3
  = Ok [mkOperation Add "a.txt" ["+x"]; mkOperation Update "b" ["@@"; "-y"; "+z"]; mkOperation Delete "c" []].
Proof. vm_compute. reflexivity. Qed.
Example prepare_ex : Prepare (mkOperation Update "b" ["@@"; "-y"; "+z"]) ("x" +:+ newline +:+ "y" +:+ newline) true
  = Ok (mkMutation "b" "update" ("x" +:+ newline +:+ "y" +:+ newline) ("x" +:+ newline +:+ "z" +:+ newline)).
Proof. vm_compute. reflexivity. Qed.

(** * What the parser and an update do

    The patch format: the parser accepts exactly the texts laid out as a patch,
    and an update applies its hunks exactly where they occur. *)

(** ** Trimmed strings *)

Definition trimmed (s : string) : Prop := trim_space s = s.

Lemma bytes_app s t : bytes (s +:+ t) = bytes s ++ bytes t.
Proof. induction s as [|a s IH]; [done|]. exact (f_equal (cons (byte_of a)) IH). Qed.

Lemma trim_from_fixed ws l : trim_from ws 0 l = l → Forall (λ w, w ≠ []) ws → match_width ws l = None.
Proof.
  intros Hl Hws. destruct l as [|b l].
  - clear Hl. induction Hws as [|[|? ?] ws Hw _ IH]; [done..|exact IH].
  - cbn [trim_from] in Hl. destruct (match_width ws (b :: l)) as [n|]; [|done].
    destruct (trim_from_suffix ws (n - 1) l) as [k Hk]. rewrite Hl in Hk.
    apply (f_equal length) in Hk. rewrite length_app in Hk. cbn in Hk. lia.
Qed.

Lemma white_nonempty : Forall (λ w, w ≠ []) white_space ∧ Forall (λ w, w ≠ []) (@rev Z <$> white_space).
Proof. split; repeat constructor; discriminate. Qed.

Lemma trimmed_iff s :
  trimmed s ↔ match_width white_space (bytes s) = None ∧ match_width (@rev Z <$> white_space) (rev (bytes s)) = None.
Proof.
  unfold trimmed. destruct white_nonempty as [Hw Hr]. split.
  - intros Hs. apply (f_equal bytes) in Hs. unfold trim_space in Hs.
    rewrite bytes_of_bytes in Hs by apply trim_bytes_range, bytes_range.
    destruct (trim_right_prefix (trim_left (bytes s))) as [k Hk].
    destruct (trim_from_suffix white_space 0 (bytes s)) as [k' Hk']. fold (trim_left (bytes s)) in Hk'.
    rewrite Hs in Hk. assert (k = [] ∧ k' = []) as [-> ->].
    { apply (f_equal length) in Hk, Hk'. rewrite length_app in Hk, Hk'. destruct k, k'; cbn in *; done || lia. }
    rewrite app_nil_r in Hk. rewrite Hk in Hs. split; [by apply trim_from_fixed|].
    apply trim_from_fixed; [|done]. apply (f_equal (@rev Z)) in Hs. unfold trim_right in Hs. by rewrite rev_involutive in Hs.
  - intros [H1 H2]. unfold trim_space, trim_left, trim_right.
    by rewrite (trim_from_id _ _ H1), (trim_from_id _ _ H2), rev_involutive, of_bytes_bytes.
Qed.

Lemma starts_with_space w y l r : 32 ∉ tail w → starts_with w (y :: l ++ 32 :: r) = starts_with w (y :: l).
Proof.
  destruct w as [|x w]; [done|]. cbn. intros Hw. f_equal. revert l. induction w as [|z w IH]; intros l; [done|].
  apply not_elem_of_cons in Hw as [Hz Hw]. destruct l as [|y' l]; cbn.
  - by replace (z =? 32) with false by lia.
  - f_equal. by apply IH.
Qed.
Lemma match_width_space ws y l r :
  Forall (λ w, 32 ∉ tail w) ws → match_width ws (y :: l ++ 32 :: r) = match_width ws (y :: l).
Proof. induction 1 as [|w ws Hw _ IH]; [done|]. cbn [match_width]. by rewrite starts_with_space, IH. Qed.
Lemma white_tails : Forall (λ w, 32 ∉ tail w) (@rev Z <$> white_space).
Proof. eapply bool_decide_eq_true_1. vm_compute. reflexivity. Qed.

(** A path after the space of a header. *)
Lemma trimmed_after_space h p : trimmed p → p ≠ "" → match_width white_space (bytes (h +:+ " " +:+ p)) = None →
  trimmed (h +:+ " " +:+ p).
Proof.
  intros Hp Hne Hh. apply trimmed_iff in Hp as [_ Hp]. apply trimmed_iff. split; [done|].
  rewrite !bytes_app, !rev_app_distr, <- app_assoc. change (rev (bytes " ")) with [32].
  destruct (rev (bytes p)) as [|y l] eqn:E.
  - apply (f_equal (@rev Z)) in E. rewrite rev_involutive in E. by destruct p.
  - cbn [app]. by rewrite match_width_space by apply white_tails.
Qed.

Lemma trimmed_no_cr s : trimmed s → ends_with cr s = false.
Proof.
  intros [_ Hs]%trimmed_iff. destruct (ends_with cr s) eqn:E; [|done]. exfalso.
  assert (∃ l, bytes s = l ++ [13]) as [l Hl].
  { clear Hs. induction s as [|a s IH]; [done|]. destruct s as [|b s].
    - cbn in E. apply Ascii.eqb_eq in E as ->. by exists [].
    - destruct (IH E) as [l Hl]. exists (byte_of a :: l). change (byte_of a :: bytes (String b s) = (byte_of a :: l) ++ [13]).
      by rewrite Hl. }
  by rewrite Hl, rev_unit in Hs.
Qed.

(** ** Reading back what was printed *)

Lemma header_ascii o : ∃ h, header o = h +:+ " " +:+ op_Path o ∧ match_width white_space (bytes (header o)) = None
  ∧ no_newline h.
Proof.
  unfold header. destruct (op_Kind o);
    [exists "*** Add File:"|exists "*** Update File:"|exists "*** Delete File:"]; repeat split;
    rewrite ?bytes_app; reflexivity.
Qed.

Section printable.
Context (o : Operation) (Ho : printable o).

Lemma header_trimmed : trimmed (header o).
Proof.
  destruct (header_ascii o) as (h & Hh & Hw & _). destruct Ho as (Hne & Ht & _). rewrite Hh in Hw |- *.
  by apply trimmed_after_space.
Qed.
Lemma header_line : one_line (header o).
Proof.
  split; [|apply trimmed_no_cr, header_trimmed]. destruct (header_ascii o) as (h & -> & _ & Hh).
  destruct Ho as (_ & _ & Hnl & _). unfold no_newline in *. by rewrite !in_string_app, Hh, Hnl.
Qed.
Lemma header_parsed : parseHeader (header o) = Ok (op_Kind o, op_Path o).
Proof.
  destruct Ho as (Hne & Ht & _). unfold parseHeader, headers, header. apply String.eqb_neq in Hne.
  destruct (op_Kind o); cbn [parseHeader_loop];
    repeat (match goal with |- context [has_prefix ?p (?q +:+ ?r)] =>
      first [rewrite (has_prefix_app p r)|change (has_prefix p (q +:+ r)) with false] end; cbn iota);
    by rewrite trim_prefix_app, Ht, Hne.
Qed.
Lemma header_kept : header o ≠ "" ∧ header o ≠ "*** End Patch".
Proof. unfold header. by destruct (op_Kind o). Qed.
End printable.

(** What ends the lines of an operation. *)
Definition stop (lines : list string) : Prop :=
  match lines with [] => True | l :: _ => isHeader (trim_space l) = true ∨ trim_space l = "*** End Patch" end.

Lemma operation_lines_app body rest : Forall plain body → stop rest → operation_lines (body ++ rest) = Ok (body, rest).
Proof.
  intros Hb Hr. induction Hb as [|l body (H1 & H2 & H3) _ IH]; cbn [app operation_lines].
  - destruct rest as [|l rest]; [done|]. cbn [operation_lines].
    destruct Hr as [->| ->]; [done|]. by rewrite String.eqb_refl, orb_true_r.
  - apply String.eqb_neq in H2. by rewrite H1, H2, H3, IH.
Qed.
Lemma operation_lines_ok lines : ∀ body rest, operation_lines lines = Ok (body, rest) → lines = body ++ rest ∧ Forall plain body ∧ stop rest.
Proof.
  induction lines as [|l lines IH]; intros body rest; cbn [operation_lines]; [by intros [= <- <-]|].
  destruct (_ || _) eqn:E; [intros [= <- <-]; split_and!; [done..|]; apply orb_true_iff in E as [E|E%String.eqb_eq]; [by left|by right]|].
  apply orb_false_iff in E as [E1 E2%String.eqb_neq]. intros [E3 Hr]%reject_ok. apply result_bind_ok in Hr as ([b r] & Hr & [= <- <-]).
  destruct (IH _ _ Hr) as (-> & Hb & Hs). split_and!; [done|by constructor|done].
Qed.

Definition fits (maxOperations : Z) (n : nat) : Prop := maxOperations ≤ 0 ∨ Z.of_nat n ≤ maxOperations.

Lemma parse_loop_cons maxOperations acc line rest : parse_loop maxOperations acc (line :: rest) =
  let header := trim_space line in
  if String.eqb header "" then parse_loop maxOperations acc rest
  else if String.eqb header "*** End Patch" then match acc with [] => Err NoOperations | _ => Ok acc end
  else match parseHeader header with
  | Err e => Err e
  | Ok (kind, path) =>
      match operation_lines rest with
      | Err e => Err e
      | Ok (body, rest') =>
          let operations := acc ++ [mkOperation kind path body] in
          if (0 <? maxOperations) && (maxOperations <? Z.of_nat (length operations)) then Err (TooManyFiles maxOperations)
          else parse_loop maxOperations operations rest'
      end
  end.
Proof.
  simp parse_loop. cbn -[parseHeader]. destruct (String.eqb _ _); [done|]. destruct (String.eqb _ _); [done|].
  destruct (parseHeader _) as [[kind path]|e]; [|done].
  generalize (@eq_refl _ (operation_lines rest)). generalize (operation_lines rest) at 2 3.
  intros r Hr. destruct r as [[body rest']|e]; by rewrite Hr.
Qed.
Lemma too_many maxOperations n : (0 <? maxOperations) && (maxOperations <? Z.of_nat n) = false ↔ fits maxOperations n.
Proof. unfold fits. rewrite andb_false_iff, !Z.ltb_ge. done. Qed.

(** A line that begins an operation: after the text of its kind there is a path. *)
Definition heads (line : string) (o : Operation) : Prop :=
  ∃ text, trim_space line = match op_Kind o with
    | Add => "*** Add File: " | Update => "*** Update File: " | Delete => "*** Delete File: " end +:+ text ∧
  trim_space text = op_Path o ∧ op_Path o ≠ "".
(** The lines of the operations, each after the line that begins it. *)
Fixpoint framed (hs : list string) (ops : list Operation) : list string :=
  match hs, ops with h :: hs, o :: ops => h :: op_Lines o ++ framed hs ops | _, _ => [] end.

Lemma parseHeader_ok line kind path : parseHeader line = Ok (kind, path) ↔
  ∃ text, line = match kind with
    | Add => "*** Add File: " | Update => "*** Update File: " | Delete => "*** Delete File: " end +:+ text ∧
  trim_space text = path ∧ path ≠ "".
Proof.
  unfold parseHeader, headers. split.
  - intros H. cbn [parseHeader_loop] in H.
    destruct (has_prefix "*** Add File: " line) eqn:E1; [|destruct (has_prefix "*** Update File: " line) eqn:E2;
      [|destruct (has_prefix "*** Delete File: " line) eqn:E3; [|done]]];
      [apply has_prefix_spec in E1 as [text ->]|apply has_prefix_spec in E2 as [text ->]|apply has_prefix_spec in E3 as [text ->]];
      rewrite trim_prefix_app in H; apply reject_ok in H as [Hne%String.eqb_neq [= <- <-]]; by exists text.
  - intros (text & -> & Ht & Hne%String.eqb_neq). destruct kind; cbn [parseHeader_loop];
      repeat (match goal with |- context [has_prefix ?p (?q +:+ ?r)] =>
        first [rewrite (has_prefix_app p r)|change (has_prefix p (q +:+ r)) with false] end; cbn iota);
      by rewrite trim_prefix_app, Ht, Hne.
Qed.
Lemma heads_parsed h o : heads h o ↔ parseHeader (trim_space h) = Ok (op_Kind o, op_Path o).
Proof. symmetry. apply parseHeader_ok. Qed.
Lemma heads_header h o : heads h o → isHeader (trim_space h) = true.
Proof. intros (text & -> & _). unfold isHeader. destruct (op_Kind o); rewrite has_prefix_app, ?orb_true_r; done. Qed.
Lemma framed_stop hs ops last rest : Forall2 heads hs ops → trim_space last = "*** End Patch" → stop (framed hs ops ++ last :: rest).
Proof. intros [|h o hs' ops' Hh _] Hl; [by right|]. left. by eapply heads_header. Qed.
Lemma stop_no_blank blanks lines : Forall (fun l => trim_space l = "") blanks → stop (blanks ++ lines) → blanks = [].
Proof. intros [|l blanks' Hl _]; [done|]. intros [Hs|Hs]; by rewrite Hl in Hs. Qed.

(** The lines of a patch after its first: blank ones, the operations, each its
    heading and its lines, the end, and anything. *)
Definition laid_out (lines : list string) (ops : list Operation) : Prop := ∃ blanks hs last rest,
  lines = blanks ++ framed hs ops ++ last :: rest ∧ Forall (fun l => trim_space l = "") blanks ∧
  Forall2 heads hs ops ∧ Forall (fun o => Forall plain (op_Lines o)) ops ∧ trim_space last = "*** End Patch".

Lemma parse_loop_ok maxOperations n : ∀ lines acc ops, (length lines ≤ n)%nat → parse_loop maxOperations acc lines = Ok ops →
  ops ≠ [] ∧ ∃ new, ops = acc ++ new ∧ laid_out lines new ∧ (new = [] ∨ fits maxOperations (length ops)).
Proof.
  induction n as [|n IH]; intros [|line lines] acc ops Hn; cbn [length] in Hn; try lia; [by simp parse_loop..|].
  rewrite parse_loop_cons. cbv zeta. destruct (String.eqb_spec (trim_space line) "") as [Hb|Hb].
  { intros (Hne & new & -> & (blanks & hs & last & rest & -> & H1 & H2 & H3 & H4) & Hfit)%IH; [|lia].
    split; [done|]. exists new. split_and!; try done. exists (line :: blanks), hs, last, rest. split_and!; try done. by constructor. }
  destruct (String.eqb_spec (trim_space line) "*** End Patch") as [He|He].
  { intros Hok. assert (acc = ops ∧ ops ≠ []) as [-> Hne] by (destruct acc; [done|]; by injection Hok as <-).
    split; [done|]. exists []. split_and!; [by rewrite app_nil_r| |by left]. exists [], [], line, lines. by split_and!. }
  destruct (parseHeader (trim_space line)) as [[kind path]|e] eqn:Hh; [|done].
  destruct (operation_lines lines) as [[body rest']|e] eqn:Ho; [|done]. apply operation_lines_ok in Ho as (-> & Hbody & Hstop).
  destruct (_ && _) eqn:Hmany; [done|]. apply too_many in Hmany. rewrite length_app in Hn.
  intros (Hne & new & -> & (blanks & hs & last & rest & -> & H1 & H2 & H3 & H4) & Hfit)%IH; [|lia].
  apply stop_no_blank in Hstop as ->; [|done]. split; [done|]. exists (mkOperation kind path body :: new). split_and!.
  - by rewrite <- app_assoc.
  - exists [], (line :: hs), last, rest. cbn [framed op_Lines app]. rewrite <- app_assoc. split_and!; try done.
    + constructor; [by apply heads_parsed|done].
    + by constructor.
  - right. destruct Hfit as [->|Hfit]; [|exact Hfit]. by rewrite app_nil_r.
Qed.
Lemma parse_loop_back maxOperations hs new last rest : Forall2 heads hs new → Forall (fun o => Forall plain (op_Lines o)) new →
  trim_space last = "*** End Patch" → ∀ acc, acc ++ new ≠ [] → new = [] ∨ fits maxOperations (length (acc ++ new)) →
  parse_loop maxOperations acc (framed hs new ++ last :: rest) = Ok (acc ++ new).
Proof.
  intros Hhs. induction Hhs as [|h o hs new Hh Hhs IH]; intros Hl Hlast acc Hne Hfit.
  - cbn [framed app]. rewrite parse_loop_cons. cbv zeta. rewrite Hlast. cbn. rewrite app_nil_r in *. by destruct acc.
  - apply Forall_cons in Hl as [Ho Hl]. destruct Hfit as [|Hfit]; [done|]. cbn [framed app]. rewrite <- app_assoc, parse_loop_cons. cbv zeta.
    pose proof (proj1 (heads_parsed _ _) Hh) as Hp.
    destruct (String.eqb_spec (trim_space h) "") as [E|_]; [by rewrite E in Hp|].
    destruct (String.eqb_spec (trim_space h) "*** End Patch") as [E|_]; [by rewrite E in Hp|].
    rewrite Hp, operation_lines_app by (try done; by apply framed_stop).
    replace (mkOperation (op_Kind o) (op_Path o) (op_Lines o)) with o by (by destruct o).
    rewrite (proj2 (too_many _ _)).
    + rewrite IH; rewrite <- ?app_assoc; cbn [app]; try done. by right.
    + unfold fits in *. rewrite !length_app in *. cbn [length] in *. lia.
Qed.
(** C27. What a patch is.  The parser accepts a text exactly if its first line
    is the begin marker, then come blank lines, then the operations, each a
    heading with its kind and a path and the lines up to the next heading,
    then the end marker, and then anything; there is an operation, and no more
    than allowed.  The operations it answers are these, with the lines as they
    stand.  Lines end with a newline, with or without a carriage return before
    it; markers and headings may be indented; a line that moves a file is
    refused. *)
Theorem parse_exact input maxOperations ops : Parse input maxOperations = Ok ops ↔
  ops ≠ [] ∧ fits maxOperations (length ops) ∧ ∃ first lines,
    split_at lf (replace_crlf input) = first :: lines ∧ trim_space first = "*** Begin Patch" ∧ laid_out lines ops.
Proof.
  unfold Parse. split.
  - destruct (split_at lf (replace_crlf input)) as [|first [|l lines]] eqn:E; [done..|]. destruct (String.eqb_spec (trim_space first) "*** Begin Patch") as [Hf|]; [|done]. intros Hl.
    apply (parse_loop_ok _ (length (l :: lines))) in Hl as (Hne & new & -> & Hl & Hfit); [|done].
    cbn [app] in *. split; [done|]. destruct Hfit as [->|Hfit]; [done|]. split; [done|]. by exists first, (l :: lines).
  - intros (Hne & Hfit & first & lines & -> & -> & (blanks & hs & last & rest & -> & H1 & H2 & H3 & H4)).
    assert (∀ blanks, Forall (fun l => trim_space l = "") blanks →
      parse_loop maxOperations [] (blanks ++ framed hs ops ++ last :: rest) = Ok ops) as Hok.
    { intros bl. induction 1 as [|b bl Hb _ IH]; cbn [app].
      - apply (parse_loop_back maxOperations hs ops last rest H2 H3 H4 []); [done|by right].
      - rewrite parse_loop_cons. cbv zeta. by rewrite Hb. }
    specialize (Hok _ H1). destruct (blanks ++ framed hs ops ++ last :: rest) as [|l lines] eqn:E; [by destruct blanks, (framed hs ops)|].
    by rewrite String.eqb_refl.
Qed.

Lemma render_lines_cons o ops : render_lines (o :: ops) = header o :: op_Lines o ++ render_lines ops.
Proof. done. Qed.
Lemma render_framed ops : render_lines ops = framed (header <$> ops) ops.
Proof. induction ops as [|o ops IH]; [done|]. rewrite render_lines_cons, IH. done. Qed.
Lemma header_heads o : printable o → heads (header o) o.
Proof. intros Ho. apply heads_parsed. rewrite header_trimmed by done. by apply header_parsed. Qed.

Lemma render_one_line ops : Forall printable ops → Forall one_line (render_lines ops).
Proof.
  induction 1 as [|o ops Ho _ IH]; [constructor|]. rewrite render_lines_cons. constructor; [by apply header_line|].
  apply Forall_app. split; [|done]. destruct Ho as (_ & _ & _ & Hl). eapply Forall_impl; [done|]. by intros ? [? _].
Qed.

(** Printing a list of operations and parsing the text gives the operations
    back, when they are as many as allowed, their paths are trimmed one-line
    names and no line of theirs looks like the frame of a patch. *)
Theorem parse_render maxOperations ops :
  ops ≠ [] → Forall printable ops → fits maxOperations (length ops) →
  Parse (render ops) maxOperations = Ok ops.
Proof.
  intros Hne Hops Hfit. pose proof (render_one_line _ Hops) as Hl.
  assert (Hall : Forall one_line ("*** Begin Patch" :: render_lines ops ++ ["*** End Patch"])).
  { constructor; [done|]. apply Forall_app. by split; [|repeat constructor]. }
  apply Forall_and in Hall as [H1 H2]. apply parse_exact. split; [done|]. split; [done|]. unfold render.
  rewrite replace_crlf_join by done. rewrite split_join by done. eexists _, _. split; [done|]. split; [done|].
  exists [], (header <$> ops), "*** End Patch", []. rewrite <- render_framed. split_and!; try done.
  - apply Forall2_fmap_l, Forall_Forall2_diag. eapply Forall_impl; [done|]. apply header_heads.
  - eapply Forall_impl; [done|]. intros o (_ & _ & _ & Ho). eapply Forall_impl; [done|]. by intros l [_ ?].
Qed.

(** ** Updates *)

(** Each block replaces the first occurrence of its old text, and every other
    occurrence overlaps that one. *)
Inductive edited : list (list string) → string → string → Prop :=
| edited_nil s : edited [] s s
| edited_cons block blocks old new pre post after :
    blockTexts block = Ok (old, new) → old ≠ "" →
    first_at old (pre +:+ old +:+ post) pre →
    (∀ pre', occurs old (pre +:+ old +:+ post) pre' →
       (String.length pre' < String.length pre + String.length old)%nat) →
    edited blocks (pre +:+ new +:+ post) after →
    edited (block :: blocks) (pre +:+ old +:+ post) after.

Lemma apply_blocks_exact blocks s after : apply_blocks s blocks = Ok after ↔ edited blocks s after.
Proof.
  revert s. induction blocks as [|block blocks IH]; intros s; cbn [apply_blocks].
  { split; [intros [= ->]; constructor|]. by inversion 1. }
  destruct (blockTexts block) as [[old new]|e] eqn:Hb; cbn; [|split; [done|inversion 1; congruence]].
  destruct (decide (old = "")) as [->|Hne]; [split; [done|inversion 1; congruence]|].
  assert (String.eqb old "" = false) as -> by by apply String.eqb_neq.
  pose proof (count_from_nonneg old 0 s) as Hnn. fold (strings_count s old) in Hnn. split.
  - destruct (strings_count s old =? 0) eqn:E0; [done|]. destruct (1 <? strings_count s old) eqn:E1; [done|].
    intros Hs. assert (strings_count s old = 1) as H1 by lia.
    apply count_one in H1 as (pre & [[post ->] Hmin] & Hover); [|done].
    rewrite replace_first_at in Hs by done. apply IH in Hs. econstructor; try done. split; [by exists post|done].
  - inversion 1 as [|? ? old' new' pre post ? Hb' Hne' Hfirst Hover Hrest]; subst. rewrite Hb in Hb'. injection Hb' as <- <-.
    assert (strings_count (pre +:+ old +:+ post) old = 1) as -> by (apply count_one; [done|]; by exists pre).
    cbn. destruct Hfirst as [_ Hmin]. rewrite replace_first_at by done. by apply IH.
Qed.

(** C35. An update succeeds exactly when its file exists and it has a hunk, and
    then each hunk in turn replaces its old text, which must occur and not
    occur twice without overlap, at the first place where it occurs; the rest
    of the file stays as it is. *)
Theorem update_exact path lines before exists_ m :
  Prepare (mkOperation Update path lines) before exists_ = Ok m ↔
  exists_ = true ∧ splitUpdateBlocks lines ≠ [] ∧
  ∃ after, edited (splitUpdateBlocks lines) before after ∧ m = mkMutation path "update" before after.
Proof.
  unfold Prepare, updatedContent. cbn [op_Kind op_Path op_Lines]. destruct exists_; [|split; [done|by intros [? _]]].
  destruct (splitUpdateBlocks lines) as [|b bs]; [split; [done|intros (_ & Hn & _); by destruct Hn]|].
  setoid_rewrite <- apply_blocks_exact. destruct (apply_blocks before (b :: bs)) as [after|e].
  - split; [intros [= <-]; eauto|]. by intros (_ & _ & after' & [= <-] & ->).
  - split; [done|]. by intros (_ & _ & after' & ? & _).
Qed.

(** Nothing but an update or a removal touches a file that exists. *)
Lemma add_refuses_existing path lines before : Prepare (mkOperation Add path lines) before true = Err (FileExists path).
Proof. done. Qed.

(** A hunk that fits in two places is applied when the places overlap, and
    a hunk is also applied in the middle of a line, though both are meant to be
    refused: the count of the occurrences skips overlapping ones, and the texts
    are compared from anywhere in a line. *)
Theorem ambiguous_hunk_accepted :
  let file := join newline ["x"; "x"; "x"; ""] in
  let old := join newline ["x"; "x"; ""] in
  (occurs old file "" ∧ occurs old file (join newline ["x"; ""])
   ∧ Prepare (mkOperation Update "f" ["@@"; " x"; "+y"; " x"]) file true
     = Ok (mkMutation "f" "update" file (join newline ["x"; "y"; "x"; "x"; ""])))
  ∧ Prepare (mkOperation Update "f" ["@@"; "-bar"; "+baz"]) (join newline ["foobar"; ""]) true
    = Ok (mkMutation "f" "update" (join newline ["foobar"; ""]) (join newline ["foobaz"; ""])).
Proof.
  cbn zeta. split; [split; [|split]|vm_compute; reflexivity].
  - by exists (join newline ["x"; ""]).
  - by exists "".
  - vm_compute. reflexivity.
Qed.

(** ** Running a patch *)

Lemma applyPatchOperation_ok writable s o s' m :
  applyPatchOperation writable s o = (s', Ok m) →
  mu_Path m = op_Path o ∧ Prepare o (default "" (fs_files s !! op_Path o)) (bool_decide (is_Some (fs_files s !! op_Path o))) = Ok m
  ∧ fs_files s' = match op_Kind o with
                  | Delete => delete (op_Path o) (fs_files s)
                  | _ => <[op_Path o := mu_After m]> (fs_files s)
                  end.
Proof.
  unfold applyPatchOperation. case_match; [done|].
  destruct (Prepare _ _ _) as [m'|] eqn:Hp; [|done]. destruct (writable (mu_Path m')); cbn [negb]; [|discriminate]. intros [= <- <-].
  assert (mu_Path m' = op_Path o) as ->; [|done].
  revert Hp. unfold Prepare. destruct o as [[] p l]; cbn; repeat case_match; intros; simplify_eq/=; done.
Qed.
Lemma applyPatchOperation_err writable s o s' e : applyPatchOperation writable s o = (s', Err e) → s' = s.
Proof. unfold applyPatchOperation. repeat case_match; naive_solver. Qed.

(** A patch runs its operations in order up to the first that fails, which
    changes nothing; the files of the other operations are as they were. *)
Theorem patch_applies_prefix writable s ops s' results err :
  applyPatchOperations writable s ops = (s', (results, err)) →
  let run := take (length results) ops in
  mu_Path <$> results = op_Path <$> run
  ∧ (err = None ↔ length results = length ops)
  ∧ ∀ path, path ∉ op_Path <$> run → fs_files s' !! path = fs_files s !! path.
Proof.
  revert s results. induction ops as [|o ops IH]; intros s results; cbn [applyPatchOperations].
  { intros [= <- <- <-]. done. }
  destruct (applyPatchOperation writable s o) as [s1 [m|e]] eqn:Ho.
  - apply applyPatchOperation_ok in Ho as (Hp & _ & Hf).
    destruct (applyPatchOperations writable s1 ops) as [s2 [rs er]] eqn:Hr. intros [= <- <- <-].
    specialize (IH _ _ Hr) as (H1 & H2 & H3). cbn. rewrite Hp, H1. split; [done|]. split; [rewrite H2; lia|].
    intros path [Hn Hpath]%not_elem_of_cons. rewrite H3 by done. rewrite Hf.
    destruct (op_Kind o); (rewrite lookup_insert_ne || rewrite lookup_delete_ne); done.
  - intros [= <- <- <-]. apply applyPatchOperation_err in Ho as ->. cbn. naive_solver.
Qed.
