(* ===== verification/LoopGuard.v ===== *)
(** Package [pkg/tools/loopguard], controller.go: repetition of tool calls
    within a turn, counted over a bounded set of call signatures; and that the
    counts are those of the history of the turn. *)
From S2P Require Import Prelude GoStrings.
From Stdlib Require Import Ascii.
From stdpp Require Import pretty.
#[local] Open Scope Z_scope.

Inductive Action := ActionAllow | ActionWarn | ActionBlock | ActionHalt.
Inductive Semantics := SemanticsUnknown | SemanticsReadOnlyIdempotent | SemanticsMutating.
#[export] Instance action_eq : EqDecision Action.
Proof. solve_decision. Defined.
#[export] Instance semantics_eq : EqDecision Semantics.
Proof. solve_decision. Defined.

Record Config := mkConfig {
  Enabled : bool; WarningsEnabled : bool; HardStopsEnabled : bool;
  ExactFailureWarn : Z; ExactFailureBlock : Z;
  SameToolFailureWarn : Z; SameToolFailureHalt : Z;
  NoProgressWarn : Z; NoProgressBlock : Z;
  IdenticalCallWarn : Z; IdenticalCallHalt : Z;
  MaxSignatures : Z }.
#[export] Instance eta_Config : Eta Config := fun c =>
  mkConfig (Enabled c) (WarningsEnabled c) (HardStopsEnabled c) (ExactFailureWarn c) (ExactFailureBlock c)
    (SameToolFailureWarn c) (SameToolFailureHalt c) (NoProgressWarn c) (NoProgressBlock c)
    (IdenticalCallWarn c) (IdenticalCallHalt c) (MaxSignatures c).

Definition DefaultConfig : Config := mkConfig true true false 2 5 3 8 2 5 2 4 64.

Definition Normalized (c : Config) : Config :=
  let defaults := DefaultConfig in
  let positive (v d : Z) := if v <=? 0 then d else v in
  let at_least (v warn d : Z) := if v <? warn then Z.max d warn else v in
  let exactWarn := positive (ExactFailureWarn c) (ExactFailureWarn defaults) in
  let sameWarn := positive (SameToolFailureWarn c) (SameToolFailureWarn defaults) in
  let progressWarn := positive (NoProgressWarn c) (NoProgressWarn defaults) in
  mkConfig (Enabled c) (WarningsEnabled c) (HardStopsEnabled c)
    exactWarn (at_least (ExactFailureBlock c) exactWarn (ExactFailureBlock defaults))
    sameWarn (at_least (SameToolFailureHalt c) sameWarn (SameToolFailureHalt defaults))
    progressWarn (at_least (NoProgressBlock c) progressWarn (NoProgressBlock defaults))
    (positive (IdenticalCallWarn c) (IdenticalCallWarn defaults))
    (positive (IdenticalCallHalt c) (IdenticalCallHalt defaults))
    (positive (MaxSignatures c) (MaxSignatures defaults)).

Record Decision_ := mkDecision {
  dc_Action : Action; dc_Code : string; dc_Tool : string; dc_ArgsHash : string;
  dc_Count : Z; dc_Threshold : Z; dc_Message : string }.

Definition AllowsExecution (d : Decision_) : bool :=
  match dc_Action d with ActionAllow | ActionWarn => true | ActionBlock | ActionHalt => false end.

(** The arguments as [json.Marshal] writes them, [None] when it fails. *)
Notation arguments := (option string).

Record Observation := mkObservation {
  ob_Tool : string; ob_Args : arguments; ob_ResultText : string; ob_Failed : bool; ob_Semantics : Semantics }.

Record progressRecord := mkProgress { resultHash : string; pr_count : Z }.

Record Controller := mkController {
  config : Config;
  exactFailures : gmap string Z;
  noProgress : gmap string progressRecord;
  tracked : gset string;
  order : list string;
  failureStreakTool : string; failureStreakCount : Z;
  lastCallSignature : string; identicalCallCount : Z }.
#[export] Instance eta_Controller : Eta Controller := fun c =>
  mkController (config c) (exactFailures c) (noProgress c) (tracked c) (order c) (failureStreakTool c)
    (failureStreakCount c) (lastCallSignature c) (identicalCallCount c).

Definition New (c : Config) : Controller := mkController (Normalized c) ∅ ∅ ∅ [] "" 0 "" 0.

Definition allowDecision (tool argsHash : string) : Decision_ := mkDecision ActionAllow "allow" tool argsHash 0 0 "".
Definition toolLabel (tool : string) : string := if String.eqb tool "" then "the tool" else tool.

Section guard.
Context `{Sha256}.

Definition HashText (text : string) : string := sha256_hex text.
Definition unsupported_arguments : string :=
  of_bytes ([123; 34] ++ bytes "canonicalization" ++ [34; 58; 34] ++ bytes "unsupported" ++ [34; 125]).
Definition HashArguments (args : arguments) : string := sha256_hex (default unsupported_arguments args).

Record signature := mkSignature { sg_key : string; sg_argsHash : string }.
Definition callSignature (tool : string) (args : arguments) : signature :=
  let argsHash := HashArguments args in
  mkSignature (tool +:+ String "000" argsHash) argsHash.

Definition exact_count (c : Controller) (key : string) : Z := default 0 (exactFailures c !! key).

(** ** Before a call *)

Definition Before (c : Controller) (tool : string) (args : arguments) (semantics : Semantics) : Decision_ :=
  let tool := trim_space tool in
  let sig := callSignature tool args in
  let key := sg_key sig in
  let decision := allowDecision tool (sg_argsHash sig) in
  let cfg := config c in
  if negb (Enabled cfg) then decision else
  if negb (HardStopsEnabled cfg) then decision else
  let count := exact_count c key in
  if ExactFailureBlock cfg <=? count then
    mkDecision ActionBlock "repeated_exact_failure_block" tool (sg_argsHash sig) count (ExactFailureBlock cfg)
      ("Blocked " +:+ toolLabel tool +:+ " after " +:+ pretty count
       +:+ " identical failed calls. Change arguments or strategy.")
  else if negb (String.eqb tool "") && String.eqb (failureStreakTool c) tool
          && (SameToolFailureHalt cfg <=? failureStreakCount c) then
    mkDecision ActionBlock "same_tool_failure_block" tool (sg_argsHash sig) (failureStreakCount c) (SameToolFailureHalt cfg)
      ("Blocked " +:+ toolLabel tool +:+ " after " +:+ pretty (failureStreakCount c)
       +:+ " consecutive failures. Use a different tool path or report the blocker.")
  else match semantics, noProgress c !! key with
  | SemanticsReadOnlyIdempotent, Some record =>
      if NoProgressBlock cfg <=? pr_count record then
        mkDecision ActionBlock "read_only_no_progress_block" tool (sg_argsHash sig) (pr_count record) (NoProgressBlock cfg)
          ("Blocked " +:+ toolLabel tool +:+ " after " +:+ pretty (pr_count record)
           +:+ " identical read-only results. Reuse the result or change the query.")
      else decision
  | _, _ => decision
  end.

(** ** After a call *)

(** One turn of the loop of [remember]. *)
Definition forget_oldest (c : Controller) : Controller :=
  match order c with
  | [] => c
  | oldest :: rest =>
      c <| order := rest |> <| tracked ::= fun t => t ∖ {[oldest]} |>
        <| exactFailures ::= delete oldest |> <| noProgress ::= delete oldest |>
  end.
Fixpoint forget (fuel : nat) (c : Controller) : Controller :=
  match fuel with
  | O => c
  | S fuel => if MaxSignatures (config c) <? Z.of_nat (length (order c)) then forget fuel (forget_oldest c) else c
  end.
Definition remember (key : string) (c : Controller) : Controller :=
  if bool_decide (key ∈ tracked c) then c else
  let c := c <| tracked ::= fun t => {[key]} ∪ t |> <| order ::= fun l => l ++ [key] |> in
  forget (length (order c)) c.

(** The counters of a failed and of a successful observation; [None] when the
    emergency halt returns before the last ones. *)
Definition count_failure (tool key : string) (c : Controller) : Controller :=
  c <| lastCallSignature := "" |> <| identicalCallCount := 0 |> <| noProgress ::= delete key |>
    <| exactFailures ::= fun m => <[key := exact_count c key + 1]> m |>
    <| failureStreakTool := tool |>
    <| failureStreakCount ::= fun n =>
         if String.eqb (failureStreakTool c) tool && negb (String.eqb tool "") then n + 1 else 1 |>.
Definition count_identical (key : string) (c : Controller) : Controller :=
  c <| lastCallSignature := key |>
    <| identicalCallCount ::= fun n => if String.eqb (lastCallSignature c) key then n + 1 else 1 |>.
Definition clear_failures (key : string) (c : Controller) : Controller :=
  c <| exactFailures ::= delete key |> <| failureStreakTool := "" |> <| failureStreakCount := 0 |>.
Definition progress (c : Controller) (key : string) (hash : string) : progressRecord :=
  match noProgress c !! key with
  | Some record =>
      if String.eqb (resultHash record) hash && negb (String.eqb (resultHash record) "")
      then mkProgress (resultHash record) (pr_count record + 1) else mkProgress hash 1
  | None => mkProgress hash 1
  end.

Definition failure_decision (c : Controller) (tool argsHash key : string) (count : Z) : Decision_ :=
  let cfg := config c in
  let streak := failureStreakCount c in
  if HardStopsEnabled cfg && (SameToolFailureHalt cfg <=? streak) then
    mkDecision ActionHalt "same_tool_failure_halt" tool argsHash streak (SameToolFailureHalt cfg)
      ("Stopped " +:+ toolLabel tool +:+ " after " +:+ pretty streak
       +:+ " consecutive failures. Change tool path before continuing.")
  else if WarningsEnabled cfg && (ExactFailureWarn cfg <=? count) then
    mkDecision ActionWarn "repeated_exact_failure_warning" tool argsHash count (ExactFailureWarn cfg)
      (toolLabel tool +:+ " failed " +:+ pretty count
       +:+ " times with identical arguments. Inspect the error and change strategy.")
  else if WarningsEnabled cfg && (SameToolFailureWarn cfg <=? streak) then
    mkDecision ActionWarn "same_tool_failure_warning" tool argsHash streak (SameToolFailureWarn cfg)
      (toolLabel tool +:+ " failed " +:+ pretty streak
       +:+ " consecutive times. Diagnose the failure or use another tool path.")
  else allowDecision tool argsHash.

Definition identical_halt (c : Controller) (tool argsHash : string) : Decision_ :=
  let n := identicalCallCount c in
  mkDecision ActionHalt "identical_call_emergency_halt" tool argsHash n (IdenticalCallHalt (config c))
    ("Stopped the turn after " +:+ pretty n +:+ " consecutive identical successful calls to " +:+ toolLabel tool
     +:+ " because the operation was not making progress.").
Definition identical_warning (c : Controller) (tool argsHash : string) : Decision_ :=
  let n := identicalCallCount c in
  if WarningsEnabled (config c) && (IdenticalCallWarn (config c) <=? n) then
    mkDecision ActionWarn "identical_call_success_warning" tool argsHash n (IdenticalCallWarn (config c))
      (toolLabel tool +:+ " succeeded " +:+ pretty n +:+ " consecutive times with identical arguments. The repeated call may not be making progress; reassess the user's request, tool choice, and arguments before continuing.")
  else allowDecision tool argsHash.
Definition progress_decision (c : Controller) (tool argsHash : string) (record : progressRecord) (otherwise : Decision_) :
  Decision_ :=
  if WarningsEnabled (config c) && (NoProgressWarn (config c) <=? pr_count record) then
    mkDecision ActionWarn "read_only_no_progress_warning" tool argsHash (pr_count record) (NoProgressWarn (config c))
      (toolLabel tool +:+ " returned the same read-only result " +:+ pretty (pr_count record)
       +:+ " times. Reuse it or change the query.")
  else otherwise.

Definition After (c : Controller) (o : Observation) : Controller * Decision_ :=
  let tool := trim_space (ob_Tool o) in
  let sig := callSignature tool (ob_Args o) in
  let key := sg_key sig in
  let argsHash := sg_argsHash sig in
  if negb (Enabled (config c)) then (c, allowDecision tool argsHash) else
  let c := remember key c in
  if ob_Failed o then
    let c := count_failure tool key c in
    (c, failure_decision c tool argsHash key (exact_count c key))
  else
    let c := count_identical key c in
    if IdenticalCallHalt (config c) <=? identicalCallCount c then (c, identical_halt c tool argsHash) else
    let warning := identical_warning c tool argsHash in
    let c := clear_failures key c in
    match ob_Semantics o with
    | SemanticsReadOnlyIdempotent =>
        let record := progress c key (HashText (ob_ResultText o)) in
        let c := c <| noProgress ::= <[key := record]> |> in
        (c, progress_decision c tool argsHash record warning)
    | _ => (c <| noProgress ::= delete key |>, warning)
    end.

(** A controller over the observations of a turn, and its decisions. *)
Fixpoint observe_all (c : Controller) (l : list Observation) : Controller * list Decision_ :=
  match l with
  | [] => (c, [])
  | o :: l => let '(c, d) := After c o in let '(c, ds) := observe_all c l in (c, d :: ds)
  end.

(** ** The reference: counting over the history

    [h] is the history, the latest observation first. *)

Definition tool_of (o : Observation) : string := trim_space (ob_Tool o).
Definition key_of (o : Observation) : string := sg_key (callSignature (tool_of o) (ob_Args o)).

(** The length of the longest initial run. *)
Fixpoint run_length (p : Observation → bool) (h : list Observation) : Z :=
  match h with [] => 0 | o :: h => if p o then 1 + run_length p h else 0 end.

(** Failures of [tool] that end the history; unnamed tools do not add up. *)
Definition streak (h : list Observation) : Z :=
  match h with
  | [] => 0
  | o :: _ =>
      if negb (ob_Failed o) then 0 else if String.eqb (tool_of o) "" then 1
      else run_length (fun o' => ob_Failed o' && String.eqb (tool_of o') (tool_of o)) h
  end.
(** Successes of one call that end the history. *)
Definition identical (h : list Observation) : Z :=
  match h with
  | [] => 0
  | o :: _ => run_length (fun o' => negb (ob_Failed o') && String.eqb (key_of o') (key_of o)) h
  end.
Definition of_key (key : string) (h : list Observation) : list Observation :=
  filter (fun o => key_of o = key) h.
(** Failures of a call since it last succeeded. *)
Definition failures_of (key : string) (h : list Observation) : Z := run_length ob_Failed (of_key key h).
Definition read_only (s : Semantics) : bool := bool_decide (s = SemanticsReadOnlyIdempotent).
(** Read-only successes of a call with the same result, since it last did anything else. *)
Definition same_results (key : string) (h : list Observation) : Z :=
  match of_key key h with
  | [] => 0
  | o :: _ =>
      run_length (fun o' => negb (ob_Failed o') && read_only (ob_Semantics o')
                            && String.eqb (HashText (ob_ResultText o')) (HashText (ob_ResultText o))) (of_key key h)
  end.

(** What the guard should say of the latest observation, and of a call to come. *)
Definition halts (cfg : Config) (h : list Observation) : bool :=
  match h with
  | [] => false
  | o :: _ =>
      if ob_Failed o then HardStopsEnabled cfg && (SameToolFailureHalt cfg <=? streak h)
      else IdenticalCallHalt cfg <=? identical h
  end.
Definition warns (cfg : Config) (h : list Observation) : bool :=
  match h with
  | [] => false
  | o :: _ =>
      WarningsEnabled cfg &&
      (if ob_Failed o
       then (ExactFailureWarn cfg <=? failures_of (key_of o) h) || (SameToolFailureWarn cfg <=? streak h)
       else (IdenticalCallWarn cfg <=? identical h)
            || read_only (ob_Semantics o) && (NoProgressWarn cfg <=? same_results (key_of o) h))
  end.
Definition verdict (cfg : Config) (h : list Observation) : Action :=
  if halts cfg h then ActionHalt else if warns cfg h then ActionWarn else ActionAllow.
Definition blocks (cfg : Config) (h : list Observation) (tool : string) (args : arguments) (semantics : Semantics) : bool :=
  let tool := trim_space tool in
  let key := sg_key (callSignature tool args) in
  HardStopsEnabled cfg &&
  ((ExactFailureBlock cfg <=? failures_of key h)
   || match h with
      | o :: _ => ob_Failed o && negb (String.eqb tool "") && String.eqb (tool_of o) tool
                  && (SameToolFailureHalt cfg <=? streak h)
      | [] => false
      end
   || read_only semantics && (NoProgressBlock cfg <=? same_results key h)).

(** The calls of a history. *)
Definition signatures (h : list Observation) : gset string := list_to_set (key_of <$> h).
End guard.

(** * The guard and the history

    The loop guard counts what the history of the turn holds, and its memory is
    bounded. *)

(** ** The bound *)

(** The maps speak of tracked signatures only, which are those of the order. *)
Record bounded (c : Controller) : Prop := {
  bd_order : NoDup (order c);
  bd_tracked : tracked c = list_to_set (order c);
  bd_exact : dom (exactFailures c) ⊆ tracked c;
  bd_progress : dom (noProgress c) ⊆ tracked c }.

Lemma bounded_forget_oldest c : bounded c → bounded (forget_oldest c).
Proof.
  intros [Ho Ht He Hp]. unfold forget_oldest. destruct (order c) as [|k l] eqn:E; [constructor; by rewrite ?E|].
  apply NoDup_cons in Ho as [Hk Hl]. rewrite list_to_set_cons in Ht. constructor; cbn; [done|set_solver..].
Qed.
Lemma forget_bounded n c : bounded c → bounded (forget n c).
Proof.
  revert c. induction n as [|n IH]; intros c Hc; cbn; [done|]. case_match; [|done]. by apply IH, bounded_forget_oldest.
Qed.
Lemma forget_config n c : config (forget n c) = config c.
Proof.
  revert c. induction n as [|n IH]; intros c; cbn; [done|]. case_match; [|done]. rewrite IH. unfold forget_oldest. by case_match.
Qed.
Lemma forget_oldest_length c : length (order (forget_oldest c)) = pred (length (order c)).
Proof. unfold forget_oldest. destruct (order c) eqn:E; [by rewrite E|done]. Qed.
Lemma forget_length n c : (length (order c) ≤ n)%nat → 0 ≤ MaxSignatures (config c) →
  Z.of_nat (length (order (forget n c))) ≤ MaxSignatures (config c).
Proof.
  revert c. induction n as [|n IH]; intros c Hn Hm; cbn [forget]; [lia|]. case_match eqn:E; [|lia].
  assert (Hcfg : config (forget_oldest c) = config c) by (unfold forget_oldest; by case_match).
  rewrite <- Hcfg. apply IH; [|by rewrite Hcfg]. rewrite forget_oldest_length. lia.
Qed.
(** The last key survives, when there is room for one. *)
Lemma forget_keeps_last n c l k : order c = l ++ [k] → 0 < MaxSignatures (config c) → bounded c → k ∈ tracked (forget n c).
Proof.
  revert c l. induction n as [|n IH]; intros c l Ho Hm Hb; cbn [forget].
  { destruct Hb as [_ -> _ _]. rewrite Ho. set_solver. }
  case_match eqn:E; [|destruct Hb as [_ -> _ _]; rewrite Ho; set_solver].
  destruct l as [|k' l]; [rewrite Ho in E; apply Z.ltb_lt in E; cbn in E; lia|].
  apply (IH _ l); [unfold forget_oldest; by rewrite Ho|unfold forget_oldest; by case_match|by apply bounded_forget_oldest].
Qed.

(** Normalized thresholds are positive, and a stop is not below its warning. *)
Record thresholds (cfg : Config) : Prop := {
  th_exact : 0 < ExactFailureWarn cfg ≤ ExactFailureBlock cfg;
  th_same : 0 < SameToolFailureWarn cfg ≤ SameToolFailureHalt cfg;
  th_progress : 0 < NoProgressWarn cfg ≤ NoProgressBlock cfg;
  th_identical : 0 < IdenticalCallWarn cfg ∧ 0 < IdenticalCallHalt cfg;
  th_max : 0 < MaxSignatures cfg }.
Lemma Normalized_thresholds cfg : thresholds (Normalized cfg).
Proof.
  assert (Hp : ∀ v d, 0 < d → 0 < if v <=? 0 then d else v) by (intros v d ?; destruct (Z.leb_spec v 0); lia).
  assert (Ha : ∀ v w d, w ≤ if v <? w then Z.max d w else v) by (intros v w d; destruct (Z.ltb_spec v w); lia).
  constructor; (split; [by apply Hp|first [apply Ha|by apply Hp]]) || by apply Hp.
Qed.

Section guard.
Context `{Sha256}.
Implicit Types (c : Controller) (o : Observation) (h : list Observation).

Lemma bounded_track key c : key ∉ tracked c → bounded c →
  bounded (c <| tracked ::= fun t => {[key]} ∪ t |> <| order ::= fun l => l ++ [key] |>).
Proof.
  intros Hk [Ho Ht He Hp]. constructor; cbn.
  - apply NoDup_app. split; [done|]. split; [|apply NoDup_singleton]. rewrite Ht in Hk. set_solver.
  - rewrite Ht, list_to_set_app_L. set_solver.
  - set_solver.
  - set_solver.
Qed.
Lemma remember_bounded key c : bounded c → bounded (remember key c).
Proof.
  intros Hb. unfold remember. case_bool_decide as Hk; [done|]. by apply forget_bounded, bounded_track.
Qed.
Lemma remember_config key c : config (remember key c) = config c.
Proof. unfold remember. case_bool_decide; [done|]. by rewrite forget_config. Qed.
Lemma remember_tracked key c : bounded c → 0 < MaxSignatures (config c) → key ∈ tracked (remember key c).
Proof.
  intros Hb Hm. unfold remember. case_bool_decide as Hk; [done|]. apply (forget_keeps_last _ _ (order c)); [done..|].
  by apply bounded_track.
Qed.
Lemma remember_length key c : bounded c → Z.of_nat (length (order c)) ≤ MaxSignatures (config c) → 0 < MaxSignatures (config c) →
  Z.of_nat (length (order (remember key c))) ≤ MaxSignatures (config c).
Proof.
  intros Hb Hl Hm. unfold remember. case_bool_decide; [done|].
  set (c' := c <| tracked ::= _ |> <| order ::= _ |>). change (config c) with (config c'). apply forget_length; [done|]. cbn. lia.
Qed.

(** Every operation on the counters of a tracked key. *)
Lemma After_bounded c o : bounded c → 0 < MaxSignatures (config c) → Z.of_nat (length (order c)) ≤ MaxSignatures (config c) →
  let c' := (After c o).1 in
  bounded c' ∧ config c' = config c ∧ Z.of_nat (length (order c')) ≤ MaxSignatures (config c).
Proof.
  intros Hb Hm Hl. unfold After. set (key := sg_key _). destruct (negb (Enabled (config c))); [done|].
  pose proof (remember_bounded key c Hb) as [Ho Ht He Hp]. pose proof (remember_tracked key c Hb Hm) as Hk.
  pose proof (remember_length key c Hb Hl Hm) as Hl'. pose proof (remember_config key c) as Hc.
  destruct (ob_Failed o); [|destruct (IdenticalCallHalt _ <=? _); [|destruct (ob_Semantics o)]];
    cbn; split_and!; try done; (constructor; cbn; [done|done|set_solver..]).
Qed.
Lemma observe_all_bounded c l : bounded c → 0 < MaxSignatures (config c) → Z.of_nat (length (order c)) ≤ MaxSignatures (config c) →
  let c' := (observe_all c l).1 in
  bounded c' ∧ config c' = config c ∧ Z.of_nat (length (order c')) ≤ MaxSignatures (config c).
Proof.
  revert c. induction l as [|o l IH]; intros c Hb Hm Hl; cbn; [done|].
  destruct (After_bounded c o Hb Hm Hl) as (Hb' & Hc & Hl'). destruct (After c o) as [c1 d]. cbn in *.
  rewrite <- Hc in Hm, Hl'. destruct (IH c1 Hb' Hm Hl') as (? & ? & ?).
  destruct (observe_all c1 l) as [c2 ds]. cbn in *. split_and!; [done|congruence..].
Qed.

(** Whatever a turn calls, the guard remembers at most [MaxSignatures]
    calls: its three maps speak of those in its queue only. *)
Theorem guard_memory_bounded cfg l :
  let c := (observe_all (New cfg) l).1 in
  Z.of_nat (size (tracked c)) ≤ MaxSignatures (Normalized cfg)
  ∧ dom (exactFailures c) ⊆ tracked c ∧ dom (noProgress c) ⊆ tracked c
  ∧ tracked c = list_to_set (order c) ∧ NoDup (order c).
Proof.
  intros c. destruct (observe_all_bounded (New cfg) l) as ([Ho Ht He Hp] & Hc & Hl).
  - constructor; cbn; [constructor|done|set_solver..].
  - apply Normalized_thresholds.
  - pose proof (th_max _ (Normalized_thresholds cfg)). change (0 ≤ MaxSignatures (Normalized cfg)). lia.
  - fold c in Ho, Ht, He, Hp, Hl. split_and!; try done. rewrite Ht, size_list_to_set by done. exact Hl.
Qed.

(** ** The counters are those of the history *)

Definition recorded (key : string) h : option progressRecord :=
  match of_key key h with
  | o :: _ =>
      if negb (ob_Failed o) && read_only (ob_Semantics o)
      then Some (mkProgress (HashText (ob_ResultText o)) (same_results key h)) else None
  | [] => None
  end.

Record counts c h : Prop := {
  ct_streak : failureStreakCount c = streak h;
  ct_tool : failureStreakTool c = match h with o :: _ => if ob_Failed o then tool_of o else "" | [] => "" end;
  ct_identical : identicalCallCount c = identical h;
  ct_last : lastCallSignature c = match h with o :: _ => if ob_Failed o then "" else key_of o | [] => "" end;
  ct_exact : ∀ k, exact_count c k = failures_of k h;
  ct_progress : ∀ k, noProgress c !! k = recorded k h;
  ct_tracked : tracked c = signatures h;
  ct_bounded : bounded c }.

Lemma run_length_ext p q h : (∀ o, p o = q o) → run_length p h = run_length q h.
Proof. intros Hpq. induction h as [|o h IH]; cbn; [done|]. by rewrite Hpq, IH. Qed.
Lemma run_length_nonneg p h : 0 ≤ run_length p h.
Proof. induction h as [|o h IH]; cbn; [done|]. case_match; lia. Qed.
Lemma key_nonempty o : key_of o ≠ "".
Proof. unfold key_of, callSignature. cbn. destruct (tool_of o); done. Qed.
Lemma of_key_cons k o h : of_key k (o :: h) = if decide (key_of o = k) then o :: of_key k h else of_key k h.
Proof. unfold of_key. rewrite filter_cons. by repeat case_decide. Qed.
Lemma signatures_cons o h : signatures (o :: h) = {[key_of o]} ∪ signatures h.
Proof. done. Qed.

(** Nothing is forgotten while there is room. *)
Lemma remember_fits key c : bounded c → Z.of_nat (size ({[key]} ∪ tracked c)) ≤ MaxSignatures (config c) →
  remember key c = c <| tracked ::= fun t => {[key]} ∪ t |> <| order ::= fun l => if bool_decide (key ∈ tracked c) then l else l ++ [key] |>.
Proof.
  intros [Ho Ht _ _] Hsize. unfold remember. case_bool_decide as Hk.
  - assert ({[key]} ∪ tracked c = tracked c) as Hu by set_solver. destruct c; cbn in *. by rewrite Hu.
  - assert (Hl : size ({[key]} ∪ tracked c) = S (length (order c))).
    { rewrite size_union by set_solver. rewrite size_singleton, Ht, size_list_to_set by done. done. }
    rewrite Hl in Hsize. set (c' := c <| tracked ::= _ |> <| order ::= _ |>).
    assert (length (order c') = S (length (order c))) as Hlen by (subst c'; cbn; rewrite length_app; cbn; lia).
    rewrite Hlen. cbn [forget]. rewrite Hlen. change (config c') with (config c).
    by destruct (Z.ltb_spec (MaxSignatures (config c)) (Z.of_nat (S (length (order c))))); [lia|].
Qed.

Section step.
Context (c : Controller) (o : Observation) (h : list Observation).
Context (Hc : counts c h).
Let c1 := remember (key_of o) c.

Lemma step_remember : Z.of_nat (size (signatures (o :: h))) ≤ MaxSignatures (config c) →
  exactFailures c1 = exactFailures c ∧ noProgress c1 = noProgress c ∧ failureStreakTool c1 = failureStreakTool c
  ∧ failureStreakCount c1 = failureStreakCount c ∧ lastCallSignature c1 = lastCallSignature c
  ∧ identicalCallCount c1 = identicalCallCount c ∧ tracked c1 = signatures (o :: h) ∧ config c1 = config c.
Proof.
  intros Hfits. unfold c1. rewrite remember_fits; [|apply Hc|by rewrite (ct_tracked _ _ Hc)]. cbn.
  split_and!; try done. by rewrite (ct_tracked _ _ Hc).
Qed.

Lemma step_streak : ob_Failed o = true →
  (if String.eqb (failureStreakTool c) (tool_of o) && negb (String.eqb (tool_of o) "") then failureStreakCount c + 1 else 1)
  = streak (o :: h).
Proof.
  intros Hf. cbn [streak]. rewrite Hf. cbn [negb]. destruct (String.eqb_spec (tool_of o) "") as [He|He].
  { by rewrite andb_false_r. }
  rewrite andb_true_r. cbn [run_length]. rewrite Hf, String.eqb_refl. cbn [andb].
  rewrite (ct_tool _ _ Hc), (ct_streak _ _ Hc). destruct h as [|o' h']; cbn [run_length streak].
  { by destruct (String.eqb_spec "" (tool_of o)). }
  destruct (ob_Failed o') eqn:Hf'; cbn [negb andb]; [|by destruct (String.eqb_spec "" (tool_of o))].
  destruct (String.eqb_spec (tool_of o') (tool_of o)) as [Ht|Ht]; [|done].
  assert (String.eqb (tool_of o') "" = false) as -> by (apply String.eqb_neq; congruence).
  rewrite ?String.eqb_refl, ?Hf'. cbn [andb negb run_length].
  rewrite (run_length_ext (fun o'' => ob_Failed o'' && String.eqb (tool_of o'') (tool_of o'))
    (fun o'' => ob_Failed o'' && String.eqb (tool_of o'') (tool_of o))); [lia|]. intros ?. by rewrite Ht.
Qed.

Lemma step_identical : ob_Failed o = false →
  (if String.eqb (lastCallSignature c) (key_of o) then identicalCallCount c + 1 else 1) = identical (o :: h).
Proof.
  intros Hf. cbn [identical run_length]. rewrite Hf, String.eqb_refl. cbn [negb andb].
  rewrite (ct_last _ _ Hc), (ct_identical _ _ Hc). pose proof (key_nonempty o) as Hk.
  destruct h as [|o' h']; cbn [run_length identical].
  { by destruct (String.eqb_spec "" (key_of o)). }
  destruct (ob_Failed o') eqn:Hf'; cbn [negb andb]; [by destruct (String.eqb_spec "" (key_of o))|].
  destruct (String.eqb_spec (key_of o') (key_of o)) as [Ht|Ht]; [|done].
  rewrite (run_length_ext (fun o'' => negb (ob_Failed o'') && String.eqb (key_of o'') (key_of o'))
    (fun o'' => negb (ob_Failed o'') && String.eqb (key_of o'') (key_of o))); [|intros ?; by rewrite Ht].
  rewrite ?Hf', ?Ht, ?String.eqb_refl. cbn. lia.
Qed.

Lemma step_failures k :
  failures_of k (o :: h) =
  if decide (key_of o = k) then (if ob_Failed o then exact_count c k + 1 else 0) else exact_count c k.
Proof.
  rewrite (ct_exact _ _ Hc). unfold failures_of. rewrite of_key_cons. case_decide; [|done]. cbn. case_match; lia.
Qed.

Lemma step_recorded k :
  recorded k (o :: h) =
  if decide (key_of o = k) then
    (if negb (ob_Failed o) && read_only (ob_Semantics o)
     then Some (mkProgress (HashText (ob_ResultText o)) (same_results k (o :: h))) else None)
  else noProgress c !! k.
Proof.
  rewrite (ct_progress _ _ Hc). unfold recorded, same_results. rewrite of_key_cons. by case_decide.
Qed.

Lemma step_progress : (∀ t, sha256_hex t ≠ "") → ob_Failed o = false → read_only (ob_Semantics o) = true →
  progress c (key_of o) (HashText (ob_ResultText o))
  = mkProgress (HashText (ob_ResultText o)) (same_results (key_of o) (o :: h)).
Proof.
  intros Hsha Hf Hro. unfold progress. rewrite (ct_progress _ _ Hc). unfold recorded, same_results.
  rewrite of_key_cons, decide_True by done. cbn [run_length]. rewrite Hf, Hro, String.eqb_refl. cbn [negb andb].
  destruct (of_key (key_of o) h) as [|o' h'] eqn:E; cbn [run_length]; [done|].
  destruct (negb (ob_Failed o') && read_only (ob_Semantics o')) eqn:E'; cbn [andb]; [|done]. cbn [resultHash pr_count].
  assert (String.eqb (HashText (ob_ResultText o')) "" = false) as -> by apply String.eqb_neq, Hsha.
  destruct (String.eqb_spec (HashText (ob_ResultText o')) (HashText (ob_ResultText o))) as [He|He]; [|done].
  rewrite !He, String.eqb_refl. cbn [andb negb]. f_equal. lia.
Qed.
End step.

Section after.
Context (c : Controller) (h : list Observation) (o : Observation).
Context (Hc : counts c h) (Hfits : Z.of_nat (size (signatures (o :: h))) ≤ MaxSignatures (config c)).
Context (Hth : thresholds (config c)).
Let c1 := remember (key_of o) c.
Let argsHash := sg_argsHash (callSignature (tool_of o) (ob_Args o)).

Lemma after_failure : ob_Failed o = true →
  let c2 := count_failure (tool_of o) (key_of o) c1 in
  dc_Action (failure_decision c2 (tool_of o) argsHash (key_of o) (exact_count c2 (key_of o))) = verdict (config c) (o :: h)
  ∧ counts c2 (o :: h).
Proof.
  intros Hf c2. subst c2. destruct (step_remember c o h Hc Hfits) as (E1 & E2 & E3 & E4 & E5 & E6 & E7 & E8). fold c1 in E1, E2, E3, E4, E5, E6, E7, E8.
  pose proof (remember_bounded (key_of o) c (ct_bounded _ _ Hc)) as [B1 B2 B3 B4]. fold c1 in B1, B2, B3, B4.
  pose proof (remember_tracked (key_of o) c (ct_bounded _ _ Hc) (th_max _ Hth)) as Hk. fold c1 in Hk.
  pose proof (step_failures c o h Hc) as Hfail. pose proof (step_recorded c o h Hc) as Hrec.
  pose proof (step_streak c o h Hc Hf) as Hs. rewrite Hf in Hfail, Hrec. split.
  - assert (exact_count (count_failure (tool_of o) (key_of o) c1) (key_of o) = failures_of (key_of o) (o :: h)) as ->.
    { rewrite Hfail, decide_True by done. unfold count_failure, exact_count. cbn. by rewrite lookup_insert_eq, E1. }
    unfold verdict, halts, warns. rewrite Hf.
    revert Hs. generalize (failures_of (key_of o) (o :: h)). generalize (streak (o :: h)). intros st fl Hs.
    unfold failure_decision. cbn. rewrite E3, E4, E8, Hs.
    destruct (HardStopsEnabled (config c)), (WarningsEnabled (config c)), (SameToolFailureHalt (config c) <=? st),
      (ExactFailureWarn (config c) <=? fl), (SameToolFailureWarn (config c) <=? st); done.
  - constructor.
    + rewrite <- Hs. cbn. by rewrite E3, E4.
    + cbn. by rewrite Hf.
    + cbn. by rewrite Hf.
    + cbn. by rewrite Hf.
    + intros k. rewrite Hfail. unfold exact_count at 1. cbn [count_failure exactFailures update]. case_decide as Hd.
      * subst k. rewrite lookup_insert_eq. unfold exact_count. by rewrite E1.
      * rewrite lookup_insert_ne by done. unfold exact_count. by rewrite E1.
    + intros k. rewrite Hrec. cbn [count_failure noProgress update]. rewrite E2.
      case_decide as Hd; [subst k; by rewrite lookup_delete_eq|by rewrite lookup_delete_ne].
    + done.
    + constructor; cbn; [done|done|set_solver..].
Qed.

(** After a success, once the progress of the call is recorded. *)
Lemma after_success progress_map : ob_Failed o = false →
  (∀ k, progress_map !! k = recorded k (o :: h)) → dom progress_map ⊆ tracked c1 →
  counts (clear_failures (key_of o) (count_identical (key_of o) c1) <| noProgress := progress_map |>) (o :: h).
Proof.
  intros Hf Hp Hdom. destruct (step_remember c o h Hc Hfits) as (E1 & E2 & E3 & E4 & E5 & E6 & E7 & E8). fold c1 in E1, E2, E3, E4, E5, E6, E7, E8.
  pose proof (remember_bounded (key_of o) c (ct_bounded _ _ Hc)) as [B1 B2 B3 B4]. fold c1 in B1, B2, B3, B4. constructor.
  - cbn. by rewrite Hf.
  - cbn. by rewrite Hf.
  - rewrite <- (step_identical c o h Hc Hf). cbn. by rewrite E5, E6.
  - cbn. by rewrite Hf.
  - intros k. rewrite (step_failures c o h Hc), Hf. unfold exact_count at 1. cbn [clear_failures count_identical exactFailures update].
    rewrite E1. case_decide as Hd; [subst k; by rewrite lookup_delete_eq|by rewrite lookup_delete_ne].
  - exact Hp.
  - done.
  - constructor; cbn; [done|done|set_solver|done].
Qed.

Lemma after_identical : ob_Failed o = false → identicalCallCount (count_identical (key_of o) c1) = identical (o :: h).
Proof.
  intros Hf. rewrite <- (step_identical c o h Hc Hf).
  destruct (step_remember c o h Hc Hfits) as (_ & _ & _ & _ & E5 & E6 & _). cbn. unfold c1. by rewrite E5, E6.
Qed.
End after.

(** One observation: the decision is the verdict, and the counters follow unless
    the turn is halted. *)
Lemma After_counts c h o : counts c h → (∀ t, sha256_hex t ≠ "") → Enabled (config c) = true →
  Z.of_nat (size (signatures (o :: h))) ≤ MaxSignatures (config c) → thresholds (config c) →
  dc_Action (After c o).2 = verdict (config c) (o :: h)
  ∧ (dc_Action (After c o).2 ≠ ActionHalt → counts (After c o).1 (o :: h)).
Proof.
  intros Hc Hsha Hen Hfits Hth. unfold After. rewrite Hen. cbn [negb]. fold (tool_of o). fold (key_of o).
  destruct (ob_Failed o) eqn:Hf; [destruct (after_failure c h o Hc Hfits Hth Hf); by split|].
  pose proof (after_identical c h o Hc Hfits Hf) as Hid. pose proof (after_success c h o Hc Hfits Hth) as Hkeep.
  pose proof (step_recorded c o h Hc) as Hrec. rewrite Hf in Hrec.
  destruct (step_remember c o h Hc Hfits) as (_ & E2 & _ & _ & _ & _ & _ & E8).
  pose proof (remember_bounded (key_of o) c (ct_bounded _ _ Hc)) as [_ _ _ B4].
  pose proof (remember_tracked (key_of o) c (ct_bounded _ _ Hc) (th_max _ Hth)) as Hk.
  set (c1 := remember (key_of o) c) in *. unfold verdict, halts, warns. rewrite Hf.
  change (config (count_identical (key_of o) c1)) with (config c1). rewrite Hid, E8.
  destruct (IdenticalCallHalt (config c) <=? identical (o :: h)); [by split|].
  set (argsHash := sg_argsHash _).
  assert (Hwarn : dc_Action (identical_warning (count_identical (key_of o) c1) (tool_of o) argsHash)
    = if WarningsEnabled (config c) && (IdenticalCallWarn (config c) <=? identical (o :: h)) then ActionWarn else ActionAllow).
  { unfold identical_warning. rewrite Hid. change (config (count_identical (key_of o) c1)) with (config c1). rewrite E8.
    by destruct (WarningsEnabled (config c) && _). }
  set (warning := identical_warning _ _ _) in *.
  destruct (read_only (ob_Semantics o)) eqn:Hro.
  - apply bool_decide_eq_true in Hro as Hsem. rewrite Hsem.
    assert (progress (clear_failures (key_of o) (count_identical (key_of o) c1)) (key_of o) (HashText (ob_ResultText o))
      = mkProgress (HashText (ob_ResultText o)) (same_results (key_of o) (o :: h))) as ->.
    { rewrite <- (step_progress c o h Hc Hsha Hf Hro). unfold progress. cbn. by rewrite E2. }
    cbn [fst snd]. split.
    + unfold progress_decision. cbn [pr_count]. change (config (_ <| noProgress ::= _ |>)) with (config c1). rewrite E8.
      destruct (WarningsEnabled (config c)) eqn:Hw; cbn [andb] in *; [|by rewrite Hwarn].
      destruct (NoProgressWarn (config c) <=? same_results (key_of o) (o :: h)); [by rewrite orb_true_r|].
      rewrite orb_false_r, Hwarn. done.
    + intros _. apply Hkeep; cbn; [done| |set_solver].
      intros k. rewrite Hrec, E2. case_decide as Hd; [subst k; by rewrite lookup_insert_eq|by rewrite lookup_insert_ne].
  - assert (Hc2 : counts (clear_failures (key_of o) (count_identical (key_of o) c1) <| noProgress ::= delete (key_of o) |>) (o :: h)).
    { apply Hkeep; cbn; [done| |set_solver].
      intros k. rewrite Hrec, E2. case_decide as Hd; [subst k; by rewrite lookup_delete_eq|by rewrite lookup_delete_ne]. }
    cbn [andb]. rewrite orb_false_r. apply bool_decide_eq_false in Hro. destruct (ob_Semantics o); [by split|done|by split].
Qed.

Lemma counts_New cfg : counts (New cfg) [].
Proof. constructor; try done. constructor; cbn; [constructor|done|set_solver..]. Qed.

Lemma observe_all_app c l1 l2 :
  observe_all c (l1 ++ l2) =
  let '(c1, d1) := observe_all c l1 in let '(c2, d2) := observe_all c1 l2 in (c2, d1 ++ d2).
Proof.
  revert c. induction l1 as [|o l1 IH]; intros c; cbn; [by destruct (observe_all c l2)|].
  destruct (After c o) as [c1 d]. rewrite IH. destruct (observe_all c1 l1) as [c2 d1]. by destruct (observe_all c2 l2).
Qed.

Lemma observe_all_counts cfg l : Enabled cfg = true → (∀ t, sha256_hex t ≠ "") →
  Z.of_nat (size (signatures l)) ≤ MaxSignatures (Normalized cfg) →
  Forall (λ d, dc_Action d ≠ ActionHalt) (observe_all (New cfg) l).2 →
  counts (observe_all (New cfg) l).1 (rev l) ∧ config (observe_all (New cfg) l).1 = Normalized cfg.
Proof.
  intros Hen Hsha. induction l as [|o l IH] using rev_ind; intros Hsize Hh; [split; [apply counts_New|done]|].
  rewrite observe_all_app in *. destruct (observe_all (New cfg) l) as [c1 d1] eqn:E1. cbn [observe_all] in *.
  destruct (After c1 o) as [c2 d2] eqn:E2. cbn [fst snd] in *. apply Forall_app in Hh as [Hh1 [Hh2 _]%Forall_cons].
  assert (Hsub : signatures l ⊆ signatures (l ++ [o])) by (unfold signatures; rewrite fmap_app; set_solver).
  destruct IH as [IH Hcfg]; [apply subseteq_size in Hsub; lia|done|].
  assert (Hs : signatures (o :: rev l) = signatures (l ++ [o])).
  { unfold signatures. apply list_to_set_perm_L, fmap_Permutation. rewrite <- Permutation_cons_append.
    constructor. symmetry. apply Permutation_rev. }
  pose proof (After_counts c1 (rev l) o IH Hsha) as Ha. rewrite Hcfg, Hs, E2 in Ha.
  destruct Ha as [_ Hc]; [done|done|apply Normalized_thresholds|]. rewrite rev_unit. split; [by apply Hc|].
  change c2 with (c2, d2).1. rewrite <- E2. destruct (After_bounded c1 o) as (_ & -> & _); [apply IH| | |done].
  - rewrite Hcfg. apply Normalized_thresholds.
  - rewrite Hcfg. destruct (ct_bounded _ _ IH) as [Ho Ht _ _].
    assert (length (order c1) = size (signatures (rev l))) as ->.
    { rewrite <- (ct_tracked _ _ IH), Ht, size_list_to_set; done. }
    rewrite <- Hs in Hsize. rewrite signatures_cons in Hsize.
    assert (size (signatures (rev l)) ≤ size ({[key_of o]} ∪ signatures (rev l)))%nat by (apply subseteq_size; set_solver). lia.
Qed.

Lemma Before_blocks c h tool args semantics : counts c h → Enabled (config c) = true → thresholds (config c) →
  dc_Action (Before c tool args semantics) = if blocks (config c) h tool args semantics then ActionBlock else ActionAllow.
Proof.
  intros Hc Hen [Hx Hs Hp _ _]. unfold Before, blocks. rewrite Hen. cbn [negb].
  set (key := sg_key _). destruct (HardStopsEnabled (config c)); cbn [negb andb]; [|done].
  rewrite <- (ct_exact _ _ Hc). destruct (ExactFailureBlock (config c) <=? exact_count c key); cbn [orb]; [done|].
  assert (Hst : (negb (String.eqb (trim_space tool) "") && String.eqb (failureStreakTool c) (trim_space tool)
      && (SameToolFailureHalt (config c) <=? failureStreakCount c)) =
    match h with
    | o :: _ => ob_Failed o && negb (String.eqb (trim_space tool) "") && String.eqb (tool_of o) (trim_space tool)
                  && (SameToolFailureHalt (config c) <=? streak h)
    | [] => false
    end).
  { rewrite (ct_tool _ _ Hc), (ct_streak _ _ Hc). destruct h as [|o h'].
    - by destruct (String.eqb_spec "" (trim_space tool)) as [<-|?]; rewrite ?andb_false_r.
    - destruct (ob_Failed o); cbn [andb]; [done|].
      by destruct (String.eqb_spec "" (trim_space tool)) as [<-|?]; rewrite ?andb_false_r. }
  rewrite <- Hst. destruct (negb _ && _ && _); cbn [orb]; [done|].
  unfold read_only. destruct semantics; [done| |done]. cbn [bool_decide andb].
  rewrite bool_decide_true by done. cbn [andb]. rewrite (ct_progress _ _ Hc). unfold recorded.
  destruct (of_key key h) as [|o h'] eqn:E.
  { unfold same_results. rewrite E. destruct (Z.leb_spec (NoProgressBlock (config c)) 0); [lia|done]. }
  destruct (negb (ob_Failed o) && read_only (ob_Semantics o)) eqn:E'; cbn [pr_count]; [by destruct (NoProgressBlock (config c) <=? same_results key h)|].
  unfold same_results. rewrite E. cbn [run_length]. rewrite E'. cbn [andb].
  destruct (Z.leb_spec (NoProgressBlock (config c)) 0); [lia|done].
Qed.

(** C31. Until it halts the turn, and while the calls of the turn fit in its
    memory, the guard judges as if it counted over the whole history: the
    verdict on each observation and the calls it blocks are those of the
    reference. *)
Theorem guard_matches_history cfg l o :
  (∀ t, sha256_hex t ≠ "") → Enabled cfg = true →
  Z.of_nat (size (signatures (o :: l))) ≤ MaxSignatures (Normalized cfg) →
  Forall (λ d, dc_Action d ≠ ActionHalt) (observe_all (New cfg) l).2 →
  let c := (observe_all (New cfg) l).1 in
  dc_Action (After c o).2 = verdict (Normalized cfg) (o :: rev l)
  ∧ ∀ tool args semantics,
      dc_Action (Before c tool args semantics)
      = if blocks (Normalized cfg) (rev l) tool args semantics then ActionBlock else ActionAllow.
Proof.
  intros Hsha Hen Hsize Hh c. pose proof (Normalized_thresholds cfg) as Hth.
  assert (Hsub : (size (signatures l) ≤ size (signatures (o :: l)))%nat) by (apply subseteq_size; rewrite signatures_cons; set_solver).
  destruct (observe_all_counts cfg l Hen Hsha) as [Hc Hcfg]; [lia|done|]. fold c in Hc. fold c in Hcfg.
  assert (Hs : signatures (o :: rev l) = signatures (o :: l)).
  { apply list_to_set_perm_L, fmap_Permutation. constructor. symmetry. apply Permutation_rev. }
  rewrite <- Hcfg in Hsize, Hth |- *. split.
  - apply After_counts; [done|done|by rewrite Hcfg|by rewrite Hs|done].
  - intros. apply Before_blocks; [done|by rewrite Hcfg|done].
Qed.
End guard.
