(* ===== verification/CronTypes.v ===== *)
(** Package [pkg/cron], the data of service.go: schedules, payloads, jobs and
    the store with its JSON layout; validation, the next run of a schedule, and
    the migration of version 1. *)
From S2P Require Import Prelude GoStrings GoJson.

Definition CurrentStoreVersion : Z := 2.
Definition legacyStoreVersion : Z := 1.

(** A kind is a string; the store may hold any other text. *)
Inductive ScheduleKind := ScheduleAt | ScheduleEvery | ScheduleCron | ScheduleOther (s : string).
Inductive PayloadKind := PayloadAgentTurn | PayloadDeliverText | PayloadCommand | PayloadOther (s : string).
#[export] Instance ScheduleKind_eq : EqDecision ScheduleKind.
Proof. solve_decision. Defined.
#[export] Instance PayloadKind_eq : EqDecision PayloadKind.
Proof. solve_decision. Defined.
Definition ScheduleKind_text (k : ScheduleKind) : string :=
  match k with ScheduleAt => "at" | ScheduleEvery => "every" | ScheduleCron => "cron" | ScheduleOther s => s end.
Definition PayloadKind_text (k : PayloadKind) : string :=
  match k with
  | PayloadAgentTurn => "agent_turn" | PayloadDeliverText => "deliver_text" | PayloadCommand => "command"
  | PayloadOther s => s
  end.

Record CronSchedule := mkSchedule {
  sc_Kind : ScheduleKind; sc_AtMS : option Z; sc_EveryMS : option Z; sc_Expr : string; sc_TZ : string }.
#[export] Instance CronSchedule_eq : EqDecision CronSchedule.
Proof. solve_decision. Defined.

Record CronDeliveryTarget := mkTarget {
  tg_Account : string; tg_ChatType : string; tg_TopicID : string; tg_SpaceID : string; tg_SpaceType : string;
  tg_SenderID : string; tg_ActorID : string; tg_ClientSessionID : string }.

Record CronPayload := mkPayload {
  pd_Kind : PayloadKind; pd_Message : string; pd_Command : string; pd_Channel : string; pd_To : string;
  pd_Target : option CronDeliveryTarget }.
#[export] Instance eta_CronPayload : Eta CronPayload := fun p =>
  mkPayload (pd_Kind p) (pd_Message p) (pd_Command p) (pd_Channel p) (pd_To p) (pd_Target p).

Record CronJobState := mkJobState {
  js_NextRunAtMS : option Z; js_LastRunAtMS : option Z; js_LastStatus : string; js_LastError : string }.
#[export] Instance eta_CronJobState : Eta CronJobState := fun s =>
  mkJobState (js_NextRunAtMS s) (js_LastRunAtMS s) (js_LastStatus s) (js_LastError s).

Record CronJob := mkJob {
  jb_ID : string; jb_Name : string; jb_Enabled : bool; jb_Schedule : CronSchedule; jb_Payload : CronPayload;
  jb_State : CronJobState; jb_CreatedAtMS : Z; jb_UpdatedAtMS : Z }.
#[export] Instance eta_CronJob : Eta CronJob := fun j =>
  mkJob (jb_ID j) (jb_Name j) (jb_Enabled j) (jb_Schedule j) (jb_Payload j) (jb_State j) (jb_CreatedAtMS j)
    (jb_UpdatedAtMS j).
Definition jb_next (j : CronJob) : option Z := js_NextRunAtMS (jb_State j).
Definition set_next (next : option Z) (j : CronJob) : CronJob :=
  j <| jb_State ::= fun s => s <| js_NextRunAtMS := next |> |>.

(** [st_Jobs] is [None] for a nil slice, which only a decoded file can have. *)
Record CronStore := mkStore { st_Version : Z; st_Jobs : option (list CronJob) }.
Definition jobs_of (s : CronStore) : list CronJob := default [] (st_Jobs s).
Definition with_jobs (s : CronStore) (l : list CronJob) : CronStore := mkStore (st_Version s) (Some l).
Definition newEmptyStore : CronStore := mkStore CurrentStoreVersion (Some []).

Record legacyCronPayload := mkLegacyPayload {
  lp_Kind : PayloadKind; lp_Message : string; lp_Command : string; lp_Channel : string; lp_To : string }.
Record legacyCronJob := mkLegacyJob {
  lj_ID : string; lj_Name : string; lj_Enabled : bool; lj_Schedule : CronSchedule; lj_Payload : legacyCronPayload;
  lj_State : CronJobState; lj_CreatedAtMS : Z; lj_UpdatedAtMS : Z; lj_DeleteAfterRun : option bool }.
Record legacyCronStore := mkLegacyStore { ls_Version : Z; ls_Jobs : option (list legacyCronJob) }.

(** ** JSON layout *)

Definition json_target (t : CronDeliveryTarget) : json :=
  JObj (fstr_omit "account" (tg_Account t) ++ fstr_omit "chat_type" (tg_ChatType t) ++ fstr_omit "topic_id" (tg_TopicID t)
    ++ fstr_omit "space_id" (tg_SpaceID t) ++ fstr_omit "space_type" (tg_SpaceType t) ++ fstr_omit "sender_id" (tg_SenderID t)
    ++ fstr_omit "actor_id" (tg_ActorID t) ++ fstr_omit "client_session_id" (tg_ClientSessionID t)).
Definition json_schedule (s : CronSchedule) : json :=
  JObj (fstr "kind" (ScheduleKind_text (sc_Kind s)) ++ fopt_omit "atMs" JInt (sc_AtMS s) ++ fopt_omit "everyMs" JInt (sc_EveryMS s)
    ++ fstr_omit "expr" (sc_Expr s) ++ fstr_omit "tz" (sc_TZ s)).
Definition json_payload (p : CronPayload) : json :=
  JObj (fstr "kind" (PayloadKind_text (pd_Kind p)) ++ fstr "message" (pd_Message p) ++ fstr_omit "command" (pd_Command p)
    ++ fstr "channel" (pd_Channel p) ++ fstr "to" (pd_To p) ++ fopt_omit "target" json_target (pd_Target p)).
Definition json_state (s : CronJobState) : json :=
  JObj (fopt_omit "nextRunAtMs" JInt (js_NextRunAtMS s) ++ fopt_omit "lastRunAtMs" JInt (js_LastRunAtMS s)
    ++ fstr_omit "lastStatus" (js_LastStatus s) ++ fstr_omit "lastError" (js_LastError s)).
Definition json_job (j : CronJob) : json :=
  JObj (fstr "id" (jb_ID j) ++ fstr "name" (jb_Name j) ++ field "enabled" (JBool (jb_Enabled j))
    ++ field "schedule" (json_schedule (jb_Schedule j)) ++ field "payload" (json_payload (jb_Payload j))
    ++ field "state" (json_state (jb_State j)) ++ fint "createdAtMs" (jb_CreatedAtMS j) ++ fint "updatedAtMs" (jb_UpdatedAtMS j)).
Definition json_store (s : CronStore) : json :=
  JObj (fint "version" (st_Version s)
    ++ field "jobs" (match st_Jobs s with Some l => JArr (json_job <$> l) | None => JNull end)).
Definition encode_store (s : CronStore) : string := marshal_indent "" "  " (json_store s).

(** ** The libraries the schedules rely on

    [gronx.IsValid], whether [time.LoadLocation] knows a zone, and
    [gronx.NextTickAfter] in a zone, in milliseconds ([None] on an error). *)
Class CronLibrary := {
  gronx_valid : string → bool;
  zone_known : string → bool;
  next_tick : string → string → Z → option Z }.

Definition two64 : Z := 18446744073709551616.
(** Addition of [int64] values. *)
Definition wrap64 (z : Z) : Z := (z + two64 / 2) mod two64 - two64 / 2.

Section library.
Context `{CronLibrary}.

Definition scheduleLocation (s : CronSchedule) : bool := String.eqb (sc_TZ s) "" || zone_known (sc_TZ s).

Definition computeNextRun (s : CronSchedule) (nowMS : Z) : option Z :=
  match sc_Kind s with
  | ScheduleAt => match sc_AtMS s with Some at_ms => if nowMS <? at_ms then Some at_ms else None | None => None end
  | ScheduleEvery =>
      match sc_EveryMS s with
      | Some every => if every <=? 0 then None else Some (wrap64 (nowMS + every))
      | None => None
      end
  | ScheduleCron =>
      if String.eqb (sc_Expr s) "" then None
      else if negb (scheduleLocation s) then None else next_tick (sc_Expr s) (sc_TZ s) nowMS
  | ScheduleOther _ => None
  end.

(** ** Validation *)

Inductive CronError :=
| NameRequired | BadAt | BadEvery | BadCron | InvalidExpr (expr : string) | InvalidTimezone (tz : string)
| UnsupportedScheduleKind (k : string)
| MessageRequired | RecipientRequired | InvalidTarget | EmptyTarget | UnexpectedCommand (k : string) | CommandRequired
| UnsupportedPayloadKind (k : string)
| UnsupportedVersion (v : Z) | JobsNotArray | IDRequired (i : nat) | DuplicateID (i : nat) (id : string)
| InJob (id : string) (e : CronError)
| DeletionPolicyRequired (id : string) | Migrating (e : CronError).

Definition validateCronSchedule (s : CronSchedule) : result CronError () :=
  match sc_Kind s with
  | ScheduleAt =>
      reject bool_decide (sc_AtMS s = None) || negb (bool_decide (sc_EveryMS s = None)) || negb (String.eqb (sc_Expr s) "")
             || negb (String.eqb (sc_TZ s) "") with BadAt ;; Ok tt
  | ScheduleEvery =>
      reject (match sc_EveryMS s with Some every => every <=? 0 | None => true end) || negb (bool_decide (sc_AtMS s = None))
             || negb (String.eqb (sc_Expr s) "") || negb (String.eqb (sc_TZ s) "") with BadEvery ;; Ok tt
  | ScheduleCron =>
      reject blank (sc_Expr s) || negb (bool_decide (sc_AtMS s = None)) || negb (bool_decide (sc_EveryMS s = None))
        with BadCron ;;
      reject negb (gronx_valid (sc_Expr s)) with InvalidExpr (sc_Expr s) ;;
      reject negb (scheduleLocation s) with InvalidTimezone (sc_TZ s) ;; Ok tt
  | ScheduleOther k => Err (UnsupportedScheduleKind k)
  end.

Definition target_values (t : CronDeliveryTarget) : list string :=
  [tg_Account t; tg_ChatType t; tg_TopicID t; tg_SpaceID t; tg_SpaceType t; tg_SenderID t; tg_ActorID t;
   tg_ClientSessionID t].
Definition validateCronDeliveryTarget (target : option CronDeliveryTarget) : result CronError () :=
  match target with
  | None => Ok tt
  | Some t =>
      _ ← check_all (fun v => reject negb (String.eqb (trim_space v) v) || (512 <? len v) with InvalidTarget ;; Ok tt)
            (target_values t);
      require existsb (fun v => negb (String.eqb v "")) (target_values t) else EmptyTarget ;; Ok tt
  end.

Definition validateCronPayload (p : CronPayload) : result CronError () :=
  reject blank (pd_Message p) with MessageRequired ;;
  reject blank (pd_Channel p) || blank (pd_To p) with RecipientRequired ;;
  _ ← validateCronDeliveryTarget (pd_Target p);
  match pd_Kind p with
  | PayloadAgentTurn | PayloadDeliverText =>
      reject negb (blank (pd_Command p)) with UnexpectedCommand (PayloadKind_text (pd_Kind p)) ;; Ok tt
  | PayloadCommand => reject blank (pd_Command p) with CommandRequired ;; Ok tt
  | PayloadOther k => Err (UnsupportedPayloadKind k)
  end.

Definition validateCronDefinition (name : string) (s : CronSchedule) (p : CronPayload) : result CronError () :=
  reject blank name with NameRequired ;;
  _ ← validateCronSchedule s; validateCronPayload p.

Definition in_job (id : string) (r : result CronError ()) : result CronError () :=
  match r with Ok _ => Ok tt | Err e => Err (InJob id e) end.
(** The loop of [validateCronStore] from the job at [i] with the identifiers seen. *)
Fixpoint validate_jobs (i : nat) (ids : gset string) (l : list CronJob) : result CronError () :=
  match l with
  | [] => Ok tt
  | job :: l =>
      reject blank (jb_ID job) with IDRequired i ;;
      reject bool_decide (jb_ID job ∈ ids) with DuplicateID i (jb_ID job) ;;
      _ ← in_job (jb_ID job) (validateCronDefinition (jb_Name job) (jb_Schedule job) (jb_Payload job));
      validate_jobs (S i) ({[jb_ID job]} ∪ ids) l
  end.
Definition validateCronStore (s : CronStore) : result CronError () :=
  reject negb (st_Version s =? CurrentStoreVersion) with UnsupportedVersion (st_Version s) ;;
  match st_Jobs s with
  | None => Err JobsNotArray
  | Some l => validate_jobs 0 ∅ l
  end.

(** ** Version 1 *)

Definition migrate_payload (p : legacyCronPayload) : CronPayload :=
  let kind := if negb (blank (lp_Command p)) then PayloadCommand
              else match lp_Kind p with PayloadOther "" => PayloadAgentTurn | k => k end in
  mkPayload kind (lp_Message p) (lp_Command p)
    (if blank (lp_Channel p) then "cli" else lp_Channel p) (if blank (lp_To p) then "direct" else lp_To p) None.
Fixpoint migrate_jobs (l : list legacyCronJob) : result CronError (list CronJob) :=
  match l with
  | [] => Ok []
  | job :: l =>
      reject bool_decide (lj_DeleteAfterRun job = None) with DeletionPolicyRequired (lj_ID job) ;;
      r ← migrate_jobs l;
      Ok (mkJob (lj_ID job) (lj_Name job) (lj_Enabled job) (lj_Schedule job) (migrate_payload (lj_Payload job))
            (lj_State job) (lj_CreatedAtMS job) (lj_UpdatedAtMS job) :: r)
  end.
(** [decodeLegacyCronStore] after the strict decoder. *)
Definition migrate_store (legacy : legacyCronStore) : result CronError CronStore :=
  reject negb (ls_Version legacy =? legacyStoreVersion) with UnsupportedVersion (ls_Version legacy) ;;
  match ls_Jobs legacy with
  | None => Err JobsNotArray
  | Some l =>
      jobs ← migrate_jobs l;
      let store := mkStore CurrentStoreVersion (Some jobs) in
      match validateCronStore store with Ok _ => Ok store | Err e => Err (Migrating e) end
  end.
End library.
