(* ===== verification/CronService.v ===== *)
(** Package [pkg/cron], service.go: the sections of the service that run under
    its mutex [mu], each from the state before to the state after.  The file is
    part of the state; what the environment decides in a section (the clock,
    the fresh identifier, the outcome of reading and of writing the file) is in
    [Env].  The interleaving of the sections is in [CronSchedule]. *)
From S2P Require Import Prelude GoStrings GoJson CronTypes.

Inductive LoadError :=
| ReadFailed | BadJSON | WrongVersion (v : Z) | Rejected (e : CronError) | MigrationNotPersisted (committed : bool).

(** What a caller is answered. *)
Inductive ServiceError :=
| ErrUnavailable (e : option LoadError) (* [None]: a reload is in progress *)
| ErrInvalid (e : CronError) | ErrJobNotFound (id : string) | ErrRandom
| ErrNotSaved (e : CronError) | ErrNotWritten
| ErrNotConfirmed (* written, but its durability is not confirmed *)
| ErrLoad (e : LoadError) | ErrDrain (active : Z) | ErrDeadline.

(** The strict JSON decoders of [readStore]: the version of the header, and the
    two layouts. *)
Class CronDecoder := {
  decode_version : string → option Z;
  decode_store : string → option CronStore;
  decode_legacy : string → option legacyCronStore }.

Record Env := mkEnv {
  env_now : Z; (* the clock, in milliseconds *)
  env_later : Z; (* a later reading in the same section *)
  env_id : option string; (* [generateID]; [None] when it fails *)
  env_unreadable : bool; (* reading the file fails, other than for its absence *)
  env_write : WriteOutcome }.

Record Service := mkService {
  cs_store : CronStore;
  cs_loadErr : option LoadError;
  cs_reloadWait : bool;
  cs_onJob : bool; (* a handler is installed *)
  cs_running : bool;
  cs_stopChan : option nat; (* an index of [cs_closed] *)
  cs_closed : list bool; (* the stop channels made so far: true when closed *)
  cs_wake : bool; (* a notification is pending *)
  cs_activeJobs : Z;
  cs_dispatching : bool; (* [dispatchMu] is held *)
  cs_file : option string }.
#[export] Instance eta_Service : Eta Service := fun s =>
  mkService (cs_store s) (cs_loadErr s) (cs_reloadWait s) (cs_onJob s) (cs_running s) (cs_stopChan s) (cs_closed s)
    (cs_wake s) (cs_activeJobs s) (cs_dispatching s) (cs_file s).
Definition jobs (s : Service) : list CronJob := jobs_of (cs_store s).
Definition set_jobs (l : list CronJob) (s : Service) : Service := s <| cs_store ::= fun st => with_jobs st l |>.
Definition notify (s : Service) : Service := s <| cs_wake := true |>.

Section service.
Context `{CronLibrary, CronDecoder}.
Implicit Types (e : Env) (s : Service).

(** ** The file *)

(** [Ok None] when there is no file; the flag tells a migrated store. *)
Definition readStore e s : result LoadError (option (CronStore * bool)) :=
  reject env_unreadable e with ReadFailed ;;
  match cs_file s with
  | None => Ok None
  | Some data =>
      match decode_version data with
      | None => Err BadJSON
      | Some v =>
          if v =? CurrentStoreVersion then
            match decode_store data with
            | None => Err BadJSON
            | Some store =>
                match validateCronStore store with Ok _ => Ok (Some (store, false)) | Err x => Err (Rejected x) end
            end
          else if v =? legacyStoreVersion then
            match decode_legacy data with
            | None => Err BadJSON
            | Some legacy =>
                match migrate_store legacy with Ok store => Ok (Some (store, true)) | Err x => Err (Rejected x) end
            end
          else Err (WrongVersion v)
      end
  end.

Inductive SaveError := SaveInvalid (e : CronError) | SaveFailed (committed : bool).
Definition committed (x : SaveError) : bool := match x with SaveFailed b => b | SaveInvalid _ => false end.
Definition not_saved (x : SaveError) : ServiceError :=
  match x with SaveInvalid x => ErrNotSaved x | SaveFailed true => ErrNotConfirmed | SaveFailed false => ErrNotWritten end.

Definition saveStoreUnsafe e s : Service * result SaveError () :=
  match validateCronStore (cs_store s) with
  | Err x => (s, Err (SaveInvalid x))
  | Ok _ =>
      let data := Some (encode_store (cs_store s)) in
      match env_write e with
      | WriteOk => (s <| cs_file := data |>, Ok tt)
      | WriteCommitted => (s <| cs_file := data |>, Err (SaveFailed true))
      | WriteFailed => (s, Err (SaveFailed false))
      end
  end.

Definition migration_error (x : SaveError) : LoadError := MigrationNotPersisted (committed x).

(** [fresh] is a service that has no store yet, as in [NewCronService]. *)
Definition loadStore e s : Service * result LoadError () :=
  match readStore e s with
  | Err x => (s <| cs_loadErr := Some x |>, Err x)
  | Ok None => (s <| cs_store := newEmptyStore |> <| cs_loadErr := None |>, Ok tt)
  | Ok (Some (store, migrated)) =>
      let s := s <| cs_store := store |> in
      if migrated then
        match saveStoreUnsafe e s with
        | (s, Ok _) => (s <| cs_loadErr := None |>, Ok tt)
        | (s, Err x) => (s <| cs_loadErr := Some (migration_error x) |>, Err (migration_error x))
        end
      else (s <| cs_loadErr := None |>, Ok tt)
  end.

(** [ensureStore] gives the new service an empty store when it cannot be read. *)
Definition NewCronService e (file : option string) (onJob : bool) : Service :=
  (loadStore e (mkService newEmptyStore None false onJob false None [] false 0 false file)).1.

Definition writesBlocked s : bool := bool_decide (is_Some (cs_loadErr s)) || cs_reloadWait s.
Definition storeUnavailableErr s : ServiceError := ErrUnavailable (cs_loadErr s).

(** ** Starting and stopping *)

Definition recomputeNextRuns (now : Z) (l : list CronJob) : list CronJob :=
  (fun job => if jb_Enabled job then set_next (computeNextRun (jb_Schedule job) now) job else job) <$> l.

Definition prepareLocked e s : Service * result ServiceError () :=
  match loadStore e s with
  | (s, Err x) => (s, Err (ErrLoad x))
  | (s, Ok _) =>
      let s := set_jobs (recomputeNextRuns (env_now e) (jobs s)) s in
      match saveStoreUnsafe e s with
      | (s, Ok _) => (s, Ok tt)
      | (s, Err x) => (s, Err (not_saved x))
      end
  end.
(** The new stop channel is the last one; the caller starts its loop. *)
Definition activateLocked s : Service :=
  s <| cs_stopChan := Some (length (cs_closed s)) |> <| cs_closed ::= fun l => l ++ [false] |> <| cs_running := true |>.

Definition Start e s : Service * result ServiceError () :=
  if cs_running s then (s, Ok tt) else
  match prepareLocked e s with
  | (s, Ok _) => (activateLocked s, Ok tt)
  | (s, Err x) => (s, Err x)
  end.
Definition Prepare e s : Service * result ServiceError () := if cs_running s then (s, Ok tt) else prepareLocked e s.
Definition Activate s : Service := if cs_running s then s else activateLocked s.
Definition Stop s : Service :=
  if negb (cs_running s) then s else
  let s := s <| cs_running := false |> in
  match cs_stopChan s with
  | Some k => s <| cs_closed ::= <[k := true]> |> <| cs_stopChan := None |>
  | None => s
  end.

(** ** Reloading *)

(** [Load] up to its first unlock: [None] when it goes on to wait for the
    dispatcher. *)
Definition Load_probe e s : Service * option LoadError :=
  match readStore e s with
  | Err x => (notify (s <| cs_loadErr := Some x |>), Some x)
  | Ok None => (s <| cs_reloadWait := true |>, None)
  | Ok (Some _) => (s, None)
  end.
(** The rest, with the dispatcher locked. *)
Definition Load_publish e s : Service * result ServiceError () :=
  let previous := cs_store s in
  match readStore e s with
  | Err x => (notify (s <| cs_reloadWait := false |> <| cs_loadErr := Some x |>), Err (ErrLoad x))
  | Ok found =>
      let s := s <| cs_store := match found with Some (store, _) => store | None => newEmptyStore end |> in
      let publish s := notify (s <| cs_loadErr := None |> <| cs_reloadWait := false |>) in
      match found with
      | Some (_, true) =>
          match saveStoreUnsafe e s with
          | (s, Ok _) => (publish s, Ok tt)
          | (s, Err x) =>
              (notify (s <| cs_store := previous |> <| cs_reloadWait := false |> <| cs_loadErr := Some (migration_error x) |>),
               Err (ErrLoad (migration_error x)))
          end
      | _ => (publish s, Ok tt)
      end
  end.

(** ** Jobs *)

Definition find_job (id : string) (l : list CronJob) : option CronJob := List.find (fun j => String.eqb (jb_ID j) id) l.
(** The assignment through [&cs.store.Jobs[i]] of the first job with the identifier. *)
Fixpoint update_job (id : string) (f : CronJob → CronJob) (l : list CronJob) : list CronJob :=
  match l with
  | [] => []
  | j :: l => if String.eqb (jb_ID j) id then f j :: l else j :: update_job id f l
  end.
Definition removeJobUnsafe (id : string) (l : list CronJob) : list CronJob :=
  List.filter (fun j => negb (String.eqb (jb_ID j) id)) l.

Definition AddJob e (name : string) (schedule : CronSchedule) (payload : CronPayload) s :
  Service * (option CronJob * option ServiceError) :=
  if writesBlocked s then (s, (None, Some (storeUnavailableErr s))) else
  match validateCronDefinition name schedule payload with
  | Err x => (s, (None, Some (ErrInvalid x)))
  | Ok _ =>
      let now := env_now e in
      match env_id e with
      | None => (s, (None, Some ErrRandom))
      | Some id =>
          let job := mkJob id name true schedule payload (mkJobState (computeNextRun schedule now) None "" "") now now in
          match saveStoreUnsafe e (set_jobs (jobs s ++ [job]) s) with
          | (s', Ok _) => (notify s', (Some job, None))
          | (s', Err x) =>
              if committed x then (notify s', (Some job, Some ErrNotConfirmed))
              else (set_jobs (take (length (jobs s') - 1) (jobs s')) s', (None, Some (not_saved x)))
          end
      end
  end.

Definition GetJob (id : string) s : option CronJob := find_job id (jobs s).

(** [sameInt64] compares what the pointers hold. *)
Definition sameSchedule (a b : CronSchedule) : bool :=
  bool_decide (sc_Kind a = sc_Kind b) && bool_decide (sc_AtMS a = sc_AtMS b) && bool_decide (sc_EveryMS a = sc_EveryMS b)
  && String.eqb (sc_Expr a) (sc_Expr b) && String.eqb (sc_TZ a) (sc_TZ b).

Definition updated_job (now : Z) (previous job : CronJob) : CronJob :=
  let updated := job <| jb_UpdatedAtMS := now |> in
  if jb_Enabled updated then
    if negb (Bool.eqb (jb_Enabled previous) (jb_Enabled updated))
       || negb (sameSchedule (jb_Schedule previous) (jb_Schedule updated))
    then set_next (computeNextRun (jb_Schedule updated) now) updated else updated
  else set_next None updated.
Definition UpdateJob e (job : CronJob) s : Service * option ServiceError :=
  if writesBlocked s then (s, Some (storeUnavailableErr s)) else
  match find_job (jb_ID job) (jobs s) with
  | None => (s, Some (ErrJobNotFound (jb_ID job)))
  | Some previous =>
      match validateCronDefinition (jb_Name job) (jb_Schedule job) (jb_Payload job) with
      | Err x => (s, Some (ErrInvalid x))
      | Ok _ =>
          let s := set_jobs (update_job (jb_ID job) (fun _ => updated_job (env_now e) previous job) (jobs s)) s in
          match saveStoreUnsafe e (notify s) with
          | (s, Ok _) => (s, None)
          | (s, Err x) => (s, Some (not_saved x))
          end
      end
  end.

Definition RemoveJob e (id : string) s : Service * option ServiceError :=
  if writesBlocked s then (s, Some (storeUnavailableErr s)) else
  let previousJobs := jobs s in
  let l := removeJobUnsafe id previousJobs in
  if negb (length l <? length previousJobs)%nat then (set_jobs l s, Some (ErrJobNotFound id)) else
  match saveStoreUnsafe e (set_jobs l s) with
  | (s, Ok _) => (notify s, None)
  | (s, Err x) =>
      if committed x then (notify s, Some ErrNotConfirmed) else (set_jobs previousJobs s, Some (not_saved x))
  end.

Definition enabled_job e (enabled : bool) (job : CronJob) : CronJob :=
  set_next (if enabled then computeNextRun (jb_Schedule job) (env_later e) else None)
    (job <| jb_Enabled := enabled |> <| jb_UpdatedAtMS := env_now e |>).
Definition EnableJob e (id : string) (enabled : bool) s : Service * (option CronJob * option ServiceError) :=
  if writesBlocked s then (s, (None, Some (storeUnavailableErr s))) else
  match find_job id (jobs s) with
  | None => (s, (None, Some (ErrJobNotFound id)))
  | Some previous =>
      let job := enabled_job e enabled previous in
      match saveStoreUnsafe e (set_jobs (update_job id (fun _ => job) (jobs s)) s) with
      | (s, Ok _) => (notify s, (Some job, None))
      | (s, Err x) =>
          if committed x then (notify s, (Some job, Some ErrNotConfirmed))
          else (set_jobs (update_job id (fun _ => previous) (jobs s)) s, (None, Some (not_saved x)))
      end
  end.

Definition ListJobs (includeDisabled : bool) s : list CronJob :=
  if includeDisabled then jobs s else List.filter jb_Enabled (jobs s).

Definition getNextWakeMS s : option Z :=
  if bool_decide (is_Some (cs_loadErr s)) then None else
  fold_left (fun wake job =>
    match jb_Enabled job, jb_next job with
    | true, Some next => match wake with Some w => if next <? w then Some next else wake | None => Some next end
    | _, _ => wake
    end) (jobs s) None.

(** ** Dispatching *)

Definition is_due (now : Z) (job : CronJob) : bool :=
  jb_Enabled job && match jb_next job with Some next => next <=? now | None => false end.

(** The section of [checkJobs]: the jobs it claims. *)
Definition claim_due e s : Service * list CronJob :=
  if negb (cs_running s) || writesBlocked s then (s, []) else
  let due := List.filter (is_due (env_now e)) (jobs s) in
  let ids := jb_ID <$> due in
  let s := set_jobs ((fun job => if bool_decide (jb_ID job ∈ ids) then set_next None job else job) <$> jobs s) s in
  ((saveStoreUnsafe e s).1, due).

(** The last section of [executeJobByID]. *)
Definition finish_job e (id : string) (startTime : Z) (err : option string) s : Service :=
  match find_job id (jobs s) with
  | None => s
  | Some job =>
      let job := job <| jb_UpdatedAtMS := env_now e |>
                     <| jb_State ::= fun st => st <| js_LastRunAtMS := Some startTime |>
                          <| js_LastStatus := if err then "error" else "ok" |> <| js_LastError := default "" err |> |> in
      let s := match sc_Kind (jb_Schedule job) with
               | ScheduleAt => notify (set_jobs (removeJobUnsafe id (jobs s)) s)
               | _ => set_jobs (update_job id (fun _ => set_next (computeNextRun (jb_Schedule job) (env_later e)) job) (jobs s)) s
               end in
      if writesBlocked s then s else (saveStoreUnsafe e s).1
  end.

Definition incrementActiveJobs s : Service := s <| cs_activeJobs ::= fun n => n + 1 |>.
Definition decrementActiveJobs s : Service := s <| cs_activeJobs ::= fun n => if 0 <? n then n - 1 else n |>.
End service.
