(* ===== verification/CronValid.v ===== *)
(** The schedule of the service is always one that the next load accepts, every
    section keeps it so, and a section writes the file only with such a
    schedule, never over a file it could not read. *)
From S2P Require Import Prelude GoStrings GoJson CronTypes CronService.

Section valid.
Context `{CronLibrary, CronDecoder}.
Implicit Types (e : Env) (s : Service) (l : list CronJob) (j : CronJob).

(** ** What validation accepts *)

Definition job_valid j : Prop :=
  blank (jb_ID j) = false ∧ validateCronDefinition (jb_Name j) (jb_Schedule j) (jb_Payload j) = Ok tt.
Definition jobs_valid l : Prop := NoDup (jb_ID <$> l) ∧ Forall job_valid l.
Definition store_valid (st : CronStore) : Prop := ∃ l, st = mkStore CurrentStoreVersion (Some l) ∧ jobs_valid l.

Lemma in_job_ok id r : in_job id r = Ok tt ↔ r = Ok tt.
Proof. destruct r as [[]|]; done. Qed.

Lemma validate_jobs_exact i ids l :
  validate_jobs i ids l = Ok tt ↔ NoDup (jb_ID <$> l) ∧ Forall job_valid l ∧ ∀ j, j ∈ l → jb_ID j ∉ ids.
Proof.
  revert i ids. induction l as [|j l IH]; intros i ids; cbn [validate_jobs].
  { split; [|done]. intros _. split_and!; [constructor..|]. by intros j ?%elem_of_nil. }
  rewrite !reject_ok, bind_unit_ok, in_job_ok, IH, fmap_cons, NoDup_cons, Forall_cons, bool_decide_eq_false.
  split.
  - intros (Hb & Hid & Hd & Hnd & Hv & Hout). split_and!; try done.
    + intros (j' & Hj & Hin)%list_elem_of_fmap. specialize (Hout j' Hin). set_solver.
    + intros j' [->|Hj]%elem_of_cons; [done|]. specialize (Hout j' Hj). set_solver.
  - intros ([Hnot Hnd] & [[Hb Hd] Hv] & Hout). split_and!; try done.
    + apply Hout. by left.
    + intros j' Hj. apply not_elem_of_union. split; [|apply Hout; by right].
      apply not_elem_of_singleton. intros Heq. apply Hnot. rewrite <- Heq. by apply list_elem_of_fmap_2.
Qed.

Lemma validate_exact st : validateCronStore st = Ok tt ↔ store_valid st.
Proof.
  unfold validateCronStore, store_valid, jobs_valid. destruct st as [v [l|]]; cbn; rewrite reject_ok, negb_false_iff, Z.eqb_eq.
  - rewrite validate_jobs_exact. split.
    + intros (-> & ? & ? & _). by exists l.
    + intros (l' & [= -> ->] & ? & ?). split_and!; try done; intros; apply not_elem_of_empty.
  - split; [by intros [_ ?]|by intros (? & [=] & _)].
Qed.
Lemma validate_unit st x : validateCronStore st = Ok x → store_valid st.
Proof. destruct x. apply validate_exact. Qed.

Lemma migrate_valid legacy st : migrate_store legacy = Ok st → store_valid st.
Proof.
  unfold migrate_store. case_match; [done|]. destruct (ls_Jobs legacy) as [l|]; [|done].
  destruct (migrate_jobs l) as [js|]; cbn [mbind result_bind]; [|done]. cbv zeta.
  destruct (validateCronStore _) as [u|] eqn:E; [|done]. intros [= <-]. by eapply validate_unit.
Qed.
Lemma readStore_valid e s st m : readStore e s = Ok (Some (st, m)) → store_valid st.
Proof.
  unfold readStore. case_match; [done|]. destruct (cs_file s) as [data|]; [|done].
  destruct (decode_version data) as [v|]; [|done]. case_match.
  - destruct (decode_store data) as [st'|]; [|done]. destruct (validateCronStore st') as [u|] eqn:E; [|done].
    intros [= <- _]. by eapply validate_unit.
  - case_match; [|done]. destruct (decode_legacy data) as [lg|]; [|done].
    destruct (migrate_store lg) eqn:E; [|done]. intros [= <- _]. by eapply migrate_valid.
Qed.
Lemma empty_valid : store_valid newEmptyStore.
Proof. exists []. split; [done|]. split; constructor. Qed.

(** ** Changing the jobs *)

Definition ok s : Prop := store_valid (cs_store s).

Lemma ok_jobs s : ok s → jobs_valid (jobs s) ∧ set_jobs (jobs s) s = s.
Proof. intros (l & Hl & Hv). destruct s; cbn in *. subst. by unfold jobs. Qed.
Lemma ok_set_jobs s l : ok s → jobs_valid l → ok (set_jobs l s).
Proof. intros (l0 & Hl & _) Hv. exists l. unfold set_jobs, with_jobs. cbn. by rewrite Hl. Qed.
Lemma jobs_set l s : jobs (set_jobs l s) = l. Proof. done. Qed.
Lemma set_jobs_twice l l' s : set_jobs l (set_jobs l' s) = set_jobs l s. Proof. done. Qed.

(** The same definition, with another state. *)
Definition same_definition j j' : Prop :=
  jb_ID j' = jb_ID j ∧ jb_Name j' = jb_Name j ∧ jb_Schedule j' = jb_Schedule j ∧ jb_Payload j' = jb_Payload j.
Lemma jobs_valid_fmap (f : CronJob → CronJob) l : (∀ j, j ∈ l → jb_ID (f j) = jb_ID j ∧ (job_valid j → job_valid (f j))) →
  jobs_valid l → jobs_valid (f <$> l).
Proof.
  intros Hf [Hnd Hv]. split.
  - rewrite <- list_fmap_compose. rewrite (list_fmap_ext _ jb_ID l); [done|]. intros i j Hj.
    apply list_elem_of_lookup_2 in Hj. by apply Hf.
  - apply Forall_fmap, Forall_forall. intros j Hj. rewrite Forall_forall in Hv. apply Hf; auto.
Qed.
Lemma job_valid_same j j' : same_definition j j' → job_valid j → job_valid j'.
Proof. intros (H1 & H2 & H3 & H4) [Hb Hd]. unfold job_valid. by rewrite H1, H2, H3, H4. Qed.

Lemma update_job_as_fmap id f l : NoDup (jb_ID <$> l) →
  update_job id f l = (fun j => if String.eqb (jb_ID j) id then f j else j) <$> l.
Proof.
  induction l as [|j l IH]; [done|]. rewrite fmap_cons, NoDup_cons. intros [Hj Hnd]. cbn.
  destruct (String.eqb_spec (jb_ID j) id) as [He|He]; [|by rewrite IH]. f_equal.
  clear IH Hnd. induction l as [|k l IH]; [done|]. rewrite fmap_cons in *. apply not_elem_of_cons in Hj as [Hn Hj].
  destruct (String.eqb_spec (jb_ID k) id) as [Hk|Hk]; [congruence|]. by rewrite <- IH.
Qed.
Lemma update_job_valid id f l :
  (∀ j, j ∈ l → jb_ID j = id → jb_ID (f j) = id ∧ (job_valid j → job_valid (f j))) →
  jobs_valid l → jobs_valid (update_job id f l).
Proof.
  intros Hf Hl. rewrite update_job_as_fmap by apply Hl. apply jobs_valid_fmap; [|done].
  intros j Hj. destruct (String.eqb_spec (jb_ID j) id) as [He|He]; [|done]. rewrite He. by apply Hf.
Qed.
Lemma find_job_some id l j : find_job id l = Some j → j ∈ l ∧ jb_ID j = id.
Proof. intros [Hin He]%List.find_some. split; [by apply list_elem_of_In|by apply String.eqb_eq]. Qed.
Lemma find_job_none id l j : find_job id l = None → j ∈ l → jb_ID j ≠ id.
Proof.
  intros Hn Hj. apply list_elem_of_In in Hj. pose proof (List.find_none _ _ Hn j Hj) as He. by apply String.eqb_neq.
Qed.
Lemma remove_sublist id l : removeJobUnsafe id l `sublist_of` l.
Proof.
  induction l as [|j l IH]; [done|]. cbn. destruct (negb _); [by apply sublist_skip|by apply sublist_cons].
Qed.
Lemma remove_same id l : (length l ≤ length (removeJobUnsafe id l))%nat → removeJobUnsafe id l = l.
Proof.
  induction l as [|j l IH]; [done|]. cbn. destruct (negb _); cbn; intros Hl; [f_equal; apply IH; unfold removeJobUnsafe; lia|].
  pose proof (sublist_length _ _ (remove_sublist id l)). unfold removeJobUnsafe in *. lia.
Qed.
Lemma remove_valid id l : jobs_valid l → jobs_valid (removeJobUnsafe id l).
Proof.
  intros [Hnd Hv]. pose proof (remove_sublist id l) as Hs. split.
  - eapply sublist_NoDup; [done|by apply fmap_sublist].
  - rewrite Forall_forall in *. intros j Hj. apply Hv. by eapply elem_of_sublist.
Qed.

(** ** Sections *)

(** The file cannot be read as a schedule. *)
Definition unreadable_file (file : option string) : Prop :=
  ∃ data, file = Some data ∧ ∀ e s, cs_file s = file → ∃ x, readStore e s = Err x.

(** What every section keeps; the file it may write. *)
Record kept s s' : Prop := {
  kept_ok : ok s → ok s';
  kept_file : cs_file s' = cs_file s ∨ ∃ st, store_valid st ∧ cs_file s' = Some (encode_store st);
  kept_barrier : is_Some (cs_loadErr s) → unreadable_file (cs_file s) →
                 is_Some (cs_loadErr s') ∧ cs_file s' = cs_file s;
  kept_dispatch : cs_dispatching s' = cs_dispatching s }.

Lemma kept_refl s : kept s s.
Proof. constructor; auto. Qed.
Lemma kept_trans s1 s2 s3 : kept s1 s2 → kept s2 s3 → kept s1 s3.
Proof.
  intros [A1 A2 A3 A4] [B1 B2 B3 B4]. constructor; [auto| | |congruence].
  - destruct B2 as [->|?]; [done|by right].
  - intros Hs Hf. destruct (A3 Hs Hf) as [Hs2 Hf2]. rewrite <- Hf2. apply B3; [done|by rewrite Hf2].
Qed.

(** A section that does not touch the file, and clears no error. *)
Lemma kept_silent s s' : cs_file s' = cs_file s → cs_loadErr s' = cs_loadErr s →
  cs_dispatching s' = cs_dispatching s → (ok s → ok s') → kept s s'.
Proof. intros Hf He Hd Hok. constructor; [done|by left| |done]. by rewrite Hf, He. Qed.

Lemma save_spec e s : (saveStoreUnsafe e s).1 = s ∨
  store_valid (cs_store s) ∧ (saveStoreUnsafe e s).1 = s <| cs_file := Some (encode_store (cs_store s)) |>.
Proof.
  unfold saveStoreUnsafe. destruct (validateCronStore (cs_store s)) as [u|] eqn:E; [|by left].
  apply validate_unit in E. destruct (env_write e); cbn; auto.
Qed.
Lemma save_store e s : cs_store (saveStoreUnsafe e s).1 = cs_store s.
Proof. destruct (save_spec e s) as [->|[_ ->]]; done. Qed.
Lemma save_loadErr e s : cs_loadErr (saveStoreUnsafe e s).1 = cs_loadErr s.
Proof. destruct (save_spec e s) as [->|[_ ->]]; done. Qed.
Lemma save_file e s : cs_file (saveStoreUnsafe e s).1 = cs_file s ∨
  ∃ st, store_valid st ∧ cs_file (saveStoreUnsafe e s).1 = Some (encode_store st).
Proof. destruct (save_spec e s) as [->|[? ->]]; [by left|right]. by eexists. Qed.
(** A saved schedule: the answer, and what it says of the file. *)
Lemma save_answer e s s' r : saveStoreUnsafe e s = (s', r) →
  match r with
  | Ok _ | Err (SaveFailed true) => s' = s <| cs_file := Some (encode_store (cs_store s)) |> ∧ store_valid (cs_store s)
  | Err _ => s' = s
  end.
Proof.
  unfold saveStoreUnsafe. destruct (validateCronStore (cs_store s)) as [u|] eqn:E; [|by intros [= <- <-]].
  apply validate_unit in E. destruct (env_write e); by intros [= <- <-].
Qed.

(** A mutation that checks the barrier first. *)
Lemma kept_mutation s s' : writesBlocked s = false → cs_dispatching s' = cs_dispatching s → (ok s → ok s') →
  (cs_file s' = cs_file s ∨ ∃ st, store_valid st ∧ cs_file s' = Some (encode_store st)) → kept s s'.
Proof.
  intros Hw Hd Hok Hf. constructor; [done|done| |done]. intros Hs _. unfold writesBlocked in Hw.
  by rewrite bool_decide_eq_true_2 in Hw.
Qed.

Lemma readStore_broken e s : unreadable_file (cs_file s) → ∃ x, readStore e s = Err x.
Proof. intros (data & Hd & Hr). by apply Hr. Qed.


(** What a save does to the state: the file alone, and only when the schedule is valid. *)
Lemma save_inv e s : ∃ f r, saveStoreUnsafe e s = (s <| cs_file := f |>, r) ∧
  (f = cs_file s ∨ ∃ st, store_valid st ∧ f = Some (encode_store st)).
Proof.
  unfold saveStoreUnsafe. destruct (validateCronStore (cs_store s)) as [u|x] eqn:E.
  - apply validate_unit in E. destruct (env_write e).
    + exists (Some (encode_store (cs_store s))), (Ok tt). split; [done|right; by eexists].
    + exists (Some (encode_store (cs_store s))), (Err (SaveFailed true)). split; [done|right; by eexists].
    + exists (cs_file s), (Err (SaveFailed false)). split; [by destruct s|by left].
  - exists (cs_file s), (Err (SaveInvalid x)). split; [by destruct s|by left].
Qed.
Ltac saved := match goal with |- context [saveStoreUnsafe ?e ?s] =>
  let f := fresh "f" in let r := fresh "r" in let Hs := fresh "Hs" in let Hf := fresh "Hf" in
  destruct (save_inv e s) as (f & r & Hs & Hf); rewrite Hs; cbn in Hf end.

Lemma loadStore_kept e s : kept s (loadStore e s).1.
Proof.
  unfold loadStore. destruct (readStore e s) as [[[st m]|]|x] eqn:E.
  - apply readStore_valid in E as Hv.
    assert (Hno : ∀ P : Prop, unreadable_file (cs_file s) → P) by (intros P Hb; destruct (readStore_broken e s Hb); congruence).
    destruct m; [|constructor; cbn; [done|by left|intros _; apply Hno|done]].
    saved. destruct r; constructor; cbn; try done; intros _; apply Hno.
  - constructor; [intros _; apply empty_valid|by left| |done]. intros _ Hb. destruct (readStore_broken e s Hb). congruence.
  - constructor; [done|by left|done|done].
Qed.
Lemma loadStore_ok e s : ok s → ok (loadStore e s).1.
Proof. apply loadStore_kept. Qed.

Lemma Load_probe_kept e s : kept s (Load_probe e s).1.
Proof.
  unfold Load_probe. destruct (readStore e s) as [[[st m]|]|x] eqn:E; cbn.
  - apply kept_refl.
  - by apply kept_silent.
  - constructor; [done|by left|done|done].
Qed.

Lemma Load_publish_kept e s : kept s (Load_publish e s).1.
Proof.
  unfold Load_publish. destruct (readStore e s) as [[[st m]|]|x] eqn:E; cbn.
  - apply readStore_valid in E as Hv.
    assert (Hno : ∀ P : Prop, unreadable_file (cs_file s) → P) by (intros P Hb; destruct (readStore_broken e s Hb); congruence).
    destruct m; [|constructor; cbn; [done|by left|intros _; apply Hno|done]].
    saved. destruct r; constructor; cbn; try done; intros _; apply Hno.
  - constructor; [intros _; apply empty_valid|by left| |done]. intros _ Hb. destruct (readStore_broken e s Hb). congruence.
  - constructor; [done|by left|done|done].
Qed.

Lemma recompute_valid now l : jobs_valid l → jobs_valid (recomputeNextRuns now l).
Proof.
  apply jobs_valid_fmap. intros j _. destruct (jb_Enabled j); [|done]. split; [done|]. by apply job_valid_same.
Qed.
Lemma prepareLocked_kept e s : kept s (prepareLocked e s).1.
Proof.
  unfold prepareLocked. pose proof (loadStore_kept e s) as Hk. destruct (loadStore e s) as [s1 [u|x]] eqn:E; cbn in Hk; [|done].
  eapply kept_trans; [exact Hk|].
  assert (Hle : cs_loadErr s1 = None).
  { revert E. unfold loadStore. repeat (case_match; simplify_eq/=); by intros; simplify_eq/=. }
  saved. assert (Hok : ok s1 → ok (set_jobs (recomputeNextRuns (env_now e) (jobs s1)) s1)).
  { intros Hok1. apply ok_set_jobs; [done|]. by apply recompute_valid, ok_jobs. }
  destruct r; constructor; cbn; try done; intros [? ?]; congruence.
Qed.

Lemma activateLocked_kept s : kept s (activateLocked s).
Proof. by apply kept_silent. Qed.
Lemma Start_kept e s : kept s (Start e s).1.
Proof.
  unfold Start. case_match; [apply kept_refl|]. pose proof (prepareLocked_kept e s) as Hk.
  destruct (prepareLocked e s) as [s1 [u|x]]; [|done]. eapply kept_trans; [exact Hk|apply activateLocked_kept].
Qed.
Lemma Prepare_kept e s : kept s (Prepare e s).1.
Proof. unfold Prepare. case_match; [apply kept_refl|apply prepareLocked_kept]. Qed.
Lemma Activate_kept s : kept s (Activate s).
Proof. unfold Activate. case_match; [apply kept_refl|apply activateLocked_kept]. Qed.
Lemma Stop_kept s : kept s (Stop s).
Proof. unfold Stop. repeat case_match; by apply kept_silent. Qed.


(** ** The mutations *)

(** A mutation is refused and changes nothing, or the file holds the schedule. *)
Inductive outcome s s' : option ServiceError → Prop :=
| out_refused x : s' = s → x ≠ ErrNotConfirmed → outcome s s' (Some x)
| out_saved r : writesBlocked s = false → store_valid (cs_store s') → cs_file s' = Some (encode_store (cs_store s')) →
    cs_dispatching s' = cs_dispatching s → r = None ∨ r = Some ErrNotConfirmed → outcome s s' r.

Lemma outcome_kept s s' r : outcome s s' r → kept s s'.
Proof.
  intros [x -> _|r' Hw Hv Hf Hd _]; [apply kept_refl|]. apply kept_mutation; [done..|]. right. by exists (cs_store s').
Qed.

(** Saving changed jobs, and putting the old ones back when it fails. *)
Lemma outcome_saved e s l (undo : Service → Service) : ok s → writesBlocked s = false →
  undo (set_jobs l s) = s →
  outcome s (match saveStoreUnsafe e (set_jobs l s) with
             | (s', Ok _) => notify s'
             | (s', Err x) => if committed x then notify s' else undo s'
             end)
          (match saveStoreUnsafe e (set_jobs l s) with
           | (_, Ok _) => None
           | (_, Err x) => if committed x then Some ErrNotConfirmed else Some (not_saved x)
           end).
Proof.
  intros Hs Hw Hu. destruct (saveStoreUnsafe e (set_jobs l s)) as [s' r] eqn:E. apply save_answer in E.
  destruct r as [u|[x|[]]]; cbn.
  - destruct E as [-> Hv]. by apply out_saved; auto.
  - subst s'. by apply out_refused.
  - destruct E as [-> Hv]. by apply out_saved; auto.
  - subst s'. by apply out_refused.
Qed.

Lemma AddJob_outcome e name schedule payload s : ok s →
  let r := AddJob e name schedule payload s in outcome s r.1 r.2.2.
Proof.
  intros Hs. unfold AddJob. destruct (writesBlocked s) eqn:Hw; [by apply out_refused|].
  destruct (validateCronDefinition _ _ _); [|by apply out_refused]. destruct (env_id e) as [id|]; [|by apply out_refused].
  cbv zeta. set (job := mkJob _ _ _ _ _ _ _ _).
  pose proof (outcome_saved e s (jobs s ++ [job]) (fun s' => set_jobs (take (length (jobs s') - 1) (jobs s')) s') Hs Hw) as Ho.
  destruct (saveStoreUnsafe e (set_jobs (jobs s ++ [job]) s)) as [s' [u|x]]; [|destruct (committed x)]; apply Ho;
    rewrite jobs_set, set_jobs_twice, length_app, Nat.add_sub, take_app_length; by apply ok_jobs.
Qed.
Lemma RemoveJob_outcome e id s : ok s → let r := RemoveJob e id s in outcome s r.1 r.2.
Proof.
  intros Hs. unfold RemoveJob. destruct (writesBlocked s) eqn:Hw; [by apply out_refused|]. cbv zeta.
  destruct (length (removeJobUnsafe id (jobs s)) <? length (jobs s))%nat eqn:E; cbn [negb].
  - pose proof (outcome_saved e s (removeJobUnsafe id (jobs s)) (set_jobs (jobs s)) Hs Hw) as Ho.
    destruct (saveStoreUnsafe e (set_jobs _ s)) as [s' [u|x]]; [|destruct (committed x)]; apply Ho;
      rewrite set_jobs_twice; by apply ok_jobs.
  - apply out_refused; [|done]. apply Nat.ltb_ge in E. cbn [fst].
    rewrite remove_same by done. by apply ok_jobs.
Qed.

Lemma update_job_found id l j : find_job id l = Some j → update_job id (fun _ => j) l = l.
Proof.
  induction l as [|k l IH]; [done|]. cbn. destruct (String.eqb (jb_ID k) id); [by intros [= ->]|].
  intros Hj. by rewrite IH.
Qed.

Lemma update_job_undone id j previous l : find_job id l = Some previous → jb_ID j = id →
  update_job id (fun _ => previous) (update_job id (fun _ => j) l) = l.
Proof.
  intros Hf Hid. transitivity (update_job id (fun _ => previous) l); [|by apply update_job_found].
  clear Hf. induction l as [|k l IH]; [done|]. cbn in *. destruct (String.eqb_spec (jb_ID k) id) as [He|He]; cbn.
  - by rewrite Hid, String.eqb_refl.
  - apply String.eqb_neq in He. rewrite He. f_equal. by apply IH.
Qed.

Lemma find_updated id j previous l : find_job id l = Some previous → jb_ID j = id →
  find_job id (update_job id (fun _ => j) l) = Some j.
Proof.
  intros Hf Hid. induction l as [|k l IH]; [done|]. cbn in *. destruct (String.eqb (jb_ID k) id) eqn:E; cbn.
  - by rewrite Hid, String.eqb_refl.
  - rewrite E. by apply IH.
Qed.

Lemma EnableJob_outcome e id enabled s : ok s → let r := EnableJob e id enabled s in outcome s r.1 r.2.2.
Proof.
  intros Hs. unfold EnableJob. destruct (writesBlocked s) eqn:Hw; [by apply out_refused|].
  destruct (find_job id (jobs s)) as [previous|] eqn:Hf; [|by apply out_refused]. cbv zeta.
  set (job := enabled_job e enabled previous). destruct (find_job_some _ _ _ Hf) as [_ Hid].
  assert (Hjob : jb_ID job = id) by exact Hid. clearbody job.
  pose proof (outcome_saved e s (update_job id (fun _ => job) (jobs s))
    (fun s' => set_jobs (update_job id (fun _ => previous) (jobs s')) s') Hs Hw) as Ho.
  destruct (saveStoreUnsafe e (set_jobs _ s)) as [s' [u|x]]; [|destruct (committed x)]; apply Ho;
    rewrite jobs_set, set_jobs_twice, update_job_undone by done; by apply ok_jobs.
Qed.

(** [UpdateJob] keeps the change when it cannot be written. *)
Lemma UpdateJob_kept e job s : ok s → kept s (UpdateJob e job s).1.
Proof.
  intros Hs. unfold UpdateJob. destruct (writesBlocked s) eqn:Hw; [apply kept_refl|].
  destruct (find_job (jb_ID job) (jobs s)) as [previous|] eqn:Hf; [|apply kept_refl].
  destruct (validateCronDefinition _ _ _) as [u|] eqn:Hd; [|apply kept_refl]. destruct u. cbv zeta.
  set (s1 := notify _). assert (Hok : ok s → ok s1).
  { intros _. apply (ok_set_jobs s); [done|]. apply update_job_valid; [|by apply ok_jobs].
    intros j Hj Hid. assert (Hsame : same_definition job (updated_job (env_now e) previous job)).
    { unfold updated_job. repeat case_match; done. }
    split; [by destruct Hsame|]. intros [Hb _]. apply (job_valid_same job); [done|]. split; [by rewrite <- Hid|done]. }
  assert (Hfile : cs_file s1 = cs_file s) by done. assert (Hdis : cs_dispatching s1 = cs_dispatching s) by done.
  clearbody s1. saved. rewrite Hfile in Hf0.
  destruct r; (apply kept_mutation; [done|done|done|]); cbn; by rewrite ?Hfile in *.
Qed.

(** ** Dispatching *)

Lemma claim_due_kept e s : ok s → kept s (claim_due e s).1.
Proof.
  intros Hs. unfold claim_due. destruct (negb (cs_running s) || writesBlocked s) eqn:Hw; [apply kept_refl|].
  apply orb_false_iff in Hw as [_ Hw]. cbv zeta. cbn [fst].
  set (s1 := set_jobs _ s). assert (Hok : ok s1).
  { apply ok_set_jobs; [done|]. apply jobs_valid_fmap; [|by apply ok_jobs].
    intros j _. case_bool_decide; [|done]. split; [done|]. by apply job_valid_same. }
  assert (Hfile : cs_file s1 = cs_file s) by done. assert (Hdis : cs_dispatching s1 = cs_dispatching s) by done.
  clearbody s1. saved.
  apply kept_mutation; [done|done|done|]. cbn. by rewrite Hfile in *.
Qed.
Lemma claim_due_jobs e s job : job ∈ (claim_due e s).2 →
  is_due (env_now e) job = true ∧ writesBlocked s = false.
Proof.
  unfold claim_due. case_match eqn:Hw; cbn; [by intros ?%elem_of_nil|]. intros [Hj Hd]%list_elem_of_In%List.filter_In.
  by apply orb_false_iff in Hw as [_ ?].
Qed.

Lemma finish_job_kept e id startTime err s : ok s → kept s (finish_job e id startTime err s).
Proof.
  intros Hs. unfold finish_job. destruct (find_job id (jobs s)) as [job|] eqn:Hf; [|apply kept_refl].
  destruct (find_job_some _ _ _ Hf) as [Hin Hid]. cbv zeta. set (job' := _ <| jb_State ::= _ |>).
  set (s1 := match sc_Kind _ with ScheduleAt => _ | _ => _ end).
  assert (Hs1 : ok s1 ∧ cs_file s1 = cs_file s ∧ cs_loadErr s1 = cs_loadErr s ∧ writesBlocked s1 = writesBlocked s
      ∧ cs_dispatching s1 = cs_dispatching s).
  { assert (Hu : jobs_valid (update_job id (fun _ => set_next (computeNextRun (jb_Schedule job') (env_later e)) job') (jobs s))).
    { apply update_job_valid; [|by apply ok_jobs]. intros j Hj Hjid. split; [done|]. intros _.
      destruct (ok_jobs s Hs) as [[_ Hv] _]. rewrite Forall_forall in Hv. by apply (job_valid_same job); [|apply Hv]. }
    unfold s1. destruct (sc_Kind _); (split; [|done]); try by apply ok_set_jobs.
    change (ok (set_jobs (removeJobUnsafe id (jobs s)) s)). apply ok_set_jobs; [done|]. by apply remove_valid, ok_jobs. }
  destruct Hs1 as (Hok & Hfile & Herr & Hw & Hdis). clearbody s1. rewrite Hw. destruct (writesBlocked s) eqn:E.
  - by apply kept_silent.
  - saved. apply kept_mutation; [done|done|done|]. cbn. by rewrite Hfile in *.
Qed.
End valid.
