(* ===== verification/CronSchedule.v ===== *)
(** Package [pkg/cron], the goroutines of service.go: the scheduler loop, the
    dispatch of due jobs, reloading and the public calls, as they interleave.

    A goroutine is a stack of [Instr], as in [ObserverHub]: the first is where
    it stands.  One step is a section under [mu] ([CronService]) or what lies
    between two sections; the dispatch mutex is explicit ([cs_dispatching]), and
    [exec] is [None] when the instruction waits for it or for a channel.  The
    file may change between two steps ([Edit]). *)
From S2P Require Import Prelude GoStrings GoJson CronTypes CronService.

Inductive Op :=
| OpAdd (name : string) (schedule : CronSchedule) (payload : CronPayload)
| OpUpdate (job : CronJob)
| OpRemove (id : string)
| OpEnable (id : string) (enabled : bool)
| OpGet (id : string)
| OpList (includeDisabled : bool)
| OpSetOnJob (installed : bool)
| OpStart | OpPrepare | OpActivate | OpStop | OpLoad | OpStopAndDrain.

Inductive Answer :=
| AnsJob (job : option CronJob) (e : option ServiceError)
| AnsError (e : option ServiceError)
| AnsJobs (l : list CronJob)
| AnsNone.

(** What happens, for the properties: a claim with the clock it was made at, a
    call of the handler and its result, the answer of a call. *)
Inductive Observed :=
| Claimed (job : CronJob) (now : Z)
| Invoked (job : CronJob)
| Completed (id : string) (err : option string)
| Answered (op : Op) (a : Answer).

Inductive Selected := SelStop | SelWake | SelTimer.
Record Choice := mkChoice {
  ch_env : Env;
  ch_selected : Selected;
  ch_result : option string; (* the error of the handler *)
  ch_calls : list Op; (* what the handler calls *)
  ch_cancelled : bool (* the context of [StopAndDrain] ends *) }.

Inductive Instr :=
| ICall (op : Op)
| ILoadWait | ILoadPublish
| IDrainWait
| ILoop (stop : nat) | ISelect (stop : nat) (delay : Z)
| ICheck | IClaim
| IExecute (ids : list string)
| IEnter (job : CronJob) (startTime : Z)
| IHandler (job : CronJob) (startTime : Z)
| IHandled (id : string) (startTime : Z)
| IFinish (id : string) (startTime : Z) (err : option string)
| ILeave
| IUnlockDispatch.
Notation thread := (list Instr).

Record System := mkSystem { sys_service : Service; sys_threads : list thread; sys_trace : list Observed }.

(** The timer of [runLoop], in nanoseconds: an hour when nothing is scheduled. *)
Definition timer_delay (next : option Z) (now : Z) : Z :=
  match next with
  | None => 3600000000000
  | Some next => let diff := wrap64 (next - now) in if diff <=? 0 then 0 else wrap64 (diff * 1000000)
  end.

Section exec.
Context `{CronLibrary, CronDecoder}.

(** The effect of one instruction: the state, what is pushed on the stack, the
    goroutines it starts and what can be seen. *)
Record Effect := mkEffect { ef_service : Service; ef_push : thread; ef_spawn : list thread; ef_seen : list Observed }.
Definition silent (s : Service) (k : thread) : option Effect := Some (mkEffect s k [] []).
Definition answer (op : Op) (s : Service) (a : Answer) : option Effect := Some (mkEffect s [] [] [Answered op a]).
(** The loop that [activateLocked] starts. *)
Definition started (before after : Service) : list thread :=
  if (length (cs_closed before) <? length (cs_closed after))%nat then [[ILoop (length (cs_closed before))]] else [].
Definition error_of {A} (r : result ServiceError A) : option ServiceError := match r with Ok _ => None | Err e => Some e end.

Definition exec_call (e : Env) (op : Op) (s : Service) : option Effect :=
  match op with
  | OpAdd name schedule payload => let '(s, (job, err)) := AddJob e name schedule payload s in answer op s (AnsJob job err)
  | OpUpdate job => let '(s, err) := UpdateJob e job s in answer op s (AnsError err)
  | OpRemove id => let '(s, err) := RemoveJob e id s in answer op s (AnsError err)
  | OpEnable id enabled => let '(s, (job, err)) := EnableJob e id enabled s in answer op s (AnsJob job err)
  | OpGet id => answer op s (AnsJob (GetJob id s) None)
  | OpList all => answer op s (AnsJobs (ListJobs all s))
  | OpSetOnJob installed => answer op (s <| cs_onJob := installed |>) AnsNone
  | OpStart => let '(s', r) := Start e s in Some (mkEffect s' [] (started s s') [Answered op (AnsError (error_of r))])
  | OpPrepare => let '(s, r) := Prepare e s in answer op s (AnsError (error_of r))
  | OpActivate => let s' := Activate s in Some (mkEffect s' [] (started s s') [Answered op AnsNone])
  | OpStop => answer op (Stop s) AnsNone
  | OpLoad =>
      match Load_probe e s with
      | (s, Some x) => answer op s (AnsError (Some (ErrLoad x)))
      | (s, None) => silent s [ILoadWait]
      end
  | OpStopAndDrain => silent (Stop s) [IDrainWait]
  end.

(** [executeJobByID] up to the handler. *)
Definition start_job (e : Env) (ids : list string) (s : Service) : thread :=
  match ids with
  | [] => [IUnlockDispatch]
  | id :: ids =>
      match find_job id (jobs s) with
      | None => [IExecute ids]
      | Some job =>
          if cs_onJob s then [IEnter job (env_now e); IExecute ids] else [IFinish id (env_now e) None; IExecute ids]
      end
  end.

Definition exec (c : Choice) (i : Instr) (s : Service) : option Effect :=
  let e := ch_env c in
  match i with
  | ICall op => exec_call e op s
  | ILoadWait => if cs_dispatching s then None else silent (s <| cs_dispatching := true |>) [ILoadPublish; IUnlockDispatch]
  | ILoadPublish =>
      let '(s, r) := Load_publish e s in Some (mkEffect s [] [] [Answered OpLoad (AnsError (error_of r))])
  | IDrainWait =>
      (* the inner goroutine holds the mutex while it reads the count *)
      if ch_cancelled c then answer OpStopAndDrain s (AnsError (Some ErrDeadline))
      else if cs_dispatching s then None
      else answer OpStopAndDrain s (AnsError (if cs_activeJobs s =? 0 then None else Some (ErrDrain (cs_activeJobs s))))
  | ILoop stop => silent s [ISelect stop (timer_delay (getNextWakeMS s) (env_now e))]
  | ISelect stop delay =>
      match ch_selected c with
      | SelStop => if default false (cs_closed s !! stop) then silent s [] else None
      | SelWake => if cs_wake s then silent (s <| cs_wake := false |>) [ILoop stop] else None
      | SelTimer => silent s [ICheck; ILoop stop]
      end
  | ICheck => if cs_dispatching s then None else silent (s <| cs_dispatching := true |>) [IClaim]
  | IClaim =>
      let '(s, due) := claim_due e s in
      Some (mkEffect s [IExecute (jb_ID <$> due)] [] ((fun job => Claimed job (env_now e)) <$> due))
  | IExecute ids => silent s (start_job e ids s)
  | IEnter job startTime => silent (incrementActiveJobs s) [IHandler job startTime]
  | IHandler job startTime =>
      Some (mkEffect s ((ICall <$> ch_calls c) ++ [IHandled (jb_ID job) startTime]) [] [Invoked job])
  | IHandled id startTime =>
      Some (mkEffect s [IFinish id startTime (ch_result c); ILeave] [] [Completed id (ch_result c)])
  | IFinish id startTime err => silent (finish_job e id startTime err s) []
  | ILeave => silent (decrementActiveJobs s) []
  | IUnlockDispatch => silent (s <| cs_dispatching := false |>) []
  end.

(** ** Schedules *)

Inductive Sched := Spawn (op : Op) | Run (t : nat) (c : Choice) | Edit (file : option string).

Definition sched_step (y : System) (a : Sched) : option System :=
  match a with
  | Spawn op => Some (mkSystem (sys_service y) (sys_threads y ++ [[ICall op]]) (sys_trace y))
  | Edit file => Some (mkSystem (sys_service y <| cs_file := file |>) (sys_threads y) (sys_trace y))
  | Run t c =>
      match sys_threads y !! t with
      | Some (i :: rest) =>
          match exec c i (sys_service y) with
          | Some f => Some (mkSystem (ef_service f) (<[t := ef_push f ++ rest]> (sys_threads y) ++ ef_spawn f)
                              (sys_trace y ++ ef_seen f))
          | None => None
          end
      | _ => None
      end
  end.
Fixpoint sched_run (y : System) (l : list Sched) : option System :=
  match l with
  | [] => Some y
  | a :: l => match sched_step y a with Some y => sched_run y l | None => None end
  end.

Definition new_system (e : Env) (file : option string) (onJob : bool) : System :=
  mkSystem (NewCronService e file onJob) [] [].
Definition reachable (y : System) : Prop := ∃ e file onJob l, sched_run (new_system e file onJob) l = Some y.
End exec.
