(* ===== verification/CronRuns.v ===== *)
(** The goroutines of the scheduler: what holds in every state they reach; and
    that a recurring job is never lost: enabled, it has a next run or a claimed
    run that will give it one. *)
From S2P Require Import Prelude Goroutines GoStrings GoJson CronTypes CronService CronValid CronSchedule.

Section runs.
Context `{CronLibrary, CronDecoder}.
Implicit Types (s : Service) (y : System) (i : Instr) (c : Choice).

(** ** Accounts of the goroutines *)

Definition named (id : string) (x : string) : Z := one_if (bool_decide (x = id)).
(** Runs of a job that were claimed and have not begun. *)
Definition owed (id : string) i : Z :=
  match i with
  | IExecute ids => zsum (named id) ids
  | IEnter job _ | IHandler job _ => named id (jb_ID job)
  | _ => 0
  end.
(** The dispatch mutex is held until the stack below releases it. *)
Definition holds i : Z := match i with IUnlockDispatch | IClaim | IExecute _ => 1 | _ => 0 end.
(** A handler is about to be called, or runs. *)
Definition active i : bool := match i with IEnter _ _ | IHandler _ _ | IHandled _ _ => true | _ => false end.

Fixpoint stack_ok (k : list Instr) : Prop :=
  match k with
  | [] => True
  | i :: rest => (active i = true → match rest with IExecute _ :: _ => True | _ => False end) ∧ stack_ok rest
  end.

Definition claims (id : string) (t : list Observed) : Z :=
  zsum (fun o => match o with Claimed job _ => named id (jb_ID job) | _ => 0 end) t.
Definition runs (id : string) (t : list Observed) : Z :=
  zsum (fun o => match o with Invoked job => named id (jb_ID job) | _ => 0 end) t.

Record sched_inv y : Prop := {
  si_ok : ok (sys_service y);
  si_dispatch : one_if (cs_dispatching (sys_service y)) = tsum holds (sys_threads y);
  si_stacks : Forall stack_ok (sys_threads y);
  si_owed : ∀ id, runs id (sys_trace y) + tsum (owed id) (sys_threads y) ≤ claims id (sys_trace y);
  si_due : ∀ job now, Claimed job now ∈ sys_trace y → is_due now job = true }.

(** One instruction, as seen by the accounts. *)
Record well_done s i (f : Effect) : Prop := {
  wd_kept : kept s (ef_service f) ∨ ef_service f = s <| cs_dispatching := negb (cs_dispatching s) |> ;
  wd_ok : ok (ef_service f);
  wd_dispatch : one_if (cs_dispatching (ef_service f)) = one_if (cs_dispatching s) - holds i + zsum holds (ef_push f);
  wd_spawn : ∀ k, k ∈ ef_spawn f → ∃ n, k = [ILoop n];
  wd_owed : ∀ id, runs id (ef_seen f) + zsum (owed id) (ef_push f) ≤ claims id (ef_seen f) + owed id i;
  wd_due : ∀ job now, Claimed job now ∈ ef_seen f → is_due now job = true ∧ writesBlocked s = false }.

Lemma named_nonneg id x : 0 ≤ named id x.
Proof. apply one_if_nonneg. Qed.
Lemma owed_nonneg id i : 0 ≤ owed id i.
Proof. destruct i; cbn; try lia; try apply named_nonneg. apply zsum_nonneg. intros. apply named_nonneg. Qed.
Lemma holds_nonneg i : 0 ≤ holds i ≤ 1.
Proof. destruct i; cbn; lia. Qed.

(** An effect that the accounts do not notice. *)
Lemma well_done_quiet s i f : kept s (ef_service f) → ok s → holds i = zsum holds (ef_push f) →
  (∀ k, k ∈ ef_spawn f → ∃ n, k = [ILoop n]) →
  (∀ id, runs id (ef_seen f) + zsum (owed id) (ef_push f) ≤ claims id (ef_seen f) + owed id i) →
  (∀ job now, Claimed job now ∈ ef_seen f → is_due now job = true ∧ writesBlocked s = false) → well_done s i f.
Proof.
  intros Hk Hs Hh Hsp Ho Hd. constructor; try done; [by left|by apply Hk|]. rewrite (kept_dispatch _ _ Hk). lia.
Qed.
Lemma started_loops s s' k : k ∈ started s s' → ∃ n, k = [ILoop n].
Proof. unfold started. case_match; [|by intros ?%elem_of_nil]. intros ->%list_elem_of_singleton. by eexists. Qed.

Lemma runs_nil id : runs id [] = 0. Proof. done. Qed.
Lemma claims_nil id : claims id [] = 0. Proof. done. Qed.

Ltac quiet := apply well_done_quiet; cbn;
  [|done|try done|try (by intros ? ?%elem_of_nil); try (by intros ? ?%started_loops)
   |let id := fresh "id'" in intros id; rewrite ?runs_nil, ?claims_nil; try (unfold runs, claims; cbn; autorewrite with zsum; cbn; lia)
   |try (by intros ? ? ?%elem_of_nil); try (by intros ? ? ?%list_elem_of_singleton)].

Lemma answer_done op s s' a : kept s s' → ok s → ∀ op' f, answer op s' a = Some f → well_done s (ICall op') f.
Proof. intros Hk Hs op' f [= <-]. by quiet. Qed.

Lemma exec_call_done e op s f : ok s → exec_call e op s = Some f → well_done s (ICall op) f.
Proof.
  intros Hs. destruct op; cbn [exec_call].
  - pose proof (outcome_kept _ _ _ (AddJob_outcome e name schedule payload s Hs)) as Hk.
    destruct (AddJob _ _ _ _ _) as [s' [job err]]. by eapply answer_done.
  - pose proof (UpdateJob_kept e job s Hs) as Hk. destruct (UpdateJob _ _ _) as [s' err]. by eapply answer_done.
  - pose proof (outcome_kept _ _ _ (RemoveJob_outcome e id s Hs)) as Hk. destruct (RemoveJob _ _ _) as [s' err]. by eapply answer_done.
  - pose proof (outcome_kept _ _ _ (EnableJob_outcome e id enabled s Hs)) as Hk.
    destruct (EnableJob _ _ _ _) as [s' [job err]]. by eapply answer_done.
  - by eapply answer_done; [apply kept_refl|].
  - by eapply answer_done; [apply kept_refl|].
  - eapply answer_done; [by apply kept_silent|done].
  - pose proof (Start_kept e s) as Hk. destruct (Start e s) as [s' r]. intros [= <-]. by quiet.
  - pose proof (Prepare_kept e s) as Hk. destruct (Prepare e s) as [s' r]. by eapply answer_done.
  - intros [= <-]. quiet. apply Activate_kept.
  - eapply answer_done; [apply Stop_kept|done].
  - pose proof (Load_probe_kept e s) as Hk. destruct (Load_probe e s) as [s' [x|]]; [by eapply answer_done|].
    intros [= <-]. by quiet.
  - intros [= <-]. quiet. apply Stop_kept.
Qed.

Lemma claims_due e due id : claims id ((fun job => Claimed job (env_now e)) <$> due) = zsum (named id) (jb_ID <$> due).
Proof. unfold claims. induction due as [|j l IH]; [done|]. rewrite !fmap_cons, !zsum_cons, IH. done. Qed.
Lemma runs_due e due id : runs id ((fun job => Claimed job (env_now e)) <$> due) = 0.
Proof. unfold runs. induction due as [|j l IH]; [done|]. rewrite !fmap_cons, !zsum_cons, IH. done. Qed.

Lemma exec_done c i s f : ok s → holds i ≤ one_if (cs_dispatching s) → exec c i s = Some f → well_done s i f.
Proof.
  intros Hs Hh. destruct i; cbn [exec].
  - apply exec_call_done, Hs.
  - destruct (cs_dispatching s) eqn:E; [done|]. intros [= <-]. constructor; cbn; try done.
    + right. by rewrite E.
    + by rewrite E.
    + by intros ? ?%elem_of_nil.
    + by intros ? ? ?%elem_of_nil.
  - pose proof (Load_publish_kept (ch_env c) s) as Hk. destruct (Load_publish _ s) as [s' r]. intros [= <-]. by quiet.
  - destruct (ch_cancelled c); [|destruct (cs_dispatching s); [done|]]; intros [= <-]; quiet; apply kept_refl.
  - intros [= <-]. quiet. apply kept_refl.
  - destruct (ch_selected c); [destruct (default false _); [|done]|destruct (cs_wake s); [|done]|];
      intros [= <-]; quiet; first [apply kept_refl|by apply kept_silent].
  - destruct (cs_dispatching s) eqn:E; [done|]. intros [= <-]. constructor; cbn; try done.
    + right. by rewrite E.
    + by rewrite E.
    + by intros ? ?%elem_of_nil.
    + by intros ? ? ?%elem_of_nil.
  - pose proof (claim_due_kept (ch_env c) s Hs) as Hk. pose proof (claim_due_jobs (ch_env c) s) as Hd.
    destruct (claim_due (ch_env c) s) as [s' due]. intros [= <-]. quiet; [done|..].
    + rewrite claims_due, runs_due, zsum_cons, zsum_nil. cbn. lia.
    + intros job now (job' & [= -> ->] & Hj)%list_elem_of_fmap. by apply Hd.
  - intros [= <-]. destruct ids as [|id ids]; cbn [start_job]; [quiet; apply kept_refl|].
    destruct (find_job id (jobs s)) as [job|] eqn:Hf.
    2: { quiet; [apply kept_refl|]. cbn. rewrite !zsum_cons, zsum_nil. pose proof (named_nonneg id' id). cbn. lia. }
    apply find_job_some in Hf as [_ Hid]. destruct (cs_onJob s).
    + quiet; [apply kept_refl|]. cbn. autorewrite with zsum. cbn. rewrite Hid. lia.
    + quiet; [apply kept_refl|]. cbn. autorewrite with zsum. cbn. pose proof (named_nonneg id' id). lia.
  - intros [= <-]. quiet. by apply kept_silent.
  - intros [= <-]. assert (Hz : ∀ w : Instr → Z, (∀ op, w (ICall op) = 0) → zsum w (ICall <$> ch_calls c) = 0).
    { intros w Hw. apply zsum_zero. by intros ? (? & -> & _)%list_elem_of_fmap. }
    quiet; [apply kept_refl| |].
    + rewrite zsum_app, Hz by done. done.
    + rewrite zsum_app, Hz by done. unfold runs, claims. autorewrite with zsum. cbn. lia.
  - intros [= <-]. quiet. apply kept_refl.
  - intros [= <-]. quiet. by apply finish_job_kept.
  - intros [= <-]. quiet. by apply kept_silent.
  - intros [= <-]. cbn in Hh. destruct (cs_dispatching s) eqn:E; [|done]. constructor; cbn; try done.
    + right. by rewrite E.
    + by rewrite E.
    + by intros ? ?%elem_of_nil.
    + by intros ? ? ?%elem_of_nil.
Qed.

(** ** The invariant *)

Lemma active_push c i s f rest : exec c i s = Some f → stack_ok (i :: rest) → stack_ok (ef_push f ++ rest).
Proof.
  intros Hx [Hi Hrest]. destruct i; cbn [exec exec_call] in Hx.
  - assert (Hp : Forall (fun j => active j = false) (ef_push f)).
    { revert Hx. destruct op; cbn; repeat case_match; intros [= <-]; repeat constructor. }
    clear Hx. induction Hp as [|j k Hj _ IH]; [done|]. cbn. by rewrite Hj.
  - destruct (cs_dispatching s); [done|]. by injection Hx as <-.
  - destruct (Load_publish (ch_env c) s). by injection Hx as <-.
  - destruct (ch_cancelled c); [|destruct (cs_dispatching s); [done|]]; by injection Hx as <-.
  - by injection Hx as <-.
  - destruct (ch_selected c); [destruct (default false _); [|done]|destruct (cs_wake s); [|done]|]; by injection Hx as <-.
  - destruct (cs_dispatching s); [done|]. by injection Hx as <-.
  - destruct (claim_due (ch_env c) s). by injection Hx as <-.
  - injection Hx as <-. cbn [ef_push]. destruct ids as [|id ids]; cbn [start_job]; [done|].
    destruct (find_job id (jobs s)); [destruct (cs_onJob s)|]; cbn; auto.
  - injection Hx as <-. cbn. split; [|done]. intros _. by apply Hi.
  - injection Hx as <-. cbn [ef_push]. rewrite <- app_assoc. induction (ch_calls c) as [|op l IH]; [|done].
    cbn. split; [|done]. intros _. by apply Hi.
  - by injection Hx as <-.
  - by injection Hx as <-.
  - by injection Hx as <-.
  - by injection Hx as <-.
Qed.

Lemma claims_app id t u : claims id (t ++ u) = claims id t + claims id u.
Proof. apply zsum_app. Qed.
Lemma runs_app id t u : runs id (t ++ u) = runs id t + runs id u.
Proof. apply zsum_app. Qed.

Lemma tsum_loops (w : Instr → Z) (ks : list (list Instr)) : (∀ n, w (ILoop n) = 0) → (∀ k, k ∈ ks → ∃ n, k = [ILoop n]) → tsum w ks = 0.
Proof.
  intros Hw Hk. apply zsum_zero. intros k [n ->]%Hk. by rewrite zsum_cons, zsum_nil, Hw.
Qed.

Lemma step_keeps_inv y a y' : sched_inv y → sched_step y a = Some y' → sched_inv y'.
Proof.
  intros [Hok Hd Hst Ho Hdue]. destruct y as [s ts tr]. destruct a as [op|t c|file]; cbn in *.
  - intros [= <-]. constructor; cbn; try done.
    + rewrite tsum_spawn, Hd, zsum_cons, zsum_nil. cbn. lia.
    + apply Forall_app. by repeat constructor.
    + intros id. rewrite tsum_spawn. specialize (Ho id). cbn. rewrite zsum_cons, zsum_nil. cbn. lia.
  - destruct (ts !! t) as [[|i rest]|] eqn:Ht; try done. destruct (exec c i s) as [f|] eqn:Hx; [|done]. intros [= <-].
    pose proof (stands_top ts t i rest Ht) as Htop.
    assert (Hh : holds i ≤ one_if (cs_dispatching s)).
    { rewrite Hd. apply tsum_stands; [|done]. apply holds_nonneg. }
    destruct (exec_done c i s f Hok Hh Hx) as [_ Wok Wd Ws Wo Wdue]. constructor; cbn.
    + done.
    + unfold tsum at 1. rewrite zsum_app. fold (tsum holds (<[t:=ef_push f ++ rest]> ts)). fold (tsum holds (ef_spawn f)).
      rewrite (tsum_step _ _ _ _ _ _ Ht), (tsum_loops holds (ef_spawn f) (fun n => eq_refl) Ws). lia.
    + apply Forall_app. split.
      * apply Forall_insert; [done|]. eapply active_push; [done|]. by eapply (Forall_lookup_1 _ ts t).
      * apply Forall_forall. by intros k [n ->]%Ws.
    + intros id. rewrite runs_app, claims_app. unfold tsum at 1. rewrite zsum_app.
      fold (tsum (owed id) (<[t:=ef_push f ++ rest]> ts)). fold (tsum (owed id) (ef_spawn f)).
      rewrite (tsum_step _ _ _ _ _ _ Ht), (tsum_loops (owed id) (ef_spawn f) (fun n => eq_refl) Ws). specialize (Ho id). specialize (Wo id). lia.
    + intros job now [Hin|Hin]%elem_of_app; [by apply Hdue|by apply (Wdue job now)].
  - intros [= <-]. constructor; cbn; done.
Qed.

Lemma NewCronService_ok e file onJob : ok (NewCronService e file onJob).
Proof. apply loadStore_ok. exists []. split; [done|]. split; constructor. Qed.
Lemma init_sched_inv e file onJob : sched_inv (new_system e file onJob).
Proof.
  constructor; cbn; try done.
  - apply NewCronService_ok.
  - assert (cs_dispatching (NewCronService e file onJob) = false) as ->; [|done].
    apply (kept_dispatch _ _ (loadStore_kept e (mkService newEmptyStore None false onJob false None [] false 0 false file))).
  - by intros ? ? ?%elem_of_nil.
Qed.
Lemma run_keeps_inv y l y' : sched_inv y → sched_run y l = Some y' → sched_inv y'.
Proof.
  revert y. induction l as [|a l IH]; intros y Hy; cbn; [by intros [= <-]|].
  destruct (sched_step y a) as [y1|] eqn:E; [|done]. apply IH. by eapply step_keeps_inv.
Qed.
Lemma reachable_sched_inv y : reachable y → sched_inv y.
Proof. intros (e & file & onJob & l & Hl). eapply run_keeps_inv; [|done]. apply init_sched_inv. Qed.

(** The handlers of one stack have the dispatch loop right below them. *)
Definition executing (k : list Instr) : Z := match k with IExecute _ :: _ => 1 | _ => 0 end.
Lemma stack_active k : stack_ok k → zsum (fun i => one_if (active i)) k + executing k ≤ zsum holds k.
Proof.
  induction k as [|i k IH]; [done|]. intros [Hi Hk]. rewrite !zsum_cons. specialize (IH Hk).
  assert (Hek : 0 ≤ executing k) by (unfold executing; by repeat case_match).
  destruct i; cbn in *; try lia; (destruct k as [|[] k]; try by destruct (Hi eq_refl)); cbn in *; lia.
Qed.
Lemma one_handler y : sched_inv y → tsum (fun i => one_if (active i)) (sys_threads y) ≤ 1.
Proof.
  intros [_ Hd Hst _ _]. transitivity (tsum holds (sys_threads y)); [|rewrite <- Hd; by destruct (cs_dispatching _)].
  clear Hd. induction Hst as [|k ts Hk _ IH]; [done|]. unfold tsum in *. rewrite !zsum_cons.
  pose proof (stack_active k Hk). assert (0 ≤ executing k) by (unfold executing; by repeat case_match). lia.
Qed.
End runs.

(** * Recurring jobs

    A recurring job is never lost: enabled, it has a next run or a claimed run
    that will give it one. *)

Section armed.
Context `{CronLibrary, CronDecoder}.
Implicit Types (s : Service) (y : System) (i : Instr) (c : Choice) (j : CronJob) (l : list CronJob).

(** Runs of a job that were claimed and are not over. *)
Definition pending (id : string) i : Z :=
  match i with
  | IExecute ids => zsum (named id) ids
  | IEnter job _ | IHandler job _ => named id (jb_ID job)
  | IHandled id' _ | IFinish id' _ _ => named id id'
  | _ => 0
  end.
(** A schedule that always has a next run. *)
Definition recurring (sc : CronSchedule) : Prop := ∀ now, is_Some (computeNextRun sc now).
Definition armed_job (pend : string → Z) j : Prop :=
  jb_Enabled j = true → recurring (jb_Schedule j) → is_Some (jb_next j) ∨ 0 < pend (jb_ID j).
Definition armed y : Prop :=
  cs_loadErr (sys_service y) = None →
  ∀ j, j ∈ jobs (sys_service y) → armed_job (fun id => tsum (pending id) (sys_threads y)) j.

(** Nothing replaces a job by one that the caller or the file brings. *)
Definition calm_op (op : Op) : bool := match op with OpUpdate _ | OpLoad => false | _ => true end.
Definition calm i : bool := match i with ICall op => calm_op op | ILoadWait | ILoadPublish => false | _ => true end.
Definition calm_sched (a : Sched) : bool :=
  match a with Spawn op => calm_op op | Run _ c => forallb calm_op (ch_calls c) | Edit _ => true end.

Lemma pending_nonneg id i : 0 ≤ pending id i.
Proof. destruct i; cbn; try lia; try apply named_nonneg. apply zsum_nonneg. intros. apply named_nonneg. Qed.

Lemma every_recurring j : job_valid j → sc_Kind (jb_Schedule j) = ScheduleEvery → recurring (jb_Schedule j).
Proof.
  intros [_ Hv] Hk now. unfold validateCronDefinition in Hv. rewrite reject_ok, bind_unit_ok in Hv. destruct Hv as (_ & Hv & _).
  unfold validateCronSchedule in Hv. unfold computeNextRun. rewrite Hk in *. rewrite reject_ok in Hv. destruct Hv as [Hv _].
  rewrite !orb_false_iff in Hv. destruct (sc_EveryMS _) as [n|]; [|by destruct Hv as [[[? _] _] _]].
  destruct Hv as [[[Hn _] _] _]. rewrite Hn. by eexists.
Qed.

(** The jobs of the new state are old ones, or freshly scheduled ones. *)
Definition fresh j : Prop := jb_Enabled j = true → recurring (jb_Schedule j) → is_Some (jb_next j).
Definition armed_step s s' : Prop := cs_loadErr s' = None →
  (∀ j, j ∈ jobs s' → fresh j) ∨ cs_loadErr s = None ∧ ∀ j, j ∈ jobs s' → j ∈ jobs s ∨ fresh j.

Lemma armed_same s s' : cs_loadErr s' = cs_loadErr s → jobs s' = jobs s → armed_step s s'.
Proof. intros He Hj Hn. right. rewrite <- He, Hj. auto. Qed.
Lemma fresh_next now j : fresh (set_next (computeNextRun (jb_Schedule j) now) j).
Proof. intros _ Hr. apply Hr. Qed.
Lemma jobs_save e s : jobs (saveStoreUnsafe e s).1 = jobs s.
Proof. unfold jobs. by rewrite save_store. Qed.

Lemma recompute_fresh now l j : j ∈ recomputeNextRuns now l → fresh j.
Proof.
  intros (k & -> & _)%list_elem_of_fmap. destruct (jb_Enabled k) eqn:Hk; [apply fresh_next|]. unfold fresh. by rewrite Hk.
Qed.
Lemma prepareLocked_armed e s : armed_step s (prepareLocked e s).1.
Proof.
  unfold prepareLocked. destruct (loadStore e s) as [s1 [u|x]] eqn:E.
  - intros _. left. intros j Hj. assert (Hj' : j ∈ recomputeNextRuns (env_now e) (jobs s1)).
    { pose proof (jobs_save e (set_jobs (recomputeNextRuns (env_now e) (jobs s1)) s1)) as Hs.
      rewrite jobs_set in Hs. rewrite <- Hs. destruct (saveStoreUnsafe _ _) as [s2 [|]]; exact Hj. }
    by eapply recompute_fresh.
  - intros Hn. exfalso. revert E Hn. unfold loadStore. destruct (readStore e s) as [[[st []]|]|]; try done.
    + destruct (saveStoreUnsafe _ _) as [s2 [|]]; [done|]. by intros [= <- _].
    + by intros [= <- _].
Qed.
Lemma activateLocked_armed s : armed_step s (activateLocked s). Proof. by apply armed_same. Qed.
Lemma Prepare_armed e s : armed_step s (Prepare e s).1.
Proof. unfold Prepare. case_match; [by apply armed_same|apply prepareLocked_armed]. Qed.
Lemma Prepare_fresh e s : cs_running s = false → (Prepare e s).2 = Ok tt → ∀ j, j ∈ jobs (Prepare e s).1 → fresh j.
Proof.
  unfold Prepare, prepareLocked. intros ->. destruct (loadStore e s) as [s1 [u|x]]; [|done].
  intros _ j Hj. assert (Hj' : j ∈ recomputeNextRuns (env_now e) (jobs s1)).
  { pose proof (jobs_save e (set_jobs (recomputeNextRuns (env_now e) (jobs s1)) s1)) as Hs.
    rewrite jobs_set in Hs. rewrite <- Hs. destruct (saveStoreUnsafe _ _) as [s2 [|]]; exact Hj. }
  by eapply recompute_fresh.
Qed.
Lemma Start_armed e s : armed_step s (Start e s).1.
Proof.
  unfold Start. case_match; [by apply armed_same|]. pose proof (prepareLocked_armed e s) as Hp.
  by destruct (prepareLocked e s) as [s1 [|]].
Qed.
Lemma Stop_armed s : armed_step s (Stop s).
Proof. unfold Stop. repeat case_match; by apply armed_same. Qed.

(** A mutation that changes the jobs to [l], and puts them back when it cannot
    save them. *)
Lemma armed_saved e s l (undo : Service → Service) : (∀ j, j ∈ l → j ∈ jobs s ∨ fresh j) → undo (set_jobs l s) = s →
  armed_step s (match saveStoreUnsafe e (set_jobs l s) with
                | (s', Ok _) => notify s'
                | (s', Err x) => if committed x then notify s' else undo s'
                end).
Proof.
  intros Hl Hu. destruct (saveStoreUnsafe e (set_jobs l s)) as [s' r] eqn:E. apply save_answer in E.
  destruct r as [u|[x|[]]]; cbn.
  - destruct E as [-> _]. by right.
  - subst s'. rewrite Hu. by apply armed_same.
  - destruct E as [-> _]. by right.
  - subst s'. rewrite Hu. by apply armed_same.
Qed.
Lemma AddJob_armed e name schedule payload s : ok s → armed_step s (AddJob e name schedule payload s).1.
Proof.
  intros Hs. unfold AddJob. destruct (writesBlocked s); [by apply armed_same|].
  destruct (validateCronDefinition _ _ _); [|by apply armed_same]. destruct (env_id e) as [id|]; [|by apply armed_same].
  cbv zeta. set (job := mkJob _ _ _ _ _ _ _ _).
  pose proof (armed_saved e s (jobs s ++ [job]) (fun s' => set_jobs (take (length (jobs s') - 1) (jobs s')) s')) as Ha.
  destruct (saveStoreUnsafe e (set_jobs _ s)) as [s' [u|x]]; [|destruct (committed x)]; (apply Ha;
    [intros j [?| ->%list_elem_of_singleton]%elem_of_app; [by left|right; intros _ Hr; apply Hr]
    |rewrite jobs_set, set_jobs_twice, length_app, Nat.add_sub, take_app_length; by apply ok_jobs]).
Qed.
Lemma RemoveJob_armed e id s : ok s → armed_step s (RemoveJob e id s).1.
Proof.
  intros Hs. unfold RemoveJob. destruct (writesBlocked s); [by apply armed_same|]. cbv zeta.
  assert (Hl : ∀ j, j ∈ removeJobUnsafe id (jobs s) → j ∈ jobs s ∨ fresh j).
  { intros j Hj. left. by eapply elem_of_sublist, remove_sublist. }
  destruct (negb _); [by right; auto|]. pose proof (armed_saved e s (removeJobUnsafe id (jobs s)) (set_jobs (jobs s)) Hl) as Ha.
  destruct (saveStoreUnsafe e (set_jobs _ s)) as [s' [u|x]]; [|destruct (committed x)]; apply Ha;
    rewrite set_jobs_twice; by apply ok_jobs.
Qed.
Lemma update_job_in id f l j : j ∈ update_job id f l → j ∈ l ∨ ∃ k, k ∈ l ∧ jb_ID k = id ∧ j = f k.
Proof.
  induction l as [|k l IH]; [auto|]. cbn. destruct (String.eqb_spec (jb_ID k) id) as [He|He]; intros [->|Hj]%elem_of_cons.
  - right. exists k. split_and!; [by left|done..].
  - left. by right.
  - left. by left.
  - destruct (IH Hj) as [?|(k' & ? & ? & ?)]; [left; by right|right; exists k'; by split_and!; [right|..]].
Qed.
Lemma EnableJob_armed e id enabled s : ok s → armed_step s (EnableJob e id enabled s).1.
Proof.
  intros Hs. unfold EnableJob. destruct (writesBlocked s); [by apply armed_same|].
  destruct (find_job id (jobs s)) as [previous|] eqn:Hf; [|by apply armed_same]. cbv zeta.
  set (job := enabled_job e enabled previous). destruct (find_job_some _ _ _ Hf) as [_ Hid].
  assert (Hl : ∀ j, j ∈ update_job id (fun _ => job) (jobs s) → j ∈ jobs s ∨ fresh j).
  { intros j [Hj|(k & _ & _ & ->)]%update_job_in; [by left|right]. unfold fresh, job, enabled_job. cbn. intros -> Hr. apply Hr. }
  assert (Hjob : jb_ID job = id) by exact Hid. clearbody job.
  pose proof (armed_saved e s _ (fun s' => set_jobs (update_job id (fun _ => previous) (jobs s')) s') Hl) as Ha.
  destruct (saveStoreUnsafe e (set_jobs _ s)) as [s' [u|x]]; [|destruct (committed x)]; apply Ha;
    rewrite jobs_set, set_jobs_twice, update_job_undone by done; by apply ok_jobs.
Qed.

Lemma exec_call_armed e op s f : ok s → calm_op op = true → exec_call e op s = Some f →
  armed_step s (ef_service f) ∧ Forall (fun i => calm i = true) (ef_push f).
Proof.
  intros Hs Hc. destruct op; cbn [exec_call] in *; try done.
  - pose proof (AddJob_armed e name schedule payload s Hs) as Ha. destruct (AddJob _ _ _ _ _) as [s' [job err]].
    by intros [= <-].
  - pose proof (RemoveJob_armed e id s Hs) as Ha. destruct (RemoveJob _ _ _) as [s' err]. by intros [= <-].
  - pose proof (EnableJob_armed e id enabled s Hs) as Ha. destruct (EnableJob _ _ _ _) as [s' [job err]]. by intros [= <-].
  - intros [= <-]. split; [by apply armed_same|done].
  - intros [= <-]. split; [by apply armed_same|done].
  - intros [= <-]. split; [by apply armed_same|done].
  - pose proof (Start_armed e s) as Ha. destruct (Start e s) as [s' r]. by intros [= <-].
  - pose proof (Prepare_armed e s) as Ha. destruct (Prepare e s) as [s' r]. by intros [= <-].
  - intros [= <-]. split; [|done]. unfold Activate. cbn. case_match; [by apply armed_same|apply activateLocked_armed].
  - intros [= <-]. split; [apply Stop_armed|done].
  - intros [= <-]. split; [apply Stop_armed|by repeat constructor].
Qed.

(** ** One instruction *)

(** The jobs are armed when [r] runs are pending elsewhere. *)
Definition armed_with (r : string → Z) s : Prop := cs_loadErr s = None → ∀ j, j ∈ jobs s → armed_job r j.

Lemma armed_with_step r r' s s' : armed_step s s' → (∀ id, r id ≤ r' id) → armed_with r s → armed_with r' s'.
Proof.
  intros Hst Hr Ha Hn j Hj He Hrec. destruct (Hst Hn) as [Hf|[Hn0 Hf]]; [left; by apply Hf|].
  destruct (Hf j Hj) as [Hj0|Hj0]; [|left; by apply Hj0].
  destruct (Ha Hn0 j Hj0 He Hrec) as [?|?]; [by left|right]. specialize (Hr (jb_ID j)). lia.
Qed.
(** A run that is dropped because its job is gone. *)
Lemma armed_with_gone r id s : find_job id (jobs s) = None → armed_with (fun x => r x + named x id) s → armed_with r s.
Proof.
  intros Hf Ha Hn j Hj He Hrec. destruct (Ha Hn j Hj He Hrec) as [?|Hp]; [by left|right].
  pose proof (find_job_none _ _ _ Hf Hj). unfold named in Hp. rewrite bool_decide_eq_false_2 in Hp by congruence. cbn in Hp. lia.
Qed.

Lemma named_same id : named id id = 1.
Proof. unfold named. by rewrite bool_decide_eq_true_2. Qed.
Lemma named_other id x : x ≠ id → named id x = 0.
Proof. intros Hx. unfold named. by rewrite bool_decide_eq_false_2. Qed.
Lemma named_in id ids : id ∈ ids → 0 < zsum (named id) ids.
Proof.
  intros Hin. pose proof (zsum_elem (named id) ids id (fun x _ => named_nonneg id x) Hin) as Hle.
  rewrite named_same in Hle. lia.
Qed.

Lemma claim_due_armed e s r : (∀ id, 0 ≤ r id) → armed_with r s →
  armed_with (fun id => r id + zsum (named id) (jb_ID <$> (claim_due e s).2)) (claim_due e s).1.
Proof.
  intros Hr Ha. unfold claim_due. destruct (negb (cs_running s) || writesBlocked s).
  { eapply armed_with_step; [by apply armed_same| |exact Ha]. intros id. cbn. rewrite zsum_nil. lia. }
  cbv zeta. cbn [fst snd]. set (due := List.filter _ _). intros Hn j Hj He Hrec. rewrite save_loadErr in Hn. rewrite jobs_save, jobs_set in Hj.
  apply list_elem_of_fmap in Hj as (k & -> & Hk). case_bool_decide as Hd.
  - right. cbn [jb_ID set_next] in *. pose proof (named_in _ _ Hd) as Hp. specialize (Hr (jb_ID k)). cbn in *. lia.
  - destruct (Ha Hn k Hk He Hrec) as [?|Hp]; [by left|right].
    assert (0 ≤ zsum (named (jb_ID k)) (jb_ID <$> due)) by (apply zsum_nonneg; intros; apply named_nonneg). lia.
Qed.

Lemma finish_job_armed e id startTime err s r : ok s → armed_with (fun x => r x + named x id) s →
  armed_with r (finish_job e id startTime err s).
Proof.
  intros Hs Ha. unfold finish_job. destruct (find_job id (jobs s)) as [job|] eqn:Hf; [|by eapply armed_with_gone].
  cbv zeta. set (job' := _ <| jb_State ::= _ |>).
  set (s1 := match sc_Kind _ with ScheduleAt => _ | _ => _ end).
  assert (Hs1 : armed_with r s1).
  { assert (Hother : ∀ j, j ∈ jobs s → jb_ID j ≠ id → cs_loadErr s = None → armed_job r j).
    { intros j Hj Hid Hn He Hrec. destruct (Ha Hn j Hj He Hrec) as [?|Hp]; [by left|right].
      rewrite named_other in Hp by congruence. lia. }
    assert (Hupd : ∀ k, fresh k → armed_with r (set_jobs (update_job id (fun _ => k) (jobs s)) s)).
    { intros k Hk Hn j Hj. rewrite jobs_set, update_job_as_fmap in Hj by apply (ok_jobs s Hs).
      apply list_elem_of_fmap in Hj as (k' & -> & Hk'). destruct (String.eqb_spec (jb_ID k') id) as [Hid|Hid].
      - intros He Hrec. left. by apply Hk.
      - by apply Hother. }
    unfold s1. destruct (sc_Kind _); try (apply Hupd, fresh_next).
    intros Hn j Hj. change (j ∈ removeJobUnsafe id (jobs s)) in Hj. apply Hother; [|intros Hid|exact Hn].
    + by eapply elem_of_sublist, remove_sublist.
    + apply list_elem_of_In in Hj. apply List.filter_In in Hj as [_ Hb]. by rewrite Hid, String.eqb_refl in Hb. }
  clearbody s1. destruct (writesBlocked s1); [done|]. intros Hn j Hj. rewrite save_loadErr in Hn. rewrite jobs_save in Hj.
  by apply Hs1.
Qed.

Ltac unchanged := match goal with Ha : armed_with _ ?s |- armed_with _ _ =>
  refine (armed_with_step _ _ s _ _ _ Ha); [by apply armed_same|];
  let id := fresh "id" in intros id; cbn; autorewrite with zsum; cbn end.
Lemma exec_armed c i s f r : ok s → calm i = true → forallb calm_op (ch_calls c) = true → (∀ id, 0 ≤ r id) →
  exec c i s = Some f → armed_with (fun id => r id + pending id i) s →
  armed_with (fun id => r id + zsum (pending id) (ef_push f)) (ef_service f) ∧ Forall (fun i => calm i = true) (ef_push f).
Proof.
  intros Hs Hc Hcalls Hr Hx Ha. destruct i; cbn [exec calm pending] in *; try done.
  - destruct (exec_call_armed _ _ _ _ Hs Hc Hx) as [Hst Hcalm]. split; [|done]. refine (armed_with_step _ _ s _ Hst _ Ha).
    intros id. cbn. assert (0 ≤ zsum (pending id) (ef_push f)) by (apply zsum_nonneg; intros; apply pending_nonneg). lia.
  - destruct (ch_cancelled c); [|destruct (cs_dispatching s); [done|]]; injection Hx as <-; (split; [|done]); unchanged; lia.
  - injection Hx as <-. split; [|by repeat constructor]. unchanged; lia.
  - destruct (ch_selected c); [destruct (default false _); [|done]|destruct (cs_wake s); [|done]|];
      injection Hx as <-; (split; [|by repeat constructor]); unchanged; lia.
  - destruct (cs_dispatching s); [done|]. injection Hx as <-. split; [|by repeat constructor]. unchanged; lia.
  - pose proof (claim_due_armed (ch_env c) s (fun id => r id + 0)) as Hcl. destruct (claim_due (ch_env c) s) as [s' due].
    injection Hx as <-. split; [|by repeat constructor]. eapply armed_with_step; [by apply armed_same| |apply Hcl; [|exact Ha]].
    + intros id. cbn. autorewrite with zsum. cbn. lia.
    + intros id. specialize (Hr id). lia.
  - injection Hx as <-. cbn [ef_push ef_service]. destruct ids as [|id ids]; cbn [start_job].
    { split; [|by repeat constructor]. unchanged; lia. }
    destruct (find_job id (jobs s)) as [job|] eqn:Hf.
    + apply find_job_some in Hf as [_ Hid]. destruct (cs_onJob s); (split; [|by repeat constructor]);
        (unchanged; rewrite ?Hid; lia).
    + split; [|by repeat constructor]. eapply armed_with_gone; [exact Hf|].
      unchanged; lia.
  - injection Hx as <-. split; [|by repeat constructor]. unchanged; lia.
  - injection Hx as <-. cbn [ef_push ef_service]. assert (Hz : ∀ id, zsum (pending id) (ICall <$> ch_calls c) = 0).
    { intros id. apply zsum_zero. by intros ? (? & -> & _)%list_elem_of_fmap. }
    split.
    + refine (armed_with_step _ _ s _ _ _ Ha); [by apply armed_same|].
      intros id. rewrite zsum_app, Hz, zsum_cons, zsum_nil. cbn. lia.
    + apply Forall_app. split; [|by repeat constructor]. apply Forall_fmap, Forall_forall. intros op Hop.
      rewrite forallb_forall in Hcalls. by apply Hcalls, list_elem_of_In.
  - injection Hx as <-. split; [|by repeat constructor]. unchanged; lia.
  - injection Hx as <-. split; [|by repeat constructor]. refine (armed_with_step r _ _ _ _ _ _); [by apply armed_same| |by apply finish_job_armed].
    intros id'. cbn. autorewrite with zsum. lia.
  - injection Hx as <-. split; [|by repeat constructor]. unchanged; lia.
  - injection Hx as <-. split; [|by repeat constructor]. unchanged; lia.
Qed.

(** ** Schedules *)

Definition calm_threads y : Prop := Forall (Forall (fun i => calm i = true)) (sys_threads y).

Lemma step_keeps_armed y a y' : sched_inv y → calm_threads y → calm_sched a = true → armed y → sched_step y a = Some y' →
  armed y' ∧ calm_threads y'.
Proof.
  intros Hinv Hct Hca Ha Hx. pose proof (step_keeps_inv _ _ _ Hinv Hx) as Hinv'.
  unfold calm_threads in *. destruct y as [s ts tr], a as [op|t c|file]; cbn in *.
  - injection Hx as <-. cbn. split.
    + intros Hn j Hj He Hrec. destruct (Ha Hn j Hj He Hrec) as [?|Hp]; [by left|right].
      cbn. rewrite tsum_spawn, zsum_cons, zsum_nil. cbn in *. lia.
    + apply Forall_app. by repeat constructor.
  - destruct (ts !! t) as [[|i rest]|] eqn:Ht; try done. destruct (exec c i s) as [f|] eqn:Hf; [|done]. injection Hx as <-.
    pose proof (Forall_lookup_1 _ _ _ _ Hct Ht) as [Hi Hrest]%Forall_cons.
    assert (Hok : ok s) by apply Hinv.
    assert (Hspawn : ∀ k, k ∈ ef_spawn f → ∃ n, k = [ILoop n]).
    { eapply exec_done; [exact Hok| |exact Hf]. destruct Hinv as [_ Hd _ _ _]. cbn in Hd. rewrite Hd.
      eapply tsum_stands; [intros; apply holds_nonneg|]. by eapply stands_top. }
    set (r := fun id => tsum (pending id) ts - pending id i).
    destruct (exec_armed c i s f r) as [Harm Hcalm]; try done.
    + intros id. unfold r. pose proof (tsum_stands (pending id) (pending_nonneg id) ts i (stands_top ts t i rest Ht)). lia.
    + intros Hn j Hj He Hrec. destruct (Ha Hn j Hj He Hrec) as [?|Hp]; [by left|right]. unfold r. cbn in *. lia.
    + split; cbn.
      * intros Hn j Hj He Hrec. destruct (Harm Hn j Hj He Hrec) as [?|Hp]; [by left|right]. cbn.
        unfold tsum at 1. rewrite zsum_app. fold (tsum (pending (jb_ID j)) (<[t:=ef_push f ++ rest]> ts)).
        fold (tsum (pending (jb_ID j)) (ef_spawn f)).
        rewrite (tsum_step _ _ _ _ _ _ Ht), (tsum_loops (pending (jb_ID j)) (ef_spawn f) (fun n => eq_refl) Hspawn).
        unfold r in Hp. lia.
      * apply Forall_app. split; [apply Forall_insert; [done|]; by apply Forall_app|].
        apply Forall_forall. intros k [n ->]%Hspawn. by repeat constructor.
  - injection Hx as <-. done.
Qed.

Lemma run_keeps_armed y (l : list Sched) y' : sched_inv y → calm_threads y → Forall (fun a => calm_sched a = true) l → armed y →
  sched_run y l = Some y' → armed y'.
Proof.
  intros Hinv Hct Hl. revert y Hinv Hct. induction Hl as [|a l Ha _ IH]; intros y Hinv Hct Harm; cbn; [by intros [= <-]|].
  destruct (sched_step y a) as [y1|] eqn:E; [|done].
  destruct (step_keeps_armed _ _ _ Hinv Hct Ha Harm E) as [Ha1 Hc1]. apply IH; [by eapply step_keeps_inv|done|done].
Qed.
End armed.
