(* ===== verification/CronProps.v ===== *)
(** What the scheduler promises: runs, the file, mutations and the jobs that
    must not be lost. *)
From S2P Require Import Prelude Goroutines GoStrings GoJson CronTypes CronService CronValid CronSchedule CronRuns.

Section props.
Context `{CronLibrary, CronDecoder}.
Implicit Types (s : Service) (y : System) (i : Instr) (c : Choice) (j : CronJob).

(** C7. However the goroutines of the scheduler, its callers and the changes of
    the file interleave, no job is handed to the handler more often than the
    dispatcher claimed it, every claim is of an enabled job whose next run has
    come, and at most one handler runs at any time. *)
Theorem one_run_per_claim y : reachable y →
  (∀ id, runs id (sys_trace y) ≤ claims id (sys_trace y)) ∧
  (∀ job now, Claimed job now ∈ sys_trace y → jb_Enabled job = true ∧ ∃ next, jb_next job = Some next ∧ next ≤ now) ∧
  tsum (fun i => one_if (active i)) (sys_threads y) ≤ 1.
Proof.
  intros Hy. pose proof (reachable_sched_inv y Hy) as Hinv. split_and!.
  - intros id. pose proof (si_owed _ Hinv id). pose proof (tsum_nonneg (owed id) (owed_nonneg id) (sys_threads y)). lia.
  - intros job now Hc. apply (si_due _ Hinv) in Hc. unfold is_due in Hc. apply andb_true_iff in Hc as [He Hn].
    split; [done|]. destruct (jb_next job) as [next|]; [|done]. exists next. split; [done|lia].
  - by apply one_handler.
Qed.

(** ** The file that could not be read *)

(** One step of a goroutine, as the service sees it. *)
Lemma run_step_done y t c y' : sched_inv y → sched_step y (Run t c) = Some y' → ∃ i f,
  well_done (sys_service y) i f ∧ sys_service y' = ef_service f ∧ sys_trace y' = sys_trace y ++ ef_seen f.
Proof.
  intros Hinv Hx. cbn in Hx. destruct (sys_threads y !! t) as [[|i rest]|] eqn:Ht; try done.
  destruct (exec c i (sys_service y)) as [f|] eqn:Hf; [|done]. injection Hx as <-. exists i, f. split; [|done].
  eapply exec_done; [apply Hinv| |exact Hf]. rewrite (si_dispatch _ Hinv).
  eapply tsum_stands; [intros; apply holds_nonneg|]. by eapply stands_top.
Qed.

Definition no_edit (a : Sched) : bool := match a with Edit _ => false | _ => true end.

Lemma step_barrier y a y' : sched_inv y → no_edit a = true → sched_step y a = Some y' →
  is_Some (cs_loadErr (sys_service y)) → unreadable_file (cs_file (sys_service y)) →
  is_Some (cs_loadErr (sys_service y')) ∧ cs_file (sys_service y') = cs_file (sys_service y) ∧
  ∃ tr, sys_trace y' = sys_trace y ++ tr ∧ ∀ job now, Claimed job now ∉ tr.
Proof.
  intros Hinv Hne Hx He Hf. destruct a as [op|t c|]; [|..]; try done.
  - injection Hx as <-. cbn. split_and!; [done..|]. exists []. rewrite app_nil_r. split; [done|]. by intros ? ? ?%elem_of_nil.
  - destruct (run_step_done _ _ _ _ Hinv Hx) as (i & f & Hd & -> & ->).
    assert (Hk : is_Some (cs_loadErr (ef_service f)) ∧ cs_file (ef_service f) = cs_file (sys_service y)).
    { destruct (wd_kept _ _ _ Hd) as [Hk| ->]; [by apply Hk|done]. }
    split_and!; [apply Hk..|]. exists (ef_seen f). split; [done|]. intros job now [_ Hw]%(wd_due _ _ _ Hd).
    unfold writesBlocked in Hw. by rewrite bool_decide_eq_true_2 in Hw.
Qed.

(** C33. A schedule file that no read accepts is left as it is: once loading
    has failed on it, and until somebody replaces the file, no sequence of calls,
    reloads and timer events changes it or clears the failure, and no job is
    claimed. *)
Theorem unreadable_store_untouched y l y' : reachable y → is_Some (cs_loadErr (sys_service y)) →
  unreadable_file (cs_file (sys_service y)) → forallb no_edit l = true → sched_run y l = Some y' →
  cs_file (sys_service y') = cs_file (sys_service y) ∧ is_Some (cs_loadErr (sys_service y')) ∧
  ∀ id, claims id (sys_trace y') = claims id (sys_trace y).
Proof.
  intros Hy He Hf Hl Hx. apply reachable_sched_inv in Hy. revert y Hy He Hf Hx.
  induction l as [|a l IH]; intros y Hy He Hf; cbn in *; [by intros [= <-]|]. apply andb_true_iff in Hl as [Ha Hl].
  destruct (sched_step y a) as [y1|] eqn:E; [|done]. intros Hx.
  destruct (step_barrier _ _ _ Hy Ha E He Hf) as (He1 & Hf1 & tr & Htr & Hnone).
  destruct (IH Hl y1) as (Hfile & Herr & Hcl); [by eapply step_keeps_inv|done|by rewrite Hf1|done|].
  split_and!; [by rewrite Hfile|done|]. intros id. rewrite Hcl, Htr, claims_app.
  unfold claims at 2. rewrite (zsum_zero _ tr); [lia|]. intros [] Hin; try done. by destruct (Hnone _ _ Hin).
Qed.

(** The schedule in memory always passes the validation of the next load,
    and a step of a goroutine leaves the file alone or fills it with the text
    of a schedule that passes it, so that a reader that decodes what was
    encoded loads it. *)
Theorem stored_schedule_valid y t c y' : reachable y → sched_step y (Run t c) = Some y' →
  validateCronStore (cs_store (sys_service y')) = Ok tt ∧
  (cs_file (sys_service y') = cs_file (sys_service y) ∨
   ∃ st, validateCronStore st = Ok tt ∧ cs_file (sys_service y') = Some (encode_store st) ∧
     (decode_version (encode_store st) = Some (st_Version st) → decode_store (encode_store st) = Some st →
      ∀ e, env_unreadable e = false → readStore e (sys_service y') = Ok (Some (st, false)))).
Proof.
  intros Hy Hx. apply reachable_sched_inv in Hy. pose proof (step_keeps_inv _ _ _ Hy Hx) as Hinv'.
  split; [apply validate_exact, Hinv'|]. destruct (run_step_done _ _ _ _ Hy Hx) as (i & f & Hd & -> & _).
  destruct (wd_kept _ _ _ Hd) as [[_ [Hk|(st & Hv & Hk)] _ _]| ->]; [by left| |by left].
  right. exists st. split; [by apply validate_exact|]. split; [done|]. intros Hver Hdec e He.
  apply validate_exact in Hv as Hval. destruct Hv as (l & -> & _). unfold readStore. rewrite He, Hk, Hver, Hdec, Hval. done.
Qed.

(** Adding, removing, enabling and disabling a job either fails and leaves
    the service exactly as it was, its file included, or leaves the changed
    schedule, valid, in memory and in the file alike; the answer tells which,
    and a committed but unconfirmed write counts as done. *)
Theorem mutations_all_or_nothing y e : reachable y →
  let s := sys_service y in
  (∀ name schedule payload, let r := AddJob e name schedule payload s in outcome s r.1 r.2.2) ∧
  (∀ id, let r := RemoveJob e id s in outcome s r.1 r.2) ∧
  (∀ id enabled, let r := EnableJob e id enabled s in outcome s r.1 r.2.2).
Proof.
  intros Hy. pose proof (si_ok _ (reachable_sched_inv y Hy)) as Hok. split_and!; intros.
  - by apply AddJob_outcome.
  - by apply RemoveJob_outcome.
  - by apply EnableJob_outcome.
Qed.

(** C16. A recurring job is never lost: after the schedule was prepared without
    error every enabled job whose schedule always has a next run is armed, and
    from there, whatever the timers, the handlers and the callers that add,
    remove, enable or disable jobs do, each such job has a next run or a
    claimed run that is not over.  (Updates and reloads are left out: they bring
    the caller's or the file's own next run.) *)
Theorem recurring_jobs_stay_armed y t c rest y0 l y' : reachable y → calm_threads y →
  sys_threads y !! t = Some (ICall OpPrepare :: rest) → cs_running (sys_service y) = false →
  (Prepare (ch_env c) (sys_service y)).2 = Ok tt → sched_step y (Run t c) = Some y0 →
  forallb calm_sched l = true → sched_run y0 l = Some y' →
  ∀ j, j ∈ jobs (sys_service y') → cs_loadErr (sys_service y') = None →
  jb_Enabled j = true → recurring (jb_Schedule j) →
  is_Some (jb_next j) ∨ 0 < tsum (pending (jb_ID j)) (sys_threads y').
Proof.
  intros Hy Hct Ht Hrun Hok Hstep Hl Hx j Hj Hn He Hr. apply reachable_sched_inv in Hy.
  pose proof (step_keeps_inv _ _ _ Hy Hstep) as Hy0. rewrite forallb_forall in Hl.
  assert (Hcalm : Forall (fun a => calm_sched a = true) l) by (apply Forall_forall; intros; by apply Hl, list_elem_of_In).
  assert (Harm : armed y0 ∧ calm_threads y0).
  { cbn [sched_step] in Hstep. rewrite Ht in Hstep. cbn [exec exec_call] in Hstep.
    pose proof (Prepare_fresh (ch_env c) (sys_service y) Hrun Hok) as Hfresh.
    destruct (Prepare (ch_env c) (sys_service y)) as [s' r]. injection Hstep as <-. split.
    - intros _ k Hk Hek Hrk. left. by apply Hfresh.
    - apply Forall_app. split; [|constructor]. apply Forall_insert; [done|].
      by pose proof (Forall_lookup_1 _ _ _ _ Hct Ht) as [_ ?]%Forall_cons. }
  destruct Harm as [Harm Hct0]. by apply (run_keeps_armed y0 l y' Hy0 Hct0 Hcalm Harm Hx).
Qed.
(** ** What does not hold *)

(** An interval that passes validation and overflows the clock gives a next run
    in the past: the job is due at once, again and again. *)
Theorem huge_interval_is_due sc now every :
  validateCronSchedule sc = Ok tt → sc_Kind sc = ScheduleEvery → sc_EveryMS sc = Some every →
  0 ≤ now < two64 / 2 → every < two64 / 2 → two64 / 2 ≤ now + every →
  ∃ next, computeNextRun sc now = Some next ∧ next < now.
Proof.
  intros Hv Hk He Hnow Hev Hover. unfold computeNextRun. rewrite Hk, He.
  assert (Hpos : every <=? 0 = false) by lia. rewrite Hpos. eexists. split; [done|]. unfold wrap64.
  set (h := two64 / 2) in *. assert (Hh : two64 = 2 * h) by done. rewrite Hh.
  assert (Hm : (now + every + h) mod (2 * h) = now + every + h - 2 * h).
  { rewrite <- (Z_mod_plus_full _ (-1)). rewrite Z.mod_small; lia. }
  rewrite Hm. lia.
Qed.

(** Unlike the other mutations, an update that cannot be written is not
    taken back: the caller is answered that nothing was saved, the file is the
    old one, and the service goes on with the new job. *)
Theorem update_survives_failed_save e job previous s : ok s → writesBlocked s = false → env_write e = WriteFailed →
  find_job (jb_ID job) (jobs s) = Some previous → validateCronDefinition (jb_Name job) (jb_Schedule job) (jb_Payload job) = Ok tt →
  let r := UpdateJob e job s in
  r.2 = Some ErrNotWritten ∧ cs_file r.1 = cs_file s ∧
  find_job (jb_ID job) (jobs r.1) = Some (updated_job (env_now e) previous job).
Proof.
  intros Hs Hw He Hf Hd. unfold UpdateJob. rewrite Hw, Hf, Hd. cbv zeta.
  set (s1 := notify _). assert (Hok : ok s1).
  { pose proof (kept_ok _ _ (UpdateJob_kept e job s Hs) Hs) as Hok. unfold UpdateJob in Hok. rewrite Hw, Hf, Hd in Hok.
    cbv zeta in Hok. fold s1 in Hok. unfold ok in *. destruct (saveStoreUnsafe e s1) as [s2 [u|x]] eqn:E; cbn in Hok;
      (rewrite <- (save_store e s1), E; exact Hok). }
  unfold saveStoreUnsafe. rewrite (proj2 (validate_exact _) Hok), He. cbn. split_and!; [done..|].
  apply (find_updated _ _ previous); [done|]. unfold updated_job. by repeat case_match.
Qed.
End props.
