(* ===== verification/CronWitness.v ===== *)
(** The scheduler at concrete inputs: a sample library and decoder, the runs
    that show what an update can lose, and the hypotheses of [CronProps]
    met. *)
From S2P Require Import Prelude Goroutines GoStrings GoJson CronTypes CronService CronValid CronSchedule CronRuns CronProps.

(** ** A sample *)

#[local] Instance sample_library : CronLibrary := {
  gronx_valid expr := String.eqb expr "* * * * *";
  zone_known tz := String.eqb tz "UTC";
  next_tick _ _ now := Some (now + 60000) }.

Definition every_minute : CronSchedule := mkSchedule ScheduleEvery None (Some 60000) "" "".
Definition once (t : Z) : CronSchedule := mkSchedule ScheduleAt (Some t) None "" "".
Definition greeting : CronPayload := mkPayload PayloadAgentTurn "say hello" "" "telegram" "42" None.
Definition sample_job (sc : CronSchedule) (next : option Z) : CronJob :=
  mkJob "job-1" "hello" true sc greeting (mkJobState next None "" "") 1000 1000.
Definition stored (sc : CronSchedule) : CronStore := mkStore 2 (Some [sample_job sc (Some 60000)]).

(** A reader of the two texts that the samples store. *)
#[local] Instance sample_decoder : CronDecoder := {
  decode_version data := if String.eqb data "broken" then None else Some 2;
  decode_store data :=
    if String.eqb data (encode_store (stored every_minute)) then Some (stored every_minute)
    else if String.eqb data (encode_store (stored (once 60000))) then Some (stored (once 60000)) else None;
  decode_legacy _ := None }.

Definition at_ms (now : Z) : Env := mkEnv now now (Some "job-2") false WriteOk.
Definition pick (now : Z) (sel : Selected) (calls : list Op) : Choice := mkChoice (at_ms now) sel None calls false.
Definition go (now : Z) : Choice := pick now SelTimer [].

(** The service is started at 1000 and its loop (the second goroutine) claims
    what is due at [now]. *)
Definition start_and_claim (now : Z) : list Sched :=
  [Spawn OpStart; Run 0 (go 1000); Run 1 (go 1000); Run 1 (go now); Run 1 (go now); Run 1 (go now)].
(** The claimed job runs; its handler makes [calls]. *)
Definition run_claimed (now : Z) (calls : list Op) : list Sched :=
  [Run 1 (go now); Run 1 (go now); Run 1 (pick now SelTimer calls)]
  ++ ((fun _ => Run 1 (go now)) <$> calls) ++ [Run 1 (go now); Run 1 (go now); Run 1 (go now); Run 1 (go now); Run 1 (go now)].

Definition begin (sc : CronSchedule) : System := new_system (at_ms 1000) (Some (encode_store (stored sc))) true.
Definition after (y : System) (l : list Sched) : System := default y (sched_run y l).
Lemma after_run y l y' : sched_run y l = Some y' → sched_run y l = Some (after y l).
Proof. unfold after. by intros ->. Qed.
Ltac computed := eapply after_run; vm_compute; reflexivity.
Lemma begin_reachable sc l y' : sched_run (begin sc) l = Some y' → reachable y'.
Proof. intros Hl. by exists (at_ms 1000), (Some (encode_store (stored sc))), true, l. Qed.

(** ** What an update can lose *)

Definition seen_job : CronJob := sample_job every_minute None.
Definition renamed : CronJob := mkJob "job-1" "renamed" true every_minute greeting (jb_State seen_job) 1000 1000.
Definition stale_update : list Sched :=
  start_and_claim 61000 ++ run_claimed 61000 [OpGet "job-1"] ++ [Spawn (OpUpdate renamed); Run 2 (go 62000)].

(** The public calls that read a job and write it back can stop a recurring
    job for good: read while its run is claimed, renamed and written back after
    the run, the job stays enabled without a next run, with nothing pending. *)
Theorem stale_update_loses_the_next_run :
  let y := after (begin every_minute) stale_update in
  sched_run (begin every_minute) stale_update = Some y ∧ reachable y ∧
  Answered (OpGet "job-1") (AnsJob (Some seen_job) None) ∈ sys_trace y ∧
  Answered (OpUpdate (seen_job <| jb_Name := "renamed" |>)) (AnsError None) ∈ sys_trace y ∧
  cs_running (sys_service y) = true ∧
  ∃ j, jobs (sys_service y) = [j] ∧ jb_Enabled j = true ∧ recurring (jb_Schedule j) ∧ jb_next j = None ∧
    tsum (pending (jb_ID j)) (sys_threads y) = 0.
Proof.
  cbv zeta. assert (Hrun : sched_run (begin every_minute) stale_update = Some (after (begin every_minute) stale_update)) by computed.
  split_and!; [exact Hrun|by eapply begin_reachable|..]; clear Hrun.
  - vm_compute. do 3 right. left.
  - vm_compute. do 5 right. left.
  - by vm_compute.
  - eexists. split; [vm_compute; reflexivity|]. split_and!; [reflexivity| |reflexivity|by vm_compute].
    intros now. unfold computeNextRun. cbn. by eexists.
Qed.

Definition own_update : list Sched :=
  start_and_claim 61000 ++ run_claimed 61000 [OpUpdate (sample_job (once 500000) None)].
(** A one-time job that its own run moves to a later time is deleted when the
    run is over. *)
Theorem moved_in_its_own_run_is_deleted :
  let y := after (begin (once 60000)) own_update in
  sched_run (begin (once 60000)) own_update = Some y ∧ reachable y ∧
  Answered (OpUpdate (sample_job (once 500000) None)) (AnsError None) ∈ sys_trace y ∧
  jobs (sys_service y) = [] ∧ tsum (pending "job-1") (sys_threads y) = 0.
Proof.
  cbv zeta. assert (Hrun : sched_run (begin (once 60000)) own_update = Some (after (begin (once 60000)) own_update)) by computed.
  split_and!; [exact Hrun|by eapply begin_reachable|..]; clear Hrun; try by vm_compute.
  vm_compute. do 3 right. left.
Qed.

(** ** The hypotheses of the properties, met *)

Definition busy : list Sched := start_and_claim 61000 ++ [Run 1 (go 61000); Run 1 (go 61000)].
Lemma busy_runs : sched_run (begin every_minute) busy = Some (after (begin every_minute) busy).
Proof. computed. Qed.

Lemma one_run_per_claim_witness :
  reachable (after (begin every_minute) busy) ∧
  tsum (fun i => one_if (active i)) (sys_threads (after (begin every_minute) busy)) = 1 ∧
  runs "job-1" (sys_trace (after (begin every_minute) busy)) ≤ claims "job-1" (sys_trace (after (begin every_minute) busy)).
Proof.
  split_and!; [exact (begin_reachable _ _ _ busy_runs)|by vm_compute|].
  apply (one_run_per_claim (after (begin every_minute) busy)). exact (begin_reachable _ _ _ busy_runs).
Defined.

Definition broken : System := new_system (at_ms 1000) (Some "broken") true.
Definition broken_calls : list Sched :=
  [Spawn OpStart; Run 0 (go 1000); Spawn (OpAdd "n" every_minute greeting); Run 1 (go 1000); Spawn OpLoad; Run 2 (go 1000);
   Spawn OpActivate; Run 3 (go 2000); Run 4 (go 2000); Run 4 (go 2000); Run 4 (go 2000); Run 4 (go 2000)].
Lemma broken_reachable : reachable broken.
Proof. by exists (at_ms 1000), (Some "broken"), true, []. Qed.
Lemma broken_unreadable : unreadable_file (Some "broken").
Proof.
  exists "broken". split; [done|]. intros e s Hf. unfold readStore. rewrite Hf. destruct (env_unreadable e); by eexists.
Qed.
Lemma unreadable_store_untouched_witness :
  is_Some (cs_loadErr (sys_service broken)) ∧ cs_file (sys_service (after broken broken_calls)) = Some "broken".
Proof.
  split; [by vm_compute; eexists|].
  refine (proj1 (unreadable_store_untouched broken broken_calls (after broken broken_calls) broken_reachable _ _ _ _)).
  - vm_compute. by eexists.
  - exact broken_unreadable.
  - reflexivity.
  - computed.
Defined.

Definition adding : System := after (begin every_minute) [Spawn (OpAdd "again" (once 90000) greeting)].
Lemma adding_reachable : reachable adding.
Proof. eapply begin_reachable. unfold adding. computed. Qed.
Lemma stored_schedule_valid_witness :
  let y := after adding [Run 0 (go 2000)] in
  length (jobs (sys_service y)) = 2%nat ∧ validateCronStore (cs_store (sys_service y)) = Ok tt.
Proof.
  split; [by vm_compute|].
  refine (proj1 (stored_schedule_valid adding 0 (go 2000) (after adding [Run 0 (go 2000)]) adding_reachable _)).
  vm_compute. reflexivity.
Defined.

Lemma mutations_all_or_nothing_witness :
  let s := sys_service adding in let r := RemoveJob (at_ms 3000) "job-1" s in jobs r.1 = [] ∧ outcome s r.1 r.2.
Proof.
  split; [by vm_compute|].
  exact (proj1 (proj2 (mutations_all_or_nothing adding (at_ms 3000) adding_reachable)) "job-1").
Defined.

Definition preparing : System := after (begin every_minute) [Spawn OpPrepare].
Definition calm_calls : list Sched :=
  [Spawn OpActivate; Run 1 (go 1000); Run 2 (go 1000); Run 2 (go 61000); Run 2 (go 61000); Run 2 (go 61000)].
Lemma preparing_reachable : reachable preparing.
Proof. eapply begin_reachable. unfold preparing. computed. Qed.
Lemma recurring_jobs_stay_armed_witness :
  let y := after (after preparing [Run 0 (go 1000)]) calm_calls in
  jobs (sys_service y) = [seen_job] ∧
  (is_Some (jb_next seen_job) ∨ 0 < tsum (pending "job-1") (sys_threads y)).
Proof.
  split; [by vm_compute|].
  refine (recurring_jobs_stay_armed preparing 0 (go 1000) [] (after preparing [Run 0 (go 1000)]) calm_calls
    (after (after preparing [Run 0 (go 1000)]) calm_calls) preparing_reachable _ _ _ _ _ _ _ seen_job _ _ _ _).
  - vm_compute. repeat constructor.
  - by vm_compute.
  - by vm_compute.
  - by vm_compute.
  - by vm_compute.
  - by vm_compute.
  - computed.
  - vm_compute. left.
  - by vm_compute.
  - done.
  - intros now. unfold computeNextRun. cbn. by eexists.
Defined.

Lemma huge_interval_is_due_witness :
  let sc := mkSchedule ScheduleEvery None (Some 9223372036854775807) "" "" in
  validateCronSchedule sc = Ok tt ∧ ∃ next, computeNextRun sc 1700000000000 = Some next ∧ next < 1700000000000.
Proof.
  split; [by vm_compute|].
  refine (huge_interval_is_due (mkSchedule ScheduleEvery None (Some 9223372036854775807) "" "") 1700000000000 9223372036854775807 _ _ _ _ _ _);
    unfold two64; first [reflexivity|lia|vm_compute; intuition discriminate].
Defined.

Lemma update_survives_failed_save_witness :
  let s := sys_service adding in let e := mkEnv 5000 5000 None false WriteFailed in
  find_job "job-1" (jobs s) = Some (sample_job every_minute (Some 60000)) ∧
  find_job "job-1" (jobs (UpdateJob e renamed s).1) = Some (updated_job 5000 (sample_job every_minute (Some 60000)) renamed).
Proof.
  split; [by vm_compute|].
  refine (proj2 (proj2 (update_survives_failed_save (mkEnv 5000 5000 None false WriteFailed) renamed
    (sample_job every_minute (Some 60000)) (sys_service adding) _ _ _ _ _))).
  - exact (si_ok _ (reachable_sched_inv adding adding_reachable)).
  - by vm_compute.
  - reflexivity.
  - by vm_compute.
  - by vm_compute.
Defined.
