(* ===== verification/GoRegexp.v ===== *)
(** Package [regexp], as far as the error patterns of the providers use it:
    leftmost-first matching over runes, with at most one capture.

    [matcher] backtracks in order of preference, as the semantics of the package
    prescribes; [matches_at] is what it means for an expression to match, and
    [MatchString_exact] says that the search finds a match exactly when there is
    one. *)
From S2P Require Import Prelude GoStrings.

(** Expressions: a class of runes, [a?] and [a|b], [a*], [\b], a capture. *)
Inductive regexp :=
| RClass (p : Z → bool)
| REmpty
| RSeq (a b : regexp)
| RAlt (a b : regexp)
| RStar (a : regexp)
| RBoundary
| RGroup (a : regexp).

(** ** Classes *)

Definition rune_is (r : Z) : Z → bool := Z.eqb r.
Definition is_digit (r : Z) : bool := (48 <=? r) && (r <=? 57).
Definition is_space (r : Z) : bool := existsb (Z.eqb r) [9; 10; 12; 13; 32].
Definition is_word (r : Z) : bool :=
  is_digit r || ((65 <=? r) && (r <=? 90)) || ((97 <=? r) && (r <=? 122)) || (r =? 95).
(** [.] *)
Definition not_newline (r : Z) : bool := negb (r =? 10).
Definition one_of_runes (l : list Z) (r : Z) : bool := existsb (Z.eqb r) l.

(** A letter under [(?i)]: its simple-folding orbit, which for [k] and [s] has
    a third member, the Kelvin sign and the long s. *)
Definition folded (r : Z) : Z → bool :=
  let l := if (65 <=? r) && (r <=? 90) then r + 32 else r in
  if (97 <=? l) && (l <=? 122)
  then one_of_runes ([l; l - 32] ++ (if l =? 107 then [8490] else if l =? 115 then [383] else []))
  else rune_is r.

Definition RPlus (a : regexp) : regexp := RSeq a (RStar a).
Definition ROpt (a : regexp) : regexp := RAlt a REmpty.
(** A literal; under [(?i)]. *)
Definition RText (s : string) : regexp := foldr (fun r => RSeq (RClass (rune_is r))) REmpty (runes s).
Definition RFold (s : string) : regexp := foldr (fun r => RSeq (RClass (folded r))) REmpty (runes s).
Definition RSeqs (l : list regexp) : regexp := foldr RSeq REmpty l.
Definition RAlts (l : list regexp) : regexp :=
  match l with [] => REmpty | a :: l => foldl RAlt a l end.

(** ** Matching

    A position is the rune before it and the runes after it. *)
Abbreviation position := (option Z * list Z)%type.
Definition at_boundary (x : position) : bool :=
  let word o := match o with Some r => is_word r | None => false end in
  negb (Bool.eqb (word x.1) (word (head x.2))).

Section matcher.
Context {A : Type}.
Implicit Types (k : position → list Z → option A) (cap : list Z).

Definition or_else (x : option A) (y : unit → option A) : option A := match x with Some a => Some a | None => y () end.

(** The continuation is given the position after the match and the capture. *)
Section star.
Variable step : position → list Z → (position → list Z → option A) → option A.
Fixpoint star (n : nat) (x : position) cap k : option A :=
  match n with
  | O => k x cap
  | S n =>
      or_else (step x cap (fun x' cap' => if (length x'.2 <? length x.2)%nat then star n x' cap' k else None))
              (fun _ => k x cap)
  end.
End star.

Fixpoint matcher (a : regexp) (x : position) cap k : option A :=
  match a with
  | RClass p => match x.2 with r :: s => if p r then k (Some r, s) cap else None | [] => None end
  | REmpty => k x cap
  | RSeq a b => matcher a x cap (fun x' cap' => matcher b x' cap' k)
  | RAlt a b => or_else (matcher a x cap k) (fun _ => matcher b x cap k)
  | RStar a => star (matcher a) (length x.2) x cap k
  | RBoundary => if at_boundary x then k x cap else None
  | RGroup a => matcher a x cap (fun x' _ => k x' (take (length x.2 - length x'.2) x.2))
  end.
End matcher.

(** The leftmost match: its capture. *)
Fixpoint search (a : regexp) (prev : option Z) (s : list Z) : option (list Z) :=
  or_else (matcher a (prev, s) [] (fun _ cap => Some cap))
          (fun _ => match s with [] => None | r :: s => search a (Some r) s end).
(** [FindStringSubmatch(s)[1]] and [MatchString] *)
Definition FindSubmatch (a : regexp) (s : string) : option string := of_runes <$> search a None (runes s).
Definition MatchString (a : regexp) (s : string) : bool := bool_decide (is_Some (search a None (runes s))).

(** ** What a match is *)

Inductive matches_at : regexp → position → position → Prop :=
| at_class p q r s : p r = true → matches_at (RClass p) (q, r :: s) (Some r, s)
| at_empty x : matches_at REmpty x x
| at_seq a b x y z : matches_at a x y → matches_at b y z → matches_at (RSeq a b) x z
| at_left a b x y : matches_at a x y → matches_at (RAlt a b) x y
| at_right a b x y : matches_at b x y → matches_at (RAlt a b) x y
| at_stop a x : matches_at (RStar a) x x
| at_more a x y z : matches_at a x y → matches_at (RStar a) y z → matches_at (RStar a) x z
| at_bound x : at_boundary x = true → matches_at RBoundary x x
| at_group a x y : matches_at a x y → matches_at (RGroup a) x y.

Lemma or_else_some {A} (x : option A) y a : or_else x y = Some a ↔ x = Some a ∨ x = None ∧ y () = Some a.
Proof. destruct x; cbn; naive_solver. Qed.
Lemma or_else_is_some {A} (x : option A) y : is_Some (or_else x y) ↔ is_Some x ∨ is_Some (y ()).
Proof. destruct x; cbn; [split; [by left|done]|]. split; [by right|]. by intros [[? [=]]|?]. Qed.

(** A match moves forward over the text, and stays when it is empty. *)
Lemma matches_forward a x y : matches_at a x y → y = x ∨ (length y.2 < length x.2)%nat.
Proof. induction 1; cbn in *; naive_solver lia. Qed.

Section exact.
Context {A : Type}.
Implicit Types (k : position → list Z → option A) (cap : list Z).

Lemma matcher_sound a x cap k v : matcher a x cap k = Some v → ∃ y cap', matches_at a x y ∧ k y cap' = Some v.
Proof.
  revert x cap k. induction a as [p| |a IHa b IHb|a IHa b IHb|a IHa| |a IHa]; intros x cap k; cbn [matcher].
  - destruct x as [q [|r s]]; cbn [snd]; [done|]. destruct (p r) eqn:E; [|done]. intros Hk. exists (Some r, s), cap. by repeat constructor.
  - intros Hk. exists x, cap. by repeat constructor.
  - intros (y & c & Hy & (z & c' & Hz & Hk)%IHb)%IHa. exists z, c'. split; [by econstructor|done].
  - intros [(y & c & ? & ?)%IHa|[_ (y & c & ? & ?)%IHb]]%or_else_some; exists y, c; (split; [|done]); by constructor.
  - generalize (length x.2) as n. intros n. revert x cap. induction n as [|n IH]; intros x cap; cbn [star].
    { intros Hk. exists x, cap. split; [constructor|done]. }
    intros [(y & c & Hy & Hk)%IHa|[_ Hk]]%or_else_some; [|exists x, cap; split; [constructor|done]].
    destruct (length y.2 <? length x.2)%nat; [|done]. apply IH in Hk as (z & c' & Hz & Hk). exists z, c'. split; [by econstructor|done].
  - case_match eqn:E; [|done]. intros Hk. exists x, cap. split; [by constructor|done].
  - intros (y & c & Hy & Hk)%IHa. eexists y, _. split; [by constructor|exact Hk].
Qed.

Lemma star_progress a x z : matches_at (RStar a) x z →
  x = z ∨ ∃ y, matches_at a x y ∧ (length y.2 < length x.2)%nat ∧ matches_at (RStar a) y z.
Proof.
  remember (RStar a) as b eqn:E. intros Hm. revert E. induction Hm as [| | | | |b x|b x y z Ha _ Hs IH| |]; intros E; try done; [by left|].
  injection E as ->. destruct (matches_forward _ _ _ Ha) as [->|Hlt]; [by apply IH|]. right. by exists y.
Qed.

Lemma matcher_complete a x y cap k : matches_at a x y → (∀ cap', is_Some (k y cap')) → is_Some (matcher a x cap k).
Proof.
  revert x y cap k. induction a as [p| |a IHa b IHb|a IHa b IHb|a IHa| |a IHa]; intros x y cap k Hm Hk; cbn [matcher].
  - inversion Hm as [? q r s Hp| | | | | | | |]; subst. cbn. by rewrite Hp.
  - inversion Hm; subst. apply Hk.
  - inversion Hm; subst. eapply IHa; [done|]. intros c. by eapply IHb.
  - inversion Hm; subst; apply or_else_is_some; [left; by eapply IHa|right; by eapply IHb].
  - assert (Hn : (length x.2 ≤ length x.2)%nat) by done. revert Hn Hm. generalize (length x.2) at 2 3 as n.
    intros n. revert x cap. induction n as [|n IH]; intros x cap Hn [->|(y' & Ha & Hlt & Hs)]%star_progress; cbn; try apply Hk; try lia.
    + apply or_else_is_some. right. apply Hk.
    + apply or_else_is_some. left. eapply IHa; [exact Ha|]. intros c.
      fold (length y'.2 <? length x.2)%nat. apply Nat.ltb_lt in Hlt as Hb. unfold Nat.ltb in Hb. cbn in Hb. rewrite Hb. apply IH; [lia|done].
  - inversion Hm as [| | | | | | |? Hb|]; subst. rewrite Hb. apply Hk.
  - inversion Hm; subst. by eapply IHa.
Qed.
End exact.

Lemma search_exact a q s : is_Some (search a q s) ↔
  ∃ s1 s2 y, s = s1 ++ s2 ∧ matches_at a (match last s1 with Some r => Some r | None => q end, s2) y.
Proof.
  revert q. induction s as [|r s IH]; intros q; cbn [search]; rewrite or_else_is_some.
  - split.
    + intros [[c (y & cap & Hm & _)%matcher_sound]|[? [=]]]. by exists [], [], y.
    + intros (s1 & s2 & y & Hs & Hm). symmetry in Hs. apply app_eq_nil in Hs as [-> ->]. left. by eapply matcher_complete.
  - split.
    + intros [[c (y & cap & Hm & _)%matcher_sound]|(s1 & s2 & y & -> & Hm)%IH].
      * by exists [], (r :: s), y.
      * exists (r :: s1), s2, y. split; [done|]. destruct s1 as [|r' s1]; [done|]. cbn [last]. by destruct (last (r' :: s1)) eqn:E; [|apply last_None in E].
    + intros ([|r' s1] & s2 & y & Hs & Hm).
      * left. cbn in Hs. subst s2. by eapply matcher_complete.
      * right. injection Hs as -> ->. apply IH. exists s1, s2, y. split; [done|].
        destruct s1 as [|r s1]; [done|]. cbn [last] in Hm. by destruct (last (r :: s1)) eqn:E; [|apply last_None in E].
Qed.

(** The search finds a match exactly when there is one somewhere in the text. *)
Theorem MatchString_exact a s : MatchString a s = true ↔
  ∃ s1 s2 y, runes s = s1 ++ s2 ∧ matches_at a (last s1, s2) y.
Proof.
  unfold MatchString. rewrite bool_decide_eq_true, search_exact. split; intros (s1 & s2 & y & Hs & Hm); exists s1, s2, y;
    (split; [done|]); by destruct (last s1).
Qed.

Example find_status : FindSubmatch (RSeqs [RText "status"; RPlus (RClass (fun r => (r =? 58) || is_space r)); RGroup (RSeqs [RClass is_digit; RClass is_digit; RClass is_digit])]) "http status: 4290" = Some "429".
Proof. vm_compute. reflexivity. Qed.
