(* ===== verification/ProviderErrors.v ===== *)
(** Package [pkg/providers], the failures of a model call: errors as the code
    inspects them, the structured [ProviderError] of providererrors, the
    classifier of error_classifier.go, and the keys of model_ref.go; and what
    the classifier decides by its patterns. *)
From S2P Require Import Prelude GoStrings GoText GoRegexp.

Inductive FailoverReason :=
| FailoverAuth | FailoverRateLimit | FailoverBilling | FailoverNetwork | FailoverTimeout | FailoverFormat
| FailoverContextOverflow | FailoverOverloaded | FailoverUnknown.
#[export] Instance FailoverReason_eq : EqDecision FailoverReason.
Proof. solve_decision. Defined.
Definition FailoverReason_text (r : FailoverReason) : string :=
  match r with
  | FailoverAuth => "auth" | FailoverRateLimit => "rate_limit" | FailoverBilling => "billing"
  | FailoverNetwork => "network" | FailoverTimeout => "timeout" | FailoverFormat => "format"
  | FailoverContextOverflow => "context_overflow" | FailoverOverloaded => "overloaded" | FailoverUnknown => "unknown"
  end.
#[export] Instance FailoverReason_countable : Countable FailoverReason.
Proof.
  apply (inj_countable FailoverReason_text (fun s => List.find (fun r => String.eqb (FailoverReason_text r) s)
    [FailoverAuth; FailoverRateLimit; FailoverBilling; FailoverNetwork; FailoverTimeout; FailoverFormat;
     FailoverContextOverflow; FailoverOverloaded; FailoverUnknown])).
  by intros [].
Defined.

Inductive ErrorClassificationSource :=
| ClassificationProviderStructured | ClassificationContextDeadline | ClassificationTransportError
| ClassificationHTTPStatus | ClassificationStatusText | ClassificationMessagePattern | ClassificationLocalControl
| ClassificationUnclassified.

(** ** Structured errors *)

(** A kind is a string; an adapter may give any other text. *)
Inductive Kind :=
| KindUnknown | KindAuthentication | KindBilling | KindRateLimit | KindContextOverflow | KindTimeout | KindCanceled
| KindTransient | KindInvalidRequest | KindNetwork | KindOther (s : string).
Definition Canonical (k : Kind) : Kind := match k with KindOther _ => KindUnknown | _ => k end.

(** The fields that the classification reads. *)
Record ProviderError := mkProviderError { pe_Kind : Kind; pe_HTTPStatus : Z }.

(** ** Errors

    An error is a text and what it answers to [errors.Is] and [errors.As], by
    identity or by a method of its own, with the errors it wraps. *)
Inductive Errno :=
| ECONNRESET | ECONNABORTED | ECONNREFUSED | ETIMEDOUT | EHOSTUNREACH | ENETUNREACH | EPIPE | EAGAIN | EOtherErrno (n : Z).
#[export] Instance Errno_eq : EqDecision Errno.
Proof. solve_decision. Defined.
Inductive Sentinel := Canceled | DeadlineExceeded | EOF | UnexpectedEOF | TheErrno (e : Errno).
#[export] Instance Sentinel_eq : EqDecision Sentinel.
Proof. solve_decision. Defined.

Record ErrorNode := mkNode {
  nd_is : list Sentinel;
  nd_provider : option ProviderError;
  nd_http : option Z; (* [common.HTTPError], its status *)
  nd_net : option bool; (* [net.Error], its [Timeout] *)
  nd_exhausted : option (list (option FailoverReason)) (* [FallbackExhaustedError], the reasons of its attempts *) }.
Inductive GoError := mkError (text : string) (node : ErrorNode) (wraps : list GoError).
Definition error_text (e : GoError) : string := let 'mkError t _ _ := e in t.

(** The first error of the tree that answers, in the order of [errors.As]. *)
Definition first_some {A B} (f : A → option B) : list A → option B :=
  fix go l := match l with [] => None | x :: l => match f x with Some y => Some y | None => go l end end.
Fixpoint errors_as {A} (f : ErrorNode → option A) (e : GoError) : option A :=
  match e with
  | mkError _ node wraps => match f node with Some a => Some a | None => first_some (errors_as f) wraps end
  end.
Definition errors_is (target : Sentinel) (e : GoError) : bool :=
  bool_decide (is_Some (errors_as (fun node => if bool_decide (target ∈ nd_is node) then Some tt else None) e)).

(** The errors of the standard library. *)
Definition plain : ErrorNode := mkNode [] None None None None.
Definition plain_error (text : string) : GoError := mkError text plain [].
Definition wrap_error (text : string) (e : GoError) : GoError := mkError text plain [e].
Definition context_canceled : GoError := mkError "context canceled" (mkNode [Canceled] None None None None) [].
Definition context_deadline : GoError :=
  mkError "context deadline exceeded" (mkNode [DeadlineExceeded] None None (Some true) None) [].
(** [syscall.Errno] has the methods of [net.Error]. *)
Definition errno_timeout (e : Errno) : bool := match e with ETIMEDOUT | EAGAIN => true | _ => false end.
Definition errno_error (text : string) (e : Errno) : GoError :=
  mkError text (mkNode [TheErrno e] None None (Some (errno_timeout e)) None) [].

(** ** Patterns *)

Inductive errorPattern := Substring (s : string) | Pattern (r : regexp).
Definition pattern_matches (msg : string) (p : errorPattern) : bool :=
  match p with Substring s => contains msg s | Pattern r => MatchString r msg end.
Definition matchesAny (msg : string) (patterns : list errorPattern) : bool := existsb (pattern_matches msg) patterns.

Definition RAnyOf (s : string) : regexp := RClass (one_of_runes (runes s)).
Definition RDot : regexp := RStar (RClass not_newline).
Definition RSpaces : regexp := RStar (RClass is_space).
(** [[-_\s]] *)
Definition RJoint : regexp := RClass (fun r => one_of_runes [45; 95] r || is_space r).
Definition digits3 : regexp := RSeqs [RClass is_digit; RClass is_digit; RClass is_digit].
Definition bounded (r : regexp) : regexp := RSeqs [RBoundary; r; RBoundary].

Definition httpStatusPatterns : list regexp :=
  [RSeqs [RText "status"; RPlus (RClass (fun r => (r =? 58) || is_space r)); RGroup digits3];
   RSeqs [RText "http"; RPlus (RClass (fun r => (r =? 47) || is_space r)); RStar (RClass is_digit); ROpt (RText ".");
          RStar (RClass is_digit); RPlus (RClass is_space); RGroup digits3];
   bounded (RGroup (RSeqs [RClass (fun r => (51 <=? r) && (r <=? 53)); RClass is_digit; RClass is_digit]))].

Definition rateLimitPatterns : list errorPattern :=
  [Pattern (RSeqs [RFold "rate"; RAnyOf "_ "; RFold "limit"]);
   Substring "too many requests"; Substring "429"; Substring "exceeded your current quota";
   Pattern (RSeqs [RFold "exceeded"; RDot; RFold "quota"]);
   Pattern (RFold "resource has been exhausted");
   Pattern (RSeqs [RFold "resource"; RDot; RFold "exhausted"]);
   Substring "resource_exhausted"; Substring "quota exceeded"; Substring "usage limit"].
Definition overloadedPatterns : list errorPattern :=
  [Pattern (RFold "overloaded_error");
   Pattern (RSeqs [RClass (rune_is 34); RFold "type"; RClass (rune_is 34); RSpaces; RText ":"; RSpaces; RClass (rune_is 34);
                   RFold "overloaded_error"; RClass (rune_is 34)]);
   Substring "overloaded"].
Definition serverErrorPatterns : list errorPattern :=
  [Pattern (RSeqs [RFold "server"; RAnyOf "_ "; RFold "error"]);
   Pattern (RSeqs [RFold "internal"; RAnyOf "_ "; RFold "server"; RAnyOf "_ "; RFold "error"]);
   Substring "servererror"; Substring "bad gateway"; Substring "service unavailable"; Substring "gateway timeout"].
Definition timeoutPatterns : list errorPattern :=
  [Substring "timeout"; Substring "timed out"; Substring "deadline exceeded"; Substring "context deadline exceeded"].
Definition networkPatterns : list errorPattern :=
  Substring <$> ["connection reset"; "reset by peer"; "connection refused"; "connection aborted"; "broken pipe";
    "use of closed network connection"; "network is unreachable"; "host is unreachable"; "no such host";
    "temporary failure in name resolution"; "server misbehaving"; "read tcp"; "write tcp"; "dial tcp"; "tls:"; "x509:";
    "certificate"; "handshake"; "unexpected eof"; "read: eof"; "write: eof"].
Definition billingPatterns : list errorPattern :=
  [Pattern (bounded (RFold "402")); Substring "payment required"; Substring "insufficient credits";
   Substring "credit balance"; Substring "plans & billing"; Substring "insufficient balance"].
Definition wrong_word : regexp := RAlts [RFold "invalid"; RFold "incorrect"; RFold "malformed"; RFold "wrong"].
Definition api_prefix : regexp := ROpt (RSeq (RFold "api") (RStar RJoint)).
Definition authPatterns : list errorPattern :=
  [Pattern (RSeqs [RBoundary; wrong_word; RPlus RJoint; api_prefix; RFold "key"; RBoundary]);
   Pattern (RSeqs [RBoundary; api_prefix; RFold "key"; RPlus RJoint; ROpt (RSeq (RFold "is") (RPlus RJoint)); wrong_word; RBoundary]);
   Pattern (RSeqs [RFold "invalid"; ROpt (RAnyOf "_ "); RFold "api"; ROpt (RAnyOf "_ "); RFold "key"]);
   Substring "incorrect api key"; Substring "invalid token"; Substring "authentication"; Substring "re-authenticate";
   Substring "oauth token refresh failed"; Substring "unauthorized"; Substring "forbidden"; Substring "access denied";
   Substring "expired"; Substring "token has expired";
   Pattern (bounded (RFold "401")); Pattern (bounded (RFold "403"));
   Substring "no credentials found"; Substring "no api key found"].
Definition formatPatterns : list errorPattern :=
  Substring <$> ["string should match pattern"; "tool_use.id"; "tool_use_id"; "messages.1.content.1.tool_use.id";
    "invalid request format"; "error code: 1210"; "error code 1210"; "zhipu api error code: 1210"; "unsupported image";
    "unsupported media"; "unsupported file"; "unsupported format"; "image format"; "invalid image"].
Definition contextOverflowPatterns : list errorPattern :=
  [Pattern (RSeqs [RFold "context"; ROpt (RAnyOf "_ "); RFold "length"; ROpt (RAnyOf "_ "); RFold "exceeded"]);
   Pattern (RSeqs [RFold "context"; ROpt (RAnyOf "_ "); RFold "window"; ROpt (RAnyOf "_ "); RFold "exceeded"]);
   Substring "maximum context length"; Substring "token limit"; Substring "too many tokens";
   Substring "prompt is too long"; Substring "request too large"].
Definition imageDimensionPatterns : list errorPattern := [Pattern (RFold "image dimensions exceed max")].
Definition imageSizePatterns : list errorPattern := [Pattern (RSeqs [RFold "image exceeds"; RDot; RFold "mb"])].

(** ** Classification *)

Definition transientStatusCodes : list Z := [500; 502; 503; 521; 522; 523; 524; 529].
Definition classifyByStatus (status : Z) : option FailoverReason :=
  if (status =? 401) || (status =? 403) then Some FailoverAuth
  else if status =? 402 then Some FailoverBilling
  else if status =? 408 then Some FailoverTimeout
  else if status =? 429 then Some FailoverRateLimit
  else if status =? 400 then Some FailoverFormat
  else if existsb (Z.eqb status) transientStatusCodes then Some FailoverTimeout
  else None.

Definition classifyByMessage (msg : string) : option FailoverReason :=
  if matchesAny msg rateLimitPatterns then Some FailoverRateLimit
  else if matchesAny msg overloadedPatterns then Some FailoverRateLimit
  else if matchesAny msg billingPatterns then Some FailoverBilling
  else if matchesAny msg serverErrorPatterns then Some FailoverTimeout
  else if matchesAny msg timeoutPatterns then Some FailoverTimeout
  else if matchesAny msg networkPatterns then Some FailoverNetwork
  else if matchesAny msg authPatterns then Some FailoverAuth
  else if matchesAny msg formatPatterns then Some FailoverFormat
  else if matchesAny msg contextOverflowPatterns then Some FailoverContextOverflow
  else None.
Definition classifyBadRequestMessage (msg : string) : FailoverReason :=
  if matchesAny msg contextOverflowPatterns then FailoverContextOverflow
  else if matchesAny msg rateLimitPatterns then FailoverRateLimit
  else if matchesAny msg billingPatterns then FailoverBilling
  else if matchesAny msg authPatterns then FailoverAuth
  else FailoverFormat.

Definition parseDigits (s : string) : Z :=
  foldl (fun n c => if is_digit c then n * 10 + (c - 48) else n) 0 (runes s).
Fixpoint first_status (patterns : list regexp) (msg : string) : Z :=
  match patterns with
  | [] => 0
  | p :: patterns => match FindSubmatch p msg with Some m => parseDigits m | None => first_status patterns msg end
  end.
Definition extractHTTPStatus (msg : string) : Z := first_status httpStatusPatterns msg.

Definition IsImageDimensionError (msg : string) : bool := matchesAny msg imageDimensionPatterns.
Definition IsImageSizeError (msg : string) : bool := matchesAny msg imageSizePatterns.

Record FailoverError := mkFailover {
  fo_Reason : FailoverReason; fo_Provider : string; fo_Model : string; fo_Status : Z;
  fo_Source : ErrorClassificationSource; fo_Wrapped : GoError }.
Definition IsRetriable (e : FailoverError) : bool :=
  match fo_Reason e with FailoverAuth | FailoverFormat | FailoverContextOverflow => false | _ => true end.

Definition classifyProviderError (p : ProviderError) (wrapped : GoError) (provider model : string) : option FailoverError :=
  let reason :=
    match Canonical (pe_Kind p) with
    | KindAuthentication => Some FailoverAuth
    | KindBilling => Some FailoverBilling
    | KindRateLimit => Some FailoverRateLimit
    | KindContextOverflow => Some FailoverContextOverflow
    | KindTimeout | KindTransient => Some FailoverTimeout
    | KindNetwork => Some FailoverNetwork
    | KindInvalidRequest => Some FailoverFormat
    | KindCanceled => None
    | KindUnknown => classifyByStatus (pe_HTTPStatus p)
    | KindOther _ => None
    end in
  reason ← reason;
  Some (mkFailover reason provider model (pe_HTTPStatus p) ClassificationProviderStructured wrapped).

Definition transportErrors : list Errno :=
  [ECONNRESET; ECONNABORTED; ECONNREFUSED; ETIMEDOUT; EHOSTUNREACH; ENETUNREACH; EPIPE].
Definition classifyByErrorType (e : GoError) : option FailoverReason :=
  if errors_is EOF e || errors_is UnexpectedEOF e then Some FailoverNetwork else
  match List.find (fun t => errors_is (TheErrno t) e) transportErrors with
  | Some t => Some (if bool_decide (t = ETIMEDOUT) then FailoverTimeout else FailoverNetwork)
  | None =>
      match errors_as nd_net e with
      | Some timeout => Some (if timeout then FailoverTimeout else FailoverNetwork)
      | None => None
      end
  end.

Section case.
Context `{UnicodeCase}.

(** The reason and the source behind a status that has one. *)
Definition refine_status (status : Z) (source : ErrorClassificationSource) (reason : FailoverReason) (msg : string) :
  FailoverReason * ErrorClassificationSource :=
  if status =? 400 then
    let refined := classifyBadRequestMessage msg in
    if bool_decide (refined = reason) then (reason, source) else (refined, ClassificationMessagePattern)
  else (reason, source).

Definition ClassifyError (err : GoError) (provider model : string) : option FailoverError :=
  let failover reason status source := Some (mkFailover reason provider model status source err) in
  match errors_as nd_provider err with
  | Some p => classifyProviderError p err provider model
  | None =>
      if errors_is Canceled err then None
      else if errors_is DeadlineExceeded err then failover FailoverTimeout 0 ClassificationContextDeadline
      else
      let msg := to_lower (error_text err) in
      match classifyByErrorType err with
      | Some reason => failover reason 0 ClassificationTransportError
      | None =>
          if IsImageDimensionError msg || IsImageSizeError msg then failover FailoverFormat 0 ClassificationMessagePattern
          else
          let by_message :=
            match classifyByMessage msg with
            | Some reason => failover reason 0 ClassificationMessagePattern
            | None => None
            end in
          let by_text :=
            let status := extractHTTPStatus msg in
            if 0 <? status then
              match classifyByStatus status with
              | Some reason => let '(reason, source) := refine_status status ClassificationStatusText reason msg in
                               failover reason status source
              | None => by_message
              end
            else by_message in
          match errors_as nd_http err with
          | Some status =>
              match classifyByStatus status with
              | Some reason => let '(reason, source) := refine_status status ClassificationHTTPStatus reason msg in
                               failover reason status source
              | None => by_text
              end
          | None => by_text
          end
      end
  end.

(** ** Keys *)

(** The provider catalogue: each name with its aliases. *)
Definition modelProviderAliases : list (string * list string) :=
  [("openai", ["gpt"]); ("anthropic", ["claude"]); ("anthropic-messages", []); ("gemini", ["google"]); ("deepseek", []);
   ("openrouter", []); ("qwen-portal", ["qwen"]); ("qwen-intl", ["qwen-international"; "dashscope-intl"]);
   ("moonshot", []); ("volcengine", []); ("zhipu", ["glm"]); ("groq", []); ("mistral", []); ("nvidia", []);
   ("cerebras", []); ("azure", ["azure-openai"]); ("bedrock", []); ("github-copilot", ["copilot"]);
   ("antigravity", ["google-antigravity"]); ("claude-cli", ["claudecli"]); ("codex-cli", ["codexcli"]); ("ollama", []);
   ("vllm", []); ("lmstudio", []); ("gpt4free", ["g4f"]); ("elevenlabs", []); ("venice", []);
   ("nearai", ["near-ai"; "near-ai-cloud"]); ("shengsuanyun", []); ("siliconflow", []); ("vivgrid", []);
   ("minimax", []); ("longcat", []); ("modelscope", []); ("mimo", []); ("avian", []); ("zai", ["z.ai"; "z-ai"]);
   ("alibaba-coding", ["coding-plan"; "qwen-coding"]); ("alibaba-coding-anthropic", ["coding-plan-anthropic"]);
   ("novita", []); ("litellm", []); ("qwen-us", ["dashscope-us"])].
Definition NormalizeProvider (provider : string) : string :=
  let normalized := to_lower (trim_space provider) in
  if String.eqb normalized "" then ""
  else match List.find (fun p => String.eqb p.1 normalized
                                 || existsb (fun alias => String.eqb (to_lower (trim_space alias)) normalized) p.2)
               modelProviderAliases with
       | Some p => p.1
       | None => normalized
       end.
Definition ModelKey (provider model : string) : string :=
  NormalizeProvider provider +:+ "/" +:+ to_lower (trim_space model).
End case.

(** * The patterns

    What the error classifier decides by its patterns. *)

(** ** Patterns, declaratively *)

Definition pattern_occurs (msg : string) (p : errorPattern) : Prop :=
  match p with
  | Substring s => ∃ pre, occurs s msg pre
  | Pattern r => ∃ s1 s2 y, runes msg = s1 ++ s2 ∧ matches_at r (last s1, s2) y
  end.
Definition group_occurs (msg : string) (ps : list errorPattern) : Prop := ∃ p, p ∈ ps ∧ pattern_occurs msg p.

Lemma pattern_matches_exact msg p : pattern_matches msg p = true ↔ pattern_occurs msg p.
Proof. destruct p as [s|r]; [apply contains_spec|apply MatchString_exact]. Qed.
Lemma matchesAny_exact msg ps : matchesAny msg ps = true ↔ group_occurs msg ps.
Proof.
  unfold matchesAny, group_occurs. rewrite existsb_exists. split; intros (p & Hp & Hm); exists p;
    rewrite list_elem_of_In in *; by rewrite pattern_matches_exact in *.
Qed.

(** The groups of patterns in the order of their priority. *)
Definition message_groups : list (list errorPattern * FailoverReason) :=
  [(rateLimitPatterns, FailoverRateLimit); (overloadedPatterns, FailoverRateLimit); (billingPatterns, FailoverBilling);
   (serverErrorPatterns, FailoverTimeout); (timeoutPatterns, FailoverTimeout); (networkPatterns, FailoverNetwork);
   (authPatterns, FailoverAuth); (formatPatterns, FailoverFormat); (contextOverflowPatterns, FailoverContextOverflow)].
Fixpoint first_group (msg : string) (gs : list (list errorPattern * FailoverReason)) : option FailoverReason :=
  match gs with [] => None | (ps, r) :: gs => if matchesAny msg ps then Some r else first_group msg gs end.
Lemma classifyByMessage_groups msg : classifyByMessage msg = first_group msg message_groups.
Proof. reflexivity. Qed.

Lemma first_group_exact msg gs r : first_group msg gs = Some r ↔
  ∃ pre ps post, gs = pre ++ (ps, r) :: post ∧ group_occurs msg ps ∧ ∀ g, g ∈ pre → ¬ group_occurs msg g.1.
Proof.
  induction gs as [|[ps r'] gs IH]; cbn.
  { split; [done|]. by intros ([] & ? & ? & ? & _). }
  destruct (matchesAny msg ps) eqn:E.
  - apply matchesAny_exact in E. split.
    + intros [= <-]. exists [], ps, gs. split_and!; [done|done|]. by intros g ?%elem_of_nil.
    + intros ([|g pre] & ps' & post & Hl & Ho & Hn); injection Hl; intros; subst; [done|]. by destruct (Hn (ps, r')); [left|].
  - assert (Hno : ¬ group_occurs msg ps) by (rewrite <- matchesAny_exact; congruence). rewrite IH. split.
    + intros (pre & ps' & post & -> & Ho & Hn). exists ((ps, r') :: pre), ps', post. split_and!; [done|done|].
      intros g [->|Hg]%elem_of_cons; [done|by apply Hn].
    + intros ([|g pre] & ps' & post & Hl & Ho & Hn); injection Hl; intros; subst; [done|].
      exists pre, ps', post. split_and!; [done|done|]. intros g Hg. apply Hn. by right.
Qed.

(** The classification of a message by its text is that of the first group
    of patterns, in the order of their priority, of which a member occurs in
    the text: a substring occurs, or an expression matches at some position of
    the text; and it is none exactly when no member of any group does. *)
Theorem classifyByMessage_exact msg r :
  (classifyByMessage msg = Some r ↔
    ∃ pre ps post, message_groups = pre ++ (ps, r) :: post ∧ group_occurs msg ps ∧ ∀ g, g ∈ pre → ¬ group_occurs msg g.1)
  ∧ (classifyByMessage msg = None ↔ ∀ g, g ∈ message_groups → ¬ group_occurs msg g.1).
Proof.
  rewrite classifyByMessage_groups. split; [apply first_group_exact|].
  generalize message_groups as gs. intros gs. induction gs as [|[ps r'] gs IH]; cbn [first_group].
  { split; [|done]. by intros _ g ?%elem_of_nil. }
  destruct (matchesAny msg ps) eqn:E.
  - split; [done|]. intros Hn. destruct (Hn (ps, r')); [by left|]. by apply matchesAny_exact.
  - rewrite IH. split.
    + intros Hn g [->|Hg]%elem_of_cons; [|by apply Hn]. rewrite <- matchesAny_exact. cbn [fst]. congruence.
    + intros Hn g Hg. apply Hn. by right.
Qed.

(** ** Errors of the operating system *)

Section case.
Context `{UnicodeCase}.

(** Any error number of the operating system counts as a network failure:
    wrapped in a text that says otherwise, a missing file sends the call to the
    next candidate. *)
Theorem any_errno_is_network text text' n provider model :
  ClassifyError (wrap_error text (errno_error text' (EOtherErrno n))) provider model =
  Some (mkFailover FailoverNetwork provider model 0 ClassificationTransportError
          (wrap_error text (errno_error text' (EOtherErrno n)))).
Proof. reflexivity. Qed.
End case.
