(* ===== verification/Cooldown.v ===== *)
(** Package [pkg/providers], cooldown.go: how long a provider that failed is
    left alone; and that the tracker says of each provider what its history of
    reports says. *)
From S2P Require Import Prelude GoStrings GoTime GoRegexp ProviderErrors.

Definition defaultFailureWindow : Z := 24 * hour.

Record cooldownEntry := mkEntry {
  en_ErrorCount : Z;
  en_FailureCounts : gmap FailoverReason Z;
  en_CooldownEnd : Time;
  en_DisabledUntil : Time;
  en_DisabledReason : option FailoverReason;
  en_LastFailure : Time }.
#[export] Instance eta_cooldownEntry : Eta cooldownEntry := fun e =>
  mkEntry (en_ErrorCount e) (en_FailureCounts e) (en_CooldownEnd e) (en_DisabledUntil e) (en_DisabledReason e)
    (en_LastFailure e).
Record CooldownTracker := mkTracker { ct_entries : gmap string cooldownEntry; ct_failureWindow : Z }.
#[export] Instance eta_CooldownTracker : Eta CooldownTracker := fun c => mkTracker (ct_entries c) (ct_failureWindow c).

Definition NewCooldownTracker : CooldownTracker := mkTracker ∅ defaultFailureWindow.
Definition new_entry : cooldownEntry := mkEntry 0 ∅ zero_time zero_time None zero_time.
Definition getOrCreate (provider : string) (c : CooldownTracker) : cooldownEntry :=
  default new_entry (ct_entries c !! provider).

(** The powers are exact as floats: the exponents are at most 3 and 10. *)
Definition calculateStandardCooldown (errorCount : Z) : Z :=
  let n := Z.max 1 errorCount in
  let exp := Z.min (n - 1) 3 in
  let ms := Z.min 3600000 (60000 * 5 ^ exp) in
  ms * 1000000.
Definition calculateBillingCooldown (billingErrorCount : Z) : Z :=
  let baseMs := 5 * 60 * 60 * 1000 in
  let maxMs := 24 * 60 * 60 * 1000 in
  let n := Z.max 1 billingErrorCount in
  let exp := Z.min (n - 1) 10 in
  Z.min maxMs (baseMs * 2 ^ exp) * 1000000.

Definition failure_count (e : cooldownEntry) (reason : FailoverReason) : Z := default 0 (en_FailureCounts e !! reason).

Definition mark_failure (window : Z) (now : Time) (reason : FailoverReason) (e : cooldownEntry) : cooldownEntry :=
  let e := if negb (IsZero (en_LastFailure e)) && (window <? Sub now (en_LastFailure e))
           then e <| en_ErrorCount := 0 |> <| en_FailureCounts := ∅ |> else e in
  let e := e <| en_ErrorCount ::= fun n => n + 1 |> <| en_FailureCounts := <[reason := failure_count e reason + 1]> (en_FailureCounts e) |>
             <| en_LastFailure := now |> in
  match reason with
  | FailoverBilling =>
      e <| en_DisabledUntil := Add now (calculateBillingCooldown (failure_count e FailoverBilling)) |>
        <| en_DisabledReason := Some FailoverBilling |>
  | _ => e <| en_CooldownEnd := Add now (calculateStandardCooldown (en_ErrorCount e)) |>
  end.
Definition MarkFailure (now : Time) (provider : string) (reason : FailoverReason) (c : CooldownTracker) : CooldownTracker :=
  c <| ct_entries ::= <[provider := mark_failure (ct_failureWindow c) now reason (getOrCreate provider c)]> |>.

Definition mark_success (e : cooldownEntry) : cooldownEntry :=
  e <| en_ErrorCount := 0 |> <| en_FailureCounts := ∅ |> <| en_CooldownEnd := zero_time |>
    <| en_DisabledUntil := zero_time |> <| en_DisabledReason := None |>.
Definition MarkSuccess (provider : string) (c : CooldownTracker) : CooldownTracker :=
  match ct_entries c !! provider with
  | None => c
  | Some e => c <| ct_entries ::= <[provider := mark_success e]> |>
  end.

Definition until (now limit : Time) : bool := negb (IsZero limit) && Before now limit.
Definition IsAvailable (now : Time) (provider : string) (c : CooldownTracker) : bool :=
  match ct_entries c !! provider with
  | None => true
  | Some e => if until now (en_DisabledUntil e) then false else negb (until now (en_CooldownEnd e))
  end.
Definition CooldownRemaining (now : Time) (provider : string) (c : CooldownTracker) : Z :=
  match ct_entries c !! provider with
  | None => 0
  | Some e =>
      let longer remaining limit := if until now limit then Z.max remaining (Sub limit now) else remaining in
      longer (longer 0 (en_DisabledUntil e)) (en_CooldownEnd e)
  end.
Definition ErrorCount (provider : string) (c : CooldownTracker) : Z :=
  match ct_entries c !! provider with None => 0 | Some e => en_ErrorCount e end.
Definition FailureCount (provider : string) (reason : FailoverReason) (c : CooldownTracker) : Z :=
  match ct_entries c !! provider with None => 0 | Some e => failure_count e reason end.

(** What callers report, and a history of reports, the latest first. *)
Inductive Report := Failed (reason : FailoverReason) | Succeeded.
Abbreviation history := (list (Time * Report)).
Definition report (c : CooldownTracker) (x : string * (Time * Report)) : CooldownTracker :=
  match x.2.2 with
  | Failed reason => MarkFailure x.2.1 x.1 reason c
  | Succeeded => MarkSuccess x.1 c
  end.
Definition report_all (c : CooldownTracker) (l : list (string * (Time * Report))) : CooldownTracker := foldl report c l.

(** ** The reference: counting over the history of one provider *)

(** The failures since the last success, as far back as no two of them are
    further apart than the window. *)
Fixpoint recent (window : Z) (h : history) : list FailoverReason :=
  match h with
  | (t, Failed reason) :: h' =>
      reason :: match h' with
                | (t', Failed _) :: _ => if window <? t_ns t - t_ns t' then [] else recent window h'
                | _ => []
                end
  | _ => []
  end.
Definition count_of (reason : FailoverReason) (l : list FailoverReason) : Z :=
  Z.of_nat (length (filter (fun r => r = reason) l)).
(** The back-off of the latest failure. *)
Definition backoff (window : Z) (reason : FailoverReason) (h : history) : Z :=
  let l := recent window h in
  match reason with
  | FailoverBilling => calculateBillingCooldown (count_of FailoverBilling l)
  | _ => calculateStandardCooldown (Z.of_nat (length l))
  end.
(** Some failure since the last success still holds the provider back. *)
Fixpoint held_back (window : Z) (h : history) (now : Time) : bool :=
  match h with
  | (t, Failed reason) :: h' => (t_ns now <? t_ns t + backoff window reason h) || held_back window h' now
  | _ => false
  end.
(** The reports on one provider. *)
Definition reports_on (provider : string) (l : list (string * (Time * Report))) : history :=
  snd <$> filter (fun x => x.1 = provider) l.

(** * The tracker and the history

    The cooldown tracker says of each provider what its history of reports
    says. *)

Abbreviation window := defaultFailureWindow (only parsing).
Implicit Types (e : cooldownEntry) (h : history) (c : CooldownTracker) (t now : Time) (r : FailoverReason).

(** ** The back-offs *)

Lemma standard_mono n m : n ≤ m → calculateStandardCooldown n ≤ calculateStandardCooldown m.
Proof.
  intros Hn. unfold calculateStandardCooldown. cbv zeta.
  assert (5 ^ Z.min (Z.max 1 n - 1) 3 ≤ 5 ^ Z.min (Z.max 1 m - 1) 3) by (apply Z.pow_le_mono_r; lia). lia.
Qed.
Lemma standard_bounds n : minute ≤ calculateStandardCooldown n ≤ hour.
Proof.
  unfold calculateStandardCooldown, hour, minute. cbv zeta.
  assert (5 ^ 0 ≤ 5 ^ Z.min (Z.max 1 n - 1) 3) by (apply Z.pow_le_mono_r; lia). lia.
Qed.
Lemma billing_mono n m : n ≤ m → calculateBillingCooldown n ≤ calculateBillingCooldown m.
Proof.
  intros Hn. unfold calculateBillingCooldown. cbv zeta.
  assert (2 ^ Z.min (Z.max 1 n - 1) 10 ≤ 2 ^ Z.min (Z.max 1 m - 1) 10) by (apply Z.pow_le_mono_r; lia). lia.
Qed.
Lemma billing_bounds n : 5 * hour ≤ calculateBillingCooldown n ≤ 24 * hour.
Proof.
  unfold calculateBillingCooldown, hour, minute. cbv zeta.
  assert (2 ^ 0 ≤ 2 ^ Z.min (Z.max 1 n - 1) 10) by (apply Z.pow_le_mono_r; lia). lia.
Qed.

(** ** Histories *)

(** The clock does not run backwards, and is past the zero time. *)
Fixpoint clocked h : Prop :=
  match h with
  | [] => True
  | (t, _) :: h' => 0 < t_ns t ∧ (match h' with (t', _) :: _ => t_ns t' ≤ t_ns t | [] => True end) ∧ clocked h'
  end.
Fixpoint last_failure h : Z :=
  match h with [] => 0 | (t, Failed _) :: _ => t_ns t | (_, Succeeded) :: h' => last_failure h' end.
Definition is_billing r : bool := bool_decide (r = FailoverBilling).
(** When the failures since the last success stop holding the provider back. *)
Fixpoint ends (billing : bool) h : list Z :=
  match h with
  | (t, Failed r) :: h' =>
      (if Bool.eqb (is_billing r) billing then [t_ns t + backoff window r h] else []) ++ ends billing h'
  | _ => []
  end.

Lemma last_failure_le h : clocked h → 0 ≤ last_failure h ∧ match h with (t, _) :: _ => last_failure h ≤ t_ns t | [] => True end.
Proof.
  induction h as [|[t [r|]] h IH]; cbn; [done|lia|]. intros (Hp & Ht & Hc). destruct (IH Hc) as [H0 H1]. split; [done|].
  destruct h as [|[t' x] h]; [cbn; lia|]. lia.
Qed.

Lemma held_back_ends h now : held_back window h now = existsb (Z.ltb (t_ns now)) (ends false h ++ ends true h).
Proof.
  induction h as [|[t [r|]] h IH]; [done| |done]. cbn [held_back ends]. rewrite IH. unfold is_billing.
  destruct (bool_decide (r = FailoverBilling)); cbn [Bool.eqb]; cbn [app existsb]; [|done].
  rewrite !existsb_app. cbn [existsb]. destruct (existsb _ (ends false h)), (existsb _ (ends true h)), (_ <? _); done.
Qed.

(** The latest end, zero when there is none. *)
Definition latest (l : list Z) (z : Z) : Prop := (l = [] ∧ z = 0) ∨ (z ∈ l ∧ ∀ x, x ∈ l → x ≤ z).
Lemma latest_existsb l z now : latest l z → 0 ≤ t_ns now → existsb (Z.ltb (t_ns now)) l = (t_ns now <? z).
Proof.
  intros [[-> ->]|[Hin Hle]] Hnow; cbn; [lia|]. destruct (t_ns now <? z) eqn:E.
  - apply existsb_exists. exists z. split; [by apply list_elem_of_In|done].
  - apply not_true_iff_false. intros (x & Hx & Hlt)%existsb_exists. apply list_elem_of_In, Hle in Hx. lia.
Qed.
Lemma latest_cons x l z : latest l z → z ≤ x → latest (x :: l) x.
Proof.
  intros Hl Hz. right. split; [by left|]. intros y [->|Hy]%elem_of_cons; [done|].
  destruct Hl as [[-> _]|[_ Hle]]; [by apply elem_of_nil in Hy|]. specialize (Hle y Hy). lia.
Qed.

(** ** The entry of one provider *)

Record tracks e h : Prop := {
  tk_count : en_ErrorCount e = Z.of_nat (length (recent window h));
  tk_counts : ∀ r, failure_count e r = count_of r (recent window h);
  tk_last : t_ns (en_LastFailure e) = last_failure h;
  tk_standard : latest (ends false h) (t_ns (en_CooldownEnd e));
  tk_billing : latest (ends true h) (t_ns (en_DisabledUntil e));
  tk_standard_le : t_ns (en_CooldownEnd e) ≤ last_failure h + calculateStandardCooldown (en_ErrorCount e);
  tk_billing_le : t_ns (en_DisabledUntil e) ≤ last_failure h + calculateBillingCooldown (failure_count e FailoverBilling) }.

Lemma count_of_cons r r' l : count_of r (r' :: l) = count_of r l + (if decide (r' = r) then 1 else 0).
Proof. unfold count_of. rewrite filter_cons. case_decide; cbn; lia. Qed.
Lemma count_of_nonneg r l : 0 ≤ count_of r l.
Proof. unfold count_of. lia. Qed.

Lemma tracks_new : tracks new_entry [].
Proof.
  by constructor; cbn; try done; left.
Qed.

Lemma tracks_success e h t : clocked h → tracks e h → tracks (mark_success e) ((t, Succeeded) :: h).
Proof.
  intros Hc [H1 H2 H3 H4 H5 H6 H7]. destruct (last_failure_le h Hc) as [Hl _]. constructor; cbn; try done; try (by left).
  - pose proof (standard_bounds 0). unfold minute in *. lia.
  - pose proof (billing_bounds (failure_count (mark_success e) FailoverBilling)). unfold hour, minute in *. lia.
Qed.

(** The failures that count when the next one comes at [t]. *)
Definition carried h t : list FailoverReason :=
  match h with
  | (t', Failed _) :: _ => if window <? t_ns t - t_ns t' then [] else recent window h
  | _ => []
  end.
Lemma recent_failed t r h : recent window ((t, Failed r) :: h) = r :: carried h t.
Proof. by destruct h as [|[t' [r'|]] h]. Qed.

Lemma carried_entry e h t r : tracks e h → 0 < t_ns t → last_failure h ≤ t_ns t → clocked h →
  let e' := if negb (IsZero (en_LastFailure e)) && (window <? Sub t (en_LastFailure e))
            then e <| en_ErrorCount := 0 |> <| en_FailureCounts := ∅ |> else e in
  en_ErrorCount e' = Z.of_nat (length (carried h t)) ∧ (∀ r, failure_count e' r = count_of r (carried h t)) ∧
  en_CooldownEnd e' = en_CooldownEnd e ∧ en_DisabledUntil e' = en_DisabledUntil e ∧
  (t_ns (en_CooldownEnd e) ≤ t_ns t + calculateStandardCooldown (Z.of_nat (length (carried h t)) + 1)) ∧
  (t_ns (en_DisabledUntil e) ≤ t_ns t + calculateBillingCooldown (count_of FailoverBilling (carried h t))).
Proof.
  intros [H1 H2 H3 H4 H5 H6 H7] Ht Hle Hc e'. unfold e', IsZero, Sub. clear e'. rewrite H3.
  pose proof (standard_bounds (en_ErrorCount e)) as Hs. pose proof (billing_bounds (failure_count e FailoverBilling)) as Hb.
  destruct (negb (last_failure h =? 0) && _) eqn:E.
  - (* the gap is longer than the window *)
    apply andb_true_iff in E as [E0 E]. assert (Hgap : window < t_ns t - last_failure h) by (unfold max_duration, defaultFailureWindow, hour, minute in *; lia).
    assert (carried h t = []) as ->.
    { unfold carried. destruct h as [|[t' [r'|]] h]; [done| |done]. cbn in Hgap. by rewrite (proj2 (Z.ltb_lt _ _) Hgap). }
    pose proof (standard_bounds 1) as Hs1. pose proof (billing_bounds 1) as Hb1.
    change (calculateBillingCooldown (count_of FailoverBilling [])) with (calculateBillingCooldown 1). change (Z.of_nat (length (@nil FailoverReason)) + 1) with 1.
    unfold defaultFailureWindow, hour, minute in *. split_and!; try done; lia.
  - assert (Hcar : carried h t = recent window h).
    { unfold carried. destruct h as [|[t' [r'|]] h]; [done| |done]. cbn [last_failure] in E. destruct Hc as [Hpos _].
      destruct (window <? t_ns t - t_ns t') eqn:E'; [|done]. exfalso. unfold max_duration, defaultFailureWindow, hour, minute in *. lia. }
    rewrite Hcar, <- H1. split_and!; try done.
    + etransitivity; [exact H6|]. pose proof (standard_mono (en_ErrorCount e) (en_ErrorCount e + 1)). lia.
    + etransitivity; [exact H7|]. rewrite H2. lia.
Qed.

(** The entry after the window was looked at, and after a failure. *)
Definition in_window e t : cooldownEntry :=
  if negb (IsZero (en_LastFailure e)) && (window <? Sub t (en_LastFailure e))
  then e <| en_ErrorCount := 0 |> <| en_FailureCounts := ∅ |> else e.
Lemma mark_failure_fields e t r : let e' := in_window e t in let m := mark_failure window t r e in
  en_ErrorCount m = en_ErrorCount e' + 1 ∧
  (∀ x, failure_count m x = failure_count e' x + (if decide (r = x) then 1 else 0)) ∧
  en_LastFailure m = t ∧
  en_CooldownEnd m = (if is_billing r then en_CooldownEnd e' else Add t (calculateStandardCooldown (en_ErrorCount e' + 1))) ∧
  en_DisabledUntil m = (if is_billing r then Add t (calculateBillingCooldown (failure_count e' FailoverBilling + 1))
                        else en_DisabledUntil e').
Proof.
  intros e' m. unfold m, mark_failure. fold (in_window e t). fold e'. clearbody e'. clear m.
  assert (Hc : ∀ x, default 0 (<[r := failure_count e' r + 1]> (en_FailureCounts e') !! x) =
    failure_count e' x + (if decide (r = x) then 1 else 0)).
  { intros x. case_decide as Hx; [subst x; by rewrite lookup_insert_eq|]. rewrite lookup_insert_ne by done.
    unfold failure_count. lia. }
  destruct r; (split_and!; [done|exact Hc|done|done|]); try done.
  cbn. unfold failure_count at 1. cbn. by rewrite lookup_insert_eq.
Qed.

Lemma tracks_failure e h t r : clocked ((t, Failed r) :: h) → tracks e h →
  tracks (mark_failure window t r e) ((t, Failed r) :: h).
Proof.
  intros (Ht & Hle & Hc) He. assert (Hlf : last_failure h ≤ t_ns t).
  { destruct (last_failure_le h Hc) as [_ Hl]. destruct h as [|[t' x] h]; [cbn; lia|lia]. }
  destruct (carried_entry e h t r He Ht Hlf Hc) as (K1 & K2 & K3 & K4 & K5 & K6). fold (in_window e t) in K1, K2, K3, K4.
  destruct (mark_failure_fields e t r) as (F1 & F2 & F3 & F4 & F5). destruct He as [_ _ _ H4 H5 _ _].
  set (m := mark_failure window t r e) in *. set (e' := in_window e t) in *. clearbody m e'.
  assert (Hn : Z.of_nat (length (recent window ((t, Failed r) :: h))) = en_ErrorCount e' + 1) by (rewrite recent_failed, K1; cbn; lia).
  assert (Hr : ∀ x, count_of x (recent window ((t, Failed r) :: h)) = failure_count m x).
  { intros x. by rewrite recent_failed, count_of_cons, F2, K2. }
  assert (Hends : ∀ b, ends b ((t, Failed r) :: h) =
    (if Bool.eqb (is_billing r) b then [t_ns t + backoff window r ((t, Failed r) :: h)] else []) ++ ends b h) by done.
  rewrite <- K1 in K5. rewrite <- K2 in K6.
  pose proof (standard_bounds (en_ErrorCount e' + 1)). pose proof (billing_bounds (failure_count m FailoverBilling)).
  unfold is_billing in *. destruct (decide (r = FailoverBilling)) as [->|Hb].
  - assert (Hbm : failure_count m FailoverBilling = failure_count e' FailoverBilling + 1) by (by rewrite F2; destruct (decide _)).
    rewrite <- Hbm in F5. rewrite bool_decide_eq_true_2 in F4, F5 by done. constructor; rewrite ?Hends; cbn [bool_decide decide_rel Bool.eqb app last_failure]; rewrite ?F1, ?F3, ?F4, ?F5; try done.
    + change (latest (ends false h) (t_ns (en_CooldownEnd e'))). by rewrite K3.
    + unfold backoff. rewrite Hr. apply latest_cons with (z := t_ns (en_DisabledUntil e)); [done|].
      pose proof (billing_mono (failure_count e' FailoverBilling) (failure_count m FailoverBilling)). cbn. lia.
    + change (t_ns (en_CooldownEnd e') ≤ t_ns t + calculateStandardCooldown (en_ErrorCount e' + 1)). by rewrite K3.
  - rewrite bool_decide_eq_false_2 in F4, F5 by done.
    assert (Hbk : backoff window r ((t, Failed r) :: h) = calculateStandardCooldown (en_ErrorCount e' + 1)).
    { unfold backoff. rewrite <- Hn. by destruct r. }
    assert (Hbm : failure_count m FailoverBilling = failure_count e' FailoverBilling) by (rewrite F2; destruct (decide _); [done|lia]).
    constructor; rewrite ?Hends, ?Hbk, ?bool_decide_eq_false_2 by done; cbn [Bool.eqb app last_failure]; rewrite ?F1, ?F3, ?F4, ?F5; try done.
    + by apply latest_cons with (z := t_ns (en_CooldownEnd e)).
    + by rewrite K4.
    + by rewrite K4, Hbm.
Qed.

(** ** The tracker *)

Lemma report_window c x : ct_failureWindow (report c x) = ct_failureWindow c.
Proof. destruct x as [p [t [r|]]]; [done|]. unfold report, MarkSuccess. cbn. by destruct (_ !! _). Qed.
Lemma report_all_window l : ct_failureWindow (report_all NewCooldownTracker l) = window.
Proof.
  induction l as [|x l IH] using rev_ind; [done|]. unfold report_all in *. rewrite foldl_app. cbn [foldl]. by rewrite report_window.
Qed.

Definition entry_of (provider : string) c : cooldownEntry := default new_entry (ct_entries c !! provider).
Lemma report_other provider c x : x.1 ≠ provider → ct_entries (report c x) !! provider = ct_entries c !! provider.
Proof.
  destruct x as [p [t [r|]]]; cbn; intros Hp; [by apply lookup_insert_ne|]. unfold report, MarkSuccess. cbn.
  destruct (ct_entries c !! p); [|done]. by apply lookup_insert_ne.
Qed.

Lemma report_all_tracks provider l : clocked (reports_on provider (rev l)) →
  tracks (entry_of provider (report_all NewCooldownTracker l)) (reports_on provider (rev l)).
Proof.
  induction l as [|x l IH] using rev_ind; [intros _; apply tracks_new|].
  rewrite rev_app_distr. unfold report_all in *. rewrite foldl_app. cbn [rev app foldl].
  pose proof (report_all_window l) as Hw. unfold report_all in Hw.
  generalize dependent (foldl report NewCooldownTracker l). intros c IH Hw.
  unfold reports_on in *. rewrite filter_cons. destruct (decide (x.1 = provider)) as [Hx|Hx].
  - cbn [fmap list_fmap]. destruct x as [p [t [r|]]]; cbn in Hx; subst p; cbn [snd].
    + intros Hc. specialize (IH (proj2 (proj2 Hc))). unfold entry_of in *. cbn. rewrite lookup_insert_eq. cbn. rewrite Hw.
      by apply tracks_failure.
    + intros (Ht & Hle & Hc). specialize (IH Hc). unfold report, MarkSuccess. cbn [snd fst].
      unfold entry_of in *. destruct (ct_entries c !! provider) as [e|] eqn:E; cbn in *.
      * rewrite lookup_insert_eq. by apply tracks_success.
      * rewrite E. cbn. by apply (tracks_success new_entry).
  - intros Hc. unfold entry_of in *. rewrite report_other by done. by apply IH.
Qed.

Lemma until_lt now limit : 0 ≤ t_ns now → until now limit = (t_ns now <? t_ns limit).
Proof. intros Hn. unfold until, IsZero, Before. destruct (t_ns limit =? 0) eqn:E; cbn; [|done]. lia. Qed.

Lemma availability_entry now provider c : IsAvailable now provider c =
  negb (until now (en_DisabledUntil (entry_of provider c)) || until now (en_CooldownEnd (entry_of provider c))).
Proof.
  unfold IsAvailable, entry_of. destruct (ct_entries c !! provider) as [e|]; cbn; [|done]. by destruct (until now (en_DisabledUntil e)).
Qed.
Lemma remaining_entry now provider c : CooldownRemaining now provider c =
  let e := entry_of provider c in
  let longer remaining limit := if until now limit then Z.max remaining (Sub limit now) else remaining in
  longer (longer 0 (en_DisabledUntil e)) (en_CooldownEnd e).
Proof. unfold CooldownRemaining, entry_of. by destruct (ct_entries c !! provider). Qed.

Lemma available_history provider l now : let h := reports_on provider (rev l) in
  clocked h → last_failure h ≤ t_ns now →
  IsAvailable now provider (report_all NewCooldownTracker l) = negb (held_back window h now).
Proof.
  intros h Hc Hnow. pose proof (report_all_tracks provider l Hc) as Ht. fold h in Ht.
  destruct (last_failure_le h Hc) as [Hl0 _]. assert (H0 : 0 ≤ t_ns now) by lia.
  rewrite availability_entry, held_back_ends, existsb_app, !until_lt by done.
  by rewrite (latest_existsb _ _ _ (tk_standard _ _ Ht) H0), (latest_existsb _ _ _ (tk_billing _ _ Ht) H0), orb_comm.
Qed.
(** After a failure a provider is left alone for at least a minute. *)
Lemma held_back_minute t r h now : held_back window ((t, Failed r) :: h) now = false → t_ns t + minute ≤ t_ns now.
Proof.
  cbn [held_back]. intros [Hb _]%orb_false_iff. unfold backoff in Hb.
  pose proof (standard_bounds (Z.of_nat (length (recent window ((t, Failed r) :: h))))).
  pose proof (billing_bounds (count_of FailoverBilling (recent window ((t, Failed r) :: h)))).
  unfold hour, minute in *. destruct r; lia.
Qed.

(** C17. The tracker answers from the history of reports: after any reports with a
    clock that does not run backwards, the counters of a provider are those of
    the failures since its last success, cut where two failures are more than a
    day apart; it is available exactly when none of its failures since the last
    success still holds it back; the remaining cooldown is zero exactly when it
    is available; and it is never more than a day. *)
Theorem cooldown_matches_history provider l now :
  let h := reports_on provider (rev l) in
  let c := report_all NewCooldownTracker l in
  clocked h → last_failure h ≤ t_ns now →
  ErrorCount provider c = Z.of_nat (length (recent window h)) ∧
  (∀ r, FailureCount provider r c = count_of r (recent window h)) ∧
  IsAvailable now provider c = negb (held_back window h now) ∧
  (CooldownRemaining now provider c = 0 ↔ IsAvailable now provider c = true) ∧
  0 ≤ CooldownRemaining now provider c ≤ 24 * hour.
Proof.
  intros h c Hc Hnow. pose proof (report_all_tracks provider l Hc) as Ht. fold h c in Ht.
  destruct (last_failure_le h Hc) as [Hl0 _]. assert (H0 : 0 ≤ t_ns now) by lia.
  assert (HE : ErrorCount provider c = en_ErrorCount (entry_of provider c)).
  { unfold ErrorCount, entry_of. by destruct (ct_entries c !! provider). }
  assert (HF : ∀ r, FailureCount provider r c = failure_count (entry_of provider c) r).
  { intros r. unfold FailureCount, entry_of. by destruct (ct_entries c !! provider). }
  rewrite HE, remaining_entry, availability_entry, held_back_ends, existsb_app. clear HE. cbv zeta.
  destruct Ht as [T1 T2 _ T4 T5 T6 T7]. generalize dependent (entry_of provider c). intros e T1 T2 T4 T5 T6 T7 HF.
  rewrite !until_lt by done. rewrite (latest_existsb _ _ _ T4 H0), (latest_existsb _ _ _ T5 H0).
  pose proof (standard_bounds (en_ErrorCount e)) as Hs. pose proof (billing_bounds (failure_count e FailoverBilling)) as Hb.
  split; [done|]. split; [intros r; by rewrite HF|]. split; [by rewrite orb_comm|].
  unfold Sub, max_duration, hour, minute in *.
  destruct (t_ns now <? t_ns (en_DisabledUntil e)) eqn:E1, (t_ns now <? t_ns (en_CooldownEnd e)) eqn:E2; cbn [orb negb];
    (split; [split; [intros; exfalso; lia|done] || (split; [done|lia])|lia]).
Qed.
