(* ===== verification/CallBudget.v ===== *)
(** Package [pkg/providers], call_budget.go: the bounds on the model calls of
    one run, shared by calls that interleave; and that they hold however the
    calls interleave. *)
From S2P Require Import Prelude GoStrings Goroutines.

Record CallBudgetLimits := mkLimits {
  MaxCalls : Z; MaxInputBytes : Z; MaxOutputTokens : Z; MaxReportedTokens : Z; MaxInFlight : Z }.
Record CallBudgetSnapshot := mkSnapshot {
  bs_Limits : CallBudgetLimits;
  bs_Calls : Z; bs_Completed : Z; bs_InFlight : Z; bs_ReportedTokens : Z; bs_UnknownUsage : Z;
  bs_StoppedReason : string; bs_Sealed : bool; bs_UsageKnown : bool }.
#[export] Instance eta_CallBudgetSnapshot : Eta CallBudgetSnapshot := fun s =>
  mkSnapshot (bs_Limits s) (bs_Calls s) (bs_Completed s) (bs_InFlight s) (bs_ReportedTokens s) (bs_UnknownUsage s)
    (bs_StoppedReason s) (bs_Sealed s) (bs_UsageKnown s).
Abbreviation CallBudget := CallBudgetSnapshot (only parsing).

Inductive BudgetError := InvalidLimits | ContextDone | Stopped (reason : string).

Definition NewCallBudget (limits : CallBudgetLimits) : result BudgetError CallBudget :=
  reject (MaxCalls limits <? 1) || (256 <? MaxCalls limits)
         || (MaxInputBytes limits <? 1) || (2097152 <? MaxInputBytes limits)
         || (MaxOutputTokens limits <? 1) || (32768 <? MaxOutputTokens limits)
         || (MaxReportedTokens limits <? 1) || (2000000 <? MaxReportedTokens limits)
         || (MaxInFlight limits <? 1) || (2 <? MaxInFlight limits) with InvalidLimits ;;
  Ok (mkSnapshot limits 0 0 0 0 0 "" false false).

Definition snapshotLocked (b : CallBudget) : CallBudgetSnapshot :=
  b <| bs_UsageKnown := (bs_Completed b =? bs_Calls b) && (bs_UnknownUsage b =? 0) |>.
Definition Seal (b : CallBudget) : CallBudget * CallBudgetSnapshot :=
  let b := b <| bs_Sealed := true |> in (b, snapshotLocked b).

Definition stopLocked (reason : string) (b : CallBudget) : CallBudget * BudgetError :=
  let b := if String.eqb (bs_StoppedReason b) "" then b <| bs_StoppedReason := reason |> else b in
  (b, Stopped (bs_StoppedReason b)).

(** A request: whether its context is done, the integer under [max_tokens],
    which messages carry media or attachments, and the size of its JSON text,
    [None] when it cannot be encoded. *)
Record Request := mkRequest { rq_done : bool; rq_max_tokens : option Z; rq_media : list bool; rq_size : option Z }.

Definition begin (rq : Request) (b : CallBudget) : CallBudget * result BudgetError () :=
  let stop reason := let '(b, e) := stopLocked reason b in (b, Err e) in
  if rq_done rq then (b, Err ContextDone)
  else if negb (String.eqb (bs_StoppedReason b) "") then stop (bs_StoppedReason b)
  else if bs_Sealed b then stop "sealed"
  else if MaxCalls (bs_Limits b) <=? bs_Calls b then stop "calls"
  else if MaxInFlight (bs_Limits b) <=? bs_InFlight b then stop "concurrency"
  else if match rq_max_tokens rq with
          | Some n => (n <? 1) || (MaxOutputTokens (bs_Limits b) <? n)
          | None => true
          end then stop "output_limit"
  else if existsb id (rq_media rq) then stop "media_unsupported"
  else if match rq_size rq with Some n => MaxInputBytes (bs_Limits b) <? n | None => true end then stop "input_limit"
  else (b <| bs_Calls ::= fun n => n + 1 |> <| bs_InFlight ::= fun n => n + 1 |>, Ok tt).

Record Usage := mkUsage {
  PromptTokens : Z; CompletionTokens : Z; TotalTokens : Z;
  CacheReadInputTokens : option Z; CacheWriteInputTokens : option Z }.
Definition MaxInt64 : Z := 9223372036854775807.
Definition negative (n : option Z) : bool := match n with Some n => n <? 0 | None => false end.
(** [usage] is [None] without a response or without its usage. *)
Definition reportedCallTokens (usage : option Usage) : option Z :=
  match usage with
  | None => None
  | Some u =>
      if (PromptTokens u <? 0) || (CompletionTokens u <? 0) || (TotalTokens u <? 0) then None
      else if (PromptTokens u =? 0) && (CompletionTokens u =? 0) && (TotalTokens u =? 0) then None
      else if negative (CacheReadInputTokens u) || negative (CacheWriteInputTokens u) then None
      else if MaxInt64 - PromptTokens u <? CompletionTokens u then None
      else Some (Z.max (PromptTokens u + CompletionTokens u) (TotalTokens u))
  end.

Definition finish (usage : option Usage) (failed : bool) (b : CallBudget) : CallBudget * result BudgetError () :=
  let b := b <| bs_Completed ::= fun n => n + 1 |> <| bs_InFlight ::= fun n => n - 1 |> in
  let stop b reason := let '(b, e) := stopLocked reason b in (b, Err e) in
  let unknown := stop (b <| bs_UnknownUsage ::= fun n => n + 1 |>) "unknown_usage" in
  match reportedCallTokens usage with
  | None => unknown
  | Some tokens =>
      if failed || (MaxInt64 - bs_ReportedTokens b <? tokens) then unknown
      else
        let b := b <| bs_ReportedTokens ::= fun n => n + tokens |> in
        if MaxReportedTokens (bs_Limits b) <=? bs_ReportedTokens b then stop b "reported_tokens" else (b, Ok tt)
  end.

(** ** Wrapped providers

    What the code asks of a delegate; budgets are told apart by a number. *)
Record Provider := mkProvider {
  pv_nil : bool; pv_caller_tools : bool; pv_output_limit : bool; pv_streaming : bool; pv_streams : bool;
  pv_budget : option nat (* the budget of a provider that is wrapped already *) }.
Inductive WrapError := UnsupportedProvider | ForeignBudget | StreamingContract.
(** [Ok true] wraps, [Ok false] gives the wrapped provider back. *)
Definition Wrap (budget : option nat) (delegate : Provider) : result WrapError bool :=
  match budget with
  | None => Err UnsupportedProvider
  | Some b =>
      reject pv_nil delegate with UnsupportedProvider ;;
      reject negb (pv_caller_tools delegate) || negb (pv_output_limit delegate) with UnsupportedProvider ;;
      match pv_budget delegate with
      | Some b' => if (b' =? b)%nat then Ok false else Err ForeignBudget
      | None => reject pv_streaming delegate && negb (pv_streams delegate) with StreamingContract ;; Ok true
      end
  end.

(** ** Calls that interleave

    [Chat] and [ChatStreamEvents] begin, call the delegate, and finish when it
    returns; the answer goes to the caller when neither it nor the budget
    failed.  A call in flight is a number. *)
Record Calls := mkCalls {
  cl_budget : CallBudget;
  cl_flying : list nat;
  cl_admitted : list nat;
  cl_finished : list (nat * (option Usage * bool));
  cl_delivered : list nat }.
#[export] Instance eta_Calls : Eta Calls := fun c =>
  mkCalls (cl_budget c) (cl_flying c) (cl_admitted c) (cl_finished c) (cl_delivered c).

Definition without (call : nat) (l : list nat) : list nat := List.filter (fun n => negb (n =? call)%nat) l.
#[global] Arguments without : simpl never.

Inductive Event := Chat (call : nat) (rq : Request) | Returned (call : nat) (usage : option Usage) (failed : bool) | Sealing.

Definition call_step (c : Calls) (e : Event) : option Calls :=
  match e with
  | Chat call rq =>
      if bool_decide (call ∈ cl_admitted c) then None else
      match begin rq (cl_budget c) with
      | (b, Err _) => Some (c <| cl_budget := b |>)
      | (b, Ok _) => Some (c <| cl_budget := b |> <| cl_flying ::= cons call |> <| cl_admitted ::= cons call |>)
      end
  | Returned call usage failed =>
      if bool_decide (call ∈ cl_flying c) then
        let '(b, r) := finish usage failed (cl_budget c) in
        Some (c <| cl_budget := b |> <| cl_flying ::= without call |>
                <| cl_finished ::= cons (call, (usage, failed)) |>
                <| cl_delivered ::= fun l => match r with Ok _ => if failed then l else call :: l | Err _ => l end |>)
      else None
  | Sealing => Some (c <| cl_budget := (Seal (cl_budget c)).1 |>)
  end.
Fixpoint call_steps (c : Calls) (l : list Event) : option Calls :=
  match l with [] => Some c | e :: l => match call_step c e with Some c => call_steps c l | None => None end end.
Definition no_calls (b : CallBudget) : Calls := mkCalls b [] [] [] [].

(** * The invariant

    However the calls of a run interleave, its budget holds. *)

Implicit Types (c : Calls) (b : CallBudget) (lim : CallBudgetLimits) (rq : Request).

Definition tokens_of (x : nat * (option Usage * bool)) : Z := default 0 (reportedCallTokens x.2.1).
Definition accounted (x : nat * (option Usage * bool)) : Prop := x.2.2 = false ∧ is_Some (reportedCallTokens x.2.1).
Definition is_stopped b : Prop := bs_StoppedReason b ≠ "".

Lemma tokens_nonneg usage n : reportedCallTokens usage = Some n → 0 ≤ n.
Proof.
  unfold reportedCallTokens. destruct usage as [u|]; [|done]. destruct (_ || _ || _) eqn:E; [done|].
  rewrite !orb_false_iff in E. destruct E as [[E1 E2] E3]. repeat case_match; try done. intros [= <-]. lia.
Qed.

Record counts_inv lim c : Prop := {
  bi_limits : bs_Limits (cl_budget c) = lim;
  bi_nodup : NoDup (cl_flying c);
  bi_admitted : cl_admitted c ≡ₚ cl_flying c ++ (fst <$> cl_finished c);
  bi_calls : bs_Calls (cl_budget c) = Z.of_nat (length (cl_admitted c)) ∧ bs_Calls (cl_budget c) ≤ MaxCalls lim;
  bi_flying : bs_InFlight (cl_budget c) = Z.of_nat (length (cl_flying c)) ∧ bs_InFlight (cl_budget c) ≤ MaxInFlight lim;
  bi_completed : bs_Completed (cl_budget c) = Z.of_nat (length (cl_finished c));
  bi_range : 0 ≤ bs_ReportedTokens (cl_budget c) ≤ MaxInt64;
  bi_known : bs_UnknownUsage (cl_budget c) = 0 → Forall accounted (cl_finished c)
               ∧ bs_ReportedTokens (cl_budget c) = zsum tokens_of (cl_finished c);
  bi_unknown : 0 ≤ bs_UnknownUsage (cl_budget c) }.
Record budget_inv lim c : Prop := {
  bi_counts : counts_inv lim c;
  bi_lost : 0 < bs_UnknownUsage (cl_budget c) → is_stopped (cl_budget c);
  bi_exhausted : MaxReportedTokens lim ≤ bs_ReportedTokens (cl_budget c) → is_stopped (cl_budget c) }.

(** Stopping touches the reason alone. *)
Lemma stop_fields reason b : reason ≠ "" → let b' := (stopLocked reason b).1 in
  b' = b <| bs_StoppedReason := bs_StoppedReason b' |> ∧ is_stopped b' ∧ (is_stopped b → b' = b).
Proof.
  intros Hr b'. unfold b', stopLocked, is_stopped. destruct (String.eqb_spec (bs_StoppedReason b) "") as [He|He]; cbn.
  - split_and!; [done|done|]. by rewrite He.
  - split_and!; [by destruct b|done|done].
Qed.

Lemma begin_cases rq b :
  ((begin rq b).2 = Ok tt ∧ (begin rq b).1 = b <| bs_Calls ::= fun n => n + 1 |> <| bs_InFlight ::= fun n => n + 1 |> ∧
   ¬ is_stopped b ∧ bs_Sealed b = false ∧ bs_Calls b < MaxCalls (bs_Limits b) ∧ bs_InFlight b < MaxInFlight (bs_Limits b)) ∨
  (∃ e, (begin rq b).2 = Err e) ∧
  ((begin rq b).1 = b ∨ ∃ reason, reason ≠ "" ∧ (begin rq b).1 = (stopLocked reason b).1).
Proof.
  assert (Hstop : ∀ reason, reason ≠ "" → let x := let '(b0, e) := stopLocked reason b in (b0, Err e : result BudgetError ()) in
    (∃ e, x.2 = Err e) ∧ (x.1 = b ∨ ∃ reason, reason ≠ "" ∧ x.1 = (stopLocked reason b).1)).
  { intros reason Hr. destruct (stopLocked reason b) as [b' e] eqn:E. split; [by eexists|]. right. exists reason. by rewrite E. }
  unfold begin. cbv zeta. cbv zeta in Hstop.
  destruct (rq_done rq); [right; split; [by eexists|by left]|].
  destruct (String.eqb_spec (bs_StoppedReason b) "") as [Hs|Hs]; cbn [negb]; [|right; by apply Hstop].
  destruct (bs_Sealed b) eqn:Hse; [right; by apply Hstop|].
  destruct (MaxCalls (bs_Limits b) <=? bs_Calls b) eqn:E1; [right; by apply Hstop|].
  destruct (MaxInFlight (bs_Limits b) <=? bs_InFlight b) eqn:E2; [right; by apply Hstop|].
  destruct (match rq_max_tokens rq with Some _ => _ | None => _ end); [right; by apply Hstop|].
  destruct (existsb id (rq_media rq)); [right; by apply Hstop|].
  destruct (match rq_size rq with Some _ => _ | None => _ end); [right; by apply Hstop|].
  left. split_and!; try done; [|lia..]. intros Hn. by apply Hn.
Qed.

Lemma finish_cases usage failed b :
  let b1 := b <| bs_Completed ::= fun n => n + 1 |> <| bs_InFlight ::= fun n => n - 1 |> in
  (* unknown usage *)
  ((failed = true ∨ reportedCallTokens usage = None ∨ ∃ n, reportedCallTokens usage = Some n ∧ MaxInt64 - bs_ReportedTokens b < n) ∧
   (∃ e, (finish usage failed b).2 = Err e) ∧
   (finish usage failed b).1 = (stopLocked "unknown_usage" (b1 <| bs_UnknownUsage ::= fun n => n + 1 |>)).1) ∨
  (∃ n, failed = false ∧ reportedCallTokens usage = Some n ∧ n ≤ MaxInt64 - bs_ReportedTokens b ∧
   let b2 := b1 <| bs_ReportedTokens ::= fun m => m + n |> in
   ((finish usage failed b).2 = Ok tt ∧ (finish usage failed b).1 = b2 ∧ bs_ReportedTokens b2 < MaxReportedTokens (bs_Limits b)) ∨
   ((∃ e, (finish usage failed b).2 = Err e) ∧ (finish usage failed b).1 = (stopLocked "reported_tokens" b2).1)).
Proof.
  cbv zeta. unfold finish. cbv zeta. set (b1 := b <| bs_Completed ::= _ |> <| bs_InFlight ::= _ |>).
  assert (Hr : bs_ReportedTokens b1 = bs_ReportedTokens b) by done. assert (Hl : bs_Limits b1 = bs_Limits b) by done.
  clearbody b1. rewrite Hr. destruct (reportedCallTokens usage) as [n|] eqn:Hn.
  2: { left. destruct (stopLocked _ _) as [b' e]. split_and!; [by right; left|by eexists|done]. }
  destruct failed; cbn [orb].
  { left. destruct (stopLocked _ _) as [b' e]. split_and!; [by left|by eexists|done]. }
  destruct (MaxInt64 - bs_ReportedTokens b <? n) eqn:E.
  { left. destruct (stopLocked _ _) as [b' e]. split_and!; [right; right; exists n; split; [done|lia]|by eexists|done]. }
  right. exists n. split_and!; [done|done|lia|]. set (b2 := b1 <| bs_ReportedTokens ::= _ |>).
  assert (Hl2 : bs_Limits b2 = bs_Limits b) by exact Hl. clearbody b2. rewrite Hl2.
  destruct (MaxReportedTokens (bs_Limits b) <=? bs_ReportedTokens b2) eqn:E2.
  - right. destruct (stopLocked _ _) as [b' e]. split; [by eexists|done].
  - left. split_and!; [done|done|lia].
Qed.

(** ** The invariant *)

Lemma remove_call (l : list nat) call : NoDup l → call ∈ l →
  l ≡ₚ call :: without call l ∧ NoDup (without call l).
Proof.
  unfold without. induction 1 as [|x l Hx Hnd IH]; [by intros ?%elem_of_nil|]. intros Hin. cbn.
  destruct (Nat.eqb_spec x call) as [->|Hne]; cbn.
  - assert (Hf : List.filter (fun n => negb (n =? call)%nat) l = l); [|by rewrite Hf].
    clear IH Hnd Hin. induction l as [|y l IH]; [done|]. apply not_elem_of_cons in Hx as [Hy Hl]. cbn.
    destruct (Nat.eqb_spec y call) as [->|_]; [done|]. cbn. by rewrite IH.
  - apply elem_of_cons in Hin as [->|Hin]; [done|]. destruct (IH Hin) as [Hp Hn]. split; [rewrite Hp at 1; constructor|].
    constructor; [|done]. intros [Hin' _]%list_elem_of_In%List.filter_In. by apply Hx, list_elem_of_In.
Qed.

Lemma counts_stop lim c reason : reason ≠ "" → counts_inv lim c →
  budget_inv lim (c <| cl_budget := (stopLocked reason (cl_budget c)).1 |>).
Proof.
  intros Hne [I1 I2 I3 I4 I5 I6 I7 I8 I9]. destruct (stop_fields reason (cl_budget c) Hne) as (Hs & Hst & _).
  rewrite Hs in Hst |- *. by constructor; [constructor|..].
Qed.

Lemma call_step_inv lim c e c' : budget_inv lim c → call_step c e = Some c' → budget_inv lim c'.
Proof.
  intros [Hcounts I10 I11]. destruct e as [call rq|call usage failed|]; cbn [call_step].
  - case_bool_decide as Hnew; [done|]. destruct (begin_cases rq (cl_budget c)) as [(Hr & Hb & _ & _ & Hc & Hf)|[[x Hr] Hb]];
      destruct (begin rq (cl_budget c)) as [b r]; cbn in Hr, Hb; subst r; intros [= <-].
    + subst b. destruct Hcounts as [I1 I2 I3 [I4 I4'] [I5 I5'] I6 I7 I8 I9]. rewrite I1 in Hc, Hf.
      constructor; [constructor|..]; cbn; try done; try lia.
      * constructor; [|done]. intros Hin. apply Hnew. rewrite I3. apply elem_of_app. by left.
      * by rewrite I3.
    + destruct Hb as [->|(reason & Hne & ->)]; [by destruct c|]. by apply counts_stop.
  - case_bool_decide as Hin; [|done]. destruct Hcounts as [I1 I2 I3 [I4 I4'] [I5 I5'] I6 I7 I8 I9].
    destruct (remove_call _ call I2 Hin) as [Hp Hnd].
    assert (Hadm : cl_admitted c ≡ₚ without call (cl_flying c) ++ call :: (fst <$> cl_finished c)).
    { rewrite I3. etransitivity; [apply Permutation_app_tail, Hp|]. cbn. by rewrite Permutation_middle. }
    apply Permutation_length in Hp as Hlen. cbn in Hlen.
    destruct (finish_cases usage failed (cl_budget c)) as [(Hu & [x Hr] & Hb)|(n & -> & Hn & Hle & [(Hr & Hb & Hlt)|([x Hr] & Hb)])];
      destruct (finish _ _ (cl_budget c)) as [b r]; cbn [fst snd] in Hr, Hb; subst r b; intros [= <-].
    + set (b2 := cl_budget c <| bs_Completed ::= fun n => n + 1 |> <| bs_InFlight ::= fun n => n - 1 |> <| bs_UnknownUsage ::= fun n => n + 1 |>).
      refine (counts_stop lim (c <| cl_budget := b2 |> <| cl_flying ::= without call |> <| cl_finished := (call, (usage, failed)) :: cl_finished c |>) "unknown_usage" _ _); [done|].
      constructor; cbn; try done; try lia.
    + apply tokens_nonneg in Hn as Hpos. rewrite I1 in Hlt.
      constructor; [constructor|..]; cbn in *; try done; try lia.
      * intros Hz. destruct (I8 Hz) as [Hf Hsum]. split; [constructor; [|done]; split; [done|cbn; by rewrite Hn]|].
        rewrite zsum_cons, Hsum. unfold tokens_of at 2. cbn. rewrite Hn. cbn. lia.
    + apply tokens_nonneg in Hn as Hpos.
      set (b2 := cl_budget c <| bs_Completed ::= fun n => n + 1 |> <| bs_InFlight ::= fun n => n - 1 |> <| bs_ReportedTokens ::= fun m => m + n |>).
      refine (counts_stop lim (c <| cl_budget := b2 |> <| cl_flying ::= without call |> <| cl_finished := (call, (usage, false)) :: cl_finished c |>) "reported_tokens" _ _); [done|].
      constructor; cbn; try done; try lia.
      intros Hz. destruct (I8 Hz) as [Hf Hsum]. split; [constructor; [|done]; split; [done|cbn; by rewrite Hn]|].
      rewrite zsum_cons, Hsum. unfold tokens_of at 2. cbn. rewrite Hn. cbn. lia.
  - intros [= <-]. destruct Hcounts as [I1 I2 I3 I4 I5 I6 I7 I8 I9]. by constructor; [constructor|..].
Qed.

Lemma call_steps_inv lim c l c' : budget_inv lim c → call_steps c l = Some c' → budget_inv lim c'.
Proof.
  revert c. induction l as [|e l IH]; intros c Hc; cbn; [by intros [= <-]|].
  destruct (call_step c e) as [c1|] eqn:E; [|done]. apply IH. by eapply call_step_inv.
Qed.

Lemma new_budget_inv lim b : NewCallBudget lim = Ok b → budget_inv lim (no_calls b).
Proof.
  unfold NewCallBudget. rewrite reject_ok, !orb_false_iff. intros [Hb [= <-]]. destruct_and!.
  by constructor; [constructor|..]; cbn; try lia; try constructor.
Qed.

(** C26. However the calls of a run interleave, each call that was admitted is
    counted once, at most [MaxCalls] are admitted and at most [MaxInFlight] are
    in flight; the token count never overflows; and when the snapshot calls
    the usage known, no call is in flight, every admitted call has returned
    without error with a valid usage, and the tokens reported are their sum. *)
Theorem budget_accounts_for_calls lim b l c :
  NewCallBudget lim = Ok b → call_steps (no_calls b) l = Some c →
  let s := snapshotLocked (cl_budget c) in
  bs_Calls s = Z.of_nat (length (cl_admitted c)) ∧ bs_Calls s ≤ MaxCalls lim ∧
  bs_InFlight s = Z.of_nat (length (cl_flying c)) ∧ bs_InFlight s ≤ MaxInFlight lim ∧
  bs_Calls s = bs_Completed s + bs_InFlight s ∧ 0 ≤ bs_ReportedTokens s ≤ MaxInt64 ∧
  (bs_UsageKnown s = true → cl_flying c = [] ∧ cl_admitted c ≡ₚ fst <$> cl_finished c ∧
     Forall accounted (cl_finished c) ∧ bs_ReportedTokens s = zsum tokens_of (cl_finished c)).
Proof.
  intros Hb Hl. destruct (call_steps_inv _ _ _ _ (new_budget_inv _ _ Hb) Hl) as [[I1 I2 I3 [I4 I4'] [I5 I5'] I6 I7 I8 I9] _ _].
  apply Permutation_length in I3 as Hlen. rewrite length_app, length_fmap in Hlen. cbn.
  split_and!; try done; try lia. intros [Hk Hz]%andb_true_iff.
  assert (Hf : cl_flying c = []) by (apply length_zero_iff_nil; lia). rewrite Hf in I3. cbn in I3.
  split_and!; try done; apply I8; lia.
Qed.

(** ** A budget that stopped *)

Lemma finish_keeps usage failed b : bs_Sealed (finish usage failed b).1 = bs_Sealed b ∧
  (is_stopped b → bs_StoppedReason (finish usage failed b).1 = bs_StoppedReason b).
Proof.
  destruct (finish_cases usage failed b) as [(_ & _ & ->)|(n & _ & _ & _ & [(_ & -> & _)|(_ & ->)])]; [|done|];
    (match goal with |- context [stopLocked ?r ?b'] => destruct (stop_fields r b') as (Hs & _ & Hk); [done|] end);
    (split; [by rewrite Hs|intros Hst; by rewrite Hk]).
Qed.
Definition closed b : Prop := is_stopped b ∨ bs_Sealed b = true.
Lemma closed_step c e c' : closed (cl_budget c) → call_step c e = Some c' →
  closed (cl_budget c') ∧ cl_admitted c' = cl_admitted c ∧
  (is_stopped (cl_budget c) → bs_StoppedReason (cl_budget c') = bs_StoppedReason (cl_budget c)).
Proof.
  intros Hc. destruct e as [call rq|call usage failed|]; cbn [call_step].
  - case_bool_decide; [done|]. destruct (begin_cases rq (cl_budget c)) as [(_ & _ & Hn & Hse & _)|[[x Hr] Hb]].
    { destruct Hc as [?|?]; [done|congruence]. }
    destruct (begin rq (cl_budget c)) as [b r]; cbn [fst snd] in *; subst r. intros [= <-]. cbn.
    destruct Hb as [->|(reason & Hne & ->)]; [done|]. destruct (stop_fields reason (cl_budget c) Hne) as (Hs & Hst & Hk).
    split_and!; [by left|done|]. intros Hst'. by rewrite Hk.
  - case_bool_decide; [|done]. destruct (finish_keeps usage failed (cl_budget c)) as [Hse Hst].
    destruct (finish usage failed (cl_budget c)) as [b r]. cbn in Hse, Hst. intros [= <-]. cbn. split_and!; [|done|done].
    destruct Hc as [Hc|Hc]; [left; unfold is_stopped; by rewrite Hst|right; congruence].
  - intros [= <-]. cbn. split_and!; [by right|done|done].
Qed.

(** Once the budget has stopped or was sealed, no further call is admitted,
    whatever arrives, and the reason of the stop stays; and it has stopped as
    soon as the reported tokens reach their limit or the usage of a call is
    not known, so only calls already in flight can overshoot. *)
Theorem stopped_budget_admits_nothing lim b l c l' c' :
  NewCallBudget lim = Ok b → call_steps (no_calls b) l = Some c → call_steps c l' = Some c' →
  (MaxReportedTokens lim ≤ bs_ReportedTokens (cl_budget c) ∨ 0 < bs_UnknownUsage (cl_budget c)
   ∨ bs_StoppedReason (cl_budget c) ≠ "" ∨ bs_Sealed (cl_budget c) = true) →
  cl_admitted c' = cl_admitted c ∧ (bs_StoppedReason (cl_budget c) ≠ "" →
    bs_StoppedReason (cl_budget c') = bs_StoppedReason (cl_budget c)) ∧
  Z.of_nat (length (cl_finished c')) - Z.of_nat (length (cl_finished c)) ≤ MaxInFlight lim.
Proof.
  intros Hb Hl Hl' Hst. pose proof (call_steps_inv _ _ _ _ (new_budget_inv _ _ Hb) Hl) as Hinv.
  pose proof (call_steps_inv _ _ _ _ Hinv Hl') as Hinv'.
  assert (Hcl : closed (cl_budget c)).
  { destruct Hinv as [_ I9 I10]. destruct Hst as [?|[?|[?|?]]]; [left; by apply I10|left; by apply I9|by left|by right]. }
  assert (Hsame : cl_admitted c' = cl_admitted c ∧ (is_stopped (cl_budget c) → bs_StoppedReason (cl_budget c') = bs_StoppedReason (cl_budget c))).
  { clear Hinv Hinv' Hl Hst. revert c Hl' Hcl. induction l' as [|e l' IH]; intros c Hl Hcl; cbn in Hl; [by injection Hl as <-|].
    destruct (call_step c e) as [c1|] eqn:E; [|done]. destruct (closed_step _ _ _ Hcl E) as (Hcl1 & Ha & Hr).
    destruct (IH c1 Hl Hcl1) as [Ha' Hr']. split; [congruence|]. intros Hs. rewrite Hr'; [by apply Hr|].
    unfold is_stopped. by rewrite Hr. }
  destruct Hsame as [Ha Hr]. split_and!; [done|done|].
  destruct Hinv as [[_ _ I3 _ [I5 I5'] _ _ _ _] _ _], Hinv' as [[_ _ I3' _ _ _ _ _ _] _ _].
  apply Permutation_length in I3, I3'. rewrite length_app, length_fmap in I3, I3'. rewrite Ha in I3'. lia.
Qed.
