(* ===== verification/Fallback.v ===== *)
(** Package [pkg/providers], fallback.go: the chain that tries the candidate
    models of a call one after the other; which candidates it calls, what it
    reports to the tracker, and what it answers.

    The tracker is shared with other chains: what they report while a candidate
    waits or is called is part of its [CandidateEnv], with the clock, the rate
    limiter and what the call returns. *)
From S2P Require Import Prelude GoStrings GoTime GoText GoRegexp ProviderErrors Cooldown.

Record FallbackCandidate := mkCandidate {
  fc_Provider : string; fc_Model : string; fc_DisplayName : string; fc_RPM : Z; fc_IdentityKey : string;
  fc_ConfigOrdinal : Z; fc_ProviderConfigOrdinal : Z }.

(** The errors an attempt records. *)
Inductive AttemptError :=
| InCooldown (key : string) (remaining : Z)
| WaitingForToken (key : string)
| CallError (e : GoError)
| Classified (e : FailoverError).
Record FallbackAttempt := mkAttempt {
  at_Provider : string; at_Model : string; at_IdentityKey : string; at_Error : option AttemptError;
  at_Reason : option FailoverReason; at_Duration : Z; at_Skipped : bool; at_Succeeded : bool }.
#[export] Instance eta_FallbackAttempt : Eta FallbackAttempt := fun a =>
  mkAttempt (at_Provider a) (at_Model a) (at_IdentityKey a) (at_Error a) (at_Reason a) (at_Duration a) (at_Skipped a)
    (at_Succeeded a).

(** [d.Round(time.Second)] for a positive duration. *)
Definition round_second (d : Z) : Z :=
  let m := 1000000000 in
  let r := d mod m in if r + r <? m then d - r else d + m - r.

(** The reason of the latest attempt that has one. *)
Definition lastReason (attempts : list (option FailoverReason)) : option FailoverReason :=
  foldl (fun acc r => match r with Some _ => r | None => acc end) None attempts.

Section fallback.
Context {Response : Type} `{UnicodeCase}.

Record FallbackResult := mkResult {
  fr_Response : Response; fr_Provider : string; fr_Model : string; fr_IdentityKey : string;
  fr_Attempts : list FallbackAttempt }.
Inductive FallbackError :=
| NoCandidates
| FromContext (e : GoError)
| FromWait (e : GoError)
| Unclassified (provider model : string) (e : GoError)
| NotRetriable (e : FailoverError)
| Exhausted (attempts : list FallbackAttempt).

Record CandidateEnv := mkCandidateEnv {
  ce_context : option GoError; (* the caller's context before the candidate *)
  ce_before : list (string * (Time * Report)); (* reports of others until it is looked at *)
  ce_now : Time; (* the clock of [IsAvailable] *)
  ce_now' : Time; (* and of [CooldownRemaining] *)
  ce_token : bool; (* no rate limiter, or it has a token *)
  ce_wait : option GoError; (* waiting for one fails *)
  ce_run : result GoError Response;
  ce_elapsed : Z;
  ce_during : list (string * (Time * Report)); (* reports of others during the call *)
  ce_context' : option GoError; (* the caller's context after the call *)
  ce_failed_at : Time }.

Definition StableKey (c : FallbackCandidate) : string :=
  let key := trim_space (fc_IdentityKey c) in
  if String.eqb key "" then ModelKey (fc_Provider c) (fc_Model c) else key.

Fixpoint candidatesIdentityKey (attempt : FallbackAttempt) (candidates : list FallbackCandidate) : string :=
  match candidates with
  | [] => ModelKey (at_Provider attempt) (at_Model attempt)
  | c :: candidates =>
      if String.eqb (fc_Provider c) (at_Provider attempt) && String.eqb (fc_Model c) (at_Model attempt) then StableKey c
      else candidatesIdentityKey attempt candidates
  end.

(** The tracker, [result.Attempts], what an observer is told, and the
    candidates that were called, the latest last. *)
Record Chain := mkChain {
  ch_tracker : CooldownTracker; ch_attempts : list FallbackAttempt; ch_observed : list FallbackAttempt;
  ch_called : list FallbackCandidate }.
#[global] Instance eta_Chain : Eta Chain := fun c =>
  mkChain (ch_tracker c) (ch_attempts c) (ch_observed c) (ch_called c).

Definition attempt_of (c : FallbackCandidate) (e : option AttemptError) (reason : option FailoverReason) (duration : Z)
  (skipped : bool) : FallbackAttempt :=
  mkAttempt (fc_Provider c) (fc_Model c) "" e reason duration skipped false.
Definition recordAttempt (all : list FallbackCandidate) (attempt : FallbackAttempt) (s : Chain) : Chain :=
  let attempt := attempt <| at_IdentityKey := candidatesIdentityKey attempt all |> in
  s <| ch_attempts ::= fun l => l ++ [attempt] |> <| ch_observed ::= fun l => l ++ [attempt] |>.
Definition recordSuccess (c : FallbackCandidate) (duration : Z) (s : Chain) : Chain :=
  s <| ch_observed ::= fun l => l ++ [mkAttempt (fc_Provider c) (fc_Model c) (StableKey c) None None duration false true] |>.
Definition others (l : list (string * (Time * Report))) (s : Chain) : Chain := s <| ch_tracker ::= fun t => report_all t l |>.

(** The loop of [ExecuteCandidateObserved] from the candidates that are left. *)
Fixpoint execute_loop (all : list FallbackCandidate) (todo : list (FallbackCandidate * CandidateEnv)) (s : Chain) :
  Chain * result FallbackError FallbackResult :=
  match todo with
  | [] => (s, Err (Exhausted (ch_attempts s)))
  | (c, e) :: todo' =>
      let last := match todo' with [] => true | _ => false end in
      match ce_context e with
      | Some err => (s, Err (FromContext err))
      | None =>
      let key := StableKey c in
      let s := others (ce_before e) s in
      if negb (IsAvailable (ce_now e) key (ch_tracker s)) then
        let remaining := CooldownRemaining (ce_now' e) key (ch_tracker s) in
        execute_loop all todo'
          (recordAttempt all (attempt_of c (Some (InCooldown key (round_second remaining))) (Some FailoverRateLimit) 0 true) s)
      else if negb (ce_token e) && negb last then
        execute_loop all todo'
          (recordAttempt all (attempt_of c (Some (WaitingForToken key)) (Some FailoverRateLimit) 0 true) s)
      else match (if ce_token e then None else ce_wait e) with
      | Some err =>
          (recordAttempt all (attempt_of c (Some (CallError err)) (Some FailoverRateLimit) 0 true) s, Err (FromWait err))
      | None =>
      let s := others (ce_during e) (s <| ch_called ::= fun l => l ++ [c] |>) in
      match ce_run e with
      | Ok resp =>
          let s := recordSuccess c (ce_elapsed e) s in
          (s <| ch_tracker ::= MarkSuccess key |>, Ok (mkResult resp (fc_Provider c) (fc_Model c) (StableKey c) (ch_attempts s)))
      | Err err =>
          match ce_context' e with
          | Some ctxErr => (recordAttempt all (attempt_of c (Some (CallError ctxErr)) None (ce_elapsed e) false) s, Err (FromContext ctxErr))
          | None =>
          match errors_as nd_exhausted err with
          | Some reasons =>
              let s := recordAttempt all (attempt_of c (Some (CallError err)) (lastReason reasons) (ce_elapsed e) false) s in
              if last then (s, Err (Exhausted (ch_attempts s))) else execute_loop all todo' s
          | None =>
          match ClassifyError err (fc_Provider c) (fc_Model c) with
          | None =>
              (recordAttempt all (attempt_of c (Some (CallError err)) None (ce_elapsed e) false) s,
               Err (Unclassified (fc_Provider c) (fc_Model c) err))
          | Some failErr =>
              let attempt := attempt_of c (Some (Classified failErr)) (Some (fo_Reason failErr)) (ce_elapsed e) false in
              if negb (IsRetriable failErr) then (recordAttempt all attempt s, Err (NotRetriable failErr))
              else
                let s := recordAttempt all attempt (s <| ch_tracker ::= MarkFailure (ce_failed_at e) key (fo_Reason failErr) |>) in
                if last then (s, Err (Exhausted (ch_attempts s))) else execute_loop all todo' s
          end
          end
          end
      end
      end
      end
  end.

Definition ExecuteCandidateObserved (tracker : CooldownTracker) (candidates : list (FallbackCandidate * CandidateEnv)) :
  Chain * result FallbackError FallbackResult :=
  match candidates with
  | [] => (mkChain tracker [] [] [], Err NoCandidates)
  | _ => execute_loop (fst <$> candidates) candidates (mkChain tracker [] [] [])
  end.

(** ** Images

    [ExecuteImage] looks at no cooldown and stops at an error about the image. *)
Fixpoint image_loop (todo : list (FallbackCandidate * CandidateEnv)) (attempts : list FallbackAttempt) :
  list FallbackAttempt * result FallbackError FallbackResult :=
  match todo with
  | [] => (attempts, Err (Exhausted attempts))
  | (c, e) :: todo' =>
      let last := match todo' with [] => true | _ => false end in
      match ce_context e with
      | Some err => (attempts, Err (FromContext err))
      | None =>
      let key := StableKey c in
      if negb (ce_token e) && negb last then
        image_loop todo' (attempts ++ [attempt_of c (Some (WaitingForToken key)) (Some FailoverRateLimit) 0 true])
      else match (if ce_token e then None else ce_wait e) with
      | Some err =>
          (attempts ++ [attempt_of c (Some (CallError err)) (Some FailoverRateLimit) 0 true], Err (FromWait err))
      | None =>
      match ce_run e with
      | Ok resp => (attempts, Ok (mkResult resp (fc_Provider c) (fc_Model c) (StableKey c) attempts))
      | Err err =>
          match ce_context' e with
          | Some ctxErr => (attempts ++ [attempt_of c (Some (CallError ctxErr)) None (ce_elapsed e) false], Err (FromContext ctxErr))
          | None =>
              let errMsg := to_lower (error_text err) in
              if IsImageDimensionError errMsg || IsImageSizeError errMsg then
                (attempts ++ [attempt_of c (Some (CallError err)) (Some FailoverFormat) (ce_elapsed e) false],
                 Err (NotRetriable (mkFailover FailoverFormat (fc_Provider c) (fc_Model c) 0 ClassificationMessagePattern err)))
              else
                let attempts := attempts ++ [attempt_of c (Some (CallError err)) None (ce_elapsed e) false] in
                if last then (attempts, Err (Exhausted attempts)) else image_loop todo' attempts
          end
      end
      end
      end
  end.
Definition ExecuteImage (candidates : list (FallbackCandidate * CandidateEnv)) : list FallbackAttempt * result FallbackError FallbackResult :=
  match candidates with [] => ([], Err NoCandidates) | _ => image_loop candidates [] end.
End fallback.
#[global] Arguments FallbackResult : clear implicits.
#[global] Arguments CandidateEnv : clear implicits.

(** * What the chain does

    The fallback chain: which candidates it calls, what it reports to the
    tracker, and what it answers. *)

Section props.
Context {Response : Type} `{UnicodeCase}.
Implicit Types (c : FallbackCandidate) (e : CandidateEnv Response) (t : CooldownTracker) (s : Chain).
Notation todo := (list (FallbackCandidate * CandidateEnv Response)).

(** What a call reports of its candidate. *)
Definition own_reports c e : list (string * (Time * Report)) :=
  match ce_run e with
  | Ok _ => [(StableKey c, (ce_now e, Succeeded))]
  | Err err =>
      match ce_context' e, errors_as nd_exhausted err, ClassifyError err (fc_Provider c) (fc_Model c) with
      | None, None, Some f => if IsRetriable f then [(StableKey c, (ce_failed_at e, Failed (fo_Reason f)))] else []
      | _, _, _ => []
      end
  end.
(** A candidate that was looked at; the flag tells whether it was called. *)
Notation look := ((FallbackCandidate * CandidateEnv Response) * bool)%type.
Definition reports_of (x : look) : list (string * (Time * Report)) :=
  let '((c, e), called) := x in ce_before e ++ (if called then ce_during e ++ own_reports c e else []).
Definition called_of (x : look) : list FallbackCandidate := if x.2 then [x.1.1] else [].

(** The chain from [s] looked at the candidates of [log]. *)
Record looked t (log : list look) t' (called : list FallbackCandidate) : Prop := {
  lk_tracker : t' = report_all t (log ≫= reports_of);
  lk_called : called = log ≫= called_of;
  lk_available : ∀ log1 c e log2, log = log1 ++ ((c, e), true) :: log2 →
    IsAvailable (ce_now e) (StableKey c) (report_all t ((log1 ≫= reports_of) ++ ce_before e)) = true }.

Lemma report_all_app t l k : report_all t (l ++ k) = report_all (report_all t l) k.
Proof. apply foldl_app. Qed.
Lemma looked_nil t : looked t [] t [].
Proof. constructor; [done|done|]. by intros []. Qed.
Lemma looked_cons t x log t' called :
  (x.2 = true → IsAvailable (ce_now x.1.2) (StableKey x.1.1) (report_all t (ce_before x.1.2)) = true) →
  looked (report_all t (reports_of x)) log t' called → looked t (x :: log) t' (called_of x ++ called).
Proof.
  intros Hx [Ht Hc Ha]. constructor; cbn.
  - by rewrite report_all_app.
  - by rewrite Hc.
  - intros [|y log1] c e log2 Hl; injection Hl as -> ->; [by apply Hx|].
    cbn. rewrite <- app_assoc, report_all_app. by eapply Ha.
Qed.

(** Whether a candidate was called, of each one the observer was told of. *)
Definition told_called s : list bool := (fun a => negb (at_Skipped a)) <$> ch_observed s.
Definition explained (l : todo) s s' : Prop := ∃ log called,
  looked (ch_tracker s) log (ch_tracker s') called ∧ (fst <$> log) `prefix_of` l ∧ ch_called s' = ch_called s ++ called ∧
  told_called s' = told_called s ++ log.*2.
Lemma explained_refl l s : explained l s s.
Proof. exists [], []. split_and!; [apply looked_nil|apply prefix_nil|by rewrite app_nil_r..]. Qed.
Lemma explained_step x (l : todo) s s1 s' :
  (x.2 = true → IsAvailable (ce_now x.1.2) (StableKey x.1.1) (report_all (ch_tracker s) (ce_before x.1.2)) = true) →
  ch_tracker s1 = report_all (ch_tracker s) (reports_of x) → ch_called s1 = ch_called s ++ called_of x →
  told_called s1 = told_called s ++ [x.2] → explained l s1 s' → explained (x.1 :: l) s s'.
Proof.
  intros Hx Ht Hc Htold (log & called & Hl & Hp & Hc' & Htold'). exists (x :: log), (called_of x ++ called). split_and!.
  - apply looked_cons; [done|]. by rewrite <- Ht.
  - by apply prefix_cons.
  - by rewrite Hc', Hc, <- app_assoc.
  - by rewrite Htold', Htold, <- app_assoc.
Qed.

Lemma execute_loop_explained all (l : todo) s : explained l s (execute_loop all l s).1.
Proof.
  revert s. induction l as [|[c e] l IH]; intros s; cbn [execute_loop]; [apply explained_refl|].
  destruct (ce_context e); [apply explained_refl|].
  assert (Hskip : ∀ s1 s', ch_tracker s1 = ch_tracker (others (ce_before e) s) → ch_called s1 = ch_called s →
    told_called s1 = told_called s ++ [false] → explained l s1 s' → explained ((c, e) :: l) s s').
  { intros s1 s' Ht Hc Htold. apply (explained_step ((c, e), false)); [done|by cbn; rewrite app_nil_r..|done]. }
  assert (Htold : ∀ a s1 b, told_called s1 = told_called s → negb (at_Skipped a) = b → ∀ all, told_called (recordAttempt all a s1) = told_called s ++ [b]).
  { intros a s1 b <- <- all'. unfold told_called. cbn. by rewrite fmap_app. }
  destruct (IsAvailable (ce_now e) (StableKey c) (ch_tracker (others (ce_before e) s))) eqn:Hav; cbn [negb]; [|eapply Hskip; [| | |apply IH]; [done..|by apply Htold]].
  destruct (negb (ce_token e) && negb _); [eapply Hskip; [| | |apply IH]; [done..|by apply Htold]|].
  destruct (if ce_token e then None else ce_wait e); [eapply Hskip; [| | |apply explained_refl]; [done..|by apply Htold]|]. clear Hskip.
  assert (Hcall : ∀ own s1 s', own = own_reports c e →
    ch_tracker s1 = report_all (ch_tracker (others (ce_during e) (others (ce_before e) s))) own →
    ch_called s1 = ch_called s ++ [c] → told_called s1 = told_called s ++ [true] → explained l s1 s' → explained ((c, e) :: l) s s').
  { intros own s1 s' -> Ht Hc Hto. apply (explained_step ((c, e), true)); [by intros _| |done..].
    rewrite Ht. cbn. by rewrite !report_all_app. }
  destruct (ce_run e) as [resp|err] eqn:Hrun.
  { eapply (Hcall [(StableKey c, (ce_now e, Succeeded))]); [by unfold own_reports; rewrite Hrun|..|apply explained_refl]; [done|done|unfold told_called; cbn; by rewrite fmap_app]. }
  assert (Hown : own_reports c e = match ce_context' e, errors_as nd_exhausted err, ClassifyError err (fc_Provider c) (fc_Model c) with
      | None, None, Some f => if IsRetriable f then [(StableKey c, (ce_failed_at e, Failed (fo_Reason f)))] else []
      | _, _, _ => []
      end) by (unfold own_reports; by rewrite Hrun).
  destruct (ce_context' e). { eapply (Hcall []); [done|..|apply explained_refl]; [done|done|by apply Htold]. }
  destruct (errors_as nd_exhausted err).
  { destruct l as [|x l]; [eapply (Hcall []); [done|..|apply explained_refl]; [done|done|by apply Htold]|]. eapply (Hcall []); [done|..|apply IH]; [done|done|by apply Htold]. }
  destruct (ClassifyError err (fc_Provider c) (fc_Model c)) as [f|]; [|eapply (Hcall []); [done|..|apply explained_refl]; [done|done|by apply Htold]].
  destruct (IsRetriable f); cbn [negb]; [|eapply (Hcall []); [done|..|apply explained_refl]; [done|done|by apply Htold]].
  destruct l as [|x l]; (eapply (Hcall [(StableKey c, (ce_failed_at e, Failed (fo_Reason f)))]);
    [done|..|first [apply IH|apply explained_refl]]; [done|done|by apply Htold]).
Qed.

(** What the chain looked at, from what the observer was told: each candidate,
    and whether it was called. *)
Definition looks (l : todo) s : list look := zip l (told_called s).
Lemma looks_prefix (l : todo) (log : list look) : (fst <$> log) `prefix_of` l → zip l log.*2 = log.
Proof.
  intros [k ->]. induction log as [|[x b] log IH]; cbn; [by destruct k|]. by rewrite IH.
Qed.
Lemma execute_explained t (l : todo) : let s' := (ExecuteCandidateObserved t l).1 in
  looked t (looks l s') (ch_tracker s') (ch_called s') ∧ (fst <$> looks l s') `prefix_of` l.
Proof.
  unfold ExecuteCandidateObserved. destruct l as [|x l]; cbn zeta.
  { split; [apply looked_nil|done]. }
  destruct (execute_loop_explained (fst <$> x :: l) (x :: l) (mkChain t [] [] [])) as (log & called & Hl & Hp & Hc & Ht).
  unfold looks. rewrite Ht, Hc. cbn [told_called ch_observed ch_called fmap list_fmap app]. by rewrite looks_prefix.
Qed.

(** The chain looks at the candidates in order.  What it leaves in the
    shared tracker is what the others reported meanwhile and, for each
    candidate it called, the report of that call: a success, a failure when
    the error is one that the next candidate may answer, and nothing when the
    caller's context ended, when a nested chain failed or when the error is
    final; it calls a candidate only when the tracker, with all reports until
    then, says that it is available. *)
Theorem fallback_reports_what_it_called t (l : todo) : let s' := (ExecuteCandidateObserved t l).1 in
  let log := looks l s' in (fst <$> log) `prefix_of` l ∧ ch_called s' = log ≫= called_of ∧
    ch_tracker s' = report_all t (log ≫= reports_of) ∧
    ∀ log1 c e log2, log = log1 ++ ((c, e), true) :: log2 →
      IsAvailable (ce_now e) (StableKey c) (report_all t ((log1 ≫= reports_of) ++ ce_before e)) = true.
Proof. destruct (execute_explained t l) as [[Ht Hc Ha] Hp]. done. Qed.

(** C36. A candidate that failed rests.  The chain looks at the candidates in
    order; what it looked at, and whether it called it, is what the observer
    was told.  After it the tracker holds the reports [hist] of before, then
    those that others made meanwhile and those of its own calls.  Whenever it
    called a candidate, the reports on that candidate up to that moment - [hist],
    those of the candidates looked at before, those of others while it waited -
    do not hold it back: none of the failures since its last success does, so
    that none is less than a minute old.  The reports on it are in the order of
    their times, and the clock is not behind its last failure. *)
Theorem resting_candidate_not_called hist (l : todo) :
  let s' := (ExecuteCandidateObserved (report_all NewCooldownTracker hist) l).1 in
  let log := looks l s' in
  ch_called s' = log ≫= called_of ∧ ch_tracker s' = report_all NewCooldownTracker (hist ++ (log ≫= reports_of)) ∧
  ∀ log1 c e log2, log = log1 ++ ((c, e), true) :: log2 →
    let h := reports_on (StableKey c) (rev (hist ++ (log1 ≫= reports_of) ++ ce_before e)) in
    clocked h → last_failure h ≤ t_ns (ce_now e) →
    held_back defaultFailureWindow h (ce_now e) = false ∧
    ∀ at_ r h', h = (at_, Failed r) :: h' → t_ns at_ + minute ≤ t_ns (ce_now e).
Proof.
  cbv zeta. destruct (execute_explained (report_all NewCooldownTracker hist) l) as [[Ht Hc Ha] _]. split; [done|].
  split; [by rewrite report_all_app|]. intros log1 c e log2 Hlog Hclock Hlast. specialize (Ha _ _ _ _ Hlog).
  rewrite <- report_all_app, available_history in Ha by done. apply negb_true_iff in Ha. split; [done|].
  intros at_ r h' Hh. rewrite Hh in Ha. by apply held_back_minute in Ha.
Qed.

(** ** The answer *)

(** An attempt after which the next candidate is tried. *)
Definition worth_another (a : FallbackAttempt) : Prop :=
  at_Skipped a = true ∨ (∃ f, at_Error a = Some (Classified f) ∧ IsRetriable f = true)
  ∨ (∃ err, at_Error a = Some (CallError err) ∧ is_Some (errors_as nd_exhausted err)).
Definition attempt_on (a : FallbackAttempt) (x : FallbackCandidate * CandidateEnv Response) : Prop :=
  at_Provider a = fc_Provider x.1 ∧ at_Model a = fc_Model x.1 ∧ at_Succeeded a = false ∧ worth_another a.

Definition answered (l : todo) s (r : result (@FallbackError) (FallbackResult Response)) : Prop :=
  match r with
  | Ok res => ∃ pre c e post, l = pre ++ (c, e) :: post ∧ ce_run e = Ok (fr_Response res) ∧
      fr_Provider res = fc_Provider c ∧ fr_Model res = fc_Model c ∧ fr_IdentityKey res = StableKey c ∧
      last (ch_called s) = Some c ∧ fr_Attempts res = ch_attempts s ∧ Forall2 attempt_on (fr_Attempts res) pre ∧
      ch_observed s = ch_attempts s ++ [mkAttempt (fc_Provider c) (fc_Model c) (StableKey c) None None (ce_elapsed e) false true]
  | Err (Exhausted attempts) => Forall2 attempt_on attempts l ∧ attempts = ch_attempts s ∧ ch_observed s = ch_attempts s
  | Err NoCandidates => False
  | Err _ => (∃ pre x post attempts, l = pre ++ x :: post ∧ attempts `prefix_of` ch_attempts s ∧ Forall2 attempt_on attempts pre)
      ∧ ch_observed s = ch_attempts s
  end.

Lemma execute_loop_answered all (l : todo) s pre : Forall2 attempt_on (ch_attempts s) pre → ch_observed s = ch_attempts s →
  let r := execute_loop all l s in answered (pre ++ l) r.1 r.2.
Proof.
  revert s pre. induction l as [|[c e] l IH]; intros s pre Hpre Hob; cbn [execute_loop].
  { cbn. by rewrite app_nil_r. }
  assert (Hstop : ∀ s', ch_attempts s `prefix_of` ch_attempts s' → ch_observed s' = ch_attempts s' →
    (∃ pre' x post attempts, pre ++ (c, e) :: l = pre' ++ x :: post ∧ attempts `prefix_of` ch_attempts s' ∧ Forall2 attempt_on attempts pre')
    ∧ ch_observed s' = ch_attempts s').
  { intros s' Hs Ho. split; [|done]. by exists pre, (c, e), l, (ch_attempts s). }
  assert (Hrec : ∀ s1 a, ch_attempts s1 = ch_attempts s → ch_observed s1 = ch_observed s → attempt_on a (c, e) →
    let s2 := recordAttempt all a s1 in Forall2 attempt_on (ch_attempts s2) (pre ++ [(c, e)]) ∧ ch_observed s2 = ch_attempts s2).
  { intros s1 a Ha Ho Hon. cbn. rewrite Ha, Ho, Hob. split; [|done]. apply Forall2_app; [done|]. constructor; [exact Hon|constructor]. }
  assert (Hgo : ∀ s1 a, ch_attempts s1 = ch_attempts s → ch_observed s1 = ch_observed s → attempt_on a (c, e) →
    let r := execute_loop all l (recordAttempt all a s1) in answered (pre ++ (c, e) :: l) r.1 r.2).
  { intros s1 a Ha Ho Hon. destruct (Hrec s1 a Ha Ho Hon) as [H1 H2]. rewrite cons_middle, app_assoc. by apply IH. }
  assert (Hlast : ∀ s1 a, ch_attempts s1 = ch_attempts s → ch_observed s1 = ch_observed s → attempt_on a (c, e) → l = [] →
    let s2 := recordAttempt all a s1 in answered (pre ++ (c, e) :: l) s2 (Err (Exhausted (ch_attempts s2)))).
  { intros s1 a Ha Ho Hon ->. destruct (Hrec s1 a Ha Ho Hon) as [H1 H2]. by split. }
  assert (Hadd : ∀ s1 a, ch_attempts s1 = ch_attempts s → ch_observed s1 = ch_observed s →
    let s2 := recordAttempt all a s1 in ch_attempts s `prefix_of` ch_attempts s2 ∧ ch_observed s2 = ch_attempts s2).
  { intros s1 a Ha Ho. cbn. rewrite Ha, Ho, Hob. split; [by eexists|done]. }
  destruct (ce_context e) as [err|]; [by apply Hstop|].
  destruct (negb (IsAvailable _ _ _)); [apply Hgo; [done|done|]; split_and!; try done; by left|].
  destruct (negb (ce_token e) && negb _); [apply Hgo; [done|done|]; split_and!; try done; by left|].
  destruct (if ce_token e then None else ce_wait e) as [err|]; [apply Hstop; by apply Hadd|].
  destruct (ce_run e) as [resp|err] eqn:Hrun.
  { cbn. exists pre, c, e, l. split_and!; try done.
    - by rewrite last_snoc.
    - by rewrite Hob. }
  destruct (ce_context' e) as [err'|]; [apply Hstop; by apply Hadd|].
  destruct (errors_as nd_exhausted err) as [reasons|] eqn:Hex.
  { set (a := attempt_of _ _ _ _ _). assert (Hon : attempt_on a (c, e)).
    { split_and!; try done. right. right. exists err. by rewrite Hex. }
    destruct l as [|x l]; [by apply Hlast|by apply Hgo]. }
  destruct (ClassifyError err (fc_Provider c) (fc_Model c)) as [f|]; [|apply Hstop; by apply Hadd].
  destruct (IsRetriable f) eqn:Hret; cbn [negb]; [|apply Hstop; by apply Hadd].
  set (a := attempt_of _ _ _ _ _). assert (Hon : attempt_on a (c, e)).
  { split_and!; try done. right. left. by exists f. }
  destruct l as [|x l]; [by apply Hlast|by apply Hgo].
Qed.

(** C28. The chain answers with the first candidate that answered: on success the
    result is that of the candidate called last, with one attempt for each
    candidate before it, in order, each skipped, failed in a way that another
    candidate may mend, or exhausted in a chain of its own; it is exhausted
    only after such an attempt at every candidate; and the observer was told
    exactly the attempts, and the success at the end. *)
Theorem fallback_answers_in_order t (l : todo) : l ≠ [] →
  let r := ExecuteCandidateObserved t l in answered l r.1 r.2.
Proof.
  intros Hl. unfold ExecuteCandidateObserved. destruct l as [|x l]; [done|].
  by apply (execute_loop_answered (fst <$> x :: l) (x :: l) (mkChain t [] [] []) []).
Qed.
End props.
