(* ===== verification/ToolWitness.v ===== *)
(** The properties of the patch format, of the loop guard and of the provider
    components at concrete inputs. *)
From S2P Require Import Prelude GoStrings GoText PatchFormat LoopGuard Goroutines GoTime.
From S2P Require Import GoRegexp ProviderErrors Cooldown CallBudget.
From S2P Require Import Fallback.

Definition sample_patch : list Operation :=
  [mkOperation PatchFormat.Add "docs/a.md" ["+hello"; "+"]; mkOperation Update "src/main.go" ["@@"; " x"; "-y"; "+z"]; mkOperation Delete "old.txt" []].
Lemma parse_render_witness :
  length (render_lines sample_patch) = 9%nat ∧ Parse (render sample_patch) 3 = Ok sample_patch.
Proof.
  split; [by vm_compute|]. apply (parse_render 3 sample_patch); [done| |right; by vm_compute].
  repeat constructor; by vm_compute.
Defined.

#[local] Instance plain_hash : Sha256 := fun t => "#" +:+ t.
Definition failing (args : string) : Observation := mkObservation "shell" (Some args) "boom" true SemanticsUnknown.
Definition some_turn : list Observation := [failing "{1}"; failing "{1}"; failing "{2}"].
Lemma guard_matches_history_witness :
  let c := (observe_all (New DefaultConfig) some_turn).1 in
  dc_Action (After c (failing "{1}")).2 = ActionWarn ∧
  dc_Action (After c (failing "{1}")).2 = verdict (Normalized DefaultConfig) (failing "{1}" :: rev some_turn).
Proof.
  split; [by vm_compute|].
  apply (guard_matches_history DefaultConfig some_turn (failing "{1}")).
  - done.
  - done.
  - by vm_compute.
  - by vm_compute; repeat constructor.
Defined.

(** * Providers

    The provider components at concrete inputs. *)

#[local] Instance ascii_case : UnicodeCase :=
  {| rune_lower := fun r => if (65 <=? r) && (r <=? 90) then r + 32 else r;
     rune_fold := fun r => if (65 <=? r) && (r <=? 90) then r + 32 else r |}.

(** ** Classification *)

Example classified_429 : classifyByMessage "http 429: too many requests" = Some FailoverRateLimit.
Proof. vm_compute. reflexivity. Qed.
Example classified_key : classifyByMessage "the API key is wrong" = Some FailoverAuth.
Proof. vm_compute. reflexivity. Qed.
Example status_of_text : extractHTTPStatus "http/1.1 503 service" = 503.
Proof. vm_compute. reflexivity. Qed.

(** ** Cooldown *)

Definition at_s (s : Z) : Time := mkTime (1700000000000000000 + s * 1000000000) 0.
Definition reports : list (string * (Time * Report)) :=
  [("a", (at_s 0, Failed FailoverTimeout)); ("b", (at_s 1, Failed FailoverBilling)); ("a", (at_s 70, Failed FailoverNetwork))].
Lemma cooldown_matches_history_witness :
  let c := report_all NewCooldownTracker reports in
  ErrorCount "a" c = 2 ∧ IsAvailable (at_s 200) "a" c = negb (held_back defaultFailureWindow (reports_on "a" (rev reports)) (at_s 200))
  ∧ held_back defaultFailureWindow (reports_on "a" (rev reports)) (at_s 200) = true.
Proof.
  split; [by vm_compute|]. split; [|by vm_compute].
  refine (proj1 (proj2 (proj2 (cooldown_matches_history "a" reports (at_s 200) _ _)))).
  - vm_compute. intuition discriminate.
  - vm_compute. discriminate.
Defined.

(** ** Call budget *)

Definition some_limits : CallBudgetLimits := mkLimits 3 1000 100 50 2.
Definition some_budget : CallBudgetSnapshot := mkSnapshot some_limits 0 0 0 0 0 "" false false.
Definition some_request : Request := mkRequest false (Some 100) [false; false] (Some 400).
Definition some_usage (n : Z) : option Usage := Some (mkUsage n 5 0 None None).
Definition some_calls : list Event :=
  [Chat 1 some_request; Chat 2 some_request; Returned 2 (some_usage 10) false; Returned 1 (some_usage 20) false].
Definition calls_after (l : list Event) : Calls := default (no_calls some_budget) (call_steps (no_calls some_budget) l).
Lemma some_calls_run : call_steps (no_calls some_budget) some_calls = Some (calls_after some_calls).
Proof. vm_compute. reflexivity. Qed.
Lemma budget_accounts_for_calls_witness :
  let s := snapshotLocked (cl_budget (calls_after some_calls)) in
  bs_UsageKnown s = true ∧ bs_ReportedTokens s = 40 ∧ bs_Calls s ≤ 3.
Proof.
  split; [by vm_compute|]. split; [by vm_compute|].
  refine (proj1 (proj2 (budget_accounts_for_calls some_limits some_budget some_calls (calls_after some_calls) _ some_calls_run))).
  reflexivity.
Defined.

Definition more_calls : list Event := [Chat 3 some_request; Returned 3 (some_usage 10) false].
Definition late_calls : list Event := [Chat 4 some_request; Sealing].
Definition calls_then : Calls := default (no_calls some_budget) (call_steps (calls_after (some_calls ++ more_calls)) late_calls).
Lemma stopped_budget_admits_nothing_witness :
  bs_StoppedReason (cl_budget (calls_after (some_calls ++ more_calls))) = "reported_tokens" ∧
  cl_admitted calls_then = cl_admitted (calls_after (some_calls ++ more_calls)).
Proof.
  split; [by vm_compute|].
  refine (proj1 (stopped_budget_admits_nothing some_limits some_budget (some_calls ++ more_calls) (calls_after (some_calls ++ more_calls))
    late_calls calls_then _ _ _ _)).
  - reflexivity.
  - vm_compute. reflexivity.
  - vm_compute. reflexivity.
  - left. vm_compute. discriminate.
Defined.

(** ** Fallback *)

Definition candidate (model key : string) : FallbackCandidate := mkCandidate "openai" model model 0 key 0 0.
Definition returns (r : result GoError string) (s : Z) : CandidateEnv string :=
  mkCandidateEnv None [] (at_s s) (at_s s) true None r 1000 [] None (at_s (s + 1)).
Definition overloaded : GoError := plain_error "status 429: slow down".
Definition two_keys : list (FallbackCandidate * CandidateEnv string) :=
  [(candidate "gpt-5" "model:1", returns (Err overloaded) 10); (candidate "gpt-5" "model:2", returns (Err overloaded) 20);
   (candidate "gpt-4" "", returns (Ok "hello") 30)].

Lemma fallback_answers_in_order_witness :
  let r := ExecuteCandidateObserved NewCooldownTracker two_keys in
  (∃ res, r.2 = Ok res ∧ fr_Response res = "hello" ∧ length (fr_Attempts res) = 2%nat) ∧ answered two_keys r.1 r.2.
Proof.
  split; [eexists; split; [vm_compute; reflexivity|by vm_compute]|].
  exact (fallback_answers_in_order NewCooldownTracker two_keys (ltac:(discriminate) : two_keys ≠ [])).
Defined.

(** A key that was limited a moment ago is passed over, the other one is called. *)
Definition limited_first : list (string * (Time * Report)) := [("model:1", (at_s 5, Failed FailoverRateLimit)); ("model:2", (at_s (-3000), Failed FailoverRateLimit))].
Lemma resting_candidate_not_called_witness :
  let s := (ExecuteCandidateObserved (report_all NewCooldownTracker limited_first) two_keys).1 in
  (StableKey <$> ch_called s) = ["model:2"; "openai/gpt-4"] ∧
  held_back defaultFailureWindow (reports_on "model:2" (rev limited_first)) (at_s 20) = false.
Proof.
  split; [by vm_compute|].
  destruct (resting_candidate_not_called limited_first two_keys) as (_ & _ & Hrest).
  destruct (Hrest [(candidate "gpt-5" "model:1", returns (Err overloaded) 10, false)] (candidate "gpt-5" "model:2") (returns (Err overloaded) 20)
    [(candidate "gpt-4" "", returns (Ok "hello") 30, true)]) as [Hheld _].
  - vm_compute. reflexivity.
  - vm_compute. repeat split; discriminate.
  - vm_compute. discriminate.
  - exact Hheld.
Defined.

(** Of two candidates with the same provider and model, which several keys of
    one model make, the attempt at the second is recorded and observed under
    the identity of the first. *)
Theorem attempt_under_another_key :
  let s := (ExecuteCandidateObserved NewCooldownTracker two_keys).1 in
  (StableKey <$> ch_called s) = ["model:1"; "model:2"; "openai/gpt-4"] ∧
  (at_IdentityKey <$> ch_attempts s) = ["model:1"; "model:1"] ∧
  (at_IdentityKey <$> ch_observed s) = ["model:1"; "model:1"; "openai/gpt-4"] ∧
  FailureCount "model:2" FailoverRateLimit (ch_tracker s) = 1.
Proof. vm_compute. done. Qed.
