(* ===== verification/FileUtil.v ===== *)
(** Package [pkg/fileutil] over one directory that survives crashes.

    A directory maps names to what stands there.  The file system makes the
    changes of a directory durable in their order (its journal): after a crash
    the directory is as it was after some change since the last one that a sync
    confirmed.  A disk is therefore the directory as processes see it with the
    states a crash may still bring back. *)
From S2P Require Import Prelude GoStrings GoText.
From Stdlib Require Import Ascii.
From stdpp Require Import pretty.
#[local] Open Scope Z_scope.

(** What a name stands for; reading an irregular file gives what it leads to. *)
Inductive Node := Regular (data : string) | Directory | Irregular (content : option string).
Abbreviation Names := (gmap string Node).

Record Disk := mkDisk { dk_now : Names; dk_since : list Names }.
Definition may_leave (d : Disk) : list Names := dk_now d :: dk_since d.
Definition change (f : Names → Names) (d : Disk) : Disk := mkDisk (f (dk_now d)) (dk_now d :: dk_since d).
Definition empty_disk : Disk := mkDisk ∅ [].
(** What the next process finds after a crash: one of the states, by its place. *)
Definition crash (k : nat) (d : Disk) : Disk := mkDisk (default (dk_now d) (may_leave d !! k)) [].

(** ** System calls, which may fail *)

Inductive FileError := ErrNotExist | ErrIO.
#[export] Instance FileError_eq_dec : EqDecision FileError. Proof. solve_decision. Defined.

Definition SyncDirectory (fails : bool) (d : Disk) : Disk * result FileError () :=
  if fails then (d, Err ErrIO) else (mkDisk (dk_now d) [], Ok tt).
Definition os_ReadFile (fails : bool) (name : string) (d : Disk) : result FileError string :=
  reject fails with ErrIO ;;
  match dk_now d !! name with
  | None => Err ErrNotExist
  | Some (Regular data) | Some (Irregular (Some data)) => Ok data
  | Some _ => Err ErrIO
  end.
Definition os_Lstat (fails : bool) (name : string) (d : Disk) : result FileError Node :=
  reject fails with ErrIO ;;
  match dk_now d !! name with None => Err ErrNotExist | Some node => Ok node end.
Definition os_Remove (fails : bool) (name : string) (d : Disk) : Disk * result FileError () :=
  if fails then (d, Err ErrIO) else
  match dk_now d !! name with
  | None => (d, Err ErrNotExist)
  | Some _ => (change (delete name) d, Ok tt)
  end.
(** A file does not replace a directory. *)
Definition os_Rename (fails : bool) (from to : string) (d : Disk) : Disk * result FileError () :=
  if fails then (d, Err ErrIO) else
  match dk_now d !! from, dk_now d !! to with
  | None, _ => (d, Err ErrNotExist)
  | Some _, Some Directory => (d, Err ErrIO)
  | Some node, _ => (change (fun n => <[to := node]> (delete from n)) d, Ok tt)
  end.

(** ** [WriteFileAtomic] *)

Inductive Stage := AtMkdir | AtCreate | AtWrite | AtChmod | AtSync | AtClose | AtRename.
#[export] Instance Stage_eq_dec : EqDecision Stage. Proof. solve_decision. Defined.
(** The environment of one write: the random part of the temporary name that
    [os.CreateTemp] settled on (a name that is taken fails the write, as when
    its last try finds one), the stage that fails, what was written by then,
    whether the temporary file cannot be removed, and whether the directory
    cannot be synced. *)
Record WriteEnv := mkWriteEnv {
  we_random : N; we_stage : option Stage; we_partial : string; we_leftover : bool; we_unsynced : bool }.

Definition temp_name (random : N) : string := ".tmp-" +:+ pretty random.

(** [Committed]: the new file is in place, its durability is not confirmed. *)
Inductive WriteError := NotWritten | Committed.
#[export] Instance WriteError_eq_dec : EqDecision WriteError. Proof. solve_decision. Defined.
Definition IsCommittedWriteError (e : WriteError) : bool := bool_decide (e = Committed).

Definition writeFileAtomic (we : WriteEnv) (name data : string) (d : Disk) : Disk * result WriteError () :=
  let temp := temp_name (we_random we) in
  let cleanup d := (os_Remove (we_leftover we) temp d).1 in
  let put text := change (<[temp := Regular text]>) in
  match we_stage we, dk_now d !! temp with
  | Some (AtMkdir | AtCreate), _ | _, Some _ => (d, Err NotWritten)
  | Some AtWrite, None => (cleanup (put (we_partial we) (put "" d)), Err NotWritten)
  | Some (AtChmod | AtSync | AtClose), None => (cleanup (put data (put "" d)), Err NotWritten)
  | stage, None =>
      match os_Rename (bool_decide (stage = Some AtRename)) temp name (put data (put "" d)) with
      | (d, Err _) => (cleanup d, Err NotWritten)
      | (d, Ok _) =>
          match SyncDirectory (we_unsynced we) d with
          | (d, Err _) => (d, Err Committed)
          | (d, Ok _) => (d, Ok tt)
          end
      end
  end.
