(* ===== verification/InboundSpool.v ===== *)
(** Package [pkg/bus], inbound_spool.go, inbound_ack.go and
    inbound_document_intake.go: the directory of inbound messages that are not
    acknowledged yet.

    Each operation holds the spool's mutex, so it is a function on the [Disk].
    An identity names files of the directory as it is: [newSpoolID] makes none
    with a separator, and an identity with one, which would name a file
    elsewhere, is outside this model. *)
From S2P Require Import Prelude GoStrings GoJson GoTime GoText BusInbound FileUtil.
From Stdlib Require Import Ascii.
From stdpp Require Import pretty.
#[local] Open Scope Z_scope.

(** ** Messages ([types.go]) *)

Record SenderInfo := mkSender {
  sn_Platform : string; sn_PlatformID : string; sn_CanonicalID : string; sn_Username : string; sn_DisplayName : string }.
Record InboundMessage := mkInbound {
  im_Context : InboundContext; im_Sender : SenderInfo; im_Content : string; im_Media : list string;
  im_MediaScope : string; im_SessionKey : string; im_SpoolID : string }.
#[export] Instance eta_InboundMessage : Eta InboundMessage := fun m =>
  mkInbound (im_Context m) (im_Sender m) (im_Content m) (im_Media m) (im_MediaScope m) (im_SessionKey m) (im_SpoolID m).

Definition Sender_json (s : SenderInfo) : json := JObj (
  fstr_omit "platform" (sn_Platform s) ++ fstr_omit "platform_id" (sn_PlatformID s) ++
  fstr_omit "canonical_id" (sn_CanonicalID s) ++ fstr_omit "username" (sn_Username s) ++
  fstr_omit "display_name" (sn_DisplayName s)).
Definition InboundMessage_json (m : InboundMessage) : json := JObj (
  field "context" (InboundContext_json (im_Context m)) ++ field "sender" (Sender_json (im_Sender m)) ++
  fstr "content" (im_Content m) ++ flist_omit "media" JStr (im_Media m) ++
  fstr_omit "media_scope" (im_MediaScope m) ++ fstr "session_key" (im_SessionKey m) ++
  fstr_omit "spool_id" (im_SpoolID m)).

(** ** The guard of a document intake *)

(** The prefix and 32 lower-case hexadecimal digits. *)
Definition valid_intake_id (value prefix : string) : bool :=
  has_prefix prefix value && (len value =? len prefix + 32)
  && forallb (fun r => (48 <=? r) && (r <=? 57) || (97 <=? r) && (r <=? 102))
       (runes (string_drop (String.length prefix) value)).
Definition IntakeGuard_Valid (g : InboundDocumentIntakeGuard) : bool :=
  if dg_Unavailable g && String.eqb (dg_JobID g) "" && String.eqb (dg_ModeID g) "" && String.eqb (dg_Reference g) ""
  then true
  else if negb (valid_intake_id (dg_JobID g) "form_job_") || negb (valid_intake_id (dg_ModeID g) "form_intake_") then false
  else if String.eqb (dg_Reference g) "" then true
  else match split_at "." (dg_Reference g) with
       | [kind; job; route; answer] =>
           String.eqb kind "form_route_answer" && String.eqb job (dg_JobID g)
           && valid_intake_id route "form_route_" && valid_intake_id answer "form_task_answer_"
       | [kind; job; x] =>
           String.eqb job (dg_JobID g)
           && (String.eqb kind "form_intake" && valid_intake_id x "form_input_"
               || String.eqb kind "form_route" && valid_intake_id x "form_route_")
       | _ => false
       end.

(** ** Records *)

Record spooledInboundRecord := mkRecord {
  sr_Version : Z; sr_ID : string; sr_ReceivedAt : Time; sr_Attempts : Z; sr_LastError : string; sr_Message : InboundMessage }.
#[export] Instance eta_record : Eta spooledInboundRecord := fun r =>
  mkRecord (sr_Version r) (sr_ID r) (sr_ReceivedAt r) (sr_Attempts r) (sr_LastError r) (sr_Message r).
Definition inboundSpoolVersion : Z := 1.
Definition inboundDocumentSpoolVersion : Z := 2.

Definition record_json (r : spooledInboundRecord) : json := JObj (
  fint "version" (sr_Version r) ++ fstr "id" (sr_ID r) ++ ftime "received_at" (sr_ReceivedAt r) ++
  fint_omit "attempts" (sr_Attempts r) ++ fstr_omit "last_error" (sr_LastError r) ++
  field "message" (InboundMessage_json (sr_Message r))).
Definition record_text (r : spooledInboundRecord) : string := marshal_indent "" "  " (record_json r).
#[global] Arguments record_text : simpl never.
Definition record_marshals (r : spooledInboundRecord) : bool :=
  time_marshals (sr_ReceivedAt r)
  && (let t := ic_ReceivedAt (im_Context (sr_Message r)) in IsZero t || time_marshals t).

Definition intake (r : spooledInboundRecord) : InboundDocumentIntakeGuard := ic_DocumentIntake (im_Context (sr_Message r)).

Inductive SpoolError :=
| CtxDone | RetiredContext | VersionUnsupported | DocumentGuard | NoID | CannotMarshal | CannotPersist (e : WriteError)
| FileFailed (e : FileError) | RenameUnconfirmed | CannotDecode | InvalidIdentity | NotRegular | Ambiguous
| IdentityMismatch | AckFailed (remove sync : option FileError).

Definition validateInboundSpoolVersion (r : spooledInboundRecord) : result SpoolError () :=
  if sr_Version r =? inboundSpoolVersion then reject negb (IntakeGuard_IsZero (intake r)) with DocumentGuard ;; Ok tt
  else if sr_Version r =? inboundDocumentSpoolVersion then reject negb (IntakeGuard_Valid (intake r)) with DocumentGuard ;; Ok tt
  else Err VersionUnsupported.

Definition retiredInboundInteractionRawKeys : list string :=
  ["interaction_choice"; "interaction_response"; "interaction_response_candidate"; "interaction_short_id";
   "interaction_response_error"; "interaction_option_index"; "interaction_response_message_id"].
Definition has_key (m : gmap string string) (key : string) : bool := bool_decide (is_Some (m !! key)).

(** ** File names *)

Definition pendingPath (id : string) : string := id +:+ ".json".
Definition processingPath (id : string) : string := id +:+ ".processing".
Definition failedPath (id : string) : string := id +:+ ".failed".
Definition spoolIDFromName (name : string) : string :=
  trim_suffix (trim_suffix (trim_suffix name ".processing") ".failed") ".json".

(** [filepath.Base]: without trailing separators, what follows the last one. *)
Fixpoint after_slash (s : string) : string :=
  match s with
  | "" => ""
  | String c s' => if in_string "/" s' then after_slash s' else if Ascii.eqb c "/" then s' else String c s'
  end.
Fixpoint trim_slashes (s : string) : string :=
  match s with
  | "" => ""
  | String c s' => match trim_slashes s' with "" => if Ascii.eqb c "/" then "" else String c "" | t => String c t end
  end.
Definition filepath_Base (s : string) : string :=
  if String.eqb s "" then "." else match trim_slashes s with "" => "/" | t => after_slash t end.

(** ** The environment of an operation

    Whether the context is done, before and under the lock and at a file of
    [Pending]; the clock; sixteen random bytes; the write of a record; and which
    system calls fail on which names. *)
Record Env := mkEnv {
  env_done : bool; env_done' : bool; env_done_at : string → bool;
  env_now : Time; env_id_now : Time; env_random : option (list Z);
  env_write : spooledInboundRecord → WriteEnv; env_rename : bool; env_sync : bool;
  env_read : string → bool; env_stat : string → bool; env_remove : string → bool; env_readdir : option FileError }.

Definition unix_epoch : Z := 719162 * 86400 * 1000000000.
Definition hex_byte (b : Z) : string := hex_digit (b / 16 mod 16) +:+ hex_digit (b mod 16).
Definition newSpoolID (e : Env) : result SpoolError string :=
  match env_random e with
  | None => Err NoID
  | Some b => Ok (pretty (t_ns (env_id_now e) - unix_epoch) +:+ "-" +:+ concat_strings (hex_byte <$> b))
  end.

(** [json.Unmarshal] into a record. *)
Class SpoolDecoder := spool_decode : string → option spooledInboundRecord.

Section spool.
Context `{UnicodeCase, SpoolDecoder}.
Implicit Types (d : Disk) (e : Env) (r : spooledInboundRecord) (m : InboundMessage) (id name : string).

Definition validateCurrentInboundSpoolContext (c : InboundContext) : result SpoolError () :=
  let raw := ic_Raw c in
  let kind := normalizeKind (ic_Channel c) in
  reject negb (IntakeGuard_IsZero (ic_DocumentIntake c)) && negb (IntakeGuard_Valid (ic_DocumentIntake c)) with DocumentGuard ;;
  if bool_decide (size raw = 0%nat) then Ok tt else
  reject (String.eqb kind "mintclaw" || String.eqb kind "mintclaw_client") && has_key raw "session_id" with RetiredContext ;;
  reject existsb (has_key raw) retiredInboundInteractionRawKeys with RetiredContext ;;
  Ok tt.

Definition NormalizeInboundMessage m : InboundMessage := m <| im_Context ::= normalizeInboundContext |>.

(** ** Files *)

Definition writeRecord e name r d : Disk * result SpoolError () :=
  match validateInboundSpoolVersion r with
  | Err x => (d, Err x)
  | Ok _ =>
      if negb (record_marshals r) then (d, Err CannotMarshal) else
      match writeFileAtomic (env_write e r) name (record_text r) d with
      | (d, Err x) => (d, Err (CannotPersist x))
      | (d, Ok _) => (d, Ok tt)
      end
  end.
(** What [readRecord] makes of the text of a file. *)
Definition parse_record name (text : string) : result SpoolError spooledInboundRecord :=
  match spool_decode text with
  | None => Err CannotDecode
  | Some r =>
      validateInboundSpoolVersion r ≫= fun _ =>
      Ok (if String.eqb (sr_ID r) "" then r <| sr_ID := spoolIDFromName name |> else r)
  end.
Definition readRecord e name d : result SpoolError spooledInboundRecord :=
  match os_ReadFile (env_read e name) name d with
  | Err x => Err (FileFailed x)
  | Ok text => parse_record name text
  end.
Definition removeIfExists e name d : Disk * result FileError () :=
  match os_Remove (env_remove e name) name d with
  | (d, Err ErrNotExist) => (d, Ok tt)
  | x => x
  end.
Definition renameRecord e (from to : string) d : Disk * result SpoolError () :=
  match os_Rename (env_rename e) from to d with
  | (d, Err x) => (d, Err (FileFailed x))
  | (d, Ok _) =>
      match SyncDirectory (env_sync e) d with
      | (d, Err _) => (d, Err RenameUnconfirmed)
      | (d, Ok _) => (d, Ok tt)
      end
  end.

(** ** Operations *)

(** The message and the record that [Prepare] makes of a message. *)
Definition prepared e id m : InboundMessage :=
  let m := if IsZero (ic_ReceivedAt (im_Context m))
           then m <| im_Context ::= fun c => c <| ic_ReceivedAt := UTC (env_now e) |> |> else m in
  m <| im_SpoolID := id |>.
Definition prepared_record id m : spooledInboundRecord :=
  let r := mkRecord inboundSpoolVersion id (ic_ReceivedAt (im_Context m)) 0 "" m in
  if negb (IntakeGuard_IsZero (ic_DocumentIntake (im_Context m))) then r <| sr_Version := inboundDocumentSpoolVersion |> else r.

Definition Prepare e m d : Disk * result SpoolError InboundMessage :=
  if negb (String.eqb (im_SpoolID m) "") then (d, Ok m)
  else if env_done e then (d, Err CtxDone)
  else match validateCurrentInboundSpoolContext (im_Context m) with
  | Err x => (d, Err x)
  | Ok _ =>
  if env_done' e then (d, Err CtxDone)
  else match newSpoolID e with
  | Err x => (d, Err x)
  | Ok id =>
      let m := prepared e id m in
      match writeRecord e (pendingPath id) (prepared_record id m) d with
      | (d, Err x) => (d, Err x)
      | (d, Ok _) =>
          match renameRecord e (pendingPath id) (processingPath id) d with
          | (d, Err x) => (d, Err x)
          | (d, Ok _) => (d, Ok m)
          end
      end
  end
  end.

Definition replayable name : bool := has_suffix ".json" name || has_suffix ".processing" name.
(** The names of the files to replay, sorted. *)
Definition pending_names (n : Names) : list string :=
  merge_sort str_le ((List.filter (fun p => match p.2 with Directory => false | _ => replayable p.1 end) (map_to_list n)).*1).
(** The message that is replayed for a record. *)
Definition replayed r : InboundMessage :=
  let m := NormalizeInboundMessage (sr_Message r) in
  let m := if IsZero (ic_ReceivedAt (im_Context m))
           then m <| im_Context ::= fun c => c <| ic_ReceivedAt := UTC (sr_ReceivedAt r) |> |> else m in
  m <| im_SpoolID := sr_ID r |>.
Fixpoint pending_loop e d (names : list string) (msgs : list InboundMessage) : list InboundMessage * option SpoolError :=
  match names with
  | [] => (msgs, None)
  | name :: names =>
      if env_done_at e name then (msgs, Some CtxDone) else
      match readRecord e name d with
      | Err x => (msgs, Some x)
      | Ok r =>
          match validateCurrentInboundSpoolContext (im_Context (sr_Message r)) with
          | Err x => (msgs, Some x)
          | Ok _ => pending_loop e d names (msgs ++ [replayed r])
          end
      end
  end.
Definition Pending e (limit : Z) d : list InboundMessage * option SpoolError :=
  if env_done e || env_done' e then ([], Some CtxDone) else
  match env_readdir e with
  | Some ErrNotExist => ([], None)
  | Some x => ([], Some (FileFailed x))
  | None =>
      let names := pending_names (dk_now d) in
      let names := if (0 <? limit) && (limit <? Z.of_nat (length names)) then take (Z.to_nat limit) names else names in
      pending_loop e d names []
  end.

(** Whether the guard of a record refuses the guard of a message. *)
Definition guard_refuses (guard new : InboundDocumentIntakeGuard) : bool :=
  negb (IntakeGuard_IsZero guard)
  && (negb (String.eqb (dg_JobID guard) (dg_JobID new))
      || negb (Bool.eqb (dg_ConversationHistory guard) (dg_ConversationHistory new))
      || dg_Unavailable guard && negb (dg_Unavailable new)
      || negb (String.eqb (dg_ModeID guard) (dg_ModeID new))
      || negb (String.eqb (dg_Reference guard) "") && negb (String.eqb (dg_Reference guard) (dg_Reference new))).
Definition persisted m r : result SpoolError spooledInboundRecord :=
  let context := normalizeInboundContext (im_Context m) in
  reject guard_refuses (intake r) (ic_DocumentIntake context) with DocumentGuard ;;
  reject negb (IntakeGuard_IsZero (ic_DocumentIntake context)) && negb (IntakeGuard_Valid (ic_DocumentIntake context))
    with DocumentGuard ;;
  let r := if negb (IntakeGuard_IsZero (ic_DocumentIntake context))
           then r <| sr_Version := inboundDocumentSpoolVersion |>
                  <| sr_Message ::= fun m => m <| im_Context ::= fun c => c <| ic_DocumentIntake := ic_DocumentIntake context |> |> |>
           else r in
  let at_ := if IsZero (ic_ReceivedAt context) then UTC (sr_ReceivedAt r) else ic_ReceivedAt context in
  Ok (r <| sr_ReceivedAt := at_ |>
        <| sr_Message ::= fun m => m <| im_Context ::= fun c =>
             c <| ic_ReceivedAt := at_ |> <| ic_Relation := ic_Relation context |> |> |>).
Definition PersistContext e m d : Disk * result SpoolError () :=
  if String.eqb (im_SpoolID m) "" then (d, Ok tt) else
  let processing := processingPath (im_SpoolID m) in
  let pending := pendingPath (im_SpoolID m) in
  let '(path, rec) :=
    match readRecord e processing d with
    | Err (FileFailed ErrNotExist) => (pending, readRecord e pending d)
    | x => (processing, x)
    end in
  match rec ≫= persisted m with
  | Err x => (d, Err x)
  | Ok r => writeRecord e path r d
  end.

Definition ackLocked e id d : Disk * result SpoolError () :=
  let '(d, removed) :=
    match removeIfExists e (processingPath id) d with
    | (d, Err x) => (d, Err x)
    | (d, Ok _) => removeIfExists e (pendingPath id) d
    end in
  let error {A} (x : result FileError A) := match x with Err x => Some x | Ok _ => None end in
  let '(d, synced) := SyncDirectory (env_sync e) d in
  match removed, synced with
  | Ok _, Ok _ => (d, Ok tt)
  | _, _ => (d, Err (AckFailed (error removed) (error synced)))
  end.
Definition Ack e id d : Disk * result SpoolError () :=
  if String.eqb id "" then (d, Ok tt) else ackLocked e id d.

Definition attempted (cause : option string) r : spooledInboundRecord :=
  let r := r <| sr_Attempts ::= fun n => n + 1 |> in
  match cause with Some text => r <| sr_LastError := text |> | None => r end.
(** [Release] and [Fail] differ in where the record goes. *)
Definition retire (to : string → string) e id cause d : Disk * result SpoolError () :=
  if String.eqb id "" then (d, Ok tt) else
  match readRecord e (processingPath id) d with
  | Err (FileFailed ErrNotExist) =>
      match SyncDirectory (env_sync e) d with
      | (d, Err x) => (d, Err (FileFailed x))
      | (d, Ok _) => (d, Ok tt)
      end
  | Err x => (d, Err x)
  | Ok r =>
      match writeRecord e (processingPath id) (attempted cause r) d with
      | (d, Err x) => (d, Err x)
      | (d, Ok _) => renameRecord e (processingPath id) (to id) d
      end
  end.
Definition Release := retire pendingPath.
Definition Fail := retire failedPath.

(** ** Acknowledgement ([inbound_ack.go]) *)

Record InboundAckReceipt := mkReceipt { rc_spoolDir : string; rc_sourceID : string }.
Definition no_receipt : InboundAckReceipt := mkReceipt "" "".
(** [own] is the resolved spool directory of the instance, when it has one. *)
Definition Acknowledges (receipt : InboundAckReceipt) (instanceRoot sourceID : string) (own : option string) : bool :=
  if String.eqb (rc_spoolDir receipt) "" || String.eqb (rc_sourceID receipt) ""
     || negb (String.eqb sourceID (rc_sourceID receipt)) || String.eqb (trim_space instanceRoot) "" then false
  else match own with Some dir => String.eqb dir (rc_spoolDir receipt) | None => false end.

Definition acknowledge_record id (text : string) : result SpoolError () :=
  match spool_decode text with
  | None => Err CannotDecode
  | Some r =>
      validateInboundSpoolVersion r ≫= fun _ =>
      validateCurrentInboundSpoolContext (im_Context (sr_Message r)) ≫= fun _ =>
      reject negb (String.eqb (sr_ID r) id)
             || negb (String.eqb (im_SpoolID (sr_Message r)) "") && negb (String.eqb (im_SpoolID (sr_Message r)) id)
        with IdentityMismatch ;;
      Ok tt
  end.
Fixpoint acknowledge_loop e id d (paths : list string) (found : bool) : result SpoolError bool :=
  match paths with
  | [] => Ok found
  | path :: paths =>
      match os_Lstat (env_stat e path) path d with
      | Err ErrNotExist => acknowledge_loop e id d paths found
      | Err x => Err (FileFailed x)
      | Ok (Regular _) =>
          reject found with Ambiguous ;;
          match os_ReadFile (env_read e path) path d with
          | Err x => Err (FileFailed x)
          | Ok text => acknowledge_record id text ≫= fun _ => acknowledge_loop e id d paths true
          end
      | Ok _ => Err NotRegular
      end
  end.
Definition invalid_source id : bool :=
  String.eqb id "." || String.eqb id ".." || in_string "/" id || in_string "\" id || negb (String.eqb (filepath_Base id) id).
Definition acknowledge e (dir id : string) d : Disk * result SpoolError InboundAckReceipt :=
  if String.eqb id "" then (d, Ok no_receipt) else
  if invalid_source id then (d, Err InvalidIdentity) else
  match acknowledge_loop e id d [processingPath id; pendingPath id] false with
  | Err x => (d, Err x)
  | Ok found =>
      match ackLocked e id d with
      | (d, Err x) => (d, Err x)
      | (d, Ok _) => (d, Ok (if found then mkReceipt dir id else no_receipt))
      end
  end.
End spool.
