(* ===== verification/SpoolSteps.v ===== *)
(** The inbound spool step by step: its names and files, what a write, a rename
    and a removal do to the two files of one identity, and what each operation
    does to the record of one identity, the steps it may make ([moves]), in
    every state a crash may leave. *)
From S2P Require Import Prelude GoStrings GoJson GoTime GoText BusInbound FileUtil InboundSpool.
From Stdlib Require Import Ascii.
From stdpp Require Import pretty.
#[local] Open Scope Z_scope.

(** ** Names *)

Definition last_char (s : string) : option ascii := last (String.list_ascii_of_string s).
Lemma list_ascii_app s t :
  String.list_ascii_of_string (s +:+ t) = String.list_ascii_of_string s ++ String.list_ascii_of_string t.
Proof. induction s as [|c s IH]; [done|]. exact (f_equal (cons c) IH). Qed.
Lemma last_char_app s t : t ≠ "" → last_char (s +:+ t) = last_char t.
Proof.
  intros Ht. unfold last_char. rewrite list_ascii_app, last_app. destruct t as [|c t]; [done|].
  cbn [String.list_ascii_of_string]. by destruct (last (c :: _)) eqn:E; [|apply last_None in E].
Qed.
Lemma string_app_inj_r s t u : s +:+ u = t +:+ u → s = t.
Proof.
  intros Heq. apply (f_equal String.list_ascii_of_string) in Heq. rewrite !list_ascii_app in Heq. apply app_inv_tail in Heq.
  by rewrite <- (String.string_of_list_ascii_of_string s), <- (String.string_of_list_ascii_of_string t), Heq.
Qed.

Definition is_digit (c : ascii) : bool := let b := byte_of c in (48 <=? b) && (b <=? 57).
Lemma pretty_N_char_digit x : is_digit (pretty_N_char x) = true.
Proof. unfold pretty_N_char. repeat case_match; reflexivity. Qed.
Lemma pretty_N_go_last x : ∀ s c, last_char s = Some c → is_digit c = true → s ≠ "" →
  ∃ c', last_char (pretty_N_go x s) = Some c' ∧ is_digit c' = true.
Proof.
  induction (N.lt_wf_0 x) as [x _ IH]. intros s c Hc Hd Hs.
  destruct (decide (0 < x)%N) as [Hx|Hx].
  - rewrite pretty_N_go_step by done.
    assert (Hl : last_char (String (pretty_N_char (x `mod` 10)) s) = last_char s)
      by exact (last_char_app (String (pretty_N_char (x `mod` 10)) "") s Hs).
    apply (IH _ (N.div_lt x 10 Hx ltac:(lia)) _ c); [by rewrite Hl|done|done].
  - assert (x = 0%N) as -> by lia. rewrite pretty_N_go_0. eauto.
Qed.
Lemma temp_name_last k : ∃ c, last_char (temp_name k) = Some c ∧ is_digit c = true.
Proof.
  assert (Hp : ∃ c, last_char (pretty k) = Some c ∧ is_digit c = true).
  { unfold pretty, pretty_N. case_decide as Hk; [by exists "0"%char|].
    rewrite pretty_N_go_step by lia.
    apply (pretty_N_go_last _ _ (pretty_N_char (k `mod` 10))); [done|apply pretty_N_char_digit|done]. }
  destruct Hp as (c & Hc & Hd). exists c. split; [|done]. unfold temp_name. rewrite last_char_app; [done|].
  intros He. by rewrite He in Hc.
Qed.
Lemma processing_last id : last_char (processingPath id) = Some "g"%char. Proof. by apply last_char_app. Qed.
Lemma pending_last id : last_char (pendingPath id) = Some "n"%char. Proof. by apply last_char_app. Qed.
Lemma failed_last id : last_char (failedPath id) = Some "d"%char. Proof. by apply last_char_app. Qed.

Lemma path_names id id' k :
  (processingPath id = processingPath id' ↔ id = id') ∧ (pendingPath id = pendingPath id' ↔ id = id')
  ∧ processingPath id ≠ pendingPath id' ∧ failedPath id ≠ pendingPath id' ∧ failedPath id ≠ processingPath id'
  ∧ temp_name k ≠ pendingPath id ∧ temp_name k ≠ processingPath id.
Proof.
  destruct (temp_name_last k) as (c & Hc & Hd).
  split_and!; try (split; [apply string_app_inj_r|congruence]); intros Heq; apply (f_equal last_char) in Heq;
    rewrite ?processing_last, ?pending_last, ?failed_last, ?Hc in Heq; try done; injection Heq as ->; done.
Qed.

Lemma has_suffix_spec suf s : has_suffix suf s = true → ∃ p, s = p +:+ suf.
Proof.
  unfold has_suffix. intros [Hl%Nat.leb_le He%String.eqb_eq]%andb_true_iff.
  exists (String.substring 0 (String.length s - String.length suf) s). rewrite <- He at 2.
  generalize (String.length s - String.length suf)%nat as n. clear. intros n. revert s.
  induction n as [|n IH]; intros [|c s]; [done|done|done|]. exact (f_equal (String c) (IH s)).
Qed.
Lemma replayable_path name : replayable name = true ↔ ∃ id, name = pendingPath id ∨ name = processingPath id.
Proof.
  unfold replayable. rewrite orb_true_iff. split.
  - intros [H|H]; apply has_suffix_spec in H as (p & ->); exists p; auto.
  - assert (Hs : ∀ p suf, has_suffix suf (p +:+ suf) = true).
    { intros p suf. unfold has_suffix. rewrite andb_true_iff, Nat.leb_le, String.eqb_eq, string_length_app.
      split; [lia|]. replace (String.length p + String.length suf - String.length suf)%nat with (String.length p) by lia.
      apply string_drop_app. }
    intros (id & [->| ->]); [left|right]; apply Hs.
Qed.

(** ** Directories up to temporary files *)

Definition alike (n n' : Names) : Prop := ∀ name, (∀ k, name ≠ temp_name k) → n !! name = n' !! name.
#[export] Instance alike_equivalence : Equivalence alike.
Proof.
  split; [by intros n name _|intros n n' Hn name Hk; by rewrite Hn|].
  intros n1 n2 n3 H12 H23 name Hk. by rewrite H12, H23.
Qed.
#[export] Instance alike_insert name node : Proper (alike ==> alike) (<[name := node]> : Names → Names).
Proof.
  intros n n' Hn x Hx. destruct (decide (x = name)) as [->|Hne]; [by rewrite !lookup_insert_eq|].
  rewrite !lookup_insert_ne by done. by apply Hn.
Qed.
Lemma alike_temp n k node : alike (<[temp_name k := node]> n) n.
Proof. intros name Hk. rewrite lookup_insert_ne; [done|]. intros He. by apply (Hk k). Qed.
Lemma alike_temp_gone n k : alike (delete (temp_name k) n) n.
Proof. intros name Hk. rewrite lookup_delete_ne; [done|]. intros He. by apply (Hk k). Qed.
Lemma alike_renamed n k name node : alike (<[name := node]> (delete (temp_name k) n)) (<[name := node]> n).
Proof. by rewrite alike_temp_gone. Qed.

(** Every state a crash may leave is one it could leave before, looks like the
    directory as it was, or, when [there], has the new file in place. *)
Definition replaced (there : Prop) (name data : string) (d d' : Disk) : Prop :=
  ∀ n, n ∈ may_leave d' → n ∈ may_leave d ∨ alike n (dk_now d) ∨ there ∧ alike n (<[name := Regular data]> (dk_now d)).

Lemma replaced_change there name data d d' f : replaced there name data d d' →
  alike (f (dk_now d')) (dk_now d) ∨ there ∧ alike (f (dk_now d')) (<[name := Regular data]> (dk_now d)) →
  replaced there name data d (change f d').
Proof. intros Hr Hf n [->|Hn]%elem_of_cons; [by right|by apply Hr]. Qed.
Lemma replaced_refl there name data d : replaced there name data d d.
Proof. intros n Hn. by left. Qed.

Section put.
Variables (k : N) (name data : string) (d : Disk) (there : Prop).
Let put text := change (<[temp_name k := Regular text]>).
Definition like_before (d' : Disk) : Prop := alike (dk_now d') (dk_now d) ∧ replaced there name data d d'.

Lemma like_before_refl : like_before d.
Proof. split; [done|apply replaced_refl]. Qed.
Lemma put_before text d' : like_before d' → like_before (put text d').
Proof. intros [Ha Hr]. split; [|apply replaced_change; [done|left]]; cbn; by rewrite alike_temp. Qed.
Lemma remove_before fails d' : like_before d' → like_before (os_Remove fails (temp_name k) d').1.
Proof.
  intros [Ha Hr]. unfold os_Remove. destruct fails; [by split|].
  destruct (dk_now d' !! temp_name k); [|by split]. split; [|apply replaced_change; [done|left]]; cbn; by rewrite alike_temp_gone.
Qed.
End put.

Lemma rename_cases fails from to d d' res : os_Rename fails from to d = (d', res) →
  match res with
  | Ok _ => fails = false ∧ ∃ node, dk_now d !! from = Some node ∧ d' = change (fun n => <[to := node]> (delete from n)) d
  | Err _ => d' = d
  end.
Proof.
  unfold os_Rename. destruct fails; [by intros [= <- <-]|].
  destruct (dk_now d !! from) as [node|]; [|by intros [= <- <-]].
  destruct (dk_now d !! to) as [[| |]|]; intros [= <- <-]; try done; split; try done; by exists node.
Qed.

(** What a write comes to. *)
Definition write_result (there : Prop) (name data : string) (d d' : Disk) (res : result WriteError ()) : Prop :=
  replaced there name data d d' ∧
  match res with
  | Ok _ => there ∧ alike (dk_now d') (<[name := Regular data]> (dk_now d)) ∧ dk_since d' = []
  | Err Committed => there ∧ alike (dk_now d') (<[name := Regular data]> (dk_now d))
  | Err NotWritten => alike (dk_now d') (dk_now d)
  end.
Lemma not_written there name data d d1 d' res : like_before name data d there d1 → (d1, Err NotWritten) = (d', res) →
  write_result there name data d d' res.
Proof. intros [Ha Hr] [= <- <-]. by split. Qed.

Lemma write_outcome we name data d d' res : writeFileAtomic we name data d = (d', res) →
  write_result (we_stage we = None) name data d d' res.
Proof.
  set (there := we_stage we = None). set (k := we_random we).
  pose proof (like_before_refl name data d there) as H0.
  pose proof (put_before k name data d there "" d H0) as H1. pose proof (put_before k name data d there data _ H1) as H2.
  pose proof (put_before k name data d there (we_partial we) _ H1) as H2'.
  unfold writeFileAtomic. fold k. cbv zeta.
  destruct (dk_now d !! temp_name k) eqn:Hk; [by destruct (we_stage we) as [[]|]; apply not_written|].
  destruct (we_stage we) as [[]|] eqn:Hs;
    try (by apply not_written); try (apply not_written; by apply (remove_before k)).
  destruct (os_Rename _ _ name _) as [d3 res3] eqn:Hr. apply rename_cases in Hr.
  destruct res3 as [u|x]; [|subst d3; apply not_written; by apply (remove_before k)].
  destruct Hr as (_ & node & Hn & ->). cbn [change dk_now] in Hn. rewrite lookup_insert_eq in Hn. injection Hn as <-.
  set (d3 := change _ _). assert (Ha : alike (dk_now d3) (<[name := Regular data]> (dk_now d))).
  { destruct H2 as [H2 _]. cbn [d3 change dk_now]. rewrite alike_renamed. by rewrite H2. }
  assert (Hd3 : replaced there name data d d3) by (apply replaced_change; [apply H2|by right]).
  unfold SyncDirectory. destruct (we_unsynced we); intros [= <- <-]; [by split|].
  split; [|by split_and!]. intros n ->%list_elem_of_singleton. apply Hd3. by left.
Qed.

(** ** Every state a crash may leave *)

Definition every (P : Names → Prop) (d : Disk) : Prop := ∀ n, n ∈ may_leave d → P n.
Lemma every_now P d : every P d → P (dk_now d).
Proof. intros HP. apply HP. by left. Qed.
Lemma every_change P f d : every P d → P (f (dk_now d)) → every P (change f d).
Proof. intros HP Hf n [->|Hn]%elem_of_cons; [done|by apply HP]. Qed.
Lemma every_crash P k d : every P d → every P (crash k d).
Proof.
  intros HP n ->%list_elem_of_singleton. cbn. destruct (may_leave d !! k) as [n|] eqn:E; cbn; [|by apply every_now].
  apply HP. by eapply list_elem_of_lookup_2.
Qed.
Lemma every_sync P fails d d' res : SyncDirectory fails d = (d', res) → every P d →
  every P d' ∧ dk_now d' = dk_now d ∧ (is_ok res = true → dk_since d' = []).
Proof.
  unfold SyncDirectory. destruct fails; intros [= <- <-] HP; [split_and!; [done|done|by intros [=]]|]. split; [|done].
  intros n ->%list_elem_of_singleton. exact (every_now P d HP).
Qed.
Lemma every_remove P fails name d d' res : os_Remove fails name d = (d', res) → every P d → P (delete name (dk_now d)) →
  every P d' ∧ (dk_now d' = dk_now d ∨ dk_now d' = delete name (dk_now d)) ∧
  (res = Ok tt ∨ res = Err ErrNotExist → dk_now d' = delete name (dk_now d)).
Proof.
  unfold os_Remove. destruct fails; [intros [= <- <-]; naive_solver|].
  destruct (dk_now d !! name) as [node|] eqn:E; intros [= <- <-] HP Hd.
  - split; [by apply every_change|]. split; [by right|done].
  - split; [done|]. split; [by left|]. intros _. by rewrite delete_id.
Qed.
Lemma every_rename P fails from to d d' res : os_Rename fails from to d = (d', res) → every P d →
  (∀ node, dk_now d !! from = Some node → P (<[to := node]> (delete from (dk_now d)))) →
  every P d' ∧
  match res with
  | Ok _ => ∃ node, dk_now d !! from = Some node ∧ dk_now d' = <[to := node]> (delete from (dk_now d))
  | Err _ => dk_now d' = dk_now d
  end.
Proof.
  intros Hr HP Hn. apply rename_cases in Hr. destruct res as [u|x]; [|by subst].
  destruct Hr as (_ & node & Hf & ->). split; [apply every_change; auto|]. by exists node.
Qed.
Lemma every_write P `{!Proper (alike ==> iff) P} we name data d d' res : writeFileAtomic we name data d = (d', res) → every P d →
  (we_stage we = None → P (<[name := Regular data]> (dk_now d))) →
  every P d' ∧
  match res with
  | Ok _ => we_stage we = None ∧ alike (dk_now d') (<[name := Regular data]> (dk_now d)) ∧ dk_since d' = []
  | Err Committed => we_stage we = None ∧ alike (dk_now d') (<[name := Regular data]> (dk_now d))
  | Err NotWritten => alike (dk_now d') (dk_now d)
  end.
Proof.
  intros [Hr Hw]%write_outcome HP Hp. split; [|done]. intros n Hn. destruct (Hr n Hn) as [?|[Ha|[Ht Ha]]].
  - by apply HP.
  - rewrite Ha. by apply every_now.
  - rewrite Ha. by apply Hp.
Qed.

(** ** The two files of one identity *)

Inductive Place := Processing | Waiting.
#[export] Instance Place_eq_dec : EqDecision Place. Proof. solve_decision. Defined.
Definition path_of (p : Place) : string → string := match p with Processing => processingPath | Waiting => pendingPath end.
(** The names of other identities stand for what they stood for. *)
Definition frame (id : string) (n n' : Names) : Prop := ∀ i p, i ≠ id → n' !! path_of p i = n !! path_of p i.
#[export] Instance frame_alike id : Proper (alike ==> alike ==> iff) (frame id).
Proof.
  assert (H : ∀ n1 n1' n2 n2', alike n1 n1' → alike n2 n2' → frame id n1 n2 → frame id n1' n2').
  { intros n1 n1' n2 n2' H1 H2 Hf i p Hi.
    assert (Ht : ∀ k, path_of p i ≠ temp_name k) by (intros k He; destruct (path_names i i k) as (_ & _ & _ & _ & _ & ? & ?), p; cbn in He; congruence).
    rewrite <- (H1 _ Ht), <- (H2 _ Ht). by apply Hf. }
  intros n1 n1' H1 n2 n2' H2. split; by apply H.
Qed.
Lemma path_of_inj p q i j : path_of p i = path_of q j ↔ p = q ∧ i = j.
Proof. destruct (path_names i j 0) as (H1 & H2 & H3 & _), (path_names j i 0) as (_ & _ & H3' & _), p, q; cbn; naive_solver. Qed.
Lemma failed_not_path p i j : failedPath i ≠ path_of p j.
Proof. destruct (path_names i j 0) as (_ & _ & _ & H4 & H5 & _), p; cbn; naive_solver. Qed.
Lemma frame_refl id n : frame id n n. Proof. done. Qed.
Lemma frame_trans id n1 n2 n3 : frame id n1 n2 → frame id n2 n3 → frame id n1 n3.
Proof. intros H1 H2 i p Hi. rewrite H2 by done. by apply H1. Qed.
Lemma frame_insert id p node n : frame id n (<[path_of p id := node]> n).
Proof. intros i q Hi. rewrite lookup_insert_ne; [done|]. by intros [_ ->]%path_of_inj. Qed.
Lemma frame_delete id p n : frame id n (delete (path_of p id) n).
Proof. intros i q Hi. rewrite lookup_delete_ne; [done|]. by intros [_ ->]%path_of_inj. Qed.
Lemma frame_failed id j node n : frame id n (<[failedPath j := node]> n).
Proof. intros i q Hi. rewrite lookup_insert_ne; [done|]. apply failed_not_path. Qed.

(** ** Operations *)

Inductive Op :=
| OpPrepare (m : InboundMessage) | OpPending (limit : Z) | OpPersist (m : InboundMessage)
| OpAck (id : string) | OpAcknowledge (id : string)
| OpRelease (id : string) (cause : option string) | OpFail (id : string) (cause : option string)
| OpCrash (k : nat).

Section steps.
Context `{UnicodeCase, SpoolDecoder}.
Variable dir : string.
Implicit Types (d : Disk) (e : Env) (r : spooledInboundRecord) (m : InboundMessage) (id i : string) (n : Names) (p : Place).

Definition step d (x : Env * Op) : Disk :=
  let '(e, op) := x in
  match op with
  | OpPrepare m => (Prepare e m d).1
  | OpPending _ => d
  | OpPersist m => (PersistContext e m d).1
  | OpAck id => (Ack e id d).1
  | OpAcknowledge id => (acknowledge e dir id d).1
  | OpRelease id cause => (Release e id cause d).1
  | OpFail id cause => (Fail e id cause d).1
  | OpCrash k => crash k d
  end.
Definition run d (tr : list (Env * Op)) : Disk := foldl step d tr.

(** The records that this environment lets reach the disk read back. *)
Definition readable e : Prop := ∀ r, we_stage (env_write e r) = None → spool_decode (record_text r) = Some r.

(** ** The record of an identity *)

Definition good id r : Prop :=
  id ≠ "" ∧ sr_ID r = id ∧ im_SpoolID (sr_Message r) = id ∧ validateInboundSpoolVersion r = Ok tt
  ∧ validateCurrentInboundSpoolContext (im_Context (sr_Message r)) = Ok tt.
Definition other p : Place := match p with Processing => Waiting | Waiting => Processing end.
Definition decoded (node : option Node) : option spooledInboundRecord :=
  match node with Some (Regular text) => spool_decode text | _ => None end.
Definition view n id : option (Place * spooledInboundRecord) :=
  match n !! processingPath id, n !! pendingPath id with
  | Some node, None => pair Processing <$> decoded (Some node)
  | None, Some node => pair Waiting <$> decoded (Some node)
  | _, _ => None
  end.
Definition holds n id p r : Prop :=
  n !! path_of p id = Some (Regular (record_text r)) ∧ n !! path_of (other p) id = None
  ∧ spool_decode (record_text r) = Some r ∧ good id r.
Definition absent n id : Prop := ∀ p, n !! path_of p id = None.
Definition wf n : Prop := ∀ id, absent n id ∨ ∃ p r, holds n id p r.

Lemma holds_view n id p r : holds n id p r → view n id = Some (p, r).
Proof. intros (H1 & H2 & H3 & _). unfold view. destruct p; cbn [path_of other] in H1, H2; by rewrite H1, H2; cbn [decoded]; rewrite H3. Qed.
Lemma absent_view n id : absent n id → view n id = None.
Proof. intros Ha. unfold view. by rewrite (Ha Processing : n !! processingPath id = None), (Ha Waiting : n !! pendingPath id = None). Qed.
Lemma view_holds n id p r : wf n → view n id = Some (p, r) → holds n id p r.
Proof.
  intros Hwf Hv. destruct (Hwf id) as [Ha|(p' & r' & Hh)]; [by rewrite absent_view in Hv|].
  rewrite (holds_view _ _ _ _ Hh) in Hv. by injection Hv as <- <-.
Qed.
Lemma view_absent n id : wf n → view n id = None → absent n id.
Proof. intros Hwf Hv. destruct (Hwf id) as [Ha|(p' & r' & Hh)]; [done|]. by rewrite (holds_view _ _ _ _ Hh) in Hv. Qed.

Lemma path_not_temp p id k : path_of p id ≠ temp_name k.
Proof. destruct (path_names id id k) as (_ & _ & _ & _ & _ & ? & ?), p; cbn; congruence. Qed.
#[export] Instance view_alike : Proper (alike ==> eq ==> eq) view.
Proof.
  intros n n' Hn id _ <-. unfold view.
  by rewrite (Hn _ (path_not_temp Processing id) : n !! processingPath id = _), (Hn _ (path_not_temp Waiting id) : n !! pendingPath id = _).
Qed.
#[export] Instance wf_alike : Proper (alike ==> iff) wf.
Proof.
  assert (Hi : ∀ n n', alike n n' → wf n → wf n').
  { intros n n' Hn Hwf id. destruct (Hwf id) as [Ha|(p & r & H1 & H2 & H34)]; [left|right].
    - intros p. rewrite <- (Hn _ (path_not_temp p id)). apply Ha.
    - exists p, r. unfold holds. by rewrite <- !(Hn _ (path_not_temp _ id)). }
  intros n n' Hn. split; by apply Hi.
Qed.

(** Replacing the two files of one identity. *)
Lemma set_view n n' id p r : wf n → frame id n n' → holds n' id p r →
  wf n' ∧ view n' id = Some (p, r) ∧ ∀ i, i ≠ id → view n' i = view n i.
Proof.
  intros Hwf Hf Hh. split_and!.
  - intros i. destruct (decide (i = id)) as [->|Hi]; [right; by exists p, r|].
    destruct (Hwf i) as [Ha|(q & r' & H1 & H2 & H34)]; [left|right].
    + intros q. rewrite Hf by done. apply Ha.
    + exists q, r'. unfold holds. by rewrite !Hf.
  - by apply holds_view.
  - intros i Hi. unfold view. by rewrite (Hf i Processing Hi : n' !! processingPath i = _), (Hf i Waiting Hi : n' !! pendingPath i = _).
Qed.
Lemma clear_view n n' id : wf n → frame id n n' → absent n' id →
  wf n' ∧ view n' id = None ∧ ∀ i, i ≠ id → view n' i = view n i.
Proof.
  intros Hwf Hf Ha. split_and!.
  - intros i. destruct (decide (i = id)) as [->|Hi]; [by left|].
    destruct (Hwf i) as [Hb|(q & r' & H1 & H2 & H34)]; [left|right].
    + intros q. rewrite Hf by done. apply Hb.
    + exists q, r'. unfold holds. by rewrite !Hf.
  - by apply absent_view.
  - intros i Hi. unfold view. by rewrite (Hf i Processing Hi : n' !! processingPath i = _), (Hf i Waiting Hi : n' !! pendingPath i = _).
Qed.

(** ** The steps of a message

    A message is taken in once, under the record that [Prepare] makes; it is
    amended and given another try where it lies; and it goes when it is
    acknowledged or given up. *)
Inductive moves e : Op → string → option (Place * spooledInboundRecord) → option (Place * spooledInboundRecord) → Prop :=
| mv_stay op i v : moves e op i v v
| mv_prepare m i p : im_SpoolID m = "" → newSpoolID e = Ok i →
    moves e (OpPrepare m) i None (Some (p, prepared_record i (prepared e i m)))
| mv_persist m p r r' : persisted m r = Ok r' →
    moves e (OpPersist m) (im_SpoolID m) (Some (p, r)) (Some (p, r'))
| mv_ack i v : moves e (OpAck i) i v None
| mv_acknowledge i v : moves e (OpAcknowledge i) i v None
| mv_release i cause p r : moves e (OpRelease i cause) i (Some (Processing, r)) (Some (p, attempted cause r))
| mv_fail i cause r : moves e (OpFail i cause) i (Some (Processing, r)) (Some (Processing, attempted cause r))
| mv_failed i cause r : moves e (OpFail i cause) i (Some (Processing, r)) None.

(** What holds of every state after an operation on [d]. *)
Definition after d e op n' : Prop := wf n' ∧ ∀ i, ∃ n, n ∈ may_leave d ∧ moves e op i (view n i) (view n' i).
#[export] Instance after_alike d e op : Proper (alike ==> iff) (after d e op).
Proof.
  intros n n' Hn. unfold after. rewrite Hn. split; intros [Hwf Hm]; (split; [done|]);
    intros i; destruct (Hm i) as (n0 & Hn0 & Hi); exists n0; [rewrite <- Hn|rewrite Hn]; done.
Qed.
Lemma after_refl d e op : every wf d → every (after d e op) d.
Proof. intros Hwf n Hn. split; [by apply Hwf|]. intros i. exists n. split; [done|constructor]. Qed.
(** From the state at the start, by a step at one identity. *)
Lemma after_one d e op id n' : wf n' → moves e op id (view (dk_now d) id) (view n' id) →
  (∀ i, i ≠ id → view n' i = view (dk_now d) i) → after d e op n'.
Proof.
  intros Hwf Hid Hi. split; [done|]. intros i. exists (dk_now d). split; [by left|].
  destruct (decide (i = id)) as [->|Hne]; [done|]. rewrite Hi by done. constructor.
Qed.

(** ** Files of records *)

Lemma writeRecord_every e P `{!Proper (alike ==> iff) P} p id r d d' res : readable e →
  writeRecord e (path_of p id) r d = (d', res) → every P d →
  let there := spool_decode (record_text r) = Some r ∧ validateInboundSpoolVersion r = Ok tt in
  let n' := <[path_of p id := Regular (record_text r)]> (dk_now d) in
  (there → P n') →
  every P d' ∧
  match res with
  | Ok _ => there ∧ alike (dk_now d') n' ∧ dk_since d' = []
  | Err _ => alike (dk_now d') (dk_now d) ∨ there ∧ alike (dk_now d') n'
  end.
Proof.
  intros Hre Hw HP there n' Hn'. unfold writeRecord in Hw.
  destruct (validateInboundSpoolVersion r) as [[]|x] eqn:Ev; [|injection Hw as <- <-; split; [done|by left]].
  destruct (record_marshals r); [|injection Hw as <- <-; split; [done|by left]]. cbn [negb] in Hw.
  destruct (writeFileAtomic _ _ _ _) as [d1 res1] eqn:E1.
  destruct (every_write P _ _ _ _ _ _ E1 HP) as [HP1 Hr1].
  { intros Hs. apply Hn'. split; [by apply Hre|done]. }
  destruct res1 as [[]|[]]; injection Hw as <- <-; (split; [done|]).
  - destruct Hr1 as (Hs & Ha & Hsy). split; [|done]. split; [by apply Hre|done].
  - by left.
  - right. destruct Hr1 as (Hs & Ha). split; [|done]. split; [by apply Hre|done].
Qed.
Lemma renameRecord_every P e from to d d' res : renameRecord e from to d = (d', res) → every P d →
  (∀ node, dk_now d !! from = Some node → P (<[to := node]> (delete from (dk_now d)))) →
  every P d' ∧
  match res with
  | Ok _ => (∃ node, dk_now d !! from = Some node ∧ dk_now d' = <[to := node]> (delete from (dk_now d))) ∧ dk_since d' = []
  | Err _ => True
  end.
Proof.
  unfold renameRecord. intros Hr HP Hn. destruct (os_Rename _ _ _ _) as [d1 res1] eqn:E1.
  destruct (every_rename P _ _ _ _ _ _ E1 HP Hn) as [HP1 Hr1]. destruct res1 as [u|x]; [|by injection Hr as <- <-].
  destruct (SyncDirectory _ _) as [d2 res2] eqn:E2. destruct (every_sync P _ _ _ _ E2 HP1) as (HP2 & Hn2 & Hs2).
  destruct res2; injection Hr as <- <-; (split; [done|]); [|done]. rewrite Hn2. by split; [|apply Hs2].
Qed.

Lemma parse_not_file name text x : parse_record name text ≠ Err (FileFailed x).
Proof.
  unfold parse_record, validateInboundSpoolVersion. destruct (spool_decode text); [|done]. by repeat case_match.
Qed.
Lemma readRecord_holds e p id r d : wf (dk_now d) → readRecord e (path_of p id) d = Ok r → holds (dk_now d) id p r.
Proof.
  intros Hwf. unfold readRecord, os_ReadFile. destruct (env_read e _); [done|].
  destruct (dk_now d !! path_of p id) as [node|] eqn:E; [|done].
  destruct (Hwf id) as [Ha|(q & r' & Hh)]; [by rewrite Ha in E|]. pose proof Hh as (H1 & H2 & Hd & Hg).
  assert (q = p) as -> by (destruct p, q; cbn [path_of other] in *; congruence).
  rewrite H1 in E. injection E as <-. unfold parse_record. rewrite Hd.
  destruct Hg as (Hne & Hid & _ & Hv & _). rewrite Hv. cbn [mbind result_bind].
  destruct (String.eqb_spec (sr_ID r') ""); [congruence|]. by intros [= <-].
Qed.
Lemma readRecord_absent e p id d : readRecord e (path_of p id) d = Err (FileFailed ErrNotExist) → dk_now d !! path_of p id = None.
Proof.
  unfold readRecord, os_ReadFile. destruct (env_read e _); [done|].
  destruct (dk_now d !! path_of p id) as [[text| |[text|]]|]; try done; by intros ?%parse_not_file.
Qed.

(** ** Placing, moving and removing the file of a record *)

#[export] Instance holds_alike : Proper (alike ==> eq ==> eq ==> eq ==> iff) holds.
Proof.
  intros n n' Hn id _ <- p _ <- r _ <-. unfold holds. by rewrite !(Hn _ (path_not_temp _ id)).
Qed.
#[export] Instance alike_delete name : Proper (alike ==> alike) (delete name : Names → Names).
Proof.
  intros n n' Hn x Hx. destruct (decide (x = name)) as [->|Hne]; [by rewrite !lookup_delete_eq|].
  rewrite !lookup_delete_ne by done. by apply Hn.
Qed.
Lemma other_path p id : path_of p id ≠ path_of (other p) id.
Proof. intros [Hp _]%path_of_inj. by destruct p. Qed.
Lemma other_other p : other (other p) = p. Proof. by destruct p. Qed.

Lemma holds_placed n p id r : good id r → spool_decode (record_text r) = Some r → n !! path_of (other p) id = None →
  holds (<[path_of p id := Regular (record_text r)]> n) id p r.
Proof.
  intros Hg Hd Hn. split_and!; [apply lookup_insert_eq| |done|done].
  by rewrite lookup_insert_ne by apply other_path.
Qed.
Lemma holds_moved n p id r : holds n id p r →
  holds (<[path_of (other p) id := Regular (record_text r)]> (delete (path_of p id) n)) id (other p) r.
Proof.
  intros (H1 & H2 & Hd & Hg). apply holds_placed; [done|done|]. rewrite other_other. apply lookup_delete_eq.
Qed.
Lemma placed_after d e op p id r : every wf d → good id r → spool_decode (record_text r) = Some r →
  dk_now d !! path_of (other p) id = None → moves e op id (view (dk_now d) id) (Some (p, r)) →
  after d e op (<[path_of p id := Regular (record_text r)]> (dk_now d)).
Proof.
  intros Hwf Hg Hd Hn Hm.
  destruct (set_view _ _ id p r (every_now _ _ Hwf) (frame_insert id p _ _) (holds_placed _ _ _ _ Hg Hd Hn)) as (Hw & Hv & Hi).
  apply (after_one d e op id); [done|by rewrite Hv|done].
Qed.
Lemma moved_after d e op p id r n node : every wf d → alike n (<[path_of p id := Regular (record_text r)]> (dk_now d)) →
  good id r → spool_decode (record_text r) = Some r →
  dk_now d !! path_of (other p) id = None → n !! path_of p id = Some node → moves e op id (view (dk_now d) id) (Some (other p, r)) →
  let n' := <[path_of (other p) id := node]> (delete (path_of p id) n) in
  after d e op n' ∧ view n' id = Some (other p, r).
Proof.
  intros Hwf Ha Hg Hd Hn Hnode Hm n'. pose proof (holds_placed _ p id r Hg Hd Hn) as Hh.
  assert (node = Regular (record_text r)) as ->.
  { rewrite (Ha _ (path_not_temp p id)), lookup_insert_eq in Hnode. by injection Hnode. }
  apply holds_moved in Hh. subst n'. rewrite Ha.
  destruct (fun Hf => set_view (dk_now d) _ id (other p) r (every_now _ _ Hwf) Hf Hh) as (Hw & Hv & Hi).
  { eapply frame_trans; [apply frame_insert|]. eapply frame_trans; [apply frame_delete|apply frame_insert]. }
  split; [|done]. apply (after_one d e op id); [done|by rewrite Hv|done].
Qed.

(** ** Taking a message in *)

Lemma new_id_nonempty e id : newSpoolID e = Ok id → id ≠ "".
Proof.
  unfold newSpoolID. destruct (env_random e) as [b|]; [|done]. intros [= <-] He.
  apply (f_equal String.length) in He. rewrite !string_length_app in He. cbn in He. lia.
Qed.
Lemma prepared_good e id m : newSpoolID e = Ok id → validateCurrentInboundSpoolContext (im_Context m) = Ok tt →
  let r := prepared_record id (prepared e id m) in validateInboundSpoolVersion r = Ok tt → good id r.
Proof.
  intros Hid Hc r Hv. split_and!; [by eapply new_id_nonempty| | |done|]; subst r; unfold prepared_record, prepared;
    destruct (negb _); try done; destruct (IsZero _); done.
Qed.
Definition fresh e d : Prop := ∀ id, newSpoolID e = Ok id → absent (dk_now d) id.

Lemma Prepare_after e m d d' res : every wf d → readable e → fresh e d → Prepare e m d = (d', res) →
  every (after d e (OpPrepare m)) d' ∧
  (im_SpoolID m = "" → ∀ m', res = Ok m' → ∃ id, newSpoolID e = Ok id ∧ m' = prepared e id m ∧ dk_since d' = [] ∧
     view (dk_now d') id = Some (Processing, prepared_record id (prepared e id m))).
Proof.
  intros Hwf Hre Hfr HP. pose proof (after_refl d e (OpPrepare m) Hwf) as HP0. unfold Prepare in HP.
  destruct (String.eqb_spec (im_SpoolID m) "") as [Hs|Hs]; cbn [negb] in HP; [|by injection HP as <- <-].
  destruct (env_done e); [by injection HP as <- <-|].
  destruct (validateCurrentInboundSpoolContext _) as [[]|x] eqn:Ec; [|by injection HP as <- <-].
  destruct (env_done' e); [by injection HP as <- <-|].
  destruct (newSpoolID e) as [id|x] eqn:Eid; [|by injection HP as <- <-]. set (r := prepared_record id _) in HP.
  pose proof (Hfr id Eid) as Hab. pose proof (absent_view _ _ Hab) as Hv0.
  assert (Hm : ∀ p, moves e (OpPrepare m) id (view (dk_now d) id) (Some (p, r))) by (intros p; rewrite Hv0; by constructor).
  destruct (writeRecord _ _ _ _) as [d1 res1] eqn:E1.
  destruct (writeRecord_every e (after d e (OpPrepare m)) Waiting id r d d1 res1 Hre E1 HP0) as [H1 Hr1].
  { intros [Hd Hv]. apply placed_after; [done|by apply prepared_good|done|apply Hab|apply Hm]. }
  destruct res1 as [[]|x]; [|by injection HP as <- <-]. destruct Hr1 as ([Hd Hv] & Ha & Hsy).
  assert (Hmv : ∀ node, dk_now d1 !! path_of Waiting id = Some node →
    let n' := <[path_of Processing id := node]> (delete (path_of Waiting id) (dk_now d1)) in
    after d e (OpPrepare m) n' ∧ view n' id = Some (Processing, r)).
  { intros node Hnode. exact (moved_after d e _ Waiting id r (dk_now d1) node Hwf Ha (prepared_good _ _ _ Eid Ec Hv) Hd
      (Hab Processing) Hnode (Hm Processing)). }
  destruct (renameRecord _ _ _ _) as [d2 res2] eqn:E2.
  destruct (renameRecord_every (after d e (OpPrepare m)) _ _ _ _ _ _ E2 H1) as [H2 Hr2]; [by intros node [? _]%Hmv|].
  destruct res2 as [[]|x]; injection HP as <- <-; (split; [done|]); [|done].
  intros _ m' [= <-]. exists id. destruct Hr2 as ((node & Hnode & ->) & Hsy2). split_and!; try done. by apply Hmv.
Qed.

(** ** Amending a record *)

Lemma context_valid c c' : ic_Raw c' = ic_Raw c → ic_Channel c' = ic_Channel c →
  IntakeGuard_IsZero (ic_DocumentIntake c') = true ∨ IntakeGuard_Valid (ic_DocumentIntake c') = true →
  validateCurrentInboundSpoolContext c = Ok tt → validateCurrentInboundSpoolContext c' = Ok tt.
Proof.
  intros Hr Hc Hg. unfold validateCurrentInboundSpoolContext. rewrite Hr, Hc.
  assert (negb (IntakeGuard_IsZero (ic_DocumentIntake c')) && negb (IntakeGuard_Valid (ic_DocumentIntake c')) = false) as ->.
  { destruct Hg as [->| ->]; [done|]. by rewrite andb_false_r. }
  by destruct (negb (IntakeGuard_IsZero (ic_DocumentIntake c)) && _).
Qed.
Lemma good_valid id r : good id r → IntakeGuard_IsZero (intake r) = true ∨ IntakeGuard_Valid (intake r) = true.
Proof.
  intros (_ & _ & _ & _ & Hc). revert Hc. unfold validateCurrentInboundSpoolContext, intake.
  destruct (IntakeGuard_IsZero _); [by left|]. destruct (IntakeGuard_Valid _); [by right|done].
Qed.
(** What [PersistContext] keeps of a record and what it sets. *)
Lemma persisted_fields m r r' : persisted m r = Ok r' →
  let g := ic_DocumentIntake (im_Context m) in
  guard_refuses (intake r) g = false ∧ (IntakeGuard_IsZero g = true ∨ IntakeGuard_Valid g = true) ∧
  intake r' = (if IntakeGuard_IsZero g then intake r else g) ∧
  sr_ID r' = sr_ID r ∧ sr_Attempts r' = sr_Attempts r ∧ sr_LastError r' = sr_LastError r ∧
  ic_Raw (im_Context (sr_Message r')) = ic_Raw (im_Context (sr_Message r)) ∧
  ic_Channel (im_Context (sr_Message r')) = ic_Channel (im_Context (sr_Message r)) ∧
  im_Sender (sr_Message r') = im_Sender (sr_Message r) ∧ im_Content (sr_Message r') = im_Content (sr_Message r) ∧
  im_Media (sr_Message r') = im_Media (sr_Message r) ∧ im_SessionKey (sr_Message r') = im_SessionKey (sr_Message r) ∧
  im_SpoolID (sr_Message r') = im_SpoolID (sr_Message r).
Proof.
  assert (Hd : ic_DocumentIntake (normalizeInboundContext (im_Context m)) = ic_DocumentIntake (im_Context m)).
  { unfold normalizeInboundContext. by repeat case_match. }
  unfold persisted. revert Hd. generalize (normalizeInboundContext (im_Context m)). intros c Hd. rewrite Hd. cbv zeta.
  assert (Hok : ∀ a b : spooledInboundRecord, @Ok SpoolError _ a = Ok b → b = a) by congruence.
  destruct (guard_refuses _ _) eqn:Eg; [done|].
  destruct (IntakeGuard_IsZero (ic_DocumentIntake (im_Context m))) eqn:Ez; cbn [negb andb].
  { intros ->%Hok. split_and!; try reflexivity. by left. }
  destruct (IntakeGuard_Valid (ic_DocumentIntake (im_Context m))) eqn:Ev; cbn [negb]; [|done].
  intros ->%Hok. split_and!; try reflexivity. by right.
Qed.
Lemma persisted_good id m r r' : good id r → persisted m r = Ok r' → validateInboundSpoolVersion r' = Ok tt → good id r'.
Proof.
  intros Hg Hp Hv. pose proof (good_valid _ _ Hg) as Hgv. destruct Hg as (Hne & Hid & Hsid & _ & Hc).
  destruct (persisted_fields _ _ _ Hp) as (_ & Hz & Hi & Hid' & _ & _ & Hr & Hch & _ & _ & _ & _ & Hsid').
  split_and!; [done|congruence|congruence|done|]. refine (context_valid _ _ Hr Hch _ Hc). fold (intake r'). rewrite Hi.
  by destruct (IntakeGuard_IsZero (ic_DocumentIntake (im_Context m))) eqn:?; [|destruct Hz as [?|?]; [congruence|right]].
Qed.

Lemma PersistContext_after e m d d' res : every wf d → readable e → PersistContext e m d = (d', res) →
  every (after d e (OpPersist m)) d' ∧
  (im_SpoolID m ≠ "" → res = Ok tt → ∃ p r r', holds (dk_now d) (im_SpoolID m) p r ∧ persisted m r = Ok r' ∧
     dk_since d' = [] ∧ view (dk_now d') (im_SpoolID m) = Some (p, r')).
Proof.
  intros Hwf Hre HP. pose proof (after_refl d e (OpPersist m) Hwf) as HP0. pose proof (every_now _ _ Hwf) as Hwn.
  unfold PersistContext in HP. set (id := im_SpoolID m) in *.
  destruct (String.eqb_spec id "") as [Hs|Hs]; [by injection HP as <- <-|].
  match type of HP with context [let '(path, rec) := ?x in _] => destruct x as [path rec] eqn:Ex end.
  assert (∃ p, path = path_of p id ∧ rec = readRecord e (path_of p id) d) as (p & -> & Hr).
  { destruct (readRecord e (processingPath id) d) as [r|[| | | | | | |[]| | | | | | |]] eqn:E1; injection Ex as <- <-;
      first [by exists Processing|by exists Waiting]. }
  destruct rec as [r|x]; cbn [mbind result_bind] in HP; [|by injection HP as <- <-].
  destruct (persisted m r) as [r'|x] eqn:Ep; [|by injection HP as <- <-]. pose proof (readRecord_holds _ _ _ _ _ Hwn (eq_sym Hr)) as Hh.
  pose proof (holds_view _ _ _ _ Hh) as Hv. pose proof Hh as (_ & Hn & _ & Hg).
  destruct (writeRecord_every e (after d e (OpPersist m)) p id r' d d' res Hre HP HP0) as [H1 Hr1].
  { intros [Hd Hvv]. apply placed_after; [done|by eapply persisted_good|done|done|]. rewrite Hv. by constructor. }
  split; [done|]. intros _ ->. destruct Hr1 as ([Hd Hvv] & Ha & Hsy). exists p, r, r'. split_and!; try done.
  rewrite Ha. apply holds_view, holds_placed; [by eapply persisted_good|done|done].
Qed.

(** ** Giving back and giving up *)

Lemma attempted_good id cause r : good id r → good id (attempted cause r).
Proof. intros Hg. destruct cause; exact Hg. Qed.
Lemma retire_after to e op id cause d d' res : every wf d → readable e →
  (∀ r, moves e op id (Some (Processing, r)) (Some (Processing, attempted cause r))) →
  (∀ r n node, view (dk_now d) id = Some (Processing, r) → dk_now d !! path_of Waiting id = None →
     alike n (<[path_of Processing id := Regular (record_text (attempted cause r))]> (dk_now d)) →
     good id (attempted cause r) → spool_decode (record_text (attempted cause r)) = Some (attempted cause r) →
     n !! path_of Processing id = Some node → after d e op (<[to id := node]> (delete (path_of Processing id) n))) →
  retire to e id cause d = (d', res) → every (after d e op) d'.
Proof.
  intros Hwf Hre Hm Hto HP. pose proof (after_refl d e op Hwf) as HP0. unfold retire in HP.
  destruct (String.eqb id ""); [by injection HP as <- <-|].
  destruct (readRecord e (processingPath id) d) as [r|x] eqn:Er.
  - apply (readRecord_holds e Processing) in Er; [|by apply every_now].
    pose proof (holds_view _ _ _ _ Er) as Hv. destruct Er as (_ & Hn & _ & Hg%(attempted_good _ cause)).
    destruct (writeRecord _ _ _ _) as [d1 res1] eqn:E1.
    destruct (writeRecord_every e (after d e op) Processing id _ d d1 res1 Hre E1 HP0) as [H1 Hr1].
    { intros [Hd _]. apply placed_after; [done|done|done|done|]. rewrite Hv. apply Hm. }
    destruct res1 as [[]|x]; [|by injection HP as <- <-]. destruct Hr1 as ([Hd _] & Ha & _).
    destruct (renameRecord_every (after d e op) _ _ _ _ _ _ HP H1) as [H2 _]; [|done].
    intros node Hnode. by apply (Hto r).
  - destruct (SyncDirectory (env_sync e) d) as [d1 res1] eqn:Es. pose proof (every_sync _ _ _ _ _ Es HP0) as [H1 _].
    destruct x as [| | | | | | |[]| | | | | | |]; try (by injection HP as <- <-). destruct res1; by injection HP as <- <-.
Qed.
Lemma Release_after e id cause d d' res : every wf d → readable e → Release e id cause d = (d', res) →
  every (after d e (OpRelease id cause)) d'.
Proof.
  intros Hwf Hre. apply retire_after; [done|done|intros; constructor|].
  intros r n node Hv Hn Ha Hg Hd Hnode. apply (moved_after d e _ Processing id _ n node Hwf Ha Hg Hd Hn Hnode). rewrite Hv. constructor.
Qed.
Lemma Fail_after e id cause d d' res : every wf d → readable e → Fail e id cause d = (d', res) →
  every (after d e (OpFail id cause)) d'.
Proof.
  intros Hwf Hre. apply retire_after; [done|done|intros; constructor|].
  intros r n node Hv Hn Ha Hg Hd Hnode. rewrite Ha.
  destruct (clear_view (dk_now d) (<[failedPath id:=node]> (delete (path_of Processing id) (<[path_of Processing id:=Regular (record_text (attempted cause r))]> (dk_now d)))) id)
    as (Hw & Hv' & Hi).
  - by apply every_now.
  - eapply frame_trans; [apply frame_insert|]. eapply frame_trans; [apply frame_delete|apply frame_failed].
  - intros p. rewrite lookup_insert_ne by apply failed_not_path. destruct p; [apply lookup_delete_eq|].
    rewrite lookup_delete_ne by apply (other_path Processing). by rewrite lookup_insert_ne by apply (other_path Processing).
  - apply (after_one d e _ id); [done| |done]. rewrite Hv', Hv. constructor.
Qed.

(** ** Acknowledging *)

(** The files of the identity are as they were, or gone. *)
Definition gone d id n : Prop := n = dk_now d ∨ frame id (dk_now d) n ∧ absent n id.
Lemma gone_delete d id n p : wf (dk_now d) → gone d id n → gone d id (delete (path_of p id) n).
Proof.
  intros Hwf [->|[Hf Ha]].
  - destruct (dk_now d !! path_of p id) as [node|] eqn:E; [right|left; by apply delete_id].
    split; [apply frame_delete|]. destruct (Hwf id) as [Hb|(q & r & H1 & H2 & _)]; [by rewrite Hb in E|].
    assert (q = p) as -> by (destruct p, q; cbn [path_of other] in *; congruence).
    intros q. destruct (decide (q = p)) as [->|Hq]; [apply lookup_delete_eq|].
    rewrite lookup_delete_ne by (by intros [-> _]%path_of_inj). by destruct p, q.
  - right. split; [by eapply frame_trans; [|apply frame_delete]|]. intros q. rewrite lookup_delete_None. right. apply Ha.
Qed.
Lemma gone_after d e op id n : every wf d → gone d id n → (∀ v, moves e op id v None) → after d e op n.
Proof.
  intros Hwf [->|[Hf Ha]] Hm; [by apply (after_refl d e op Hwf); left|].
  destruct (clear_view _ _ id (every_now _ _ Hwf) Hf Ha) as (Hw & Hv & Hi). apply (after_one d e op id); [done|by rewrite Hv|done].
Qed.
Lemma removeIfExists_every P e name d d' res : removeIfExists e name d = (d', res) → every P d → P (delete name (dk_now d)) →
  every P d' ∧ (dk_now d' = dk_now d ∨ dk_now d' = delete name (dk_now d)) ∧ (res = Ok tt → dk_now d' = delete name (dk_now d)).
Proof.
  unfold removeIfExists. intros Hr HP Hd. destruct (os_Remove _ _ _) as [d1 res1] eqn:E1.
  destruct (every_remove _ _ _ _ _ _ E1 HP Hd) as (H1 & H2 & H3).
  destruct res1 as [[]|[]]; injection Hr as <- <-; split_and!; auto.
Qed.
Lemma ackLocked_after e op id d d' res : every wf d → (∀ v, moves e op id v None) → ackLocked e id d = (d', res) →
  every (after d e op) d' ∧ (res = Ok tt → dk_since d' = [] ∧ absent (dk_now d') id).
Proof.
  intros Hwf Hm HP. pose proof (after_refl d e op Hwf) as HP0. pose proof (every_now _ _ Hwf) as Hwn.
  assert (Hg0 : gone d id (dk_now d)) by by left.
  assert (Hg : ∀ p n, gone d id n → after d e op (delete (path_of p id) n))
    by (intros p n Hn; apply (gone_after d e op id); [done|by apply gone_delete|done]).
  unfold ackLocked in HP. destruct (removeIfExists e (processingPath id) d) as [d1 res1] eqn:E1.
  destruct (removeIfExists_every (after d e op) _ _ _ _ _ E1 HP0 (Hg Processing _ Hg0)) as (H1 & Hn1 & Ho1).
  assert (Hg1 : gone d id (dk_now d1)) by (destruct Hn1 as [->| ->]; [done|by apply (gone_delete d id _ Processing)]).
  set (second := match res1 with Ok _ => removeIfExists e (pendingPath id) d1 | Err x => (d1, Err x) end) in HP.
  assert (Hs : every (after d e op) second.1 ∧ (second.2 = Ok tt → absent (dk_now second.1) id)).
  { destruct res1 as [[]|x]; [|by split]. subst second. destruct (removeIfExists e (pendingPath id) d1) as [d2 res2] eqn:E2.
    destruct (removeIfExists_every (after d e op) _ _ _ _ _ E2 H1 (Hg Waiting _ Hg1)) as (H2 & _ & Ho2). split; [done|].
    cbn [fst snd]. intros ->. rewrite (Ho2 eq_refl), (Ho1 eq_refl). intros p.
    destruct p; [rewrite lookup_delete_None; right|]; apply lookup_delete_eq. }
  replace (match res1 with Ok _ => _ | Err x => _ end) with second in HP by by destruct res1.
  destruct second as [d2 res2]. destruct Hs as [Hs1 Hs2].
  destruct (SyncDirectory (env_sync e) d2) as [d3 res3] eqn:E3. destruct (every_sync _ _ _ _ _ E3 Hs1) as (H3 & Hn3 & Hs3).
  destruct res2 as [[]|x], res3 as [[]|y]; injection HP as <- <-; (split; [done|]); [|done|done|done].
  intros _. split; [by apply Hs3|]. rewrite Hn3. by apply Hs2.
Qed.
Lemma Ack_after e id d d' res : every wf d → Ack e id d = (d', res) → every (after d e (OpAck id)) d'.
Proof.
  intros Hwf. unfold Ack. destruct (String.eqb id ""); [intros [= <- <-]; by apply after_refl|].
  intros Ha. by apply (ackLocked_after e (OpAck id) id d d' res Hwf (mv_ack e id)).
Qed.
Lemma acknowledge_after e id d d' res : every wf d → acknowledge e dir id d = (d', res) →
  every (after d e (OpAcknowledge id)) d' ∧
  (∀ rec, res = Ok rec → rec ≠ no_receipt → id ≠ "" ∧ rec = mkReceipt dir id ∧ dk_since d' = [] ∧ absent (dk_now d') id ∧
     ∃ p r, view (dk_now d) id = Some (p, r)).
Proof.
  intros Hwf HP. pose proof (after_refl d e (OpAcknowledge id) Hwf) as HP0. unfold acknowledge in HP.
  destruct (String.eqb_spec id "") as [Hs|Hs]; [injection HP as <- <-; split; [done|by intros ? [= <-]]|].
  destruct (invalid_source id); [injection HP as <- <-; split; [done|by intros ?]|].
  destruct (acknowledge_loop e id d _ false) as [found|x] eqn:El; [|injection HP as <- <-; split; [done|by intros ?]].
  destruct (ackLocked e id d) as [d1 res1] eqn:E1.
  destruct (ackLocked_after e (OpAcknowledge id) id d d1 res1 Hwf (mv_acknowledge e id) E1) as [H1 Ho1].
  destruct res1 as [[]|x]; injection HP as <- <-; (split; [done|]); intros rec [= <-] Hr. destruct found; [|done].
  destruct (Ho1 eq_refl) as [Hsy Ha]. split_and!; try done.
  destruct (view (dk_now d) id) as [[p r]|] eqn:Hv; [by exists p, r|exfalso].
  apply view_absent in Hv; [|by apply every_now].
  pose proof (Hv Processing : dk_now d !! processingPath id = None) as Hp. pose proof (Hv Waiting : dk_now d !! pendingPath id = None) as Hw.
  revert El. unfold acknowledge_loop, os_Lstat. rewrite Hp, Hw. by repeat case_match.
Qed.
End steps.
