(* ===== verification/SpoolProps.v ===== *)
(** The inbound spool: a message it took is replayed after every crash until it
    is acknowledged, and never after that. *)
From S2P Require Import Prelude GoStrings GoJson GoTime GoText BusInbound FileUtil InboundSpool SpoolSteps.
#[local] Open Scope Z_scope.

Section props.
Context `{UnicodeCase, SpoolDecoder}.
Variable dir : string.
Implicit Types (d : Disk) (e : Env) (r : spooledInboundRecord) (m : InboundMessage) (id i : string) (n : Names) (p : Place).
Local Abbreviation step := (step dir).
Local Abbreviation run := (run dir).
Notation trace := (list (Env * Op)).
Notation slot := (option (Place * spooledInboundRecord)).

(** ** Runs *)

(** The identities that the runs of [Prepare] draw; no two of them are equal. *)
Definition drawn (x : Env * Op) : list string :=
  match x.2 with OpPrepare _ => match newSpoolID x.1 with Ok id => [id] | Err _ => [] end | _ => [] end.
Definition new_ids (tr : trace) : list string := tr ≫= drawn.
Definition legal (tr : trace) : Prop := Forall (fun x => readable x.1) tr ∧ NoDup (new_ids tr).

(** The steps of one message along a run. *)
Fixpoint path (tr : trace) i (v v' : slot) : Prop :=
  match tr with [] => v' = v | (e, op) :: tr => ∃ w, moves e op i v w ∧ path tr i w v' end.

Lemma step_after d e op : every wf d → readable e → (∀ i, i ∈ drawn (e, op) → absent (dk_now d) i) →
  every (after d e op) (step d (e, op)).
Proof.
  intros Hwf Hre Hfr. destruct op; cbn [step].
  - destruct (Prepare e m d) as [d' res] eqn:E. refine (proj1 (Prepare_after e m d d' res Hwf Hre _ E)).
    intros id Hid. apply Hfr. unfold drawn. cbn. rewrite Hid. by left.
  - by apply after_refl.
  - destruct (PersistContext e m d) as [d' res] eqn:E. exact (proj1 (PersistContext_after e m d d' res Hwf Hre E)).
  - destruct (Ack e id d) as [d' res] eqn:E. exact (Ack_after e id d d' res Hwf E).
  - destruct (acknowledge e dir id d) as [d' res] eqn:E. exact (proj1 (acknowledge_after dir e id d d' res Hwf E)).
  - destruct (Release e id cause d) as [d' res] eqn:E. exact (Release_after e id cause d d' res Hwf Hre E).
  - destruct (Fail e id cause d) as [d' res] eqn:E. exact (Fail_after e id cause d d' res Hwf Hre E).
  - by apply every_crash, after_refl.
Qed.

Definition unused (ids : list string) d : Prop := ∀ i, i ∈ ids → every (fun n => absent n i) d.
Lemma moves_none e op i v : i ∉ drawn (e, op) → moves e op i None v → v = None.
Proof.
  intros Hi Hm. inversion Hm; subst; try done. destruct Hi. unfold drawn. cbn [fst snd]. rewrite H2. by left.
Qed.
Lemma run_paths tr : ∀ d, legal tr → every wf d → unused (new_ids tr) d →
  every wf (run d tr) ∧ ∀ n' i, n' ∈ may_leave (run d tr) → ∃ n, n ∈ may_leave d ∧ path tr i (view n i) (view n' i).
Proof.
  induction tr as [|[e op] tr IH]; intros d [Hre Hnd] Hwf Hun; [split; [done|]; intros n' i Hn'; by exists n'|].
  inversion Hre as [|? ? He Hre']; subst. cbn [new_ids mbind list_bind] in Hnd, Hun. apply NoDup_app in Hnd as (_ & Hdis & Hnd).
  pose proof (step_after d e op Hwf He) as Ha. specialize (Ha ltac:(intros i Hi; apply Hun; [apply elem_of_app; by left|by left])).
  assert (Hwf' : every wf (step d (e, op))) by (intros n' Hn'; by apply Ha).
  destruct (IH (step d (e, op))) as [Hw Hp]; [done|done| |].
  { intros i Hi n' Hn'. destruct (Ha n' Hn') as [Hwn Hm]. destruct (Hm i) as (n & Hn & Hmv). apply view_absent; [done|].
    apply (moves_none e op i); [intros Hin; by apply (Hdis i)|].
    rewrite absent_view in Hmv; [done|]. apply Hun; [apply elem_of_app; by right|done]. }
  split; [done|]. intros n' i Hn'. destruct (Hp n' i Hn') as (n1 & Hn1 & Hpath). destruct (Ha n1 Hn1) as [_ Hm].
  destruct (Hm i) as (n & Hn & Hmv). exists n. split; [done|]. by exists (view n1 i).
Qed.

Lemma empty_wf : every wf empty_disk ∧ ∀ ids, unused ids empty_disk.
Proof.
  split; [intros n ->%list_elem_of_singleton id; left|intros ids i _ n ->%list_elem_of_singleton]; intros p; apply lookup_empty.
Qed.
(** An identity that was not drawn has no record. *)
Lemma path_none tr i v : i ∉ new_ids tr → path tr i None v → v = None.
Proof.
  revert v. induction tr as [|[e op] tr IH]; intros v Hi Hp; [done|]. cbn [new_ids mbind list_bind] in Hi.
  apply not_elem_of_app in Hi as [Hi1 Hi2]. destruct Hp as (w & Hm & Hp). apply (moves_none _ _ _ _ Hi1) in Hm as ->. by apply IH.
Qed.

(** A run that began in the empty directory, and goes on. *)
Record reached (tr1 : trace) d (tr2 : trace) : Prop := {
  re_legal : legal (tr1 ++ tr2);
  re_run : run empty_disk tr1 = d }.
Lemma reached_facts tr1 d tr2 : reached tr1 d tr2 → every wf d ∧ legal tr2 ∧ unused (new_ids tr2) d ∧
  ∀ i n, n ∈ may_leave d → i ∉ new_ids tr1 → absent n i.
Proof.
  intros [[Hre Hnd] <-]. apply Forall_app in Hre as [Hre1 Hre2]. unfold new_ids in Hnd. rewrite bind_app in Hnd.
  apply NoDup_app in Hnd as (Hnd1 & Hdis & Hnd2). destruct empty_wf as [Hwf0 Hun0].
  destruct (run_paths tr1 empty_disk) as [Hwf Hp]; [by split|done|apply Hun0|].
  assert (Ha : ∀ i n, n ∈ may_leave (run empty_disk tr1) → i ∉ new_ids tr1 → absent n i).
  { intros i n Hn Hi. destruct (Hp n i Hn) as (n0 & ->%list_elem_of_singleton & Hpath). apply view_absent; [by apply Hwf|].
    apply (path_none tr1 i); [done|]. rewrite absent_view in Hpath; [done|]. intros p. apply lookup_empty. }
  split_and!; [done|by split| |done]. intros i Hi n Hn. apply Ha; [done|]. intros Hin. by apply (Hdis i).
Qed.

(** ** What is replayed *)

Definition live n name r : Prop := ∃ id p, name = path_of p id ∧ view n id = Some (p, r).
(** No system call of the replay fails and its context is not done. *)
Definition calm e : Prop := env_done e = false ∧ env_done' e = false ∧ (∀ name, env_done_at e name = false)
  ∧ (∀ name, env_read e name = false) ∧ env_readdir e = None.

Lemma elem_of_pending_names n name : name ∈ pending_names n ↔
  replayable name = true ∧ ∃ node, n !! name = Some node ∧ node ≠ Directory.
Proof.
  unfold pending_names. rewrite merge_sort_Permutation, list_elem_of_fmap. split.
  - intros ([name' node] & -> & Hin). rewrite list_elem_of_In, filter_In, <- list_elem_of_In, elem_of_map_to_list in Hin.
    destruct Hin as [Hn Hr]. cbn in *. destruct node; try done; eauto.
  - intros (Hr & node & Hn & Hd). exists (name, node). split; [done|].
    rewrite list_elem_of_In, filter_In, <- list_elem_of_In, elem_of_map_to_list. split; [done|]. by destruct node.
Qed.
Lemma nodup_list_filter {A} (f : A → bool) (l : list A) : NoDup l → NoDup (List.filter f l).
Proof.
  induction 1 as [|x l Hx _ IH]; cbn; [constructor|]. destruct (f x); [|done]. constructor; [|done].
  rewrite list_elem_of_In, filter_In, <- list_elem_of_In. tauto.
Qed.
Lemma pending_names_nodup n : NoDup (pending_names n).
Proof.
  unfold pending_names. rewrite merge_sort_Permutation.
  pose proof (NoDup_fst_map_to_list n) as Hn. revert Hn. generalize (map_to_list n). intros l.
  induction l as [|[k v] l IH]; cbn; [constructor|]. intros [Hk Hl]%NoDup_cons.
  destruct (match v with Directory => false | _ => replayable k end); [|by apply IH]. cbn. constructor; [|by apply IH].
  intros (x & -> & Hx)%list_elem_of_fmap. apply Hk, list_elem_of_fmap. exists x. split; [done|].
  rewrite list_elem_of_In, filter_In, <- list_elem_of_In in Hx. tauto.
Qed.
Lemma pending_live n name : wf n → name ∈ pending_names n ↔ ∃ r, live n name r.
Proof.
  intros Hwf. rewrite elem_of_pending_names, replayable_path. split.
  - intros [(id & Hid) (node & Hn & _)].
    assert (∃ p, name = path_of p id) as [p ->] by (destruct Hid; [by exists Waiting|by exists Processing]).
    destruct (Hwf id) as [Ha|(q & r & Hh)]; [by rewrite Ha in Hn|]. exists r, id, p. split; [done|].
    rewrite (holds_view _ _ _ _ Hh). destruct Hh as (_ & H2 & _). by destruct p, q; cbn [path_of other] in *; congruence.
  - intros (r & id & p & -> & Hv). apply view_holds in Hv as (H1 & _); [|done].
    split; [exists id; destruct p; auto|]. by exists (Regular (record_text r)).
Qed.
Lemma live_read e n name r : wf n → live n name r → (∀ x, env_read e x = false) →
  ∀ d, dk_now d = n → readRecord e name d = Ok r ∧ validateCurrentInboundSpoolContext (im_Context (sr_Message r)) = Ok tt.
Proof.
  intros Hwf (id & p & -> & Hv) Hr d <-. apply view_holds in Hv as (H1 & _ & Hd & (Hne & Hid & _ & Hvv & Hc)); [|done].
  split; [|done]. unfold readRecord, os_ReadFile. rewrite Hr, H1. unfold parse_record. rewrite Hd, Hvv. cbn [mbind result_bind].
  destruct (String.eqb_spec (sr_ID r) ""); [congruence|done].
Qed.
Lemma pending_loop_ok e d names : ∀ msgs, wf (dk_now d) → calm e → (∀ name, name ∈ names → ∃ r, live (dk_now d) name r) →
  ∃ l, l.*1 = names ∧ (∀ name r, (name, r) ∈ l → live (dk_now d) name r) ∧
    pending_loop e d names msgs = (msgs ++ (replayed <$> l.*2), None).
Proof.
  induction names as [|name names IH]; intros msgs Hwf Hc Hl.
  { exists []. split_and!; [done|by intros ? ? ?%elem_of_nil|]. cbn. by rewrite app_nil_r. }
  destruct (Hl name ltac:(by left)) as [r Hr]. destruct Hc as (H1 & H2 & H3 & H4 & H5).
  destruct (live_read e _ _ _ Hwf Hr H4 d eq_refl) as [Hre Hco].
  destruct (IH (msgs ++ [replayed r]) Hwf) as (l & Hl1 & Hl2 & Hl3); [by split_and!|intros x Hx; apply Hl; by right|].
  exists ((name, r) :: l). split_and!; [cbn; by rewrite Hl1| |].
  - intros x rx [[= -> ->]|Hx]%elem_of_cons; [done|by apply Hl2].
  - cbn [pending_loop]. rewrite H3, Hre, Hco, Hl3. by rewrite <- app_assoc.
Qed.
(** Any answer without an error is that of the live records. *)
Lemma pending_loop_answer e d names : ∀ msgs out, wf (dk_now d) → (∀ name, name ∈ names → ∃ r, live (dk_now d) name r) →
  pending_loop e d names msgs = (out, None) →
  ∃ l, l.*1 = names ∧ (∀ name r, (name, r) ∈ l → live (dk_now d) name r) ∧ out = msgs ++ (replayed <$> l.*2).
Proof.
  induction names as [|name names IH]; intros msgs out Hwf Hl; cbn [pending_loop].
  { intros [= <-]. exists []. split_and!; [done|by intros ? ? ?%elem_of_nil|]. cbn. by rewrite app_nil_r. }
  destruct (env_done_at e name); [done|]. destruct (readRecord e name d) as [r|x] eqn:Hre; [|done].
  destruct (validateCurrentInboundSpoolContext _); [|done]. intros Hp.
  destruct (Hl name ltac:(by left)) as (r' & id & p & -> & Hv).
  assert (holds (dk_now d) id p r) as Hh by (by eapply readRecord_holds).
  destruct (IH _ _ Hwf (fun x Hx => Hl x ltac:(by right)) Hp) as (l & Hl1 & Hl2 & ->).
  exists ((path_of p id, r) :: l). split_and!; [cbn; by rewrite Hl1| |by rewrite <- app_assoc].
  intros x rx [[= -> ->]|Hx]%elem_of_cons; [|by apply Hl2]. exists id, p. split; [done|]. by apply holds_view.
Qed.
#[local] Instance str_le_total : Total str_le.
Proof. intros a b. exact (String.leb_total a b). Qed.

(** Whatever was done with the spool and wherever it crashed, a replay that
    no system call fails answers with every message the spool holds, once each,
    in the order of the file names, and without an error: the spool never
    refuses its own records. *)
Theorem replay_exact tr d e : reached tr d [] → calm e →
  ∃ l, Pending e 0 d = (replayed <$> l.*2, None) ∧ NoDup l.*1 ∧ Sorted str_le l.*1 ∧
    ∀ name r, (name, r) ∈ l ↔ live (dk_now d) name r.
Proof.
  intros Hd Hc. destruct (reached_facts _ _ _ Hd) as (Hwf & _). pose proof (every_now _ _ Hwf) as Hw.
  destruct (pending_loop_ok e d (pending_names (dk_now d)) [] Hw Hc) as (l & Hl1 & Hl2 & Hl3).
  { intros name Hn. by apply pending_live. }
  exists l. destruct Hc as (H1 & H2 & H3 & H4 & H5). unfold Pending. rewrite H1, H2, H5. cbn [orb Z.ltb andb Z.compare].
  rewrite Hl3, Hl1. split_and!; [done|apply pending_names_nodup|apply (Sorted_merge_sort _)|].
  intros name r. split; [apply Hl2|]. intros Hr. assert (Hin : name ∈ l.*1) by (rewrite Hl1; apply pending_live; eauto).
  apply list_elem_of_fmap in Hin as ([name' r'] & -> & Hin). pose proof (Hl2 _ _ Hin) as (id & p & Heq & Hv).
  destruct Hr as (id' & p' & Heq' & Hv'). rewrite Heq in Heq'. apply path_of_inj in Heq' as [-> ->]. by assert (r' = r) as -> by congruence.
Qed.
Lemma Pending_answer e d msgs : wf (dk_now d) → Pending e 0 d = (msgs, None) → env_readdir e ≠ Some ErrNotExist →
  ∀ m, m ∈ msgs ↔ ∃ name r, live (dk_now d) name r ∧ m = replayed r.
Proof.
  intros Hw. unfold Pending. destruct (env_done e || env_done' e); [done|]. destruct (env_readdir e) as [[]|]; [done|done|].
  cbn [Z.ltb andb Z.compare]. intros Hp _.
  destruct (pending_loop_answer e d _ [] msgs Hw (fun name Hn => proj1 (pending_live _ name Hw) Hn) Hp) as (l & Hl1 & Hl2 & ->).
  intros m. cbn [app]. rewrite list_elem_of_fmap. split.
  - intros (r & -> & ([name r'] & -> & Hin)%list_elem_of_fmap). eauto.
  - intros (name & r & Hr & ->). exists r. split; [done|]. apply list_elem_of_fmap. exists (name, r). split; [done|].
    assert (Hin : name ∈ l.*1) by (rewrite Hl1; apply pending_live; eauto).
    apply list_elem_of_fmap in Hin as ([name' r'] & -> & Hin). pose proof (Hl2 _ _ Hin) as (id & p & Heq & Hv).
    destruct Hr as (id' & p' & Heq' & Hv'). rewrite Heq in Heq'. apply path_of_inj in Heq' as [-> ->]. by assert (r = r') as -> by congruence.
Qed.

(** ** What stays of a message *)

(** All of a message but what [PersistContext] may set. *)
Definition facts m : InboundMessage :=
  m <| im_Context ::= fun c => c <| ic_ReceivedAt := zero_time |> <| ic_Relation := mkRelation "" false |>
                                 <| ic_DocumentIntake := mkIntakeGuard "" "" "" false false |> |>.
Definition guard_kept (g g' : InboundDocumentIntakeGuard) : Prop :=
  IntakeGuard_IsZero g = true ∨
  dg_JobID g' = dg_JobID g ∧ dg_ModeID g' = dg_ModeID g ∧ dg_ConversationHistory g' = dg_ConversationHistory g
  ∧ (dg_Unavailable g = true → dg_Unavailable g' = true) ∧ (dg_Reference g ≠ "" → dg_Reference g' = dg_Reference g).
Lemma guard_kept_refl g : guard_kept g g. Proof. by right. Qed.
Lemma guard_kept_trans g1 g2 g3 : guard_kept g1 g2 → guard_kept g2 g3 → guard_kept g1 g3.
Proof.
  intros [Hz|(H1 & H2 & H3 & H4 & H5)]; [by left|]. intros [Hz|(K1 & K2 & K3 & K4 & K5)].
  - left. revert Hz. unfold IntakeGuard_IsZero. rewrite !andb_true_iff, !negb_true_iff, !String.eqb_eq.
    intros ((((Z1 & Z2) & Z3) & Z4) & Z5). split_and!; try congruence.
    + destruct (decide (dg_Reference g1 = "")) as [?|Hr]; [done|]. by rewrite <- (H5 Hr).
    + destruct (dg_Unavailable g1); [by rewrite H4 in Z4|done].
  - right. split_and!; try congruence; [auto|]. intros Hr. rewrite K5; auto. by rewrite H5.
Qed.
Lemma persisted_keeps m r r' : persisted m r = Ok r' → facts (sr_Message r') = facts (sr_Message r) ∧ guard_kept (intake r) (intake r').
Proof.
  intros Hp. split.
  - revert Hp. unfold persisted. generalize (normalizeInboundContext (im_Context m)). intros c. cbv zeta.
    assert (Hok : ∀ a b : spooledInboundRecord, @Ok SpoolError _ a = Ok b → b = a) by congruence.
    destruct (guard_refuses _ _); [done|]. destruct (negb _ && _); [done|]. destruct (negb _); by intros ->%Hok.
  - destruct (persisted_fields _ _ _ Hp) as (Hg & _ & Hi & _). rewrite Hi. clear Hi Hp.
    destruct (IntakeGuard_IsZero (intake r)) eqn:Ez; [by left|]. right. revert Hg. unfold guard_refuses. rewrite Ez. cbn [negb andb].
    rewrite !orb_false_iff, !negb_false_iff, !String.eqb_eq, Bool.eqb_true_iff. intros ((((G1 & G2) & G3) & G4) & G5).
    destruct (IntakeGuard_IsZero (ic_DocumentIntake (im_Context m))); [by split_and!|].
    split_and!; [done|done|done| |].
    + intros Hu. rewrite Hu in G3. by destruct (dg_Unavailable (ic_DocumentIntake (im_Context m))).
    + intros Hr%String.eqb_neq. rewrite Hr in G5. cbn [negb andb] in G5. rewrite negb_false_iff, String.eqb_eq in G5. done.
Qed.
Definition kept r r' : Prop := facts (sr_Message r') = facts (sr_Message r) ∧ guard_kept (intake r) (intake r').
Lemma record_kept_trans r1 r2 r3 : kept r1 r2 → kept r2 r3 → kept r1 r3.
Proof. intros [H1 H2] [H3 H4]. split; [congruence|by eapply guard_kept_trans]. Qed.
Lemma moves_kept e op i p r v : moves e op i (Some (p, r)) v → v = None ∨ ∃ p' r', v = Some (p', r') ∧ kept r r'.
Proof.
  assert (Ha : ∀ cause r, kept r (attempted cause r)) by (intros [?|] r0; split; [done|apply guard_kept_refl|done|apply guard_kept_refl]).
  inversion 1; subst; try (by left); right; do 2 eexists; (split; [done|]); try apply Ha.
  - split; [done|apply guard_kept_refl].
  - by apply persisted_keeps with m.
Qed.
Lemma path_kept tr i p r v : i ∉ new_ids tr → path tr i (Some (p, r)) v → v = None ∨ ∃ p' r', v = Some (p', r') ∧ kept r r'.
Proof.
  revert p r v. induction tr as [|[e op] tr IH]; intros p r v Hi Hp.
  { cbn in Hp. subst. right. exists p, r. split; [done|split; [done|apply guard_kept_refl]]. }
  cbn [new_ids mbind list_bind] in Hi. apply not_elem_of_app in Hi as [Hi1 Hi2].
  destruct Hp as (w & Hm & Hp). apply moves_kept in Hm as [->|(p1 & r1 & -> & Hk)]; [left; by apply (path_none tr i)|].
  destruct (IH p1 r1 v Hi2 Hp) as [->|(p2 & r2 & -> & Hk2)]; [by left|]. right. exists p2, r2. split; [done|by eapply record_kept_trans].
Qed.

Definition ends i (x : Env * Op) : bool :=
  match x.2 with OpAck id | OpAcknowledge id | OpFail id _ => String.eqb id i | _ => false end.
Lemma path_not_ended tr i p r v : forallb (fun x => negb (ends i x)) tr = true → i ∉ new_ids tr → path tr i (Some (p, r)) v →
  ∃ p' r', v = Some (p', r') ∧ kept r r'.
Proof.
  revert p r v. induction tr as [|[e op] tr IH]; intros p r v Hn Hi Hp.
  { cbn in Hp. subst. exists p, r. split; [done|split; [done|apply guard_kept_refl]]. }
  cbn [new_ids mbind list_bind] in Hi. apply not_elem_of_app in Hi as [Hi1 Hi2]. cbn [forallb] in Hn. apply andb_true_iff in Hn as [Hn1 Hn2].
  destruct Hp as (w & Hm & Hp). pose proof Hm as Hm'. apply moves_kept in Hm as [->|(p1 & r1 & -> & Hk)].
  - exfalso. inversion Hm'; subst; revert Hn1; unfold ends; cbn [snd]; by rewrite String.eqb_refl.
  - destruct (IH p1 r1 v Hn2 Hi2 Hp) as (p2 & r2 & -> & Hk2). exists p2, r2. split; [done|by eapply record_kept_trans].
Qed.

(** From a state that is safely on disk, a run leads every state a crash may
    leave along the steps of each message. *)
Lemma reached_on tr1 d tr2 : reached tr1 d tr2 → dk_since d = [] →
  every wf (run d tr2) ∧ ∀ n' i, n' ∈ may_leave (run d tr2) → path tr2 i (view (dk_now d) i) (view n' i).
Proof.
  intros Hd Hs. destruct (reached_facts _ _ _ Hd) as (Hwf & Hl & Hun & _). destruct (run_paths tr2 d Hl Hwf Hun) as [Hw Hp].
  split; [done|]. intros n' i Hn'. destruct (Hp n' i Hn') as (n & Hn & Hpath). unfold may_leave in Hn. rewrite Hs in Hn.
  by apply list_elem_of_singleton in Hn as ->.
Qed.
Lemma reached_step tr1 d e op tr2 : reached tr1 d ((e, op) :: tr2) → reached (tr1 ++ [(e, op)]) (step d (e, op)) tr2.
Proof. intros [Hl Hr]. split; [by rewrite <- app_assoc|]. unfold SpoolSteps.run in *. by rewrite foldl_app, Hr. Qed.
Lemma known_not_drawn tr1 d tr2 i n p r : reached tr1 d tr2 → n ∈ may_leave d → view n i = Some (p, r) → i ∉ new_ids tr2.
Proof.
  intros Hd Hn Hv Hi. destruct (reached_facts _ _ _ Hd) as (_ & _ & Hun & _). specialize (Hun i Hi n Hn). by rewrite absent_view in Hv.
Qed.

(** After a [Prepare] that answered a message, on every run that does not end it. *)
Definition stays m' d : Prop :=
  (∀ n, n ∈ may_leave d → ∃ p r, view n (im_SpoolID m') = Some (p, r) ∧
     facts (sr_Message r) = facts m' ∧ guard_kept (ic_DocumentIntake (im_Context m')) (intake r)) ∧
  (∀ e msgs, Pending e 0 d = (msgs, None) → env_readdir e ≠ Some ErrNotExist →
     ∃ r, replayed r ∈ msgs ∧ im_SpoolID (replayed r) = im_SpoolID m' ∧ facts (sr_Message r) = facts m').
Lemma taken_views tr1 d0 e m d1 m' tr2 :
  reached tr1 d0 ((e, OpPrepare m) :: tr2) → im_SpoolID m = "" → Prepare e m d0 = (d1, Ok m') →
  forallb (fun x => negb (ends (im_SpoolID m') x)) tr2 = true →
  every wf (run d1 tr2) ∧ ∀ n, n ∈ may_leave (run d1 tr2) → ∃ p r, view n (im_SpoolID m') = Some (p, r) ∧
     facts (sr_Message r) = facts m' ∧ guard_kept (ic_DocumentIntake (im_Context m')) (intake r).
Proof.
  intros Hd Hs HP Hn. destruct (reached_facts _ _ _ Hd) as (Hwf & [Hre _] & Hun & _). inversion Hre as [|? ? He _]; subst.
  destruct (Prepare_after e m d0 d1 (Ok m') Hwf He) as [_ Hok]; [|done|].
  { intros id Hid. apply Hun; [|by left]. cbn [new_ids mbind list_bind drawn fst snd]. rewrite Hid. by left. }
  destruct (Hok Hs m' eq_refl) as (id & Hid & -> & Hsy & Hv).
  pose proof (reached_step _ _ _ _ _ Hd) as Hd1. cbn [SpoolSteps.step] in Hd1. rewrite HP in Hd1. cbn [fst] in Hd1.
  destruct (reached_on _ _ _ Hd1 Hsy) as [Hw Hp].
  assert (Hi : im_SpoolID (prepared e id m) = id) by (unfold prepared; by destruct (IsZero _)). rewrite Hi in *.
  split; [done|]. intros n Hnn. specialize (Hp n id Hnn). rewrite Hv in Hp.
  destruct (path_not_ended _ _ _ _ _ Hn (known_not_drawn _ _ _ _ _ _ _ Hd1 ltac:(by left) Hv) Hp) as (p & r & Hvr & [Hf Hg]).
  exists p, r. split; [done|]. rewrite Hf. split; [by unfold prepared_record; destruct (negb _)|].
  revert Hg. unfold intake, prepared_record, prepared. by destruct (IsZero _), (negb _).
Qed.
Lemma views_stay m' d : every wf d → (∀ n, n ∈ may_leave d → ∃ p r, view n (im_SpoolID m') = Some (p, r) ∧
    facts (sr_Message r) = facts m' ∧ guard_kept (ic_DocumentIntake (im_Context m')) (intake r)) → stays m' d.
Proof.
  intros Hw Hall. split; [done|]. intros e' msgs Hmsg Hrd. pose proof (every_now _ _ Hw) as Hwn.
  destruct (Hall _ ltac:(by left)) as (p & r & Hvr & Hf & _). exists r. split_and!; [| |done].
  - apply (Pending_answer e' _ msgs Hwn Hmsg Hrd). eexists _, r. split; [by eexists _, p|done].
  - apply view_holds in Hvr as (_ & _ & _ & (_ & Hrid & _)); [|done]. exact Hrid.
Qed.

(** C9. A message that [Prepare] took is there until it is acknowledged or given
    up: whatever else is done with the spool, whichever system calls fail and
    wherever it crashes, every state a crash may leave holds its record with
    the identity, the sender, the content and the context it came with, and
    every replay that answers without an error replays it. *)
Theorem accepted_until_acknowledged tr1 d0 e m d1 m' tr2 :
  reached tr1 d0 ((e, OpPrepare m) :: tr2) → im_SpoolID m = "" → Prepare e m d0 = (d1, Ok m') →
  forallb (fun x => negb (ends (im_SpoolID m') x)) tr2 = true →
  (∀ n, n ∈ may_leave (run d1 tr2) → ∃ p r, view n (im_SpoolID m') = Some (p, r) ∧
     facts (sr_Message r) = facts m' ∧ guard_kept (ic_DocumentIntake (im_Context m')) (intake r)) ∧
  (∀ e' msgs, Pending e' 0 (run d1 tr2) = (msgs, None) → env_readdir e' ≠ Some ErrNotExist →
     ∃ r, replayed r ∈ msgs ∧ im_SpoolID (replayed r) = im_SpoolID m' ∧ facts (sr_Message r) = facts m').
Proof.
  intros Hd Hs HP Hn. destruct (taken_views _ _ _ _ _ _ _ Hd Hs HP Hn) as [Hw Hall]. exact (views_stay _ _ Hw Hall).
Qed.

(** C23. A receipt proves what it says: the spool held a record of the source,
    and from then on no file of it stands in the directory in any state a crash
    may leave, whatever is done next, and no replay brings it back. *)
Theorem acknowledged_for_good tr1 d0 e id d1 receipt tr2 :
  reached tr1 d0 ((e, OpAcknowledge id) :: tr2) → acknowledge e dir id d0 = (d1, Ok receipt) → receipt ≠ no_receipt →
  receipt = mkReceipt dir id ∧ (∃ p r, view (dk_now d0) id = Some (p, r)) ∧
  (∀ n, n ∈ may_leave (run d1 tr2) → absent n id) ∧
  (∀ e' msgs m, Pending e' 0 (run d1 tr2) = (msgs, None) → env_readdir e' ≠ Some ErrNotExist → m ∈ msgs → im_SpoolID m ≠ id).
Proof.
  intros Hd HA Hr. destruct (reached_facts _ _ _ Hd) as (Hwf & _).
  destruct (acknowledge_after dir e id d0 d1 (Ok receipt) Hwf HA) as [_ Hok].
  destruct (Hok receipt eq_refl Hr) as (Hne & -> & Hsy & Ha & (p & r & Hv)).
  pose proof (known_not_drawn _ _ _ _ _ _ _ Hd ltac:(by left) Hv) as Hnew.
  pose proof (reached_step _ _ _ _ _ Hd) as Hd1. cbn [SpoolSteps.step] in Hd1. rewrite HA in Hd1. cbn [fst] in Hd1.
  destruct (reached_on _ _ _ Hd1 Hsy) as [Hw Hp].
  assert (Hall : ∀ n, n ∈ may_leave (run d1 tr2) → view n id = None).
  { intros n Hnn. apply (path_none tr2 id); [exact Hnew|]. specialize (Hp n id Hnn). by rewrite absent_view in Hp. }
  split_and!; [done|by exists p, r| |].
  - intros n Hnn. apply view_absent; [by apply Hw|by apply Hall].
  - intros e' msgs m Hmsg Hrd Hin. pose proof (every_now _ _ Hw) as Hwn.
    apply (Pending_answer e' _ msgs Hwn Hmsg Hrd) in Hin as (name & r' & (i & q & -> & Hv') & ->).
    pose proof (view_holds _ _ _ _ Hwn Hv') as (_ & _ & _ & (_ & Hrid & _)).
    intros Heq. cbn [replayed] in Heq. assert (i = id) as -> by (rewrite <- Hrid; exact Heq). by rewrite Hall in Hv' by by left.
Qed.

(** The document guard of a message is a fence: once [PersistContext] stored
    one, no later operation, failure or crash clears it or binds it to another
    job, mode or reference, and what was unavailable stays so. *)
Theorem guard_is_never_rebound tr1 d0 e m d1 tr2 n p r :
  reached tr1 d0 ((e, OpPersist m) :: tr2) → im_SpoolID m ≠ "" → PersistContext e m d0 = (d1, Ok tt) →
  n ∈ may_leave (run d1 tr2) → view n (im_SpoolID m) = Some (p, r) → guard_kept (ic_DocumentIntake (im_Context m)) (intake r).
Proof.
  intros Hd Hs HP Hn Hv. destruct (reached_facts _ _ _ Hd) as (Hwf & [Hre _] & _). inversion Hre as [|? ? He _]; subst.
  destruct (PersistContext_after e m d0 d1 (Ok tt) Hwf He HP) as [_ Hok].
  destruct (Hok Hs eq_refl) as (q & r0 & r1 & Hh & Hpe & Hsy & Hv1).
  pose proof (reached_step _ _ _ _ _ Hd) as Hd1. cbn [SpoolSteps.step] in Hd1. rewrite HP in Hd1. cbn [fst] in Hd1.
  destruct (reached_on _ _ _ Hd1 Hsy) as [_ Hp]. specialize (Hp n (im_SpoolID m) Hn). rewrite Hv1 in Hp.
  apply path_kept in Hp as [Hp|(p' & r' & Hp & [_ Hk])]; [congruence| |by eapply known_not_drawn; [exact Hd1|by left|exact Hv1]].
  rewrite Hv in Hp. injection Hp as -> ->. refine (guard_kept_trans _ _ _ _ Hk).
  destruct (persisted_fields _ _ _ Hpe) as (_ & _ & -> & _).
  destruct (IntakeGuard_IsZero (ic_DocumentIntake (im_Context m))) eqn:Ez; [by left|apply guard_kept_refl].
Qed.

(** ** A damaged file *)

(** [snapshotGatewayInboundSpool] of gateway.go: what a starting gateway replays. *)
Definition snapshotGatewayInboundSpool e d : list InboundMessage :=
  match Pending e 0 d with (_, Some _) => [] | (msgs, None) => msgs end.

Lemma pending_loop_stops e d names : ∀ msgs name, name ∈ names → ¬ is_ok (readRecord e name d) → ∃ x, (pending_loop e d names msgs).2 = Some x.
Proof.
  induction names as [|y names IH]; intros msgs name Hin Hbad; [by apply elem_of_nil in Hin|]. cbn [pending_loop].
  destruct (env_done_at e y); [by eexists|]. destruct (readRecord e y d) as [r|x] eqn:E; [|by eexists].
  destruct (validateCurrentInboundSpoolContext _); [|by eexists].
  apply elem_of_cons in Hin as [->|Hin]; [by rewrite E in Hbad|]. by apply (IH _ name).
Qed.
(** One file of the directory that does not read as a record of a known
    version keeps a starting gateway from replaying any message. *)
Theorem one_damaged_file_blocks_replay e d name node :
  replayable name = true → dk_now d !! name = Some node → node ≠ Directory → ¬ is_ok (readRecord e name d) →
  snapshotGatewayInboundSpool e d = [].
Proof.
  intros Hr Hn Hd Hbad. unfold snapshotGatewayInboundSpool, Pending. destruct (env_done e || env_done' e); [done|].
  destruct (env_readdir e) as [[]|]; [done|done|]. cbn [Z.ltb andb Z.compare].
  destruct (pending_loop_stops e d (pending_names (dk_now d)) [] name) as [x Hx]; [|done|].
  { apply elem_of_pending_names. eauto. }
  destruct (pending_loop _ _ _ _) as [msgs []]; [done|by cbn in Hx].
Qed.
End props.
