(* ===== verification/MessageBus.v ===== *)
(** Package [pkg/bus], bus.go: the channels between ingress, the agent loop and
    delivery, and the inbound spool behind the first of them.

    A goroutine is a stack of [Instr]; a step is one critical section of
    [publishMu], one [select], one operation on a channel, on the wait group or
    on the spool.  What a Go channel and a wait group do, panics included, is
    written out. *)
From S2P Require Import Prelude GoStrings GoJson GoTime TaskResult BusInbound BusOutbound FileUtil InboundSpool SpoolSteps.
#[local] Open Scope Z_scope.

(** ** Messages and streams *)

Record ObservedMessage := mkObserved {
  ob_Context : InboundContext; ob_Sender : SenderInfo; ob_Content : string; ob_Media : list string;
  ob_MediaScope : string; ob_SessionKey : string; ob_Reason : string }.
#[export] Instance eta_Observed : Eta ObservedMessage := fun m =>
  mkObserved (ob_Context m) (ob_Sender m) (ob_Content m) (ob_Media m) (ob_MediaScope m) (ob_SessionKey m) (ob_Reason m).
Record AudioChunk := mkAudio {
  ac_SessionID : string; ac_SpeakerID : string; ac_ChatID : string; ac_Channel : string; ac_Sequence : Z;
  ac_Timestamp : Z; ac_SampleRate : Z; ac_Channels : Z; ac_Format : string; ac_Data : string }.
Record VoiceControl := mkVoice { vc_SessionID : string; vc_ChatID : string; vc_Type : string; vc_Action : string }.

Inductive Stream := SInbound | SObserved | SOutbound | SOutboundMedia | SAudio | SVoice.
#[export] Instance Stream_eq_dec : EqDecision Stream. Proof. solve_decision. Defined.
Definition all_streams : list Stream := [SInbound; SObserved; SOutbound; SOutboundMedia; SAudio; SVoice].
Definition defaultBusBufferSize : nat := 64.
Definition capacity (s : Stream) : nat := match s with SAudio => defaultBusBufferSize * 4 | _ => defaultBusBufferSize end.
(** Only audio chunks have a budget for backpressure, after which they are dropped. *)
Definition timed (s : Stream) : bool := match s with SAudio => true | _ => false end.

Inductive Payload :=
| PInbound (m : InboundMessage) | PObserved (m : ObservedMessage) | POutbound (m : OutboundMessage)
| PMedia (m : OutboundMediaMessage) | PAudio (c : AudioChunk) | PVoice (c : VoiceControl).
Definition stream_of (p : Payload) : Stream :=
  match p with
  | PInbound _ => SInbound | PObserved _ => SObserved | POutbound _ => SOutbound | PMedia _ => SOutboundMedia
  | PAudio _ => SAudio | PVoice _ => SVoice
  end.

Inductive BusError :=
| ErrBusClosed | ErrBusBackpressure (s : Stream) | ErrMissingContext (s : Stream) | ErrNormalize (text : string)
| ErrContext (text : string) | ErrSpool (e : SpoolError).
(** The text a release stores; a publisher fails with the first or the last. *)
Definition error_text (e : BusError) : string :=
  match e with ErrBusClosed => "message bus closed" | ErrContext text => text | _ => "" end.

Definition context_isZero (c : InboundContext) : bool :=
  forallb (fun s => String.eqb s "")
    [ic_Channel c; ic_Account c; ic_ChatID c; ic_ChatType c; ic_TopicID c; ic_SpaceID c; ic_SpaceType c; ic_SenderID c;
     ic_ActorID c; ic_MessageID c; ic_OriginID c; ic_OriginType c; ic_SourceRef c; ic_ClientSessionID c;
     ic_ReplyToMessageID c; ic_ReplyToSenderID c]
  && negb (ic_Mentioned c) && bool_decide (size (ic_ReplyHandles c) = 0%nat) && bool_decide (size (ic_Raw c) = 0%nat).

(** ** State *)

(** A buffered channel. *)
Record Chan := mkChan { ch_buffer : list Payload; ch_closed : bool }.
Inductive Once := NotRun | Running | Ran.
#[export] Instance Once_eq_dec : EqDecision Once. Proof. solve_decision. Defined.
Record streamStats := mkStats { st_dropped : Z; st_lastDropped : option Time; st_lastWaitNanos : Z }.

(** What the callers were told. *)
Inductive Answer :=
| Published (p : Payload) (spooled : bool) | Refused (p : Payload) (e : BusError) | Replayed (e : option BusError)
| AckAnswered (id : string) (r : result SpoolError InboundAckReceipt) | Closed.

(** The bus; [mb_panicked] records a panic of a channel or of the wait group.
    The rest is history: what was put on each stream, what was taken off and
    whether the drain of [Close] took it, and the operations on the spool. *)
Record MessageBus := mkBus {
  mb_chan : Stream → Chan;
  mb_closeOnce : Once;
  mb_done : bool; (* the channel [done] is closed *)
  mb_closed : bool;
  mb_wg : Z;
  mb_inboundSpool : option string; (* its directory *)
  mb_audioStats : streamStats;
  mb_disk : Disk;
  mb_panicked : bool;
  mb_sent : Stream → list Payload;
  mb_taken : Stream → list (Payload * bool);
  mb_ops : list (Env * Op);
  mb_answers : list Answer }.
#[export] Instance eta_MessageBus : Eta MessageBus := fun b =>
  mkBus (mb_chan b) (mb_closeOnce b) (mb_done b) (mb_closed b) (mb_wg b) (mb_inboundSpool b) (mb_audioStats b) (mb_disk b)
    (mb_panicked b) (mb_sent b) (mb_taken b) (mb_ops b) (mb_answers b).
Definition NewMessageBus (spool : option string) : MessageBus :=
  mkBus (fun _ => mkChan [] false) NotRun false false 0 spool (mkStats 0 None 0) empty_disk false
    (fun _ => []) (fun _ => []) [] [].

Definition at_stream {A} (s : Stream) (f : A → A) (g : Stream → A) : Stream → A :=
  fun s' => if bool_decide (s' = s) then f (g s') else g s'.

(** ** Instructions *)

Inductive Call :=
| CPublish (p : Payload) | CReplay (msgs : list InboundMessage) | CReceive (s : Stream)
| CAck (m : InboundMessage) | CRelease (m : InboundMessage) (cause : option string) | CPersist (m : InboundMessage)
| CClose.
(** What follows a [publish]: the rest of [PublishInbound] and its like, with
    whether the spool took the message here, or the rest of a replay. *)
Inductive Rest := RPublish (spooled : bool) | RReplay (msgs : list InboundMessage).
Inductive Instr :=
| ICall (c : Call)
| IEnter (p : Payload) (k : Rest) (* [enterPublish] *)
| ISelect (p : Payload) (k : Rest)
| IWgDone
| IReplay (msgs : list InboundMessage)
| IReleaseInbound (m : InboundMessage) (cause : string)
| IReturn (a : Answer)
| ICloseLock | ICloseWait | ICloseChannels (todo : list Stream) | IDrain (todo : list Stream) | ICloseDone.
Definition thread : Type := list Instr.

Inductive Selected := SelSend | SelContext | SelTimer | SelDone.
(** How a step turns out: what the spool's operation meets, whether the context
    of the caller is done and what its error says, and the chosen case. *)
Record Choice := mkChoice { ch_env : Env; ch_context : bool; ch_error : string; ch_selected : Selected }.

(** [defaultAudioPublishTimeout], in nanoseconds. *)
Definition audio_timeout : Z := 150000000.

Section exec.
Context `{UnicodeCase, SpoolDecoder}.
Implicit Types (b : MessageBus) (c : Choice) (i : Instr).

(** ** Channels and the wait group *)

Definition panic b : MessageBus := b <| mb_panicked := true |>.
(** [None] when the operation blocks. *)
Definition chan_send (p : Payload) b : option MessageBus :=
  let s := stream_of p in
  if ch_closed (mb_chan b s) then Some (panic b)
  else if (length (ch_buffer (mb_chan b s)) <? capacity s)%nat then
    Some (b <| mb_chan ::= at_stream s (fun ch => mkChan (ch_buffer ch ++ [p]) (ch_closed ch)) |>
            <| mb_sent ::= at_stream s (fun l => l ++ [p]) |>)
  else None.
(** The received value is [None] on a closed channel that is empty. *)
Definition chan_receive (s : Stream) (drain : bool) b : option (MessageBus * option Payload) :=
  match ch_buffer (mb_chan b s) with
  | p :: buffer =>
      Some (b <| mb_chan ::= at_stream s (fun ch => mkChan buffer (ch_closed ch)) |>
              <| mb_taken ::= at_stream s (fun l => l ++ [(p, drain)]) |>, Some p)
  | [] => if ch_closed (mb_chan b s) then Some (b, None) else None
  end.
Definition chan_close (s : Stream) b : MessageBus :=
  if ch_closed (mb_chan b s) then panic b
  else b <| mb_chan ::= at_stream s (fun ch => mkChan (ch_buffer ch) true) |>.
Definition wg_done b : MessageBus :=
  let b := b <| mb_wg ::= fun n => n - 1 |> in if mb_wg b <? 0 then panic b else b.

(** ** Publishing *)

Definition return_ (a : Answer) b : MessageBus := b <| mb_answers ::= fun l => l ++ [a] |>.
(** What a publisher does after [publish] returned. *)
Definition published (p : Payload) (k : Rest) : thread :=
  match k with RPublish spooled => [IReturn (Published p spooled)] | RReplay msgs => [IReplay msgs] end.
Definition refused (p : Payload) (k : Rest) (e : BusError) : thread :=
  match k with
  | RReplay _ => [IReturn (Replayed (Some e))]
  | RPublish spooled =>
      match p, spooled with
      | PInbound m, true => [IReleaseInbound m (error_text e); IReturn (Refused p e)]
      | _, _ => [IReturn (Refused p e)]
      end
  end.
Definition enterPublish c (p : Payload) (k : Rest) b : MessageBus * thread :=
  if mb_closed b then (b, refused p k ErrBusClosed)
  else if ch_context c then (b, refused p k (ErrContext (ch_error c)))
  else if mb_done b then (b, refused p k ErrBusClosed)
  else (b <| mb_wg ::= fun n => n + 1 |>, [ISelect p k]).
Definition count_drop (now : Time) b : MessageBus :=
  b <| mb_audioStats ::= fun st => mkStats (st_dropped st + 1) (Some now) audio_timeout |>.
Definition select c (p : Payload) (k : Rest) b : option (MessageBus * thread) :=
  match ch_selected c with
  | SelSend => (fun b => (b, IWgDone :: published p k)) <$> chan_send p b
  | SelContext => if ch_context c then Some (b, IWgDone :: refused p k (ErrContext (ch_error c))) else None
  | SelTimer =>
      if timed (stream_of p)
      then Some (count_drop (env_now (ch_env c)) b, IWgDone :: refused p k (ErrBusBackpressure (stream_of p))) else None
  | SelDone => if mb_done b then Some (b, IWgDone :: refused p k ErrBusClosed) else None
  end.

Definition enter (p : Payload) (context : InboundContext) : thread :=
  if context_isZero context then [IReturn (Refused p (ErrMissingContext (stream_of p)))] else [IEnter p (RPublish false)].
Definition spool_op (x : Env * Op) (d : Disk) b : MessageBus := b <| mb_disk := d |> <| mb_ops ::= fun l => l ++ [x] |>.
Definition received (now : Time) (m : InboundMessage) : InboundMessage :=
  if IsZero (ic_ReceivedAt (im_Context m)) then m <| im_Context ::= fun x => x <| ic_ReceivedAt := UTC now |> |> else m.
Definition PublishInbound (e : Env) (m : InboundMessage) b : MessageBus * thread :=
  let m := received (env_now e) (NormalizeInboundMessage m) in
  if context_isZero (im_Context m) then (b, [IReturn (Refused (PInbound m) (ErrMissingContext SInbound))])
  else match mb_inboundSpool b with
  | Some dir =>
      if String.eqb (im_SpoolID m) "" then
        let '(d, r) := Prepare e m (mb_disk b) in
        let b := spool_op (e, OpPrepare m) d b in
        match r with
        | Err x => (b, [IReturn (Refused (PInbound m) (ErrSpool x))])
        | Ok m => (b, [IEnter (PInbound m) (RPublish true)])
        end
      else (b, [IEnter (PInbound m) (RPublish false)])
  | None => (b, [IEnter (PInbound m) (RPublish false)])
  end.
Definition PublishObserved (m : ObservedMessage) : thread :=
  let m := m <| ob_Context ::= normalizeInboundContext |> <| ob_Reason ::= trim_space |> in enter (PObserved m) (ob_Context m).
Definition PublishOutbound (m : OutboundMessage) : thread :=
  match NormalizeOutboundMessage m with
  | Err text => [IReturn (Refused (POutbound m) (ErrNormalize text))]
  | Ok m => enter (POutbound m) (om_Context m)
  end.
Definition PublishOutboundMedia (m : OutboundMediaMessage) : thread :=
  match NormalizeOutboundMediaMessage m with
  | Err text => [IReturn (Refused (PMedia m) (ErrNormalize text))]
  | Ok m => enter (PMedia m) (mm_Context m)
  end.
Definition publish_call (e : Env) (p : Payload) b : MessageBus * thread :=
  match p with
  | PInbound m => PublishInbound e m b
  | PObserved m => (b, PublishObserved m)
  | POutbound m => (b, PublishOutbound m)
  | PMedia m => (b, PublishOutboundMedia m)
  | PAudio _ | PVoice _ => (b, [IEnter p (RPublish false)])
  end.

(** ** The spool behind the bus *)

Definition ReleaseInbound (e : Env) (m : InboundMessage) (cause : option string) b : MessageBus :=
  match mb_inboundSpool b with
  | Some _ => spool_op (e, OpRelease (im_SpoolID m) cause) (Release e (im_SpoolID m) cause (mb_disk b)).1 b
  | None => b
  end.
Definition PersistInboundContext (e : Env) (m : InboundMessage) b : MessageBus :=
  match mb_inboundSpool b with
  | Some _ => spool_op (e, OpPersist m) (PersistContext e m (mb_disk b)).1 b
  | None => b
  end.
Definition AckInbound (e : Env) (m : InboundMessage) b : MessageBus :=
  match mb_inboundSpool b with
  | Some dir =>
      let '(d, r) := acknowledge e dir (im_SpoolID m) (mb_disk b) in
      return_ (AckAnswered (im_SpoolID m) r) (spool_op (e, OpAcknowledge (im_SpoolID m)) d b)
  | None => return_ (AckAnswered (im_SpoolID m) (Ok no_receipt)) b
  end.

(** ** One step *)

Definition exec_call c (call : Call) b : option (MessageBus * thread) :=
  match call with
  | CPublish p => Some (publish_call (ch_env c) p b)
  | CReplay msgs => Some (b, [IReplay msgs])
  | CReceive s => (fun x => (x.1, [])) <$> chan_receive s false b
  | CAck m => Some (AckInbound (ch_env c) m b, [])
  | CRelease m cause => Some (ReleaseInbound (ch_env c) m cause b, [])
  | CPersist m => Some (PersistInboundContext (ch_env c) m b, [])
  | CClose =>
      match mb_closeOnce b with
      | NotRun => Some (b <| mb_closeOnce := Running |>, [ICloseLock])
      | Running => None
      | Ran => Some (b, [IReturn Closed])
      end
  end.
Definition exec c i b : option (MessageBus * thread) :=
  match i with
  | ICall call => exec_call c call b
  | IEnter p k => Some (enterPublish c p k b)
  | ISelect p k => select c p k b
  | IWgDone => Some (wg_done b, [])
  | IReplay [] => Some (b, [IReturn (Replayed None)])
  | IReplay (m :: msgs) => Some (b, [IEnter (PInbound m) (RReplay msgs)])
  | IReleaseInbound m cause => Some (ReleaseInbound (ch_env c) m (Some cause) b, [])
  | IReturn a => Some (return_ a b, [])
  | ICloseLock =>
      let b := b <| mb_closed := true |> in
      Some (if mb_done b then panic b else b <| mb_done := true |>, [ICloseWait])
  | ICloseWait => if mb_wg b =? 0 then Some (b, [ICloseChannels all_streams]) else None
  | ICloseChannels (s :: todo) => Some (chan_close s b, [ICloseChannels todo])
  | ICloseChannels [] => Some (b, [IDrain all_streams])
  | IDrain (s :: todo) =>
      match chan_receive s true b with
      | Some (b, Some _) => Some (b, [IDrain (s :: todo)])
      | Some (b, None) => Some (b, [IDrain todo])
      | None => None
      end
  | IDrain [] => Some (b, [ICloseDone])
  | ICloseDone => Some (b <| mb_closeOnce := Ran |>, [IReturn Closed])
  end.

(** ** Schedules

    A goroutine is started with a call, runs one step, or the process crashes
    and a new one starts on what the crash left of the directory. *)
Record System := mkSystem { sys_bus : MessageBus; sys_threads : list thread }.
Inductive Sched := Spawn (call : Call) | Run (t : nat) (c : Choice) | Crash (e : Env) (k : nat).
Definition restarted (e : Env) (k : nat) b : MessageBus :=
  NewMessageBus (mb_inboundSpool b) <| mb_disk := crash k (mb_disk b) |> <| mb_ops := mb_ops b ++ [(e, OpCrash k)] |>
    <| mb_answers := mb_answers b |>.
Definition sched_step (y : System) (a : Sched) : option System :=
  match a with
  | Spawn call => Some (mkSystem (sys_bus y) (sys_threads y ++ [[ICall call]]))
  | Run t c =>
      match sys_threads y !! t with
      | Some (i :: rest) =>
          match exec c i (sys_bus y) with
          | Some (b, k) => Some (mkSystem b (<[t := k ++ rest]> (sys_threads y)))
          | None => None
          end
      | _ => None
      end
  | Crash e k => Some (mkSystem (restarted e k (sys_bus y)) [])
  end.
Fixpoint sched_run (y : System) (l : list Sched) : option System :=
  match l with [] => Some y | a :: l => match sched_step y a with Some y => sched_run y l | None => None end end.
Definition reachable (y : System) : Prop := ∃ spool l, sched_run (mkSystem (NewMessageBus spool) []) l = Some y.
End exec.
