(* ===== verification/BusProps.v ===== *)
(** The message bus: no publisher ever sends on a closed channel, streams keep
    their order, closing comes to an end, and what was published on a bus with
    a spool is not lost. *)
From S2P Require Import Prelude Goroutines GoStrings GoJson GoTime TaskResult BusInbound BusOutbound FileUtil InboundSpool.
From S2P Require Import SpoolSteps SpoolProps MessageBus.
#[local] Open Scope Z_scope.

Section bus.
Context `{UnicodeCase, SpoolDecoder}.
Implicit Types (b : MessageBus) (c : Choice) (i : Instr) (ts : list thread) (y : System) (s : Stream).

(** ** Accounts *)

(** The publishers that the wait group counts. *)
Definition in_publish i : Z := match i with ISelect _ _ | IWgDone => 1 | _ => 0 end.
(** The places of [Close]: at all, after its lock, after its wait, and after it
    closed a channel. *)
Definition closing i : Z :=
  match i with ICloseLock | ICloseWait | ICloseChannels _ | IDrain _ | ICloseDone => 1 | _ => 0 end.
Definition locked_out i : Z := match i with ICloseLock => 0 | _ => closing i end.
Definition waited i : Z := match i with ICloseLock | ICloseWait => 0 | _ => closing i end.
Definition has_shut s i : Z :=
  match i with ICloseChannels todo => one_if (negb (bool_decide (s ∈ todo))) | IDrain _ | ICloseDone => 1 | _ => 0 end.

Definition todo_ok b i : Prop :=
  match i with
  | ICloseChannels todo => NoDup todo
  | IDrain todo => ∀ s, s ∉ todo → ch_buffer (mb_chan b s) = []
  | ICloseDone => ∀ s, ch_buffer (mb_chan b s) = []
  | _ => True
  end.

Record bus_inv b ts : Prop := {
  bi_wg : mb_wg b = tsum in_publish ts;
  bi_closing : tsum closing ts = one_if (bool_decide (mb_closeOnce b = Running));
  bi_done : mb_done b = mb_closed b;
  bi_closed : one_if (mb_closed b) = one_if (bool_decide (mb_closeOnce b = Ran)) + tsum locked_out ts;
  bi_waited : 0 < tsum waited ts ∨ mb_closeOnce b = Ran → mb_wg b = 0;
  bi_channel : ∀ s, one_if (ch_closed (mb_chan b s)) =
    one_if (bool_decide (mb_closeOnce b = Ran)) + tsum (has_shut s) ts;
  bi_panic : mb_panicked b = false;
  bi_order : ∀ s, mb_sent b s = (mb_taken b s).*1 ++ ch_buffer (mb_chan b s);
  bi_room : ∀ s, (length (ch_buffer (mb_chan b s)) ≤ capacity s)%nat;
  bi_todo : ∀ i, stands ts i → todo_ok b i;
  bi_ran : mb_closeOnce b = Ran → ∀ s, ch_buffer (mb_chan b s) = [] }.

Lemma weights_range i s : 0 ≤ in_publish i ∧ 0 ≤ has_shut s i ≤ waited i ∧ waited i ≤ locked_out i ∧ locked_out i ≤ closing i ≤ 1.
Proof. destruct i; cbn; try lia. pose proof (one_if_nonneg (negb (bool_decide (s ∈ todo)))). lia. Qed.
Lemma in_publish_nonneg i : 0 ≤ in_publish i. Proof. apply (weights_range i SInbound). Qed.
Lemma waited_nonneg i : 0 ≤ waited i. Proof. pose proof (weights_range i SInbound). lia. Qed.
Lemma locked_out_nonneg i : 0 ≤ locked_out i. Proof. pose proof (weights_range i SInbound). lia. Qed.
Lemma closing_nonneg i : 0 ≤ closing i. Proof. pose proof (weights_range i SInbound). lia. Qed.
Lemma has_shut_nonneg s i : 0 ≤ has_shut s i. Proof. apply (weights_range i s). Qed.

(** What follows a publish holds no account. *)
Lemma after_publish_free (w : Instr → Z) p k e : (∀ a, w (IReturn a) = 0) → (∀ msgs, w (IReplay msgs) = 0) →
  (∀ m cause, w (IReleaseInbound m cause) = 0) → zsum w (published p k) = 0 ∧ zsum w (refused p k e) = 0.
Proof.
  intros H1 H2 H3. unfold published, refused. split; [destruct k|destruct k as [[]|], p]; rewrite ?zsum_cons, ?zsum_nil, ?H1, ?H2, ?H3; lia.
Qed.
Lemma after_publish_stands (P : Instr → Prop) p k e : (∀ a, P (IReturn a)) → (∀ msgs, P (IReplay msgs)) →
  (∀ m cause, P (IReleaseInbound m cause)) → (∀ i, i ∈ published p k → P i) ∧ (∀ i, i ∈ refused p k e → P i).
Proof.
  intros H1 H2 H3. unfold published, refused. split; intros i Hi; [destruct k|destruct k as [[]|], p]; set_solver.
Qed.

Lemma zsum_le {A} (f g : A → Z) l : (∀ x, f x ≤ g x) → zsum f l ≤ zsum g l.
Proof. intros Hf. induction l as [|x l IH]; [done|]. rewrite !zsum_cons. specialize (Hf x). lia. Qed.
Lemma tsum_le (v w : Instr → Z) ts : (∀ i, v i ≤ w i) → tsum v ts ≤ tsum w ts.
Proof. intros Hv. apply zsum_le. intros k. by apply zsum_le. Qed.

(** While a publisher is counted, the channels are open. *)
Lemma publishing_open b ts i : bus_inv b ts → stands ts i → in_publish i = 1 →
  1 ≤ mb_wg b ∧ tsum waited ts = 0 ∧ mb_closeOnce b ≠ Ran ∧ ∀ s, ch_closed (mb_chan b s) = false.
Proof.
  intros Hinv Hi Hp. pose proof (tsum_stands _ in_publish_nonneg _ _ Hi) as Hw. rewrite Hp, <- (bi_wg _ _ Hinv) in Hw.
  pose proof (tsum_nonneg _ waited_nonneg ts) as Hn.
  assert (Hz : tsum waited ts = 0 ∧ mb_closeOnce b ≠ Ran).
  { pose proof (bi_waited _ _ Hinv) as Hwt. split.
    - destruct (decide (tsum waited ts = 0)); [done|]. rewrite Hwt in Hw; [lia|left; lia].
    - intros Hr. rewrite Hwt in Hw; [lia|by right]. }
  destruct Hz as [Hz Hr]. split_and!; try done. intros s. pose proof (bi_channel _ _ Hinv s) as Hc.
  rewrite bool_decide_eq_false_2 in Hc by done.
  pose proof (tsum_le (has_shut s) waited ts ltac:(intros j; apply weights_range)).
  destruct (ch_closed (mb_chan b s)); [cbn in Hc; lia|done].
Qed.
(** [Close] is at one place. *)
Lemma closing_once b ts i : bus_inv b ts → stands ts i → closing i = 1 → mb_closeOnce b = Running ∧ tsum closing ts = 1.
Proof.
  intros Hinv Hi Hp. pose proof (tsum_stands _ closing_nonneg _ _ Hi) as Hw. rewrite (bi_closing _ _ Hinv) in *.
  case_bool_decide; cbn in *; [done|lia].
Qed.

Lemma inv_step b ts t i rest k b' : bus_inv b ts → ts !! t = Some (i :: rest) →
  mb_wg b' = mb_wg b + zsum in_publish k - in_publish i →
  one_if (bool_decide (mb_closeOnce b' = Running)) = one_if (bool_decide (mb_closeOnce b = Running)) + zsum closing k - closing i →
  mb_done b' = mb_closed b' →
  one_if (mb_closed b') - one_if (bool_decide (mb_closeOnce b' = Ran)) =
    one_if (mb_closed b) - one_if (bool_decide (mb_closeOnce b = Ran)) + zsum locked_out k - locked_out i →
  (0 < tsum waited ts + zsum waited k - waited i ∨ mb_closeOnce b' = Ran → mb_wg b' = 0) →
  (∀ s, one_if (ch_closed (mb_chan b' s)) - one_if (bool_decide (mb_closeOnce b' = Ran)) =
    one_if (ch_closed (mb_chan b s)) - one_if (bool_decide (mb_closeOnce b = Ran)) + zsum (has_shut s) k - has_shut s i) →
  mb_panicked b' = false →
  (∀ s, mb_sent b' s = (mb_taken b' s).*1 ++ ch_buffer (mb_chan b' s)) →
  (∀ s, (length (ch_buffer (mb_chan b' s)) ≤ capacity s)%nat) →
  (∀ j, j ∈ k → todo_ok b' j) → (∀ j, stands ts j → todo_ok b j → todo_ok b' j) →
  (mb_closeOnce b' = Ran → ∀ s, ch_buffer (mb_chan b' s) = []) →
  bus_inv b' (<[t := k ++ rest]> ts).
Proof.
  intros [I1 I2 I3 I4 I5 I6 I7 I8 I9 I10 I11] Ht H1 H2 H3 H4 H5 H6 H7 H8 H9 H10 H11 H12.
  split; rewrite ?(tsum_step _ _ _ _ _ _ Ht); try done.
  - lia.
  - lia.
  - lia.
  - intros [Hw|Hw]; apply H5; [left; lia|by right].
  - intros s. rewrite (tsum_step _ _ _ _ _ _ Ht). specialize (H6 s). specialize (I6 s). lia.
  - intros j Hj. destruct (stands_step _ _ _ _ _ _ Ht Hj) as [Hk|Hs]; [by apply H10|apply H11; auto].
Qed.

(** ** Steps that leave the channels alone *)

Definition neutral i : Prop := in_publish i = 0 ∧ closing i = 0.
Lemma neutral_weights i s : neutral i → locked_out i = 0 ∧ waited i = 0 ∧ has_shut s i = 0.
Proof. intros [_ Hc]. pose proof (weights_range i s). lia. Qed.
Lemma neutral_zsum k : Forall neutral k → zsum in_publish k = 0 ∧ zsum closing k = 0 ∧ zsum locked_out k = 0 ∧ zsum waited k = 0
  ∧ ∀ s, zsum (has_shut s) k = 0.
Proof.
  intros Hk. induction Hk as [|i k Hi _ (H1 & H2 & H3 & H4 & H5)]; [done|]. rewrite !zsum_cons, H1, H2, H3, H4.
  destruct Hi as [Hi1 Hi2]. destruct (neutral_weights i SInbound (conj Hi1 Hi2)) as (-> & -> & _). rewrite Hi1, Hi2.
  split_and!; try done. intros s. rewrite zsum_cons, H5. by destruct (neutral_weights i s (conj Hi1 Hi2)) as (_ & _ & ->).
Qed.
Lemma neutral_todo b i : neutral i → todo_ok b i.
Proof. intros [_ Hc]. by destruct i. Qed.
(** Calls, returns and what follows a publish are neutral. *)
Lemma after_publish_neutral p k e : Forall neutral (published p k) ∧ Forall neutral (refused p k e).
Proof.
  unfold published, refused. split; [destruct k|destruct k as [[]|], p]; repeat constructor.
Qed.

Record same_channels b b' : Prop := {
  sc_chan : mb_chan b' = mb_chan b; sc_once : mb_closeOnce b' = mb_closeOnce b; sc_done : mb_done b' = mb_done b;
  sc_closed : mb_closed b' = mb_closed b; sc_wg : mb_wg b' = mb_wg b; sc_panic : mb_panicked b' = mb_panicked b;
  sc_sent : mb_sent b' = mb_sent b; sc_taken : mb_taken b' = mb_taken b }.
Lemma same_channels_refl b : same_channels b b. Proof. done. Qed.
Lemma todo_same b b' i : mb_chan b' = mb_chan b → todo_ok b i → todo_ok b' i.
Proof. intros Hc. destruct i; cbn; by rewrite ?Hc. Qed.

Lemma inv_neutral b ts t i rest k b' : bus_inv b ts → ts !! t = Some (i :: rest) → neutral i → Forall neutral k →
  same_channels b b' → bus_inv b' (<[t := k ++ rest]> ts).
Proof.
  intros Hinv Ht Hi Hk [S1 S2 S3 S4 S5 S6 S7 S8]. pose proof Hinv as [I1 I2 I3 I4 I5 I6 I7 I8 I9 I10 I11].
  destruct (neutral_zsum k Hk) as (K1 & K2 & K3 & K4 & K5). destruct (neutral_weights i SInbound Hi) as (W3 & W4 & _).
  pose proof Hi as [W1 W2].
  apply (inv_step b ts t i rest k b' Hinv Ht); rewrite ?S1, ?S2, ?S3, ?S4, ?S5, ?S6, ?S7, ?S8, ?K1, ?K2, ?K3, ?K4, ?W1, ?W2, ?W3, ?W4;
    try done; try lia.
  - intros [Hw|Hw]; apply I5; [left; lia|by right].
  - intros s. rewrite K5. destruct (neutral_weights i s Hi) as (_ & _ & ->). lia.
  - intros j Hj. apply neutral_todo. by eapply Forall_forall in Hk.
  - intros j _. by apply todo_same.
Qed.

Lemma enter_neutral p context : Forall neutral (enter p context).
Proof. unfold enter. destruct (context_isZero context); repeat constructor. Qed.
Lemma publish_call_neutral e p b b' k : publish_call e p b = (b', k) → same_channels b b' ∧ Forall neutral k.
Proof.
  unfold publish_call. destruct p as [m|m|m|m|x|x]; [| | | |intros [= <- <-]; split; [done|repeat constructor]..].
  - unfold PublishInbound. generalize (received (env_now e) (NormalizeInboundMessage m)). intros m1. cbv zeta.
    destruct (context_isZero _); [intros [= <- <-]; split; [done|repeat constructor]|].
    destruct (mb_inboundSpool b); [|intros [= <- <-]; split; [done|repeat constructor]].
    destruct (String.eqb _ _); [|intros [= <- <-]; split; [done|repeat constructor]].
    destruct (Prepare _ _ _) as [d [m'|x]]; intros [= <- <-]; split; try done; repeat constructor.
  - unfold PublishObserved. intros [= <- <-]. split; [done|apply enter_neutral].
  - unfold PublishOutbound. intros [= <- <-]. split; [done|]. destruct (NormalizeOutboundMessage m); [apply enter_neutral|repeat constructor].
  - unfold PublishOutboundMedia. intros [= <- <-]. split; [done|]. destruct (NormalizeOutboundMediaMessage m); [apply enter_neutral|repeat constructor].
Qed.
Lemma spool_calls_same e m cause b :
  same_channels b (AckInbound e m b) ∧ same_channels b (ReleaseInbound e m cause b) ∧ same_channels b (PersistInboundContext e m b).
Proof.
  unfold AckInbound, ReleaseInbound, PersistInboundContext. destruct (mb_inboundSpool b); [|done].
  by destruct (acknowledge _ _ _ _).
Qed.

(** ** The steps that use the channels *)

Lemma at_stream_eq {A} s (f : A → A) g : at_stream s f g s = f (g s).
Proof. unfold at_stream. by rewrite bool_decide_eq_true_2. Qed.
Lemma at_stream_ne {A} s s' (f : A → A) g : s' ≠ s → at_stream s f g s' = g s'.
Proof. intros. unfold at_stream. by rewrite bool_decide_eq_false_2. Qed.

(** A message is taken off a stream. *)
Lemma chan_receive_cases s drain b b' r : chan_receive s drain b = Some (b', r) →
  match r with
  | None => b' = b ∧ ch_buffer (mb_chan b s) = [] ∧ ch_closed (mb_chan b s) = true
  | Some p => ∃ buffer, ch_buffer (mb_chan b s) = p :: buffer ∧
      b' = b <| mb_chan ::= at_stream s (fun ch => mkChan buffer (ch_closed ch)) |>
             <| mb_taken ::= at_stream s (fun l => l ++ [(p, drain)]) |>
  end.
Proof.
  unfold chan_receive. destruct (ch_buffer (mb_chan b s)) as [|p buffer].
  - destruct (ch_closed (mb_chan b s)); by intros [= <- <-].
  - intros [= <- <-]. by exists buffer.
Qed.
Lemma inv_receive b ts t i rest k s p drain b' : bus_inv b ts → ts !! t = Some (i :: rest) →
  chan_receive s drain b = Some (b', Some p) → in_publish i = 0 →
  (∀ s', zsum in_publish k = 0 ∧ zsum closing k = closing i ∧ zsum locked_out k = locked_out i ∧ zsum waited k = waited i
     ∧ zsum (has_shut s') k = has_shut s' i) →
  (∀ j, j ∈ k → todo_ok b j → todo_ok b' j) → (∀ j, j ∈ k → todo_ok b j) → bus_inv b' (<[t := k ++ rest]> ts).
Proof.
  intros Hinv Ht Hr Hp Hw Hk Hk'. pose proof Hinv as [I1 I2 I3 I4 I5 I6 I7 I8 I9 I10 I11].
  apply chan_receive_cases in Hr as (buffer & Hb & ->). destruct (Hw SInbound) as (W1 & W2 & W3 & W4 & _).
  assert (Hemp : ∀ s', ch_buffer (mb_chan b s') = [] → ch_buffer (at_stream s (fun ch => mkChan buffer (ch_closed ch)) (mb_chan b) s') = []).
  { intros s' Hs'. destruct (decide (s' = s)) as [->|Hne]; [congruence|by rewrite at_stream_ne]. }
  apply (inv_step b ts t i rest k _ Hinv Ht); cbn; try done; try lia.
  - intros [Hwt|Hwt]; apply I5; [left; lia|by right].
  - intros s'. destruct (Hw s') as (_ & _ & _ & _ & ->).
    destruct (decide (s' = s)) as [->|Hne]; [rewrite at_stream_eq|rewrite at_stream_ne by done]; cbn; lia.
  - intros s'. destruct (decide (s' = s)) as [->|Hne].
    + rewrite !at_stream_eq, I8, Hb, fmap_app. cbn. by rewrite <- app_assoc.
    + rewrite !at_stream_ne by done. apply I8.
  - intros s'. destruct (decide (s' = s)) as [->|Hne]; [rewrite at_stream_eq|by rewrite at_stream_ne].
    specialize (I9 s). rewrite Hb in I9. cbn in *. lia.
  - intros j Hj. apply Hk; auto.
  - intros [] _ Hj; try done; cbn in *; auto.
  - intros Hran s'. apply Hemp. by apply I11.
Qed.

Lemma stands_top' ts t i rest : ts !! t = Some (i :: rest) → stands ts i.
Proof. apply stands_top. Qed.

(** A publisher whose [select] fails, or that leaves the wait group. *)
Lemma inv_publisher b ts t p k0 rest k b' : bus_inv b ts → ts !! t = Some (ISelect p k0 :: rest) → Forall neutral k →
  same_channels b b' → bus_inv b' (<[t := (IWgDone :: k) ++ rest]> ts).
Proof.
  intros Hinv Ht Hk [S1 S2 S3 S4 S5 S6 S7 S8]. pose proof Hinv as [I1 I2 I3 I4 I5 I6 I7 I8 I9 I10 I11].
  destruct (neutral_zsum k Hk) as (K1 & K2 & K3 & K4 & K5).
  apply (inv_step b ts t _ rest _ b' Hinv Ht); rewrite ?S1, ?S2, ?S3, ?S4, ?S5, ?S6, ?S7, ?S8, ?zsum_cons, ?K1, ?K2, ?K3, ?K4;
    cbn [in_publish closing locked_out waited]; try done; try lia.
  - intros [Hw|Hw]; apply I5; [left; lia|by right].
  - intros s. rewrite zsum_cons, K5. cbn. lia.
  - intros j [->|Hj]%elem_of_cons; [done|]. apply neutral_todo. by eapply Forall_forall in Hk.
  - intros j _. by apply todo_same.
Qed.
Lemma inv_wg_done b ts t rest : bus_inv b ts → ts !! t = Some (IWgDone :: rest) → bus_inv (wg_done b) (<[t := [] ++ rest]> ts).
Proof.
  intros Hinv Ht. destruct (publishing_open b ts IWgDone Hinv (stands_top _ _ _ _ Ht) eq_refl) as (Hw & Hz & Hr & Hc).
  pose proof Hinv as [I1 I2 I3 I4 I5 I6 I7 I8 I9 I10 I11]. unfold wg_done. cbv zeta.
  cbn [mb_wg update eta eta_MessageBus]. destruct (Z.ltb_spec (mb_wg b - 1) 0); [lia|].
  apply (inv_step b ts t _ rest [] _ Hinv Ht); rewrite ?zsum_nil; cbn; try done; try lia.
  - intros [?|?]; [lia|done].
  - intros s. rewrite zsum_nil. lia.
  - intros j Hj. by apply elem_of_nil in Hj.
Qed.
Lemma inv_send b ts t p k rest b' : bus_inv b ts → ts !! t = Some (ISelect p k :: rest) → chan_send p b = Some b' →
  bus_inv b' (<[t := (IWgDone :: published p k) ++ rest]> ts).
Proof.
  intros Hinv Ht Hs. destruct (publishing_open b ts _ Hinv (stands_top _ _ _ _ Ht) eq_refl) as (Hw & Hz & Hr & Hc).
  pose proof Hinv as [I1 I2 I3 I4 I5 I6 I7 I8 I9 I10 I11]. destruct (after_publish_neutral p k ErrBusClosed) as [Hk _].
  destruct (neutral_zsum _ Hk) as (K1 & K2 & K3 & K4 & K5). unfold chan_send in Hs. rewrite Hc in Hs.
  destruct (Nat.ltb_spec (length (ch_buffer (mb_chan b (stream_of p)))) (capacity (stream_of p))); [|done]. injection Hs as <-.
  apply (inv_step b ts t _ rest _ _ Hinv Ht); rewrite ?zsum_cons, ?K1, ?K2, ?K3, ?K4; cbn [in_publish closing locked_out waited]; cbn; try done; try lia.
  - intros [?|?]; [lia|done].
  - intros s. rewrite zsum_cons, K5. destruct (decide (s = stream_of p)) as [->|Hne]; [rewrite at_stream_eq|rewrite at_stream_ne by done]; cbn; lia.
  - intros s. destruct (decide (s = stream_of p)) as [->|Hne]; [rewrite !at_stream_eq|rewrite !at_stream_ne by done; apply I8].
    cbn. by rewrite I8, app_assoc.
  - intros s. destruct (decide (s = stream_of p)) as [->|Hne]; [rewrite at_stream_eq|by rewrite at_stream_ne].
    cbn. rewrite length_app. cbn. lia.
  - intros j [->|Hj]%elem_of_cons; [done|]. apply neutral_todo. by eapply Forall_forall in Hk.
  - intros j Hj Hok. destruct j; try done; exfalso.
    + pose proof (tsum_stands _ waited_nonneg _ _ Hj) as Hj'. cbn in Hj'. lia.
    + pose proof (tsum_stands _ waited_nonneg _ _ Hj) as Hj'. cbn in Hj'. lia.
Qed.
(** ** The steps of [Close] *)

Ltac once_cases :=
  change (bool_decide (Ran = Running)) with false; change (bool_decide (Running = Running)) with true;
  change (bool_decide (Ran = Ran)) with true; change (bool_decide (Running = Ran)) with false;
  change (bool_decide (NotRun = Ran)) with false; change (bool_decide (NotRun = Running)) with false; cbn [one_if].

Lemma zsum_gap {A} (v w : A → Z) l (x : A) : (∀ a, v a ≤ w a) → x ∈ l → v x + 1 ≤ w x → zsum v l + 1 ≤ zsum w l.
Proof.
  intros Hv Hx Hg. induction l as [|a l IH]; [by apply elem_of_nil in Hx|]. rewrite !zsum_cons.
  apply elem_of_cons in Hx as [->|Hx]; [pose proof (zsum_le v w l Hv); lia|]. specialize (IH Hx). specialize (Hv a). lia.
Qed.
Lemma tsum_gap (v w : Instr → Z) ts i : (∀ j, v j ≤ w j) → stands ts i → v i + 1 ≤ w i → tsum v ts + 1 ≤ tsum w ts.
Proof.
  intros Hv (k & Hk & Hi) Hg. apply (zsum_gap _ _ ts k); [intros; by apply zsum_le|done|by apply (zsum_gap _ _ k i)].
Qed.

Section closer.
Variables (b : MessageBus) (ts : list thread) (t : nat) (i : Instr) (rest : thread).
Hypothesis Hinv : bus_inv b ts.
Hypothesis Ht : ts !! t = Some (i :: rest).
Hypothesis Hi : closing i = 1.
Let Hst : stands ts i. Proof. by eapply stands_top. Qed.

Lemma closer_once : mb_closeOnce b = Running ∧ tsum closing ts = 1.
Proof. by apply closing_once with i. Qed.
(** Moving on without touching the channels. *)
Lemma closer_moves j : closing j = 1 → locked_out j = locked_out i → waited i ≤ waited j → (waited j = 1 → mb_wg b = 0) →
  in_publish i = 0 → in_publish j = 0 → (∀ s, has_shut s j = has_shut s i) → todo_ok b j → bus_inv b (<[t := [j] ++ rest]> ts).
Proof.
  intros Hj Hl Hw Hwg Hp1 Hp2 Hs Htodo. pose proof Hinv as [I1 I2 I3 I4 I5 I6 I7 I8 I9 I10 I11]. destruct closer_once as [Ho Hc].
  pose proof (weights_range j SInbound) as Hr. pose proof (weights_range i SInbound) as Hri.
  apply (inv_step b ts t i rest [j] b Hinv Ht); rewrite ?zsum_cons, ?zsum_nil; try done; try lia.
  - intros [Hw'|Hw']; [|congruence]. destruct (decide (waited j = 1)); [auto|]. apply I5. left. lia.
  - intros s. rewrite zsum_cons, zsum_nil, Hs. lia.
  - by intros x ->%list_elem_of_singleton.
Qed.
End closer.

Lemma inv_close_lock b ts t rest : bus_inv b ts → ts !! t = Some (ICloseLock :: rest) →
  mb_done b = false ∧ bus_inv (b <| mb_closed := true |> <| mb_done := true |>) (<[t := [ICloseWait] ++ rest]> ts).
Proof.
  intros Hinv Ht. destruct (closer_once b ts t _ rest Hinv Ht eq_refl) as [Ho Hc]. pose proof (stands_top _ _ _ _ Ht) as Hst.
  pose proof Hinv as [I1 I2 I3 I4 I5 I6 I7 I8 I9 I10 I11].
  pose proof (tsum_gap locked_out closing ts _ ltac:(intros j; apply (weights_range j SInbound)) Hst ltac:(cbn; lia)) as Hg.
  pose proof (tsum_nonneg _ locked_out_nonneg ts). rewrite bool_decide_eq_false_2 in I4 by congruence. cbn [one_if] in I4.
  assert (Hcl : mb_closed b = false) by (destruct (mb_closed b); [cbn in I4; lia|done]).
  split; [congruence|]. apply (inv_step b ts t _ rest _ _ Hinv Ht); rewrite ?zsum_cons, ?zsum_nil; cbn; try done; try lia.
  - intros [Hw|Hw]; [apply I5; left; lia|congruence].
  - intros s. rewrite zsum_cons, zsum_nil. cbn. lia.
  - by intros j ->%list_elem_of_singleton.
Qed.
Lemma inv_close_channel b ts t s todo rest : bus_inv b ts → ts !! t = Some (ICloseChannels (s :: todo) :: rest) →
  bus_inv (chan_close s b) (<[t := [ICloseChannels todo] ++ rest]> ts).
Proof.
  intros Hinv Ht. destruct (closer_once b ts t _ rest Hinv Ht eq_refl) as [Ho Hc]. pose proof (stands_top _ _ _ _ Ht) as Hst.
  pose proof Hinv as [I1 I2 I3 I4 I5 I6 I7 I8 I9 I10 I11]. pose proof (I10 _ Hst) as [Hs Hnd]%NoDup_cons.
  pose proof (tsum_gap (has_shut s) closing ts _ ltac:(intros j; pose proof (weights_range j s); lia) Hst) as Hg.
  cbn [has_shut closing] in Hg. rewrite bool_decide_eq_true_2 in Hg by by left. specialize (Hg ltac:(cbn; lia)).
  pose proof (tsum_nonneg _ (has_shut_nonneg s) ts). pose proof (I6 s) as Is. rewrite bool_decide_eq_false_2 in Is by congruence. cbn [one_if] in Is.
  assert (Hcl : ch_closed (mb_chan b s) = false) by (destruct (ch_closed (mb_chan b s)); [cbn in Is; lia|done]).
  unfold chan_close. rewrite Hcl.
  apply (inv_step b ts t _ rest _ _ Hinv Ht); rewrite ?zsum_cons, ?zsum_nil; cbn; try done; try lia.
  - intros [Hw|Hw]; [apply I5; left; lia|congruence].
  - intros s'. rewrite zsum_cons, zsum_nil. cbn. destruct (decide (s' = s)) as [->|Hne].
    + rewrite at_stream_eq, Hcl. cbn. rewrite (bool_decide_eq_false_2 (s ∈ todo)), (bool_decide_eq_true_2 (s ∈ s :: todo)) by (done || by left).
      cbn. lia.
    + rewrite at_stream_ne by done. replace (bool_decide (s' ∈ s :: todo)) with (bool_decide (s' ∈ todo)); [lia|].
      apply bool_decide_ext. rewrite elem_of_cons. naive_solver.
  - intros s'. destruct (decide (s' = s)) as [->|Hne]; [rewrite at_stream_eq|rewrite at_stream_ne by done]; apply I8.
  - intros s'. destruct (decide (s' = s)) as [->|Hne]; [rewrite at_stream_eq|rewrite at_stream_ne by done]; apply I9.
  - by intros j ->%list_elem_of_singleton.
  - intros j _ Hj. assert (Hb : ∀ s', ch_buffer (at_stream s (fun ch => mkChan (ch_buffer ch) true) (mb_chan b) s') = ch_buffer (mb_chan b s')).
    { intros s'. by destruct (decide (s' = s)) as [->|Hne]; [rewrite at_stream_eq|rewrite at_stream_ne by done]. }
    destruct j; cbn in *; try done; intros; rewrite Hb; auto.
  - congruence.
Qed.
Lemma inv_drain b ts t s todo rest b' r : bus_inv b ts → ts !! t = Some (IDrain (s :: todo) :: rest) →
  chan_receive s true b = Some (b', r) →
  bus_inv b' (<[t := [match r with Some _ => IDrain (s :: todo) | None => IDrain todo end] ++ rest]> ts).
Proof.
  intros Hinv Ht Hr. pose proof (stands_top _ _ _ _ Ht) as Hst. pose proof (bi_todo _ _ Hinv _ Hst) as Htodo. destruct r as [p|].
  - apply (inv_receive b ts t _ rest _ s p true b' Hinv Ht Hr); [done|by rewrite !zsum_cons, !zsum_nil| |by intros j ->%list_elem_of_singleton].
    intros j ->%list_elem_of_singleton _ s' Hs'. apply chan_receive_cases in Hr as (buffer & _ & ->). cbn.
    rewrite at_stream_ne by (intros ->; apply Hs'; by left). by apply Htodo.
  - apply chan_receive_cases in Hr as (-> & Hb & _). apply (closer_moves b ts t _ rest Hinv Ht eq_refl); try done.
    + intros _. apply (bi_waited _ _ Hinv). left. pose proof (tsum_stands _ waited_nonneg _ _ Hst) as Hw. cbn in Hw. lia.
    + intros s' Hs'. destruct (decide (s' = s)) as [->|Hne]; [done|]. apply Htodo. by intros [?|?]%elem_of_cons.
Qed.
Lemma inv_close_done b ts t rest : bus_inv b ts → ts !! t = Some (ICloseDone :: rest) →
  bus_inv (b <| mb_closeOnce := Ran |>) (<[t := [IReturn Closed] ++ rest]> ts).
Proof.
  intros Hinv Ht. destruct (closer_once b ts t _ rest Hinv Ht eq_refl) as [Ho Hc]. pose proof (stands_top _ _ _ _ Ht) as Hst.
  pose proof Hinv as [I1 I2 I3 I4 I5 I6 I7 I8 I9 I10 I11]. pose proof (tsum_stands _ waited_nonneg _ _ Hst) as Hw. cbn in Hw.
  apply (inv_step b ts t _ rest _ _ Hinv Ht); rewrite ?zsum_cons, ?zsum_nil; cbn; rewrite ?Ho; once_cases; try done; try lia.
  - intros s. rewrite zsum_cons, zsum_nil. cbn. lia.
  - by intros j ->%list_elem_of_singleton.
  - intros _. exact (I10 _ Hst).
Qed.
Lemma exec_inv b ts t i rest c b' k : bus_inv b ts → ts !! t = Some (i :: rest) → exec c i b = Some (b', k) →
  bus_inv b' (<[t := k ++ rest]> ts).
Proof.
  intros Hinv Ht He.
  assert (Hn : neutral i → Forall neutral k → same_channels b b' → bus_inv b' (<[t := k ++ rest]> ts)) by (intros; by eapply inv_neutral).
  assert (Hself : ∀ k', Forall neutral k' → neutral i → exec c i b = Some (b, k') → bus_inv b' (<[t := k ++ rest]> ts)).
  { intros k' Hk' Hi He'. rewrite He in He'. injection He' as -> ->. by apply Hn. }
  destruct i as [call|p k0|p k0| |[|m msgs]|m cause|a| | |[|s todo]|[|s todo]|]; cbn [exec] in He.
  2:{ (* entering *)
    unfold enterPublish in He. destruct (after_publish_neutral p k0 ErrBusClosed) as [_ Hr1].
    destruct (after_publish_neutral p k0 (ErrContext (ch_error c))) as [_ Hr2].
    destruct (mb_closed b) eqn:Ec; [injection He as <- <-; by apply Hn|]. destruct (ch_context c); [injection He as <- <-; by apply Hn|].
    destruct (mb_done b) eqn:Ed; [injection He as <- <-; by apply Hn|]. injection He as <- <-.
    pose proof Hinv as [I1 I2 I3 I4 I5 I6 I7 I8 I9 I10 I11]. rewrite Ec in I4. cbn in I4.
    pose proof (one_if_nonneg (bool_decide (mb_closeOnce b = Ran))). pose proof (tsum_nonneg _ locked_out_nonneg ts).
    pose proof (tsum_le waited locked_out ts ltac:(intros j; apply (weights_range j SInbound))).
    apply (inv_step b ts t _ rest _ _ Hinv Ht); rewrite ?zsum_cons, ?zsum_nil; cbn; try done; try lia.
    - intros [?|Hr]; [lia|]. rewrite bool_decide_eq_true_2 in * by done. cbn in *. lia.
    - intros s. rewrite zsum_cons, zsum_nil. cbn. lia.
    - by intros j ->%list_elem_of_singleton. }
  2:{ (* the select *)
    unfold select in He. destruct (ch_selected c).
    - destruct (chan_send p b) as [b1|] eqn:Es; [|done]. injection He as <- <-. by apply (inv_send b ts t p k0 rest b1).
    - destruct (ch_context c); [|done]. injection He as <- <-. apply (inv_publisher b ts t p k0 rest _ b Hinv Ht); [|done].
      by apply after_publish_neutral.
    - destruct (timed _); [|done]. injection He as <- <-. apply (inv_publisher b ts t p k0 rest _ _ Hinv Ht); [|done].
      by apply after_publish_neutral.
    - destruct (mb_done b); [|done]. injection He as <- <-. apply (inv_publisher b ts t p k0 rest _ b Hinv Ht); [|done].
      by apply after_publish_neutral. }
  2: injection He as <- <-; by apply inv_wg_done.
  2,3: by (injection He as <- <-; apply Hn; [done|repeat constructor|done]).
  2: injection He as <- <-; apply Hn; [done|constructor|apply spool_calls_same; exact cause].
  2: injection He as <- <-; by apply Hn.
  - (* calls *)
    destruct call as [p|msgs|s|m|m cause|m|]; cbn [exec_call] in He.
    + injection He as He. destruct (publish_call_neutral _ _ _ _ _ He). by apply Hn.
    + injection He as <- <-. by apply Hn; [|repeat constructor|].
    + destruct (chan_receive s false b) as [[b1 r]|] eqn:Er; [|done]. cbn in He. injection He as <- <-. destruct r as [p|].
      * apply (inv_receive b ts t _ rest [] s p false b1 Hinv Ht Er); try done; intros j Hj; by apply elem_of_nil in Hj.
      * apply chan_receive_cases in Er as (-> & _). by apply Hn.
    + injection He as <- <-. apply Hn; [done|constructor|]. apply spool_calls_same; exact None.
    + injection He as <- <-. apply Hn; [done|constructor|]. by apply spool_calls_same.
    + injection He as <- <-. apply Hn; [done|constructor|]. apply spool_calls_same; exact None.
    + destruct (mb_closeOnce b) eqn:Eo; [|done|injection He as <- <-; apply Hn; [done|repeat constructor|done]].
      injection He as <- <-. pose proof Hinv as [I1 I2 I3 I4 I5 I6 I7 I8 I9 I10 I11].
      apply (inv_step b ts t _ rest _ _ Hinv Ht); rewrite ?zsum_cons, ?zsum_nil; cbn; rewrite ?Eo; once_cases; try done; try lia.
      * intros [Hw|Hw]; [apply I5; left; lia|done].
      * intros s. rewrite zsum_cons, zsum_nil. cbn. lia.
      * by intros j ->%list_elem_of_singleton.
  - destruct (inv_close_lock b ts t rest Hinv Ht) as [Hd Hi]. cbn [mb_done update eta eta_MessageBus] in He. rewrite Hd in He.
    injection He as <- <-. exact Hi.
  - destruct (Z.eqb_spec (mb_wg b) 0) as [Hz|]; [|done]. injection He as <- <-.
    apply (closer_moves b ts t _ rest Hinv Ht eq_refl); try done; cbn; try lia.
    + by intros [].
    + apply (bool_decide_unpack _). by vm_compute.
  - injection He as <- <-. pose proof (stands_top _ _ _ _ Ht) as Hst. pose proof (tsum_stands _ waited_nonneg _ _ Hst) as Hw. cbn in Hw.
    apply (closer_moves b ts t _ rest Hinv Ht eq_refl); try done; cbn.
    + intros _. apply (bi_waited _ _ Hinv). left. lia.
    + intros s Hs. destruct Hs. destruct s; set_solver.
  - injection He as <- <-. by apply inv_close_channel.
  - injection He as <- <-. pose proof (stands_top _ _ _ _ Ht) as Hst. pose proof (tsum_stands _ waited_nonneg _ _ Hst) as Hw. cbn in Hw.
    apply (closer_moves b ts t _ rest Hinv Ht eq_refl); try done.
    + intros _. apply (bi_waited _ _ Hinv). left. lia.
    + intros s. apply (bi_todo _ _ Hinv _ Hst). apply not_elem_of_nil.
  - destruct (chan_receive s true b) as [[b1 r]|] eqn:Er; [|done]. pose proof (inv_drain b ts t s todo rest b1 r Hinv Ht Er) as Hd.
    destruct r; injection He as <- <-; exact Hd.
  - injection He as <- <-. by apply inv_close_done.
Qed.

(** ** Reachable states *)

Definition sys_inv y : Prop := bus_inv (sys_bus y) (sys_threads y).
Lemma empty_inv b : mb_chan b = (fun _ => mkChan [] false) → mb_closeOnce b = NotRun → mb_done b = false → mb_closed b = false →
  mb_wg b = 0 → mb_panicked b = false → mb_sent b = (fun _ => []) → mb_taken b = (fun _ => []) → bus_inv b [].
Proof.
  intros H1 H2 H3 H4 H5 H6 H7 H8. split; rewrite ?H1, ?H2, ?H3, ?H4, ?H5, ?H6, ?H7, ?H8; cbn; try done; try (intros; lia).
  intros i (k & Hk & _). by apply elem_of_nil in Hk.
Qed.
Lemma sched_step_inv y a y' : sys_inv y → sched_step y a = Some y' → sys_inv y'.
Proof.
  intros Hinv Hs. destruct a as [call|t c|e n]; cbn in Hs.
  - injection Hs as <-. destruct Hinv as [I1 I2 I3 I4 I5 I6 I7 I8 I9 I10 I11]. unfold sys_inv. cbn.
    assert (Hw : ∀ w : Instr → Z, w (ICall call) = 0 → tsum w (sys_threads y ++ [[ICall call]]) = tsum w (sys_threads y)).
    { intros w Hw. etrans; [apply tsum_spawn|]. rewrite zsum_cons, zsum_nil. lia. }
    split; rewrite ?Hw by done; try done.
    + intros s. rewrite Hw by done. apply I6.
    + intros i [->%list_elem_of_singleton|Hi]%stands_spawn; [done|by apply I10].
  - destruct (sys_threads y !! t) as [[|i rest]|] eqn:Ht; [done| |done].
    destruct (exec c i (sys_bus y)) as [[b k]|] eqn:He; [|done]. injection Hs as <-. by eapply exec_inv.
  - injection Hs as <-. by apply empty_inv.
Qed.
Lemma sched_run_ind (P : System → Prop) : (∀ y a y', P y → sched_step y a = Some y' → P y') →
  ∀ l y y', P y → sched_run y l = Some y' → P y'.
Proof.
  intros Hstep l. induction l as [|a l IH]; intros y y' HP Hr; cbn in Hr; [by injection Hr as <-|].
  destruct (sched_step y a) as [y1|] eqn:E; [|done]. by apply (IH y1); [eapply Hstep|].
Qed.
Lemma bus_reachable_inv y : reachable y → sys_inv y.
Proof. intros (spool & l & Hl). refine (sched_run_ind sys_inv sched_step_inv l _ y _ Hl). by apply empty_inv. Qed.

(** ** What a closed bus is *)

Definition no_crash (a : Sched) : bool := match a with Crash _ _ => false | _ => true end.
Lemma exec_ran c i b b' k : exec c i b = Some (b', k) → mb_closeOnce b = Ran → mb_closed b = true → in_publish i = 0 → closing i = 0 →
  mb_closeOnce b' = Ran ∧ mb_closed b' = true ∧ mb_sent b' = mb_sent b.
Proof.
  intros He Hr Hc Hp Hcl. destruct i as [call|p k0| | |[|m msgs]|m cause|a| | |[|]|[|]|]; try done; cbn [exec] in He.
  - destruct call as [p|msgs|s|m|m cause|m|]; cbn [exec_call] in He.
    + injection He as He. destruct (publish_call_neutral _ _ _ _ _ He) as [[S1 S2 S3 S4 S5 S6 S7 S8] _]. by rewrite S2, S4, S7.
    + by injection He as <- <-.
    + destruct (chan_receive s false b) as [[b1 [p|]]|] eqn:Er; [| |done]; injection He as <- <-; apply chan_receive_cases in Er.
      * by destruct Er as (buffer & _ & ->).
      * by destruct Er as (-> & _).
    + injection He as <- <-. destruct (spool_calls_same (ch_env c) m None b) as ([S1 S2 S3 S4 S5 S6 S7 S8] & _ & _). by rewrite S2, S4, S7.
    + injection He as <- <-. destruct (spool_calls_same (ch_env c) m cause b) as (_ & [S1 S2 S3 S4 S5 S6 S7 S8] & _). by rewrite S2, S4, S7.
    + injection He as <- <-. destruct (spool_calls_same (ch_env c) m None b) as (_ & _ & [S1 S2 S3 S4 S5 S6 S7 S8]). by rewrite S2, S4, S7.
    + rewrite Hr in He. by injection He as <- <-.
  - unfold enterPublish in He. rewrite Hc in He. by injection He as <- <-.
  - by injection He as <- <-.
  - by injection He as <- <-.
  - injection He as <- <-. destruct (spool_calls_same (ch_env c) m (Some cause) b) as (_ & [S1 S2 S3 S4 S5 S6 S7 S8] & _). by rewrite S2, S4, S7.
  - by injection He as <- <-.
Qed.
Lemma bus_closed_step y a y' : sys_inv y → mb_closeOnce (sys_bus y) = Ran → no_crash a = true → sched_step y a = Some y' →
  mb_closeOnce (sys_bus y') = Ran ∧ mb_sent (sys_bus y') = mb_sent (sys_bus y).
Proof.
  intros Hinv Hr Hn Hs. destruct a as [call|t c|e n]; [by injection Hs as <-| |done]. cbn in Hs.
  destruct (sys_threads y !! t) as [[|i rest]|] eqn:Ht; [done| |done].
  destruct (exec c i (sys_bus y)) as [[b k]|] eqn:He; [|done]. injection Hs as <-. cbn.
  pose proof (stands_top _ _ _ _ Ht) as Hst. pose proof (tsum_stands _ in_publish_nonneg _ _ Hst) as Hp.
  pose proof (tsum_stands _ closing_nonneg _ _ Hst) as Hc. destruct Hinv as [I1 I2 I3 I4 I5 I6 I7 I8 I9 I10 I11].
  rewrite <- I1, I5 in Hp by by right. rewrite I2, Hr in Hc. rewrite Hr in I4. change (bool_decide (Ran = Running)) with false in Hc. cbn [one_if] in Hc.
  pose proof (in_publish_nonneg i). pose proof (closing_nonneg i).
  assert (Hcl : mb_closed (sys_bus y) = true).
  { pose proof (tsum_nonneg _ locked_out_nonneg (sys_threads y)). destruct (mb_closed (sys_bus y)); [done|].
    change (bool_decide (Ran = Ran)) with true in I4. cbn [one_if] in I4. lia. }
  destruct (exec_ran c i _ _ _ He Hr Hcl) as (? & _ & ?); [lia|lia|done].
Qed.

(** C14. However publishers, consumers and [Close] interleave, nothing panics: no
    message is sent on a closed channel, no channel is closed twice, and the
    wait group does not go below zero.  Each stream delivers its messages in
    the order they were accepted, each once, within its capacity; and once
    [Close] has returned every accepted message was taken, and none is accepted
    any more. *)
Theorem bus_streams_in_order y : reachable y →
  let b := sys_bus y in
  mb_panicked b = false ∧
  (∀ s, mb_sent b s = (mb_taken b s).*1 ++ ch_buffer (mb_chan b s) ∧ (length (ch_buffer (mb_chan b s)) ≤ capacity s)%nat) ∧
  (mb_closeOnce b = Ran →
    (∀ s, mb_sent b s = (mb_taken b s).*1) ∧
    ∀ l y', forallb no_crash l = true → sched_run y l = Some y' → ∀ s, mb_sent (sys_bus y') s = mb_sent b s).
Proof.
  intros Hy b. pose proof (bus_reachable_inv y Hy) as Hinv. pose proof Hinv as [I1 I2 I3 I4 I5 I6 I7 I8 I9 I10 I11]. subst b.
  split_and!; [done|by split|]. intros Hr. split; [intros s; by rewrite I8, (I11 Hr), app_nil_r|].
  intros l y' Hl Hrun s. clear Hy I1 I2 I3 I4 I5 I6 I7 I8 I9 I10 I11. revert y Hinv Hr Hrun. induction l as [|a l IH]; intros y Hinv Hr Hrun; cbn in *.
  { by injection Hrun as <-. }
  apply andb_true_iff in Hl as [Ha Hl]. destruct (sched_step y a) as [y1|] eqn:E; [|done].
  destruct (bus_closed_step _ _ _ Hinv Hr Ha E) as [Hr1 Hs1]. rewrite (IH Hl y1); [by rewrite Hs1|by eapply sched_step_inv|done|done].
Qed.

(** ** Closing comes to an end *)

(** The steps an instruction still owes to a closed bus, with one for each
    buffered message. *)
Definition owed i : Z :=
  match i with
  | ISelect _ _ => 3 | IWgDone => 1 | ICloseWait => 20 | ICloseChannels todo => 10 + Z.of_nat (length todo)
  | IDrain todo => 2 + Z.of_nat (length todo) | ICloseDone => 1 | _ => 0
  end.
Definition buffered b : Z := zsum (fun s => Z.of_nat (length (ch_buffer (mb_chan b s)))) all_streams.
Definition to_go y : Z := tsum owed (sys_threads y) + buffered (sys_bus y).
Lemma buffered_nonneg b : 0 ≤ buffered b. Proof. apply zsum_nonneg. intros. lia. Qed.
Lemma bus_owed_nonneg i : 0 ≤ owed i. Proof. destruct i; cbn; lia. Qed.
Lemma owed_neutral k : Forall neutral k → zsum owed k = 0.
Proof.
  induction 1 as [|i k [Hp Hc] _ IH]; [done|]. rewrite zsum_cons, IH. by destruct i.
Qed.
Lemma buffered_at b b' s (f : Chan → Chan) n : mb_chan b' = at_stream s f (mb_chan b) →
  Z.of_nat (length (ch_buffer (f (mb_chan b s)))) = Z.of_nat (length (ch_buffer (mb_chan b s))) + n → buffered b' = buffered b + n.
Proof.
  intros Hc Hf. unfold buffered, all_streams. rewrite !zsum_cons, !zsum_nil, Hc.
  destruct s; rewrite at_stream_eq, !at_stream_ne by done; lia.
Qed.
Lemma buffered_same b b' : mb_chan b' = mb_chan b → buffered b' = buffered b.
Proof. unfold buffered. by intros ->. Qed.

Lemma chan_send_buffered p b b' : chan_send p b = Some b' → buffered b' ≤ buffered b + 1.
Proof.
  unfold chan_send. destruct (ch_closed _); [by intros [= <-]; rewrite (buffered_same b) by done; lia|].
  destruct (Nat.ltb _ _); [|done]. intros [= <-].
  erewrite (buffered_at b _ (stream_of p) _ 1); [|reflexivity|cbn; rewrite length_app; cbn; lia]. lia.
Qed.
Lemma chan_receive_buffered s drain b b' r : chan_receive s drain b = Some (b', r) →
  buffered b' = match r with Some _ => buffered b - 1 | None => buffered b end.
Proof.
  intros Hr. apply chan_receive_cases in Hr. destruct r as [p|]; [|by destruct Hr as (-> & _)]. destruct Hr as (buffer & Hb & ->).
  erewrite (buffered_at b _ s _ (-1)); [|reflexivity|cbn; rewrite Hb; cbn; lia]. lia.
Qed.
Lemma call_owed c call b b' k : exec_call c call b = Some (b', k) → zsum owed k + buffered b' ≤ buffered b.
Proof.
  intros He. assert (Hq : ∀ b1 k1, mb_chan b1 = mb_chan b → zsum owed k1 = 0 → zsum owed k1 + buffered b1 ≤ buffered b).
  { intros b1 k1 Hb Hk. rewrite Hk, (buffered_same _ _ Hb). lia. }
  destruct call as [p|msgs|s|m|m cause|m|]; cbn [exec_call] in He.
  - assert (Hp : publish_call (ch_env c) p b = (b', k)) by congruence.
    destruct (publish_call_neutral _ _ _ _ _ Hp) as [Hs Hk]. apply Hq; [apply Hs|by apply owed_neutral].
  - injection He as <- <-. by apply Hq.
  - destruct (chan_receive s false b) as [[b1 r]|] eqn:Er; [|done]. injection He as <- <-. apply chan_receive_buffered in Er.
    rewrite zsum_nil. cbn [fst]. destruct r; lia.
  - injection He as <- <-. apply Hq; [apply (spool_calls_same (ch_env c) m None b)|done].
  - injection He as <- <-. apply Hq; [apply (spool_calls_same (ch_env c) m cause b)|done].
  - injection He as <- <-. apply Hq; [apply (spool_calls_same (ch_env c) m None b)|done].
  - destruct (mb_closeOnce b); [| |injection He as <- <-; by apply Hq]; [|done]. injection He as <- <-. by apply Hq.
Qed.
Lemma exec_owed c i b b' k : exec c i b = Some (b', k) → mb_closed b = true → i ≠ ICloseLock →
  zsum owed k + buffered b' ≤ owed i + buffered b ∧
  (1 ≤ in_publish i + locked_out i → zsum owed k + buffered b' < owed i + buffered b).
Proof.
  intros He Hc Hl. assert (Hr : ∀ p k0 e b1, zsum owed (refused p k0 e) = 0 ∧ zsum owed (published p k0) = 0 ∧ (mb_chan b1 = mb_chan b → buffered b1 = buffered b)).
  { intros p k0 e b1. destruct (after_publish_neutral p k0 e) as [H1 H2]. split_and!; [by apply owed_neutral..|apply buffered_same]. }
  destruct i as [call|p k0|p k0| |[|m msgs]|m cause|a| | |[|s todo]|[|s todo]|]; cbn [exec] in He;
    try (injection He as <- <-; rewrite ?zsum_cons, ?zsum_nil; cbn [owed]; change (length all_streams) with 6%nat; cbn;
      rewrite ?(buffered_same b) by done; lia).
  - apply call_owed in He. cbn. lia.
  - unfold enterPublish in He. rewrite Hc in He. injection He as <- <-. destruct (Hr p k0 ErrBusClosed b) as (-> & _). cbn. lia.
  - assert (Hq : ∀ b1 e, Some (b1, IWgDone :: refused p k0 e) = Some (b', k) → mb_chan b1 = mb_chan b → zsum owed k + buffered b' < 3 + buffered b).
    { intros b1 e [= <- <-] Hb. destruct (Hr p k0 e b1) as (H1 & _ & H2). rewrite zsum_cons, H1, H2 by done. cbn. lia. }
    cut (zsum owed k + buffered b' < 3 + buffered b); [cbn; lia|]. unfold select in He. destruct (ch_selected c).
    + destruct (chan_send p b) as [b1|] eqn:Es; [|done]. injection He as <- <-. apply chan_send_buffered in Es.
      destruct (Hr p k0 ErrBusClosed b1) as (_ & H1 & _). rewrite zsum_cons, H1. cbn [owed]. lia.
    + destruct (ch_context c); [|done]. by apply (Hq _ _ He).
    + destruct (timed _); [|done]. by apply (Hq _ _ He).
    + destruct (mb_done b); [|done]. by apply (Hq _ _ He).
  - injection He as <- <-. rewrite zsum_nil, (buffered_same b); [cbn; lia|]. unfold wg_done. cbv zeta. by destruct (_ <? 0).
  - injection He as <- <-. rewrite zsum_nil, (buffered_same b); [cbn; lia|]. apply (spool_calls_same (ch_env c) m (Some cause) b).
  - done.
  - destruct (_ =? 0); [|done]. injection He as <- <-. rewrite zsum_cons, zsum_nil. cbn [owed]. change (length all_streams) with 6%nat. cbn; lia.
  - injection He as <- <-. rewrite zsum_cons, zsum_nil. assert (Hb : buffered (chan_close s b) = buffered b); [|rewrite Hb; cbn; lia].
    unfold chan_close. destruct (ch_closed _); [by apply buffered_same|].
    erewrite (buffered_at b _ s _ 0); [|reflexivity|cbn; lia]. lia.
  - destruct (chan_receive s true b) as [[b1 r]|] eqn:Er; [|done]. apply chan_receive_buffered in Er.
    destruct r; injection He as <- <-; rewrite zsum_cons, zsum_nil; cbn [owed length locked_out closing in_publish]; lia.
Qed.

(** Only the top of a stack counts in an account. *)
Definition top_heavy (k : thread) : Prop := Forall neutral (tail k).
Lemma exec_tops c i b b' k : exec c i b = Some (b', k) → top_heavy k.
Proof.
  intros He. assert (Hn : Forall neutral k → top_heavy k) by (unfold top_heavy; destruct 1; [constructor|done]).
  destruct i as [call|p k0|p k0| |[|m msgs]|m cause|a| | |[|s todo]|[|s todo]|]; cbn [exec] in He;
    try (injection He as <- <-; repeat constructor; fail).
  - destruct call as [p|msgs|s|m|m cause|m|]; cbn [exec_call] in He; try (injection He as <- <-; repeat constructor; fail).
    + apply Hn. assert (Hp : publish_call (ch_env c) p b = (b', k)) by congruence. exact (proj2 (publish_call_neutral _ _ _ _ _ Hp)).
    + destruct (chan_receive s false b) as [[b1 r]|]; [|done]. injection He as <- <-. constructor.
    + destruct (mb_closeOnce b); [| |injection He as <- <-; repeat constructor]; [|done]. injection He as <- <-. constructor.
  - unfold enterPublish in He. destruct (mb_closed b); [|destruct (ch_context c); [|destruct (mb_done b)]]; injection He as <- <-;
      try (apply Hn, after_publish_neutral). constructor.
  - unfold select in He. destruct (ch_selected c).
    + destruct (chan_send p b); [|done]. injection He as <- <-. apply (after_publish_neutral p k0 ErrBusClosed).
    + destruct (ch_context c); [|done]. injection He as <- <-. apply after_publish_neutral.
    + destruct (timed _); [|done]. injection He as <- <-. apply after_publish_neutral.
    + destruct (mb_done b); [|done]. injection He as <- <-. apply after_publish_neutral.
  - destruct (_ =? 0); [|done]. injection He as <- <-. constructor.
  - destruct (chan_receive s true b) as [[b1 r]|]; [|done]. destruct r; injection He as <- <-; constructor.
Qed.
Definition tops y : Prop := Forall top_heavy (sys_threads y).
Lemma sched_step_tops y a y' : tops y → sched_step y a = Some y' → tops y'.
Proof.
  unfold tops. intros Ht Hs. destruct a as [call|t c|e n]; cbn in Hs.
  - injection Hs as <-. apply Forall_app. split; [done|]. repeat constructor.
  - destruct (sys_threads y !! t) as [[|i rest]|] eqn:Hy; [done| |done].
    destruct (exec c i (sys_bus y)) as [[b k]|] eqn:He; [|done]. injection Hs as <-. cbn [sys_threads]. apply Forall_insert; [done|].
    pose proof (Forall_lookup_1 _ _ _ _ Ht Hy) as Hr. apply exec_tops in He. unfold top_heavy in *. cbn in Hr.
    destruct k as [|x k]; cbn in *; [destruct rest; [constructor|by inversion Hr]|]. by apply Forall_app.
  - injection Hs as <-. constructor.
Qed.
Lemma reachable_tops y : reachable y → tops y.
Proof. intros (spool & l & Hl). refine (sched_run_ind tops sched_step_tops l _ y _ Hl). constructor. Qed.
Lemma counted_on_top (w : Instr → Z) y : tops y → (∀ i, neutral i → w i = 0) → 0 < tsum w (sys_threads y) →
  ∃ t i rest, sys_threads y !! t = Some (i :: rest) ∧ 0 < w i.
Proof.
  intros Ht Hw Hp. destruct (decide (Exists (fun k => 0 < zsum w k) (sys_threads y))) as [Hx|Hx].
  - apply Exists_exists in Hx as (k & (t & Hk)%list_elem_of_lookup & Hpos). pose proof (Forall_lookup_1 _ _ _ _ Ht Hk) as Hr.
    destruct k as [|i rest]; [done|]. exists t, i, rest. split; [done|]. rewrite zsum_cons in Hpos.
    rewrite (zsum_zero w rest) in Hpos; [lia|]. intros j Hj. apply Hw. by eapply Forall_forall in Hr.
  - exfalso. apply not_Exists_Forall in Hx; [|solve_decision]. rewrite Forall_forall in Hx.
    enough (tsum w (sys_threads y) ≤ 0) by lia. clear Hp Ht. unfold tsum. revert Hx. generalize (sys_threads y). intros ts Hx.
    induction ts as [|k ts IH]; [done|]. rewrite zsum_cons.
    pose proof (Hx k ltac:(by left)) as Hk. specialize (IH ltac:(intros; apply Hx; by right)). cbn in Hk. lia.
Qed.
Lemma closed_unlocked y : sys_inv y → mb_closed (sys_bus y) = true → ¬ stands (sys_threads y) ICloseLock.
Proof.
  intros Hinv Hc Hst. pose proof (bi_closed _ _ Hinv) as H4. rewrite Hc in H4.
  destruct (closing_once _ _ _ Hinv Hst eq_refl) as [Ho H1]. rewrite bool_decide_eq_false_2 in H4 by congruence. cbn [one_if] in H4.
  pose proof (tsum_gap locked_out closing _ _ ltac:(intros j; apply (weights_range j SInbound)) Hst ltac:(cbn; lia)). lia.
Qed.
Lemma run_owed y t c y' : sys_inv y → mb_closed (sys_bus y) = true → sched_step y (Run t c) = Some y' →
  to_go y' ≤ to_go y ∧ ∀ i rest, sys_threads y !! t = Some (i :: rest) → 1 ≤ in_publish i + locked_out i → to_go y' < to_go y.
Proof.
  intros Hinv Hc Hs. cbn in Hs. destruct (sys_threads y !! t) as [[|i rest]|] eqn:Ht; [done| |done].
  destruct (exec c i (sys_bus y)) as [[b k]|] eqn:He; [|done]. injection Hs as <-.
  destruct (exec_owed c i _ _ _ He Hc) as [H1 H2]; [intros ->; by eapply closed_unlocked, stands_top|].
  unfold to_go. cbn [sys_threads sys_bus]. rewrite (tsum_step _ _ _ _ _ _ Ht). split; [lia|].
  intros i' rest' [= <- <-] Hi. specialize (H2 Hi). lia.
Qed.
(** Counted publishers, and [Close] past its lock, can go on. *)
Definition still : Choice :=
  mkChoice (mkEnv false false (fun _ => false) zero_time zero_time None (fun _ => mkWriteEnv 0 None "" false false) false false
    (fun _ => false) (fun _ => false) (fun _ => false) None) false "" SelDone.
(** A step that needs no context to be done, no timer and no room in a stream. *)
Definition runs_alone y t : Prop := ∃ c y', ch_context c = false ∧ ch_selected c = SelDone ∧ sched_step y (Run t c) = Some y'.
Lemma goes_on y t i rest : sys_inv y → mb_closed (sys_bus y) = true → sys_threads y !! t = Some (i :: rest) →
  0 < in_publish i ∨ 0 < locked_out i ∧ (i = ICloseWait → mb_wg (sys_bus y) = 0) → runs_alone y t.
Proof.
  intros Hinv Hc Ht Hi. exists still. cbn [sched_step]. rewrite Ht. enough (Hs : ∃ y', match exec still i (sys_bus y) with
      Some (b, k) => Some (mkSystem b (<[t:=k ++ rest]> (sys_threads y))) | None => None end = Some y') by (destruct Hs as [y' Hs]; by exists y').
  enough (He : exec still i (sys_bus y) ≠ None) by (destruct (exec _ _ _) as [[b k]|]; [by eexists|done]).
  pose proof (stands_top _ _ _ _ Ht) as Hst.
  destruct i as [call|p k0|p k0| |msgs|m cause|a| | |[|s todo]|[|s todo]|]; cbn in Hi; try (exfalso; lia); cbn [exec]; try done.
  - unfold select. cbn [still ch_selected]. by rewrite (bi_done _ _ Hinv), Hc.
  - destruct Hi as [?|[_ Hz]]; [lia|]. by rewrite Hz.
  - assert (Hcl : ch_closed (mb_chan (sys_bus y) s) = true).
    { pose proof (bi_channel _ _ Hinv s) as H6. pose proof (tsum_stands _ (has_shut_nonneg s) _ _ Hst) as Hw. cbn [has_shut] in Hw.
      pose proof (one_if_nonneg (bool_decide (mb_closeOnce (sys_bus y) = Ran))). destruct (ch_closed _); [done|cbn [one_if] in H6; lia]. }
    unfold chan_receive. rewrite Hcl. by destruct (ch_buffer _).
Qed.
Lemma someone_goes_on y : reachable y → mb_closed (sys_bus y) = true → mb_closeOnce (sys_bus y) ≠ Ran →
  ∃ t i rest, sys_threads y !! t = Some (i :: rest) ∧ (0 < in_publish i ∨ 0 < locked_out i ∧ (i = ICloseWait → mb_wg (sys_bus y) = 0)).
Proof.
  intros Hy Hc Hr. pose proof (bus_reachable_inv y Hy) as Hinv. pose proof (reachable_tops y Hy) as Htops.
  pose proof (bi_closed _ _ Hinv) as H4. rewrite Hc, bool_decide_eq_false_2 in H4 by done. cbn [one_if] in H4.
  destruct (counted_on_top locked_out y Htops) as (t & i & rest & Ht & Hi); [intros i Hi; apply (neutral_weights i SInbound Hi)|lia|].
  destruct (decide (mb_wg (sys_bus y) = 0)); [by exists t, i, rest; auto|].
  rewrite (bi_wg _ _ Hinv) in *. pose proof (tsum_nonneg _ in_publish_nonneg (sys_threads y)).
  destruct (counted_on_top in_publish y Htops) as (t' & j & rest' & Ht' & Hj); [by intros j []|lia|].
  exists t', j, rest'. auto.
Qed.

(** C18. [Close] comes back.  Once it has shut the bus, no step of any goroutine
    adds to the work that is left, a new call neither; and while [Close] runs,
    some goroutine can make a step, whatever the consumers and the contexts of
    the callers do, and every step it makes lessens that work. *)
Theorem close_returns y : reachable y → mb_closed (sys_bus y) = true →
  0 ≤ to_go y ∧
  (∀ call y', sched_step y (Spawn call) = Some y' → to_go y' = to_go y) ∧
  (∀ t c y', sched_step y (Run t c) = Some y' → to_go y' ≤ to_go y) ∧
  (mb_closeOnce (sys_bus y) ≠ Ran → ∃ t, runs_alone y t ∧
     ∀ c y', sched_step y (Run t c) = Some y' → to_go y' < to_go y).
Proof.
  intros Hy Hc. pose proof (bus_reachable_inv y Hy) as Hinv. split_and!.
  - apply Z.add_nonneg_nonneg; [apply tsum_nonneg, bus_owed_nonneg|apply buffered_nonneg].
  - intros call y' [= <-]. unfold to_go. cbn. f_equal. etrans; [apply tsum_spawn|]. rewrite zsum_cons, zsum_nil. cbn. lia.
  - intros t c y' Hs. by apply (run_owed y t c y').
  - intros Hr. destruct (someone_goes_on y Hy Hc Hr) as (t & i & rest & Ht & Hi). exists t. split; [by apply (goes_on y t i rest)|].
    intros c y' Hs. apply (proj2 (run_owed y t c y' Hinv Hc Hs) i rest Ht).
    pose proof (in_publish_nonneg i). pose proof (locked_out_nonneg i). lia.
Qed.

(** ** What the spool behind the bus keeps *)

(** The message a step speaks for: its publisher handed it to the spool. *)
Definition vouched i : option InboundMessage :=
  match i with
  | IEnter (PInbound m) (RPublish true) | ISelect (PInbound m) (RPublish true) | IReturn (Published (PInbound m) true) => Some m
  | _ => None
  end.
Section spooled.
Variable dir : string.
Definition on_disk (ops : list (Env * Op)) : Disk := SpoolSteps.run dir empty_disk ops.
Lemma on_disk_snoc ops x : on_disk (ops ++ [x]) = SpoolSteps.step dir (on_disk ops) x.
Proof. unfold on_disk, SpoolSteps.run. by rewrite foldl_app. Qed.
(** Some [Prepare] of the run answered the message. *)
Definition prepared_in (ops : list (Env * Op)) (m' : InboundMessage) : Prop :=
  ∃ tr1 e m tr2, ops = tr1 ++ (e, OpPrepare m) :: tr2 ∧ im_SpoolID m = "" ∧ (Prepare e m (on_disk tr1)).2 = Ok m'.
Record spooled b : Prop := { sp_dir : mb_inboundSpool b = Some dir; sp_disk : mb_disk b = on_disk (mb_ops b) }.
Definition grows b b' : Prop := ∃ l, mb_ops b' = mb_ops b ++ l.
Lemma grows_refl b : grows b b. Proof. exists []. by rewrite app_nil_r. Qed.
Lemma prepared_grows b b' m : grows b b' → prepared_in (mb_ops b) m → prepared_in (mb_ops b') m.
Proof. intros [l ->] (tr1 & e & m0 & tr2 & -> & Hs & HP). exists tr1, e, m0, (tr2 ++ l). by rewrite <- app_assoc. Qed.

(** One operation on the spool. *)
Lemma spool_op_spooled b x : spooled b → spooled (spool_op x (SpoolSteps.step dir (mb_disk b) x) b) ∧ grows b (spool_op x (SpoolSteps.step dir (mb_disk b) x) b).
Proof. intros [Hd Hk]. split; [split; cbn; [done|by rewrite on_disk_snoc, Hk]|by eexists]. Qed.

(** What a step may do to it. *)
Definition keeps i b b' (k : thread) : Prop :=
  spooled b' ∧ grows b b' ∧
  (∀ j m, j ∈ k → vouched j = Some m → vouched i = Some m ∨ prepared_in (mb_ops b') m) ∧
  (∀ p, Published p true ∈ mb_answers b' → Published p true ∈ mb_answers b ∨ i = IReturn (Published p true)).
Lemma keeps_same i b b' k : spooled b → mb_inboundSpool b' = mb_inboundSpool b → mb_disk b' = mb_disk b → mb_ops b' = mb_ops b →
  mb_answers b' = mb_answers b → (∀ j, j ∈ k → vouched j = None ∨ vouched j = vouched i) → keeps i b b' k.
Proof.
  intros [Hd Hk] H1 H2 H3 H4 Hv. split_and!.
  - split; congruence.
  - exists []. by rewrite app_nil_r.
  - intros j m Hj Hm. destruct (Hv j Hj) as [Hn|Hn]; [congruence|left; congruence].
  - intros p Hp. left. congruence.
Qed.
Lemma no_voucher (k : thread) i : Forall (fun j => vouched j = None) k → ∀ j, j ∈ k → vouched j = None ∨ vouched j = vouched i.
Proof. intros Hk j Hj. left. by eapply Forall_forall in Hk. Qed.
Lemma refused_voucher p k e : Forall (fun j => vouched j = None) (refused p k e).
Proof. unfold refused. destruct k as [[]|], p; repeat constructor. Qed.
Lemma published_voucher p k j : j ∈ published p k → vouched j = None ∨ vouched j = vouched (ISelect p k).
Proof. unfold published. destruct k; intros ->%list_elem_of_singleton; [by right|by left]. Qed.

Lemma enter_voucher p context : Forall (fun j => vouched j = None) (enter p context).
Proof. unfold enter. destruct (context_isZero context), p; repeat constructor. Qed.
Lemma publish_inbound_keeps e m b b' k i : spooled b → PublishInbound e m b = (b', k) → keeps i b b' k.
Proof.
  intros Hsp. unfold PublishInbound. generalize (received (env_now e) (NormalizeInboundMessage m)). intros m1. cbv zeta.
  destruct (context_isZero _).
  { intros [= <- <-]. apply keeps_same; try done. apply no_voucher. repeat constructor. }
  rewrite (sp_dir _ Hsp). destruct (String.eqb_spec (im_SpoolID m1) "") as [Hs|_].
  2:{ intros [= <- <-]. apply keeps_same; try done. apply no_voucher. repeat constructor. }
  destruct (spool_op_spooled b (e, OpPrepare m1) Hsp) as [Hsp' Hg]. cbn [SpoolSteps.step] in Hsp', Hg.
  destruct (Prepare e m1 (mb_disk b)) as [d r] eqn:HP. cbn [fst] in Hsp', Hg. destruct r as [m2|x]; intros [= <- <-]; split_and!; try done.
  - intros j m' ->%list_elem_of_singleton. cbn. intros [= <-]. right. exists (mb_ops b), e, m1, []. split_and!; [done|done|].
    by rewrite <- (sp_disk _ Hsp), HP.
  - intros p Hp. by left.
  - by intros j m' ->%list_elem_of_singleton.
  - intros p Hp. by left.
Qed.
Lemma release_keeps e m cause b i : spooled b → keeps i b (ReleaseInbound e m cause b) [].
Proof.
  intros Hsp. unfold ReleaseInbound. rewrite (sp_dir _ Hsp).
  destruct (spool_op_spooled b (e, OpRelease (im_SpoolID m) cause) Hsp) as [Hsp' Hg].
  split_and!; [done|done|intros j ? Hj; by apply elem_of_nil in Hj|by left].
Qed.
Lemma PublishObserved_voucher m : Forall (fun j => vouched j = None) (PublishObserved m).
Proof. unfold PublishObserved. apply enter_voucher. Qed.
Lemma PublishOutbound_voucher m : Forall (fun j => vouched j = None) (PublishOutbound m).
Proof. unfold PublishOutbound. destruct (NormalizeOutboundMessage m); [apply enter_voucher|repeat constructor]. Qed.
Lemma PublishOutboundMedia_voucher m : Forall (fun j => vouched j = None) (PublishOutboundMedia m).
Proof. unfold PublishOutboundMedia. destruct (NormalizeOutboundMediaMessage m); [apply enter_voucher|repeat constructor]. Qed.
Lemma voucherless_keeps b b' k k' i : spooled b → Forall (fun j => vouched j = None) k' → (b, k') = (b', k) → keeps i b b' k.
Proof. intros Hsp Hk He. assert (b' = b ∧ k = k') as [-> ->] by (split; congruence). apply keeps_same; try done. by apply no_voucher. Qed.
Lemma publish_keeps e p b b' k i : spooled b → publish_call e p b = (b', k) → keeps i b b' k.
Proof.
  intros Hsp. destruct p as [m|m|m|m|x|x]; cbn [publish_call].
  - apply (publish_inbound_keeps e m b b' k i Hsp).
  - apply (voucherless_keeps b b' k (PublishObserved m) i Hsp (PublishObserved_voucher m)).
  - apply (voucherless_keeps b b' k (PublishOutbound m) i Hsp (PublishOutbound_voucher m)).
  - apply (voucherless_keeps b b' k (PublishOutboundMedia m) i Hsp (PublishOutboundMedia_voucher m)).
  - apply voucherless_keeps; [done|repeat constructor].
  - apply voucherless_keeps; [done|repeat constructor].
Qed.
Lemma exec_call_keeps c call b b' k : spooled b → exec_call c call b = Some (b', k) → keeps (ICall call) b b' k.
Proof.
  intros Hsp He. assert (Hself : ∀ k', Forall (fun j => vouched j = None) k' → keeps (ICall call) b b k').
  { intros k' Hk'. apply keeps_same; try done. by apply no_voucher. }
  destruct call as [p|msgs|s|m|m cause|m|]; cbn [exec_call] in He.
  - injection He as He. by eapply publish_keeps.
  - injection He as <- <-. apply Hself. repeat constructor.
  - destruct (chan_receive s false b) as [[b1 [p|]]|] eqn:Er; [| |done]; injection He as <- <-; apply chan_receive_cases in Er.
    + destruct Er as (buffer & _ & ->). apply keeps_same; try done. by apply no_voucher.
    + destruct Er as (-> & _). by apply Hself.
  - injection He as <- <-. unfold AckInbound. rewrite (sp_dir _ Hsp).
    destruct (spool_op_spooled b (ch_env c, OpAcknowledge (im_SpoolID m)) Hsp) as [[D1 D2] Hg]. cbn [SpoolSteps.step] in D1, D2, Hg.
    destruct (acknowledge _ _ _ _) as [d r]. cbn [fst] in D1, D2, Hg.
    split_and!; [done|done|intros j ? Hj; by apply elem_of_nil in Hj|]. intros p [Hp|Hp%list_elem_of_singleton]%elem_of_app; [by left|done].
  - injection He as <- <-. by apply release_keeps.
  - injection He as <- <-. unfold PersistInboundContext. rewrite (sp_dir _ Hsp).
    destruct (spool_op_spooled b (ch_env c, OpPersist m) Hsp) as [Hsp' Hg].
    split_and!; [done|done|intros j ? Hj; by apply elem_of_nil in Hj|by left].
  - destruct (mb_closeOnce b); [| |injection He as <- <-; apply Hself; repeat constructor]; [|done].
    injection He as <- <-. apply keeps_same; try done. apply no_voucher. repeat constructor.
Qed.
Lemma exec_keeps c i b b' k : spooled b → exec c i b = Some (b', k) → keeps i b b' k.
Proof.
  intros Hsp He.
  destruct i as [call|p k0|p k0| |[|m msgs]|m cause|a| | |[|s todo]|[|s todo]|]; cbn [exec] in He;
    try (injection He as <- <-; apply keeps_same; try done; apply no_voucher; repeat constructor; fail).
  - by apply (exec_call_keeps c).
  - unfold enterPublish in He. destruct (mb_closed b); [|destruct (ch_context c); [|destruct (mb_done b)]]; injection He as <- <-;
      apply keeps_same; try done; try (apply no_voucher, refused_voucher). intros j ->%list_elem_of_singleton. by right.
  - assert (Hr : ∀ b1 e, Some (b1, IWgDone :: refused p k0 e) = Some (b', k) → mb_inboundSpool b1 = mb_inboundSpool b → mb_disk b1 = mb_disk b →
        mb_ops b1 = mb_ops b → mb_answers b1 = mb_answers b → keeps (ISelect p k0) b b' k).
    { intros b1 e [= <- <-] ????. apply keeps_same; try done. apply no_voucher. constructor; [done|apply refused_voucher]. }
    unfold select in He. destruct (ch_selected c).
    + unfold chan_send in He. destruct (ch_closed _); [|destruct (Nat.ltb _ _); [|done]]; injection He as <- <-;
        (apply keeps_same; try done; intros j [->|Hj]%elem_of_cons; [by left|by apply published_voucher]).
    + destruct (ch_context c); [|done]. by apply (Hr _ _ He).
    + destruct (timed _); [|done]. by apply (Hr _ _ He).
    + destruct (mb_done b); [|done]. by apply (Hr _ _ He).
  - injection He as <- <-. apply keeps_same; try done; try (unfold wg_done; cbv zeta; by destruct (_ <? 0)). apply no_voucher. constructor.
  - injection He as <- <-. by apply release_keeps.
  - injection He as <- <-. split_and!; [by destruct Hsp|exists []; by rewrite app_nil_r|intros j ? Hj; by apply elem_of_nil in Hj|].
    intros p [Hp|Hp%list_elem_of_singleton]%elem_of_app; [by left|right; congruence].
  - injection He as <- <-. apply keeps_same; try done; try (by destruct (mb_done _)). apply no_voucher. repeat constructor.
  - destruct (_ =? 0); [|done]. injection He as <- <-. apply keeps_same; try done. apply no_voucher. repeat constructor.
  - injection He as <- <-. apply keeps_same; try done; try (unfold chan_close; by destruct (ch_closed _)). apply no_voucher. repeat constructor.
  - destruct (chan_receive s true b) as [[b1 [p|]]|] eqn:Er; [| |done]; injection He as <- <-; apply chan_receive_cases in Er.
    + destruct Er as (buffer & _ & ->). apply keeps_same; try done. apply no_voucher. repeat constructor.
    + destruct Er as (-> & _). apply keeps_same; try done. apply no_voucher. repeat constructor.
Qed.

(** Every publisher and every answer speaks for a message some [Prepare] answered. *)
Record told b ts : Prop := {
  to_spooled : spooled b;
  to_stands : ∀ i m, stands ts i → vouched i = Some m → prepared_in (mb_ops b) m;
  to_answers : ∀ m, Published (PInbound m) true ∈ mb_answers b → prepared_in (mb_ops b) m }.
Lemma exec_told c i b b' k ts t rest : told b ts → ts !! t = Some (i :: rest) → exec c i b = Some (b', k) → told b' (<[t := k ++ rest]> ts).
Proof.
  intros [Hsp Hst Han] Ht He. destruct (exec_keeps c i b b' k Hsp He) as (Hsp' & Hg & Hk & Ha).
  assert (Hi : ∀ m, vouched i = Some m → prepared_in (mb_ops b') m).
  { intros m Hm. eapply prepared_grows; [exact Hg|]. eapply Hst; [by eapply stands_top|done]. }
  split; [done| |].
  - intros j m Hj Hm. destruct (stands_step _ _ _ _ _ _ Ht Hj) as [Hjk|Hjs].
    + destruct (Hk j m Hjk Hm); auto.
    + eapply prepared_grows; [exact Hg|by eapply Hst].
  - intros m [Hp|Hp]%Ha; [eapply prepared_grows; [exact Hg|by apply Han]|by apply Hi; subst].
Qed.
Definition sys_told y : Prop := told (sys_bus y) (sys_threads y).
Lemma sched_step_told y a y' : sys_told y → sched_step y a = Some y' → sys_told y'.
Proof.
  intros Hto Hs. destruct a as [call|t c|e n]; cbn in Hs.
  - injection Hs as <-. destruct Hto as [T1 T2 T3]. split; cbn; [done| |done].
    intros i m [->%list_elem_of_singleton|Hi]%stands_spawn Hm; [done|by eapply T2].
  - destruct (sys_threads y !! t) as [[|i rest]|] eqn:Ht; [done| |done].
    destruct (exec c i (sys_bus y)) as [[b k]|] eqn:He; [|done]. injection Hs as <-. by eapply exec_told.
  - injection Hs as <-. destruct Hto as [[T1 T2] T3 T4]. split; cbn.
    + split; cbn; [done|]. by rewrite on_disk_snoc, T2.
    + intros i m (k & Hk & _). by apply elem_of_nil in Hk.
    + intros m Hm. apply (prepared_grows (sys_bus y) (restarted e n (sys_bus y))); [by eexists|by apply T4].
Qed.

(** C3. A publisher that [PublishInbound] told its message was accepted can
    count on it: until the message is acknowledged or given up, and however
    publishers, consumers, [Close] and crashes interleave, every state a crash
    may leave the directory in holds the message, and every replay that answers
    without an error brings it back, when no two identities drawn are equal. *)
Theorem published_survives l y m' :
  sched_run (mkSystem (NewMessageBus (Some dir)) []) l = Some y → let b := sys_bus y in
  Published (PInbound m') true ∈ mb_answers b → legal (mb_ops b) →
  forallb (fun x => negb (ends (im_SpoolID m') x)) (mb_ops b) = true →
  stays m' (mb_disk b).
Proof.
  intros Hl b Hm Hleg Hn. assert (Hto : sys_told y).
  { refine (sched_run_ind sys_told sched_step_told l _ y _ Hl). split; [done| |].
    - intros i m (k & Hk & _). by apply elem_of_nil in Hk.
    - intros m Hin. by apply elem_of_nil in Hin. }
  destruct Hto as [[_ Hd] _ Han]. fold b in Hd, Han. destruct (Han m' Hm) as (tr1 & e & m & tr2 & Ho & Hs & HP).
  rewrite Ho in Hleg, Hn. rewrite forallb_app in Hn. apply andb_true_iff in Hn as [_ [_ Hn]%andb_true_iff].
  destruct (Prepare e m (on_disk tr1)) as [d1 r] eqn:E. cbn [snd] in HP. subst r.
  assert (Hd1 : mb_disk b = SpoolSteps.run dir d1 tr2).
  { rewrite Hd, Ho. unfold on_disk, SpoolSteps.run. rewrite foldl_app. cbn. fold (SpoolSteps.run dir empty_disk tr1). fold (on_disk tr1).
    by rewrite E. }
  rewrite Hd1. destruct (taken_views dir tr1 (on_disk tr1) e m d1 m' tr2) as [Hw Hall]; [by split|done..|]. by apply views_stay.
Qed.
End spooled.
End bus.
