(* ===== verification/SpoolWitness.v ===== *)
(** The properties of the inbound spool and of the bus at concrete runs. *)
From S2P Require Import Prelude GoStrings GoJson GoTime GoText BusInbound FileUtil InboundSpool SpoolSteps SpoolProps.
From S2P Require Import MessageBus BusProps.
#[local] Open Scope Z_scope.

#[local] Instance ascii_case : UnicodeCase :=
  {| rune_lower := fun r => if (65 <=? r) && (r <=? 90) then r + 32 else r;
     rune_fold := fun r => if (65 <=? r) && (r <=? 90) then r + 32 else r |}.
#[local] Instance relation_eq : EqDecision InboundMessageRelation. Proof. solve_decision. Defined.
#[local] Instance group_eq : EqDecision InboundMediaGroup. Proof. solve_decision. Defined.
#[local] Instance projection_eq : EqDecision InboundInteractionProjection. Proof. solve_decision. Defined.
#[local] Instance guard_eq : EqDecision InboundDocumentIntakeGuard. Proof. solve_decision. Defined.
#[local] Instance context_eq : EqDecision InboundContext. Proof. solve_decision. Defined.
#[local] Instance sender_eq : EqDecision SenderInfo. Proof. solve_decision. Defined.
#[local] Instance message_eq : EqDecision InboundMessage. Proof. solve_decision. Defined.
#[local] Instance record_eq : EqDecision spooledInboundRecord. Proof. solve_decision. Defined.

Definition no_guard : InboundDocumentIntakeGuard := mkIntakeGuard "" "" "" false false.
Definition draft_guard : InboundDocumentIntakeGuard :=
  mkIntakeGuard "form_job_0123456789abcdef0123456789abcdef" "form_intake_0123456789abcdef0123456789abcdef" "" true false.
Definition hello : InboundMessage :=
  mkInbound (mkInboundContext "telegram" "" "42" "direct" "" "" "" "7" "7" "m1" "" "" "telegram:42:m1" "" false "" "" zero_time
    (mkRelation "" false) (mkMediaGroup "" []) (mkProjection no_choice "" "" "" false None "") no_guard ∅ ∅)
    (mkSender "telegram" "7" "telegram:7" "" "") "hello" [] "" "" "".

Definition at_s (s : Z) : Time := mkTime ((738944 * 86400 + s) * 1000000000) 0.
(** Everything works, and sixteen bytes [b] are drawn. *)
Definition works (write : spooledInboundRecord → WriteEnv) (b : Z) : Env :=
  mkEnv false false (fun _ => false) (at_s 1) (at_s 1) (Some (replicate 16 b)) write false false
    (fun _ => false) (fun _ => false) (fun _ => false) None.
Definition anything : Env := works (fun _ => mkWriteEnv 0 None "" false false) 1.

(** The records of the run, and a decoder that knows them. *)
Definition hello_id : string := match newSpoolID anything with Ok id => id | Err _ => "" end.
Definition taken : InboundMessage := prepared anything hello_id hello.
Definition first_record : spooledInboundRecord := prepared_record hello_id taken.
Definition guarded : InboundMessage := taken <| im_Context ::= fun c => c <| ic_DocumentIntake := draft_guard |> |>.
Definition second_record : spooledInboundRecord :=
  match persisted guarded first_record with Ok r => r | Err _ => first_record end.
Definition third_record : spooledInboundRecord := attempted (Some "busy") second_record.
Definition known : list spooledInboundRecord := [first_record; second_record; third_record].
#[local] Instance known_decoder : SpoolDecoder := fun text =>
  List.find (fun r => String.eqb (record_text r) text) known.
Definition careful (r : spooledInboundRecord) : WriteEnv :=
  mkWriteEnv 3 (if bool_decide (r ∈ known) then None else Some AtWrite) "" false false.
Definition fine : Env := works careful 1.

Lemma fine_readable : readable fine.
Proof.
  intros r Hr. cbn in Hr. case_bool_decide as Hin; [|done].
  apply elem_of_cons in Hin as [->|Hin]; [by vm_compute|]. apply elem_of_cons in Hin as [->|Hin]; [by vm_compute|].
  apply list_elem_of_singleton in Hin as ->. by vm_compute.
Qed.

(** After the message was taken: a document guard is stored, the turn fails for
    now, and the process crashes and looks at what is pending. *)
Definition later : list (Env * Op) :=
  [(fine, OpPersist guarded); (fine, OpRelease hello_id (Some "busy")); (fine, OpCrash 0); (fine, OpPending 0)].
Lemma begin_reached : reached "/spool" [] empty_disk ((fine, OpPrepare hello) :: later).
Proof.
  split; [|done]. split; [repeat constructor; apply fine_readable|]. apply (bool_decide_unpack _). by vm_compute.
Qed.
Definition after_prepare : Disk := (Prepare fine hello empty_disk).1.
Lemma hello_taken : Prepare fine hello empty_disk = (after_prepare, Ok taken).
Proof. vm_compute. reflexivity. Qed.

Lemma accepted_until_acknowledged_witness :
  im_SpoolID taken = hello_id ∧ ∃ r, replayed r ∈ (Pending fine 0 (run "/spool" after_prepare later)).1 ∧ im_SpoolID (replayed r) = hello_id.
Proof.
  split; [by vm_compute|].
  assert (Hend : forallb (fun x => negb (ends (im_SpoolID taken) x)) later = true) by by vm_compute.
  assert (HP : Pending fine 0 (run "/spool" after_prepare later) = ((Pending fine 0 (run "/spool" after_prepare later)).1, None)) by by vm_compute.
  destruct (accepted_until_acknowledged "/spool" [] empty_disk fine hello after_prepare taken later begin_reached eq_refl hello_taken Hend)
    as [_ Hm].
  destruct (Hm fine _ HP ltac:(discriminate)) as (r & Hr & Hid & _). exists r. split; [exact Hr|exact Hid].
Defined.

Lemma later_reached : reached "/spool" ((fine, OpPrepare hello) :: later) (run "/spool" after_prepare later) [].
Proof.
  split; [|reflexivity]. rewrite app_nil_r. apply begin_reached.
Qed.
Lemma replay_exact_witness :
  calm fine ∧ ∃ l : list (string * spooledInboundRecord), Pending fine 0 (run "/spool" after_prepare later) = (replayed <$> l.*2, None) ∧ length l = 1%nat.
Proof.
  assert (Hc : calm fine) by by split_and!. split; [exact Hc|].
  destruct (replay_exact "/spool" ((fine, OpPrepare hello) :: later) (run "/spool" after_prepare later) fine later_reached Hc)
    as (l & Hl & _). exists l. split; [exact Hl|].
  assert (Hlen : length (Pending fine 0 (run "/spool" after_prepare later)).1 = 1%nat) by by vm_compute.
  rewrite Hl in Hlen. cbn [fst] in Hlen. by rewrite !length_fmap in Hlen.
Defined.

(** The document guard is stored, and the same is tried with another job. *)
Definition after_persist : Disk := (PersistContext fine guarded after_prepare).1.
Definition retries : list (Env * Op) := [(fine, OpPersist hello); (fine, OpRelease hello_id (Some "busy")); (fine, OpCrash 0)].
Lemma persist_reached : reached "/spool" [(fine, OpPrepare hello)] after_prepare ((fine, OpPersist guarded) :: retries).
Proof.
  split; [|reflexivity]. split; [repeat constructor; apply fine_readable|]. apply (bool_decide_unpack _). by vm_compute.
Qed.
Lemma guard_is_never_rebound_witness :
  ∃ p r, view (dk_now (run "/spool" after_persist retries)) hello_id = Some (p, r) ∧ guard_kept draft_guard (intake r).
Proof.
  assert (Hv : ∃ p r, view (dk_now (run "/spool" after_persist retries)) hello_id = Some (p, r)) by (vm_compute; by do 2 eexists).
  destruct Hv as (p & r & Hv). exists p, r. split; [exact Hv|].
  refine (guard_is_never_rebound "/spool" [(fine, OpPrepare hello)] after_prepare fine guarded after_persist retries
    (dk_now (run "/spool" after_persist retries)) p r persist_reached _ _ _ Hv).
  - vm_compute. discriminate.
  - vm_compute. reflexivity.
  - by left.
Defined.

(** The message is acknowledged; the retry finds nothing, after a crash too. *)
Definition after_ack : Disk := (acknowledge fine "/spool" hello_id after_prepare).1.
Definition afterwards : list (Env * Op) := [(fine, OpCrash 0); (fine, OpRelease hello_id None); (fine, OpAcknowledge hello_id)].
Lemma ack_reached : reached "/spool" [(fine, OpPrepare hello)] after_prepare ((fine, OpAcknowledge hello_id) :: afterwards).
Proof.
  split; [|reflexivity]. split; [repeat constructor; apply fine_readable|]. apply (bool_decide_unpack _). by vm_compute.
Qed.
Lemma acknowledged_for_good_witness :
  acknowledge fine "/spool" hello_id after_prepare = (after_ack, Ok (mkReceipt "/spool" hello_id)) ∧
  absent (dk_now (run "/spool" after_ack afterwards)) hello_id.
Proof.
  assert (HA : acknowledge fine "/spool" hello_id after_prepare = (after_ack, Ok (mkReceipt "/spool" hello_id))) by by vm_compute.
  split; [exact HA|].
  refine (proj1 (proj2 (proj2 (acknowledged_for_good "/spool" [(fine, OpPrepare hello)] after_prepare fine hello_id after_ack
    (mkReceipt "/spool" hello_id) afterwards ack_reached HA _))) _ _).
  - discriminate.
  - by left.
Defined.

(** A file of a later version beside the message. *)
Definition damaged : Disk := change (<["9999.json" := Regular "{}"]>) after_prepare.
Lemma one_damaged_file_blocks_replay_witness :
  length (Pending fine 0 after_prepare).1 = 1%nat ∧ snapshotGatewayInboundSpool fine damaged = [].
Proof.
  split; [by vm_compute|].
  refine (one_damaged_file_blocks_replay fine damaged "9999.json" (Regular "{}") _ _ _ _).
  - vm_compute. reflexivity.
  - vm_compute. reflexivity.
  - discriminate.
  - by vm_compute.
Defined.

(** ** The bus *)

(** A message is published, the bus is closed over it, and the process crashes. *)
Definition begin_bus : System := mkSystem (NewMessageBus (Some "/spool")) [].
Definition sends : Choice := mkChoice fine false "" SelSend.
Definition publish_hello : list Sched := Spawn (CPublish (PInbound hello)) :: replicate 5 (Run 0 sends).
Definition shut : list Sched := publish_hello ++ Spawn CClose :: replicate 2 (Run 1 sends).
Definition closed : list Sched := shut ++ replicate 18 (Run 1 sends).
Definition at_end (l : list Sched) : System := default begin_bus (sched_run begin_bus l).
Lemma at_end_run l : match sched_run begin_bus l with Some _ => true | None => false end = true → sched_run begin_bus l = Some (at_end l).
Proof. unfold at_end. by destruct (sched_run begin_bus l). Qed.
Lemma at_end_reachable l : match sched_run begin_bus l with Some _ => true | None => false end = true → reachable (at_end l).
Proof. intros Hl. exists (Some "/spool"), l. by apply at_end_run. Qed.

Lemma bus_streams_in_order_witness :
  mb_closeOnce (sys_bus (at_end closed)) = Ran ∧ mb_panicked (sys_bus (at_end closed)) = false ∧
  length (mb_sent (sys_bus (at_end closed)) SInbound) = 1%nat ∧
  mb_sent (sys_bus (at_end closed)) SInbound = (mb_taken (sys_bus (at_end closed)) SInbound).*1.
Proof.
  assert (Hr : reachable (at_end closed)) by (apply at_end_reachable; by vm_compute).
  assert (Ho : mb_closeOnce (sys_bus (at_end closed)) = Ran) by by vm_compute.
  destruct (bus_streams_in_order (at_end closed) Hr) as (Hp & _ & Hc). destruct (Hc Ho) as [Hs _].
  split; [exact Ho|]. split; [exact Hp|]. split; [by vm_compute|apply Hs].
Defined.
(** [Close] shut the bus while the publisher is done and waits to drain. *)
Lemma close_returns_witness :
  mb_closeOnce (sys_bus (at_end shut)) = Running ∧ to_go (at_end shut) = 21 ∧
  ∃ t, runs_alone (at_end shut) t ∧
    ∀ c y', sched_step (at_end shut) (Run t c) = Some y' → to_go y' < 21.
Proof.
  assert (Hr : reachable (at_end shut)) by (apply at_end_reachable; by vm_compute).
  assert (Hc : mb_closed (sys_bus (at_end shut)) = true) by by vm_compute.
  assert (Ho : mb_closeOnce (sys_bus (at_end shut)) = Running) by by vm_compute.
  assert (Hg : to_go (at_end shut) = 21) by by vm_compute.
  destruct (close_returns (at_end shut) Hr Hc) as (_ & _ & _ & Hp). rewrite Ho, Hg in Hp.
  split; [exact Ho|]. split; [exact Hg|]. apply Hp. discriminate.
Defined.
(** The message that [Close] drained is still in the spool after a crash. *)
Definition crashed : System := at_end (closed ++ [Crash fine 0]).
Lemma published_survives_witness :
  mb_answers (sys_bus crashed) = [Published (PInbound taken) true; Closed] ∧
  ∃ r, replayed r ∈ (Pending fine 0 (mb_disk (sys_bus crashed))).1 ∧ im_SpoolID (replayed r) = hello_id.
Proof.
  assert (Ha : mb_answers (sys_bus crashed) = [Published (PInbound taken) true; Closed]) by by vm_compute.
  split; [exact Ha|].
  assert (Hl : sched_run (mkSystem (NewMessageBus (Some "/spool")) []) (closed ++ [Crash fine 0]) = Some crashed).
  { apply at_end_run. by vm_compute. }
  assert (Hleg : legal (mb_ops (sys_bus crashed))).
  { assert (Hops : mb_ops (sys_bus crashed) = [(fine, OpPrepare (received (at_s 1) (NormalizeInboundMessage hello))); (fine, OpCrash 0)]) by reflexivity.
    rewrite Hops. split; [repeat constructor; apply fine_readable|]. apply (bool_decide_unpack _). by vm_compute. }
  assert (Hn : forallb (fun x => negb (ends (im_SpoolID taken) x)) (mb_ops (sys_bus crashed)) = true) by by vm_compute.
  assert (HP : Pending fine 0 (mb_disk (sys_bus crashed)) = ((Pending fine 0 (mb_disk (sys_bus crashed))).1, None)) by by vm_compute.
  assert (Hin : Published (PInbound taken) true ∈ mb_answers (sys_bus crashed)) by (rewrite Ha; by left).
  destruct (published_survives "/spool" _ _ taken Hl Hin Hleg Hn) as [_ Hm].
  destruct (Hm fine _ HP ltac:(discriminate)) as (r & Hr & Hid & _). exists r. split; [exact Hr|exact Hid].
Defined.
