(* ===== verification/Network.v ===== *)
(** Package [pkg/browserpolicy], network.go: the canonical form of a public
    origin, and which addresses are public.

    [url.Parse], [netip.ParseAddr] and [Addr.String] are parameters. *)
From Stdlib Require Import Ascii.
From stdpp Require Import pretty.
From S2P Require Import Prelude GoStrings GoJson GoText.
#[local] Open Scope Z_scope.

(** ** Addresses ([net/netip]) *)

(** An address by its number; [V6] with its zone. *)
Inductive Addr := V4 (a : Z) | V6 (a : Z) (zone : string).
#[export] Instance Addr_eq_dec : EqDecision Addr. Proof. solve_decision. Defined.

(** [AddrFromSlice] of the sixteen bytes, without a zone, and [Unmap]. *)
Definition Unmap (x : Addr) : Addr :=
  match x with V6 a _ => if Z.shiftr a 32 =? 0xffff then V4 (Z.land a 0xffffffff) else V6 a "" | V4 a => V4 a end.
Definition IsGlobalUnicast (x : Addr) : bool :=
  match x with
  | V4 a => negb ((a =? 0) || (a =? 0xffffffff) || (Z.shiftr a 24 =? 127) || (Z.shiftr a 28 =? 14) || (Z.shiftr a 16 =? 0xa9fe))
  | V6 a _ => negb ((a =? 0) || (a =? 1) || (Z.shiftr a 120 =? 0xff) || (Z.shiftr a 118 =? 0x3fa))
  end.

Inductive Prefix := P4 (a : Z) (bits : Z) | P6 (a : Z) (bits : Z).
Definition Contains (p : Prefix) (x : Addr) : bool :=
  match p, x with
  | P4 a bits, V4 b => Z.shiftr a (32 - bits) =? Z.shiftr b (32 - bits)
  | P6 a bits, V6 b _ => Z.shiftr a (128 - bits) =? Z.shiftr b (128 - bits)
  | _, _ => false
  end.
Definition p4 (a b c d bits : Z) : Prefix := P4 (((a * 256 + b) * 256 + c) * 256 + d) bits.
(** The leading groups of an address whose other groups are zero. *)
Definition p6 (groups : list Z) (bits : Z) : Prefix :=
  P6 (foldl (fun a g => a * 65536 + g) 0 groups * 65536 ^ (8 - Z.of_nat (length groups))) bits.
Definition specialPurposePrefixes : list Prefix :=
  [p4 0 0 0 0 8; p4 10 0 0 0 8; p4 100 64 0 0 10; p4 127 0 0 0 8; p4 168 63 129 16 32; p4 169 254 0 0 16; p4 172 16 0 0 12;
   p4 192 0 0 0 24; p4 192 0 2 0 24; p4 192 31 196 0 24; p4 192 52 193 0 24; p4 192 88 99 0 24; p4 192 168 0 0 16;
   p4 192 175 48 0 24; p4 198 18 0 0 15; p4 198 51 100 0 24; p4 203 0 113 0 24; p4 240 0 0 0 4;
   p6 [0x64; 0xff9b] 96; p6 [0x64; 0xff9b; 1] 48; p6 [0x100] 64; p6 [0x100; 0; 0; 1] 64; p6 [0x2001] 23; p6 [0x2001; 0xdb8] 32;
   p6 [0x2002] 16; p6 [0x2620; 0x4f; 0x8000] 48; p6 [0x3fff] 20; p6 [0x5f00] 16; p6 [0xfc00] 7; p6 [0xfe80] 10].
Definition IsPublicIP (ip : Addr) : bool :=
  let address := Unmap ip in
  IsGlobalUnicast address && forallb (fun p => negb (Contains p address)) specialPurposePrefixes.

(** ** Numeric hosts *)

Definition digit_of (c : ascii) : option Z :=
  let b := byte_of c in
  if (48 <=? b) && (b <=? 57) then Some (b - 48)
  else if (97 <=? b) && (b <=? 122) then Some (b - 87)
  else if (65 <=? b) && (b <=? 90) then Some (b - 55)
  else None.
(** [strconv.ParseUint] with a base and 32 bits, of a text that is not empty. *)
Fixpoint parse_digits (base : Z) (s : string) (n : Z) : option Z :=
  match s with
  | "" => Some n
  | String c s =>
      match digit_of c with
      | Some d => if (d <? base) && (n * base + d <? 2 ^ 32) then parse_digits base s (n * base + d) else None
      | None => None
      end
  end.
Definition parseIPv4Number (part : string) : option Z :=
  if String.eqb part "" then None else
  let '(base, digits) :=
    if has_prefix "0x" part then (16, string_drop 2 part)
    else if (1 <? len part) && has_prefix "0" part then (8, string_drop 1 part)
    else (10, part) in
  if String.eqb digits "" then Some 0 else parse_digits base digits 0.

Definition ipv4Candidate (host : string) : bool :=
  match last (split_at "." host) with
  | None | Some "" => false
  | Some part =>
      forallb (fun r => (48 <=? r) && (r <=? 57)) (runes part)
      || match parseIPv4Number part with Some _ => true | None => false end
  end.
(** The parts before the last are bytes, the last fills what is left. *)
Fixpoint ipv4_value (numbers : list Z) (value bytes_left : Z) : option Z :=
  match numbers with
  | [] => None
  | [n] => if n <? 256 ^ bytes_left then Some (value * 256 ^ bytes_left + n) else None
  | n :: numbers => if n <=? 255 then ipv4_value numbers (value * 256 + n) (bytes_left - 1) else None
  end.
Definition parseIPv4 (host : string) : option Z :=
  let parts := split_at "." host in
  if (4 <? length parts)%nat then None else mapM parseIPv4Number parts ≫= fun numbers => ipv4_value numbers 0 4.

(** ** Origins *)

(** What the code reads of a [url.URL]. *)
Record URL := mkURL {
  u_Scheme : string; u_Opaque : string; u_User : bool; u_Host : string; u_Path : string; u_RawPath : string;
  u_RawQuery : string; u_ForceQuery : bool; u_Fragment : string }.
Class NetLibrary := {
  url_Parse : string → option URL;
  ParseAddr : string → option Addr;
  Addr_String : Addr → string }.

(** [Hostname] and [Port]: the text before and after the last colon, when only
    digits follow it, without brackets. *)
Definition is_digits (s : string) : bool := forallb (fun b => (48 <=? b) && (b <=? 57)) (bytes s).
Definition splitHostPort (host : string) : string * string :=
  let unbracketed h :=
    if has_prefix "[" h && has_suffix "]" h then String.substring 1 (String.length h - 2) h else h in
  match rev (split_at ":" host) with
  | port :: ((_ :: _) as before) =>
      if is_digits port then (unbracketed (join ":" (rev before)), port) else (unbracketed host, "")
  | _ => (unbracketed host, "")
  end.
Definition Hostname (u : URL) : string := (splitHostPort (u_Host u)).1.
Definition Port (u : URL) : string := (splitHostPort (u_Host u)).2.

(** [URL.String] of a scheme and a host; what a host may hold is kept. *)
Definition host_byte (b : Z) : bool :=
  (48 <=? b) && (b <=? 57) || (65 <=? b) && (b <=? 90) || (97 <=? b) && (b <=? 122)
  || existsb (fun c => byte_of c =? b) (String.list_ascii_of_string "-_.~!$&'()*+,;=:[]<>")  || (b =? 34).
Definition upper_hex (n : Z) : string := of_bytes [if n <? 10 then 48 + n else 55 + n].
Definition URL_String (scheme host : string) : string :=
  scheme +:+ "://" +:+
  concat_strings ((fun b => if host_byte b then of_bytes [b] else "%" +:+ upper_hex (b / 16) +:+ upper_hex (b mod 16)) <$> bytes host).

Section network.
Context `{UnicodeCase, NetLibrary}.

Inductive NetError := NotTrimmed | NotAbsolute | BadScheme | HasMore | NotExact | NotPublic | AmbiguousNumber | InvalidNumber | NotDNS | BadPort.

(** The host of an origin in canonical form. *)
Definition normalizeHost (publicOnly : bool) (host : string) : result NetError string :=
  reject String.eqb host "" || contains host "*" with NotExact ;;
  let trimmedHost := trim_suffix host "." in
  let lowerHost := to_lower trimmedHost in
  reject publicOnly && (String.eqb lowerHost "localhost" || has_suffix ".localhost" lowerHost
                        || String.eqb lowerHost "metadata.google.internal") with NotPublic ;;
  let address :=
    match ParseAddr host with
    | Some x => Some x
    | None =>
        if String.eqb trimmedHost host then None else
        match ParseAddr trimmedHost with Some (V4 a) => Some (V4 a) | _ => None end
    end in
  match address with
  | Some x => reject publicOnly && negb (IsPublicIP x) with NotPublic ;; Ok (Addr_String x)
  | None =>
      match parseIPv4 lowerHost with
      | Some v =>
          reject negb publicOnly with AmbiguousNumber ;;
          reject negb (IsPublicIP (V4 v)) with NotPublic ;;
          Ok (join "." ((fun b => pretty (v / 256 ^ b mod 256)) <$> [3; 2; 1; 0]))
      | None =>
          reject ipv4Candidate lowerHost with InvalidNumber ;;
          reject negb (forallb (fun b => (48 <=? b) && (b <=? 57) || (65 <=? b) && (b <=? 90) || (97 <=? b) && (b <=? 122)
                                         || (b =? 45) || (b =? 46)) (bytes host))
                 || publicOnly && negb (contains lowerHost ".") || has_prefix "." lowerHost || has_suffix "." lowerHost
                 || contains lowerHost ".." with NotDNS ;;
          reject existsb (fun label => has_prefix "-" label || has_suffix "-" label) (split_at "." lowerHost) with NotDNS ;;
          Ok lowerHost
      end
  end.
Definition port_ok (u : URL) : bool :=
  if String.eqb (Port u) "" then negb (has_suffix ":" (u_Host u))
  else match parse_digits 10 (Port u) 0 with Some n => (1 <=? n) && (n <=? 65535) | None => false end.
Definition normalizeOrigin (raw : string) (publicOnly : bool) : result NetError string :=
  reject negb (String.eqb (trim_space raw) raw) || String.eqb raw "" || (2048 <? len raw) with NotTrimmed ;;
  match url_Parse raw with
  | None => Err NotAbsolute
  | Some parsed =>
      reject String.eqb (u_Scheme parsed) "" || String.eqb (u_Host parsed) "" with NotAbsolute ;;
      let scheme := to_lower (u_Scheme parsed) in
      reject negb (String.eqb scheme "http") && negb (String.eqb scheme "https") with BadScheme ;;
      reject u_User parsed || negb (String.eqb (u_Path parsed) "") && negb (String.eqb (u_Path parsed) "/")
             || negb (String.eqb (u_RawQuery parsed) "") || negb (String.eqb (u_Fragment parsed) "") with HasMore ;;
      lowerHost ← normalizeHost publicOnly (Hostname parsed);
      reject negb (port_ok parsed) with BadPort ;;
      let port :=
        if String.eqb scheme "http" && String.eqb (Port parsed) "80" || String.eqb scheme "https" && String.eqb (Port parsed) "443"
        then "" else Port parsed in
      let bracketed := if contains lowerHost ":" then "[" +:+ lowerHost +:+ "]" else lowerHost in
      Ok (URL_String scheme (if String.eqb port "" then bracketed else bracketed +:+ ":" +:+ port))
  end.
Definition NormalizePublicOrigin (raw : string) : result NetError string := normalizeOrigin raw true.
Definition NormalizeHTTPOrigin (raw : string) : result NetError string := normalizeOrigin raw false.
End network.
