(* ===== verification/Credentials.v ===== *)
(** Package [pkg/credentialbroker]: who may use which credential where.

    [Policy] is what the operator configured, [Authority] the grants that were
    approved and are alive.  A grant is a pointer to a [grantLifetime] that
    leases share, so the lifetimes are a store and a pointer is an index of it.
    Every method of an authority holds its lock. *)
From Stdlib Require Import Ascii.
From stdpp Require Import gmap.
From S2P Require Import Prelude GoStrings GoJson GoTime GoText CodingScope Network.
#[local] Open Scope Z_scope.

(** ** Data ([policy.go], [login_flow.go], [github.go]) *)

Record Principal := mkPrincipal { p_OwnerID : string; p_ActorID : string; p_AgentID : string; p_HostID : string }.
#[export] Instance Principal_eq_dec : EqDecision Principal. Proof. solve_decision. Defined.
#[export] Instance Principal_countable : Countable Principal.
Proof.
  refine (inj_countable' (fun p => (p_OwnerID p, p_ActorID p, p_AgentID p, p_HostID p))
    (fun x => mkPrincipal x.1.1.1 x.1.1.2 x.1.2 x.2) _). by intros [].
Defined.
Record LoginFlow := mkFlow {
  lf_NavigationURL : string; lf_EntryOrigin : string; lf_SubmitURL : string; lf_SuccessURL : string;
  lf_SuccessMarkerID : string; lf_HandoffURL : string; lf_HandoffMarkerID : string }.
Definition GitHubReadScope : Type := list string.
Record AccountRule := mkRule {
  ru_Alias : string; ru_VaultID : string; ru_ItemID : string; ru_Origins : list string; ru_Principals : list Principal;
  ru_Login : option LoginFlow; ru_GitHub : option GitHubReadScope; ru_DiscoverLogins : bool }.
Record Request := mkRequest { rq_Principal : Principal; rq_Account : string; rq_Origin : string; rq_PolicyRevision : string }.
Record accountPolicy := mkAccount {
  ac_origins : list string; ac_principals : gset Principal; ac_login : option LoginFlow; ac_github : option GitHubReadScope;
  ac_discoverLogins : bool }.
Record Policy := mkPolicy { po_revision : string; po_accounts : gmap string accountPolicy }.

Inductive AuthError := ErrInvalidPolicy | ErrDenied | ErrApprovalRequired | ErrInvalidApproval | ErrUnavailable.

Definition MaxAccounts : nat := 64.
Definition MaxOriginsPerAccount : nat := 16.
Definition MaxPrincipalsPerAccount : nat := 32.

(** [^[A-Za-z0-9][A-Za-z0-9_-]{0,127}$] *)
Definition validIdentifier (s : string) : bool :=
  matches (fun b => upper b || lower b || digit b) (fun b => upper b || lower b || digit b || one_of "_-" b) s && (len s <=? 128).
Definition validPrincipal (p : Principal) : bool :=
  validIdentifier (p_OwnerID p) && validIdentifier (p_ActorID p) && validIdentifier (p_AgentID p) && validIdentifier (p_HostID p).
(** [^[A-Za-z_][A-Za-z0-9_.:-]{0,127}$] *)
Definition htmlIDPattern (s : string) : bool :=
  matches (fun b => upper b || lower b || (b =? 95)) (fun b => upper b || lower b || digit b || one_of "_.:-" b) s && (len s <=? 128).
(** [^[A-Za-z0-9/_~.-]*$] *)
Definition loginPathPattern (s : string) : bool :=
  forallb (fun b => upper b || lower b || digit b || one_of "/_~.-" b) (bytes s).

Definition before_str (s t : string) (rest : Prop) : Prop := str_le s t ∧ (s = t → rest).
#[export] Instance before_str_dec s t rest : Decision rest → Decision (before_str s t rest).
Proof. intros. unfold before_str. destruct (decide (s = t)) as [->|Hne]; [|destruct (decide (str_le s t))].
  - destruct (decide rest); [destruct (decide (str_le t t))|]; [left|right|right]; naive_solver.
  - left. naive_solver.
  - right. naive_solver.
Defined.
(** [comparePrincipal(l, r) <= 0] *)
Definition principal_le (l r : Principal) : Prop :=
  before_str (p_OwnerID l) (p_OwnerID r) (before_str (p_ActorID l) (p_ActorID r)
    (before_str (p_AgentID l) (p_AgentID r) (str_le (p_HostID l) (p_HostID r)))).
#[export] Instance principal_le_dec l r : Decision (principal_le l r). Proof. unfold principal_le. apply _. Defined.
Definition alias_le (l r : AccountRule) : Prop := str_le (ru_Alias l) (ru_Alias r).
#[export] Instance alias_le_dec l r : Decision (alias_le l r). Proof. unfold alias_le. apply _. Defined.

Definition Principal_json (p : Principal) : json := JObj (
  fstr "owner_id" (p_OwnerID p) ++ fstr "actor_id" (p_ActorID p) ++ fstr "agent_id" (p_AgentID p) ++ fstr "host_id" (p_HostID p)).
Definition LoginFlow_json (f : LoginFlow) : json := JObj (
  fstr "navigation_url" (lf_NavigationURL f) ++ fstr "entry_origin" (lf_EntryOrigin f) ++ fstr "submit_url" (lf_SubmitURL f) ++
  fstr "success_url" (lf_SuccessURL f) ++ fstr "success_marker_id" (lf_SuccessMarkerID f) ++
  fstr_omit "handoff_url" (lf_HandoffURL f) ++ fstr_omit "handoff_marker_id" (lf_HandoffMarkerID f)).
Definition GitHub_json (s : GitHubReadScope) : json := JObj (field "repositories" (JArr (JStr <$> s))).
Definition Rule_json (r : AccountRule) : json := JObj (
  fstr "alias" (ru_Alias r) ++ fstr "vault_id" (ru_VaultID r) ++ fstr "item_id" (ru_ItemID r) ++
  field "origins" (JArr (JStr <$> ru_Origins r)) ++ field "principals" (JArr (Principal_json <$> ru_Principals r)) ++
  fopt_omit "login" LoginFlow_json (ru_Login r) ++ fopt_omit "github_read" GitHub_json (ru_GitHub r) ++
  fbool_omit "discover_logins" (ru_DiscoverLogins r)).

Section policy.
Context `{UnicodeCase, NetLibrary, Sha256}.

Definition credentialOrigin (raw : string) : result AuthError string :=
  match NormalizePublicOrigin raw with
  | Err _ => Err ErrDenied
  | Ok origin =>
      reject negb (has_prefix "https://" origin) with ErrDenied ;;
      match url_Parse raw with
      | Some parsed => reject has_suffix "." (Hostname parsed) with ErrDenied ;; Ok origin
      | None => Err ErrDenied
      end
  end.

(** ** Login flows *)

(** The canonical URL and its origin. *)
Definition loginURL (raw : string) : result AuthError (string * string) :=
  reject String.eqb raw "" || (2048 <? len raw) || negb (String.eqb (trim_space raw) raw) with ErrInvalidPolicy ;;
  match url_Parse raw with
  | None => Err ErrInvalidPolicy
  | Some u =>
      reject negb (String.eqb (u_Opaque u) "") || String.eqb (u_Host u) "" || u_User u || negb (String.eqb (u_RawQuery u) "")
             || u_ForceQuery u || negb (String.eqb (u_Fragment u) "")
             || in_string "#" raw || in_string "?" raw || in_string "\" raw || in_string "%" raw
             || negb (String.eqb (u_RawPath u) "") || negb (loginPathPattern (u_Path u)) with ErrInvalidPolicy ;;
      reject existsb (fun c => String.eqb c "." || String.eqb c "..") (split_at "/" (u_Path u)) with ErrInvalidPolicy ;;
      match credentialOrigin (URL_String (u_Scheme u) (u_Host u)) with
      | Err _ => Err ErrInvalidPolicy
      | Ok origin => Ok (origin +:+ (if String.eqb (u_Path u) "" then "/" else u_Path u), origin)
      end
  end.
Definition login_target (origins : list string) (entry : option string) (raw : string) : result AuthError string :=
  x ← loginURL raw;
  reject negb (bool_decide (x.2 ∈ origins)) || match entry with Some e => negb (String.eqb x.2 e) | None => false end
    with ErrInvalidPolicy ;;
  Ok x.1.
Definition NormalizeLoginFlow (f : LoginFlow) (origins : list string) : result AuthError LoginFlow :=
  match credentialOrigin (lf_EntryOrigin f) with
  | Err _ => Err ErrInvalidPolicy
  | Ok entry =>
      reject (length origins =? 0)%nat || (MaxOriginsPerAccount <? length origins)%nat || negb (bool_decide (entry ∈ origins))
             || negb (htmlIDPattern (lf_SuccessMarkerID f))
             || negb (Bool.eqb (String.eqb (lf_HandoffURL f) "") (String.eqb (lf_HandoffMarkerID f) ""))
             || negb (String.eqb (lf_HandoffMarkerID f) "") && negb (htmlIDPattern (lf_HandoffMarkerID f)) with ErrInvalidPolicy ;;
      navigation ← login_target origins (Some entry) (lf_NavigationURL f);
      submit ← login_target origins (Some entry) (lf_SubmitURL f);
      success ← login_target origins None (lf_SuccessURL f);
      handoff ← (if String.eqb (lf_HandoffURL f) "" then Ok "" else login_target origins None (lf_HandoffURL f));
      reject String.eqb navigation success || String.eqb success handoff || String.eqb navigation handoff with ErrInvalidPolicy ;;
      Ok (mkFlow navigation entry submit success (lf_SuccessMarkerID f) handoff (lf_HandoffMarkerID f))
  end.

(** ** GitHub *)

Definition GitHubAPIOrigin : string := "https://api.github.com".
(** [^[a-zA-Z0-9][a-zA-Z0-9-]{0,38}/[a-zA-Z0-9_.-]{1,100}$] *)
Definition githubRepositoryPattern (s : string) : bool :=
  match split_at "/" s with
  | [owner; name] =>
      matches (fun b => upper b || lower b || digit b) (fun b => upper b || lower b || digit b || (b =? 45)) owner
      && (len owner <=? 39)
      && forallb (fun b => upper b || lower b || digit b || one_of "_.-" b) (bytes name) && (1 <=? len name) && (len name <=? 100)
  | _ => false
  end.
Definition NormalizeGitHubRepository (s : string) : result AuthError string :=
  reject negb (githubRepositoryPattern s) with ErrDenied ;;
  reject existsb (fun name => String.eqb name "." || String.eqb name "..") (tail (split_at "/" s)) with ErrDenied ;;
  Ok (to_lower s).
Fixpoint github_repositories (raws repositories : list string) : result AuthError (list string) :=
  match raws with
  | [] => Ok repositories
  | raw :: raws =>
      match NormalizeGitHubRepository raw with
      | Err _ => Err ErrInvalidPolicy
      | Ok r => reject bool_decide (r ∈ repositories) with ErrInvalidPolicy ;; github_repositories raws (repositories ++ [r])
      end
  end.
Definition normalizeGitHubReadScope (s : GitHubReadScope) : result AuthError GitHubReadScope :=
  reject (length s <? 1)%nat || (16 <? length s)%nat with ErrInvalidPolicy ;;
  repositories ← github_repositories s [];
  Ok (merge_sort str_le repositories).

(** ** Policies *)

Fixpoint rule_origins (raws origins : list string) : result AuthError (list string) :=
  match raws with
  | [] => Ok origins
  | raw :: raws =>
      match credentialOrigin raw with
      | Err _ => Err ErrInvalidPolicy
      | Ok o => reject bool_decide (o ∈ origins) with ErrInvalidPolicy ;; rule_origins raws (origins ++ [o])
      end
  end.
Fixpoint rule_principals (l : list Principal) (seen : gset Principal) : result AuthError (gset Principal) :=
  match l with
  | [] => Ok seen
  | p :: l =>
      reject negb (validPrincipal p) with ErrInvalidPolicy ;;
      reject bool_decide (p ∈ seen) with ErrInvalidPolicy ;;
      rule_principals l ({[p]} ∪ seen)
  end.
(** The canonical form of a rule and the policy of its account. *)
Definition canonical_rule (r : AccountRule) : result AuthError (AccountRule * accountPolicy) :=
  reject negb (validIdentifier (ru_Alias r)) || negb (validIdentifier (ru_VaultID r)) || (length (ru_Principals r) =? 0)%nat
         || (MaxPrincipalsPerAccount <? length (ru_Principals r))%nat with ErrInvalidPolicy ;;
  reject (if ru_DiscoverLogins r
          then negb (String.eqb (ru_ItemID r) "") || negb (length (ru_Origins r) =? 0)%nat
               || bool_decide (is_Some (ru_Login r)) || bool_decide (is_Some (ru_GitHub r))
          else negb (validIdentifier (ru_ItemID r)) || (length (ru_Origins r) =? 0)%nat
               || (MaxOriginsPerAccount <? length (ru_Origins r))%nat) with ErrInvalidPolicy ;;
  origins ← rule_origins (ru_Origins r) [];
  let origins := merge_sort str_le origins in
  principals ← rule_principals (ru_Principals r) ∅;
  login ← (match ru_Login r with
           | None => Ok None
           | Some f => match NormalizeLoginFlow f origins with Ok f => Ok (Some f) | Err _ => Err ErrInvalidPolicy end
           end);
  github ← (match ru_GitHub r with
            | None => Ok None
            | Some s =>
                reject bool_decide (is_Some (ru_Login r)) || negb (bool_decide (origins = [GitHubAPIOrigin])) with ErrInvalidPolicy ;;
                match normalizeGitHubReadScope s with Ok s => Ok (Some s) | Err _ => Err ErrInvalidPolicy end
            end);
  Ok (mkRule (ru_Alias r) (ru_VaultID r) (ru_ItemID r) origins (merge_sort principal_le (ru_Principals r)) login github
        (ru_DiscoverLogins r),
      mkAccount origins principals login github (ru_DiscoverLogins r)).
Fixpoint canonical_rules (rules : list AccountRule) (accounts : gmap string accountPolicy) (normalized : list AccountRule) :
    result AuthError (gmap string accountPolicy * list AccountRule) :=
  match rules with
  | [] => Ok (accounts, normalized)
  | r :: rules =>
      match canonical_rule r with
      | Err x => Err x
      | Ok (canonical, account) =>
          reject bool_decide (is_Some (accounts !! ru_Alias r)) with ErrInvalidPolicy ;;
          canonical_rules rules (<[ru_Alias r := account]> accounts) (normalized ++ [canonical])
      end
  end.
Definition revision_of (normalized : list AccountRule) : string :=
  sha256_hex ("mintclaw-credential-policy-v1" +:+ of_bytes [0] +:+ marshal (JArr (Rule_json <$> normalized))).
Definition NewPolicy (rules : list AccountRule) : result AuthError Policy :=
  reject (MaxAccounts <? length rules)%nat with ErrInvalidPolicy ;;
  x ← canonical_rules rules ∅ [];
  Ok (mkPolicy (revision_of (merge_sort alias_le x.2)) x.1).

(** A policy is a pointer, [None] for nil. *)
Definition Revision (p : option Policy) : string := match p with Some p => po_revision p | None => "" end.
Definition permits (p : option Policy) (r : Request) : bool :=
  match p with
  | None => false
  | Some p =>
      if String.eqb (po_revision p) "" || negb (String.eqb (rq_PolicyRevision r) (po_revision p))
         || negb (validPrincipal (rq_Principal r)) || negb (validIdentifier (rq_Account r)) then false
      else match po_accounts p !! rq_Account r with
      | None => false
      | Some account =>
          if bool_decide (rq_Principal r ∈ ac_principals account) then
            match credentialOrigin (rq_Origin r) with
            | Err _ => false
            | Ok origin => ac_discoverLogins account || bool_decide (origin ∈ ac_origins account)
            end
          else false
      end
  end.
Definition AllowsPrincipal (p : option Policy) (principal : Principal) (alias : string) : bool :=
  match p with
  | None => false
  | Some p =>
      if negb (validPrincipal principal) || negb (validIdentifier alias) then false
      else match po_accounts p !! alias with
      | None => false
      | Some account => bool_decide (principal ∈ ac_principals account)
      end
  end.
Definition account_of (p : option Policy) (alias : string) : option accountPolicy := p ≫= fun p => po_accounts p !! alias.
Definition Policy_LoginFlow (p : option Policy) (r : Request) : result AuthError LoginFlow :=
  reject negb (permits p r) with ErrDenied ;;
  match account_of p (rq_Account r) ≫= ac_login, credentialOrigin (rq_Origin r) with
  | Some flow, Ok origin => if String.eqb origin (lf_EntryOrigin flow) then Ok flow else Err ErrDenied
  | _, _ => Err ErrDenied
  end.
Definition Policy_GitHubRepository (p : option Policy) (r : Request) (repository : string) : result AuthError string :=
  reject negb (permits p r) || negb (String.eqb (rq_Origin r) GitHubAPIOrigin) with ErrDenied ;;
  match NormalizeGitHubRepository repository, account_of p (rq_Account r) ≫= ac_github with
  | Ok canonical, Some scope => if bool_decide (canonical ∈ scope) then Ok canonical else Err ErrDenied
  | _, _ => Err ErrDenied
  end.
End policy.

(** ** Grants ([grants.go], [lease.go]) *)

Definition MaxGrantLifetime : Z := 20 * hour.
Definition MaxActiveGrants : nat := 64.

Record Approval := mkApproval { ap_Principal : Principal; ap_Accounts : list string; ap_PolicyRevision : string; ap_Lifetime : Z }.
Record Grant := mkGrant {
  gr_ID : string; gr_Principal : Principal; gr_Accounts : list string; gr_PolicyRevision : string;
  gr_IssuedAt : Time; gr_ExpiresAt : Time }.
#[export] Instance Grant_eq_dec : EqDecision Grant. Proof. solve_decision. Defined.

(** [gl_done]: its channel is closed; [gl_timer]: when its timer fires. *)
Record grantLifetime := mkLifetime { gl_grant : Grant; gl_done : bool; gl_timer : Time }.
Abbreviation Pointer := nat.
(** [au_made]: the clock and the source of randomness are there; they are in an
    authority that [NewAuthority] made.  [au_panicked] records that a channel
    was closed twice. *)
Record Authority := mkAuthority {
  au_policy : option Policy; au_grants : gmap string Pointer; au_made : bool; au_closed : bool;
  au_lifetimes : list grantLifetime; au_panicked : bool }.
#[export] Instance eta_Authority : Eta Authority := fun a =>
  mkAuthority (au_policy a) (au_grants a) (au_made a) (au_closed a) (au_lifetimes a) (au_panicked a).

Record GrantLease := mkLease { le_grantID : string; le_request : Request; le_lifetime : option Pointer }.

(** The readings of the clock, of the three tries of a random identity, and
    whether the context is done at each look at it. *)
Record AuthEnv := mkAuthEnv {
  ae_now : Time; ae_later : Time; ae_random : list (option (list Z)); ae_done : nat → bool }.

Definition validGrantID (id : string) : bool :=
  (len id =? 64) && forallb (fun r => (48 <=? r) && (r <=? 57) || (97 <=? r) && (r <=? 102)) (runes id).
Definition hex_string (b : list Z) : string := concat_strings ((fun x => hex_digit (x / 16 mod 16) +:+ hex_digit (x mod 16)) <$> b).

Definition NewAuthority (p : option Policy) : result AuthError Authority :=
  reject String.eqb (Revision p) "" with ErrInvalidPolicy ;;
  Ok (mkAuthority p ∅ true false [] false).

(** [time.AfterFunc] of what is left at [current]. *)
Definition install (current : Time) (g : Grant) (a : Authority) : Authority :=
  let delay := if Before current (gr_IssuedAt g) then 0 else Sub (gr_ExpiresAt g) current in
  a <| au_lifetimes ::= fun l => l ++ [mkLifetime g false (Add current delay)] |>
    <| au_grants ::= <[gr_ID g := length (au_lifetimes a)]> |>.
Definition close_done (l : grantLifetime) : grantLifetime := mkLifetime (gl_grant l) true (gl_timer l).
Definition invalidate (id : string) (a : Authority) : Authority :=
  match au_grants a !! id with
  | None => a
  | Some g =>
      let again := match au_lifetimes a !! g with Some l => gl_done l | None => true end in
      a <| au_grants ::= delete id |> <| au_lifetimes ::= alter close_done g |> <| au_panicked ::= fun b => b || again |>
  end.
Definition within (now : Time) (g : Grant) : bool := negb (Before now (gr_IssuedAt g)) && Before now (gr_ExpiresAt g).
(** The order in which Go visits the map does not matter: see [prune_exact]. *)
Definition prune (now : Time) (a : Authority) : Authority :=
  foldl (fun a x => match au_lifetimes a !! x.2 with
                    | Some l => if within now (gl_grant l) then a else invalidate x.1 a
                    | None => a
                    end) a (map_to_list (au_grants a)).

Definition expire (id : string) (g : Pointer) (a : Authority) : Authority :=
  if bool_decide (au_grants a !! id = Some g) then invalidate id a else a.
Definition Revoke (ownerID id : string) (a : Authority) : Authority * result AuthError () :=
  if au_closed a then (a, Err ErrUnavailable)
  else if negb (validIdentifier ownerID) || negb (validGrantID id) then (a, Err ErrDenied)
  else match au_grants a !! id ≫= fun g => au_lifetimes a !! g with
  | None => (a, Err ErrDenied)
  | Some l =>
      if String.eqb (p_OwnerID (gr_Principal (gl_grant l))) ownerID then (invalidate id a, Ok tt) else (a, Err ErrDenied)
  end.
Definition invalidate_all (a : Authority) : Authority := foldl (fun a id => invalidate id a) a (map_to_list (au_grants a)).*1.
Definition ReplacePolicy (p : option Policy) (a : Authority) : Authority * result AuthError () :=
  if String.eqb (Revision p) "" then (a, Err ErrInvalidPolicy)
  else if au_closed a then (a, Err ErrUnavailable)
  else if String.eqb (Revision (au_policy a)) (Revision p) then (a, Ok tt)
  else (invalidate_all (a <| au_policy := p |>), Ok tt).
Definition Close (a : Authority) : Authority := invalidate_all (a <| au_closed := true |>).

Fixpoint newGrantID (reads : list (option (list Z))) (tries : nat) (grants : gmap string Pointer) : result AuthError string :=
  match tries, reads with
  | S tries, Some b :: reads =>
      if bool_decide (is_Some (grants !! hex_string b)) then newGrantID reads tries grants else Ok (hex_string b)
  | _, _ => Err ErrUnavailable
  end.
(** The accounts in order, of which [prev] is the one before. *)
Fixpoint check_accounts (accounts : gmap string accountPolicy) (p : Principal) (prev : option string) (l : list string) : result AuthError () :=
  match l with
  | [] => Ok tt
  | alias :: l =>
      match accounts !! alias with
      | None => Err ErrInvalidApproval
      | Some account =>
          reject negb (validIdentifier alias) || bool_decide (prev = Some alias) with ErrInvalidApproval ;;
          reject negb (bool_decide (p ∈ ac_principals account)) with ErrDenied ;;
          check_accounts accounts p (Some alias) l
      end
  end.
Definition approvalAccounts (policy : option Policy) (x : Approval) : result AuthError (list string) :=
  reject negb (validPrincipal (ap_Principal x)) || negb (String.eqb (ap_PolicyRevision x) (Revision policy))
         || (ap_Lifetime x <=? 0) || (MaxGrantLifetime <? ap_Lifetime x)
         || (length (ap_Accounts x) =? 0)%nat || (MaxAccounts <? length (ap_Accounts x))%nat with ErrInvalidApproval ;;
  let accounts := merge_sort str_le (ap_Accounts x) in
  match policy with
  | None => Err ErrInvalidApproval
  | Some p => check_accounts (po_accounts p) (ap_Principal x) None accounts ≫= fun _ => Ok accounts
  end.
Definition Approve (e : AuthEnv) (x : Approval) (a : Authority) : Authority * result AuthError Grant :=
  if au_closed a || String.eqb (Revision (au_policy a)) "" || negb (au_made a) then (a, Err ErrUnavailable)
  else match approvalAccounts (au_policy a) x with
  | Err err => (a, Err err)
  | Ok accounts =>
      let a := prune (ae_now e) a in
      if (MaxActiveGrants <=? size (au_grants a))%nat then (a, Err ErrUnavailable)
      else match newGrantID (ae_random e) 3 (au_grants a) with
      | Err err => (a, Err err)
      | Ok id =>
          let g := mkGrant id (ap_Principal x) accounts (ap_PolicyRevision x) (ae_now e) (Add (ae_now e) (ap_Lifetime x)) in
          (install (ae_later e) g a, Ok g)
      end
  end.
(** The grants to install, in the order of the records. *)
Fixpoint restore_loop (policy : option Policy) (now : Time) (l : list Grant) (seen : list string) : result AuthError (list Grant) :=
  match l with
  | [] => Ok []
  | g :: l =>
      match approvalAccounts policy (mkApproval (gr_Principal g) (gr_Accounts g) (gr_PolicyRevision g) (Sub (gr_ExpiresAt g) (gr_IssuedAt g))) with
      | Err _ => Err ErrInvalidApproval
      | Ok accounts =>
          reject negb (validGrantID (gr_ID g)) || bool_decide (gr_ID g ∈ seen) || IsZero (gr_IssuedAt g) with ErrInvalidApproval ;;
          rest ← restore_loop policy now l (gr_ID g :: seen);
          Ok (if within now g
              then mkGrant (gr_ID g) (gr_Principal g) accounts (gr_PolicyRevision g) (gr_IssuedAt g) (gr_ExpiresAt g) :: rest else rest)
      end
  end.
Definition Restore (e : AuthEnv) (l : list Grant) (a : Authority) : Authority * result AuthError () :=
  if au_closed a || negb (au_made a) || negb (bool_decide (size (au_grants a) = 0%nat)) || (MaxActiveGrants <? length l)%nat
  then (a, Err ErrUnavailable)
  else match restore_loop (au_policy a) (ae_now e) l [] with
  | Err err => (a, Err err)
  | Ok validated => (foldl (fun a g => install (ae_later e) g a) a validated, Ok tt)
  end.

Section authority.
Context `{UnicodeCase, NetLibrary}.

Definition authorize (e : AuthEnv) (id : string) (r : Request) (a : Authority) : Authority * result AuthError () :=
  if au_closed a then (a, Err ErrUnavailable)
  else if negb (permits (au_policy a) r) then (a, Err ErrDenied)
  else if negb (au_made a) || negb (validGrantID id) then (a, Err ErrApprovalRequired)
  else
    let a := prune (ae_now e) a in
    match au_grants a !! id ≫= fun g => au_lifetimes a !! g with
    | None => (a, Err ErrApprovalRequired)
    | Some l =>
        let g := gl_grant l in
        if negb (bool_decide (gr_Principal g = rq_Principal r)) || negb (String.eqb (gr_PolicyRevision g) (rq_PolicyRevision r))
           || negb (bool_decide (rq_Account r ∈ gr_Accounts g)) then (a, Err ErrDenied)
        else (a, Ok tt)
    end.
Definition Active (e : AuthEnv) (id : string) (a : Authority) : Authority * bool :=
  if au_closed a || negb (au_made a) || negb (validGrantID id) then (a, false)
  else let a := prune (ae_now e) a in (a, bool_decide (is_Some (au_grants a !! id))).
Definition Lease (e : AuthEnv) (id : string) (r : Request) (a : Authority) : Authority * result AuthError GrantLease :=
  if ae_done e 0 || ae_done e 1 then (a, Err ErrDenied)
  else match authorize e id r a with
  | (a, Err err) => (a, Err err)
  | (a, Ok _) => if ae_done e 2 then (a, Err ErrDenied) else (a, Ok (mkLease id r (au_grants a !! id)))
  end.
Definition same_scope (r r' : Request) : bool :=
  bool_decide (rq_Principal r = rq_Principal r') && String.eqb (rq_Account r) (rq_Account r')
  && String.eqb (rq_PolicyRevision r) (rq_PolicyRevision r').
Definition checkLocked (e : AuthEnv) (le : GrantLease) (r : Request) (a : Authority) : Authority * result AuthError () :=
  if negb (same_scope r (le_request le)) || ae_done e 1 then (a, Err ErrDenied)
  else match authorize e (le_grantID le) r a with
  | (a, Err err) => (a, Err err)
  | (a, Ok _) =>
      if negb (bool_decide (au_grants a !! le_grantID le = le_lifetime le)) then (a, Err ErrApprovalRequired)
      else if ae_done e 2 then (a, Err ErrDenied) else (a, Ok tt)
  end.
Definition Check (e : AuthEnv) (le : GrantLease) (r : Request) (a : Authority) : Authority * result AuthError () :=
  if ae_done e 0 || negb (bool_decide (is_Some (le_lifetime le))) || negb (same_scope r (le_request le)) then (a, Err ErrDenied)
  else checkLocked e le r a.
Definition Remaining (e : AuthEnv) (le : GrantLease) (r : Request) (a : Authority) : Authority * result AuthError Z :=
  if ae_done e 0 then (a, Err ErrDenied) else
  match le_lifetime le with
  | None => (a, Err ErrDenied)
  | Some g =>
      match checkLocked e le r a with
      | (a, Err err) => (a, Err err)
      | (a, Ok _) =>
          match au_lifetimes a !! g with
          | None => (a, Err ErrDenied)
          | Some l =>
              let remaining := Sub (gr_ExpiresAt (gl_grant l)) (ae_later e) in
              if (remaining <=? 0) || (MaxGrantLifetime <? remaining) || ae_done e 3 then (a, Err ErrDenied) else (a, Ok remaining)
          end
      end
  end.
(** Whether the channel of [Done] is closed. *)
Definition Done (le : GrantLease) (a : Authority) : bool :=
  match le_lifetime le ≫= fun g => au_lifetimes a !! g with Some l => gl_done l | None => true end.
End authority.
