(* ===== verification/CredentialProps.v ===== *)
(** What the credential broker grants: exactly what was approved, as long as it
    was approved, and what a policy permits. *)
From Stdlib Require Import Ascii.
From stdpp Require Import gmap.
From S2P Require Import Prelude GoStrings GoJson GoTime GoText CodingScope Network Credentials.
#[local] Open Scope Z_scope.

Implicit Types (a : Authority) (e : AuthEnv) (id : string) (g : Pointer) (r : Request).

(** ** Sorting *)

Lemma merge_sort_unique {A} (R : relation A) `{∀ x y, Decision (R x y)} `{!Transitive R, !AntiSymm (=) R, !Total R} l k :
  l ≡ₚ k → merge_sort R l = merge_sort R k.
Proof.
  intros Hp. apply (Sorted_unique R); [by apply Sorted_merge_sort..|]. by rewrite !merge_sort_Permutation.
Qed.
Lemma merge_sort_again (l : list string) : merge_sort str_le (merge_sort str_le l) = merge_sort str_le l.
Proof. apply merge_sort_unique; try apply _. by rewrite merge_sort_Permutation. Qed.

(** ** The store of lifetimes *)

(** The generation that holds an identity. *)
Definition held a id : option (Pointer * grantLifetime) := au_grants a !! id ≫= fun g => pair g <$> au_lifetimes a !! g.

(** What an approval gives is within the policy. *)
Definition grant_ok (p : option Policy) (x : Grant) : Prop :=
  approvalAccounts p (mkApproval (gr_Principal x) (gr_Accounts x) (gr_PolicyRevision x) (Sub (gr_ExpiresAt x) (gr_IssuedAt x)))
    = Ok (gr_Accounts x).

Record auth_inv a : Prop := {
  ai_panic : au_panicked a = false;
  ai_held : ∀ id g, au_grants a !! id = Some g →
    ∃ l, au_lifetimes a !! g = Some l ∧ gl_done l = false ∧ gr_ID (gl_grant l) = id ∧ grant_ok (au_policy a) (gl_grant l);
  ai_live : ∀ g l, au_lifetimes a !! g = Some l → gl_done l = false → au_grants a !! gr_ID (gl_grant l) = Some g;
  ai_closed : au_closed a = true → au_grants a = ∅;
  ai_size : (size (au_grants a) ≤ MaxActiveGrants)%nat }.

Lemma held_grants a id g l : held a id = Some (g, l) → au_grants a !! id = Some g ∧ au_lifetimes a !! g = Some l.
Proof.
  unfold held. destruct (au_grants a !! id) as [g'|]; [|done]. cbn. destruct (au_lifetimes a !! g') as [l'|] eqn:E; [|done].
  cbn. by intros [= <- <-].
Qed.
Lemma grants_held a id : auth_inv a → is_Some (au_grants a !! id) → is_Some (held a id).
Proof. intros Hi [g Hg]. destruct (ai_held _ Hi _ _ Hg) as (l & Hl & _). unfold held. rewrite Hg. cbn. rewrite Hl. by eexists. Qed.
Lemma held_none a id : auth_inv a → held a id = None ↔ au_grants a !! id = None.
Proof.
  intros Hi. split; [|unfold held; by intros ->]. intros Hn. destruct (au_grants a !! id) eqn:E; [|done].
  destruct (grants_held a id Hi ltac:(by eexists)) as [x Hx]. congruence.
Qed.

(** Lifetimes stay where they are, only their channel may be closed. *)
Definition lasts a a' : Prop := ∀ g l, au_lifetimes a !! g = Some l →
  ∃ d, au_lifetimes a' !! g = Some (mkLifetime (gl_grant l) d (gl_timer l)) ∧ (gl_done l = true → d = true).
Lemma lasts_refl a : lasts a a.
Proof. intros g [x d t] Hl. by exists d. Qed.
Lemma lasts_trans a1 a2 a3 : lasts a1 a2 → lasts a2 a3 → lasts a1 a3.
Proof.
  intros H1 H2 g l Hl. destruct (H1 g l Hl) as (d & Hd & Hm). destruct (H2 g _ Hd) as (d' & Hd' & Hm'). cbn in *. exists d'. auto.
Qed.

(** A change that only retires grants, those that [dead] names. *)
Record retires (dead : string → Prop) a a' : Prop := {
  rt_policy : au_policy a' = au_policy a; rt_made : au_made a' = au_made a; rt_closed : au_closed a' = au_closed a;
  rt_gone : ∀ id, dead id → au_grants a' !! id = None;
  rt_kept : ∀ id, ¬ dead id → held a' id = held a id ∧ au_grants a' !! id = au_grants a !! id;
  rt_lasts : lasts a a';
  rt_length : length (au_lifetimes a') = length (au_lifetimes a);
  rt_inv : auth_inv a' }.
Lemma retires_refl a : auth_inv a → retires (fun _ => False) a a.
Proof. intros Hi. split; try done. apply lasts_refl. Qed.
Lemma retires_trans P Q a1 a2 a3 : retires P a1 a2 → retires Q a2 a3 → (∀ id, Decision (Q id)) → retires (fun id => P id ∨ Q id) a1 a3.
Proof.
  intros H1 H2 Hdec. split; try (etrans; [apply H2|apply H1]).
  - intros id Hid. destruct (Hdec id) as [Hq|Hq]; [by apply H2|]. destruct Hid as [Hp|]; [|done].
    destruct (rt_kept _ _ _ H2 id Hq) as [_ ->]. by apply H1.
  - intros id Hn. destruct (rt_kept _ _ _ H1 id) as [<- <-]; [tauto|]. apply H2. tauto.
  - eapply lasts_trans; [apply H1|apply H2].
  - apply H2.
Qed.
Lemma retires_iff P Q a a' : (∀ id, P id ↔ Q id) → retires P a a' → retires Q a a'.
Proof.
  intros Hiff [H1 H2 H3 H4 H5 H6 H7 H8]. split; try done; intros id Hid; [apply H4|apply H5]; by rewrite Hiff.
Qed.

Lemma invalidate_retires id a : auth_inv a → retires (fun i => i = id) a (invalidate id a).
Proof.
  intros Hi. pose proof Hi as [I1 I2 I3 I4 I5]. unfold invalidate. destruct (au_grants a !! id) as [g|] eqn:E.
  2:{ split; try done; [by intros i ->|apply lasts_refl]. }
  destruct (I2 id g E) as (l & Hl & Hd & Hid & Hok). rewrite Hl.
  assert (Hlk : ∀ g', g' ≠ g → alter close_done g (au_lifetimes a) !! g' = au_lifetimes a !! g') by (intros; by apply list_lookup_alter_ne).
  assert (Hne : ∀ i g', i ≠ id → au_grants a !! i = Some g' → g' ≠ g).
  { intros i g' Hi' Hg' ->. destruct (I2 i g Hg') as (l' & Hl' & _ & Hid' & _). congruence. }
  split; cbn; try done; [..|by rewrite length_alter|].
  - intros i ->. by rewrite lookup_delete_eq.
  - intros i Hne'. unfold held. cbn. rewrite lookup_delete_ne by done. split; [|done].
    destruct (au_grants a !! i) as [g'|] eqn:E'; [|done]. cbn. by rewrite Hlk by by eapply Hne.
  - intros g' [x d t] Hl'. cbn. destruct (decide (g' = g)) as [->|Hg].
    + rewrite list_lookup_alter_eq, Hl'. exists true. done.
    + rewrite Hlk by done. rewrite Hl'. by exists d.
  - split; cbn.
    + by rewrite I1, Hd.
    + intros i g' [Hi' Hg']%lookup_delete_Some. rewrite Hlk by (eapply Hne; [|done]; done). by apply I2.
    + intros g' l' Hl' Hd'. destruct (decide (g' = g)) as [->|Hg].
      * rewrite list_lookup_alter_eq, Hl in Hl'. injection Hl' as <-. done.
      * rewrite Hlk in Hl' by done. rewrite lookup_delete_ne; [by apply I3|]. intros Heq. specialize (I3 g' l' Hl' Hd'). congruence.
    + intros Hc. by rewrite I4, delete_empty.
    + rewrite map_size_delete, E. lia.
Qed.

Lemma invalidates_retire (ids : list string) a : auth_inv a →
  retires (fun id => id ∈ ids) a (foldl (fun a id => invalidate id a) a ids).
Proof.
  revert a. induction ids as [|i ids IH]; intros a Hi; cbn.
  - eapply retires_iff; [|by apply retires_refl]. intros id. by rewrite elem_of_nil.
  - pose proof (invalidate_retires i a Hi) as H1.
    eapply retires_iff; [|exact (retires_trans _ _ _ _ _ H1 (IH _ (rt_inv _ _ _ H1)) _)]. intros id. by rewrite elem_of_cons.
Qed.
Lemma invalidate_all_retires a : auth_inv a → retires (fun _ => True) a (invalidate_all a) ∧ au_grants (invalidate_all a) = ∅.
Proof.
  intros Hi. pose proof (invalidates_retire (map_to_list (au_grants a)).*1 a Hi) as H1. fold (invalidate_all a) in H1.
  assert (Hn : ∀ id, au_grants (invalidate_all a) !! id = None).
  { intros id. destruct (decide (id ∈ (map_to_list (au_grants a)).*1)) as [Hin|Hin]; [by apply H1|].
    destruct (rt_kept _ _ _ H1 id Hin) as [_ ->]. destruct (au_grants a !! id) as [g|] eqn:E; [|done]. exfalso. apply Hin, list_elem_of_fmap.
    exists (id, g). split; [done|by apply elem_of_map_to_list]. }
  split; [|by apply map_empty]. split; try apply H1; [done|]. intros id []. done.
Qed.

(** Whatever the order, [prune] retires what is out of its time. *)
Definition outdated now a id : Prop := ∃ g l, held a id = Some (g, l) ∧ within now (gl_grant l) = false.
#[local] Instance outdated_dec now a id : Decision (outdated now a id).
Proof.
  destruct (held a id) as [[g l]|] eqn:E; [destruct (within now (gl_grant l)) eqn:Ew|].
  - right. intros (g' & l' & Hh & Hw). congruence.
  - left. by exists g, l.
  - right. intros (g' & l' & Hh & Hw). congruence.
Defined.
Lemma prune_exact now a : auth_inv a → retires (outdated now a) a (prune now a).
Proof.
  intros Hi. unfold prune.
  assert (Hgen : ∀ (xs : list (string * Pointer)) a', auth_inv a' → (∀ x, x ∈ xs → au_grants a !! x.1 = Some x.2) → lasts a a' →
    retires (fun id => ∃ g, (id, g) ∈ xs ∧ outdated now a id) a' (foldl (fun a x => match au_lifetimes a !! x.2 with
       | Some l => if within now (gl_grant l) then a else invalidate x.1 a | None => a end) a' xs)).
  { intros xs. induction xs as [|[id g] xs IH]; intros a' Hi' Hxs Hla; cbn.
    - eapply retires_iff; [|by apply retires_refl]. intros id. split; [done|]. intros (g & Hg & _). by apply elem_of_nil in Hg.
    - pose proof (Hxs (id, g) ltac:(by left)) as Hg. cbn in Hg. destruct (ai_held _ Hi _ _ Hg) as (l & Hl & _ & _).
      destruct (Hla g l Hl) as (d & Hl' & _). rewrite Hl'. cbn [gl_grant].
      assert (Hh : held a id = Some (g, l)) by (unfold held; rewrite Hg; cbn; by rewrite Hl).
      destruct (within now (gl_grant l)) eqn:Ew.
      + eapply retires_iff; [|apply (IH a' Hi')]; [|intros; apply Hxs; by right|done]. intros i. split.
        * intros (g' & Hin & Hout). exists g'. split; [by right|done].
        * intros (g' & [[= -> ->]|Hin]%elem_of_cons & Hout); [|by exists g'].
          destruct Hout as (g2 & l2 & Hh2 & Hw2). congruence.
      + pose proof (invalidate_retires id a' Hi') as H1.
        assert (H2 := IH _ (rt_inv _ _ _ H1) (fun x Hx => Hxs x ltac:(by right)) (lasts_trans _ _ _ Hla (rt_lasts _ _ _ H1))).
        eapply retires_iff; [|eapply (retires_trans _ _ _ _ _ H1 H2)].
        * intros i. split.
          { intros [->|(g' & Hin & Hout)]; [exists g; split; [by left|by exists g, l]|exists g'; split; [by right|done]]. }
          { intros (g' & [[= -> ->]|Hin]%elem_of_cons & Hout); [by left|right; by exists g']. }
        * intros i. destruct (decide (outdated now a i)) as [Ho|Ho]; [|right; by intros (? & _ & ?)].
          destruct (decide (i ∈ xs.*1)) as [Hin|Hin].
          { left. apply list_elem_of_fmap in Hin as ([i' g'] & -> & Hin). by exists g'. }
          { right. intros (g' & Hg' & _). apply Hin. apply list_elem_of_fmap. by exists (i, g'). } }
  eapply retires_iff; [|apply (Hgen _ a Hi); [|apply lasts_refl]].
  - intros id. split; [by intros (? & _ & ?)|]. intros Ho. pose proof Ho as (g & l & Hh & _). exists g. split; [|done].
    apply elem_of_map_to_list. exact (proj1 (held_grants _ _ _ _ Hh)).
  - intros [i g] Hx. by apply elem_of_map_to_list in Hx.
Qed.

(** ** Issuing *)

Lemma check_accounts_ok accounts x prev l : check_accounts accounts x prev l = Ok tt →
  Forall (fun alias => validIdentifier alias = true ∧ ∃ account, accounts !! alias = Some account ∧ x ∈ ac_principals account) l.
Proof.
  revert prev. induction l as [|alias l IH]; intros prev; cbn; [constructor|]. destruct (accounts !! alias) as [account|] eqn:E; [|done].
  intros [[Hv _]%orb_false_iff [Hp Hl]%reject_ok]%reject_ok. apply negb_false_iff in Hv, Hp. apply bool_decide_eq_true in Hp.
  constructor; [|by eapply IH]. split; [done|by exists account].
Qed.
Lemma approvalAccounts_ok p x accounts : approvalAccounts p x = Ok accounts →
  accounts = merge_sort str_le (ap_Accounts x) ∧ validPrincipal (ap_Principal x) = true ∧ ap_PolicyRevision x = Revision p ∧
  0 < ap_Lifetime x ≤ MaxGrantLifetime ∧ ap_Accounts x ≠ [] ∧
  ∀ alias, alias ∈ accounts → validIdentifier alias = true ∧
    ∃ pol account, p = Some pol ∧ po_accounts pol !! alias = Some account ∧ ap_Principal x ∈ ac_principals account.
Proof.
  unfold approvalAccounts. intros [Hb Hk]%reject_ok. rewrite !orb_false_iff in Hb. destruct Hb as [[[[[H1 H2] H3] H4] H5] _].
  apply negb_false_iff in H1, H2. apply String.eqb_eq in H2. destruct p as [pol|]; [|done].
  apply bind_unit_ok in Hk as [Hc [= <-]]. split_and!; try done; try lia.
  - intros Hn. by rewrite Hn in H5.
  - intros alias Hin. apply check_accounts_ok in Hc. rewrite Forall_forall in Hc. destruct (Hc alias Hin) as (Hv & account & Ha & Hp).
    split; [done|by exists pol, account].
Qed.
Lemma approvalAccounts_again p x accounts : approvalAccounts p x = Ok accounts →
  approvalAccounts p (mkApproval (ap_Principal x) accounts (ap_PolicyRevision x) (ap_Lifetime x)) = Ok accounts.
Proof.
  unfold approvalAccounts. cbn [ap_Principal ap_Accounts ap_PolicyRevision ap_Lifetime]. intros [Hb Hk]%reject_ok.
  destruct p as [pol|]; [|done]. apply bind_unit_ok in Hk as [Hc [= <-]]. rewrite (Permutation_length (merge_sort_Permutation str_le (ap_Accounts x))), Hb.
  rewrite merge_sort_again. by rewrite Hc.
Qed.

Definition issue (t : Time) (x : Grant) : grantLifetime :=
  mkLifetime x false (Add t (if Before t (gr_IssuedAt x) then 0 else Sub (gr_ExpiresAt x) t)).
(** What an operation does to the grants: [dead] ones go, [new] ones come, at
    the instant [t]. *)
Record stepped (t : Time) (dead : string → Prop) (new : list Grant) a a' : Prop := {
  st_old : ∀ id g l, held a' id = Some (g, l) →
    held a id = Some (g, l) ∧ ¬ dead id ∨ gl_grant l ∈ new ∧ gr_ID (gl_grant l) = id ∧ au_lifetimes a !! g = None ∧ l = issue t (gl_grant l);
  st_kept : ∀ id x, held a id = Some x → ¬ dead id → held a' id = Some x;
  st_new : ∀ x, x ∈ new → ∃ g l, held a' (gr_ID x) = Some (g, l) ∧ gl_grant l = x;
  st_lasts : lasts a a';
  st_made : au_made a' = au_made a;
  st_inv : auth_inv a' }.
Lemma retires_stepped t dead a a' : auth_inv a → (∀ id, Decision (dead id)) → retires dead a a' → stepped t dead [] a a'.
Proof.
  intros Hi Hdec Hr. split; try apply Hr.
  - intros id g l Hh. left. destruct (Hdec id) as [Hd|Hd].
    + apply held_grants in Hh as [Hg _]. by rewrite (rt_gone _ _ _ Hr id Hd) in Hg.
    + destruct (rt_kept _ _ _ Hr id Hd) as [<- _]. done.
  - intros id x Hh Hd. by destruct (rt_kept _ _ _ Hr id Hd) as [-> _].
  - intros x Hx. by apply elem_of_nil in Hx.
Qed.

Lemma install_held t x a id : (∀ i g, au_grants a !! i = Some g → g ≠ length (au_lifetimes a)) →
  held (install t x a) id = if decide (id = gr_ID x) then Some (length (au_lifetimes a), issue t x) else held a id.
Proof.
  intros Hf. unfold held. cbn. destruct (decide (id = gr_ID x)) as [->|Hne].
  - rewrite lookup_insert_eq. cbn. by rewrite lookup_app_r, Nat.sub_diag by lia.
  - rewrite lookup_insert_ne by done. destruct (au_grants a !! id) as [g|] eqn:E; [|done]. cbn. specialize (Hf id g E).
    destruct (decide (g < length (au_lifetimes a))%nat); [by rewrite lookup_app_l|].
    rewrite lookup_app_r by lia. destruct (g - length (au_lifetimes a))%nat eqn:E'; [lia|]. cbn.
    by rewrite lookup_ge_None_2 by lia.
Qed.
Lemma inv_fresh a i g : auth_inv a → au_grants a !! i = Some g → g ≠ length (au_lifetimes a).
Proof. intros Hi Hg. destruct (ai_held _ Hi _ _ Hg) as (l & Hl & _). apply lookup_lt_Some in Hl. lia. Qed.
Lemma install_stepped t x a : auth_inv a → au_closed a = false → au_grants a !! gr_ID x = None →
  (size (au_grants a) < MaxActiveGrants)%nat → grant_ok (au_policy a) x → stepped t (fun _ => False) [x] a (install t x a).
Proof.
  intros Hi Hc Hn Hs Hok. pose proof (fun i g => inv_fresh a i g Hi) as Hf. pose proof Hi as [I1 I2 I3 I4 I5].
  assert (Hla : lasts a (install t x a)).
  { intros g [y d u] Hl. cbn. exists d. split; [|done]. by apply lookup_app_l_Some. }
  split; [..|exact Hla|done|].
  - intros id g l Hh. rewrite install_held in Hh by done. destruct (decide (id = gr_ID x)) as [->|].
    + injection Hh as <- <-. right. split_and!; [by left|done|by apply lookup_ge_None_2|done].
    + left. split; [done|by intros []].
  - intros id y Hh _. rewrite install_held by done. destruct (decide (id = gr_ID x)) as [->|]; [|done].
    unfold held in Hh. by rewrite Hn in Hh.
  - intros y ->%list_elem_of_singleton. rewrite install_held, decide_True by done. by do 2 eexists.
  - split; cbn.
    + done.
    + intros id g Hg. destruct (decide (id = gr_ID x)) as [->|Hne].
      * rewrite lookup_insert_eq in Hg. injection Hg as <-. exists (issue t x). rewrite lookup_app_r, Nat.sub_diag by lia. done.
      * rewrite lookup_insert_ne in Hg by done. destruct (I2 id g Hg) as (l & Hl & ?). exists l. split; [|done].
        by apply lookup_app_l_Some.
    + intros g l Hl Hd. apply lookup_app_Some in Hl as [Hl|[Hge Hl]].
      * pose proof (I3 g l Hl Hd) as Hg. rewrite lookup_insert_ne; [done|]. congruence.
      * apply list_lookup_singleton_Some in Hl as [Hz <-]. cbn. rewrite lookup_insert_eq. f_equal. lia.
    + congruence.
    + rewrite map_size_insert_None by done. lia.
Qed.
Lemma stepped_app t dead n1 n2 a1 a2 a3 : stepped t dead n1 a1 a2 → stepped t (fun _ => False) n2 a2 a3 → stepped t dead (n1 ++ n2) a1 a3.
Proof.
  intros [O1 K1 N1 L1 M1 I1] [O2 K2 N2 L2 M2 I2]. split.
  - intros id g l Hh. destruct (O2 id g l Hh) as [[Hh2 _]|(Hx & Hid & Hg & Hl)].
    + destruct (O1 id g l Hh2) as [?|(Hx & ?)]; [by left|]. right. split; [set_solver|done].
    + right. split_and!; [set_solver|done| |done]. destruct (au_lifetimes a1 !! g) as [l1|] eqn:E; [|done].
      destruct (L1 g l1 E) as (d & Hd & _). congruence.
  - intros id x Hh Hd. apply K2; [by apply K1|by intros []].
  - intros x [Hx|Hx]%elem_of_app; [|by apply N2]. destruct (N1 x Hx) as (g & l & Hh & Hl). exists g, l. split; [|done].
    apply K2; [done|by intros []].
  - by eapply lasts_trans.
  - by rewrite M2, M1.
  - done.
Qed.
Lemma stepped_refl t a : auth_inv a → stepped t (fun _ => False) [] a a.
Proof. intros Hi. apply retires_stepped; [done|apply _|by apply retires_refl]. Qed.
Lemma newGrantID_new reads tries grants id : newGrantID reads tries grants = Ok id → grants !! id = None.
Proof.
  revert tries. induction reads as [|[b|] reads IH]; intros [|n]; try done. cbn.
  case_bool_decide as Hb; [apply IH|]. intros [= <-]. by apply eq_None_not_Some.
Qed.
Lemma approved_ok p x accounts id now : approvalAccounts p x = Ok accounts →
  grant_ok p (mkGrant id (ap_Principal x) accounts (ap_PolicyRevision x) now (Add now (ap_Lifetime x))).
Proof.
  intros Hx. pose proof (approvalAccounts_ok _ _ _ Hx) as (_ & _ & _ & Hl & _). apply approvalAccounts_again in Hx.
  unfold grant_ok. cbn. assert (Hs : Sub (Add now (ap_Lifetime x)) now = ap_Lifetime x); [|by rewrite Hs].
  unfold Sub, Add, max_duration. cbn. unfold MaxGrantLifetime, hour, minute in Hl. lia.
Qed.
Lemma Approve_spec e x a a' res : auth_inv a → Approve e x a = (a', res) →
  ∃ dead, stepped (ae_later e) dead (match res with Ok y => [y] | Err _ => [] end) a a' ∧ (∀ id, dead id → outdated (ae_now e) a id).
Proof.
  intros Hi. pose proof (stepped_refl (ae_later e) a Hi) as Hsame. unfold Approve.
  assert (Hstay : ∀ err, (a, Err err) = (a', res) → ∃ dead, stepped (ae_later e) dead (match res with Ok y => [y] | Err _ => [] end) a a' ∧
    (∀ id, dead id → outdated (ae_now e) a id)) by (intros err [= <- <-]; exists (fun _ => False); split; [done|by intros ? []]).
  destruct (au_closed a) eqn:Ec; [apply Hstay|]. destruct (_ || _); [apply Hstay|].
  destruct (approvalAccounts (au_policy a) x) as [accounts|err] eqn:Ea; [|apply Hstay].
  pose proof (prune_exact (ae_now e) a Hi) as Hp. pose proof (retires_stepped (ae_later e) _ _ _ Hi _ Hp) as Hps. cbv zeta.
  assert (Hpruned : ∀ err, (prune (ae_now e) a, Err err) = (a', res) → ∃ dead, stepped (ae_later e) dead (match res with Ok y => [y] | Err _ => [] end) a a' ∧
    (∀ id, dead id → outdated (ae_now e) a id)) by (intros err [= <- <-]; exists (outdated (ae_now e) a); split; [exact Hps|auto]).
  destruct (Nat.leb_spec MaxActiveGrants (size (au_grants (prune (ae_now e) a)))); [apply Hpruned|].
  destruct (newGrantID _ _ _) as [id|err] eqn:En; [|apply Hpruned]. intros [= <- <-]. exists (outdated (ae_now e) a). split; [|done].
  apply (stepped_app _ _ [] _ _ _ _ Hps). apply install_stepped; cbn.
  - apply Hp.
  - by rewrite (rt_closed _ _ _ Hp).
  - by apply newGrantID_new in En.
  - done.
  - rewrite (rt_policy _ _ _ Hp). by apply approved_ok.
Qed.

Lemma restore_loop_ok p now (l : list Grant) seen out : restore_loop p now l seen = Ok out →
  Forall (grant_ok p) out ∧ NoDup (gr_ID <$> out) ∧ (∀ x, x ∈ out → gr_ID x ∉ seen ∧ within now x = true) ∧ (length out ≤ length l)%nat.
Proof.
  revert seen out. induction l as [|x l IH]; intros seen out; cbn.
  { intros [= <-]. split_and!; [apply Forall_nil_2|apply NoDup_nil_2| |done]. intros x Hx. by apply elem_of_nil in Hx. }
  destruct (approvalAccounts _ _) as [accounts|] eqn:Ea; [|done]. intros [Hb Hk]%reject_ok. rewrite !orb_false_iff in Hb.
  destruct Hb as [[_ Hs] _]. apply bool_decide_eq_false in Hs. apply result_bind_ok in Hk as (rest & Hr & [= <-]).
  destruct (IH _ _ Hr) as (H1 & H2 & H3 & H4). destruct (within now x) eqn:Ew.
  2:{ split_and!; try done; [|cbn; lia]. intros y Hy. destruct (H3 y Hy) as [Hn ?]. set_solver. }
  split_and!.
  - constructor; [|done]. by apply approvalAccounts_again in Ea.
  - rewrite fmap_cons. constructor; [|done]. cbn. intros (y & Hy & Hin)%list_elem_of_fmap. destruct (H3 y Hin) as [Hn _]. set_solver.
  - intros y [->|Hy]%elem_of_cons; [done|]. destruct (H3 y Hy) as [Hn ?]. set_solver.
  - cbn. lia.
Qed.
Lemma installs_stepped t (l : list Grant) a : auth_inv a → au_closed a = false → Forall (grant_ok (au_policy a)) l → NoDup (gr_ID <$> l) →
  (∀ x, x ∈ l → au_grants a !! gr_ID x = None) → (size (au_grants a) + length l ≤ MaxActiveGrants)%nat →
  stepped t (fun _ => False) l a (foldl (fun a x => install t x a) a l).
Proof.
  revert a. induction l as [|x l IH]; intros a Hi Hc Hok Hnd Hn Hs; cbn; [by apply stepped_refl|].
  inversion Hok as [|?? Hx Hl]; subst. rewrite fmap_cons in Hnd. apply NoDup_cons in Hnd as [Hxl Hnd]. cbn in Hs.
  assert (H1 : stepped t (fun _ => False) [x] a (install t x a)) by (apply install_stepped; [done..| |lia|done]; apply Hn; by left).
  refine (stepped_app _ _ [x] l _ _ _ H1 (IH _ (st_inv _ _ _ _ _ H1) Hc Hl Hnd _ _)).
  - intros y Hy. cbn. rewrite lookup_insert_ne; [apply Hn; by right|]. intros Heq. apply Hxl. rewrite Heq. by apply list_elem_of_fmap_2.
  - cbn. rewrite map_size_insert_None; [lia|]. apply Hn. by left.
Qed.
(** The grants that a restore installs. *)
Definition restored e (l : list Grant) a : list Grant :=
  match (Restore e l a).2, restore_loop (au_policy a) (ae_now e) l [] with Ok _, Ok out => out | _, _ => [] end.
Lemma Restore_spec e (l : list Grant) a : auth_inv a → stepped (ae_later e) (fun _ => False) (restored e l a) a (Restore e l a).1 ∧
  ∀ x, x ∈ restored e l a → within (ae_now e) x = true ∧ grant_ok (au_policy a) x.
Proof.
  intros Hi. pose proof (stepped_refl (ae_later e) a Hi) as Hsame. unfold restored, Restore.
  destruct (au_closed a) eqn:Ec; [split; [done|by intros x Hx%elem_of_nil]|]. cbn [orb].
  destruct (_ || _) eqn:E; [split; [done|by intros x Hx%elem_of_nil]|].
  rewrite !orb_false_iff in E. destruct E as [[_ Hz] Hlen]. apply negb_false_iff, bool_decide_eq_true in Hz.
  apply Nat.ltb_ge in Hlen. destruct (restore_loop _ _ _ _) as [out|] eqn:Er; [|split; [done|by intros x Hx%elem_of_nil]]. cbn [fst snd].
  destruct (restore_loop_ok _ _ _ _ _ Er) as (H1 & H2 & H3 & H4). split.
  - apply installs_stepped; try done; [|lia]. intros x _. apply map_size_empty_inv in Hz. by rewrite Hz.
  - intros x Hx. split; [by apply H3|]. by eapply Forall_forall in H1.
Qed.

(** ** Runs *)

Inductive Op :=
| OpApprove (x : Approval) | OpRestore (l : list Grant) | OpAuthorize id r | OpActive id | OpRevoke (ownerID id : string)
| OpReplacePolicy (p : option Policy) | OpExpire g | OpClose | OpLease id r | OpCheck (le : GrantLease) r | OpRemaining (le : GrantLease) r.
Definition trace : Type := list (AuthEnv * Op).

Section runs.
Context `{UnicodeCase, NetLibrary}.

(** [OpExpire]: the callback of a timer, whenever the runtime gets to it. *)
Definition step a (x : AuthEnv * Op) : Authority :=
  let '(e, op) := x in
  match op with
  | OpApprove x => (Approve e x a).1
  | OpRestore l => (Restore e l a).1
  | OpAuthorize id r => (authorize e id r a).1
  | OpActive id => (Active e id a).1
  | OpRevoke ownerID id => (Revoke ownerID id a).1
  | OpReplacePolicy p => (ReplacePolicy p a).1
  | OpExpire g => match au_lifetimes a !! g with Some l => expire (gr_ID (gl_grant l)) g a | None => a end
  | OpClose => Close a
  | OpLease id r => (Lease e id r a).1
  | OpCheck le r => (Check e le r a).1
  | OpRemaining le r => (Remaining e le r a).1
  end.
Definition run a (tr : trace) : Authority := foldl step a tr.
Definition made p : Authority := mkAuthority p ∅ true false [] false.

(** The grants an operation gives out, and whether it ends a grant. *)
Definition issued a (x : AuthEnv * Op) : list Grant :=
  match x.2 with
  | OpApprove y => match (Approve x.1 y a).2 with Ok g => [g] | Err _ => [] end
  | OpRestore l => restored x.1 l a
  | _ => []
  end.
Definition ends (y : Grant) (x : AuthEnv * Op) : bool :=
  match x.2 with
  | OpClose => true
  | OpReplacePolicy p => negb (String.eqb (Revision p) "") && negb (String.eqb (Revision p) (gr_PolicyRevision y))
  | OpRevoke ownerID id => validIdentifier ownerID && validGrantID id && String.eqb id (gr_ID y) && String.eqb ownerID (p_OwnerID (gr_Principal y))
  | _ => false
  end.
(** [y] was given out along [tr], and nobody ended it since. *)
Definition granted p (tr : trace) (y : Grant) : Prop :=
  ∃ tr1 x tr2, tr = tr1 ++ x :: tr2 ∧ y ∈ issued (run (made p) tr1) x ∧ forallb (fun x => negb (ends y x)) tr2 = true.

Lemma made_inv p : auth_inv (made p).
Proof. split; cbn; [done|by intros|by intros|done|]. rewrite map_size_empty. lia. Qed.
Lemma run_snoc a tr x : run a (tr ++ [x]) = step (run a tr) x.
Proof. unfold run. by rewrite foldl_app. Qed.
Lemma granted_snoc p tr x y : granted p (tr ++ [x]) y ↔ granted p tr y ∧ ends y x = false ∨ y ∈ issued (run (made p) tr) x.
Proof.
  split.
  - intros (tr1 & z & tr2 & Heq & Hy & Hn). destruct tr2 as [|w tr2 _] using rev_ind.
    + apply app_inj_tail in Heq as [-> ->]. by right.
    + rewrite app_comm_cons, app_assoc in Heq. apply app_inj_tail in Heq as [-> ->]. left.
      rewrite forallb_app in Hn. apply andb_true_iff in Hn as [Hn Hx]. cbn in Hx. rewrite andb_true_r in Hx. apply negb_true_iff in Hx.
      split; [by exists tr1, z, tr2|done].
  - intros [[(tr1 & z & tr2 & -> & Hy & Hn) Hx]|Hy].
    + exists tr1, z, (tr2 ++ [x]). split_and!; [by rewrite <- app_assoc|done|]. rewrite forallb_app, Hn. cbn. by rewrite Hx.
    + by exists tr, x, [].
Qed.

(** Every operation retires what is out of time, what it ends, or what a timer
    takes; and it does retire what it ends. *)
Definition may_go e op a id g l : Prop := within (ae_now e) (gl_grant l) = false ∨ ends (gl_grant l) (e, op) = true ∨ op = OpExpire g.
Lemma prunes_or_not e a a' : auth_inv a → a' = a ∨ a' = prune (ae_now e) a →
  ∃ dead, stepped (ae_later e) dead [] a a' ∧ (∀ id, dead id → outdated (ae_now e) a id).
Proof.
  intros Hi [-> | ->]; [exists (fun _ => False); split; [by apply stepped_refl|by intros ? []]|].
  exists (outdated (ae_now e) a). split; [|auto]. apply retires_stepped; [done|apply _|by apply prune_exact].
Qed.
Lemma authorize_state e id r a : (authorize e id r a).1 = a ∨ (authorize e id r a).1 = prune (ae_now e) a.
Proof.
  unfold authorize. destruct (au_closed a); [by left|]. destruct (negb (permits _ _)); [by left|]. destruct (_ || _); [by left|]. right.
  cbv zeta. destruct (_ ≫= _) as [l|]; [|done]. by destruct (_ || _).
Qed.
Lemma checkLocked_state e le r a : (checkLocked e le r a).1 = a ∨ (checkLocked e le r a).1 = prune (ae_now e) a.
Proof.
  unfold checkLocked. destruct (_ || _); [by left|]. pose proof (authorize_state e (le_grantID le) r a) as Hs.
  destruct (authorize _ _ _ _) as [a1 [[]|]]; [|done]. destruct (negb _); [done|]. by destruct (ae_done e 2).
Qed.
Lemma reading_state e a op : match op with OpAuthorize _ _ | OpActive _ | OpLease _ _ | OpCheck _ _ | OpRemaining _ _ => True | _ => False end →
  step a (e, op) = a ∨ step a (e, op) = prune (ae_now e) a.
Proof.
  destruct op as [x|l|id r|id|o id|p|g| |id r|le r|le r]; try done; intros _; cbn [step].
  - apply authorize_state.
  - unfold Active. destruct (_ || _); [by left|by right].
  - unfold Lease. destruct (_ || _); [by left|]. pose proof (authorize_state e id r a) as Hs.
    destruct (authorize _ _ _ _) as [a1 [[]|]]; [|done]. by destruct (ae_done e 2).
  - unfold Check. destruct (_ || _); [by left|]. apply checkLocked_state.
  - unfold Remaining. destruct (ae_done e 0); [by left|]. destruct (le_lifetime le) as [g|]; [|by left].
    pose proof (checkLocked_state e le r a) as Hs. destruct (checkLocked _ _ _ _) as [a1 [[]|]]; [|done].
    destruct (au_lifetimes a1 !! g); [|done]. by destruct (_ || _).
Qed.

Lemma grant_ok_revision p y : grant_ok p y → gr_PolicyRevision y = Revision p.
Proof. intros Hok. by apply approvalAccounts_ok in Hok as (_ & _ & ? & _). Qed.
Lemma held_ok a id g l : auth_inv a → held a id = Some (g, l) → gl_done l = false ∧ gr_ID (gl_grant l) = id ∧ grant_ok (au_policy a) (gl_grant l).
Proof.
  intros Hi [Hg Hl]%held_grants. destruct (ai_held _ Hi _ _ Hg) as (l' & Hl' & ?). by assert (l' = l) as -> by congruence.
Qed.

(** Whether the policy or the flag changes before or after is the same. *)
Lemma invalidate_set p b id a : invalidate id (a <| au_policy := p |> <| au_closed := b |>) = invalidate id a <| au_policy := p |> <| au_closed := b |>.
Proof. unfold invalidate. change (au_grants (a <| au_policy := p |> <| au_closed := b |>)) with (au_grants a). by destruct (au_grants a !! id). Qed.
Lemma invalidate_all_set p b a : invalidate_all (a <| au_policy := p |> <| au_closed := b |>) = invalidate_all a <| au_policy := p |> <| au_closed := b |>.
Proof.
  unfold invalidate_all. change (au_grants (a <| au_policy := p |> <| au_closed := b |>)) with (au_grants a).
  generalize (map_to_list (au_grants a)).*1. intros ids. revert a. induction ids as [|i ids IH]; intros a; [done|].
  cbn [foldl]. by rewrite invalidate_set, IH.
Qed.
Lemma all_gone t a p b : auth_inv a → stepped t (fun id => is_Some (held a id)) [] a (invalidate_all a <| au_policy := p |> <| au_closed := b |>).
Proof.
  intros Hi. destruct (invalidate_all_retires a Hi) as [Hr Hn]. pose proof (rt_inv _ _ _ Hr) as [J1 J2 J3 J4 J5]. split.
  - intros id g l Hh. apply held_grants in Hh as [Hg _]. cbn in Hg. by rewrite Hn in Hg.
  - intros id x Hh Hd. exfalso. apply Hd. by eexists.
  - intros x Hx. by apply elem_of_nil in Hx.
  - exact (rt_lasts _ _ _ Hr).
  - exact (rt_made _ _ _ Hr).
  - split; cbn; rewrite ?Hn; [done|by intros| |done|rewrite map_size_empty; lia].
    intros g l Hl Hd. specialize (J3 g l Hl Hd). by rewrite Hn in J3.
Qed.
Lemma invalidates_stepped t id a : auth_inv a → stepped t (fun i => i = id) [] a (invalidate id a).
Proof. intros Hi. apply retires_stepped; [done|apply _|by apply invalidate_retires]. Qed.

Lemma step_spec a e op : auth_inv a → ∃ dead, stepped (ae_later e) dead (issued a (e, op)) a (step a (e, op)) ∧
  (∀ id, dead id → ∀ g l, held a id = Some (g, l) → may_go e op a id g l) ∧
  (∀ id g l, held a id = Some (g, l) → ends (gl_grant l) (e, op) = true → dead id).
Proof.
  intros Hi. pose proof (stepped_refl (ae_later e) a Hi) as Hsame.
  assert (Hnone : ∀ op' : Op, (∀ y, ends y (e, op') = false) → ∀ dead : string → Prop, ∀ id g l, held a id = Some (g, l) →
    ends (gl_grant l) (e, op') = true → dead id) by (intros op' Hf dead id g l _ Ht; by rewrite Hf in Ht).
  assert (Hread : ∀ op' : Op, step a (e, op') = a ∨ step a (e, op') = prune (ae_now e) a → issued a (e, op') = [] →
    (∀ y, ends y (e, op') = false) → ∃ dead, stepped (ae_later e) dead (issued a (e, op')) a (step a (e, op')) ∧
    (∀ id, dead id → ∀ g l, held a id = Some (g, l) → may_go e op' a id g l) ∧
    (∀ id g l, held a id = Some (g, l) → ends (gl_grant l) (e, op') = true → dead id)).
  { intros op' Hs -> Hf. destruct (prunes_or_not e a _ Hi Hs) as (dead & Hst & Hd). exists dead. split_and!; [done| |by apply Hnone].
    intros id Hid g l Hh. destruct (Hd id Hid) as (g' & l' & Hh' & Hw). left. congruence. }
  destruct op as [x|ys|id r|id|o id|p|g| |id r|le r|le r]; try (apply Hread; [by apply reading_state|done|done]).
  - destruct (Approve e x a) as [a' res] eqn:E. destruct (Approve_spec _ _ _ _ _ Hi E) as (dead & Hst & Hd).
    exists dead. cbn [step issued fst snd]. rewrite E. split_and!; [done| |by apply Hnone].
    intros id Hid g l Hh. destruct (Hd id Hid) as (g' & l' & Hh' & Hw). left. congruence.
  - exists (fun _ => False). split_and!; [by apply Restore_spec|by intros ? []|by apply Hnone].
  - cbn [step]. unfold Revoke. assert (Hno : (∀ g l, held a id = Some (g, l) → ends (gl_grant l) (e, OpRevoke o id) = false) →
      ∃ dead, stepped (ae_later e) dead (issued a (e, OpRevoke o id)) a a ∧ (∀ i, dead i → ∀ g l, held a i = Some (g, l) → may_go e (OpRevoke o id) a i g l) ∧
      (∀ i g l, held a i = Some (g, l) → ends (gl_grant l) (e, OpRevoke o id) = true → dead i)).
    { intros Hf. exists (fun _ => False). split_and!; [done|by intros ? []|]. intros i g l Hh He. pose proof (held_ok _ _ _ _ Hi Hh) as (_ & Hid & _).
      destruct (decide (i = id)) as [->|Hne]; [by rewrite (Hf g l Hh) in He|]. cbn in He. rewrite !andb_true_iff, !String.eqb_eq in He.
      destruct He as [[_ He] _]. congruence. }
    destruct (au_closed a) eqn:Ec; [apply Hno; intros g l [Hg _]%held_grants; by rewrite (ai_closed _ Hi Ec) in Hg|].
    destruct (negb (validIdentifier o) || negb (validGrantID id)) eqn:Ev.
    { apply Hno. intros g l _. cbn. destruct (validIdentifier o), (validGrantID id); done. }
    destruct (au_grants a !! id ≫= _) as [l|] eqn:El.
    2:{ apply Hno. intros g l [Hg Hl]%held_grants. rewrite Hg in El. cbn in El. congruence. }
    assert (Hh : ∃ g, held a id = Some (g, l)).
    { unfold held. destruct (au_grants a !! id) as [g|]; [|done]. cbn in El |- *. exists g. by rewrite El. }
    destruct Hh as [g Hh]. pose proof (held_ok _ _ _ _ Hi Hh) as (_ & Hid & _).
    destruct (String.eqb_spec (p_OwnerID (gr_Principal (gl_grant l))) o) as [He|Hne].
    + exists (fun i => i = id). split_and!; [by apply invalidates_stepped| |].
      * intros i -> g' l' Hh'. right. left. assert (l' = l) as -> by congruence. cbn. apply orb_false_iff in Ev as [Hv1 Hv2].
        apply negb_false_iff in Hv1, Hv2. rewrite Hv1, Hv2, Hid, He, !String.eqb_refl. done.
      * intros i g' l' Hh' Hend. pose proof (held_ok _ _ _ _ Hi Hh') as (_ & Hid' & _). cbn in Hend. rewrite !andb_true_iff, !String.eqb_eq in Hend.
        destruct Hend as [[_ ?] _]. congruence.
    + apply Hno. intros g' l' Hh'. assert (l' = l) as -> by congruence. cbn. apply andb_false_iff. right. apply String.eqb_neq. congruence.
  - cbn [step]. unfold ReplacePolicy. assert (Hno : (∀ id g l, held a id = Some (g, l) → ends (gl_grant l) (e, OpReplacePolicy p) = false) →
      ∃ dead, stepped (ae_later e) dead [] a a ∧ (∀ i, dead i → ∀ g l, held a i = Some (g, l) → may_go e (OpReplacePolicy p) a i g l) ∧
      (∀ i g l, held a i = Some (g, l) → ends (gl_grant l) (e, OpReplacePolicy p) = true → dead i)).
    { intros Hf. exists (fun _ => False). split_and!; [done|by intros ? []|]. intros i g l Hh He. by rewrite (Hf i g l Hh) in He. }
    destruct (String.eqb (Revision p) "") eqn:Ep; [apply Hno; intros id g l _; cbn; by rewrite Ep|].
    destruct (au_closed a) eqn:Ec; [apply Hno; intros id g l [Hg _]%held_grants; by rewrite (ai_closed _ Hi Ec) in Hg|].
    assert (Hend : ∀ id g l, held a id = Some (g, l) → ends (gl_grant l) (e, OpReplacePolicy p) = negb (String.eqb (Revision p) (Revision (au_policy a)))).
    { intros id g l Hh. pose proof (held_ok _ _ _ _ Hi Hh) as (_ & _ & Hok). cbn. by rewrite Ep, (grant_ok_revision _ _ Hok). }
    destruct (String.eqb_spec (Revision (au_policy a)) (Revision p)) as [He|Hne].
    + apply Hno. intros id g l Hh. by rewrite (Hend _ _ _ Hh), He, String.eqb_refl.
    + exists (fun id => is_Some (held a id)). split_and!; [|intros id _ g l Hh; right; left|intros id g l Hh _; by eexists].
      * assert (Hs : a <| au_policy := p |> = a <| au_policy := p |> <| au_closed := au_closed a |>) by (by destruct a).
        cbn [fst]. rewrite Hs, invalidate_all_set. by apply all_gone.
      * rewrite (Hend _ _ _ Hh). apply negb_true_iff, String.eqb_neq. congruence.
  - cbn [step]. destruct (au_lifetimes a !! g) as [l|] eqn:El.
    2:{ exists (fun _ => False). split_and!; [done|by intros ? []|by apply Hnone]. }
    unfold expire. case_bool_decide as Hg.
    + exists (fun i => i = gr_ID (gl_grant l)). split_and!; [by apply invalidates_stepped| |by apply Hnone].
      intros i -> g' l' [Hg' _]%held_grants. right. right. congruence.
    + exists (fun _ => False). split_and!; [done|by intros ? []|by apply Hnone].
  - exists (fun id => is_Some (held a id)). split_and!; [|intros id _ g l Hh; right; by left|intros id g l Hh _; by eexists].
    cbn [step]. unfold Close. assert (Hs : a <| au_closed := true |> = a <| au_policy := au_policy a |> <| au_closed := true |>) by (by destruct a).
    rewrite Hs, invalidate_all_set. by apply all_gone.
Qed.

(** ** What was granted *)

Section history.
Variable p : option Policy.

Lemma run_ind (P : trace → Authority → Prop) : P [] (made p) →
  (∀ tr e op dead, P tr (run (made p) tr) → auth_inv (run (made p) tr) →
     stepped (ae_later e) dead (issued (run (made p) tr) (e, op)) (run (made p) tr) (step (run (made p) tr) (e, op)) →
     (∀ id, dead id → ∀ g l, held (run (made p) tr) id = Some (g, l) → may_go e op (run (made p) tr) id g l) →
     (∀ id g l, held (run (made p) tr) id = Some (g, l) → ends (gl_grant l) (e, op) = true → dead id) →
     P (tr ++ [(e, op)]) (step (run (made p) tr) (e, op))) →
  ∀ tr, P tr (run (made p) tr) ∧ auth_inv (run (made p) tr).
Proof.
  intros Hz Hs tr. induction tr as [|[e op] tr [IH Hi]] using rev_ind; [by split; [|apply made_inv]|]. rewrite run_snoc.
  destruct (step_spec _ e op Hi) as (dead & Hst & H1 & H2). split; [by eapply Hs|]. by apply (st_inv _ _ _ _ _ Hst).
Qed.
Lemma run_inv tr : auth_inv (run (made p) tr).
Proof. by apply (run_ind (fun _ _ => True)). Qed.
Lemma run_made tr : au_made (run (made p) tr) = true.
Proof.
  apply (run_ind (fun _ a => au_made a = true)); [done|]. intros tr' e op dead IH _ Hst _ _. by rewrite (st_made _ _ _ _ _ Hst).
Qed.
Lemma held_granted tr id g l : held (run (made p) tr) id = Some (g, l) → granted p tr (gl_grant l).
Proof.
  revert id g l. apply (run_ind (fun tr a => ∀ id g l, held a id = Some (g, l) → granted p tr (gl_grant l))); [done|].
  intros tr' e op dead IH Hi Hst _ He id g l Hh. apply granted_snoc.
  destruct (st_old _ _ _ _ _ Hst id g l Hh) as [[Hh' Hd]|(Hx & _)]; [left|by right].
  split; [by eapply IH|]. destruct (ends (gl_grant l) (e, op)) eqn:E; [|done]. by destruct (Hd (He _ _ _ Hh' E)).
Qed.

(** The readings of the clock never go back, and a timer is not early. *)
Definition clock (tr : trace) : list Z := tr ≫= fun x => [t_ns (ae_now x.1); t_ns (ae_later x.1)].
Definition timely (tr : trace) : Prop := ∀ tr1 e g tr2 l, tr = tr1 ++ (e, OpExpire g) :: tr2 →
  au_lifetimes (run (made p) tr1) !! g = Some l → t_ns (gl_timer l) ≤ t_ns (ae_now e).

Lemma issued_spec a x y : auth_inv a → y ∈ issued a x →
  t_ns (gr_IssuedAt y) ≤ t_ns (ae_now x.1) ∧ grant_ok (au_policy a) y.
Proof.
  intros Hi. destruct x as [e op]. unfold issued. cbn [fst snd]. destruct op as [x|ys|id r|id|o id|q|g| |id r|le r|le r]; try by intros Hx%elem_of_nil.
  - destruct (Approve e x a) as [a' [z|]] eqn:E; [|by intros Hx%elem_of_nil]. cbn. intros ->%list_elem_of_singleton. unfold Approve in E.
    destruct (au_closed a); [done|]. destruct (_ || _); [done|]. destruct (approvalAccounts _ _) as [accounts|] eqn:Ea; [|done]. cbv zeta in E.
    destruct (Nat.leb _ _); [done|]. destruct (newGrantID _ _ _); [|done]. injection E as _ <-. cbn. split; [lia|by apply approved_ok].
  - intros Hy. destruct (proj2 (Restore_spec e ys a Hi) y Hy) as [Hw Hok]. split; [|done]. unfold within, Before in Hw. lia.
Qed.
Lemma grant_ok_times q y : grant_ok q y → 0 < t_ns (gr_ExpiresAt y) - t_ns (gr_IssuedAt y) ≤ MaxGrantLifetime.
Proof.
  intros Hok. apply approvalAccounts_ok in Hok as (_ & _ & _ & Hl & _). cbn in Hl.
  unfold Sub, max_duration, MaxGrantLifetime, hour, minute in *. lia.
Qed.
Lemma clock_snoc tr x : clock (tr ++ [x]) = clock tr ++ [t_ns (ae_now x.1); t_ns (ae_later x.1)].
Proof. unfold clock. by rewrite bind_app. Qed.
Lemma sorted_app_le (l : list Z) k x y : Sorted Z.le (l ++ k) → x ∈ l → y ∈ k → x ≤ y.
Proof.
  intros Hs%Sorted_StronglySorted; [|by intros ???; lia]. intros Hx Hy. apply StronglySorted_app in Hs as (Hle & _). by apply Hle.
Qed.
Lemma sorted_prefix (l k : list Z) : Sorted Z.le (l ++ k) → Sorted Z.le l.
Proof.
  intros Hs%Sorted_StronglySorted; [|by intros ???; lia]. apply StronglySorted_app in Hs as (_ & Hl & _). by apply StronglySorted_Sorted.
Qed.

Lemma held_timer tr : Sorted Z.le (clock tr) → ∀ id g l, held (run (made p) tr) id = Some (g, l) →
  t_ns (gr_ExpiresAt (gl_grant l)) ≤ t_ns (gl_timer l).
Proof.
  apply (run_ind (fun tr a => Sorted Z.le (clock tr) → ∀ id g l, held a id = Some (g, l) → t_ns (gr_ExpiresAt (gl_grant l)) ≤ t_ns (gl_timer l)));
    [done|]. intros tr' e op dead IH Hi Hst _ _ Hc id g l Hh. rewrite clock_snoc in Hc.
  destruct (st_old _ _ _ _ _ Hst id g l Hh) as [[Hh' _]|(Hx & _ & _ & ->)]; [eapply IH; [by eapply sorted_prefix|done]|].
  destruct (issued_spec _ _ _ Hi Hx) as [Ht Hok]. apply grant_ok_times in Hok. cbn in Ht |- *. cbn [gl_grant issue] in *.
  assert (Hle : t_ns (ae_now e) ≤ t_ns (ae_later e)).
  { apply (sorted_app_le (clock tr' ++ [t_ns (ae_now e)]) [t_ns (ae_later e)]); [by rewrite <- app_assoc| |by left].
    apply elem_of_app. right. by left. }
  unfold Before. destruct (Z.ltb_spec (t_ns (ae_later e)) (t_ns (gr_IssuedAt (gl_grant l)))); [lia|].
  unfold Sub, max_duration, MaxGrantLifetime, hour, minute in *. lia.
Qed.
Lemma granted_since tr y : granted p tr y → ∃ t, t ∈ clock tr ∧ t_ns (gr_IssuedAt y) ≤ t.
Proof.
  intros (tr1 & x & tr2 & -> & Hy & _). exists (t_ns (ae_now x.1)). split; [|by apply (issued_spec _ _ _ (run_inv tr1) Hy)].
  unfold clock. rewrite bind_app. apply elem_of_app. right. by left.
Qed.
Lemma granted_held tr : Sorted Z.le (clock tr) → timely tr → ∀ y, (∀ t, t ∈ clock tr → t < t_ns (gr_ExpiresAt y)) → granted p tr y →
  ∃ g l, held (run (made p) tr) (gr_ID y) = Some (g, l) ∧ gl_grant l = y.
Proof.
  apply (run_ind (fun tr a => Sorted Z.le (clock tr) → timely tr → ∀ y, (∀ t, t ∈ clock tr → t < t_ns (gr_ExpiresAt y)) → granted p tr y →
    ∃ g l, held a (gr_ID y) = Some (g, l) ∧ gl_grant l = y)).
  { intros _ _ y _ (tr1 & x & tr2 & Heq & _). by destruct tr1. }
  intros tr' e op dead IH Hi Hst Hgo _ Hc Ht y Hnow Hg. rewrite clock_snoc in Hc, Hnow.
  apply granted_snoc in Hg as [[Hg He]|Hnew]; [|by apply (st_new _ _ _ _ _ Hst)].
  assert (Hc' : Sorted Z.le (clock tr')) by by eapply sorted_prefix.
  destruct (IH Hc') with (y := y) as (g & l & Hh & <-); [|intros; apply Hnow, elem_of_app; by left|done|].
  { intros tr1 e1 g tr2 l -> Hl. apply (Ht tr1 e1 g (tr2 ++ [(e, op)]) l); [by rewrite <- app_assoc|done]. }
  exists g, l. split; [|done]. apply (st_kept _ _ _ _ _ Hst); [done|]. intros Hd.
  assert (Hn : t_ns (ae_now e) < t_ns (gr_ExpiresAt (gl_grant l))) by (apply Hnow, elem_of_app; right; by left).
  destruct (Hgo _ Hd g l Hh) as [Hw|[Hw| ->]]; [|congruence|].
  - destruct (granted_since _ _ Hg) as (t & Hin & Hle). pose proof (sorted_app_le _ _ t (t_ns (ae_now e)) Hc Hin ltac:(by left)).
    unfold within, Before in Hw. lia.
  - pose proof (held_timer tr' Hc' _ g l Hh) as Htm. apply held_grants in Hh as [_ Hl].
    pose proof (Ht tr' e g [] l eq_refl Hl). lia.
Qed.

(** What [authorize] looks at. *)
Lemma authorize_ok a e id r : auth_inv a → au_made a = true → (authorize e id r a).2 = Ok tt ↔
  permits (au_policy a) r = true ∧ validGrantID id = true ∧ ∃ g l, held a id = Some (g, l) ∧ within (ae_now e) (gl_grant l) = true ∧
    gr_Principal (gl_grant l) = rq_Principal r ∧ rq_Account r ∈ gr_Accounts (gl_grant l) ∧ gr_PolicyRevision (gl_grant l) = rq_PolicyRevision r.
Proof.
  intros Hi Hm. pose proof (prune_exact (ae_now e) a Hi) as Hp. unfold authorize. rewrite Hm. cbn [negb orb].
  destruct (au_closed a) eqn:Ec.
  { split; [done|]. intros (_ & _ & g & l & [Hg _]%held_grants & _). by rewrite (ai_closed _ Hi Ec) in Hg. }
  destruct (permits (au_policy a) r); [|split; [done|by intros [? _]]]. destruct (validGrantID id); [|split; [done|by intros (_ & ? & _)]]. cbn [negb].
  cbv zeta. assert (Hhp : au_grants (prune (ae_now e) a) !! id ≫= (fun g => au_lifetimes (prune (ae_now e) a) !! g) = snd <$> held (prune (ae_now e) a) id).
  { unfold held. destruct (au_grants (prune (ae_now e) a) !! id) as [g|]; [|done]. cbn. by destruct (_ !! g). }
  rewrite Hhp. destruct (decide (outdated (ae_now e) a id)) as [Ho|Ho].
  - assert (Hn : held (prune (ae_now e) a) id = None) by (apply held_none; apply Hp; done). rewrite Hn. cbn.
    split; [done|]. intros (_ & _ & g & l & Hh & Hw & _). destruct Ho as (g' & l' & Hh' & Hw'). congruence.
  - destruct (rt_kept _ _ _ Hp id Ho) as [-> _]. destruct (held a id) as [[g l]|] eqn:Hh; cbn.
    2:{ split; [done|]. by intros (_ & _ & g & l & ? & _). }
    assert (Hw : within (ae_now e) (gl_grant l) = true).
    { destruct (within _ _) eqn:E; [done|]. exfalso. apply Ho. by exists g, l. }
    destruct (_ || _) eqn:Eb.
    + split; [done|]. intros (_ & _ & g' & l' & [= <- <-] & _ & H1 & H2 & H3). exfalso. rewrite !orb_true_iff, !negb_true_iff in Eb.
      destruct Eb as [[Eb|Eb]|Eb]; [by apply bool_decide_eq_false in Eb|by apply String.eqb_neq in Eb|by apply bool_decide_eq_false in Eb].
    + rewrite !orb_false_iff, !negb_false_iff in Eb. destruct Eb as [[E1 E2] E3].
      apply bool_decide_eq_true in E1, E3. apply String.eqb_eq in E2. split; [|done]. intros _. split_and!; try done. by exists g, l.
Qed.

Lemma within_spec now y : within now y = true ↔ t_ns (gr_IssuedAt y) ≤ t_ns now < t_ns (gr_ExpiresAt y).
Proof. unfold within, Before. lia. Qed.
(** [y] covers the request at the instant of [e]. *)
Definition covers e id r (y : Grant) : Prop :=
  gr_ID y = id ∧ t_ns (gr_IssuedAt y) ≤ t_ns (ae_now e) < t_ns (gr_ExpiresAt y) ∧ gr_Principal y = rq_Principal r ∧ rq_Account r ∈ gr_Accounts y ∧
  gr_PolicyRevision y = rq_PolicyRevision r.

Lemma covers_held a e id r g l : auth_inv a → held a id = Some (g, l) → within (ae_now e) (gl_grant l) = true →
  gr_Principal (gl_grant l) = rq_Principal r → rq_Account r ∈ gr_Accounts (gl_grant l) →
  gr_PolicyRevision (gl_grant l) = rq_PolicyRevision r → covers e id r (gl_grant l).
Proof. intros Hi Hh Hw%within_spec. by destruct (held_ok _ _ _ _ Hi Hh) as (_ & ? & _). Qed.

(** C5. A request is authorized exactly while a grant that was approved, or
    restored, for its principal, account and policy is alive: nobody revoked
    it, no other policy came and the authority was not closed since, and its
    time is not over.  Whatever the clock does, nothing else is authorized;
    with a clock that does not go back and timers that are not early, nothing
    less. *)
Theorem authorized_while_granted tr e id r : let a := run (made p) tr in
  let allowed := permits (au_policy a) r = true ∧ validGrantID id = true ∧ ∃ y, granted p tr y ∧ covers e id r y in
  ((authorize e id r a).2 = Ok tt → allowed) ∧
  (Sorted Z.le (clock (tr ++ [(e, OpAuthorize id r)])) → timely tr → allowed → (authorize e id r a).2 = Ok tt).
Proof.
  intros a allowed. subst a allowed. pose proof (run_inv tr) as Hi. rewrite (authorize_ok _ e id r Hi (run_made tr)). split.
  - intros (Hp & Hv & g & l & Hh & Hw & H1 & H2 & H3). split_and!; try done. exists (gl_grant l). split; [by eapply held_granted|by apply (covers_held _ _ _ _ g l Hi)].
  - intros Hc Ht (Hp & Hv & y & Hg & <- & Hw & H1 & H2 & H3). split_and!; try done. rewrite clock_snoc in Hc.
    destruct (granted_held tr) with (y := y) as (g & l & Hh & <-); [by eapply sorted_prefix|done| |done|apply within_spec in Hw; by exists g, l].
    intros t Hin. pose proof (sorted_app_le _ _ t (t_ns (ae_now e)) Hc Hin ltac:(by left)). lia.
Qed.

Lemma run_app a tr1 tr2 : run a (tr1 ++ tr2) = run (run a tr1) tr2.
Proof. unfold run. by rewrite foldl_app. Qed.
Lemma run_lasts a tr : auth_inv a → lasts a (run a tr).
Proof.
  revert a. induction tr as [|[e op] tr IH]; intros a Hi; [apply lasts_refl|]. destruct (step_spec a e op Hi) as (dead & Hst & _).
  eapply lasts_trans; [apply (st_lasts _ _ _ _ _ Hst)|]. apply IH, (st_inv _ _ _ _ _ Hst).
Qed.
Lemma Lease_ok a e id r le : (Lease e id r a).2 = Ok le → le_grantID le = id ∧ le_request le = r ∧
  (authorize e id r a).2 = Ok tt ∧ (Lease e id r a).1 = (authorize e id r a).1 ∧ le_lifetime le = au_grants (authorize e id r a).1 !! id.
Proof.
  unfold Lease. destruct (_ || _); [done|]. destruct (authorize e id r a) as [a1 [[]|]]; [|done]. destruct (ae_done e 2); [done|]. by intros [= <-].
Qed.
Lemma Check_ok a e le r : (Check e le r a).2 = Ok tt →
  same_scope r (le_request le) = true ∧ (authorize e (le_grantID le) r a).2 = Ok tt ∧
  au_grants (authorize e (le_grantID le) r a).1 !! le_grantID le = le_lifetime le.
Proof.
  unfold Check. destruct (_ || _); [done|]. unfold checkLocked. destruct (_ || _) eqn:E; [done|]. apply orb_false_iff in E as [Es%negb_false_iff _].
  destruct (authorize _ _ _ _) as [a1 [[]|]]; [|done]. destruct (negb _) eqn:Eg; [done|]. destruct (ae_done e 2); [done|]. intros _.
  apply negb_false_iff, bool_decide_eq_true in Eg. done.
Qed.
(** A grant that is authorized was there before, and still is. *)
Lemma authorize_keeps a e id r : auth_inv a → au_made a = true → (authorize e id r a).2 = Ok tt →
  held (authorize e id r a).1 id = held a id ∧ au_grants (authorize e id r a).1 !! id = au_grants a !! id ∧ is_Some (held a id).
Proof.
  intros Hi Hm Ha. apply (authorize_ok a e id r Hi Hm) in Ha as (_ & _ & g & l & Hh & Hw & _).
  destruct (authorize_state e id r a) as [->| ->]; [split_and!; [done..|by eexists]|].
  destruct (rt_kept _ _ _ (prune_exact (ae_now e) a Hi) id) as [-> ->]; [|split_and!; [done..|by eexists]].
  intros (g' & l' & Hh' & Hw'). congruence.
Qed.

Lemma run_inv_from a tr : auth_inv a → auth_inv (run a tr).
Proof.
  revert a. induction tr as [|[e op] tr IH]; intros a Hi; [done|]. destruct (step_spec a e op Hi) as (dead & Hst & _).
  apply IH, (st_inv _ _ _ _ _ Hst).
Qed.
(** The generation [g] of an identity, later. *)
Lemma generation_later a tr id g l : auth_inv a → held a id = Some (g, l) → ∃ d,
  au_lifetimes (run a tr) !! g = Some (mkLifetime (gl_grant l) d (gl_timer l)) ∧ (d = true ↔ au_grants (run a tr) !! id ≠ Some g).
Proof.
  intros Hi Hh. pose proof (run_inv_from a tr Hi) as Hi'. destruct (held_ok _ _ _ _ Hi Hh) as (_ & Hid & _). apply held_grants in Hh as [_ Hl].
  destruct (run_lasts a tr Hi g l Hl) as (d & Hd & _). exists d. split; [done|]. split.
  - intros -> Hg. destruct (ai_held _ Hi' _ _ Hg) as (l' & Hl' & Hdone & _). rewrite Hd in Hl'. by injection Hl' as <-.
  - intros Hn. destruct d; [done|]. exfalso. apply Hn. rewrite <- Hid. exact (ai_live _ Hi' _ _ Hd eq_refl).
Qed.
Lemma check_passes a tr id g l le e r' : auth_inv a → au_made (run a tr) = true → held a id = Some (g, l) →
  le_grantID le = id → le_lifetime le = Some g → (Check e le r' (run a tr)).2 = Ok tt →
  Done le (run a tr) = false ∧ same_scope r' (le_request le) = true ∧ permits (au_policy (run a tr)) r' = true ∧ covers e id r' (gl_grant l).
Proof.
  intros Hi Hm Hh <- Hle Hck. pose proof (run_inv_from a tr Hi) as Hi'. destruct (Check_ok _ _ _ _ Hck) as (Hs & Ha & Hg).
  destruct (authorize_keeps _ _ _ _ Hi' Hm Ha) as (_ & Hkeep & _). rewrite Hkeep, Hle in Hg.
  destruct (generation_later a tr _ g l Hi Hh) as (d & Hd & Hiff).
  apply (authorize_ok _ _ _ _ Hi' Hm) in Ha as (Hp & _ & g' & l' & Hh' & Hw & H1 & H2 & H3).
  pose proof (held_grants _ _ _ _ Hh') as [Hg' Hl']. assert (g' = g) as -> by congruence. rewrite Hd in Hl'. injection Hl' as <-. cbn [gl_grant] in *.
  assert (Hcov : covers e (le_grantID le) r' (gl_grant l)) by by apply (covers_held a _ _ _ g).
  split_and!; try apply Hcov; try done. unfold Done. rewrite Hle. cbn. rewrite Hd. cbn. destruct d; [|done]. by destruct (proj1 Hiff eq_refl).
Qed.

(** C10. A lease lives and dies with the generation of its grant: its channel is
    closed exactly when that generation is gone, for good, and never twice;
    from then on no check of the lease passes, whatever grant has its identity
    by then.  A check that passes is in the scope the lease was made for, under
    the policy of the moment, within the original time of the grant. *)
Theorem lease_dies_with_its_grant tr1 e1 id r le tr2 : (Lease e1 id r (run (made p) tr1)).2 = Ok le →
  let a2 := run (made p) (tr1 ++ (e1, OpLease id r) :: tr2) in
  ∃ y, granted p tr1 y ∧ covers e1 id r y ∧
  au_panicked a2 = false ∧
  (Done le a2 = true ↔ au_grants a2 !! id ≠ le_lifetime le) ∧
  (∀ e r', (Check e le r' a2).2 = Ok tt →
     Done le a2 = false ∧ same_scope r' r = true ∧ permits (au_policy a2) r' = true ∧ covers e id r' y) ∧
  (Done le a2 = true → ∀ tr3 e r', Done le (run a2 tr3) = true ∧ (Check e le r' (run a2 tr3)).2 ≠ Ok tt).
Proof.
  intros HL a2. pose proof (run_inv tr1) as Hi. destruct (Lease_ok _ _ _ _ _ HL) as (Hid & Hr & Ha & H1 & Hg).
  destruct (authorize_keeps _ _ _ _ Hi (run_made tr1) Ha) as (_ & Hkeep & _). rewrite Hkeep in Hg.
  apply (authorize_ok _ _ _ _ Hi (run_made tr1)) in Ha as (_ & _ & g & l & Hh & Hw & Hc1 & Hc2 & Hc3).
  pose proof (held_grants _ _ _ _ Hh) as [Hgr _]. rewrite Hgr in Hg.
  assert (Hdone : ∀ tr d, au_lifetimes (run (run (made p) tr1) tr) !! g = Some (mkLifetime (gl_grant l) d (gl_timer l)) →
    Done le (run (run (made p) tr1) tr) = d) by (intros tr d Hd; unfold Done; rewrite Hg; cbn; by rewrite Hd).
  assert (Hck : ∀ tr e r', (Check e le r' (run (run (made p) tr1) tr)).2 = Ok tt → Done le (run (run (made p) tr1) tr) = false ∧
    same_scope r' r = true ∧ permits (au_policy (run (run (made p) tr1) tr)) r' = true ∧ covers e id r' (gl_grant l)).
  { intros tr e r'. rewrite <- Hr. apply (check_passes _ tr id g l le e r' Hi); try done. rewrite <- run_app. apply run_made. }
  exists (gl_grant l). subst a2. rewrite run_app. destruct (generation_later _ ((e1, OpLease id r) :: tr2) id g l Hi Hh) as (d & Hd & Hiff).
  assert (Hcov : covers e1 id r (gl_grant l)) by by apply (covers_held _ _ _ _ g l Hi).
  split; [by eapply held_granted|split; [exact Hcov|split_and!]].
  - rewrite <- run_app. apply run_inv.
  - by rewrite (Hdone _ _ Hd), Hg.
  - apply Hck.
  - intros Hdn tr3 e r'. rewrite (Hdone _ _ Hd) in Hdn. subst d. rewrite <- run_app.
    destruct (generation_later _ (((e1, OpLease id r) :: tr2) ++ tr3) id g l Hi Hh) as (d' & Hd' & _).
    assert (d' = true) as ->.
    { rewrite run_app in Hd'. destruct (run_lasts _ tr3 (run_inv_from _ ((e1, OpLease id r) :: tr2) Hi) g _ Hd) as (d2 & Hd2 & Hm).
      rewrite Hd2 in Hd'. injection Hd' as <-. by apply Hm. }
    split; [by apply Hdone|]. intros Hok%Hck. destruct Hok as [Hok _]. rewrite (Hdone _ _ Hd') in Hok. done.
Qed.

(** C22. Whatever is approved, restored and replaced: at most [MaxActiveGrants]
    grants are alive, none after [Close]; each is within the policy of the
    moment and lasts at most [MaxGrantLifetime] from its approval; and what
    [Remaining] answers is what is left of that time. *)
Theorem grants_within_policy tr : let a := run (made p) tr in
  (size (au_grants a) ≤ MaxActiveGrants)%nat ∧ (au_closed a = true → au_grants a = ∅) ∧
  (∀ id g, au_grants a !! id = Some g → ∃ l, au_lifetimes a !! g = Some l ∧ let y := gl_grant l in
     gr_ID y = id ∧ 0 < t_ns (gr_ExpiresAt y) - t_ns (gr_IssuedAt y) ≤ MaxGrantLifetime ∧ gr_PolicyRevision y = Revision (au_policy a) ∧
     ∀ alias, alias ∈ gr_Accounts y → AllowsPrincipal (au_policy a) (gr_Principal y) alias = true) ∧
  (∀ e le r d, (Remaining e le r a).2 = Ok d → 0 < d ≤ MaxGrantLifetime ∧
     ∃ y, granted p tr y ∧ covers e (le_grantID le) r y ∧ d = t_ns (gr_ExpiresAt y) - t_ns (ae_later e)).
Proof.
  intros a. pose proof (run_inv tr) as Hi. fold a in Hi. pose proof Hi as [I1 I2 I3 I4 I5]. split_and!; [done|done| |].
  - intros id g Hg. destruct (I2 id g Hg) as (l & Hl & _ & Hid & Hok). exists l. split; [done|]. cbv zeta. split_and!; [done|by eapply grant_ok_times..| |].
    + by apply grant_ok_revision.
    + intros alias Hin. apply approvalAccounts_ok in Hok as (_ & Hv & _ & _ & _ & Hacc). destruct (Hacc alias Hin) as (Hva & pol & account & Hp & Hal & Hpr).
      unfold AllowsPrincipal. rewrite Hp, Hal. cbn in Hv, Hpr. rewrite Hv, Hva. cbn. by apply bool_decide_eq_true.
  - intros e le r d Hr. unfold Remaining in Hr. destruct (ae_done e 0); [done|]. destruct (le_lifetime le) as [g|] eqn:Eg; [|done].
    unfold checkLocked in Hr. destruct (_ || _); [done|].
    destruct (authorize e (le_grantID le) r a) as [a1 [[]|]] eqn:Ea; [|done]. destruct (negb _) eqn:Eh; [done|].
    apply negb_false_iff, bool_decide_eq_true in Eh. rewrite Eg in Eh. destruct (ae_done e 2); [done|].
    destruct (au_lifetimes a1 !! g) as [l|] eqn:El; [|done]. destruct (_ || _) eqn:Eb; [done|]. injection Hr as <-.
    apply orb_false_iff in Eb as [Eb _]. assert (Hok : (authorize e (le_grantID le) r a).2 = Ok tt) by by rewrite Ea.
    pose proof (authorize_keeps _ _ _ _ Hi (run_made tr) Hok) as (Hh & _ & _). rewrite Ea in Hh. cbn [fst] in Hh.
    assert (Hh1 : held a1 (le_grantID le) = Some (g, l)) by (unfold held; rewrite Eh; cbn; by rewrite El). rewrite Hh1 in Hh. symmetry in Hh.
    apply (authorize_ok _ _ _ _ Hi (run_made tr)) in Hok as (_ & _ & g' & l' & Hh' & Hw & H1 & H2 & H3).
    assert (l' = l) as -> by congruence. unfold Sub, max_duration, MaxGrantLifetime, hour, minute in *. split; [lia|].
    exists (gl_grant l). split; [by eapply held_granted|split; [by apply (covers_held _ _ _ _ g l Hi)|lia]].
Qed.
End history.
End runs.

(** ** Policies *)

Section policies.
Context `{UnicodeCase, NetLibrary, Sha256}.

(** The rules of two configurations, in whatever order. *)
Definition same_rule (r s : AccountRule) : Prop :=
  ru_Alias r = ru_Alias s ∧ ru_VaultID r = ru_VaultID s ∧ ru_ItemID r = ru_ItemID s ∧ ru_Origins r ≡ₚ ru_Origins s ∧
  ru_Principals r ≡ₚ ru_Principals s ∧ ru_Login r = ru_Login s ∧ ru_GitHub r = ru_GitHub s ∧ ru_DiscoverLogins r = ru_DiscoverLogins s.
Definition same_rules (l k : list AccountRule) : Prop := ∃ m, l ≡ₚ m ∧ Forall2 same_rule m k.

Definition origin_of (raw o : string) : Prop := credentialOrigin raw = Ok o.
Lemma rule_origins_ok raws : ∀ acc out, rule_origins raws acc = Ok out ↔
  ∃ os, Forall2 origin_of raws os ∧ out = acc ++ os ∧ NoDup os ∧ ∀ o, o ∈ os → o ∉ acc.
Proof.
  induction raws as [|raw raws IH]; intros acc out; cbn.
  - split; [intros [= <-]; exists []; split_and!; [constructor|by rewrite app_nil_r|constructor|set_solver]|].
    intros (os & Hf & -> & _). apply Forall2_nil_inv_l in Hf as ->. by rewrite app_nil_r.
  - destruct (credentialOrigin raw) as [o|] eqn:Eo.
    2:{ split; [done|]. intros (os & Hf & _). inversion Hf as [|? o ? ? Ho]; subst. unfold origin_of in Ho. congruence. }
    rewrite reject_ok, bool_decide_eq_false, IH. split.
    + intros (Hn & os & Hf & -> & Hnd & Hd). exists (o :: os). split_and!.
      * by constructor.
      * by rewrite <- app_assoc.
      * constructor; [|done]. intros Hin. apply (Hd o Hin). set_solver.
      * intros o' [->|Hin]%elem_of_cons; [done|]. specialize (Hd o' Hin). set_solver.
    + intros (os & Hf & -> & Hnd & Hd). inversion Hf as [|? o' ? os' Ho Hf']; subst. unfold origin_of in Ho. assert (o' = o) as -> by congruence.
      apply NoDup_cons in Hnd as [Hni Hnd]. split; [apply Hd; by left|]. exists os'. split_and!; [done|by rewrite <- app_assoc|done|].
      intros o' Hin. specialize (Hd o' ltac:(by right)). set_solver.
Qed.
Lemma rule_origins_err raws acc x : rule_origins raws acc = Err x → x = ErrInvalidPolicy.
Proof.
  revert acc. induction raws as [|raw raws IH]; intros acc; cbn; [done|]. destruct (credentialOrigin raw); [|by intros [= <-]].
  case_bool_decide; [by intros [= <-]|apply IH].
Qed.
Lemma rule_origins_perm raws raws' out : raws ≡ₚ raws' → rule_origins raws [] = Ok out →
  ∃ out', rule_origins raws' [] = Ok out' ∧ out ≡ₚ out'.
Proof.
  intros Hp (os & Hf & -> & Hnd & _)%rule_origins_ok. destruct (Permutation_Forall2 Hp Hf) as (os' & Hp' & Hf').
  exists os'. split; [|done]. apply rule_origins_ok. exists os'. split_and!; [done|done|by rewrite <- Hp'|set_solver].
Qed.
Lemma rule_principals_ok l : ∀ seen out, rule_principals l seen = Ok out ↔
  Forall (fun x => validPrincipal x = true) l ∧ NoDup l ∧ (∀ x, x ∈ l → x ∉ seen) ∧ out = list_to_set l ∪ seen.
Proof.
  induction l as [|x l IH]; intros seen out; cbn.
  - split; [intros [= <-]; split_and!; [constructor|constructor|set_solver|set_solver]|]. intros (_ & _ & _ & ->). f_equal. set_solver.
  - rewrite !reject_ok, negb_false_iff, bool_decide_eq_false, IH, NoDup_cons, Forall_cons. split.
    + intros (Hv & Hs & Hf & Hnd & Hd & ->). split_and!; try done; [..|set_solver].
      * intros Hin. apply (Hd x Hin). set_solver.
      * intros y [->|Hin]%elem_of_cons; [done|]. specialize (Hd y Hin). set_solver.
    + intros ([Hv Hf] & [Hni Hnd] & Hd & ->). split_and!; try done; [apply Hd; by left|..|set_solver].
      intros y Hin. specialize (Hd y ltac:(by right)). set_solver.
Qed.
Lemma rule_principals_perm l k : l ≡ₚ k → rule_principals l ∅ = rule_principals k ∅.
Proof.
  intros Hp. assert (Hok : ∀ l k out, l ≡ₚ k → rule_principals l ∅ = Ok out → rule_principals k ∅ = Ok out).
  { intros l' k' out Hp' (Hf & Hnd & Hd & ->)%rule_principals_ok. apply rule_principals_ok. split_and!; [by rewrite <- Hp'|by rewrite <- Hp'|set_solver|].
    apply leibniz_equiv. by rewrite Hp'. }
  assert (Herr : ∀ l seen x, rule_principals l seen = Err x → x = ErrInvalidPolicy).
  { intros l'. induction l' as [|y l' IH]; intros seen x; cbn; [done|]. destruct (negb _); [by intros [= <-]|].
    case_bool_decide; [by intros [= <-]|apply IH]. }
  destruct (rule_principals l ∅) as [out|x] eqn:E; [by rewrite (Hok _ _ _ Hp E)|].
  destruct (rule_principals k ∅) as [out|x'] eqn:E'; [rewrite (Hok k l out) in E; [done|by symmetry|done]|].
  by rewrite (Herr _ _ _ E), (Herr _ _ _ E').
Qed.

Lemma before_total s t P Q : P ∨ Q → before_str s t P ∨ before_str t s Q.
Proof.
  unfold before_str. intros HPQ. destruct (decide (s = t)) as [<- | Hne].
  - destruct (total str_le s s), HPQ; [left|right|left|right]; done.
  - destruct (total str_le s t); [left|right]; (split; [done|]); intros ->; done.
Qed.
#[local] Instance principal_le_total : Total principal_le.
Proof. intros x y. unfold principal_le. do 3 apply before_total. apply (total str_le). Qed.
Lemma before_trans s t u P Q R : before_str s t P → before_str t u Q → (P → Q → R) → before_str s u R.
Proof.
  intros [L1 HP] [L2 HQ] HR. split; [by etrans|]. intros <-. assert (s = t) as <- by by apply (anti_symm str_le). auto.
Qed.
#[local] Instance principal_le_trans : Transitive principal_le.
Proof.
  intros x y z Hx Hy. unfold principal_le in *. eapply before_trans; [exact Hx|exact Hy|]. clear. intros Hx Hy.
  eapply before_trans; [exact Hx|exact Hy|]. clear. intros Hx Hy. eapply before_trans; [exact Hx|exact Hy|]. apply transitivity.
Qed.
#[local] Instance principal_le_antisymm : AntiSymm (=) principal_le.
Proof.
  intros [a b c d] [a' b' c' d'] [L1 E1] [L2 E2]. cbn in *. assert (a = a') as <- by by apply (anti_symm str_le).
  destruct (E1 eq_refl) as [L3 E3], (E2 eq_refl) as [L4 E4]. assert (b = b') as <- by by apply (anti_symm str_le).
  destruct (E3 eq_refl) as [L5 E5], (E4 eq_refl) as [L6 E6]. assert (c = c') as <- by by apply (anti_symm str_le).
  f_equal. apply (anti_symm str_le); auto.
Qed.

Lemma nil_perm {A} (l k : list A) : l ≡ₚ k → (length l =? 0)%nat = (length k =? 0)%nat.
Proof. by intros ->. Qed.
Lemma canonical_rule_same (r s : AccountRule) : same_rule r s → canonical_rule r = canonical_rule s.
Proof.
  intros (Ha & Hv & Hi & Ho & Hp & Hl & Hg & Hd). unfold canonical_rule.
  rewrite Ha, Hv, Hi, Hl, Hg, Hd, (rule_principals_perm _ _ Hp), (merge_sort_unique principal_le _ _ Hp).
  rewrite (Permutation_length Ho), (Permutation_length Hp).
  destruct (rule_origins (ru_Origins r) []) as [o|x] eqn:E.
  - destruct (rule_origins_perm _ _ _ Ho E) as (o' & -> & Hoo). cbn. by rewrite (merge_sort_unique str_le _ _ Hoo).
  - destruct (rule_origins (ru_Origins s) []) as [o|x'] eqn:E'.
    + symmetry in Ho. destruct (rule_origins_perm _ _ _ Ho E') as (? & ? & _). congruence.
    + by rewrite (rule_origins_err _ _ _ E), (rule_origins_err _ _ _ E').
Qed.
Lemma rule_principals_err l seen x : rule_principals l seen = Err x → x = ErrInvalidPolicy.
Proof.
  revert seen. induction l as [|y l IH]; intros seen; cbn; [done|]. destruct (negb _); [by intros [= <-]|].
  case_bool_decide; [by intros [= <-]|apply IH].
Qed.
Lemma canonical_rule_err (r : AccountRule) x : canonical_rule r = Err x → x = ErrInvalidPolicy.
Proof.
  unfold canonical_rule. destruct (_ || _); [by intros [= <-]|]. destruct (if ru_DiscoverLogins r then _ else _); [by intros [= <-]|].
  destruct (rule_origins _ _) as [o|] eqn:Eo; [|intros [= <-]; by eapply rule_origins_err]. cbn.
  destruct (rule_principals _ _) as [q|] eqn:Ep; [|intros [= <-]; by eapply rule_principals_err]. cbn.
  destruct (ru_Login r) as [f|]; [destruct (NormalizeLoginFlow _ _); [|by intros [= <-]]|]; cbn.
  - destruct (ru_GitHub r); [|done]. by intros [= <-].
  - destruct (ru_GitHub r) as [g|]; [|done]. destruct (negb _); [by intros [= <-]|]. destruct (normalizeGitHubReadScope g); [done|by intros [= <-]].
Qed.
Lemma canonical_rule_alias (r : AccountRule) c : canonical_rule r = Ok c → ru_Alias c.1 = ru_Alias r.
Proof.
  unfold canonical_rule. intros [_ [_ Hk]%reject_ok]%reject_ok.
  apply result_bind_ok in Hk as (? & _ & (? & _ & (? & _ & (? & _ & [= <-])%result_bind_ok)%result_bind_ok)%result_bind_ok). done.
Qed.

Lemma matched {A B} (P : A → B → Prop) l k x : Forall2 P l k → x ∈ l → ∃ y, y ∈ k ∧ P x y.
Proof.
  intros Hf [i Hi]%list_elem_of_lookup. destruct (Forall2_lookup_l _ _ _ _ _ Hf Hi) as (y & Hy & HP). exists y. split; [|done].
  by eapply list_elem_of_lookup_2.
Qed.
Lemma matched_back {A B} (P : A → B → Prop) l k y : Forall2 P l k → y ∈ k → ∃ x, x ∈ l ∧ P x y.
Proof. intros Hf%Forall2_flip. exact (matched _ _ _ _ Hf). Qed.
Definition keyed (c : AccountRule * accountPolicy) : string * accountPolicy := (ru_Alias c.1, c.2).
Definition canonical_of (r : AccountRule) c : Prop := canonical_rule r = Ok c.
Lemma canonical_aliases rules cs : Forall2 canonical_of rules cs → (keyed <$> cs).*1 = ru_Alias <$> rules.
Proof. induction 1 as [|r c rules cs Hc _ IH]; [done|]. csimpl. by rewrite IH, (canonical_rule_alias _ _ Hc). Qed.
Lemma canonical_rules_ok rules : ∀ accounts normalized out, canonical_rules rules accounts normalized = Ok out ↔
  ∃ cs, Forall2 canonical_of rules cs ∧ NoDup (ru_Alias <$> rules) ∧ (∀ alias, alias ∈ ru_Alias <$> rules → accounts !! alias = None) ∧
    out = (list_to_map (keyed <$> cs) ∪ accounts, normalized ++ cs.*1).
Proof.
  induction rules as [|r rules IH]; intros accounts normalized out; cbn.
  - split.
    + intros [= <-]. exists []. split_and!; [constructor|constructor|set_solver|]. cbn. by rewrite (left_id_L ∅ (∪)), app_nil_r.
    + intros (cs & Hf & _ & _ & ->). apply Forall2_nil_inv_l in Hf as ->. cbn. by rewrite (left_id_L ∅ (∪)), app_nil_r.
  - destruct (canonical_rule r) as [[c acc]|x] eqn:E.
    2:{ split; [done|]. intros (cs & Hf & _). inversion Hf as [|? ? ? ? Hc]; subst. unfold canonical_of in Hc. congruence. }
    pose proof (canonical_rule_alias _ _ E) as Hal. cbn in Hal. rewrite reject_ok, bool_decide_eq_false, IH.
    rewrite <- eq_None_not_Some. split.
    + intros (Hn & cs & Hf & Hnd & Hd & ->). exists ((c, acc) :: cs). split_and!.
      * by constructor.
      * constructor; [|done]. intros Hin%Hd. by rewrite lookup_insert_eq in Hin.
      * intros alias [-> | Hin]%elem_of_cons; [done|]. apply Hd in Hin. by apply lookup_insert_None in Hin as [].
      * csimpl. rewrite <- app_assoc. f_equal. change (keyed (c, acc)) with (ru_Alias c, acc). cbn [list_to_map foldr uncurry fst snd]. rewrite Hal, <- insert_union_l, insert_union_r; [done|].
        apply not_elem_of_list_to_map_1. rewrite (canonical_aliases _ _ Hf). intros Hin%Hd. by rewrite lookup_insert_eq in Hin.
    + intros (cs & Hf & Hnd & Hd & ->). inversion Hf as [|? c' ? cs' Hc Hf']; subst. unfold canonical_of in Hc. rewrite E in Hc. injection Hc as <-.
      apply NoDup_cons in Hnd as [Hni Hnd]. split; [apply Hd; by left|]. exists cs'. split_and!; [done|done| |].
      * intros alias Hin. apply lookup_insert_None. split; [apply Hd; by right|]. by intros <-.
      * csimpl. rewrite <- app_assoc. f_equal. change (keyed (c, acc)) with (ru_Alias c, acc). cbn [list_to_map foldr uncurry fst snd]. rewrite Hal, <- insert_union_l, insert_union_r; [done|].
        apply not_elem_of_list_to_map_1. by rewrite (canonical_aliases _ _ Hf').
Qed.
Lemma canonical_rules_err rules accounts normalized x : canonical_rules rules accounts normalized = Err x → x = ErrInvalidPolicy.
Proof.
  revert accounts normalized. induction rules as [|r rules IH]; intros accounts normalized; cbn; [done|].
  destruct (canonical_rule r) as [[c acc]|] eqn:E; [|intros [= <-]; by eapply canonical_rule_err]. case_bool_decide; [by intros [= <-]|apply IH].
Qed.
Lemma NewPolicy_ok rules pol : NewPolicy rules = Ok pol ↔ (length rules ≤ MaxAccounts)%nat ∧ NoDup (ru_Alias <$> rules) ∧
  ∃ cs, Forall2 canonical_of rules cs ∧ pol = mkPolicy (revision_of (merge_sort alias_le cs.*1)) (list_to_map (keyed <$> cs)).
Proof.
  unfold NewPolicy. rewrite reject_ok, Nat.ltb_ge, result_bind_ok. setoid_rewrite canonical_rules_ok. split.
  - intros (Hl & x & (cs & Hf & Hnd & _ & ->) & [= <-]). split_and!; [done..|]. exists cs. by rewrite (right_id_L ∅ (∪)).
  - intros (Hl & Hnd & cs & Hf & ->). split; [done|]. eexists. split; [exists cs; split_and!; [done|done|set_solver|done]|].
    by rewrite (right_id_L ∅ (∪)).
Qed.
Lemma NewPolicy_err rules x : NewPolicy rules = Err x → x = ErrInvalidPolicy.
Proof.
  unfold NewPolicy. destruct (_ <? _)%nat; [by intros [= <-]|]. destruct (canonical_rules _ _ _) eqn:E; [done|].
  intros [= <-]. by eapply canonical_rules_err.
Qed.
#[local] Instance alias_le_trans : Transitive alias_le.
Proof. intros x y z. apply (transitivity (R := str_le)). Qed.
#[local] Instance alias_le_total : Total alias_le.
Proof. intros x y. apply (total str_le). Qed.
Lemma by_alias_unique (l k : list AccountRule) : NoDup (ru_Alias <$> l) → l ≡ₚ k → merge_sort alias_le l = merge_sort alias_le k.
Proof.
  intros Hnd Hp. apply (Sorted_unique_strong alias_le); [|apply Sorted_merge_sort; apply _..|by rewrite !merge_sort_Permutation].
  intros x y Hx Hy Hxy Hyx. rewrite merge_sort_Permutation in Hx, Hy. rewrite <- Hp in Hy. assert (Ha : ru_Alias x = ru_Alias y) by by apply (anti_symm str_le).
  apply list_elem_of_lookup in Hx as [i Hx], Hy as [j Hy]. assert (i = j) as ->; [|congruence].
  eapply (NoDup_lookup (ru_Alias <$> l)); [done|rewrite list_lookup_fmap; by rewrite Hx|rewrite list_lookup_fmap, Hy; cbn; by rewrite Ha].
Qed.
Lemma NewPolicy_perm l k pol : l ≡ₚ k → NewPolicy l = Ok pol → NewPolicy k = Ok pol.
Proof.
  intros Hp (Hl & Hnd & cs & Hf & ->)%NewPolicy_ok. destruct (Permutation_Forall2 Hp Hf) as (cs' & Hpc & Hf').
  apply NewPolicy_ok. split_and!; [by rewrite <- Hp|by rewrite <- Hp|]. exists cs'. split; [done|].
  pose proof (canonical_aliases _ _ Hf) as Hk. f_equal.
  - f_equal. apply by_alias_unique; [|by rewrite Hpc]. replace (ru_Alias <$> cs.*1) with ((keyed <$> cs).*1); [by rewrite Hk|].
    by rewrite <- !list_fmap_compose.
  - apply list_to_map_proper; [by rewrite Hk|by rewrite Hpc].
Qed.

(** A policy depends on the rules of the configuration and not on the order
    in which they are written: not on that of the rules, nor on that of the
    origins and principals of a rule.  Its revision is the same, so that what
    was approved under one is approved under the other. *)
Theorem policy_order_independent rules rules' : same_rules rules rules' → NewPolicy rules = NewPolicy rules'.
Proof.
  intros (m & Hp & Hs). transitivity (NewPolicy m).
  - destruct (NewPolicy rules) as [pol|x] eqn:E; [by rewrite (NewPolicy_perm _ _ _ Hp E)|].
    destruct (NewPolicy m) as [pol|x'] eqn:E'; [symmetry in Hp; rewrite (NewPolicy_perm _ _ _ Hp E') in E; done|].
    by rewrite (NewPolicy_err _ _ E), (NewPolicy_err _ _ E').
  - assert (Hc : ∀ accounts normalized, canonical_rules m accounts normalized = canonical_rules rules' accounts normalized).
    { clear Hp. induction Hs as [|x y m k Hxy _ IH]; intros accounts normalized; [done|]. cbn. rewrite (canonical_rule_same _ _ Hxy).
      destruct Hxy as [-> _]. destruct (canonical_rule y) as [[c acc]|]; [|done]. by rewrite IH. }
    unfold NewPolicy. by rewrite Hc, (Forall2_length _ _ _ Hs).
Qed.

Lemma canonical_rule_ok (x : AccountRule) c acc : canonical_rule x = Ok (c, acc) →
  validIdentifier (ru_Alias x) = true ∧ Forall (fun p => validPrincipal p = true) (ru_Principals x) ∧
  ac_discoverLogins acc = ru_DiscoverLogins x ∧ (∀ p, p ∈ ac_principals acc ↔ p ∈ ru_Principals x) ∧
  ∀ o, o ∈ ac_origins acc ↔ ∃ raw, raw ∈ ru_Origins x ∧ origin_of raw o.
Proof.
  unfold canonical_rule. rewrite !reject_ok, !orb_false_iff, !negb_false_iff. intros (((( ? & _) & _) & _) & _ & Hk).
  apply result_bind_ok in Hk as (os & Ho & (ps & Hp & (? & _ & (? & _ & [= _ <-])%result_bind_ok)%result_bind_ok)%result_bind_ok).
  apply rule_origins_ok in Ho as (os' & Hf & -> & _). apply rule_principals_ok in Hp as (Hv & _ & _ & ->). cbn. split_and!; try done.
  - set_solver.
  - intros o. rewrite merge_sort_Permutation. split; [intros Hin; by destruct (matched_back _ _ _ _ Hf Hin) as (raw & ? & ?); exists raw|].
    intros (raw & Hin & Hr). destruct (matched _ _ _ _ Hf Hin) as (o' & Hin' & Hr'). unfold origin_of in *. congruence.
Qed.

(** C25. A policy permits a request exactly when the operator configured it: the
    request names the revision of the policy, the account of a rule, a principal
    of that rule, and an origin that stands for one the rule names, or any
    acceptable origin where the rule discovers logins. *)
Theorem permits_exact rules pol r : NewPolicy rules = Ok pol → po_revision pol ≠ "" →
  permits (Some pol) r = true ↔ rq_PolicyRevision r = po_revision pol ∧
  ∃ rule origin, rule ∈ rules ∧ ru_Alias rule = rq_Account r ∧ rq_Principal r ∈ ru_Principals rule ∧ origin_of (rq_Origin r) origin ∧
    (ru_DiscoverLogins rule = true ∨ ∃ raw, raw ∈ ru_Origins rule ∧ origin_of raw origin).
Proof.
  intros (_ & Hnd & cs & Hf & Hpol)%NewPolicy_ok Hne. assert (Hk : NoDup (keyed <$> cs).*1) by by rewrite (canonical_aliases _ _ Hf).
  assert (Hacc : ∀ alias acc, po_accounts pol !! alias = Some acc ↔ ∃ rule c, rule ∈ rules ∧ ru_Alias rule = alias ∧ canonical_rule rule = Ok (c, acc)).
  { intros alias acc. rewrite Hpol. cbn. rewrite <- elem_of_list_to_map by done. rewrite list_elem_of_fmap. split.
    - intros ([c acc'] & [= -> ->] & Hin). destruct (matched_back _ _ _ _ Hf Hin) as (rule & Hr & Hc). exists rule, c.
      split_and!; [done|symmetry; exact (canonical_rule_alias _ _ Hc)|done].
    - intros (rule & c & Hin & <- & Hc). destruct (matched _ _ _ _ Hf Hin) as (c' & Hin' & Hc'). exists c'. unfold canonical_of in Hc'.
      rewrite Hc in Hc'. injection Hc' as <-. split; [|done]. unfold keyed. cbn. f_equal. symmetry. exact (canonical_rule_alias _ _ Hc). }
  unfold permits. rewrite (proj2 (String.eqb_neq _ _) Hne), orb_false_l. split.
  - destruct (_ || _) eqn:Eb; [done|]. rewrite !orb_false_iff, !negb_false_iff in Eb. destruct Eb as [[Er%String.eqb_eq _] _].
    destruct (po_accounts pol !! rq_Account r) as [acc|] eqn:Ea; [|done]. apply Hacc in Ea as (rule & c & Hin & Hal & Hc).
    apply canonical_rule_ok in Hc as (_ & _ & Hd & Hp & Ho). case_bool_decide as Hpr; [|done].
    destruct (credentialOrigin (rq_Origin r)) as [o|] eqn:Eo; [|done]. rewrite orb_true_iff, bool_decide_eq_true, Hd, Ho. intros Hor.
    split; [done|]. exists rule, o. split_and!; try done. by apply Hp.
  - intros (Hr & rule & o & Hin & Hal & Hpr & Ho & Hor). destruct (matched _ _ _ _ Hf Hin) as ([c acc] & _ & Hc).
    assert (Ha : po_accounts pol !! rq_Account r = Some acc) by (apply Hacc; by exists rule, c).
    apply canonical_rule_ok in Hc as (Hv & Hvp & Hd & Hp & Hos). rewrite Forall_forall in Hvp.
    rewrite Hr, String.eqb_refl, <- Hal, Hv, (Hvp _ Hpr). cbn. rewrite Hal, Ha, bool_decide_true by by apply Hp. unfold origin_of in Ho. rewrite Ho.
    apply orb_true_iff. rewrite bool_decide_eq_true, Hd, Hos. done.
Qed.
End policies.

(** ** At concrete inputs *)

#[local] Instance small_case : UnicodeCase :=
  {| rune_lower := fun x => if (65 <=? x) && (x <=? 90) then x + 32 else x; rune_fold := fun x => x |}.
(** It parses a scheme, a host and a path. *)
#[local] Instance small_net : NetLibrary :=
  {| url_Parse := fun raw =>
       if has_prefix "https://" raw then
         match split_at "/" (string_drop 8 raw) with
         | [] => None
         | [host] => Some (mkURL "https" "" false host "" "" "" false "")
         | host :: path => Some (mkURL "https" "" false host ("/" +:+ join "/" path) "" "" false "")
         end
       else None;
     ParseAddr := fun _ => None; Addr_String := fun _ => "" |}.
#[local] Instance small_hash : Sha256 := fun t => "#" +:+ t.

Definition alice : Principal := mkPrincipal "alice" "cli" "main" "host".
Definition bob : Principal := mkPrincipal "bob" "cli" "main" "host".
Definition mail_rule : AccountRule :=
  mkRule "mail" "vault" "mail-item" ["https://Mail.example.com/"; "https://login.example.com:443"] [alice; bob] None None false.
Definition shop_rule : AccountRule := mkRule "shop" "vault" "" [] [alice] None None true.
Definition small_policy : Policy :=
  match NewPolicy [mail_rule; shop_rule] with Ok p => p | Err _ => mkPolicy "" ∅ end.
Definition mail_request : Request := mkRequest alice "mail" "https://mail.example.com" (po_revision small_policy).
Definition at_hour (h : Z) : AuthEnv := mkAuthEnv (mkTime (h * hour + 1) 0) (mkTime (h * hour + 2) 0) [Some (replicate 32 0xa7)] (fun _ => false).
Definition a_grant : string := hex_string (replicate 32 0xa7).
Definition approved : trace := [(at_hour 0, OpApprove (mkApproval alice ["shop"; "mail"] (po_revision small_policy) (2 * hour)))].
Definition mail_lease : GrantLease := mkLease a_grant mail_request (Some 0%nat).

Example origin_is_canonical : credentialOrigin "https://Mail.example.com:443/" = Ok "https://mail.example.com".
Proof. vm_compute. reflexivity. Qed.
Example numbers_are_addresses : NormalizePublicOrigin "https://0x7f.1" = Err NotPublic ∧ NormalizePublicOrigin "https://0x8080808" = Ok "https://8.8.8.8".
Proof. vm_compute. done. Qed.
Example expired_by_then : (authorize (at_hour 2) a_grant mail_request (run (made (Some small_policy)) approved)).2 = Err ErrApprovalRequired.
Proof. vm_compute. reflexivity. Qed.

Lemma authorized_while_granted_witness :
  (∃ y, granted (Some small_policy) approved y ∧ covers (at_hour 1) a_grant mail_request y) ∧
  (authorize (at_hour 1) a_grant mail_request (run (made (Some small_policy)) approved)).2 = Ok tt.
Proof.
  pose proof (authorized_while_granted (Some small_policy) approved (at_hour 1) a_grant mail_request) as [Hin Hout].
  assert (Ha := Hin ltac:(by vm_compute)). split; [by destruct Ha as (_ & _ & Hy)|]. apply Hout; [|..|exact Ha].
  - vm_compute. repeat constructor; done.
  - intros tr1 e g tr2 l Htr. destruct tr1 as [|? [|]]; discriminate.
Defined.
Lemma lease_dies_with_its_grant_witness :
  let a2 := run (made (Some small_policy)) (approved ++ [(at_hour 1, OpLease a_grant mail_request); (at_hour 1, OpRevoke "alice" a_grant)]) in
  (Lease (at_hour 1) a_grant mail_request (run (made (Some small_policy)) approved)).2 = Ok mail_lease ∧
  ∀ tr3 e r', Done mail_lease (run a2 tr3) = true ∧ (Check e mail_lease r' (run a2 tr3)).2 ≠ Ok tt.
Proof.
  assert (HL : (Lease (at_hour 1) a_grant mail_request (run (made (Some small_policy)) approved)).2 = Ok mail_lease) by by vm_compute.
  split; [exact HL|].
  destruct (lease_dies_with_its_grant _ _ _ _ _ _ [(at_hour 1, OpRevoke "alice" a_grant)] HL) as (y & _ & _ & _ & _ & _ & Hd).
  apply Hd. by vm_compute.
Defined.
Lemma policy_order_independent_witness : NewPolicy [shop_rule; mail_rule] = Ok small_policy.
Proof.
  transitivity (NewPolicy [mkRule "mail" "vault" "mail-item" (rev (ru_Origins mail_rule)) [bob; alice] None None false; shop_rule]); [|by vm_compute].
  apply policy_order_independent. exists [mail_rule; shop_rule]. split; [constructor|].
  repeat constructor.
Defined.
Lemma permits_exact_witness : permits (Some small_policy) mail_request = true.
Proof.
  apply (permits_exact [mail_rule; shop_rule]); [by vm_compute|by vm_compute|]. split; [done|].
  exists mail_rule, "https://mail.example.com". split_and!; [by left|done|by left|by vm_compute|]. right.
  exists "https://Mail.example.com/". split; [by left|by vm_compute].
Defined.
