(* ===== verification/UpdateManifest.v ===== *)
(** Package [pkg/nodes/update], manifest.go and executable.go: the signed
    manifest of a release of the node companion, and the order of release
    versions, which is a total order.

    The strict JSON decoder, base64, Ed25519, [time.Parse] and the readers of
    ELF and Mach-O headers are parameters. *)
From Stdlib Require Import Ascii.
From S2P Require Import Prelude GoStrings GoJson GoTime GoText CodingScope.
#[local] Open Scope Z_scope.

(** ** Release versions *)

(** [strings.Cut(s, c)]; [None] when [c] is not in [s]. *)
Fixpoint cut (c : ascii) (s : string) : string * option string :=
  match s with
  | "" => ("", None)
  | String a s => if Ascii.eqb a c then ("", Some s) else let '(before, after) := cut c s in (String a before, after)
  end.
Definition allDecimal (value : string) : bool := negb (String.eqb value "") && forallb digit (bytes value).

(** Zero, or digits of which the first is not zero. *)
Definition numeric (s : string) : bool :=
  match bytes s with [] => false | b :: l => (b =? 48) && (length l =? 0)%nat || in_range 49 57 b && forallb digit l end.
(** A letter or digit, then letters, digits and hyphens. *)
Definition identifier : string → bool :=
  matches (fun b => upper b || lower b || digit b) (fun b => upper b || lower b || digit b || (b =? 45)).
(** Three numbers, then possibly a hyphen and identifiers.  A core has no
    hyphen, so that the first one of the text begins the prerelease. *)
Definition releasePattern (value : string) : bool :=
  has_prefix "v" value &&
  let '(core, prerelease) := cut "-" (trim_prefix "v" value) in
  let parts := split_at "." core in
  (length parts =? 3)%nat && forallb numeric parts
  && match prerelease with None => true | Some p => forallb identifier (split_at "." p) end.
Definition ValidReleaseVersion (value : string) : bool :=
  if (len value =? 0) || (128 <? len value) || negb (releasePattern value) then false
  else match (cut "-" value).2 with
  | None => true
  | Some prerelease =>
      forallb (fun i => negb ((1 <? len i) && has_prefix "0" i && allDecimal i)) (split_at "." prerelease)
  end.

Definition decimal (s : string) : Z := foldl (fun n b => n * 10 + (b - 48)) 0 (bytes s).
Definition compareDecimal (left right : string) : Z :=
  if decimal left <? decimal right then -1 else if decimal right <? decimal left then 1 else 0.
(** [strings.Compare] *)
Definition compare_strings (left right : string) : Z :=
  if String.eqb left right then 0 else if bool_decide (str_le left right) then -1 else 1.

(** The loop over the parts of the core, which are as many on both sides. *)
Fixpoint compare_core (l r : list string) : Z :=
  match l, r with
  | x :: l, y :: r => let c := compareDecimal x y in if c =? 0 then compare_core l r else c
  | _, _ => 0
  end.
Definition compare_identifier (left right : string) : Z :=
  match allDecimal left, allDecimal right with
  | true, true => compareDecimal left right
  | true, false => -1
  | false, true => 1
  | false, false => compare_strings left right
  end.
Fixpoint compare_prerelease (l r : list string) : Z :=
  match l, r with
  | x :: l, y :: r => let c := compare_identifier x y in if c =? 0 then compare_prerelease l r else c
  | _, _ => Z.of_nat (length l) - Z.of_nat (length r)
  end.
Definition CompareReleaseVersions (left right : string) : Z :=
  if negb (ValidReleaseVersion left) || negb (ValidReleaseVersion right) then 0 else
  let '(leftCore, leftPrerelease) := cut "-" (trim_prefix "v" left) in
  let '(rightCore, rightPrerelease) := cut "-" (trim_prefix "v" right) in
  let c := compare_core (split_at "." leftCore) (split_at "." rightCore) in
  if negb (c =? 0) then c else
  match leftPrerelease, rightPrerelease with
  | None, None => 0
  | None, Some _ => 1
  | Some _, None => -1
  | Some l, Some r => compare_prerelease (split_at "." l) (split_at "." r)
  end.

(** ** Manifests *)

Definition ManifestSchemaV1 : Z := 1.
Definition SignatureSchemaV1 : Z := 1.
Definition MaxManifestBytes : Z := 64 * 1024.
Definition MaxSignatureBytes : Z := 4 * 1024.
Definition MaxNodeArtifactBytes : Z := 128 * 1024 * 1024.
Definition CurrentCoordinatorAPI : Z := 1.
Definition CurrentNodeProtocol : Z := 1.
Definition CurrentNodeConfig : Z := 1.
Definition minimumVersionMaxBytes : Z := 64.
Definition ExpectedArtifactCount : nat := 4.

Definition ChannelStable : string := "stable".
Definition ChannelNightly : string := "nightly".
Record Artifact := mkArtifact { at_Platform : string; at_Architecture : string; at_Name : string; at_Size : Z; at_SHA256 : string }.
Record Manifest := mkManifest {
  mf_SchemaVersion : Z; mf_Release : string; mf_Channel : string; mf_PublishedAt : string; mf_ExpiresAt : string;
  mf_MinimumCoordinatorVersion : string; mf_CoordinatorAPI : Z; mf_NodeProtocol : Z; mf_NodeConfig : Z; mf_Artifacts : list Artifact }.
Record Signature := mkSignature { sg_SchemaVersion : Z; sg_Algorithm : string; sg_KeyID : string; sg_Value : string }.
Record TrustedKey := mkTrustedKey { tk_KeyID : string; tk_PublicKey : string }.

(** What an executable file says of itself: its format, its machine, and
    whether its type is one that runs ([ET_EXEC], [ET_DYN], [TypeExec]). *)
Inductive Format := ELF | MachO.
Inductive Machine := X86_64 | AArch64 | OtherMachine.
#[export] Instance Format_eq_dec : EqDecision Format. Proof. solve_decision. Defined.
#[export] Instance Machine_eq_dec : EqDecision Machine. Proof. solve_decision. Defined.

Class UpdateLibrary := {
  time_Parse : string → option Time;
  json_Manifest : string → option Manifest;
  json_Signature : string → option Signature;
  base64_Decode : string → option string;
  ed25519_Verify : string → string → string → bool;
  NewFile : string → option (Format * Machine * bool) }.

Inductive ManifestError := ErrInvalidManifest | ErrUntrustedRelease.

Section manifest.
Context `{Sha256} `{UpdateLibrary}.

Definition hex_lower_digits (s : string) : bool := forallb hex_lower (bytes s).
Definition validDigest (value : string) : bool := (len value =? 64) && hex_lower_digits value.
Definition parseManifestTime (value : string) : option Time :=
  match time_Parse value with
  | None => None
  | Some parsed => if IsZero parsed || negb (t_ns parsed mod minute =? 0) || negb (t_zone parsed =? 0) then None else Some parsed
  end.

Definition expectedName (a : Artifact) : string :=
  "mintclaw-node_" +:+ (if String.eqb (at_Platform a) "linux" then "Linux" else "Darwin") +:+ "_"
  +:+ (if String.eqb (at_Architecture a) "amd64" then "x86_64" else "arm64") +:+ ".tar.gz".
Definition Artifact_Validate (a : Artifact) : result ManifestError () :=
  reject negb (String.eqb (at_Platform a) "linux") && negb (String.eqb (at_Platform a) "darwin") with ErrInvalidManifest ;;
  reject negb (String.eqb (at_Architecture a) "amd64") && negb (String.eqb (at_Architecture a) "arm64") with ErrInvalidManifest ;;
  reject negb (String.eqb (at_Name a) (expectedName a)) with ErrInvalidManifest ;;
  reject (at_Size a <=? 0) || (MaxNodeArtifactBytes <? at_Size a) with ErrInvalidManifest ;;
  reject negb (validDigest (at_SHA256 a)) with ErrInvalidManifest ;;
  Ok tt.
Definition tuple (a : Artifact) : string := at_Platform a +:+ "/" +:+ at_Architecture a.
Fixpoint validate_artifacts (prior : string) (seen : list string) (l : list Artifact) : result ManifestError (list string) :=
  match l with
  | [] => Ok seen
  | a :: l =>
      Artifact_Validate a ≫= fun _ =>
      reject bool_decide (tuple a ∈ seen) || negb (String.eqb prior "") && bool_decide (str_le (tuple a) prior) with ErrInvalidManifest ;;
      validate_artifacts (tuple a) (tuple a :: seen) l
  end.
Definition channel_fits (release channel : string) : bool :=
  let prerelease := contains release "-" in
  negb (String.eqb channel ChannelStable && prerelease || String.eqb channel ChannelNightly && negb prerelease).
Definition Manifest_Validate (m : Manifest) : result ManifestError () :=
  reject negb (mf_SchemaVersion m =? ManifestSchemaV1) || negb (ValidReleaseVersion (mf_Release m)) with ErrInvalidManifest ;;
  reject negb (String.eqb (mf_Channel m) ChannelStable) && negb (String.eqb (mf_Channel m) ChannelNightly) with ErrInvalidManifest ;;
  reject negb (channel_fits (mf_Release m) (mf_Channel m)) with ErrInvalidManifest ;;
  match parseManifestTime (mf_PublishedAt m), parseManifestTime (mf_ExpiresAt m) with
  | Some publishedAt, Some expiresAt =>
      reject negb (Before publishedAt expiresAt) || (90 * 24 * hour <? Sub expiresAt publishedAt) with ErrInvalidManifest ;;
      reject (minimumVersionMaxBytes <? len (mf_MinimumCoordinatorVersion m)) || negb (ValidReleaseVersion (mf_MinimumCoordinatorVersion m))
             || negb (mf_CoordinatorAPI m =? CurrentCoordinatorAPI) || negb (mf_NodeProtocol m =? CurrentNodeProtocol)
             || negb (mf_NodeConfig m =? CurrentNodeConfig) with ErrInvalidManifest ;;
      reject negb (length (mf_Artifacts m) =? ExpectedArtifactCount)%nat with ErrInvalidManifest ;;
      seen ← validate_artifacts "" [] (mf_Artifacts m);
      reject negb (forallb (fun t => bool_decide (t ∈ seen)) ["darwin/amd64"; "darwin/arm64"; "linux/amd64"; "linux/arm64"])
        with ErrInvalidManifest ;;
      Ok tt
  | _, _ => Err ErrInvalidManifest
  end.

Definition decodeStrict {A} (decode : string → option A) (data : string) (maximum : Z) : option A :=
  if (len data =? 0) || (maximum <? len data) then None else decode data.
Definition ParseManifest (data : string) : result ManifestError Manifest :=
  match decodeStrict json_Manifest data MaxManifestBytes with
  | None => Err ErrInvalidManifest
  | Some m => Manifest_Validate m ≫= fun _ => Ok m
  end.
Definition KeyID (publicKey : string) : string := sha256_hex publicKey.
Definition VerifyAt (manifestData signatureData : string) (trusted : TrustedKey) (now : Time) : result ManifestError Manifest :=
  reject negb (len (tk_PublicKey trusted) =? 32) || negb (String.eqb (tk_KeyID trusted) (KeyID (tk_PublicKey trusted)))
    with ErrUntrustedRelease ;;
  match decodeStrict json_Signature signatureData MaxSignatureBytes with
  | None => Err ErrUntrustedRelease
  | Some sg =>
      reject negb (sg_SchemaVersion sg =? SignatureSchemaV1) || negb (String.eqb (sg_Algorithm sg) "ed25519")
             || negb (String.eqb (sg_KeyID sg) (tk_KeyID trusted)) with ErrUntrustedRelease ;;
      match base64_Decode (sg_Value sg) with
      | None => Err ErrUntrustedRelease
      | Some value =>
          reject negb (len value =? 64) || negb (ed25519_Verify (tk_PublicKey trusted) manifestData value) with ErrUntrustedRelease ;;
          m ← ParseManifest manifestData;
          match parseManifestTime (mf_PublishedAt m), parseManifestTime (mf_ExpiresAt m) with
          | Some publishedAt, Some expiresAt =>
              reject Before now (Add publishedAt (- (5 * minute))) || negb (Before now expiresAt) with ErrUntrustedRelease ;;
              Ok m
          | _, _ => Err ErrUntrustedRelease
          end
      end
  end.

Definition ValidateExecutable (file platform architecture : string) : bool :=
  let expected := if String.eqb architecture "arm64" then Some AArch64 else if String.eqb architecture "amd64" then Some X86_64 else None in
  let reads format :=
    match NewFile file, expected with
    | Some (f, machine, runs), Some e => bool_decide (f = format) && bool_decide (machine = e) && runs
    | _, _ => false
    end in
  if String.eqb platform "linux" then reads ELF else if String.eqb platform "darwin" then reads MachO else false.
End manifest.

(** ** The order of versions *)

(** A three-way comparison, as a number, orders the texts of [P] totally. *)
Record orders {A} (P : A → Prop) (c : A → A → Z) : Prop := {
  or_eq : ∀ x y, P x → P y → c x y = 0 ↔ x = y;
  or_anti : ∀ x y, P x → P y → c x y < 0 ↔ 0 < c y x;
  or_trans : ∀ x y z, P x → P y → P z → c x y < 0 → c y z < 0 → c x z < 0 }.

(** *** Numbers *)

Definition dec (l : list Z) : Z := foldl (fun n b => n * 10 + (b - 48)) 0 l.
Lemma dec_snoc l b : dec (l ++ [b]) = dec l * 10 + (b - 48).
Proof. unfold dec. by rewrite foldl_app. Qed.
(** Digits that do not begin with a zero, possibly none. *)
Definition plain (l : list Z) : Prop := Forall (fun b => 48 ≤ b ≤ 57) l ∧ head l ≠ Some 48.
Lemma plain_prefix l b : plain (l ++ [b]) → plain l ∧ 48 ≤ b ≤ 57.
Proof.
  intros [Hf Hh]. apply Forall_app in Hf as [Hf [Hb _]%Forall_cons]. split; [|done]. split; [done|]. by destruct l.
Qed.
Lemma dec_range l : plain l → 0 ≤ dec l ∧ (l ≠ [] → 0 < dec l).
Proof.
  induction l as [|b l IH] using rev_ind; [intros _; by cbn|]. intros Hp. rewrite dec_snoc. destruct (plain_prefix _ _ Hp) as [Hl Hb].
  destruct (IH Hl) as [H1 H2]. split; [lia|]. intros _. destruct l as [|a l]; [|specialize (H2 ltac:(done)); lia].
  destruct Hp as [_ Hh]. cbn in Hh |- *. assert (b ≠ 48) by congruence. unfold dec. cbn. lia.
Qed.
Lemma dec_inj l k : plain l → plain k → dec l = dec k → l = k.
Proof.
  revert k. induction l as [|b l IH] using rev_ind; intros k Hl Hk He.
  - destruct k as [|d k]; [done|]. pose proof (proj2 (dec_range _ Hk) ltac:(done)). change (dec []) with 0 in He. lia.
  - destruct k as [|d k _] using rev_ind; [pose proof (proj2 (dec_range _ Hl) ltac:(by destruct l)); change (dec []) with 0 in He; lia|].
    rewrite !dec_snoc in He. destruct (plain_prefix _ _ Hl) as [Hl' Hb], (plain_prefix _ _ Hk) as [Hk' Hd].
    assert (b = d) as -> by lia. f_equal. apply IH; [done..|lia].
Qed.
Lemma bytes_inj s t : bytes s = bytes t → s = t.
Proof. intros E. by rewrite <- (of_bytes_bytes s), <- (of_bytes_bytes t), E. Qed.
Lemma digit_spec b : digit b = true ↔ 48 ≤ b ≤ 57.
Proof. unfold digit, in_range. lia. Qed.
Lemma numeric_plain s : numeric s = true → bytes s = [48] ∨ plain (bytes s) ∧ bytes s ≠ [].
Proof.
  unfold numeric. destruct (bytes s) as [|b l]; [done|]. rewrite orb_true_iff, !andb_true_iff, forallb_forall. intros [[Hb Hl]|[Hb Hl]].
  - left. destruct l; [|done]. f_equal. lia.
  - right. unfold in_range in Hb. split; [|done]. split; [|cbn; intros [= ->]; lia].
    constructor; [lia|]. apply Forall_forall. intros x Hx. apply digit_spec, Hl, list_elem_of_In, Hx.
Qed.
Lemma decimal_inj s t : numeric s = true → numeric t = true → decimal s = decimal t → s = t.
Proof.
  change (decimal s) with (dec (bytes s)). change (decimal t) with (dec (bytes t)). assert (Hz : dec [48] = 0) by done.
  intros [Hs|[Hs Hsn]]%numeric_plain [Ht|[Ht Htn]]%numeric_plain He; apply bytes_inj.
  - congruence.
  - rewrite Hs, Hz in He. pose proof (proj2 (dec_range _ Ht) Htn). lia.
  - rewrite Ht, Hz in He. pose proof (proj2 (dec_range _ Hs) Hsn). lia.
  - by apply dec_inj.
Qed.
Lemma decimals_ordered : orders (fun s => numeric s = true) compareDecimal.
Proof.
  unfold compareDecimal. split; [|intros; repeat case_match; lia..].
  intros x y Hx Hy. split; [|intros ->; by rewrite Z.ltb_irrefl]. intros Hc. apply decimal_inj; [done..|]. repeat case_match; lia.
Qed.
(** *** Texts *)

Lemma compare_strings_lt x y : compare_strings x y < 0 ↔ x ≠ y ∧ str_le x y.
Proof.
  unfold compare_strings. destruct (String.eqb_spec x y); [split; [lia|by intros []]|].
  case_bool_decide; [by split|split; [lia|by intros []]].
Qed.
Lemma compare_strings_gt x y : 0 < compare_strings x y ↔ x ≠ y ∧ str_le y x.
Proof.
  unfold compare_strings. destruct (String.eqb_spec x y) as [|Hne]; [split; [lia|by intros []]|]. case_bool_decide as Hle.
  - split; [lia|]. intros [_ ?]. by destruct Hne; apply (anti_symm str_le).
  - split; [|done]. intros _. split; [done|]. by destruct (total str_le x y).
Qed.
Lemma strings_ordered : orders (fun _ => True) compare_strings.
Proof.
  split.
  - intros x y _ _. unfold compare_strings. destruct (String.eqb_spec x y); [done|]. by case_bool_decide.
  - intros x y _ _. rewrite compare_strings_lt, compare_strings_gt. naive_solver.
  - intros x y z _ _ _. rewrite !compare_strings_lt. intros [Hxy L1] [Hyz L2]. split; [|by etrans].
    intros ->. by destruct Hxy; apply (anti_symm str_le).
Qed.

(** *** Identifiers, and lists of them *)

Definition good_identifier (i : string) : Prop :=
  identifier i = true ∧ ((1 <? len i) && has_prefix "0" i && allDecimal i) = false.
Lemma byte_cases (s : string) : s = "" ∨ ∃ a t, s = String a t ∧ bytes s = byte_of a :: bytes t.
Proof. destruct s as [|a t]; [by left|right]. by exists a, t. Qed.
Lemma good_numeric i : good_identifier i → allDecimal i = true → numeric i = true.
Proof.
  intros [_ Hz] Hd. unfold allDecimal in Hd. apply andb_true_iff in Hd as [Hne Hd]. rewrite negb_true_iff, String.eqb_neq in Hne.
  destruct i as [|a t]; [done|]. unfold numeric. change (bytes (String a t)) with (byte_of a :: bytes t) in *. cbn [forallb] in Hd.
  apply andb_true_iff in Hd as [Ha Ht]. rewrite Ht, andb_true_r. destruct (Z.eqb_spec (byte_of a) 48) as [E|E]; cbn.
  - assert (a = "0"%char) as ->.
    { unfold byte_of in E. rewrite <- (ascii_N_embedding a). by replace (N_of_ascii a) with 48%N by lia. }
    destruct t as [|b t]; [done|]. exfalso. unfold allDecimal in Hz. cbn [negb String.eqb] in Hz.
    change (bytes (String "0" (String b t))) with (48 :: bytes (String b t)) in Hz. cbn [forallb] in Hz. rewrite Ht in Hz.
    change (has_prefix "0" (String "0" (String b t))) with (String.prefix "" (String b t)) in Hz. cbn in Hz.
    rewrite !andb_true_r in Hz. apply Z.ltb_ge in Hz. unfold len in Hz. cbn [String.length] in Hz. lia.
  - apply digit_spec in Ha. unfold in_range. lia.
Qed.
Lemma identifiers_ordered : orders good_identifier compare_identifier.
Proof.
  destruct decimals_ordered as [D1 D2 D3], strings_ordered as [S1 S2 S3]. unfold compare_identifier. split.
  - intros x y Hx Hy. destruct (allDecimal x) eqn:Ex, (allDecimal y) eqn:Ey; [|split; [done|congruence]..|by apply S1].
    apply D1; by apply good_numeric.
  - intros x y Hx Hy. destruct (allDecimal x) eqn:Ex, (allDecimal y) eqn:Ey; [|lia..|by apply S2].
    apply D2; by apply good_numeric.
  - intros x y z Hx Hy Hz. destruct (allDecimal x) eqn:Ex, (allDecimal y) eqn:Ey, (allDecimal z) eqn:Ez; try lia; [|by apply S3].
    apply D3; by apply good_numeric.
Qed.
Lemma core_ordered n : orders (fun l => length l = n ∧ Forall (fun s => numeric s = true) l) compare_core.
Proof.
  destruct decimals_ordered as [D1 D2 D3]. induction n as [|n [I1 I2 I3]].
  { split; [intros [] []|intros [] []|intros [] [] []]; cbn; naive_solver lia. }
  split.
  - intros [|a l] [|b k] Hl Hk; try by destruct Hl, Hk. destruct Hl as [[= Hl] [Ha Hfl]%Forall_cons], Hk as [[= Hk] [Hb Hfk]%Forall_cons]. cbn.
    destruct (Z.eqb_spec (compareDecimal a b) 0) as [E|E].
    + apply D1 in E as ->; [|done..]. rewrite I1 by done. split; [by intros ->|by intros [= ->]].
    + split; [done|]. intros [= -> ->]. by destruct E; apply D1.
  - intros [|a l] [|b k] Hl Hk; try by destruct Hl, Hk. destruct Hl as [[= Hl] [Ha Hfl]%Forall_cons], Hk as [[= Hk] [Hb Hfk]%Forall_cons]. cbn.
    pose proof (D1 a b Ha Hb). pose proof (D1 b a Hb Ha).
    destruct (Z.eqb_spec (compareDecimal a b) 0), (Z.eqb_spec (compareDecimal b a) 0); [by apply I2|naive_solver..|by apply D2].
  - intros [|a l] [|b k] [|c m] Hl Hk Hm; try by destruct Hl, Hk, Hm.
    destruct Hl as [[= Hl] [Ha Hfl]%Forall_cons], Hk as [[= Hk] [Hb Hfk]%Forall_cons], Hm as [[= Hm] [Hc Hfm]%Forall_cons]. cbn.
    destruct (Z.eqb_spec (compareDecimal a b) 0) as [E1|E1], (Z.eqb_spec (compareDecimal b c) 0) as [E2|E2].
    + apply D1 in E1 as ->, E2 as ->; [|done..]. rewrite (proj2 (D1 c c Hc Hc) eq_refl). by apply I3.
    + apply D1 in E1 as ->; [|done..]. intros _ Hlt. destruct (Z.eqb_spec (compareDecimal b c) 0); [done|exact Hlt].
    + apply D1 in E2 as ->; [|done..]. intros Hlt _. destruct (Z.eqb_spec (compareDecimal a c) 0); [done|exact Hlt].
    + intros L1 L2. pose proof (D3 a b c Ha Hb Hc L1 L2). destruct (Z.eqb_spec (compareDecimal a c) 0); lia.
Qed.
Lemma prerelease_ordered : orders (Forall good_identifier) compare_prerelease.
Proof.
  destruct identifiers_ordered as [D1 D2 D3]. split.
  - intros l k Hl. revert k. induction Hl as [|a l Ha Hl IH]; intros [|b k] Hk; cbn; [done|split; [lia|done]..|].
    apply Forall_cons in Hk as [Hb Hk]. destruct (Z.eqb_spec (compare_identifier a b) 0) as [E|E].
    + apply D1 in E as ->; [|done..]. rewrite IH by done. split; [by intros ->|by intros [= ->]].
    + split; [done|]. intros [= -> ->]. by destruct E; apply D1.
  - intros l k Hl. revert k. induction Hl as [|a l Ha Hl IH]; intros [|b k] Hk; cbn; [lia..|].
    apply Forall_cons in Hk as [Hb Hk]. pose proof (D1 a b Ha Hb). pose proof (D1 b a Hb Ha).
    destruct (Z.eqb_spec (compare_identifier a b) 0), (Z.eqb_spec (compare_identifier b a) 0); [by apply IH|naive_solver..|by apply D2].
  - intros l k m Hl. revert k m. induction Hl as [|a l Ha Hl IH]; intros [|b k] [|c m] Hk Hm; cbn; [lia..|].
    apply Forall_cons in Hk as [Hb Hk], Hm as [Hc Hm].
    destruct (Z.eqb_spec (compare_identifier a b) 0) as [E1|E1], (Z.eqb_spec (compare_identifier b c) 0) as [E2|E2].
    + apply D1 in E1 as ->, E2 as ->; [|done..]. rewrite (proj2 (D1 c c Hc Hc) eq_refl). by apply IH.
    + apply D1 in E1 as ->; [|done..]. intros _ Hlt. destruct (Z.eqb_spec (compare_identifier b c) 0); [done|exact Hlt].
    + apply D1 in E2 as ->; [|done..]. intros Hlt _. destruct (Z.eqb_spec (compare_identifier a c) 0); [done|exact Hlt].
    + intros L1 L2. pose proof (D3 a b c Ha Hb Hc L1 L2). destruct (Z.eqb_spec (compare_identifier a c) 0); lia.
Qed.

(** *** Versions *)

Lemma cut_spec c s : s = (cut c s).1 +:+ match (cut c s).2 with None => "" | Some t => String c t end.
Proof.
  induction s as [|a s IH]; [done|]. cbn. destruct (Ascii.eqb_spec a c) as [-> | _]; [done|].
  destruct (cut c s) as [b t]. cbn [fst snd] in *. change (String a s = String a (b +:+ match t with None => "" | Some t => String c t end)). congruence.
Qed.
Definition parsed (v : string) : list string * option (list string) :=
  let '(core, prerelease) := cut "-" (trim_prefix "v" v) in (split_at "." core, split_at "." <$> prerelease).
Definition parsed_ok (x : list string * option (list string)) : Prop :=
  (length x.1 = 3%nat ∧ Forall (fun s => numeric s = true) x.1) ∧ match x.2 with None => True | Some p => Forall good_identifier p end.
Definition compare_parsed (x y : list string * option (list string)) : Z :=
  let c := compare_core x.1 y.1 in
  if negb (c =? 0) then c else
  match x.2, y.2 with None, None => 0 | None, Some _ => 1 | Some _, None => -1 | Some l, Some r => compare_prerelease l r end.

Lemma valid_parsed v : ValidReleaseVersion v = true → has_prefix "v" v = true ∧ parsed_ok (parsed v).
Proof.
  unfold ValidReleaseVersion, releasePattern, parsed. intros Hv. destruct (_ || _) eqn:Eb; [done|].
  rewrite !orb_false_iff, negb_false_iff, andb_true_iff in Eb. destruct Eb as (_ & Hp & Hr). split; [done|].
  apply has_prefix_spec in Hp as [t ->]. rewrite trim_prefix_app in *. change ("v" +:+ t) with (String "v" t) in Hv. cbn in Hv.
  destruct (cut "-" t) as [core prerelease]. cbn in *. rewrite !andb_true_iff, Nat.eqb_eq, forallb_forall in Hr. destruct Hr as [[H3 Hn] Hi].
  split; [split; [done|]|].
  - apply Forall_forall. intros x Hx. apply Hn, list_elem_of_In, Hx.
  - destruct prerelease as [p|]; [|done]. cbn in *. rewrite forallb_forall in Hi, Hv. apply Forall_forall. intros x Hx%list_elem_of_In.
    split; [by apply Hi|]. by apply negb_true_iff, Hv.
Qed.
Lemma parsed_inj v w : has_prefix "v" v = true → has_prefix "v" w = true → parsed v = parsed w → v = w.
Proof.
  intros [s ->]%has_prefix_spec [t ->]%has_prefix_spec. unfold parsed. rewrite !trim_prefix_app. f_equal.
  pose proof (cut_spec "-" s) as Hs. pose proof (cut_spec "-" t) as Ht.
  destruct (cut "-" s) as [c p], (cut "-" t) as [d q]. cbn in *. intros [= Hc Hp]. f_equal. rewrite Hs, Ht.
  rewrite <- (join_split "." c), <- (join_split "." d), Hc. f_equal. destruct p as [p|], q as [q|]; try done.
  cbn in Hp. injection Hp as Hp. by rewrite <- (join_split "." p), <- (join_split "." q), Hp.
Qed.
Lemma Compare_parsed v w : ValidReleaseVersion v = true → ValidReleaseVersion w = true →
  CompareReleaseVersions v w = compare_parsed (parsed v) (parsed w).
Proof.
  intros Hv Hw. unfold CompareReleaseVersions, parsed. rewrite Hv, Hw. cbn [negb orb].
  destruct (cut "-" (trim_prefix "v" v)) as [c [p|]], (cut "-" (trim_prefix "v" w)) as [d [q|]]; done.
Qed.
Lemma parsed_ordered : orders parsed_ok compare_parsed.
Proof.
  destruct (core_ordered 3) as [D1 D2 D3], prerelease_ordered as [P1 P2 P3]. unfold compare_parsed, parsed_ok. split.
  - intros [c p] [d q] [Hc Hp] [Hd Hq]. cbn in *. destruct (Z.eqb_spec (compare_core c d) 0) as [E|E]; cbn.
    + apply D1 in E as ->; [|done..]. destruct p, q; [rewrite P1 by done|..]; split; try congruence; done.
    + split; [done|]. intros [= -> ->]. by destruct E; apply D1.
  - intros [c p] [d q] [Hc Hp] [Hd Hq]. cbn in *. pose proof (D1 c d Hc Hd). pose proof (D1 d c Hd Hc).
    destruct (Z.eqb_spec (compare_core c d) 0), (Z.eqb_spec (compare_core d c) 0); cbn; [|naive_solver..|by apply D2].
    destruct p, q; [by apply P2|lia..].
  - intros [c p] [d q] [e r] [Hc Hp] [Hd Hq] [He Hr]. cbn in *.
    destruct (Z.eqb_spec (compare_core c d) 0) as [E1|E1], (Z.eqb_spec (compare_core d e) 0) as [E2|E2]; cbn.
    + apply D1 in E1 as ->, E2 as ->; [|done..]. rewrite (proj2 (D1 e e He He) eq_refl). cbn.
      destruct p, q, r; try lia. by apply P3.
    + apply D1 in E1 as ->; [|done..]. intros _ Hlt. destruct (Z.eqb_spec (compare_core d e) 0); [done|exact Hlt].
    + apply D1 in E2 as ->; [|done..]. intros Hlt _. destruct (Z.eqb_spec (compare_core c e) 0); [done|exact Hlt].
    + intros L1 L2. pose proof (D3 c d e Hc Hd He L1 L2). destruct (Z.eqb_spec (compare_core c e) 0); cbn; lia.
Qed.

(** C30. [CompareReleaseVersions] is a total order of the release versions: two
    valid versions compare as equal only if they are the same text, the order
    is antisymmetric and transitive, and of two different versions one comes
    before the other.  No downgrade is admitted by going through a third
    version. *)
Theorem versions_ordered u v w : ValidReleaseVersion u = true → ValidReleaseVersion v = true → ValidReleaseVersion w = true →
  (CompareReleaseVersions u v = 0 ↔ u = v) ∧ (CompareReleaseVersions u v < 0 ↔ 0 < CompareReleaseVersions v u) ∧
  (CompareReleaseVersions u v < 0 → CompareReleaseVersions v w < 0 → CompareReleaseVersions u w < 0).
Proof.
  intros Hu Hv Hw. rewrite !Compare_parsed by done. apply valid_parsed in Hu as [Pu Hu], Hv as [Pv Hv], Hw as [Pw Hw].
  destruct parsed_ordered as [D1 D2 D3]. split_and!; [|by apply D2|by apply D3]. rewrite D1 by done.
  split; [by apply parsed_inj|by intros ->].
Qed.

Lemma versions_ordered_witness : ValidReleaseVersion "v1.10.0-rc.2" = true ∧ CompareReleaseVersions "v1.9.7" "v1.10.0" < 0.
Proof.
  split; [reflexivity|]. apply (versions_ordered "v1.9.7" "v1.10.0-rc.2" "v1.10.0"); reflexivity.
Defined.
