(* ===== verification/NodeUpdate.v ===== *)
(** Package [pkg/nodes/update/coordinator]: how the coordinator of a node
    replaces the companion program by a new release, with two slots for the
    executable and one file for the state.

    A call of the coordinator is one function (its mutex is held throughout);
    the steps of the supervisor between such calls are in [sup_step].  A crash
    in the middle of a call is a call in which every later write fails,
    followed by the crash.  Temporary files, whose names are random and which
    the next start removes, are not part of the directory. *)
From Stdlib Require Import Ascii.
From S2P Require Import Prelude GoStrings GoJson GoTime GoText CodingScope Network UpdateManifest.
#[local] Open Scope Z_scope.

(** ** State ([state.go]) *)

(** A Go [uint64], as the generation of a state is: it wraps around. *)
Definition uint64 (n : Z) : Z := n mod 2 ^ 64.
Definition StateSchemaVersion : Z := 1.
Definition MaxStateBytes : Z := 64 * 1024.
Definition MaxPayloadBytes : Z := 128 * 1024 * 1024.
Definition MaxLaunchAttempts : Z := 3.
Definition MaxIDLength : Z := 128.

(** The text of another phase or slot is one that validation refuses, as a text
    that is not a state at all. *)
Inductive Phase :=
| PhasePrepared | PhaseDownloading | PhaseVerified | PhaseStaged | PhaseActivating | PhaseHealthy | PhaseRollingBack
| PhaseRolledBack | PhaseUnknown | PhaseOperatorActionRequired.
#[export] Instance Phase_eq_dec : EqDecision Phase. Proof. solve_decision. Defined.
Definition Phase_text (p : Phase) : string :=
  match p with
  | PhasePrepared => "prepared" | PhaseDownloading => "downloading" | PhaseVerified => "verified" | PhaseStaged => "staged"
  | PhaseActivating => "activating" | PhaseHealthy => "healthy" | PhaseRollingBack => "rolling_back"
  | PhaseRolledBack => "rolled_back" | PhaseUnknown => "unknown" | PhaseOperatorActionRequired => "operator_action_required"
  end.
Inductive Slot := SlotA | SlotB.
#[export] Instance Slot_eq_dec : EqDecision Slot. Proof. solve_decision. Defined.

Record Installation := mkInstallation {
  is_Instance : string; is_Manager : string; is_Scope : string; is_Service : string; is_InstallTransactionID : string;
  is_ConfigPath : string; is_CoordinatorPath : string; is_CoordinatorSHA256 : string; is_ServiceUID : Z; is_ServiceGID : Z;
  is_NodeID : string; is_Platform : string; is_Architecture : string }.
#[export] Instance Installation_eq_dec : EqDecision Installation. Proof. solve_decision. Defined.
Record Payload := mkPayload { py_Slot : Slot; py_Release : string; py_Version : string; py_SHA256 : string; py_Size : Z }.
#[export] Instance Payload_eq_dec : EqDecision Payload. Proof. solve_decision. Defined.
Record ExecutionIdentity := mkExecution {
  ex_InvocationID : string; ex_ExecutionID : string; ex_PlanHash : string; ex_CatalogHash : string; ex_AuthorityHash : string }.
#[export] Instance ExecutionIdentity_eq_dec : EqDecision ExecutionIdentity. Proof. solve_decision. Defined.
Record Transaction := mkTransaction {
  tx_Identity : ExecutionIdentity; tx_RequestHash : string; tx_Profile : string; tx_ProfileRevision : string;
  tx_ReleaseAlias : string; tx_RequestedRelease : string; tx_ManifestSHA256 : string; tx_ArtifactSHA256 : string;
  tx_Phase : Phase; tx_Candidate : option Payload; tx_Previous : option Payload; tx_ActivationAttempted : bool;
  tx_SuccessorVerified : bool; tx_RollbackAttempted : bool; tx_RollbackVerified : bool; tx_LaunchAttempts : Z;
  tx_FailureCode : string; tx_Canceled : bool; tx_CanceledAt : Z; tx_AcceptedAt : Z; tx_ExpiresAt : Z; tx_UpdatedAt : Z }.
#[export] Instance eta_Transaction : Eta Transaction := fun t =>
  mkTransaction (tx_Identity t) (tx_RequestHash t) (tx_Profile t) (tx_ProfileRevision t) (tx_ReleaseAlias t) (tx_RequestedRelease t)
    (tx_ManifestSHA256 t) (tx_ArtifactSHA256 t) (tx_Phase t) (tx_Candidate t) (tx_Previous t) (tx_ActivationAttempted t)
    (tx_SuccessorVerified t) (tx_RollbackAttempted t) (tx_RollbackVerified t) (tx_LaunchAttempts t) (tx_FailureCode t)
    (tx_Canceled t) (tx_CanceledAt t) (tx_AcceptedAt t) (tx_ExpiresAt t) (tx_UpdatedAt t).
Record State := mkState {
  us_SchemaVersion : Z; us_Generation : Z; us_Installation : Installation; us_Active : Payload; us_Transaction : option Transaction }.
#[export] Instance eta_State : Eta State := fun s =>
  mkState (us_SchemaVersion s) (us_Generation s) (us_Installation s) (us_Active s) (us_Transaction s).

Inductive UpdateError :=
| ErrInvalid | ErrStore | ErrTransactionConflict | ErrTransactionBusy | ErrUpdateDenied | ErrNotStaged | ErrActivationTooLate
| ErrActivationOutcomeUnknown | ErrLaunchLimit | StageError (code : string).

(** A letter or digit, then at most 127 letters, digits, [_], [.] and [-]. *)
Definition boundedNamePattern (s : string) : bool :=
  matches (fun b => upper b || lower b || digit b) (fun b => upper b || lower b || digit b || one_of "_.-" b) s && (len s <=? 128).
Definition nodeIdentityPattern (s : string) : bool :=
  has_prefix "node_" s && matches_n 52 (fun b => lower b || in_range 50 55 b) (trim_prefix "node_" s).
(** [unicode.IsControl] *)
Definition is_control (r : Z) : bool := (r <=? 31) || in_range 127 159 r.
Definition boundedText (value : string) (maximum : Z) : bool :=
  negb (String.eqb value "") && (len value <=? maximum) && String.eqb value (trim_space value) && valid_string value
  && negb (existsb is_control (runes value)).
(** Lower case is asked for before the digits are decoded: [a] to [f] remain. *)
Definition isDigest (value : string) (n : Z) : bool := (len value =? n * 2) && forallb hex_lower (bytes value).
(** [nodes.ID.Validate] *)
Definition ID_Validate (value : string) : bool := negb (len value =? 0) && (len value <=? MaxIDLength) && identifierPattern value.

(** [path.Clean] and, on the platforms of the coordinator, [filepath.Clean]. *)
Fixpoint clean_components (rooted : bool) (out l : list string) : list string :=
  match l with
  | [] => rev out
  | c :: l =>
      if String.eqb c "" || String.eqb c "." then clean_components rooted out l
      else if String.eqb c ".." then
        match out with
        | [] => clean_components rooted (if rooted then [] else [".."]) l
        | p :: out' => clean_components rooted (if String.eqb p ".." then ".." :: out else out') l
        end
      else clean_components rooted (c :: out) l
  end.
Definition Clean (s : string) : string :=
  let rooted := has_prefix "/" s in
  let body := join "/" (clean_components rooted [] (split_at "/" s)) in
  if rooted then "/" +:+ body else if String.eqb body "" then "." else body.
Definition clean_absolute (s : string) : bool := has_prefix "/" s && String.eqb (Clean s) s.

Definition Installation_Validate (i : Installation) : result UpdateError () :=
  reject negb (boundedNamePattern (is_Instance i)) || negb (boundedNamePattern (is_Service i)) || negb (isDigest (is_InstallTransactionID i) 16)
         || negb (clean_absolute (is_ConfigPath i)) || negb (clean_absolute (is_CoordinatorPath i))
         || negb (isDigest (is_CoordinatorSHA256 i) 32) || (is_ServiceUID i =? 0) || (is_ServiceGID i =? 0) with ErrInvalid ;;
  reject negb (String.eqb (is_Manager i) "systemd") && negb (String.eqb (is_Manager i) "launchd") with ErrInvalid ;;
  reject negb (String.eqb (is_Scope i) "user") && negb (String.eqb (is_Scope i) "system") with ErrInvalid ;;
  reject String.eqb (is_Manager i) "systemd" && negb (has_suffix ".service" (is_Service i))
         || String.eqb (is_Manager i) "launchd" && contains (is_Service i) "/" with ErrInvalid ;;
  reject negb (String.eqb (is_Platform i) "linux") && negb (String.eqb (is_Platform i) "darwin") with ErrInvalid ;;
  reject String.eqb (is_Platform i) "linux" && negb (String.eqb (is_Manager i) "systemd")
         || String.eqb (is_Platform i) "darwin" && negb (String.eqb (is_Manager i) "launchd") with ErrInvalid ;;
  reject negb (String.eqb (is_Architecture i) "amd64") && negb (String.eqb (is_Architecture i) "arm64") with ErrInvalid ;;
  reject negb (ID_Validate (is_NodeID i)) || negb (nodeIdentityPattern (is_NodeID i)) with ErrInvalid ;;
  Ok tt.
Definition Payload_Validate (p : Payload) : result UpdateError () :=
  reject negb (boundedText (py_Release p) 128) || negb (boundedText (py_Version p) 128) || negb (isDigest (py_SHA256 p) 32)
         || (py_Size p <=? 0) || (MaxPayloadBytes <? py_Size p) with ErrInvalid ;;
  Ok tt.
Definition ExecutionIdentity_Validate (x : ExecutionIdentity) : result UpdateError () :=
  reject negb (boundedText (ex_InvocationID x) MaxIDLength) || negb (boundedText (ex_ExecutionID x) MaxIDLength)
         || negb (isDigest (ex_PlanHash x) 32) || negb (isDigest (ex_CatalogHash x) 32) || negb (isDigest (ex_AuthorityHash x) 32)
    with ErrInvalid ;;
  Ok tt.
Definition in_phase (t : Transaction) (l : list Phase) : bool := bool_decide (tx_Phase t ∈ l).
Definition present {A} (o : option A) : bool := match o with Some _ => true | None => false end.

Definition validatePhaseFacts (t : Transaction) : result UpdateError () :=
  reject in_phase t [PhaseVerified; PhaseStaged; PhaseActivating; PhaseHealthy; PhaseRollingBack; PhaseRolledBack]
         && negb (present (tx_Candidate t)) with ErrInvalid ;;
  reject in_phase t [PhaseActivating; PhaseHealthy; PhaseRollingBack; PhaseRolledBack] && negb (present (tx_Previous t)) with ErrInvalid ;;
  reject tx_SuccessorVerified t && negb (in_phase t [PhaseHealthy]) with ErrInvalid ;;
  reject in_phase t [PhaseHealthy] && negb (tx_SuccessorVerified t) with ErrInvalid ;;
  reject tx_RollbackVerified t && negb (in_phase t [PhaseRolledBack]) with ErrInvalid ;;
  reject tx_RollbackVerified t && negb (tx_RollbackAttempted t) with ErrInvalid ;;
  reject in_phase t [PhaseRolledBack] && negb (tx_RollbackVerified t) with ErrInvalid ;;
  reject in_phase t [PhaseActivating] && negb (tx_ActivationAttempted t) with ErrInvalid ;;
  reject in_phase t [PhaseRollingBack; PhaseRolledBack] && (negb (tx_ActivationAttempted t) || negb (tx_RollbackAttempted t)) with ErrInvalid ;;
  Ok tt.
Definition Transaction_Validate (t : Transaction) : result UpdateError () :=
  ExecutionIdentity_Validate (tx_Identity t) ≫= fun _ =>
  reject negb (isDigest (tx_RequestHash t) 32) || negb (boundedNamePattern (tx_Profile t)) || negb (boundedNamePattern (tx_ProfileRevision t))
         || negb (boundedNamePattern (tx_ReleaseAlias t)) || negb (boundedText (tx_RequestedRelease t) 128)
         || negb (isDigest (tx_ManifestSHA256 t) 32) || negb (isDigest (tx_ArtifactSHA256 t) 32) with ErrInvalid ;;
  reject (tx_AcceptedAt t <=? 0) || (tx_ExpiresAt t <=? tx_AcceptedAt t) || (tx_UpdatedAt t <? tx_AcceptedAt t)
         || (tx_ExpiresAt t <? tx_UpdatedAt t) || (tx_LaunchAttempts t <? 0) || (MaxLaunchAttempts <? tx_LaunchAttempts t) with ErrInvalid ;;
  reject negb (String.eqb (tx_FailureCode t) "") && negb (boundedNamePattern (tx_FailureCode t)) with ErrInvalid ;;
  reject (if tx_Canceled t
          then (tx_CanceledAt t <? tx_AcceptedAt t) || (tx_ExpiresAt t <? tx_CanceledAt t) || negb (String.eqb (tx_FailureCode t) "canceled")
               || tx_ActivationAttempted t || negb (in_phase t [PhasePrepared; PhaseDownloading; PhaseVerified; PhaseStaged])
          else negb (tx_CanceledAt t =? 0)) with ErrInvalid ;;
  match tx_Candidate t with Some p => Payload_Validate p | None => Ok tt end ≫= fun _ =>
  match tx_Previous t with Some p => Payload_Validate p | None => Ok tt end ≫= fun _ =>
  validatePhaseFacts t.
Definition validateSlotTransition (active : Payload) (t : Transaction) : result UpdateError () :=
  match tx_Candidate t with
  | None => Ok tt
  | Some candidate =>
      if in_phase t [PhaseVerified; PhaseStaged] then
        reject bool_decide (py_Slot active = py_Slot candidate) with ErrInvalid ;; Ok tt
      else if in_phase t [PhaseActivating; PhaseHealthy] then
        match tx_Previous t with
        | Some previous =>
            reject negb (bool_decide (active = candidate)) || bool_decide (py_Slot active = py_Slot previous) with ErrInvalid ;; Ok tt
        | None => Err ErrInvalid
        end
      else if in_phase t [PhaseRollingBack; PhaseRolledBack] then
        match tx_Previous t with
        | Some previous =>
            reject negb (bool_decide (active = previous)) || bool_decide (py_Slot active = py_Slot candidate) with ErrInvalid ;; Ok tt
        | None => Err ErrInvalid
        end
      else Ok tt
  end.
Definition State_Validate (s : State) : result UpdateError () :=
  reject negb (us_SchemaVersion s =? StateSchemaVersion) || (us_Generation s =? 0) with ErrInvalid ;;
  Installation_Validate (us_Installation s) ≫= fun _ =>
  Payload_Validate (us_Active s) ≫= fun _ =>
  match us_Transaction s with
  | None => Ok tt
  | Some t => Transaction_Validate t ≫= fun _ => validateSlotTransition (us_Active s) t
  end.

(** *** JSON layout *)

Definition Slot_text (s : Slot) : string := match s with SlotA => "a" | SlotB => "b" end.
Definition Installation_json (i : Installation) : json := JObj (
  fstr "instance" (is_Instance i) ++ fstr "manager" (is_Manager i) ++ fstr "scope" (is_Scope i) ++ fstr "service" (is_Service i) ++
  fstr "install_transaction_id" (is_InstallTransactionID i) ++ fstr "config_path" (is_ConfigPath i) ++
  fstr "coordinator_path" (is_CoordinatorPath i) ++ fstr "coordinator_sha256" (is_CoordinatorSHA256 i) ++
  fint "service_uid" (is_ServiceUID i) ++ fint "service_gid" (is_ServiceGID i) ++ fstr_omit "node_id" (is_NodeID i) ++
  fstr "platform" (is_Platform i) ++ fstr "architecture" (is_Architecture i)).
Definition Payload_json (p : Payload) : json := JObj (
  fstr "slot" (Slot_text (py_Slot p)) ++ fstr "release" (py_Release p) ++ fstr "version" (py_Version p) ++
  fstr "sha256" (py_SHA256 p) ++ fint "size" (py_Size p)).
Definition ExecutionIdentity_json (x : ExecutionIdentity) : json := JObj (
  fstr "invocation_id" (ex_InvocationID x) ++ fstr "execution_id" (ex_ExecutionID x) ++ fstr "plan_hash" (ex_PlanHash x) ++
  fstr "catalog_hash" (ex_CatalogHash x) ++ fstr "authority_hash" (ex_AuthorityHash x)).
Definition Transaction_json (t : Transaction) : json := JObj (
  field "identity" (ExecutionIdentity_json (tx_Identity t)) ++ fstr "request_hash" (tx_RequestHash t) ++ fstr "profile" (tx_Profile t) ++
  fstr "profile_revision" (tx_ProfileRevision t) ++ fstr "release_alias" (tx_ReleaseAlias t) ++
  fstr "requested_release" (tx_RequestedRelease t) ++ fstr "manifest_sha256" (tx_ManifestSHA256 t) ++
  fstr "artifact_sha256" (tx_ArtifactSHA256 t) ++ fstr "phase" (Phase_text (tx_Phase t)) ++
  fopt_omit "candidate" Payload_json (tx_Candidate t) ++ fopt_omit "previous" Payload_json (tx_Previous t) ++
  field "activation_attempted" (JBool (tx_ActivationAttempted t)) ++ field "successor_verified" (JBool (tx_SuccessorVerified t)) ++
  field "rollback_attempted" (JBool (tx_RollbackAttempted t)) ++ field "rollback_verified" (JBool (tx_RollbackVerified t)) ++
  fint "launch_attempts" (tx_LaunchAttempts t) ++ fstr_omit "failure_code" (tx_FailureCode t) ++ fbool_omit "canceled" (tx_Canceled t) ++
  fint_omit "canceled_at" (tx_CanceledAt t) ++ fint "accepted_at" (tx_AcceptedAt t) ++ fint "expires_at" (tx_ExpiresAt t) ++
  fint "updated_at" (tx_UpdatedAt t)).
Definition State_json (s : State) : json := JObj (
  fint "schema_version" (us_SchemaVersion s) ++ fint "generation" (us_Generation s) ++
  field "installation" (Installation_json (us_Installation s)) ++ field "active" (Payload_json (us_Active s)) ++
  fopt_omit "transaction" Transaction_json (us_Transaction s)).

(** ** The directory ([store_unix.go]) *)

(** What stands in a payload slot: a private executable of the coordinator, or
    something else. *)
Inductive Image := Binary (data : string) | Foreign.
(** The state file is kept as the state its text decodes to, [Some None] when
    it is not a private file with such a text. *)
Record Root := mkRoot { rt_state : option (option State); rt_slot : Slot → option Image }.
Definition put_state (s : State) (r : Root) : Root := mkRoot (Some (Some s)) (rt_slot r).
Definition put_slot (slot : Slot) (data : string) (r : Root) : Root :=
  mkRoot (rt_state r) (fun s => if decide (s = slot) then Some (Binary data) else rt_slot r s).

(** The directory now, with what a crash may bring back: the file system keeps
    the order of renames, and a sync of the directory confirms them. *)
Record Store := mkStore { st_now : Root; st_since : list Root }.
Definition may_leave (d : Store) : list Root := st_now d :: st_since d.
Definition change (f : Root → Root) (d : Store) : Store := mkStore (f (st_now d)) (may_leave d).
Definition sync (d : Store) : Store := mkStore (st_now d) [].
Definition crash (k : nat) (d : Store) : Store := mkStore (default (st_now d) (may_leave d !! k)) [].
(** A rename and the sync after it. *)
Definition published (outcome : WriteOutcome) (f : Root → Root) (d : Store) : Store * result UpdateError () :=
  match outcome with
  | WriteFailed => (d, Err ErrStore)
  | WriteCommitted => (change f d, Err ErrStore)
  | WriteOk => (sync (change f d), Ok tt)
  end.

Definition loadLocked (fails : bool) (d : Store) : result UpdateError State :=
  reject fails with ErrStore ;;
  match rt_state (st_now d) with
  | Some (Some s) => State_Validate s ≫= fun _ => Ok s
  | _ => Err ErrStore
  end.
Definition writeLocked (outcome : WriteOutcome) (s : State) (exclusive : bool) (d : Store) : Store * result UpdateError () :=
  if MaxStateBytes <? len (marshal (State_json s)) + 1 then (d, Err ErrStore)
  else if exclusive && present (rt_state (st_now d)) then (d, Err ErrStore)
  else published outcome (put_state s) d.
Definition Commit (load_fails : bool) (outcome : WriteOutcome) (expected : Z) (next : State) (d : Store) : Store * result UpdateError () :=
  match loadLocked load_fails d with
  | Err x => (d, Err x)
  | Ok current =>
      if negb (us_Generation current =? expected) || negb (us_Generation next =? uint64 (expected + 1)) then (d, Err ErrStore)
      else if negb (bool_decide (us_Installation current = us_Installation next)) then (d, Err ErrStore)
      else match State_Validate next with
      | Err x => (d, Err x)
      | Ok _ => writeLocked outcome next false d
      end
  end.
Definition Initialize (outcome : WriteOutcome) (s : State) (d : Store) : Store * result UpdateError () :=
  if negb (us_Generation s =? 1) then (d, Err ErrInvalid)
  else match State_Validate s with Err x => (d, Err x) | Ok _ => writeLocked outcome s true d end.

(** ** Requests and releases ([transaction.go], [stage_unix.go]) *)

Definition second : Z := 1000000000.
(** Seconds since 1970. *)
Definition Unix (t : Time) : Z := t_ns t / second - 62135596800.
Definition timeFromUnix (s : Z) : Time := mkTime ((s + 62135596800) * second) 0.
Definition MaxTransactionTTL : Z := 30 * minute.

Record StageRequest := mkStageRequest {
  sr_Identity : ExecutionIdentity; sr_Profile : string; sr_ReleaseAlias : string; sr_ExpectedManifestSHA256 : string;
  sr_ExpectedArtifactSHA256 : string; sr_ExpiresAt : Time }.
Record ResolvedRelease := mkResolved {
  rr_Profile : string; rr_ProfileRevision : string; rr_ReleaseAlias : string; rr_Tag : string; rr_Version : string;
  rr_BaseURL : string; rr_RedirectHosts : list string; rr_Channel : string; rr_AllowDowngrade : bool; rr_AuthorityHash : string;
  rr_TrustedKey : TrustedKey; rr_RequirePlatformSignature : bool }.
(** [StatusCode], [ContentLength], and the body if it can be read. *)
Record Response := mkResponse { rs_Status : Z; rs_Length : Z; rs_Body : option string }.
(** The first entry of a gzip'd tar archive, and whether the archive ends with
    it. *)
Record TarEntry := mkTarEntry {
  te_Name : string; te_Regular : bool; te_Linkname : string; te_Size : Z; te_Mode : Z; te_Data : option string; te_Last : bool }.
Class TarReader := first_entry : string → option TarEntry.

(** What one call of the coordinator meets, by the places in its code: the
    readings of the clock, whether the context is done, whether the state file
    or a slot cannot be read, and what becomes of each publication of the
    state; what the resolver answers; what is downloaded; whether local files
    and the platform's signature check fail; what becomes of the publication
    of the candidate. *)
Record Env := mkEnv {
  ev_now : nat → Time; ev_done : nat → bool; ev_unread : nat → bool; ev_damaged : nat → bool; ev_write : nat → WriteOutcome;
  ev_resolve : option ResolvedRelease; ev_get : URL → option Response; ev_local : nat → bool; ev_signed : bool;
  ev_publish : WriteOutcome }.

Definition Answer : Type := option State * option UpdateError.
Definition answers (s : State) : Answer := (Some s, None).
Definition fails (x : UpdateError) : Answer := (None, Some x).

Definition candidateSlot (active : Slot) : Slot := match active with SlotA => SlotB | SlotB => SlotA end.
Definition terminalPhase (t : Transaction) : bool :=
  tx_Canceled t || in_phase t [PhaseHealthy; PhaseRolledBack; PhaseUnknown; PhaseOperatorActionRequired].
Definition sameExecution (l r : ExecutionIdentity) : bool := bool_decide (l = r).
Definition samePayload (l r : option Payload) : bool := bool_decide (l = r).
Definition manifestAssetName : string := "mintclaw-node-manifest.json".
Definition signatureAssetName : string := "mintclaw-node-manifest.sig".
Definition manifestArtifact (m : Manifest) (platform architecture : string) : option Artifact :=
  List.find (fun a => String.eqb (at_Platform a) platform && String.eqb (at_Architecture a) architecture) (mf_Artifacts m).

Definition on_transaction (f : Transaction → Transaction) (s : State) : State := s <| us_Transaction ::= fmap f |>.
Definition next_generation (s : State) : State := s <| us_Generation ::= fun g => uint64 (g + 1) |>.
Definition transitionTime (now : Time) (t : Transaction) : Z :=
  if Unix now <? tx_AcceptedAt t then tx_AcceptedAt t else Z.min (Unix now) (tx_ExpiresAt t).

Section coordinator.
Context `{UnicodeCase, NetLibrary, Sha256, UpdateLibrary, TarReader}.

Definition StageRequest_Validate (r : StageRequest) (now : Time) : result UpdateError () :=
  ExecutionIdentity_Validate (sr_Identity r) ≫= fun _ =>
  reject negb (boundedNamePattern (sr_Profile r)) || negb (boundedNamePattern (sr_ReleaseAlias r))
         || negb (isDigest (sr_ExpectedManifestSHA256 r) 32) || negb (isDigest (sr_ExpectedArtifactSHA256 r) 32) with ErrInvalid ;;
  reject negb (Before now (sr_ExpiresAt r)) || (MaxTransactionTTL <? Sub (sr_ExpiresAt r) now) with ErrInvalid ;;
  Ok tt.
Definition validRedirectHost (host : string) : bool :=
  if String.eqb host "" || negb (String.eqb host (to_lower host)) || existsb (fun c => in_string c host) ["/"; ":"; "@"; "["; "]"]%char
  then false
  else match url_Parse ("https://" +:+ host) with
  | Some parsed => String.eqb (Hostname parsed) host && String.eqb (Port parsed) ""
  | None => false
  end.
Fixpoint valid_hosts (prior : string) (l : list string) : bool :=
  match l with
  | [] => true
  | host :: l => validRedirectHost host && negb (bool_decide (str_le host prior)) && valid_hosts host l
  end.
Definition ResolvedRelease_Validate (a : ResolvedRelease) : result UpdateError () :=
  reject negb (boundedNamePattern (rr_Profile a)) || negb (boundedNamePattern (rr_ProfileRevision a))
         || negb (boundedNamePattern (rr_ReleaseAlias a)) || negb (String.eqb (rr_Tag a) (rr_Version a))
         || negb (ValidReleaseVersion (rr_Tag a)) || negb (isDigest (rr_AuthorityHash a) 32)
         || negb (String.eqb (rr_Channel a) ChannelStable) && negb (String.eqb (rr_Channel a) ChannelNightly) with ErrInvalid ;;
  match url_Parse (rr_BaseURL a) with
  | None => Err ErrInvalid
  | Some parsed =>
      reject negb (String.eqb (u_Scheme parsed) "https") || String.eqb (u_Host parsed) "" || u_User parsed
             || negb (String.eqb (u_RawQuery parsed) "") || negb (String.eqb (u_Fragment parsed) "")
             || negb (String.eqb (u_RawPath parsed) "") || negb (String.eqb (Clean (u_Path parsed)) (u_Path parsed)) with ErrInvalid ;;
      reject (8 <? length (rr_RedirectHosts a))%nat || negb (valid_hosts "" (rr_RedirectHosts a)) with ErrInvalid ;;
      reject String.eqb (tk_KeyID (rr_TrustedKey a)) "" || String.eqb (tk_PublicKey (rr_TrustedKey a)) ""
             || negb (String.eqb (KeyID (tk_PublicKey (rr_TrustedKey a))) (tk_KeyID (rr_TrustedKey a))) with ErrInvalid ;;
      reject negb (channel_fits (rr_Version a) (rr_Channel a)) with ErrInvalid ;;
      Ok tt
  end.
Definition hashStageRequest (r : StageRequest) (a : ResolvedRelease) (i : Installation) : string :=
  sha256_hex (marshal (JObj (
    fstr "domain" "mintclaw-node-update-stage-v1" ++ field "identity" (ExecutionIdentity_json (sr_Identity r)) ++
    field "installation" (Installation_json i) ++ fstr "profile" (rr_Profile a) ++ fstr "profile_revision" (rr_ProfileRevision a) ++
    fstr "release_alias" (rr_ReleaseAlias a) ++ fstr "tag" (rr_Tag a) ++ fstr "version" (rr_Version a) ++ fstr "channel" (rr_Channel a) ++
    fstr "authority_hash" (rr_AuthorityHash a) ++ fstr "manifest_sha256" (sr_ExpectedManifestSHA256 r) ++
    fstr "artifact_sha256" (sr_ExpectedArtifactSHA256 r) ++ fint "expires_at" (Unix (sr_ExpiresAt r)) ++
    field "redirect_hosts" (match merge_sort str_le (rr_RedirectHosts a) with [] => JNull | hosts => JArr (JStr <$> hosts) end) ++
    field "require_platform_signature" (JBool (rr_RequirePlatformSignature a))))).

(** ** Payloads ([stage_unix.go]) *)

Definition verifyPayload (unreadable : bool) (p : Payload) (i : Installation) (r : Root) : bool :=
  negb unreadable &&
  match rt_slot r (py_Slot p) with
  | Some (Binary data) =>
      (len data =? py_Size p) && ValidateExecutable data (is_Platform i) (is_Architecture i) && String.eqb (sha256_hex data) (py_SHA256 p)
  | _ => false
  end.
Definition releaseAssetURL (baseURL tag asset : string) : option URL :=
  match url_Parse baseURL with
  | None => None
  | Some u =>
      if negb (ValidReleaseVersion tag) || String.eqb asset "" || contains asset "/" then None
      else Some (mkURL (u_Scheme u) (u_Opaque u) (u_User u) (u_Host u) (trim_suffix (u_Path u) "/" +:+ "/" +:+ tag +:+ "/" +:+ asset)
                   (u_RawPath u) (u_RawQuery u) (u_ForceQuery u) (u_Fragment u))
  end.
Definition fetchBounded (e : Env) (url : URL) (maximum : Z) : option string :=
  match ev_get e url with
  | None => None
  | Some response =>
      if negb (rs_Status response =? 200) || (maximum <? rs_Length response) then None
      else match rs_Body response with
      | None => None
      | Some data =>
          if (maximum <? len data) || (0 <=? rs_Length response) && negb (len data =? rs_Length response) then None else Some data
      end
  end.
(** The archive, whose digest is that of the artifact. *)
Definition downloadArchive (e : Env) (url : URL) (a : Artifact) : option string :=
  match ev_get e url with
  | None => None
  | Some response =>
      if negb (rs_Status response =? 200) || (at_Size a <? rs_Length response) || (MaxNodeArtifactBytes <? rs_Length response)
         || ev_local e 0 then None
      else match rs_Body response with
      | None => None
      | Some data =>
          if negb (len data =? at_Size a) || (MaxNodeArtifactBytes <? len data)
             || (0 <=? rs_Length response) && negb (len data =? rs_Length response)
             || negb (String.eqb (sha256_hex data) (at_SHA256 a)) then None else Some data
      end
  end.
Definition extractCandidate (e : Env) (archive : string) (slot : Slot) (release version : string) (i : Installation) : option (string * Payload) :=
  if ev_local e 1 then None else
  match first_entry archive with
  | None => None
  | Some header =>
      if negb (String.eqb (te_Name header) "mintclaw-node") || negb (te_Regular header) || negb (String.eqb (te_Linkname header) "")
         || (te_Size header <=? 0) || (MaxPayloadBytes <? te_Size header) || negb (Z.land (te_Mode header) 3584 =? 0)
         || (Z.land (te_Mode header) 73 =? 0) then None
      else match te_Data header with
      | None => None
      | Some data =>
          if negb (len data =? te_Size header) || negb (te_Last header) || negb (ValidateExecutable data (is_Platform i) (is_Architecture i))
          then None else Some (data, mkPayload slot release version (sha256_hex data) (len data))
      end
  end.
Definition publishCandidate (e : Env) (data : string) (slot : Slot) (d : Store) : Store * result UpdateError () :=
  match rt_slot (st_now d) slot with
  | Some Foreign => (d, Err ErrStore)
  | _ => published (ev_publish e) (put_slot slot data) d
  end.

(** ** Staging *)

(** The [k]-th commit of a call, of the state after one more generation. *)
Definition commit (e : Env) (k : nat) (s : State) (d : Store) : Store * result UpdateError () :=
  Commit (ev_unread e k) (ev_write e k) (uint64 (us_Generation s - 1)) s d.
Definition state_unknown : Answer := fails (StageError "state_unknown").
Definition failStage (e : Env) (k : nat) (s : State) (code : string) (d : Store) : Store * Answer :=
  let now := Unix (ev_now e k) in
  let s := on_transaction (fun t =>
    t <| tx_Phase := PhaseOperatorActionRequired |> <| tx_FailureCode := code |> <| tx_UpdatedAt := Z.min now (tx_ExpiresAt t) |>) (next_generation s) in
  match commit e k s d with
  | (d, Err _) => (d, state_unknown)
  | (d, Ok _) => (d, (Some s, Some (StageError code)))
  end.
Definition cancelStage (e : Env) (k : nat) (s : State) (d : Store) : Store * Answer :=
  let s := on_transaction (fun t =>
    let at_ := transitionTime (ev_now e k) t in
    t <| tx_Canceled := true |> <| tx_CanceledAt := at_ |> <| tx_FailureCode := "canceled" |> <| tx_UpdatedAt := at_ |>) (next_generation s) in
  match commit e k s d with
  | (d, Err _) => (d, state_unknown)
  | (d, Ok _) => (d, answers s)
  end.
Definition stop_or_fail (e : Env) (look k : nat) (s : State) (code : string) (d : Store) : Store * Answer :=
  if ev_done e look then cancelStage e k s d else failStage e k s code d.
Definition to_staged (at_ : Transaction → Z) (s : State) : State :=
  on_transaction (fun t => t <| tx_Phase := PhaseStaged |> <| tx_UpdatedAt := at_ t |>) (next_generation s).
Definition reconcilePublishedCandidate (e : Env) (s : State) (d : Store) : Store * result UpdateError (option State) :=
  match us_Transaction s ≫= tx_Candidate with
  | None => (d, Ok None)
  | Some candidate =>
      if verifyPayload (ev_damaged e 0) candidate (us_Installation s) (st_now d) then
        let s := to_staged (fun t => Z.min (Unix (ev_now e 2)) (tx_ExpiresAt t)) s in
        match commit e 2 s d with
        | (d, Err x) => (d, Err x)
        | (d, Ok _) => (d, Ok (Some s))
        end
      else (d, Ok None)
  end.
(** What is downloaded: the executable and its payload; or the reason why not,
    with the place where the context is looked at before it is given. *)
Inductive Refusal := Refuse (code : string) | RefuseUnlessDone (look : nat) (code : string).
Definition download (e : Env) (coordinator_version : string) (s : State) (t : Transaction) (a : ResolvedRelease) :
    result Refusal (string * Payload) :=
  match releaseAssetURL (rr_BaseURL a) (rr_Tag a) manifestAssetName, releaseAssetURL (rr_BaseURL a) (rr_Tag a) signatureAssetName with
  | Some manifestURL, Some signatureURL =>
      match fetchBounded e manifestURL MaxManifestBytes with
      | None => Err (RefuseUnlessDone 1 "manifest_unavailable")
      | Some manifestData =>
          reject negb (String.eqb (sha256_hex manifestData) (tx_ManifestSHA256 t)) with (Refuse "manifest_changed") ;;
          match fetchBounded e signatureURL MaxSignatureBytes with
          | None => Err (RefuseUnlessDone 2 "manifest_unavailable")
          | Some signatureData =>
              match VerifyAt manifestData signatureData (rr_TrustedKey a) (ev_now e 10) with
              | Err _ => Err (Refuse "manifest_untrusted")
              | Ok manifest =>
                  reject negb (String.eqb (mf_Release manifest) (rr_Tag a)) || negb (String.eqb (mf_Channel manifest) (rr_Channel a))
                         || (CompareReleaseVersions coordinator_version (mf_MinimumCoordinatorVersion manifest) <? 0)
                    with (Refuse "manifest_untrusted") ;;
                  match manifestArtifact manifest (is_Platform (us_Installation s)) (is_Architecture (us_Installation s)) with
                  | None => Err (Refuse "artifact_changed")
                  | Some artifact =>
                      reject negb (String.eqb (at_SHA256 artifact) (tx_ArtifactSHA256 t)) with (Refuse "artifact_changed") ;;
                      match releaseAssetURL (rr_BaseURL a) (rr_Tag a) (at_Name artifact) with
                      | None => Err (Refuse "source_invalid")
                      | Some artifactURL =>
                          match downloadArchive e artifactURL artifact with
                          | None => Err (RefuseUnlessDone 3 "download_failed")
                          | Some archive =>
                              match extractCandidate e archive (candidateSlot (py_Slot (us_Active s))) (mf_Release manifest) (rr_Version a)
                                      (us_Installation s) with
                              | None => Err (Refuse "artifact_invalid")
                              | Some candidate => reject negb (ev_signed e) with (Refuse "platform_signature_invalid") ;; Ok candidate
                              end
                          end
                      end
                  end
              end
          end
      end
  | _, _ => Err (Refuse "source_invalid")
  end.
Definition stageCandidate (e : Env) (s : State) (t : Transaction) (data : string) (candidate : Payload) (d : Store) : Store * Answer :=
  if negb (Before (ev_now e 11) (timeFromUnix (tx_ExpiresAt t))) then failStage e 5 s "request_expired" d
  else if ev_done e 4 then cancelStage e 5 s d
  else
    let s := on_transaction (fun t => t <| tx_Phase := PhaseVerified |> <| tx_Candidate := Some candidate |>
                                       <| tx_UpdatedAt := transitionTime (ev_now e 3) t |>) (next_generation s) in
    match commit e 3 s d with
    | (d, Err _) => (d, state_unknown)
    | (d, Ok _) =>
        match publishCandidate e data (py_Slot candidate) d with
        | (d, Err _) => failStage e 5 s "publication_failed" d
        | (d, Ok _) =>
            if ev_done e 5 then cancelStage e 5 s d
            else
              let s := to_staged (transitionTime (ev_now e 4)) s in
              match commit e 4 s d with
              | (d, Err _) => (d, state_unknown)
              | (d, Ok _) => (d, answers s)
              end
        end
    end.
Definition stageDownloaded (e : Env) (version : string) (s : State) (t : Transaction) (a : ResolvedRelease) (d : Store) : Store * Answer :=
  if ev_done e 0 then cancelStage e 5 s d else
  let go d :=
    match download e version s t a with
    | Err (Refuse code) => failStage e 5 s code d
    | Err (RefuseUnlessDone look code) => stop_or_fail e look 5 s code d
    | Ok (data, candidate) => stageCandidate e s t data candidate d
    end in
  if in_phase t [PhaseVerified] then
    match reconcilePublishedCandidate e s d with
    | (d, Err _) => (d, state_unknown)
    | (d, Ok (Some s)) => (d, answers s)
    | (d, Ok None) => go d
    end
  else go d.
Definition resumeStage (e : Env) (version : string) (s : State) (t : Transaction) (a : ResolvedRelease) (d : Store) : Store * Answer :=
  match tx_Phase t with
  | PhasePrepared =>
      let t := t <| tx_Phase := PhaseDownloading |> <| tx_UpdatedAt := Z.min (Unix (ev_now e 1)) (tx_ExpiresAt t) |> in
      let s := (next_generation s) <| us_Transaction := Some t |> in
      match commit e 1 s d with
      | (d, Err x) => (d, fails x)
      | (d, Ok _) => stageDownloaded e version s t a d
      end
  | PhaseDownloading | PhaseVerified => stageDownloaded e version s t a d
  | _ => (d, answers s)
  end.
Definition accepted (r : StageRequest) (a : ResolvedRelease) (hash : string) (now : Time) : Transaction :=
  mkTransaction (sr_Identity r) hash (rr_Profile a) (rr_ProfileRevision a) (rr_ReleaseAlias a) (rr_Tag a) (sr_ExpectedManifestSHA256 r)
    (sr_ExpectedArtifactSHA256 r) PhasePrepared None None false false false false 0 "" false 0 (Unix now) (Unix (sr_ExpiresAt r)) (Unix now).
Definition Stage (e : Env) (version : string) (r : StageRequest) (d : Store) : Store * Answer :=
  let now := ev_now e 0 in
  match StageRequest_Validate r now, ev_resolve e with
  | Err x, _ => (d, fails x)
  | Ok _, None => (d, fails ErrUpdateDenied)
  | Ok _, Some a =>
      if negb (is_ok (ResolvedRelease_Validate a)) || negb (String.eqb (rr_Profile a) (sr_Profile r))
         || negb (String.eqb (rr_ReleaseAlias a) (sr_ReleaseAlias r))
         || negb (String.eqb (rr_AuthorityHash a) (ex_AuthorityHash (sr_Identity r))) then (d, fails ErrUpdateDenied)
      else match loadLocked (ev_unread e 0) d with
      | Err x => (d, fails x)
      | Ok s =>
          let hash := hashStageRequest r a (us_Installation s) in
          let start d :=
            if negb (rr_AllowDowngrade a) && (CompareReleaseVersions (rr_Version a) (py_Version (us_Active s)) <? 0) then (d, fails ErrUpdateDenied)
            else
              let t := accepted r a hash now in
              let s := (next_generation s) <| us_Transaction := Some t |> in
              match commit e 6 s d with
              | (d, Err x) => (d, fails x)
              | (d, Ok _) =>
                  let t := t <| tx_Phase := PhaseDownloading |> in
                  let s := (next_generation s) <| us_Transaction := Some t |> in
                  match commit e 7 s d with
                  | (d, Err x) => (d, fails x)
                  | (d, Ok _) => stageDownloaded e version s t a d
                  end
              end in
          match us_Transaction s with
          | None => start d
          | Some t =>
              if sameExecution (tx_Identity t) (sr_Identity r) then
                if negb (String.eqb (tx_RequestHash t) hash) then (d, fails ErrTransactionConflict)
                else if tx_Canceled t || terminalPhase t then (d, answers s)
                else resumeStage e version s t a d
              else if negb (terminalPhase t) then (d, fails ErrTransactionBusy)
              else start d
          end
      end
  end.

(** ** Activation and roll-back ([lifecycle.go]) *)

Record HealthObservation := mkHealth {
  ho_NodeID : string; ho_Version : string; ho_Platform : string; ho_Architecture : string; ho_CatalogHash : string; ho_ObservedAt : Time }.
Definition HealthObservation_Validate (h : HealthObservation) (i : Installation) (p : Payload) : result UpdateError () :=
  reject negb (String.eqb (ho_NodeID h) (is_NodeID i)) || negb (String.eqb (ho_Version h) (py_Version p))
         || negb (String.eqb (ho_Platform h) (is_Platform i)) || negb (String.eqb (ho_Architecture h) (is_Architecture i))
         || negb (isDigest (ho_CatalogHash h) 32) || IsZero (ho_ObservedAt h) with ErrInvalid ;;
  Ok tt.

Definition requireOperatorAction (e : Env) (k : nat) (s : State) (code : string) (d : Store) : Store * Answer :=
  if negb (boundedNamePattern code) then (d, fails ErrInvalid) else
  let s := on_transaction (fun t => t <| tx_Phase := PhaseOperatorActionRequired |> <| tx_FailureCode := code |>
                                     <| tx_UpdatedAt := transitionTime (ev_now e k) t |>) (next_generation s) in
  match commit e k s d with
  | (d, Err x) => (d, fails x)
  | (d, Ok _) => (d, answers s)
  end.
Definition denyActivation (e : Env) (k : nat) (s : State) (code : string) (d : Store) : Store * Answer :=
  match requireOperatorAction e k s code d with
  | (d, (Some s, None)) => (d, (Some s, Some ErrUpdateDenied))
  | (d, (_, x)) => (d, (None, x))
  end.
Definition reconcileActivationCommit (e : Env) (expected : State) (commitErr : UpdateError) (d : Store) : Answer :=
  match loadLocked (ev_unread e 2) d, us_Transaction expected with
  | Ok observed, Some x =>
      match us_Transaction observed with
      | None => fails ErrActivationOutcomeUnknown
      | Some o =>
          if negb (sameExecution (tx_Identity o) (tx_Identity x)) || negb (String.eqb (tx_RequestHash o) (tx_RequestHash x))
          then fails ErrActivationOutcomeUnknown
          else if (us_Generation observed =? us_Generation expected) && in_phase o [PhaseActivating] && tx_ActivationAttempted o
                  && bool_decide (us_Active observed = us_Active expected) && samePayload (tx_Candidate o) (tx_Candidate x)
                  && samePayload (tx_Previous o) (tx_Previous x) then answers observed
          else if (uint64 (us_Generation observed + 1) =? us_Generation expected) && in_phase o [PhaseStaged] && negb (tx_ActivationAttempted o)
                  && samePayload (Some (us_Active observed)) (tx_Previous x) && samePayload (tx_Candidate o) (tx_Candidate x)
               then (Some observed, Some commitErr)
          else fails ErrActivationOutcomeUnknown
      end
  | _, _ => fails ErrActivationOutcomeUnknown
  end.
(** The state of this transaction, or why there is none. *)
Definition load_transaction (e : Env) (x : ExecutionIdentity) (d : Store) : result UpdateError (State * Transaction) :=
  s ← loadLocked (ev_unread e 0) d;
  match us_Transaction s with
  | Some t => reject negb (sameExecution (tx_Identity t) x) with ErrTransactionConflict ;; Ok (s, t)
  | None => Err ErrTransactionConflict
  end.
Definition activated (now : Time) (s : State) (t : Transaction) (candidate : Payload) : State :=
  (next_generation s) <| us_Active := candidate |>
    <| us_Transaction := Some (t <| tx_Previous := Some (us_Active s) |> <| tx_Phase := PhaseActivating |>
                                 <| tx_ActivationAttempted := true |> <| tx_UpdatedAt := transitionTime now t |>) |>.
Definition same_authority (a : ResolvedRelease) (t : Transaction) : bool :=
  is_ok (ResolvedRelease_Validate a) && String.eqb (rr_Profile a) (tx_Profile t) && String.eqb (rr_ProfileRevision a) (tx_ProfileRevision t)
  && String.eqb (rr_ReleaseAlias a) (tx_ReleaseAlias t) && String.eqb (rr_Tag a) (tx_RequestedRelease t)
  && String.eqb (rr_AuthorityHash a) (ex_AuthorityHash (tx_Identity t)).
Definition Activate (e : Env) (x : ExecutionIdentity) (d : Store) : Store * Answer :=
  match load_transaction e x d with
  | Err x => (d, fails x)
  | Ok (s, t) =>
      if tx_Canceled t then (d, (Some s, Some ErrActivationTooLate)) else
      match tx_Phase t with
      | PhaseStaged =>
          match tx_Candidate t with
          | None => (d, fails ErrNotStaged)
          | Some candidate =>
              if tx_ExpiresAt t <=? Unix (ev_now e 0) then denyActivation e 3 s "request_expired" d
              else if match ev_resolve e with Some a => negb (same_authority a t) | None => true end
                   then denyActivation e 3 s "authority_changed" d
              else if negb (verifyPayload (ev_damaged e 0) candidate (us_Installation s) (st_now d))
                   then requireOperatorAction e 3 s "candidate_changed" d
              else if negb (verifyPayload (ev_damaged e 1) (us_Active s) (us_Installation s) (st_now d))
                   then requireOperatorAction e 3 s "previous_changed" d
              else
                let next := activated (ev_now e 1) s t candidate in
                match commit e 1 next d with
                | (d, Err x) => (d, reconcileActivationCommit e next x d)
                | (d, Ok _) => (d, answers next)
                end
          end
      | PhasePrepared | PhaseDownloading | PhaseVerified => (d, fails ErrNotStaged)
      | _ => (d, answers s)
      end
  end.
(** What [Cancel] does once it has the mutex; before, it cancels the context of
    a staging under way for the transaction, and waits for it. *)
Definition Cancel (e : Env) (x : ExecutionIdentity) (d : Store) : Store * Answer :=
  match ExecutionIdentity_Validate x with
  | Err err => (d, fails err)
  | Ok _ =>
      match load_transaction e x d with
      | Err err => (d, fails err)
      | Ok (s, t) =>
          if tx_Canceled t then (d, answers s)
          else if in_phase t [PhasePrepared; PhaseDownloading; PhaseVerified; PhaseStaged] then cancelStage e 1 s d
          else (d, (Some s, Some ErrActivationTooLate))
      end
  end.
(** A commit that is answered as it is. *)
Definition commit_answer (e : Env) (s : State) (d : Store) : Store * Answer :=
  match commit e 1 s d with (d, Err x) => (d, fails x) | (d, Ok _) => (d, answers s) end.
Definition launched (now : Time) (s : State) : State :=
  on_transaction (fun t => t <| tx_LaunchAttempts ::= Z.succ |> <| tx_UpdatedAt := transitionTime now t |>) (next_generation s).
Definition RecordLaunch (e : Env) (x : ExecutionIdentity) (d : Store) : Store * Answer :=
  match load_transaction e x d with
  | Err err => (d, fails err)
  | Ok (s, t) =>
      if negb (in_phase t [PhaseActivating; PhaseRollingBack]) then (d, fails ErrActivationTooLate)
      else if MaxLaunchAttempts <=? tx_LaunchAttempts t then (d, (Some s, Some ErrLaunchLimit))
      else if negb (verifyPayload (ev_damaged e 0) (us_Active s) (us_Installation s) (st_now d))
           then requireOperatorAction e 3 s "selected_payload_changed" d
      else commit_answer e (launched (ev_now e 0) s) d
  end.
Definition healthy (now : Time) (s : State) : State :=
  on_transaction (fun t => t <| tx_Phase := PhaseHealthy |> <| tx_SuccessorVerified := true |> <| tx_FailureCode := "" |>
                             <| tx_UpdatedAt := transitionTime now t |>) (next_generation s).
Definition CommitHealthy (e : Env) (x : ExecutionIdentity) (h : HealthObservation) (d : Store) : Store * Answer :=
  match load_transaction e x d with
  | Err err => (d, fails err)
  | Ok (s, t) =>
      if negb (in_phase t [PhaseActivating]) then (d, fails ErrTransactionConflict)
      else match HealthObservation_Validate h (us_Installation s) (us_Active s) with
      | Err err => (d, fails err)
      | Ok _ => commit_answer e (healthy (ev_now e 0) s) d
      end
  end.
Definition rolling_back (now : Time) (s : State) (previous : Payload) (code : string) : State :=
  on_transaction (fun t => t <| tx_Phase := PhaseRollingBack |> <| tx_RollbackAttempted := true |> <| tx_LaunchAttempts := 0 |>
                             <| tx_FailureCode := code |> <| tx_UpdatedAt := transitionTime now t |>)
    ((next_generation s) <| us_Active := previous |>).
Definition BeginRollback (e : Env) (x : ExecutionIdentity) (code : string) (d : Store) : Store * Answer :=
  match load_transaction e x d with
  | Err err => (d, fails err)
  | Ok (s, t) =>
      if in_phase t [PhaseRollingBack; PhaseRolledBack; PhaseOperatorActionRequired; PhaseUnknown] then (d, answers s) else
      match in_phase t [PhaseActivating], tx_Previous t with
      | true, Some previous =>
          if negb (boundedNamePattern code) then (d, fails ErrInvalid)
          else if negb (verifyPayload (ev_damaged e 0) previous (us_Installation s) (st_now d))
               then requireOperatorAction e 3 s "rollback_payload_changed" d
          else commit_answer e (rolling_back (ev_now e 0) s previous code) d
      | _, _ => (d, fails ErrActivationTooLate)
      end
  end.
Definition rolled_back (now : Time) (s : State) : State :=
  on_transaction (fun t => t <| tx_Phase := PhaseRolledBack |> <| tx_RollbackVerified := true |>
                             <| tx_UpdatedAt := transitionTime now t |>) (next_generation s).
Definition CommitRolledBack (e : Env) (x : ExecutionIdentity) (h : HealthObservation) (d : Store) : Store * Answer :=
  match load_transaction e x d with
  | Err err => (d, fails err)
  | Ok (s, t) =>
      if negb (in_phase t [PhaseRollingBack]) then (d, fails ErrTransactionConflict)
      else match HealthObservation_Validate h (us_Installation s) (us_Active s) with
      | Err err => (d, fails err)
      | Ok _ => commit_answer e (rolled_back (ev_now e 0) s) d
      end
  end.
Definition RequireOperatorAction (e : Env) (x : ExecutionIdentity) (code : string) (d : Store) : Store * Answer :=
  match load_transaction e x d with
  | Err err => (d, fails err)
  | Ok (s, _) => requireOperatorAction e 1 s code d
  end.

(** ** The supervisor ([supervisor.go]) *)

(** An update request of the companion program: staged, then activated.  The
    flag is true when the program has to make way for its successor. *)
Definition handle_update (e1 e2 : Env) (version : string) (r : StageRequest) (d : Store) : Store * Answer * bool :=
  let '(d, a) := Stage e1 version r d in
  let '(d, a) :=
    match a with
    | (Some s, None) =>
        match us_Transaction s with
        | Some t => if in_phase t [PhaseStaged] then Activate e2 (sr_Identity r) d else (d, a)
        | None => (d, a)
        end
    | _ => (d, a)
    end in
  (d, a, match a with
         | (_, Some ErrActivationOutcomeUnknown) => true
         | (Some s, None) => match us_Transaction s with Some t => in_phase t [PhaseActivating] | None => false end
         | _ => false
         end).
Definition status (e : Env) (x : ExecutionIdentity) (d : Store) : Answer :=
  match load_transaction e x d with Ok (s, _) => answers s | Err err => fails err end.
Definition safeCoordinatorError (x : option UpdateError) : string :=
  match x with
  | None => ""
  | Some (StageError code) => code
  | Some ErrTransactionConflict => "identity_conflict"
  | Some ErrTransactionBusy => "update_busy"
  | Some ErrUpdateDenied => "update_denied"
  | Some ErrNotStaged => "candidate_not_staged"
  | Some ErrActivationTooLate => "activation_too_late"
  | Some _ => "state_unknown"
  end.

(** Where the loop of [Run] stands.  [PAttempt]: a loaded state with an update
    under way; [PLaunch], [PWait]: its transaction with the state that recorded
    the launch; [PRecord], [PGiveUp]: an attempt that failed; [PServe]: a
    program runs, with no health expected. *)
Inductive Pc :=
| PTop | PExpire (x : ExecutionIdentity) | PSteady (s : State) | PAttempt (s : State) (t : Transaction)
| PLaunch (t : Transaction) (s : State) | PWait (t : Transaction) (s : State)
| PRecord (x : ExecutionIdentity) (p : Phase) (code : string) | PGiveUp (x : ExecutionIdentity) (p : Phase) (code : string)
| PServe | PHalt | PExit.
(** What the running program does: it proves its health, ends or does not prove
    it in time, or asks for an update; or the context ends. *)
Inductive ChildEvent := CHealth (h : HealthObservation) | CFailed | CActivated | CCanceled.
(** A payload that is started, with the transaction it is started for. *)
Record Launch := mkLaunch { ln_payload : Payload; ln_installation : Installation; ln_update : option Transaction }.

Definition launchSelected (e : Env) (s : State) (d : Store) : bool :=
  verifyPayload (ev_damaged e 1) (us_Active s) (us_Installation s) (st_now d) && negb (ev_local e 0).
Definition then_top (x : Store * Answer) : Store * Pc := (x.1, match x.2 with (_, None) => PTop | _ => PExit end).
Definition sup_step (e : Env) (c : ChildEvent) (pc : Pc) (d : Store) : Store * Pc * option Launch :=
  match pc with
  | PTop =>
      if ev_done e 0 then (d, PExit, None) else
      match loadLocked (ev_unread e 0) d with
      | Err _ => (d, PExit, None)
      | Ok s =>
          (d, match us_Transaction s with
              | None => PSteady s
              | Some t =>
                  match tx_Phase t with
                  | PhasePrepared | PhaseDownloading | PhaseVerified | PhaseStaged =>
                      if negb (tx_Canceled t) && (tx_ExpiresAt t <=? Unix (ev_now e 0)) then PExpire (tx_Identity t) else PSteady s
                  | PhaseActivating | PhaseRollingBack => PAttempt s t
                  | PhaseUnknown => PHalt
                  | PhaseOperatorActionRequired => if tx_ActivationAttempted t then PHalt else PSteady s
                  | PhaseHealthy | PhaseRolledBack => PSteady s
                  end
              end, None)
      end
  | PExpire x => (then_top (RequireOperatorAction e x "request_expired" d), None)
  | PSteady s =>
      if launchSelected e s d then (d, PServe, Some (mkLaunch (us_Active s) (us_Installation s) None)) else (d, PExit, None)
  | PAttempt s t =>
      if MaxLaunchAttempts <=? tx_LaunchAttempts t then
        if in_phase t [PhaseActivating] then (then_top (BeginRollback e (tx_Identity t) "successor_unhealthy" d), None)
        else (then_top (RequireOperatorAction e (tx_Identity t) "rollback_unproven" d), None)
      else match RecordLaunch e (tx_Identity t) d with
      | (d, (Some s, None)) => (d, PLaunch t s, None)
      | (d, _) => (d, PExit, None)
      end
  | PLaunch t s =>
      if launchSelected e s d then (d, PWait t s, Some (mkLaunch (us_Active s) (us_Installation s) (Some t)))
      else (d, PRecord (tx_Identity t) (tx_Phase t) "payload_start_failed", None)
  | PWait t s =>
      match c with
      | CCanceled | CActivated => (d, PExit, None)
      | CFailed => (d, PRecord (tx_Identity t) (tx_Phase t) "health_unproven", None)
      | CHealth h =>
          match us_Transaction s with
          | None => (d, PWait t s, None)
          | Some t' =>
              let x := if in_phase t' [PhaseActivating] then CommitHealthy e (tx_Identity t') h d else CommitRolledBack e (tx_Identity t') h d in
              (x.1, match x.2 with (_, None) => PServe | _ => PRecord (tx_Identity t) (tx_Phase t) "health_unproven" end, None)
          end
      end
  | PRecord x p code =>
      match load_transaction e x d with
      | Err _ => (d, PExit, None)
      | Ok (_, t) => (d, if tx_LaunchAttempts t <? MaxLaunchAttempts then PTop else PGiveUp x p code, None)
      end
  | PGiveUp x p code =>
      if bool_decide (p = PhaseActivating) then (then_top (BeginRollback e x code d), None)
      else (then_top (RequireOperatorAction e x "rollback_unproven" d), None)
  | PServe => match c with CHealth _ => (d, PServe, None) | CFailed | CActivated => (d, PTop, None) | CCanceled => (d, PExit, None) end
  | PHalt => (d, if ev_done e 0 then PExit else PHalt, None)
  | PExit => (d, PExit, None)
  end.

(** The whole: the supervisor, the requests of the program while one runs, and
    a crash or an exit, after which the service manager starts a new process. *)
Inductive Act :=
| AStep (c : ChildEvent) | AStage (version : string) (r : StageRequest) | AActivate (x : ExecutionIdentity) | ACancel (x : ExecutionIdentity)
| ACrash (k : nat).
Definition running (pc : Pc) : bool := match pc with PWait _ _ | PServe => true | _ => false end.
Definition act (e : Env) (a : Act) (pc : Pc) (d : Store) : Store * Pc * option Launch :=
  match a with
  | AStep c => sup_step e c pc d
  | AStage version r => if running pc then ((Stage e version r d).1, pc, None) else (d, pc, None)
  | AActivate x => if running pc then ((Activate e x d).1, pc, None) else (d, pc, None)
  | ACancel x => if running pc then ((Cancel e x d).1, pc, None) else (d, pc, None)
  | ACrash k => (crash k d, PTop, None)
  end.
End coordinator.
