(* ===== verification/NodeUpdateProps.v ===== *)
(** The update coordinator: what it writes is a step of the protocol
    ([step_of]), so that there is always a program to run and one to fall back
    on, and what runs was signed and pinned; an update is tried a bounded number
    of times ([trials]) and comes to an end ([work]); an activation answers what
    it did.  The properties at a concrete release. *)
From Stdlib Require Import Ascii.
From S2P Require Import Prelude GoStrings GoJson GoTime GoText CodingScope Network UpdateManifest NodeUpdate.
#[local] Open Scope Z_scope.

Implicit Types (r : Root) (d : Store) (s : State) (t : Transaction) (p c : Payload) (i : Installation).

Section props.
Context {UC : UnicodeCase} {NL : NetLibrary} {SH : Sha256} {UL : UpdateLibrary} {TR : TarReader}.

(** ** The protocol *)

(** The file of the payload's slot is that payload. *)
Definition intact r i p : Prop := verifyPayload false p i r = true.
(** The payload is the program of an archive with the digest [artifactSHA256]:
    the archive is that of a manifest with the digest [manifestSHA256], signed
    with the key of the release authority [a], which is valid and the one that
    the identity [x] names. *)
Definition program_of (a : ResolvedRelease) (x : ExecutionIdentity) (manifestSHA256 artifactSHA256 : string) i p : Prop :=
  ∃ manifestData signatureData now manifest artifact archive header data,
  ResolvedRelease_Validate a = Ok tt ∧ rr_AuthorityHash a = ex_AuthorityHash x ∧
  sha256_hex manifestData = manifestSHA256 ∧ VerifyAt manifestData signatureData (rr_TrustedKey a) now = Ok manifest ∧
  mf_Release manifest = rr_Tag a ∧ manifestArtifact manifest (is_Platform i) (is_Architecture i) = Some artifact ∧
  at_SHA256 artifact = artifactSHA256 ∧ sha256_hex archive = artifactSHA256 ∧ len archive = at_Size artifact ∧
  first_entry archive = Some header ∧ te_Name header = "mintclaw-node" ∧ te_Last header = true ∧ te_Data header = Some data ∧
  ValidateExecutable data (is_Platform i) (is_Architecture i) = true ∧
  py_Release p = rr_Tag a ∧ py_Version p = rr_Version a ∧ py_SHA256 p = sha256_hex data ∧ py_Size p = len data.

(** A request to stage, and what its call meets: the request that a call of the
    coordinator serves, if it serves one. *)
Definition Served : Type := option (Env * StageRequest).
Implicit Types (y : Served).
(** The transaction is the one that the request asks for: with its identity, the
    digest of its manifest and that of its artifact. *)
Definition asked (q : StageRequest) t : Prop :=
  tx_Identity t = sr_Identity q ∧ tx_ManifestSHA256 t = sr_ExpectedManifestSHA256 q ∧ tx_ArtifactSHA256 t = sr_ExpectedArtifactSHA256 q.
(** The payload is what the transaction pins, of the release to which the call
    resolves its request; the request is one for that transaction. *)
Definition pinned y t i p : Prop := ∃ e q a, y = Some (e, q) ∧ sr_Identity q = tx_Identity t ∧ ev_resolve e = Some a ∧
  program_of a (tx_Identity t) (tx_ManifestSHA256 t) (tx_ArtifactSHA256 t) i p.

Definition fresh t : Prop :=
  tx_Phase t = PhasePrepared ∧ tx_Candidate t = None ∧ tx_Previous t = None ∧ tx_ActivationAttempted t = false ∧ tx_SuccessorVerified t = false ∧
  tx_RollbackAttempted t = false ∧ tx_RollbackVerified t = false ∧ tx_LaunchAttempts t = 0 ∧ tx_Canceled t = false.
(** One write of the state: the payload that is selected and the transaction,
    before and after.  Only for a request may the transaction be a new one,
    which is then the one that the request asks for, and only for a request is
    a candidate accepted. *)
Inductive step_of y r i (a : Payload) : option Transaction → Payload → Transaction → Prop :=
| st_accept past t e q : y = Some (e, q) → asked q t → (∀ t0, past = Some t0 → terminalPhase t0 = true) → fresh t → step_of y r i a past a t
| st_download t u : tx_Phase t = PhasePrepared → tx_Canceled t = false →
    step_of y r i a (Some t) a (t <| tx_Phase := PhaseDownloading |> <| tx_UpdatedAt := u |>)
| st_verified t c u : tx_Phase t = PhaseDownloading ∨ tx_Phase t = PhaseVerified → tx_Canceled t = false → pinned y t i c →
    step_of y r i a (Some t) a (t <| tx_Phase := PhaseVerified |> <| tx_Candidate := Some c |> <| tx_UpdatedAt := u |>)
| st_staged t c u : tx_Phase t = PhaseVerified → tx_Canceled t = false → tx_Candidate t = Some c → intact r i c →
    step_of y r i a (Some t) a (t <| tx_Phase := PhaseStaged |> <| tx_UpdatedAt := u |>)
| st_canceled t u : tx_Canceled t = false → tx_Phase t ∈ [PhasePrepared; PhaseDownloading; PhaseVerified; PhaseStaged] →
    step_of y r i a (Some t) a (t <| tx_Canceled := true |> <| tx_CanceledAt := u |> <| tx_FailureCode := "canceled" |> <| tx_UpdatedAt := u |>)
| st_activating t c u : tx_Phase t = PhaseStaged → tx_Canceled t = false → tx_Candidate t = Some c → intact r i c → intact r i a →
    step_of y r i a (Some t) c (t <| tx_Previous := Some a |> <| tx_Phase := PhaseActivating |> <| tx_ActivationAttempted := true |> <| tx_UpdatedAt := u |>)
| st_launch t u : tx_Phase t = PhaseActivating ∨ tx_Phase t = PhaseRollingBack → tx_LaunchAttempts t < MaxLaunchAttempts →
    step_of y r i a (Some t) a (t <| tx_LaunchAttempts ::= Z.succ |> <| tx_UpdatedAt := u |>)
| st_healthy t u : tx_Phase t = PhaseActivating →
    step_of y r i a (Some t) a (t <| tx_Phase := PhaseHealthy |> <| tx_SuccessorVerified := true |> <| tx_FailureCode := "" |> <| tx_UpdatedAt := u |>)
| st_rolling_back t p code u : tx_Phase t = PhaseActivating → tx_Previous t = Some p → intact r i p →
    step_of y r i a (Some t) p (t <| tx_Phase := PhaseRollingBack |> <| tx_RollbackAttempted := true |> <| tx_LaunchAttempts := 0 |>
                                <| tx_FailureCode := code |> <| tx_UpdatedAt := u |>)
| st_rolled_back t u : tx_Phase t = PhaseRollingBack →
    step_of y r i a (Some t) a (t <| tx_Phase := PhaseRolledBack |> <| tx_RollbackVerified := true |> <| tx_UpdatedAt := u |>)
| st_failed t code u :
    step_of y r i a (Some t) a (t <| tx_Phase := PhaseOperatorActionRequired |> <| tx_FailureCode := code |> <| tx_UpdatedAt := u |>).

(** A valid state is followed by the next one, of the same installation. *)
Record follows y r s s' : Prop := {
  fo_valid : State_Validate s = Ok tt; fo_next : State_Validate s' = Ok tt;
  fo_generation : us_Generation s' = uint64 (us_Generation s + 1);
  fo_successor : 0 ≤ us_Generation s < 2 ^ 64 → us_Generation s' = us_Generation s + 1;
  fo_installation : us_Installation s' = us_Installation s;
  fo_step : ∃ t', us_Transaction s' = Some t' ∧ step_of y r (us_Installation s) (us_Active s) (us_Transaction s) (us_Active s') t' }.
(** One change of the directory. *)
Inductive wrote y r : Root → Prop :=
| wr_state s s' : rt_state r = Some (Some s) → follows y r s s' → wrote y r (put_state s' r)
| wr_slot s t c data : rt_state r = Some (Some s) → State_Validate s = Ok tt → us_Transaction s = Some t → tx_Phase t = PhaseVerified →
    tx_Candidate t = Some c → sha256_hex data = py_SHA256 c → len data = py_Size c →
    ValidateExecutable data (is_Platform (us_Installation s)) (is_Architecture (us_Installation s)) = true →
    wrote y r (put_slot (py_Slot c) data r).
(** What a call may do to the store. *)
Inductive evolves y : Store → Store → Prop :=
| ev_refl d : evolves y d d
| ev_wrote d f d' : wrote y (st_now d) (f (st_now d)) → evolves y (change f d) d' → evolves y d d'
| ev_sync d d' : evolves y (sync d) d' → evolves y d d'.

(** At most one write of the state. *)
Inductive single y d : Store → Prop :=
| si_none : single y d d
| si_unsure s s' : rt_state (st_now d) = Some (Some s) → follows y (st_now d) s s' → single y d (change (put_state s') d)
| si_done s s' : rt_state (st_now d) = Some (Some s) → follows y (st_now d) s s' → single y d (sync (change (put_state s') d)).
Lemma follows_served y r s s' : follows None r s s' → follows y r s s'.
Proof.
  intros [F1 F2 F3 F4 F5 (t' & Ht & Hs)]. split; try done. exists t'. split; [done|].
  destruct Hs as [past t e q Hn|t u|t c u Hp Hc (? & ? & ? & Hn & _)|t c u|t u|t c u|t u|t u|t p code u|t u|t code u]; try done; econstructor; eassumption.
Qed.
Lemma single_evolves y d d' : single y d d' → evolves y d d'.
Proof.
  destruct 1 as [|s s' Hs Hf|s s' Hs Hf]; [constructor|..]; eapply ev_wrote; try (by eapply wr_state); [constructor|]. apply ev_sync. constructor.
Qed.
Lemma single_served y d d' : single None d d' → evolves y d d'.
Proof.
  intros Hs. apply single_evolves. destruct Hs as [|s s' Hs Hf|s s' Hs Hf]; [constructor|eapply si_unsure|eapply si_done]; try done; by apply follows_served.
Qed.
Lemma evolves_trans y d1 d2 d3 : evolves y d1 d2 → evolves y d2 d3 → evolves y d1 d3.
Proof. induction 1 as [d|d f d' Hw _ IH|d d' _ IH]; intros H3; [done|eapply ev_wrote; eauto|apply ev_sync; eauto]. Qed.
(** What holds of a directory and of every change of it holds of all that a
    crash may leave. *)
Lemma evolves_keeps y (P : Root → Prop) d d' : (∀ r r', P r → wrote y r r' → P r') →
  evolves y d d' → (∀ r, r ∈ may_leave d → P r) → ∀ r, r ∈ may_leave d' → P r.
Proof.
  intros HP. induction 1 as [d|d f d' Hw _ IH|d d' _ IH]; intros Hd; [done|apply IH..].
  - intros r [-> | Hr]%elem_of_cons; [eapply HP; [|exact Hw]; apply Hd; by left|by apply Hd].
  - intros r [-> | Hr]%elem_of_cons; [apply Hd; by left|by apply elem_of_nil in Hr].
Qed.

(** ** Every call follows the protocol *)

Definition at_state d s : Prop := rt_state (st_now d) = Some (Some s).
Lemma load_ok fails d s : loadLocked fails d = Ok s → at_state d s ∧ State_Validate s = Ok tt.
Proof.
  unfold loadLocked, at_state. intros [_ Hl]%reject_ok. destruct (rt_state (st_now d)) as [[s'|]|]; [|done..].
  apply result_bind_ok in Hl as ([] & Hv & [= <-]). done.
Qed.
Lemma load_transaction_ok e x d s t : load_transaction e x d = Ok (s, t) →
  at_state d s ∧ State_Validate s = Ok tt ∧ us_Transaction s = Some t ∧ tx_Identity t = x.
Proof.
  unfold load_transaction. intros (s' & Hl & Hk)%result_bind_ok. destruct (us_Transaction s') as [t'|] eqn:Et; [|done].
  apply reject_ok in Hk as [Hs [= -> ->]]. apply load_ok in Hl as [? ?]. apply negb_false_iff, bool_decide_eq_true in Hs. done.
Qed.
(** A valid state never has the generation to which the last one wraps. *)
Lemma valid_generation s : State_Validate s = Ok tt → us_Generation s ≠ 0.
Proof. unfold State_Validate. intros [[_ Hg]%orb_false_iff _]%reject_ok. lia. Qed.
Lemma generation_succ g : uint64 (g + 1) ≠ 0 → 0 ≤ g < 2 ^ 64 → uint64 (g + 1) = g + 1.
Proof.
  unfold uint64. intros Hne Hg. destruct (decide (g + 1 = 2 ^ 64)) as [He|]; [by rewrite He in Hne|]. apply Z.mod_small. lia.
Qed.
(** What a publication answers. *)
Inductive publishes (f : Root → Root) d : Store → result UpdateError () → Prop :=
| pu_none x : publishes f d d (Err x)
| pu_unsure x : publishes f d (change f d) (Err x)
| pu_done : publishes f d (sync (change f d)) (Ok tt).
Lemma published_spec outcome f d : publishes f d (published outcome f d).1 (published outcome f d).2.
Proof. destruct outcome; constructor. Qed.
Lemma commit_spec e k s d : publishes (put_state s) d (commit e k s d).1 (commit e k s d).2 ∧
  ((commit e k s d).1 = d ∧ (∃ x, (commit e k s d).2 = Err x) ∨
   ∃ s0, at_state d s0 ∧ State_Validate s0 = Ok tt ∧ State_Validate s = Ok tt ∧ us_Generation s = uint64 (us_Generation s0 + 1) ∧
     us_Installation s = us_Installation s0).
Proof.
  unfold commit, Commit. destruct (loadLocked _ d) as [s0|x] eqn:El; [|cbn; split; [constructor|left; eauto]]. apply load_ok in El as [Ha Hv].
  destruct (_ || _) eqn:Eg; [cbn; split; [constructor|left; eauto]|]. destruct (negb (bool_decide _)) eqn:Ei; [cbn; split; [constructor|left; eauto]|].
  destruct (State_Validate s) as [[]|x] eqn:Evs; [|cbn; split; [constructor|left; eauto]].
  unfold writeLocked. destruct (_ <? _); [cbn; split; [constructor|left; eauto]|]. cbn [andb]. split; [apply published_spec|right].
  apply orb_false_iff in Eg as [Hg Hn]. apply negb_false_iff in Hg, Hn, Ei. apply Z.eqb_eq in Hg, Hn. apply bool_decide_eq_true in Ei.
  exists s0. split_and!; try done. congruence.
Qed.
(** After a commit the file holds the state, or what it held. *)
Lemma commit_follows y e k s0 s d : at_state d s0 →
  (State_Validate s0 = Ok tt → State_Validate s = Ok tt →
   ∃ t', us_Transaction s = Some t' ∧ step_of y (st_now d) (us_Installation s0) (us_Active s0) (us_Transaction s0) (us_Active s) t') →
  single y d (commit e k s d).1 ∧
  ((commit e k s d).2 = Ok tt → State_Validate s = Ok tt ∧ (commit e k s d).1 = sync (change (put_state s) d)) ∧
  (st_now (commit e k s d).1 = st_now d ∨ st_now (commit e k s d).1 = put_state s (st_now d)).
Proof.
  intros Ha Hstep. destruct (commit_spec e k s d) as [Hp Hc].
  assert (Hw : (commit e k s d).1 = d ∧ (∃ x, (commit e k s d).2 = Err x) ∨ State_Validate s = Ok tt ∧ follows y (st_now d) s0 s).
  { destruct Hc as [Hc|(s1 & Ha' & Hv & Hv' & Hg & Hi)]; [by left|right]. split; [done|]. assert (s1 = s0) as -> by (unfold at_state in *; congruence).
    split; try done; [|by apply Hstep]. intros Hr. rewrite Hg. apply generation_succ; [|done]. rewrite <- Hg. by apply valid_generation. }
  destruct Hw as [[Hd [x Hx]]|[Hv Hw]].
  - rewrite Hd, Hx. split_and!; [constructor|done|by left].
  - destruct Hp; cbn; (split_and!; [..|first [by left|by right]]); try done; [constructor|by eapply si_unsure|by eapply si_done].
Qed.

(** ** Staging *)

Lemma failStage_single e k s t code d : at_state d s → us_Transaction s = Some t → single None d (failStage e k s code d).1.
Proof.
  intros Ha Ht. unfold failStage. set (s' := on_transaction _ _).
  destruct (commit_follows None e k s s' d Ha) as (Hev & _).
  - intros _ _. eexists. split; [unfold s'; cbn; by rewrite Ht|]. rewrite Ht. apply st_failed.
  - destruct (commit e k s' d) as [d' [|]]; exact Hev.
Qed.
Lemma cancelStage_single e k s t d : at_state d s → us_Transaction s = Some t → tx_Canceled t = false →
  tx_Phase t ∈ [PhasePrepared; PhaseDownloading; PhaseVerified; PhaseStaged] → single None d (cancelStage e k s d).1.
Proof.
  intros Ha Ht Hc Hp. unfold cancelStage. set (s' := on_transaction _ _).
  destruct (commit_follows None e k s s' d Ha) as (Hev & _).
  - intros _ _. eexists. split; [unfold s'; cbn; by rewrite Ht|]. rewrite Ht. by apply st_canceled.
  - destruct (commit e k s' d) as [d' [|]]; exact Hev.
Qed.
Lemma download_pinned e version s t a data c : ResolvedRelease_Validate a = Ok tt → rr_AuthorityHash a = ex_AuthorityHash (tx_Identity t) →
  download e version s t a = Ok (data, c) →
  program_of a (tx_Identity t) (tx_ManifestSHA256 t) (tx_ArtifactSHA256 t) (us_Installation s) c ∧ py_Slot c = candidateSlot (py_Slot (us_Active s)) ∧ py_SHA256 c = sha256_hex data ∧ py_Size c = len data ∧
  ValidateExecutable data (is_Platform (us_Installation s)) (is_Architecture (us_Installation s)) = true.
Proof.
  intros Ha Hh. unfold download. destruct (releaseAssetURL _ _ manifestAssetName) as [u1|]; [|done]. destruct (releaseAssetURL _ _ signatureAssetName) as [u2|]; [|done].
  destruct (fetchBounded e u1 _) as [manifestData|]; [|done]. destruct (negb _) eqn:Em; [done|]. apply negb_false_iff, String.eqb_eq in Em.
  destruct (fetchBounded e u2 _) as [signatureData|]; [|done]. destruct (VerifyAt _ _ _ _) as [manifest|] eqn:Ev; [|done].
  destruct (_ || _) eqn:Eb; [done|]. rewrite !orb_false_iff, !negb_false_iff, !String.eqb_eq in Eb. destruct Eb as [[Er _] _].
  destruct (manifestArtifact _ _ _) as [artifact|] eqn:Ef; [|done]. destruct (negb _) eqn:Es; [done|]. apply negb_false_iff, String.eqb_eq in Es.
  destruct (releaseAssetURL _ _ (at_Name artifact)) as [u3|]; [|done]. destruct (downloadArchive _ _ _) as [archive|] eqn:Ed; [|done].
  destruct (extractCandidate _ _ _ _ _ _) as [[data' c']|] eqn:Ex; [|done]. destruct (negb _); [done|]. intros [= -> ->].
  unfold downloadArchive in Ed. destruct (ev_get e u3) as [response|]; [|done]. destruct (_ || _); [done|]. destruct (rs_Body response); [|done].
  destruct (_ || _) eqn:Eb; [done|]. injection Ed as ->. rewrite !orb_false_iff, !negb_false_iff, !String.eqb_eq, Z.eqb_eq in Eb. destruct Eb as [[[El _] _] Esha].
  unfold extractCandidate in Ex. destruct (ev_local e 1); [done|]. destruct (first_entry archive) as [header|] eqn:Eh; [|done]. destruct (_ || _) eqn:Eb; [done|].
  rewrite !orb_false_iff, !negb_false_iff, !String.eqb_eq in Eb. destruct Eb as [[[[[[En _] _] _] _] _] _].
  destruct (te_Data header) as [data'|] eqn:Edata; [|done]. destruct (_ || _) eqn:Eb; [done|]. rewrite !orb_false_iff, !negb_false_iff in Eb. destruct Eb as [[_ Elast] Eexe].
  injection Ex as -> <-. split_and!; try done. exists manifestData, signatureData, (ev_now e 10), manifest, artifact, archive, header, data.
  cbn. rewrite <- Es. split_and!; done.
Qed.
Lemma at_put s r since : at_state (mkStore (put_state s r) since) s.
Proof. done. Qed.
Lemma intact_put r i data c : sha256_hex data = py_SHA256 c → len data = py_Size c →
  ValidateExecutable data (is_Platform i) (is_Architecture i) = true → intact (put_slot (py_Slot c) data r) i c.
Proof.
  intros Hs Hl He. unfold intact, verifyPayload, put_slot. cbn. by rewrite decide_True, Hl, Z.eqb_refl, He, Hs, String.eqb_refl.
Qed.
(** The publication of the candidate that the state names. *)
Lemma publishCandidate_evolves y e data s t c d : at_state d s → State_Validate s = Ok tt → us_Transaction s = Some t → tx_Phase t = PhaseVerified →
  tx_Candidate t = Some c → sha256_hex data = py_SHA256 c → len data = py_Size c →
  ValidateExecutable data (is_Platform (us_Installation s)) (is_Architecture (us_Installation s)) = true →
  evolves y d (publishCandidate e data (py_Slot c) d).1 ∧ at_state (publishCandidate e data (py_Slot c) d).1 s ∧
  ((publishCandidate e data (py_Slot c) d).2 = Ok tt → intact (st_now (publishCandidate e data (py_Slot c) d).1) (us_Installation s) c).
Proof.
  intros Ha Hv Ht Hp Hc Hs Hl He. unfold publishCandidate.
  assert (Hw : wrote y (st_now d) (put_slot (py_Slot c) data (st_now d))) by by eapply wr_slot.
  assert (Hgo : evolves y d (published (ev_publish e) (put_slot (py_Slot c) data) d).1 ∧ at_state (published (ev_publish e) (put_slot (py_Slot c) data) d).1 s ∧
    ((published (ev_publish e) (put_slot (py_Slot c) data) d).2 = Ok tt →
       intact (st_now (published (ev_publish e) (put_slot (py_Slot c) data) d).1) (us_Installation s) c)).
  { destruct (published_spec (ev_publish e) (put_slot (py_Slot c) data) d); cbn; split_and!; try done.
    - constructor.
    - eapply ev_wrote; [exact Hw|constructor].
    - eapply ev_wrote; [exact Hw|]. apply ev_sync. constructor.
    - intros _. by apply intact_put. }
  destruct (rt_slot (st_now d) (py_Slot c)) as [[|]|]; [exact Hgo| |exact Hgo]. split_and!; [constructor|done|done].
Qed.
Lemma phases_early ph : ph = PhaseDownloading ∨ ph = PhaseVerified → ph ∈ [PhasePrepared; PhaseDownloading; PhaseVerified; PhaseStaged].
Proof. intros [-> | ->]; set_solver. Qed.
Lemma stageCandidate_evolves y e s t data c d : at_state d s → us_Transaction s = Some t → tx_Phase t = PhaseDownloading ∨ tx_Phase t = PhaseVerified →
  tx_Canceled t = false → pinned y t (us_Installation s) c → py_SHA256 c = sha256_hex data → py_Size c = len data →
  ValidateExecutable data (is_Platform (us_Installation s)) (is_Architecture (us_Installation s)) = true →
  evolves y d (stageCandidate e s t data c d).1.
Proof.
  intros Ha Ht Hp Hc Hpin Hs Hl He. unfold stageCandidate. destruct (negb _); [by eapply single_served, failStage_single|].
  destruct (ev_done e 4); [eapply single_served, cancelStage_single; [done..|by apply phases_early]|].
  set (s1 := on_transaction _ _). destruct (commit_follows y e 3 s s1 d Ha) as (Hev & Hok & _).
  { intros _ _. eexists. split; [unfold s1; cbn; by rewrite Ht|]. rewrite Ht. by apply st_verified. }
  destruct (commit e 3 s1 d) as [d1 [[]|x]]; [|by eapply single_evolves]. cbn in Hev, Hok. destruct (Hok eq_refl) as [Hv1 Hd1]. assert (Hnow1 : st_now d1 = put_state s1 (st_now d)) by by rewrite Hd1.
  assert (Ha1 : at_state d1 s1) by by unfold at_state; rewrite Hnow1.
  destruct (us_Transaction s1) as [t1|] eqn:Ht1; [|unfold s1 in Ht1; cbn in Ht1; by rewrite Ht in Ht1].
  assert (Hf : tx_Phase t1 = PhaseVerified ∧ tx_Candidate t1 = Some c ∧ tx_Canceled t1 = false).
  { unfold s1 in Ht1. cbn in Ht1. rewrite Ht in Ht1. by injection Ht1 as <-. }
  destruct Hf as (Hp1 & Hcand1 & Hcan1). assert (Hi1 : us_Installation s1 = us_Installation s) by done. clearbody s1. rewrite <- Hi1 in He.
  destruct (publishCandidate_evolves y e data s1 t1 c d1 Ha1 Hv1 Ht1 Hp1 Hcand1) as (Hev2 & Ha2 & Hin); [done..|].
  destruct (publishCandidate e data (py_Slot c) d1) as [d2 [[]|x]]; cbn in Hev2, Ha2, Hin; eapply evolves_trans; [by eapply single_evolves|..|by eapply single_evolves|]; (eapply evolves_trans; [exact Hev2|]).
  - destruct (ev_done e 5); [eapply single_served, cancelStage_single; [done..|apply phases_early; by right]|].
    set (s2 := to_staged _ _). destruct (commit_follows y e 4 s1 s2 d2 Ha2) as (Hev3 & _).
    { intros _ _. eexists. split; [unfold s2; cbn; by rewrite Ht1|]. rewrite Ht1. eapply st_staged; [done..|]. by apply Hin. }
    destruct (commit e 4 s2 d2) as [d3 [|]]; by eapply single_evolves.
  - by eapply single_served, failStage_single.
Qed.
Lemma stageDownloaded_evolves e version q s t a d : at_state d s → us_Transaction s = Some t →
  tx_Phase t = PhaseDownloading ∨ tx_Phase t = PhaseVerified → tx_Canceled t = false →
  ResolvedRelease_Validate a = Ok tt → rr_AuthorityHash a = ex_AuthorityHash (tx_Identity t) →
  sr_Identity q = tx_Identity t → ev_resolve e = Some a → evolves (Some (e, q)) d (stageDownloaded e version s t a d).1.
Proof.
  intros Ha Ht Hp Hc Hr Hh Hq Hres. unfold stageDownloaded. destruct (ev_done e 0); [eapply single_served, cancelStage_single; [done..|by apply phases_early]|].
  assert (Hgo : evolves (Some (e, q)) d (match download e version s t a with
    | Err (Refuse code) => failStage e 5 s code d
    | Err (RefuseUnlessDone look code) => stop_or_fail e look 5 s code d
    | Ok (data, candidate) => stageCandidate e s t data candidate d
    end).1).
  { destruct (download e version s t a) as [[data c]|[code|look code]] eqn:Ed.
    - destruct (download_pinned _ _ _ _ _ _ _ Hr Hh Ed) as (Hpin & _ & Hs & Hl & He). apply stageCandidate_evolves; try done. by exists e, q, a.
    - by eapply single_served, failStage_single.
    - unfold stop_or_fail. destruct (ev_done e look); [eapply single_served, cancelStage_single; [done..|by apply phases_early]|by eapply single_served, failStage_single]. }
  destruct (in_phase t [PhaseVerified]) eqn:Ein; [|exact Hgo]. apply bool_decide_eq_true, list_elem_of_singleton in Ein.
  unfold reconcilePublishedCandidate. rewrite Ht. cbn. destruct (tx_Candidate t) as [c|] eqn:Ecand; [|exact Hgo].
  destruct (verifyPayload _ _ _ _) eqn:Ev; [|exact Hgo]. set (s2 := to_staged _ _). destruct (commit_follows (Some (e, q)) e 2 s s2 d Ha) as (Hev & _).
  { intros _ _. eexists. split; [unfold s2; cbn; by rewrite Ht|]. rewrite Ht. eapply st_staged; [done..|].
    unfold verifyPayload in Ev. apply andb_true_iff in Ev as [_ Ev]. unfold intact, verifyPayload. by rewrite Ev. }
  destruct (commit e 2 s2 d) as [d2 [|]]; by eapply single_evolves.
Qed.
Lemma Stage_evolves e version q d : evolves (Some (e, q)) d (Stage e version q d).1.
Proof.
  unfold Stage. destruct (StageRequest_Validate _ _) as [_|]; [|constructor]. destruct (ev_resolve e) as [a|] eqn:Eres; [|constructor].
  destruct (_ || _) eqn:Eb; [constructor|]. rewrite !orb_false_iff, !negb_false_iff, !String.eqb_eq in Eb. destruct Eb as [[[Hr _] _] Hh].
  assert (Hr' : ResolvedRelease_Validate a = Ok tt) by by destruct (ResolvedRelease_Validate a) as [[]|]. clear Hr.
  destruct (loadLocked _ d) as [s|] eqn:El; [|constructor]. apply load_ok in El as [Ha Hv]. cbv zeta.
  set (hash := hashStageRequest _ _ _). set (t1 := accepted _ _ _ _). set (s1 := next_generation s <| us_Transaction := Some t1 |>).
  set (t2 := t1 <| tx_Phase := PhaseDownloading |>). set (s2 := next_generation s1 <| us_Transaction := Some t2 |>).
  assert (Hstart : (∀ t, us_Transaction s = Some t → terminalPhase t = true) →
    evolves (Some (e, q)) d (if negb (rr_AllowDowngrade a) && (CompareReleaseVersions (rr_Version a) (py_Version (us_Active s)) <? 0) then (d, fails ErrUpdateDenied)
      else match commit e 6 s1 d with
      | (d, Err x) => (d, fails x)
      | (d, Ok _) => match commit e 7 s2 d with (d, Err x) => (d, fails x) | (d, Ok _) => stageDownloaded e version s2 t2 a d end
      end).1).
  { intros Hterm. destruct (_ && _); [constructor|]. destruct (commit_follows (Some (e, q)) e 6 s s1 d Ha) as (Hev & Hok & _).
    { intros _ _. exists t1. split; [done|]. by eapply st_accept. }
    destruct (commit e 6 s1 d) as [d1 [[]|x]]; [|by eapply single_evolves]. cbn in Hev, Hok. destruct (Hok eq_refl) as [Hv1 Hd1]. assert (Hn1 : st_now d1 = put_state s1 (st_now d)) by by rewrite Hd1. eapply evolves_trans; [by eapply single_evolves|].
    assert (Ha1 : at_state d1 s1) by by unfold at_state; rewrite Hn1.
    destruct (commit_follows (Some (e, q)) e 7 s1 s2 d1 Ha1) as (Hev2 & Hok2 & _).
    { intros _ _. exists t2. split; [done|]. apply (st_download _ _ _ _ t1 (tx_UpdatedAt t1)); done. }
    destruct (commit e 7 s2 d1) as [d2 [[]|x]]; [|by eapply single_evolves]. cbn in Hev2, Hok2. destruct (Hok2 eq_refl) as [Hv2 Hd2]. assert (Hn2 : st_now d2 = put_state s2 (st_now d1)) by by rewrite Hd2. eapply evolves_trans; [by eapply single_evolves|].
    apply stageDownloaded_evolves; [by unfold at_state; rewrite Hn2|done|by left|done..]. }
  destruct (us_Transaction s) as [t|] eqn:Et; [|by apply Hstart]. destruct (sameExecution _ _) eqn:Es.
  - apply bool_decide_eq_true in Es. destruct (String.eqb (tx_RequestHash t) hash); cbn [negb]; [|constructor].
    destruct (tx_Canceled t || terminalPhase t) eqn:Ec; [constructor|]. apply orb_false_iff in Ec as [Ec _].
    rewrite <- Es in Hh. unfold resumeStage. destruct (tx_Phase t) eqn:Ep; try apply ev_refl; [|by apply stageDownloaded_evolves; try done; rewrite Ep; auto..].
    set (t3 := t <| tx_Phase := _ |> <| tx_UpdatedAt := _ |>). set (s3 := next_generation s <| us_Transaction := Some t3 |>).
    destruct (commit_follows (Some (e, q)) e 1 s s3 d Ha) as (Hev & Hok & _).
    { intros _ _. exists t3. split; [done|]. rewrite Et. by apply st_download. }
    destruct (commit e 1 s3 d) as [d1 [[]|x]]; [|by eapply single_evolves]. cbn in Hev, Hok. destruct (Hok eq_refl) as [Hv1 Hd1]. assert (Hn1 : st_now d1 = put_state s3 (st_now d)) by by rewrite Hd1. eapply evolves_trans; [by eapply single_evolves|].
    apply stageDownloaded_evolves; [by unfold at_state; rewrite Hn1|done|by left|done..].
  - destruct (negb (terminalPhase t)) eqn:Eterm; [constructor|]. apply negb_false_iff in Eterm. apply Hstart. by intros ? [= <-].
Qed.

(** ** Activation and roll-back *)

Lemma requireOperatorAction_single e k s t code d : at_state d s → us_Transaction s = Some t → single None d (requireOperatorAction e k s code d).1.
Proof.
  intros Ha Ht. unfold requireOperatorAction. destruct (negb _); [constructor|]. set (s' := on_transaction _ _).
  destruct (commit_follows None e k s s' d Ha) as (Hev & _).
  - intros _ _. eexists. split; [unfold s'; cbn; by rewrite Ht|]. rewrite Ht. apply st_failed.
  - destruct (commit e k s' d) as [d' [|]]; exact Hev.
Qed.
Lemma denyActivation_single e k s t code d : at_state d s → us_Transaction s = Some t → single None d (denyActivation e k s code d).1.
Proof.
  intros Ha Ht. unfold denyActivation. pose proof (requireOperatorAction_single e k s t code d Ha Ht) as Hev.
  destruct (requireOperatorAction e k s code d) as [d' [[s'|] [x|]]]; exact Hev.
Qed.
Lemma commit_answer_single e s0 s d : at_state d s0 →
  (∃ t', us_Transaction s = Some t' ∧ step_of None (st_now d) (us_Installation s0) (us_Active s0) (us_Transaction s0) (us_Active s) t') →
  single None d (commit_answer e s d).1.
Proof.
  intros Ha Hs. unfold commit_answer. destruct (commit_follows None e 1 s0 s d Ha ltac:(done)) as (Hev & _). destruct (commit e 1 s d) as [d' [|]]; exact Hev.
Qed.
Lemma verify_intact b p i r : verifyPayload b p i r = true → intact r i p.
Proof. unfold intact, verifyPayload. by intros [_ ->]%andb_true_iff. Qed.
Lemma in_phase_spec t l : in_phase t l = true ↔ tx_Phase t ∈ l.
Proof. apply bool_decide_eq_true. Qed.

Lemma Activate_single e x d : single None d (Activate e x d).1.
Proof.
  unfold Activate. destruct (load_transaction e x d) as [[s t]|] eqn:El; [|constructor]. apply load_transaction_ok in El as (Ha & Hv & Ht & _).
  destruct (tx_Canceled t) eqn:Ec; [constructor|]. destruct (tx_Phase t) eqn:Ep; try apply si_none.
  destruct (tx_Candidate t) as [c|] eqn:Ecand; [|constructor].
  destruct (tx_ExpiresAt t <=? _); [by eapply denyActivation_single|]. match goal with |- context [if ?b then denyActivation e 3 s _ d else _] => destruct b end; [by eapply denyActivation_single|].
  destruct (negb (verifyPayload _ c _ _)) eqn:E1; [by eapply requireOperatorAction_single|].
  destruct (negb (verifyPayload _ (us_Active s) _ _)) eqn:E2; [by eapply requireOperatorAction_single|].
  apply negb_false_iff, verify_intact in E1, E2.
  set (s' := activated _ _ _ _). destruct (commit_follows None e 1 s s' d Ha) as (Hev & _).
  - intros _ _. eexists. split; [done|]. rewrite Ht. by apply st_activating.
  - destruct (commit e 1 s' d) as [d' [|]]; exact Hev.
Qed.
Lemma Cancel_single e x d : single None d (Cancel e x d).1.
Proof.
  unfold Cancel. destruct (ExecutionIdentity_Validate x); [|constructor]. destruct (load_transaction e x d) as [[s t]|] eqn:El; [|constructor].
  apply load_transaction_ok in El as (Ha & Hv & Ht & _). destruct (tx_Canceled t) eqn:Ec; [constructor|].
  destruct (in_phase _ _) eqn:Ep; [|constructor]. apply in_phase_spec in Ep. by eapply cancelStage_single.
Qed.
Lemma RecordLaunch_single e x d : single None d (RecordLaunch e x d).1.
Proof.
  unfold RecordLaunch. destruct (load_transaction e x d) as [[s t]|] eqn:El; [|constructor]. apply load_transaction_ok in El as (Ha & Hv & Ht & _).
  destruct (negb (in_phase _ _)) eqn:Ep; [constructor|]. apply negb_false_iff, in_phase_spec in Ep. destruct (_ <=? _) eqn:Em; [constructor|].
  destruct (negb (verifyPayload _ _ _ _)); [by eapply requireOperatorAction_single|]. eapply commit_answer_single; [exact Ha|].
  eexists. split; [unfold launched; cbn; by rewrite Ht|]. rewrite Ht. apply st_launch; [set_solver|lia].
Qed.
Lemma CommitHealthy_single e x h d : single None d (CommitHealthy e x h d).1.
Proof.
  unfold CommitHealthy. destruct (load_transaction e x d) as [[s t]|] eqn:El; [|constructor]. apply load_transaction_ok in El as (Ha & Hv & Ht & _).
  destruct (negb (in_phase _ _)) eqn:Ep; [constructor|]. apply negb_false_iff, in_phase_spec in Ep.
  destruct (HealthObservation_Validate _ _ _); [|constructor]. eapply commit_answer_single; [exact Ha|].
  eexists. split; [unfold healthy; cbn; by rewrite Ht|]. rewrite Ht. apply st_healthy. set_solver.
Qed.
Lemma BeginRollback_single e x code d : single None d (BeginRollback e x code d).1.
Proof.
  unfold BeginRollback. destruct (load_transaction e x d) as [[s t]|] eqn:El; [|constructor]. apply load_transaction_ok in El as (Ha & Hv & Ht & _).
  destruct (in_phase t [_; _; _; _]); [constructor|]. destruct (in_phase t [PhaseActivating]) eqn:Ep; [|constructor]. apply in_phase_spec in Ep.
  destruct (tx_Previous t) as [p|] eqn:Eprev; [|constructor]. destruct (negb (boundedNamePattern code)); [constructor|].
  destruct (negb _) eqn:Ev; [by eapply requireOperatorAction_single|]. apply negb_false_iff, verify_intact in Ev. eapply commit_answer_single; [exact Ha|].
  eexists. split; [unfold rolling_back; cbn; by rewrite Ht|]. rewrite Ht. apply st_rolling_back; [set_solver|done..].
Qed.
Lemma CommitRolledBack_single e x h d : single None d (CommitRolledBack e x h d).1.
Proof.
  unfold CommitRolledBack. destruct (load_transaction e x d) as [[s t]|] eqn:El; [|constructor]. apply load_transaction_ok in El as (Ha & Hv & Ht & _).
  destruct (negb (in_phase _ _)) eqn:Ep; [constructor|]. apply negb_false_iff, in_phase_spec in Ep.
  destruct (HealthObservation_Validate _ _ _); [|constructor]. eapply commit_answer_single; [exact Ha|].
  eexists. split; [unfold rolled_back; cbn; by rewrite Ht|]. rewrite Ht. apply st_rolled_back. set_solver.
Qed.
Lemma RequireOperatorAction_single e x code d : single None d (RequireOperatorAction e x code d).1.
Proof.
  unfold RequireOperatorAction. destruct (load_transaction e x d) as [[s t]|] eqn:El; [|constructor]. apply load_transaction_ok in El as (Ha & Hv & Ht & _).
  by eapply requireOperatorAction_single.
Qed.
(** ** Runs *)

Lemma then_top_store x : (then_top x).1 = x.1.
Proof. done. Qed.
Lemma sup_step_single e ce pc d : single None d (sup_step e ce pc d).1.1.
Proof.
  destruct pc as [|x|s|s t|t s|t s|x ph code|x ph code| | |]; unfold sup_step.
  - destruct (ev_done e 0); [constructor|]. destruct (loadLocked _ d); constructor.
  - apply RequireOperatorAction_single.
  - destruct (launchSelected e s d); constructor.
  - destruct (_ <=? _); [destruct (in_phase _ _); [apply BeginRollback_single|apply RequireOperatorAction_single]|].
    pose proof (RecordLaunch_single e (tx_Identity t) d) as Hev. destruct (RecordLaunch e (tx_Identity t) d) as [d' [[s'|] [err|]]]; exact Hev.
  - destruct (launchSelected e s d); constructor.
  - destruct ce as [h| | |]; try apply si_none. destruct (us_Transaction s) as [t'|]; [|constructor]. cbn zeta.
    destruct (in_phase _ _); [apply CommitHealthy_single|apply CommitRolledBack_single].
  - destruct (load_transaction e x d) as [[s t]|]; constructor.
  - destruct (bool_decide _); [apply BeginRollback_single|apply RequireOperatorAction_single].
  - destruct ce; constructor.
  - constructor.
  - constructor.
Qed.

(** The request that an action serves. *)
Definition served (e : Env) (a : Act) : Served := match a with AStage _ q => Some (e, q) | _ => None end.

(** C24. Every call of the coordinator, every step of its supervisor and every
    request it serves changes the directory by steps of the protocol only,
    whatever fails on the way: each write of the state goes from a valid state
    to a valid one of the next generation by one step of [step_of], a
    transaction is only started, and a candidate only accepted, for the request
    that is served, and a slot is only overwritten by the verified candidate
    that the state names. *)
Theorem calls_follow_protocol e a pc d : (∀ k, a ≠ ACrash k) → evolves (served e a) d (act e a pc d).1.1.
Proof.
  intros Hk. destruct a as [ce|version q|x|x|k]; cbn [act].
  - apply single_evolves, sup_step_single.
  - destruct (running pc); [apply Stage_evolves|constructor].
  - destruct (running pc); [apply single_evolves, Activate_single|constructor].
  - destruct (running pc); [apply single_evolves, Cancel_single|constructor].
  - by destruct (Hk k).
Qed.
Lemma act_keeps (P : Root → Prop) e a pc d : (∀ r r', P r → wrote (served e a) r r' → P r') →
  (∀ r, r ∈ may_leave d → P r) → ∀ r, r ∈ may_leave (act e a pc d).1.1 → P r.
Proof.
  intros HP Hd. destruct a as [ce|version q|x|x|k]; cbn [act].
  - by apply (evolves_keeps _ P d _ HP (single_evolves _ _ _ (sup_step_single e ce pc d))).
  - destruct (running pc); [|done]. by apply (evolves_keeps _ P d _ HP (Stage_evolves e version q d)).
  - destruct (running pc); [|done]. by apply (evolves_keeps _ P d _ HP (single_evolves _ _ _ (Activate_single e x d))).
  - destruct (running pc); [|done]. by apply (evolves_keeps _ P d _ HP (single_evolves _ _ _ (Cancel_single e x d))).
  - intros r [-> | Hr]%elem_of_cons; [|by apply elem_of_nil in Hr]. apply Hd. unfold crash. cbn [st_now].
    destruct (may_leave d !! k) as [r|] eqn:E; cbn; [by eapply list_elem_of_lookup_2|by left].
Qed.

Definition trace : Type := list (Env * Act).
Definition sys_step (x : Pc * Store) (y : Env * Act) : Pc * Store := let '(d, pc, _) := act y.1 y.2 x.1 x.2 in (pc, d).
Definition sys_run (x : Pc * Store) (tr : trace) : Pc * Store := foldl sys_step x tr.
Lemma sys_step_store x (y : Env * Act) : (sys_step x y).2 = (act y.1 y.2 x.1 x.2).1.1.
Proof. unfold sys_step. by destruct (act _ _ _ _) as [[d pc] l]. Qed.
Lemma update_run_keeps (P : Root → Prop) x tr : (∀ e a r r', (e, a) ∈ tr → P r → wrote (served e a) r r' → P r') →
  (∀ r, r ∈ may_leave x.2 → P r) → ∀ r, r ∈ may_leave (sys_run x tr).2 → P r.
Proof.
  revert x. induction tr as [|[e a] tr IH]; intros x HP Hx; [done|]. cbn. apply IH; [intros; eapply HP; [by right|done..]|].
  rewrite sys_step_store. apply act_keeps; [|done]. intros r r'. apply HP. by left.
Qed.

(** ** There is always a program *)

(** A payload that was there first, or that a request of the run asked for: the
    program of a release to which the call that served the request, or served it
    again, resolved it, with the digests that the request expects. *)
Definition authorized (tr : trace) p0 i p : Prop := p = p0 ∨
  ∃ e version q e' version' q' a, (e, AStage version q) ∈ tr ∧ (e', AStage version' q') ∈ tr ∧ sr_Identity q' = sr_Identity q ∧
    ev_resolve e' = Some a ∧ program_of a (sr_Identity q) (sr_ExpectedManifestSHA256 q) (sr_ExpectedArtifactSHA256 q) i p.
(** What is known of a transaction: a request of the run asked for it; its
    candidate is authorized, and its executable in its slot once it is staged;
    so is what was selected before, during the activation. *)
Record known (tr : trace) p0 i r t : Prop := {
  kn_asked : ∃ e version q, (e, AStage version q) ∈ tr ∧ asked q t;
  kn_candidate : ∀ c, tx_Candidate t = Some c → authorized tr p0 i c;
  kn_staged : ∀ c, tx_Phase t = PhaseStaged → tx_Candidate t = Some c → intact r i c;
  kn_previous : ∀ p, tx_Phase t = PhaseActivating → tx_Previous t = Some p → intact r i p ∧ authorized tr p0 i p }.
Record sound (tr : trace) p0 i r s : Prop := {
  so_state : rt_state r = Some (Some s); so_valid : State_Validate s = Ok tt; so_installation : us_Installation s = i;
  so_active : intact r i (us_Active s); so_authorized : authorized tr p0 i (us_Active s);
  so_known : ∀ t, us_Transaction s = Some t → known tr p0 i r t }.

Lemma valid_transaction s t : State_Validate s = Ok tt → us_Transaction s = Some t →
  Transaction_Validate t = Ok tt ∧ validateSlotTransition (us_Active s) t = Ok tt.
Proof.
  unfold State_Validate. intros [_ Hv]%reject_ok Ht. rewrite !bind_unit_ok, Ht, bind_unit_ok in Hv. naive_solver.
Qed.
Lemma verified_slot s t c : State_Validate s = Ok tt → us_Transaction s = Some t → tx_Phase t = PhaseVerified → tx_Candidate t = Some c →
  py_Slot (us_Active s) ≠ py_Slot c.
Proof.
  intros Hv Ht Hp Hc. apply (valid_transaction _ _ Hv) in Ht as [_ Hs]. unfold validateSlotTransition in Hs.
  rewrite Hc in Hs. replace (in_phase t [PhaseVerified; PhaseStaged]) with true in Hs by (unfold in_phase; by rewrite Hp).
  apply reject_ok in Hs as [Hs _]. by apply bool_decide_eq_false in Hs.
Qed.
Lemma intact_state r s i p : intact (put_state s r) i p ↔ intact r i p.
Proof. done. Qed.
Lemma intact_other r i p slot data : slot ≠ py_Slot p → intact r i p → intact (put_slot slot data r) i p.
Proof. intros Hne. unfold intact, verifyPayload, put_slot. cbn. by rewrite decide_False by congruence. Qed.
Lemma known_after tr p0 i r t t' : known tr p0 i r t → tx_Identity t' = tx_Identity t → tx_ManifestSHA256 t' = tx_ManifestSHA256 t →
  tx_ArtifactSHA256 t' = tx_ArtifactSHA256 t → (∀ c, tx_Candidate t' = Some c → authorized tr p0 i c) →
  (∀ c, tx_Phase t' = PhaseStaged → tx_Candidate t' = Some c → intact r i c) →
  (∀ p, tx_Phase t' = PhaseActivating → tx_Previous t' = Some p → intact r i p ∧ authorized tr p0 i p) → known tr p0 i r t'.
Proof.
  intros [(e & v & q & Hq & Ha) _ _ _] E1 E2 E3 H1 H2 H3. split; [|done..]. exists e, v, q. split; [done|]. unfold asked. by rewrite E1, E2, E3.
Qed.
(** What is pinned for a transaction of the run is authorized by the run. *)
Lemma pinned_authorized tr p0 i r t c e a : known tr p0 i r t → (e, a) ∈ tr → pinned (served e a) t i c → authorized tr p0 i c.
Proof.
  intros [(e1 & v1 & q1 & Hq1 & (E1 & E2 & E3)) _ _ _] Hin (e2 & q2 & b & Hs & Hid & Hres & Hp).
  destruct a as [|v2 q| | |]; [done| |done..]. injection Hs as -> ->. right. exists e1, v1, q1, e2, v2, q2, b. rewrite <- E1, <- E2, <- E3. done.
Qed.
Lemma step_sound (tr : trace) p0 i r (y : Env * Act) a past a' t' : y ∈ tr → step_of (served y.1 y.2) r i a past a' t' → intact r i a → authorized tr p0 i a →
  (∀ t, past = Some t → known tr p0 i r t) → intact r i a' ∧ authorized tr p0 i a' ∧ known tr p0 i r t'.
Proof.
  destruct y as [e0 act0]. cbn [fst snd]. intros Hy Hst Ha Hau Ho.
  destruct Hst as [past t e q Hs Hq Hterm (Hp & Hc & Hpr & _)|t u Hp Hc|t c u Hp Hc Hpin|t c u Hp Hc Hcand Hin|t u Hc Hp
    |t c u Hp Hc Hcand Hin Hina|t u Hp Hm|t u Hp|t p code u Hp Hprev Hin|t u Hp|t code u];
    try (pose proof (Ho t eq_refl) as Hk; pose proof Hk as [_ K1 K2 K3]).
  - split_and!; [done..|]. destruct act0 as [|v q0| | |]; [done| |done..]. injection Hs as -> ->. split; [|intros; congruence..]. by exists e, v, q.
  - split_and!; [done..|]. by apply (known_after tr p0 i r t).
  - split_and!; [done..|]. apply (known_after tr p0 i r t); try done. intros c' [= <-]. by eapply pinned_authorized.
  - split_and!; [done..|]. apply (known_after tr p0 i r t); try done. cbn. intros ? _ ?. congruence.
  - split_and!; [done..|]. by apply (known_after tr p0 i r t).
  - split_and!; [done|by apply K1|]. apply (known_after tr p0 i r t); try done. intros ? _ [= <-]. done.
  - split_and!; [done..|]. by apply (known_after tr p0 i r t).
  - split_and!; [done..|]. by apply (known_after tr p0 i r t).
  - destruct (K3 p Hp Hprev). split_and!; [done..|]. by apply (known_after tr p0 i r t).
  - split_and!; [done..|]. by apply (known_after tr p0 i r t).
  - split_and!; [done..|]. by apply (known_after tr p0 i r t).
Qed.
Lemma wrote_sound (tr : trace) p0 i (y : Env * Act) r r' : y ∈ tr → (∃ s, sound tr p0 i r s) → wrote (served y.1 y.2) r r' → ∃ s, sound tr p0 i r' s.
Proof.
  intros Hy [s [S1 S2 S3 S4 S5 S6]]. destruct 1 as [s0 s' Hs0 [Hv Hv' Hg _ Hi (t' & Ht' & Hst)]|s0 t c data Hs0 Hv Ht Hp Hc Hsha Hlen Hexe];
    (assert (s0 = s) as -> by congruence).
  - exists s'. rewrite S3 in *. destruct (step_sound tr p0 i r y _ _ _ _ Hy Hst S4 S5 S6) as (H1 & H2 & H3). split; try done.
    intros t Ht. assert (t = t') as -> by congruence. destruct H3. by split.
  - exists s. pose proof (verified_slot s t c Hv Ht Hp Hc) as Hne. split; try done.
    + by apply intact_other.
    + intros t1 Ht1. assert (t1 = t) as -> by congruence. destruct (S6 t Ht) as [K0 K1 _ _]. split; [done..|congruence|congruence].
Qed.

(** C4. There is always a program to run.  Whatever the coordinator is asked,
    whatever fails and wherever it crashes, the state can be loaded, the file
    of the selected slot is the selected program, and while a successor is
    tried the file of the other slot is the program that ran before.  A program
    is selected only if it was there first or a request of this very run asked
    for it: it is the executable of an archive with the digest that the request
    expects, named by a manifest with the digest that the request expects, and
    that manifest is signed by the release authority that the request names,
    which the resolver gave when the request was served. *)
Theorem always_a_program s0 slots tr : let r0 := mkRoot (Some (Some s0)) slots in
  State_Validate s0 = Ok tt → us_Transaction s0 = None → intact r0 (us_Installation s0) (us_Active s0) →
  ∀ r, r ∈ may_leave (sys_run (PTop, mkStore r0 []) tr).2 → ∃ s,
    rt_state r = Some (Some s) ∧ State_Validate s = Ok tt ∧ us_Installation s = us_Installation s0 ∧
    intact r (us_Installation s) (us_Active s) ∧ authorized tr (us_Active s0) (us_Installation s) (us_Active s) ∧
    ∀ t, us_Transaction s = Some t → tx_Phase t = PhaseActivating → ∃ p, tx_Previous t = Some p ∧
      py_Slot p ≠ py_Slot (us_Active s) ∧ intact r (us_Installation s) p ∧ authorized tr (us_Active s0) (us_Installation s) p.
Proof.
  intros r0 Hv Hn Hin r Hr. destruct (update_run_keeps (fun r => ∃ s, sound tr (us_Active s0) (us_Installation s0) r s) (PTop, mkStore r0 []) tr) with (r := r)
    as [s [S1 S2 S3 S4 S5 S6]]; [intros e a r1 r2 Hin1; by apply (wrote_sound _ _ _ (e, a))| |done|].
  { intros r' [-> | Hr']%elem_of_cons; [|by apply elem_of_nil in Hr']. exists s0. split; try done; [by left|]. intros t Ht. congruence. }
  exists s. rewrite S3. split_and!; try done. intros t Ht Hp. destruct (S6 t Ht) as [_ _ _ K3].
  apply (valid_transaction _ _ S2) in Ht as [Ht Hs]. clear S6. unfold validateSlotTransition in Hs.
  unfold Transaction_Validate in Ht. apply bind_unit_ok in Ht as [_ Ht]. rewrite !reject_ok, !bind_unit_ok in Ht. destruct Ht as (_ & _ & _ & _ & _ & _ & Hfacts).
  unfold validatePhaseFacts in Hfacts. rewrite !reject_ok in Hfacts. destruct Hfacts as (Hc & Hpr & _). unfold in_phase in *. rewrite Hp in Hc, Hpr, Hs. cbn in Hc, Hpr.
  destruct (tx_Candidate t) as [c|]; [|done]. destruct (tx_Previous t) as [p|]; [|done]. cbn in Hs. apply reject_ok in Hs as [Hs _].
  apply orb_false_iff in Hs as [_ Hs]. apply bool_decide_eq_false in Hs. exists p. split_and!; [done|congruence|by apply K3..].
Qed.

(** ** What an update may cost *)

Definition here d s t : Prop := at_state d s ∧ State_Validate s = Ok tt ∧ us_Transaction s = Some t.
(** A number of the transaction in the file; 0 where there is none. *)
Definition gauge (f : Transaction → Z) r : Z :=
  match rt_state r with
  | Some (Some s) => if is_ok (State_Validate s) then match us_Transaction s with Some t => f t | None => 0 end else 0
  | _ => 0
  end.
Lemma gauge_state f r s t : rt_state r = Some (Some s) → State_Validate s = Ok tt → us_Transaction s = Some t → gauge f r = f t.
Proof. intros Hr Hv Ht. unfold gauge. by rewrite Hr, Hv, Ht. Qed.
Lemma valid_attempts s t : State_Validate s = Ok tt → us_Transaction s = Some t → 0 ≤ tx_LaunchAttempts t ≤ MaxLaunchAttempts.
Proof.
  intros Hv Ht. apply (valid_transaction _ _ Hv) in Ht as [Ht _]. unfold Transaction_Validate in Ht. apply bind_unit_ok in Ht as [_ Ht].
  rewrite !reject_ok in Ht. destruct Ht as (_ & Ht & _). lia.
Qed.

(** How often a payload may still be started for the transaction. *)
Definition trials t : Z :=
  match tx_Phase t with
  | PhasePrepared | PhaseDownloading | PhaseVerified | PhaseStaged => if tx_Canceled t then 0 else 2 * MaxLaunchAttempts
  | PhaseActivating => 2 * MaxLaunchAttempts - tx_LaunchAttempts t
  | PhaseRollingBack => MaxLaunchAttempts - tx_LaunchAttempts t
  | _ => 0
  end.
Definition trials_left : Root → Z := gauge trials.
Definition unstarted (y : Served) : Z := if y then 2 * MaxLaunchAttempts else 0.
Lemma trials_nonneg r : 0 ≤ trials_left r.
Proof.
  unfold trials_left, gauge. destruct (rt_state r) as [[s|]|]; try done. destruct (State_Validate s) as [[]|] eqn:Ev; [|done]. cbn.
  destruct (us_Transaction s) as [t|] eqn:Et; [|done]. pose proof (valid_attempts s t Ev Et). unfold trials, MaxLaunchAttempts in *. repeat case_match; lia.
Qed.
Definition trials_of (past : option Transaction) : Z := match past with Some t => trials t | None => 0 end.
Lemma step_trials y r i a past a' t' : step_of y r i a past a' t' → (∀ t, past = Some t → 0 ≤ tx_LaunchAttempts t ≤ MaxLaunchAttempts) →
  trials t' ≤ Z.max (Z.max (trials_of past) 0) (unstarted y).
Proof.
  intros Hst Ho. destruct Hst as [past t e q -> _ Hterm Hf|t u Hp Hc|t c u Hp Hc _|t c u Hp Hc _ _|t u Hc Hp|t c u Hp Hc _ _ _|t u Hp Hm
    |t u Hp|t p code u Hp _ _|t u Hp|t code u]; [|specialize (Ho t eq_refl); unfold trials_of..].
  - destruct Hf as (Hp & _ & _ & _ & _ & _ & _ & _ & Hc). unfold trials. rewrite Hp, Hc. cbn. lia.
  - unfold trials. cbn. rewrite Hp, Hc. lia.
  - unfold trials. cbn. rewrite Hc. destruct Hp as [-> | ->]; lia.
  - unfold trials. cbn. rewrite Hp, Hc. lia.
  - unfold trials. cbn. set_unfold in Hp. destruct Hp as [-> |[-> |[-> |[-> |[]]]]]; lia.
  - unfold trials. cbn. rewrite Hp, Hc. lia.
  - unfold trials. cbn. destruct Hp as [-> | ->]; lia.
  - unfold trials. cbn. lia.
  - unfold trials. cbn. rewrite Hp. lia.
  - unfold trials. cbn. lia.
  - unfold trials. cbn. lia.
Qed.
Lemma follows_trials y r s s' : rt_state r = Some (Some s) → follows y r s s' →
  trials_left (put_state s' r) ≤ Z.max (trials_left r) (unstarted y).
Proof.
  intros Hr [F1 F2 F3 F4 F5 (t' & Ht' & Hst)]. unfold trials_left at 1. rewrite (gauge_state _ _ s' t') by done.
  pose proof (trials_nonneg r) as Hnn. apply step_trials in Hst; [|intros t; by apply valid_attempts].
  replace (trials_of (us_Transaction s)) with (trials_left r) in Hst; [lia|].
  unfold trials_left, gauge, trials_of. by rewrite Hr, F1.
Qed.
(** After any crash, no more trials than [n]. *)
Definition bounded_trials (n : Z) d : Prop := ∀ r, r ∈ may_leave d → trials_left r ≤ n.
Lemma evolves_trials y n d d' : evolves y d d' → bounded_trials n d → bounded_trials (Z.max n (unstarted y)) d'.
Proof.
  intros He Hd r. apply (evolves_keeps y (fun r => trials_left r ≤ Z.max n (unstarted y)) d d'); [clear r|done|clear r; intros r Hr; specialize (Hd r Hr); lia].
  intros r r' Hr [s s' Hs Hf|s t c data Hs _ _ _ _ _ _ _]; [|exact Hr]. pose proof (follows_trials _ _ _ _ Hs Hf). lia.
Qed.
Lemma single_trials n d d' : single None d d' → bounded_trials n d → bounded_trials n d'.
Proof.
  intros Hs Hd. pose proof (Hd (st_now d) ltac:(by left)) as Hnow. pose proof (trials_nonneg (st_now d)) as Hnn.
  destruct Hs as [|s s' Hs Hf|s s' Hs Hf]; [done|..]; apply follows_trials in Hf; try done; cbn [unstarted] in Hf;
    intros r; unfold may_leave, change, sync; cbn [st_now st_since]; [intros [-> |Hr]%elem_of_cons; [lia|by apply Hd]|intros [-> |Hr]%elem_of_cons; [lia|by apply elem_of_nil in Hr]].
Qed.

(** A commit that succeeds leaves the state, and nothing else after a crash. *)
Lemma commit_done e k s0 s d d' : at_state d s0 → commit e k s d = (d', Ok tt) → State_Validate s = Ok tt ∧ d' = sync (change (put_state s) d).
Proof.
  intros Ha Hc. destruct (commit_spec e k s d) as [Hp Hs]. rewrite Hc in *. cbn in *. destruct Hs as [[_ [x Hx]]|(s1 & _ & _ & Hv & _)]; [done|].
  split; [done|]. by inversion Hp.
Qed.
Lemma requireOperatorAction_done e k s t code d d' o : at_state d s → us_Transaction s = Some t →
  requireOperatorAction e k s code d = (d', (o, None)) →
  ∃ s' t', o = Some s' ∧ here d' s' t' ∧ tx_Phase t' = PhaseOperatorActionRequired ∧ d' = sync (change (put_state s') d).
Proof.
  intros Ha Ht. unfold requireOperatorAction. destruct (negb _); [done|]. set (s' := on_transaction _ _).
  destruct (commit e k s' d) as [d1 [[]|x]] eqn:Ec; [|done]. intros [= -> <-]. apply commit_done with (s0 := s) in Ec as [Hv ->]; [|done].
  assert (Ht' : us_Transaction s' = Some (t <| tx_Phase := PhaseOperatorActionRequired |> <| tx_FailureCode := code |> <| tx_UpdatedAt := transitionTime (ev_now e k) t |>))
    by (unfold s'; cbn; by rewrite Ht).
  clearbody s'. by do 2 eexists.
Qed.
(** A recorded launch is one of those that were left. *)
Lemma RecordLaunch_done e x d d' o : RecordLaunch e x d = (d', (o, None)) → ∃ s t s' t',
  here d s t ∧ (tx_Phase t = PhaseActivating ∨ tx_Phase t = PhaseRollingBack) ∧ tx_LaunchAttempts t < MaxLaunchAttempts ∧ o = Some s' ∧
  here d' s' t' ∧ d' = sync (change (put_state s') d) ∧
  (tx_Phase t' = PhaseOperatorActionRequired ∨ tx_Phase t' = tx_Phase t ∧ tx_LaunchAttempts t' = tx_LaunchAttempts t + 1).
Proof.
  unfold RecordLaunch. destruct (load_transaction e x d) as [[s t]|] eqn:El; [|done]. apply load_transaction_ok in El as (Ha & Hv & Ht & _).
  destruct (negb (in_phase _ _)) eqn:Ep; [done|]. apply negb_false_iff, in_phase_spec in Ep. destruct (_ <=? _) eqn:Em; [done|]. intros Hd.
  exists s, t. assert (Hp : tx_Phase t = PhaseActivating ∨ tx_Phase t = PhaseRollingBack) by set_solver.
  assert (Hl : tx_LaunchAttempts t < MaxLaunchAttempts) by lia. destruct (negb (verifyPayload _ _ _ _)).
  - apply requireOperatorAction_done with (t := t) in Hd as (s' & t' & -> & Hh & Hp' & Hd); [|done..]. exists s', t'. split_and!; auto; by split_and!.
  - unfold commit_answer in Hd. destruct (commit e 1 _ d) as [d1 [[]|]] eqn:Ec; [|done]. injection Hd as -> <-.
    apply commit_done with (s0 := s) in Ec as [Hv' ->]; [|done].
    assert (Ht' : us_Transaction (launched (ev_now e 0) s) =
                  Some (t <| tx_LaunchAttempts ::= Z.succ |> <| tx_UpdatedAt := transitionTime (ev_now e 0) t |>))
      by (unfold launched; cbn; by rewrite Ht).
    eexists _, _. split; [by split_and!|]. do 3 (split; [done|]). split; [split_and!; [done|exact Hv'|exact Ht']|]. split; [done|]. right. split; [done|]. cbn. lia.
Qed.
(** The launch that is recorded and not yet made. *)
Definition pending (pc : Pc) : Z := match pc with PLaunch _ _ => 1 | _ => 0 end.
Definition tries (l : option Launch) : Z := match l with Some l => if present (ln_update l) then 1 else 0 | None => 0 end.
Lemma sup_step_trials e ce pc d n : bounded_trials n d → 0 ≤ n → ∃ n', 0 ≤ n' ∧ bounded_trials n' (sup_step e ce pc d).1.1 ∧
  n' + pending (sup_step e ce pc d).1.2 + tries (sup_step e ce pc d).2 ≤ n + pending pc.
Proof.
  intros Hd Hn. pose proof (single_trials n d _ (sup_step_single e ce pc d) Hd) as Hall.
  assert (Hquiet : pending (sup_step e ce pc d).1.2 = 0 → tries (sup_step e ce pc d).2 ≤ pending pc → ∃ n', 0 ≤ n' ∧
    bounded_trials n' (sup_step e ce pc d).1.1 ∧ n' + pending (sup_step e ce pc d).1.2 + tries (sup_step e ce pc d).2 ≤ n + pending pc).
  { intros Hp Ht. exists n. split_and!; [done|done|lia]. }
  destruct pc as [|x|s|s t|t s|t s|x ph code|x ph code| | |]; unfold sup_step in *.
  - apply Hquiet; by repeat case_match.
  - apply Hquiet; unfold then_top; by repeat case_match.
  - apply Hquiet; by case_match.
  - destruct (MaxLaunchAttempts <=? tx_LaunchAttempts t); [apply Hquiet; unfold then_top; by repeat case_match|].
    destruct (RecordLaunch e (tx_Identity t) d) as [d' [[s'|] [err|]]] eqn:Er; try by apply Hquiet. clear Hquiet Hall.
    apply RecordLaunch_done in Er as (s1 & t1 & s2 & t2 & (Ha & Hv & Ht) & Hp & Hl & [= <-] & (Ha' & Hv' & Ht') & -> & Hnext).
    exists (n - 1). specialize (Hd (st_now d) ltac:(by left)). pose proof (valid_attempts _ _ Hv Ht).
    assert (Hleft : trials_left (st_now d) = trials t1) by by eapply gauge_state.
    assert (Hnew : trials t2 ≤ trials t1 - 1 ∧ 1 ≤ trials t1).
    { unfold trials, MaxLaunchAttempts in *. destruct Hnext as [-> |[-> ->]]; destruct Hp as [-> | ->]; lia. }
    split_and!; [lia| |cbn; lia]. intros r [-> | Hr]%elem_of_cons; [|by apply elem_of_nil in Hr].
    change (trials_left (st_now (sync (change (put_state s') d))) ≤ n - 1). unfold trials_left at 1. rewrite (gauge_state _ _ s' t2) by done. lia.
  - apply Hquiet; by case_match.
  - apply Hquiet; by repeat case_match.
  - apply Hquiet; by repeat case_match.
  - apply Hquiet; unfold then_top; by repeat case_match.
  - apply Hquiet; by case_match.
  - apply Hquiet; by case_match.
  - by apply Hquiet.
Qed.

Definition is_request (y : Env * Act) : bool := match y.2 with AStage _ _ => true | _ => false end.
Definition requests (tr : trace) : Z := Z.of_nat (length (List.filter is_request tr)).
(** How often a payload was started for an update. *)
Fixpoint tried (x : Pc * Store) (tr : trace) : Z :=
  match tr with [] => 0 | y :: tr => tries (act y.1 y.2 x.1 x.2).2 + tried (sys_step x y) tr end.
Lemma tried_bounded tr : ∀ pc d n, bounded_trials n d → 0 ≤ n → tried (pc, d) tr ≤ n + pending pc + 2 * MaxLaunchAttempts * requests tr.
Proof.
  induction tr as [|[e a] tr IH]; intros pc d n Hd Hn; [unfold requests; cbn; destruct pc; cbn; lia|]. cbn [tried fst snd].
  assert (Hreq : requests ((e, a) :: tr) = (if is_request (e, a) then 1 else 0) + requests tr)
    by (unfold requests; cbn [List.filter]; destruct (is_request _); cbn [length]; lia).
  rewrite Hreq. clear Hreq. unfold sys_step. cbn [fst snd]. destruct a as [ce|version q|x|x|k]; cbn [act is_request].
  - destruct (sup_step_trials e ce pc d n Hd Hn) as (n' & Hn' & Hb & Hle). destruct (sup_step e ce pc d) as [[d' pc'] l]. cbn [fst snd] in *.
    specialize (IH pc' d' n' Hb Hn'). cbn. lia.
  - destruct (running pc); [|specialize (IH pc d n Hd Hn); cbn; unfold MaxLaunchAttempts in *; lia].
    pose proof (evolves_trials _ n d _ (Stage_evolves e version q d) Hd) as Hb. cbn [unstarted] in Hb.
    specialize (IH pc _ _ Hb ltac:(lia)). cbn [fst snd tries]. unfold MaxLaunchAttempts in *. cbn. lia.
  - destruct (running pc); [|by apply IH]. by apply IH; [eapply single_trials, Hd; apply Activate_single|].
  - destruct (running pc); [|by apply IH]. by apply IH; [eapply single_trials, Hd; apply Cancel_single|].
  - assert (Hb : bounded_trials n (crash k d)).
    { intros r [-> | Hr]%elem_of_cons; [|by apply elem_of_nil in Hr]. apply Hd. unfold crash. cbn [st_now].
      destruct (may_leave d !! k) as [r|] eqn:E; cbn; [by eapply list_elem_of_lookup_2|by left]. }
    specialize (IH PTop _ n Hb Hn). cbn in *. destruct pc; cbn; lia.
Qed.

(** C11. An update never costs more than six starts of a payload.  Over any run,
    with crashes anywhere, files that change and writes whose outcome is not
    known, a payload is started for an update at most [2 * MaxLaunchAttempts]
    times, and that many times more for every request to stage one. *)
Theorem trials_bounded d tr : tried (PTop, d) tr ≤ 2 * MaxLaunchAttempts * (1 + requests tr).
Proof.
  pose proof (tried_bounded tr PTop d (2 * MaxLaunchAttempts)) as Hb. cbn [pending] in Hb. unfold MaxLaunchAttempts in *.
  enough (Hd : bounded_trials 6 d) by (specialize (Hb Hd); lia). intros r _. unfold trials_left, gauge.
  destruct (rt_state r) as [[s|]|]; try lia. destruct (State_Validate s) as [[]|] eqn:Ev; cbn; [|lia].
  destruct (us_Transaction s) as [t|] eqn:Et; [|lia]. pose proof (valid_attempts s t Ev Et). unfold trials, MaxLaunchAttempts in *. repeat case_match; lia.
Qed.

(** ** The supervisor comes to an end with an update *)

Definition under_way t : bool := in_phase t [PhaseActivating; PhaseRollingBack].
(** No update is tried or taken back. *)
Definition settled r : Prop := ∀ s t, rt_state r = Some (Some s) → us_Transaction s = Some t → under_way t = false.
Definition early t : bool := in_phase t [PhasePrepared; PhaseDownloading; PhaseVerified; PhaseStaged].
(** What the place in the loop of [Run] tells of the directory. *)
Definition fits (pc : Pc) d : Prop :=
  match pc with
  | PExpire _ => ∃ s t, here d s t ∧ early t = true
  | PSteady _ | PServe | PHalt => settled (st_now d)
  | PAttempt s t => here d s t ∧ under_way t = true
  | PLaunch _ s | PWait _ s => us_Transaction s ≠ None
  | _ => True
  end.
(** The work that is left: every round of the loop lowers the first part. *)
Definition work t : Z :=
  match tx_Phase t with
  | PhasePrepared | PhaseDownloading | PhaseVerified | PhaseStaged => MaxLaunchAttempts + 5
  | PhaseActivating => MaxLaunchAttempts + 5 - tx_LaunchAttempts t
  | PhaseRollingBack => MaxLaunchAttempts + 1 - tx_LaunchAttempts t
  | _ => 0
  end.
Definition place (pc : Pc) : Z :=
  match pc with
  | PLaunch _ _ => 6 | PWait _ _ => 5 | PRecord _ _ _ => 4 | PGiveUp _ _ _ => 3 | PTop => 2
  | PExpire _ | PSteady _ | PAttempt _ _ => 1 | PServe | PHalt | PExit => 0
  end.
Definition measure (pc : Pc) d : Z := 6 * gauge work (st_now d) + place pc.
Definition at_rest (pc : Pc) : bool := match pc with PServe | PHalt | PExit => true | _ => false end.

Lemma gauge_here f d s t : here d s t → gauge f (st_now d) = f t.
Proof. intros (Ha & Hv & Ht). by eapply gauge_state. Qed.
Lemma here_same d s t s' t' : here d s t → at_state d s' → us_Transaction s' = Some t' → s' = s ∧ t' = t.
Proof. intros (Ha & _ & Ht) Ha' Ht'. unfold at_state in *. assert (s' = s) as -> by congruence. split; congruence. Qed.
Lemma work_nonneg r : 0 ≤ gauge work r.
Proof.
  unfold gauge. destruct (rt_state r) as [[s|]|]; try done. destruct (State_Validate s) as [[]|] eqn:Ev; [|done]. cbn.
  destruct (us_Transaction s) as [t|] eqn:Et; [|done]. pose proof (valid_attempts s t Ev Et). unfold work, MaxLaunchAttempts in *. repeat case_match; lia.
Qed.
(** A refusal that is recorded ends the work. *)
Lemma RequireOperatorAction_done e x code d d' o : RequireOperatorAction e x code d = (d', (o, None)) → gauge work (st_now d') = 0.
Proof.
  unfold RequireOperatorAction. destruct (load_transaction e x d) as [[s t]|] eqn:El; [|done]. apply load_transaction_ok in El as (Ha & Hv & Ht & _).
  intros Hd. apply requireOperatorAction_done with (t := t) in Hd as (s' & t' & _ & Hh & Hp & _); [|done..].
  rewrite (gauge_here _ _ _ _ Hh). unfold work. by rewrite Hp.
Qed.
Lemma commit_answer_done e s0 s t d d' o : at_state d s0 → us_Transaction s = Some t → commit_answer e s d = (d', (o, None)) → o = Some s ∧ here d' s t.
Proof.
  intros Ha Ht. unfold commit_answer. destruct (commit e 1 s d) as [d1 [[]|]] eqn:Ec; [|done]. intros [= -> <-].
  apply commit_done with (s0 := s0) in Ec as [Hv ->]; [|done]. done.
Qed.
(** A roll-back that is begun, of an update under way, is less work than the
    activation. *)
Lemma BeginRollback_done e x code d d' o s t : here d s t → BeginRollback e x code d = (d', (o, None)) →
  gauge work (st_now d') ≤ gauge work (st_now d) ∧ (tx_Phase t = PhaseActivating → gauge work (st_now d') < gauge work (st_now d)).
Proof.
  intros Hh. unfold BeginRollback. destruct (load_transaction e x d) as [[s' t']|] eqn:El; [|done]. apply load_transaction_ok in El as (Ha & Hv & Ht & _).
  destruct (here_same d s t s' t' Hh Ha Ht) as [-> ->]. pose proof (valid_attempts s t Hv Ht) as Hat.
  destruct (in_phase t [PhaseRollingBack; _; _; _]) eqn:E1.
  { intros [= <- _]. apply in_phase_spec in E1. split; [lia|]. intros Hp. rewrite Hp in E1. set_solver. }
  destruct (in_phase t [PhaseActivating]) eqn:Ep; [|done]. destruct (tx_Previous t) as [p|] eqn:Eprev; [|done].
  apply in_phase_spec in Ep. assert (Hp : tx_Phase t = PhaseActivating) by set_solver.
  rewrite (gauge_here _ _ _ _ Hh). assert (Hw : MaxLaunchAttempts + 2 ≤ work t) by (unfold work; rewrite Hp; unfold MaxLaunchAttempts in *; lia).
  intros Hd. enough (gauge work (st_now d') ≤ MaxLaunchAttempts + 1) by lia. destruct (negb (boundedNamePattern code)); [done|].
  destruct (negb (verifyPayload _ _ _ _)).
  - apply requireOperatorAction_done with (t := t) in Hd as (s' & t' & _ & Hh' & Hp' & _); [|done..].
    rewrite (gauge_here _ _ _ _ Hh'). unfold work. by rewrite Hp'.
  - eapply commit_answer_done in Hd as [_ Hh']; [|exact Ha|unfold rolling_back; cbn; by rewrite Ht].
    rewrite (gauge_here _ _ _ _ Hh'). unfold work. cbn. lia.
Qed.
Lemma settled_here d s t : here d s t → under_way t = false → settled (st_now d).
Proof.
  intros (Ha & _ & Ht) Hu s' t' Ha' Ht'. unfold at_state in *. assert (s' = s) as -> by congruence. congruence.
Qed.
Lemma CommitHealthy_done e x h d d' o : CommitHealthy e x h d = (d', (o, None)) → settled (st_now d') ∧ gauge work (st_now d') = 0.
Proof.
  unfold CommitHealthy. destruct (load_transaction e x d) as [[s t]|] eqn:El; [|done]. apply load_transaction_ok in El as (Ha & Hv & Ht & _).
  destruct (negb _); [done|]. destruct (HealthObservation_Validate _ _ _); [|done]. intros Hd.
  eapply commit_answer_done in Hd as [_ Hh]; [|exact Ha|unfold healthy; cbn; by rewrite Ht]. split; [by eapply settled_here|]. by rewrite (gauge_here _ _ _ _ Hh).
Qed.
Lemma CommitRolledBack_done e x h d d' o : CommitRolledBack e x h d = (d', (o, None)) → settled (st_now d') ∧ gauge work (st_now d') = 0.
Proof.
  unfold CommitRolledBack. destruct (load_transaction e x d) as [[s t]|] eqn:El; [|done]. apply load_transaction_ok in El as (Ha & Hv & Ht & _).
  destruct (negb _); [done|]. destruct (HealthObservation_Validate _ _ _); [|done]. intros Hd.
  eapply commit_answer_done in Hd as [_ Hh]; [|exact Ha|unfold rolled_back; cbn; by rewrite Ht]. split; [by eapply settled_here|]. by rewrite (gauge_here _ _ _ _ Hh).
Qed.
(** No step but the start of an update makes more work. *)
Lemma step_work r i a t a' t' : step_of None r i a (Some t) a' t' → 0 ≤ tx_LaunchAttempts t ≤ MaxLaunchAttempts → work t' ≤ work t.
Proof.
  intros Hst Hr. inversion Hst as [o t0 e q Hb Hq Hterm Hf|t0 u Hp Hc|t0 c u Hp Hc _|t0 c u Hp Hc _ _|t0 u Hc Hp|t0 c u Hp Hc _ _ _|t0 u Hp Hm
    |t0 u Hp|t0 p code u Hp _ _|t0 u Hp|t0 code u]; subst; [done|unfold work, MaxLaunchAttempts in *; cbn..]; try (rewrite Hp; lia).
  - destruct Hp as [-> | ->]; lia.
  - lia.
  - destruct Hp as [-> | ->]; lia.
  - case_match; lia.
Qed.
Lemma single_work d d' : single None d d' → gauge work (st_now d') ≤ gauge work (st_now d).
Proof.
  assert (Hf : ∀ s s', rt_state (st_now d) = Some (Some s) → follows None (st_now d) s s' → gauge work (put_state s' (st_now d)) ≤ gauge work (st_now d)).
  { intros s s' Hs [F1 F2 F3 F4 F5 (t' & Ht' & Hst)]. rewrite (gauge_state _ _ s' t') by done. destruct (us_Transaction s) as [t|] eqn:Et; [|by inversion Hst].
    rewrite (gauge_state _ _ s t) by done. eapply step_work; [done|]. exact (valid_attempts s t F1 Et). }
  destruct 1 as [|s s' Hs Hfo|s s' Hs Hfo]; [lia|by apply (Hf s)..].
Qed.
Lemma RecordLaunch_work e x d d' o : RecordLaunch e x d = (d', (o, None)) → gauge work (st_now d') < gauge work (st_now d).
Proof.
  intros Hd. apply RecordLaunch_done in Hd as (s & t & s' & t' & Hh & Hp & Hl & _ & Hh' & _ & Hnext). rewrite (gauge_here _ _ _ _ Hh), (gauge_here _ _ _ _ Hh').
  destruct Hh as (_ & Hv & Ht). pose proof (valid_attempts s t Hv Ht). unfold work, MaxLaunchAttempts in *. destruct Hnext as [-> |[-> ->]]; destruct Hp as [-> | ->]; lia.
Qed.
Lemma loaded_here fails d s t : loadLocked fails d = Ok s → us_Transaction s = Some t → here d s t.
Proof. intros [Ha Hv]%load_ok Ht. done. Qed.

(** Every step of the loop finds what it was told and leaves less to do. *)
Lemma sup_step_measure e ce pc d : fits pc d → at_rest pc = false →
  fits (sup_step e ce pc d).1.2 (sup_step e ce pc d).1.1 ∧ measure (sup_step e ce pc d).1.2 (sup_step e ce pc d).1.1 < measure pc d.
Proof.
  intros Hfit Hrest. pose proof (single_work d _ (sup_step_single e ce pc d)) as Hw. pose proof (work_nonneg (st_now d)) as Hnn. unfold measure.
  assert (Hexit : (sup_step e ce pc d).1.2 = PExit → fits (sup_step e ce pc d).1.2 (sup_step e ce pc d).1.1 ∧
    6 * gauge work (st_now (sup_step e ce pc d).1.1) + place (sup_step e ce pc d).1.2 < 6 * gauge work (st_now d) + place pc).
  { intros ->. split; [done|]. cbn [place]. destruct pc; try done; cbn [place]; lia. }
  destruct pc as [|x|s|s t|t s|t s|x ph code|x ph code| | |]; try done; unfold sup_step in *; cbn [fits] in Hfit.
  - destruct (ev_done e 0); [by apply Hexit|]. destruct (loadLocked _ d) as [s|] eqn:El; [|by apply Hexit]. clear Hexit Hw. cbn [fst snd].
    apply load_ok in El as [Ha Hv]. destruct (us_Transaction s) as [t|] eqn:Et.
    + assert (Hh : here d s t) by done. pose proof (settled_here d s t Hh) as Hset. unfold under_way, in_phase in Hset.
      destruct (tx_Phase t) eqn:Ep; repeat case_match; cbn [fits place]; (split; [|lia]);
        first [apply Hset; reflexivity|split; [done|unfold under_way, in_phase; by rewrite Ep]|exists s, t; split; [done|unfold early, in_phase; by rewrite Ep]].
    + cbn [fits place]. split; [|lia]. intros s' t Ha' Ht. unfold at_state in Ha. congruence.
  - destruct Hfit as (s & t & Hh & He). unfold then_top in *. destruct (RequireOperatorAction e x "request_expired" d) as [d' [o [err|]]] eqn:Ed; [by apply Hexit|].
    apply RequireOperatorAction_done in Ed. cbn [fst snd fits place]. split; [done|]. rewrite Ed, (gauge_here _ _ _ _ Hh).
    assert (6 ≤ work t); [|lia]. unfold early in He. apply in_phase_spec in He. unfold work, MaxLaunchAttempts. set_unfold in He. destruct He as [-> |[-> |[-> |[-> |[]]]]]; lia.
  - destruct (launchSelected e s d); [|by apply Hexit]. cbn. split; [done|lia].
  - destruct Hfit as [Hh Hu]. destruct (MaxLaunchAttempts <=? tx_LaunchAttempts t).
    + unfold under_way in Hu. apply in_phase_spec in Hu. destruct (in_phase t [PhaseActivating]) eqn:Ep; unfold then_top in *.
      * destruct (BeginRollback e _ _ d) as [d' [o [err|]]] eqn:Ed; [by apply Hexit|]. apply BeginRollback_done with (s := s) (t := t) in Ed as [_ Hlt]; [|done].
        apply in_phase_spec in Ep. specialize (Hlt ltac:(set_solver)). cbn [fst snd fits place]. split; [done|lia].
      * destruct (RequireOperatorAction e _ _ d) as [d' [o [err|]]] eqn:Ed; [by apply Hexit|]. apply RequireOperatorAction_done in Ed.
        cbn [fst snd fits place]. split; [done|]. rewrite Ed, (gauge_here _ _ _ _ Hh). destruct Hh as (_ & Hv & Ht). pose proof (valid_attempts s t Hv Ht).
        assert (1 ≤ work t); [|lia]. unfold work, MaxLaunchAttempts in *. set_unfold in Hu. destruct Hu as [-> |[-> |[]]]; lia.
    + destruct (RecordLaunch e (tx_Identity t) d) as [d' [[s'|] [err|]]] eqn:Ed; try by apply Hexit. pose proof (RecordLaunch_work _ _ _ _ _ Ed) as Hlt.
      apply RecordLaunch_done in Ed as (_ & _ & s2 & t2 & _ & _ & _ & [= <-] & (_ & _ & Ht2) & _). cbn [fst snd fits place]. split; [congruence|lia].
  - destruct (launchSelected e s d); cbn [fst snd fits place]; (split; [done|lia]).
  - destruct ce as [h| | |]; try by apply Hexit.
    + destruct (us_Transaction s) as [t'|] eqn:Et; [|done]. cbv zeta in *. cbn [fst snd] in *. destruct (in_phase t' [PhaseActivating]).
      * destruct (CommitHealthy e _ h d) as [d' [o [err|]]] eqn:Ed; cbn [fst snd fits place] in *; [split; [done|lia]|].
        apply CommitHealthy_done in Ed as [Hs Hz]. split; [done|lia].
      * destruct (CommitRolledBack e _ h d) as [d' [o [err|]]] eqn:Ed; cbn [fst snd fits place] in *; [split; [done|lia]|].
        apply CommitRolledBack_done in Ed as [Hs Hz]. split; [done|lia].
    + cbn. split; [done|lia].
  - destruct (load_transaction e x d) as [[s t]|]; [|by apply Hexit]. cbn [fst snd]. destruct (_ <? _); cbn [fits place]; (split; [done|lia]).
  - unfold then_top in *. destruct (bool_decide _).
    + destruct (BeginRollback e x code d) as [d' [o [err|]]] eqn:Ed; [by apply Hexit|]. cbn [fst snd fits place] in *. split; [done|lia].
    + destruct (RequireOperatorAction e x _ d) as [d' [o [err|]]] eqn:Ed; [by apply Hexit|]. cbn [fst snd fits place] in *. split; [done|lia].
Qed.

(** The supervisor, with what it meets in each step. *)
Fixpoint supervise (es : nat → Env * ChildEvent) (n : nat) (x : Pc * Store) : Pc * Store :=
  match n with O => x | S n => supervise (fun k => es (S k)) n (sys_step x ((es 0%nat).1, AStep (es 0%nat).2)) end.
Lemma supervise_rests m : ∀ es pc d, fits pc d → measure pc d ≤ Z.of_nat m → ∃ n, (n ≤ m)%nat ∧
  at_rest (supervise es n (pc, d)).1 = true ∧ fits (supervise es n (pc, d)).1 (supervise es n (pc, d)).2.
Proof.
  induction m as [|m IH]; intros es pc d Hf Hm; destruct (at_rest pc) eqn:Er; try (by exists 0%nat; split; [lia|]).
  - unfold measure in Hm. pose proof (work_nonneg (st_now d)). destruct pc; cbn [place] in Hm; try done; lia.
  - destruct (sup_step_measure (es 0%nat).1 (es 0%nat).2 pc d Hf Er) as [Hf' Hlt].
    destruct (sup_step (es 0%nat).1 (es 0%nat).2 pc d) as [[d' pc'] l] eqn:Es. cbn [fst snd] in *.
    destruct (IH (fun k => es (S k)) pc' d' Hf' ltac:(lia)) as (n & Hn & Hr & Hfit). exists (S n). split; [lia|].
    cbn [supervise]. unfold sys_step. cbn [fst snd act]. by rewrite Es.
Qed.

(** C15. The supervisor comes to an end with every update.  Whatever the
    directory holds when it starts, whatever its programs do and whatever
    fails, it has done with the update within fifty steps: then it has exited,
    or it serves a program or waits for the operator, and no update is tried or
    taken back any more. *)
Theorem update_settles es d : ∃ n, (n ≤ 50)%nat ∧ let '(pc, d') := supervise es n (PTop, d) in
  pc = PExit ∨ (pc = PServe ∨ pc = PHalt) ∧ settled (st_now d').
Proof.
  destruct (supervise_rests 50 es PTop d) as (n & Hn & Hr & Hf); [done| |].
  - unfold measure, gauge. cbn [place]. destruct (rt_state (st_now d)) as [[s|]|]; try lia. destruct (State_Validate s) as [[]|] eqn:Ev; cbn [is_ok]; [|lia].
    destruct (us_Transaction s) as [t|] eqn:Et; [|lia]. pose proof (valid_attempts s t Ev Et). unfold work, MaxLaunchAttempts in *. repeat case_match; lia.
  - exists n. split; [done|]. destruct (supervise es n (PTop, d)) as [pc d']. cbn [fst snd] in *. destruct pc; try done; auto.
Qed.

(** ** What an activation tells *)

(** What a call answers, [a], of the directory before and after: a state that
    is answered is the one in the file; if another program has been selected,
    the answer is that, or that it is not known. *)
Record tells d d' (a : Answer) : Prop := {
  te_file : ∀ s, a.1 = Some s → at_state d' s;
  te_selected : ∀ s s', at_state d s → at_state d' s' → us_Active s' ≠ us_Active s →
    a = answers s' ∨ a.2 = Some ErrActivationOutcomeUnknown }.
Lemma tells_nothing d x : tells d d (None, x).
Proof. split; [done|]. unfold at_state. intros s s' Hs Hs' Hne. congruence. Qed.
Lemma tells_same d s x : at_state d s → tells d d (Some s, x).
Proof. intros Ha. split; [by intros s' [= <-]|]. unfold at_state. intros s1 s2 Hs Hs' Hne. congruence. Qed.
Lemma requireOperatorAction_tells e k s t code d : at_state d s → us_Transaction s = Some t →
  tells d (requireOperatorAction e k s code d).1 (requireOperatorAction e k s code d).2 ∧
  ∀ s', at_state (requireOperatorAction e k s code d).1 s' → us_Active s' = us_Active s.
Proof.
  intros Ha Ht. unfold requireOperatorAction. destruct (negb _).
  { split; [apply tells_nothing|]. unfold at_state. intros s' Ha'. cbn in Ha'. congruence. }
  set (s1 := on_transaction _ _). assert (Hact : us_Active s1 = us_Active s) by done. clearbody s1.
  destruct (commit_spec e k s1 d) as [Hp _]. destruct (commit e k s1 d) as [d' [[]|x]]; cbn [fst snd] in *;
    (assert (Hfile : ∀ s', at_state d' s' → us_Active s' = us_Active s);
      [unfold at_state in *; inversion Hp; subst; cbn; intros s' Ha'; congruence|split; [|exact Hfile]]); (split; cbn).
  - intros s' [= <-]. inversion Hp; subst. done.
  - intros s2 s' Ha2 Ha' Hne. unfold at_state in Ha, Ha2. assert (s2 = s) as -> by congruence. by apply Hfile in Ha'.
  - done.
  - intros s2 s' Ha2 Ha' Hne. unfold at_state in Ha, Ha2. assert (s2 = s) as -> by congruence. by apply Hfile in Ha'.
Qed.

Lemma denyActivation_tells e k s t code d : at_state d s → us_Transaction s = Some t →
  tells d (denyActivation e k s code d).1 (denyActivation e k s code d).2.
Proof.
  intros Ha Ht. destruct (requireOperatorAction_tells e k s t code d Ha Ht) as [[T1 _] Hsame]. unfold denyActivation.
  destruct (requireOperatorAction e k s code d) as [d' [[s'|] [x|]]]; cbn [fst snd] in *; (split; cbn [fst snd]; [done|]);
    intros s2 s3 Ha2 Ha3 Hne; unfold at_state in Ha, Ha2; (assert (s2 = s) as -> by congruence); by apply Hsame in Ha3.
Qed.
(** The reconciliation knows the state it wanted from the one before. *)
Lemma reconcile_tells e s next t x d d' : at_state d s → us_Transaction next = Some t → tx_Phase t = PhaseActivating →
  st_now d' = st_now d ∨ st_now d' = put_state next (st_now d) → tells d d' (reconcileActivationCommit e next x d').
Proof.
  intros Ha Ht Hp Hd. unfold reconcileActivationCommit. rewrite Ht.
  destruct (loadLocked _ d') as [o|] eqn:El; [|split; [done|by right]]. apply load_ok in El as [Ho _].
  destruct (us_Transaction o) as [to|] eqn:Eo; [|split; [done|by right]]. destruct (_ || _); [split; [done|by right]|].
  destruct (_ && _) eqn:E1.
  { split; [by intros ? [= <-]|]. intros s2 s3 _ Ha3 _. left. unfold at_state in *. assert (s3 = o) as -> by congruence. done. }
  clear E1. destruct (_ && _) eqn:E2; [|split; [done|by right]]. split; [by intros ? [= <-]|]. intros s2 s3 Ha2 Ha3 Hne. exfalso.
  rewrite !andb_true_iff in E2. destruct E2 as [[[[_ E2] _] _] _]. unfold in_phase in E2. apply bool_decide_eq_true in E2.
  unfold at_state in *. assert (s3 = o) as -> by congruence. destruct Hd as [Hd|Hd]; rewrite Hd in *; [congruence|].
  cbn in Ho. injection Ho as <-. assert (to = t) as -> by congruence. rewrite Hp in E2. set_solver.
Qed.

(** C20. An activation tells the truth.  A state that [Activate] answers is the
    one in the file, with or without an error; and if it selected another
    program, then it answers the state that says so, or says that the outcome
    is not known: no other answer leaves the old program in charge of a file
    that names the new one. *)
Theorem activation_is_known e x d : tells d (Activate e x d).1 (Activate e x d).2.
Proof.
  unfold Activate. destruct (load_transaction e x d) as [[s t]|] eqn:El; [|apply tells_nothing]. apply load_transaction_ok in El as (Ha & Hv & Ht & _).
  destruct (tx_Canceled t); [by apply tells_same|]. destruct (tx_Phase t); try apply tells_nothing; try by apply tells_same.
  destruct (tx_Candidate t) as [c|]; [|apply tells_nothing]. destruct (tx_ExpiresAt t <=? _); [by eapply denyActivation_tells|].
  destruct (match ev_resolve e with Some a => _ | None => _ end); [by eapply denyActivation_tells|].
  destruct (negb (verifyPayload _ c _ _)); [by eapply requireOperatorAction_tells|].
  destruct (negb (verifyPayload _ (us_Active s) _ _)); [by eapply requireOperatorAction_tells|].
  set (next := activated _ _ _ _). assert (Hn : ∃ tn, us_Transaction next = Some tn ∧ tx_Phase tn = PhaseActivating) by (eexists; split; reflexivity).
  destruct Hn as (tn & Hn & Hp). clearbody next.
  destruct (commit_spec e 1 next d) as [Hpub _]. destruct (commit e 1 next d) as [d' [[]|err]]; cbn [fst snd] in *.
  - inversion Hpub; subst. split; [by intros s' [= <-]|]. intros s1 s2 _ Ha2 _. left. unfold at_state in Ha2. cbn in Ha2. injection Ha2 as <-. done.
  - eapply reconcile_tells; [done..|]. inversion Hpub; subst; [by left|by right].
Qed.
End props.

(** ** At concrete inputs *)

#[local] Instance plain_case : UnicodeCase := {| rune_lower := fun n => n; rune_fold := fun n => n |}.
Definition release_path : string := "/dl".
#[local] Instance one_host : NetLibrary := {|
  url_Parse text := Some (mkURL "https" "" false "releases.example" release_path "" "" false "");
  ParseAddr _ := None; Addr_String _ := "" |}.
Definition hex_digit (n : Z) : string := of_bytes [if n <? 10 then 48 + n else 87 + n].
(** The hash of a text is its length, on 64 digits. *)
Definition length_digest (s : string) : string :=
  of_bytes (replicate 61 48) +:+ hex_digit (len s / 256) +:+ hex_digit (len s / 16 mod 16) +:+ hex_digit (len s mod 16).
#[local] Instance digest : Sha256 := length_digest.

Definition accept_s : Z := 1000000000.
Definition new_program : string := "newer".
Definition new_artifact (platform architecture : string) : Artifact :=
  let a := mkArtifact platform architecture "" 7 (length_digest "archive") in mkArtifact platform architecture (expectedName a) 7 (length_digest "archive").
Definition new_manifest : Manifest :=
  mkManifest 1 "v1.1.0" "stable" "published" "expires" "v1.0.0" 1 1 1
    [new_artifact "darwin" "amd64"; new_artifact "darwin" "arm64"; new_artifact "linux" "amd64"; new_artifact "linux" "arm64"].
Definition release_key : TrustedKey := let k := of_bytes (replicate 32 107) in mkTrustedKey (length_digest k) k.
#[local] Instance one_release : UpdateLibrary := {|
  time_Parse text := Some (timeFromUnix (if String.eqb text "published" then accept_s - 40 else accept_s + 20));
  json_Manifest _ := Some new_manifest;
  json_Signature _ := Some (mkSignature 1 "ed25519" (tk_KeyID release_key) "");
  base64_Decode _ := Some (of_bytes (replicate 64 115));
  ed25519_Verify _ _ _ := true;
  NewFile _ := Some (ELF, X86_64, true) |}.
#[local] Instance one_entry : TarReader := fun _ =>
  Some (mkTarEntry "mintclaw-node" true "" (len new_program) 493 (Some new_program) true).

Definition node_installation : Installation :=
  mkInstallation "main" "systemd" "user" "mintclaw-node.service" (of_bytes (replicate 32 97)) "/etc/mintclaw/node.json" "/usr/bin/mintclaw-node"
    (of_bytes (replicate 64 98)) 1000 1000 ("node_" +:+ of_bytes (replicate 52 99)) "linux" "amd64".
Definition old_payload : Payload := mkPayload SlotA "v1.0.0" "v1.0.0" (length_digest "old") 3.
Definition installed : State := mkState 1 1 node_installation old_payload None.
Definition old_slots (s : Slot) : option Image := match s with SlotA => Some (Binary "old") | SlotB => None end.
Definition update_identity : ExecutionIdentity :=
  mkExecution "invocation" "execution" (of_bytes (replicate 64 49)) (of_bytes (replicate 64 50)) (of_bytes (replicate 64 51)).
Definition new_release : ResolvedRelease :=
  mkResolved "default" "r1" "latest" "v1.1.0" "v1.1.0" "https://releases.example/dl" [] "stable" false (ex_AuthorityHash update_identity) release_key true.
Definition update_request : StageRequest :=
  mkStageRequest update_identity "default" "latest" (length_digest "manifest") (length_digest "archive") (timeFromUnix (accept_s + 600)).
Definition fair_env : Env :=
  mkEnv (fun _ => timeFromUnix accept_s) (fun _ => false) (fun _ => false) (fun _ => false) (fun _ => WriteOk) (Some new_release)
    (fun u => let body := if has_suffix ".json" (u_Path u) then "manifest" else if has_suffix ".sig" (u_Path u) then "signature" else "archive" in
              Some (mkResponse 200 (len body) (Some body)))
    (fun _ => false) true WriteOk.
(** The program runs, is asked for the update, and the machine crashes. *)
Definition update_run : trace :=
  [(fair_env, AStep CFailed); (fair_env, AStep CFailed); (fair_env, AStage "v1.0.0" update_request); (fair_env, AActivate update_identity);
   (fair_env, ACrash 0)].
Definition after_update : Root := st_now (sys_run (PTop, mkStore (mkRoot (Some (Some installed)) old_slots) []) update_run).2.
Definition selected (r : Root) : option (Payload * option Phase) :=
  match rt_state r with Some (Some s) => Some (us_Active s, tx_Phase <$> us_Transaction s) | _ => None end.
Example crash_keeps_activation : selected after_update =
  Some (mkPayload SlotB "v1.1.0" "v1.1.0" (length_digest new_program) 5, Some PhaseActivating).
Proof. vm_compute. reflexivity. Qed.
(** The new program never proves its health: it is started three times, then
    the old one is, which does. *)
Definition old_health : HealthObservation :=
  mkHealth (is_NodeID node_installation) "v1.0.0" "linux" "amd64" (of_bytes (replicate 64 100)) (timeFromUnix accept_s).
Definition roll_back_run : trace :=
  update_run ++ replicate 16 (fair_env, AStep CFailed) ++ replicate 4 (fair_env, AStep (CHealth old_health)).
Example unhealthy_is_rolled_back : let x := (PTop, mkStore (mkRoot (Some (Some installed)) old_slots) []) in
  selected (st_now (sys_run x roll_back_run).2) = Some (old_payload, Some PhaseRolledBack) ∧ tried x roll_back_run = 4.
Proof. vm_compute. done. Qed.
(** The payload cannot be read when its launch is to be recorded: no launch is
    recorded, the operator is asked for, and the payload is started all the
    same. *)
Definition unread_env : Env := let 'mkEnv now done unread _ write resolve get local signed publish := fair_env in
  mkEnv now done unread (fun n => Nat.eqb n 0) write resolve get local signed publish.
Definition unrecorded_run : trace :=
  update_run ++ [(fair_env, AStep CFailed); (unread_env, AStep CFailed); (fair_env, AStep CFailed)].
Example starts_what_it_gave_up : let x := sys_run (PTop, mkStore (mkRoot (Some (Some installed)) old_slots) []) unrecorded_run in
  running x.1 = true ∧ selected (st_now x.2) =
    Some (mkPayload SlotB "v1.1.0" "v1.1.0" (length_digest new_program) 5, Some PhaseOperatorActionRequired) ∧
  (tx_LaunchAttempts <$> match rt_state (st_now x.2) with Some (Some s) => us_Transaction s | _ => None end) = Some 0.
Proof. vm_compute. done. Qed.

(** The download fails when the clock has been set back behind the request: the
    failure cannot be recorded, and is answered as an unknown state. *)
Definition clock_back_env : Env := let 'mkEnv now done unread damaged write resolve _ get_local signed publish := fair_env in
  mkEnv (fun n => timeFromUnix (if Nat.eqb n 5 then accept_s - 10 else accept_s)) done unread damaged write resolve (fun _ => None)
    get_local signed publish.
Example clock_back_hides_the_failure :
  let x := Stage clock_back_env "v1.0.0" update_request (mkStore (mkRoot (Some (Some installed)) old_slots) []) in
  x.2 = state_unknown ∧ selected (st_now x.1) = Some (old_payload, Some PhaseDownloading).
Proof. vm_compute. done. Qed.

Lemma always_a_program_witness : ∃ s, rt_state after_update = Some (Some s) ∧ intact after_update (us_Installation s) (us_Active s) ∧
  authorized update_run old_payload (us_Installation s) (us_Active s).
Proof.
  destruct (always_a_program installed old_slots update_run) with (r := after_update) as (s & Hr & _ & _ & Hin & Hau & _).
  - vm_compute. reflexivity.
  - reflexivity.
  - vm_compute. reflexivity.
  - apply list_elem_of_here.
  - exists s. auto.
Defined.
Lemma calls_follow_protocol_witness : let d := mkStore (mkRoot (Some (Some installed)) old_slots) [] in
  evolves (Some (fair_env, update_request)) d (act fair_env (AStage "v1.0.0" update_request) PServe d).1.1.
Proof. cbv zeta. apply (calls_follow_protocol fair_env (AStage "v1.0.0" update_request)). intros k Hk. discriminate Hk. Defined.
